(* ===== verification/_CoqProject ===== *)
-Q . S2P
Prelude.v
GoStrings.v
Float64.v
Database.v
Interleaving.v
Ownership.v
PaymentOrder.v
Subscription.v
SubscriptionGate.v
PaymentStore.v
Redeem.v
Payment.v
Refund.v
PaymentInvariant.v
PaymentSafety.v
PaymentSystem.v
RefundInvariant.v
RefundSafety.v
RefundOwner.v
PaymentTheorems.v
PaymentMatching.v
PaymentLiveness.v
PaymentExamples.v
RefundTheorems.v
RefundLiveness.v
RefundExamples.v
BatchRequest.v
BatchStore.v
BatchImage.v
BatchIndex.v
BatchInvariant.v
BatchSafety.v
BatchTheorems.v
BatchLiveness.v
BatchExamples.v
Platforms.v
CompositeRoute.v
CompositeRouting.v
CompositeBest.v
CompositeInvariant.v
CompositeTheorems.v
CompositeExamples.v
ProxyFallback.v
UpstreamError.v
Interfaces.v
UpstreamRetry.v
Account.v
StrictFailover.v
Failover.v
GroupFallback.v
Idempotency.v
IdempotencyRepo.v
AuthLimiter.v
SessionCache.v
Suffixes.v
KeywordMatcher.v
KeywordTrie.v
KeywordLinks.v
KeywordLayout.v
KeywordCorrect.v
WSPreempt.v
WSPreemptProofs.v
WSPreemptTheorems.v
WSPreemptExamples.v
