(* ===== verification/Prelude.v ===== *)
(** * sub2api: a verification library for the gateway's control logic

    sub2api is a gateway that lets many users share upstream AI accounts.  A
    request is authenticated by an API key, assigned to a group of accounts,
    sent to one of them, and sent again elsewhere when the upstream fails.
    Beside that path, administrators' writes are made idempotent, expired
    proxies are replaced, and conversations are kept on the account that began
    them; users pay for balance and subscriptions through payment providers,
    are refunded, and submit batches of images that are paid from a held balance.
    This library models the decisions of that control logic, all of it under
    [backend/internal/]; forwarding, HTTP, SQL drivers and generated code
    are left out.

    ** Files

    - [Prelude.v]: results of fallible code, machine integers with their
      wrap-around, instants and durations in nanoseconds ([time.Time] since
      1970, the zero time included; [Sub] saturates as in Go), sums over
      lists, and the tactics for the code's boolean tests.
    - [GoStrings.v]: strings as lists of bytes, with the parts of [strings],
      [strconv] and [unicode/utf8] the code uses.
    - [Float64.v]: Go's [float64], the binary64 numbers of the standard
      library's [SpecFloat], with the operations and the tolerance tests the
      payment code uses.
    - [Interleaving.v]: programs that run concurrently over one store.  A
      program is a tree of calls; a pool of programs steps one call at a time;
      [safe] and its rule [wp_safe] prove a program by rely and guarantee, and
      [reachable_ok] turns that into an invariant of every reachable state.
    - [Ownership.v]: the same logic for programs that own what they create (a
      batch they are submitting, an order they are refunding), with rely
      conditions that depend on the token a program owns.
    - [Database.v]: what PostgreSQL does to the numbers and texts it stores, as
      classes.
    - [PaymentOrder.v]: the constants, rows and pure decisions of
      [service/payment_order_lifecycle.go] and [service/payment_fulfillment.go]
      (references of an order, metadata of a provider, amounts, leases).
    - [Subscription.v]: [service/user_subscription.go] and the terms and usage
      windows of [service/subscription_service.go]: renewal, extension, the
      resets of a day, a week and a month, and the limits they guard;
      [SubscriptionGate.v]: the check of [server/middleware/api_key_auth.go] on the
      cached copy, the maintenance of the row among others, and the second check.
    - [PaymentStore.v]: the tables payments write, the statements and
      transactions of the repositories on them, and the calls of a program.
    - [Redeem.v]: [service/redeem_service.go], the redemption of a code, the
      step by which an order's balance is credited.
    - [Payment.v]: the notification, verification, cancellation, expiry and
      retry of an order, as programs over the store.
    - [Refund.v]: [service/payment_refund.go], the user's request, the
      administrator's plan, the attempt and the conclusion of a pending refund.
    - [PaymentInvariant.v]: the relation [later] between an earlier and a later
      store, the invariant [inv], and one lemma per statement or transaction.
    - [PaymentSafety.v]: every payment program is [safe] for that invariant.
    - [PaymentSystem.v]: the same for refunds; the requests of the whole system,
      and the invariant in every state any pool of them reaches ([reach]).
    - [RefundInvariant.v]: the journal of refunds read as attempts, what an
      order's row says of them, and which changes of the store keep that.
    - [RefundSafety.v]: every other program of the system stays apart from the
      refund an attempt owns; [RefundOwner.v]: an attempt, from its claim to its
      outcome, and a conclusion keep the invariant.
    - [PaymentTheorems.v], [PaymentLiveness.v], [PaymentExamples.v]: the
      properties of payments, what a run without faults delivers, and runs on
      concrete stores; [RefundTheorems.v], [RefundLiveness.v],
      [RefundExamples.v]: the same of refunds; [PaymentMatching.v]: when a
      notification is about an order, and that no other changes anything.
    - [BatchRequest.v]: what a batch of images may contain and what it costs, of
      [service/batch_image_public.go].
    - [BatchStore.v]: the tables of batches and of balances, and the statements
      of [repository/batch_image_repo.go] and
      [repository/usage_billing_repo.go] on them.
    - [BatchImage.v]: submission, cancellation, processing, indexing,
      settlement, recovery and cleanup of a batch, as programs over the store.
    - [BatchIndex.v]: the new items of an indexed batch against the submitted
      ones.
    - [BatchInvariant.v], [BatchSafety.v]: the invariant of the tables, one lemma
      per statement, and every program kept safe for it.
    - [BatchTheorems.v], [BatchLiveness.v], [BatchExamples.v]: the properties of
      batches, what calls that succeed achieve, and runs on concrete stores.
    - [Platforms.v]: [domain/platforms.go], the platform registry.
    - [CompositeRoute.v]: the routes of groups that span providers, the choice
      of the best one, and the provider a model's name or its accounts give away
      ([service/composite_model_route.go], [service/composite_route_resolver.go],
      [service/composite_platform.go]); [CompositeRouting.v]: administration,
      resolution, the gateway's middlewares (for bodies and for Gemini paths) and
      what the handlers do with their decision before they look for an account
      ([handler/composite_platform.go]), as programs over the table.
    - [CompositeBest.v], [CompositeInvariant.v], [CompositeTheorems.v],
      [CompositeExamples.v]: the choice by look-ups, what the table keeps, what
      every run keeps, and runs on concrete tables.
    - [ProxyFallback.v]: [service/proxy.go], [service/proxy_fallback.go] and
      the sweep of [repository/proxy_repo.go]: the chain of backup proxies and
      the transactions that move accounts off an expired proxy.
    - [UpstreamError.v]: the failure a forward returns
      ([service/gateway_service.go]) and its billing classification
      ([service/upstream_billing_error.go]), over the interfaces [Unicode]
      (lower-casing) and [Gjson] (the JSON reader).
    - [Interfaces.v]: [RequestRetry], what the failover loop needs of a retry
      policy: a claimed retry uses up a finite budget of the request.
    - [UpstreamRetry.v]: [service/upstream_error_retry.go], the administrator's
      retry policy, its cache and the budget of a request; the instance of
      [RequestRetry].
    - [Account.v]: when an account may be scheduled ([service/account.go],
      [service/model_rate_limit.go] and neighbours).
    - [StrictFailover.v]: [service/strict_failover.go], tiers of accounts that
      are left only on evidence that the whole tier is down.
    - [Failover.v]: [handler/failover_loop.go] and the select / forward loop of
      [handler/gateway_handler.go], as a step relation over its decisions.
    - [GroupFallback.v]: [service/group_unavailable_fallback.go] and
      [service/api_key_group_fallback.go], leaving the group at most once.
    - [Idempotency.v]: [service/idempotency.go] against the interface
      [IdempotencyRepository]; [IdempotencyRepo.v]:
      [repository/idempotency_repo.go] as a table of rows, the instance of that
      interface, and runs of the coordinator on it.
    - [AuthLimiter.v]: [service/invalid_auth_abuse_limiter.go], the limiter of
      failed API-key attempts.
    - [SessionCache.v]: [service/session_memory_cache.go] and
      [service/digest_session_store.go], the bounded cache of conversations
      with its search for the longest known prefix.
    - [KeywordMatcher.v]: [service/content_moderation_keyword_matcher.go], the
      automaton that looks for all blocked keywords at once, and the linear
      search of [service/content_moderation.go] it replaces.
    - [Suffixes.v], [KeywordTrie.v], [KeywordLinks.v], [KeywordLayout.v],
      [KeywordCorrect.v]: the longest known suffix of a text, the trie under
      construction, the breadth-first links, the flat arrays with their sort
      and binary search, and the proof that the automaton answers as the linear
      search.

    - [WSPreempt.v]: [service/openai_ws_session_preemption.go] with the scripts
      of [repository/gateway_cache.go]: one connection per session, by a registry
      in each process and an owner key in Redis, as a transition system;
      [WSPreemptProofs.v], [WSPreemptTheorems.v], [WSPreemptExamples.v]: its
      invariant, which connection survives, and concrete runs.

    ** How the components meet

    A forward's failure is an [UpstreamError.UpstreamFailoverError].  The
    failover loop first asks the retry policy (through [RequestRetry]), then
    applies its built-in rules, excluding accounts and pausing; in strict mode
    the failure is recorded with its reason, and the selection of the next
    account consults those records ([StrictFailover]) and the account predicates
    ([Account]).  When no account is left, the group fallback may start over in
    one other group.  The loop is proved to end against the interface, and the
    retry policy is proved to meet it.  In the same way the idempotency
    coordinator is proved against the laws of its repository, and the SQL table
    is proved to satisfy them.

    A paid order is fulfilled by programs that call one another: a provider's
    notification ([Payment.HandlePaymentNotification]) confirms the payment,
    marks the order paid, takes a lease on it and either redeems the order's
    code ([Redeem]), which credits the balance, or assigns a subscription
    ([Subscription]); then the inviter's rebate is booked, each with an audit
    row in its transaction.  Administrators' retries, the user's verification
    and cancellation and the expiry job run the same code on the same rows at
    the same time, and all of them meet only in the store ([PaymentStore]).

    A delivered order is refunded by [Refund.ProcessRefund]: the plan is made
    from what is read, [Refund.ExecuteRefund] claims the order, takes the
    amount or the days, asks the provider and writes the outcome down.  A
    refund the provider has not decided is concluded by
    [Refund.QueryAndFinalizeRefund], from the audit entry the attempt left.
    Both run among all other programs of payments, and other services change
    balances at any time.

    A request to a composite group is routed before it is scheduled:
    [CompositeRouting.compositeTargetPlatformMiddleware] resolves its model by
    the administrator's routes, by the accounts that map it, or by its name, and
    leaves the decision in the request's context, where the handler and the
    selection of an account find it; what it left undecided the handler gives the
    platform that the name of the model suggests ([ensureCompositeTargetPlatform]).
    Administrators change the routes meanwhile.

    A request over a subscription is checked on a cached copy; when a window of the
    copy is over, or none was opened yet, the row is maintained by conditional updates
    ([SubscriptionGate.EnsureWindowMaintenance]), among other requests that may have
    come first, and the row read back decides.

    A batch of images is created by [BatchImage.Submit], which writes its row,
    holds its estimated price, writes its items and hands it to a provider.
    Workers then run [BatchImage.Pipeline], which asks the provider, indexes the
    output into the items and charges the user by capturing the hold; a batch
    that fails gives the hold back.  Cancellations, the recovery of submissions
    that stopped half-way, the cleanup of files, the archiving of billing claims
    and workers that lost their lock run at the same time on the same tables
    ([BatchStore]).

    ** Modelling conventions

    - A Go struct is a record with the fields the modelled code reads or writes;
      an operation on a shared value is a function from the old state to the
      new.  A method that holds one mutex throughout is one step.
    - What happens between steps is explicit where it matters: the sweep
      re-reads its rows in a transaction per proxy; in [Idempotency.Execute] an
      arbitrary function [env i] acts on the store before the [i]-th repository
      call and [fails i] makes the call fail; [longestDigestPrefix] takes what
      other calls do between its two locked sections.  The limiter's methods are
      taken as one step each; its atomics between lock sections are not
      interleaved.
    - A payment request is a program over the shared store: every repository
      call, cache call, provider call and reading of the clock is one call,
      between any two of which other requests may act.  A call may fail before
      or after it took effect, and a request may stop for good at any call (a
      crash).  A SQL transaction is one call, a list of statements of which all
      or none take effect.  Balances are numbers in units of 10^-8 dollars,
      rounded as the column rounds; beside them are journals of what was granted
      and of what refunds took, asked for, heard and gave back.  The journals are
      not tables: no program reads them.
    - The programs of batches are of the same kind.  Their balances are numbers,
      rounded as the columns round, beside a journal of the commands that were
      applied.  The parameters of a billing statement are taken as numbers, and
      a charge that is not finite is refused; users may be deleted; other
      services change available balances only.
    - An error is a value ([result], a sum or an [option]); a panic is [None]
      and shown not to occur.
    - Code outside the repository is a parameter: JSON, digests, regular
      expressions, lower-casing, hash seeds, the SQL engine behind the modelled
      statements, the time zones, decimal printing and the case folding of
      Unicode.  Laws assumed of such code are class fields or named
      hypotheses, with concrete instances in the examples.

    ** What the theorems show

    - Payments, under any interleaving, faults and crashes, as long as no
      administrator deletes a redeem code: a completed order
      was credited exactly once; nothing (balance, days of a subscription,
      rebate) is granted twice for one order; as long as nobody else redeems an
      order's code, which can be guessed, it is credited only after it was paid; a
      notification changes something only when it comes from the order's provider
      and agrees with what the order recorded; an order once paid is never lost to cancellation or expiry, and stays retryable;
      a lease that was taken over can no longer commit; the tables keep their
      keys unique.  When nothing fails, a notification delivers the order, and
      a retry completes an order left behind by a crash.  Two theorems record
      defects: an order whose code an administrator deleted between two reads
      is credited a second time, and writing down a provider's trade number
      takes the lease from the request that holds it.
    - Refunds, under any interleaving, faults and crashes: the attempts of an
      order come one after another, each takes once, asks the provider once and
      gives back once at most, only what it took and never after a success; at
      most one is accepted, being asked for or waiting for the provider, and a
      waiting one is not sent again before a query concluded it; a refunded order is
      final; only delivered orders are refunded.  When its calls succeed, an accepted
      refund completes, and a query concludes a pending one as the provider
      decided.  Five concrete runs record defects: orders that stay in
      REFUNDING or REFUND_PENDING for good, a deduction taken twice, and a
      request that is forgotten.
    - Subscriptions: the note of an assignment identifies its order; days add
      up to the cap; automatic windows stay on their grid, so that a week's
      quota is granted once per week; a request is let through exactly when the
      usage of the windows current at the moment is within the limits, as the copy
      says when it is current and else the row after maintenance, which never touches
      the usage of a window that is not over; a reset computed from a stale window harms
      nothing.
    - Batches, under any interleaving, faults and crashes: a billing operation is
      applied once at most; a job the provider works on is covered by a hold; a
      completed job was charged once, within its hold; the frozen balance is
      what the holds account for; jobs only move forward, and their counters
      add up to their items.  When its calls succeed, a settlement charges and
      completes the job, a failed job's hold is released, and indexing accounts
      for every submitted image once.  Six concrete runs record defects, among
      them holds that are never released and a charge that is given back.
    - Composite groups, under any interleaving of requests and administrators:
      the best route is the one four look-ups find, whatever the order of the
      table and the priorities; a request is scheduled as the middleware
      decided, or on the platform its model's name suggests when it decided nothing,
      always on a concrete provider its handler may serve, and never on a guess
      between OAuth accounts of several (which the Gemini endpoint does not look at);
      the routes of a group change only by requests that
      name it.
    - Proxies: the fallback resolution returns exactly the end of the backup
      chain and detects cycles; a committed sweep moves exactly the eligible
      accounts; each transaction acts only on rows unchanged since the snapshot.
    - Idempotency: one run at most per request, under any interleaving and any
      failing calls, and only after a claim that the table shows; none on a record
      of another request, a locked one or one that neither expired nor failed; exclusion while another request holds the key; replay
      after success, back-off after failure, conflict on reuse; other keys are
      untouched; renewal keeps the lease and the sweep deletes the oldest rows
      (lemmas of [IdempotencyRepo.v]).
      Two theorems record defects: an expired record can be taken over twice,
      and a truncated response can never be replayed.
    - Session cache: it refines a recency list under every sequence of
      operations, without panics, and a search finds the longest prefix for any
      hash function.
    - Failover: every request ends within an explicit number of rounds, retries
      within an account's window of time bounded by that time; vetoed
      accounts stay excluded; the exact effect of each failure; strict tiers are
      left only when each account is proved unavailable, and pinning keeps the owner; at most three group
      attempts.
    - Retries: all retries of a request stay within the pinned budget, satisfy
      every guard, and normalised settings are a fixed point.
    - Limiter: it answers as one counter with a window and a block per client
      would, but for clients that find no room, who share one; it stays within its
      capacity.
    - Keywords: the automaton answers exactly as the linear search, for all
      keywords and texts, and no access leaves its arrays.
    - WebSocket sessions, in any number of processes and with Redis failing: of
      two connections in a process the older is replaced; two that claimed in
      different processes do not both survive their next looks; and nothing the
      older ones do ends a connection that owns its session while no other opens.  Two runs record races: connections that
      open at once and replace each other, and a watch that outlives its
      connection.
    - Classification, accounts, platforms: what the classifier may depend on,
      which reason is reported, cooldowns, and the registry's lists.

    ** Fuel and bounds

    - [ResolveProxyFallbackTarget]: one unit per proxy not visited yet; the
      refinement theorem shows it suffices.
    - [TrimSpace], [ValidString]: the length of the string, as every step
      consumes a byte.
    - [SessionCache.evict]: the length of the recency list, one element a step;
      the refinement theorem excludes running out.
    - [KeywordMatcher]: a loop over a node's children has one unit per edge,
      one along failure links one per node, and the queue holds every node once.
    - [BatchImage.expected_pages]: one page of 500 items, and one more for every
      500 the batch has.  What is said of a batch's items holds when at most 499
      images a job are allowed ([BatchSafety.small]; the default is 200), as the
      later pages are read by separate statements.
    - [Failover]: the loop is a relation, with a measure that bounds its length.
    - Integers that can wrap are wrapped ([wrap64], [wrapu32], [wrapu64]);
      counters bounded by their use are plain.

    ** Not modelled

    Request forwarding and streaming, protocol conversion, prices, Redis-side
    state (concurrency slots), OAuth and other clients of external services,
    monitoring, the audit and chat-bot subsystems, the proxy kernel's
    supervision, generated code and the frontend.  Of payments: the adapters of
    the providers, the creation of orders and the generation of codes; of
    composite groups, the handlers of WebSockets, live sessions and images, which read
    their model in their own ways; of
    preempted sessions, the classification of their errors; of
    refunds, the cache invalidations, the texts of warnings and failure reasons,
    and the total a user ever recharged, to which a returned deduction is added.
    Of batches: the adapters of the providers and the parsing of their output,
    the choice of an account, the worker loop with its Redis queue and locks, the
    selection of batches due for cleanup, listings, downloads, usage logs, the
    cache of API keys and the texts of errors.  Left for extension, in this
    order: fixed quota windows, scheduled tests, and the queue of batch
    workers. *)

From stdpp Require Export base list gmap strings sorting.
From Stdlib Require Export ZArith Lia Ascii.
From Stdlib Require Import Permutation.

#[export] Set Default Goal Selector "!".

Open Scope Z_scope.

(** ** Scope, databases and tactics *)

Declare Scope go_scope.
Delimit Scope go_scope with go.
Open Scope go_scope.

Create HintDb go discriminated.

(** Case analysis on the innermost [match]/[if] of the goal or a hypothesis. *)
Ltac break_match :=
  match goal with
  | |- context [match ?x with _ => _ end] =>
      lazymatch x with
      | context [match _ with _ => _ end] => fail
      | _ => destruct x eqn:?
      end
  | H : context [match ?x with _ => _ end] |- _ =>
      lazymatch x with
      | context [match _ with _ => _ end] => fail
      | _ => destruct x eqn:?
      end
  end.

(** Turn boolean tests of the code into propositions. *)
Ltac bool_hyp :=
  repeat match goal with
  | H : _ && _ = true |- _ => apply andb_true_iff in H; destruct H
  | H : _ || _ = false |- _ => apply orb_false_iff in H; destruct H
  | H : negb _ = true |- _ => apply negb_true_iff in H
  | H : negb _ = false |- _ => apply negb_false_iff in H
  | H : bool_decide _ = true |- _ => apply bool_decide_eq_true_1 in H
  | H : bool_decide _ = false |- _ => apply bool_decide_eq_false_1 in H
  | H : Z.ltb _ _ = true |- _ => apply Z.ltb_lt in H
  | H : Z.ltb _ _ = false |- _ => apply Z.ltb_ge in H
  | H : Z.leb _ _ = true |- _ => apply Z.leb_le in H
  | H : Z.leb _ _ = false |- _ => apply Z.leb_gt in H
  | H : Z.eqb _ _ = true |- _ => apply Z.eqb_eq in H
  | H : Z.eqb _ _ = false |- _ => apply Z.eqb_neq in H
  end.

(** Split every branch of a handler and close the routine ones. *)
Ltac step_all := repeat (break_match; simplify_eq/=; bool_hyp; try done).

(** ** Results of fallible code *)

Inductive result (E A : Type) : Type :=
  | Ok (a : A)
  | Err (e : E).
Arguments Ok {E A} a.
Arguments Err {E A} e.

Definition rbind {E A B} (r : result E A) (k : A → result E B) : result E B :=
  match r with Ok a => k a | Err e => Err e end.

Notation "'let*' x ':=' r 'in' k" := (rbind r (λ x, k))
  (at level 10, x pattern, r at level 100, k at level 200) : go_scope.

Lemma rbind_ok {E A B} (r : result E A) (k : A → result E B) b :
  rbind r k = Ok b ↔ ∃ a, r = Ok a ∧ k a = Ok b.
Proof.
  destruct r as [a|e]; simpl; split.
  - intros ?. by exists a.
  - by intros (? & [= <-] & ?).
  - done.
  - by intros (? & ? & _).
Qed.

(** ** Machine integers and durations *)

Definition int64_min : Z := - 2 ^ 63.
Definition int64_max : Z := 2 ^ 63 - 1.
Definition wrap64 (z : Z) : Z := (z + 2 ^ 63) mod 2 ^ 64 - 2 ^ 63.
Definition wrapu32 (z : Z) : Z := z mod 2 ^ 32.
Definition wrapu64 (z : Z) : Z := z mod 2 ^ 64.

Definition int64_range (z : Z) : Prop := int64_min ≤ z ≤ int64_max.

Lemma wrap64_id z : int64_range z → wrap64 z = z.
Proof.
  unfold int64_range, int64_min, int64_max, wrap64. intros.
  rewrite Z.mod_small; lia.
Qed.

Lemma wrap64_range z : int64_range (wrap64 z).
Proof.
  unfold int64_range, int64_min, int64_max, wrap64.
  pose proof (Z.mod_pos_bound (z + 2 ^ 63) (2 ^ 64) ltac:(lia)). lia.
Qed.

(** An instant is the count of nanoseconds since the Unix epoch; [time.Time{}]
    is the first of January of the year 1. *)
Abbreviation time := Z (only parsing).
Abbreviation duration := Z (only parsing).

Definition zero_time : time := - 62135596800 * 10 ^ 9.
Definition nanosecond : duration := 1.
Definition millisecond : duration := 10 ^ 6.
Definition second : duration := 10 ^ 9.
Definition minute : duration := 60 * second.
Definition hour : duration := 60 * minute.

(** [t.Sub(u)] saturates at the bounds of [time.Duration]. *)
Definition time_sub (t u : time) : duration := Z.max int64_min (Z.min int64_max (t - u)).

(** [t.After(u)], [t.Before(u)]. *)
Definition after (t u : time) : bool := u <? t.
Definition before (t u : time) : bool := t <? u.

Lemma after_spec t u : after t u = true ↔ u < t.
Proof. apply Z.ltb_lt. Qed.
Lemma before_spec t u : before t u = true ↔ t < u.
Proof. apply Z.ltb_lt. Qed.
Lemma after_false t u : after t u = false ↔ t ≤ u.
Proof. apply Z.ltb_ge. Qed.
Lemma before_false t u : before t u = false ↔ u ≤ t.
Proof. apply Z.ltb_ge. Qed.

Lemma time_sub_exact t u : int64_range (t - u) → time_sub t u = t - u.
Proof. unfold time_sub, int64_range. lia. Qed.

Lemma time_sub_range t u : int64_range (time_sub t u).
Proof. unfold time_sub, int64_range, int64_min, int64_max. lia. Qed.

Lemma time_sub_pos t u : u < t → 0 < time_sub t u.
Proof. unfold time_sub, int64_min, int64_max. lia. Qed.

#[export] Hint Resolve wrap64_range time_sub_range time_sub_pos : go.

(** ** Sums over lists *)

Definition sumZ {A} (f : A → Z) (l : list A) : Z := foldr (λ x n, f x + n) 0 l.

Lemma sumZ_app {A} (f : A → Z) l k : sumZ f (l ++ k) = sumZ f l + sumZ f k.
Proof. induction l as [|x l IH]; simpl; lia. Qed.

Lemma sumZ_insert {A} (f : A → Z) l i x y : l !! i = Some x →
  sumZ f (<[i := y]> l) = sumZ f l - f x + f y.
Proof.
  revert i. induction l as [|z l IH]; intros [|i] Hi; simplify_eq/=; [lia|]. rewrite (IH i Hi). lia.
Qed.

Lemma sumZ_le {A} (f g : A → Z) l : (∀ x, x ∈ l → f x ≤ g x) → sumZ f l ≤ sumZ g l.
Proof.
  induction l as [|x l IH]; intros Hle; simpl; [lia|].
  pose proof (Hle x (list_elem_of_here _ _)).
  assert (sumZ f l ≤ sumZ g l) by (apply IH; intros; apply Hle; by apply list_elem_of_further). lia.
Qed.

(** A sum falls when one of its terms does and none grows. *)
Lemma sumZ_lt {A} (f g : A → Z) l x :
  (∀ y, f y ≤ g y) → x ∈ l → f x < g x → sumZ f l < sumZ g l.
Proof.
  intros Hle Hx Hlt. induction l as [|y l IH]; [by apply not_elem_of_nil in Hx|].
  simpl. apply elem_of_cons in Hx as [<-|Hx].
  - pose proof (sumZ_le f g l ltac:(auto)). lia.
  - specialize (IH Hx). pose proof (Hle y). lia.
Qed.

Lemma sumZ_bound {A} (f : A → Z) l b :
  (∀ x, x ∈ l → f x ≤ b) → sumZ f l ≤ Z.of_nat (length l) * b.
Proof.
  induction l as [|x l IH]; intros Hle; simpl length; simpl sumZ; [lia|].
  pose proof (Hle x (list_elem_of_here _ _)).
  assert (sumZ f l ≤ Z.of_nat (length l) * b)
    by (apply IH; intros; apply Hle; by apply list_elem_of_further). lia.
Qed.

Lemma sumZ_nonneg {A} (f : A → Z) l : (∀ x, x ∈ l → 0 ≤ f x) → 0 ≤ sumZ f l.
Proof.
  induction l as [|x l IH]; intros Hle; simpl; [lia|].
  pose proof (Hle x (list_elem_of_here _ _)).
  assert (0 ≤ sumZ f l) by (apply IH; intros; apply Hle; by apply list_elem_of_further). lia.
Qed.

(** Sums over maps. *)
Definition sumM {V} (f : nat → V → Z) (m : gmap nat V) : Z := sumZ (λ p, f p.1 p.2) (map_to_list m).

Lemma sumZ_Permutation {A} (f : A → Z) l k : l ≡ₚ k → sumZ f l = sumZ f k.
Proof. induction 1; simpl; lia. Qed.

Lemma sumM_empty {V} (f : nat → V → Z) : sumM f ∅ = 0.
Proof. unfold sumM. by rewrite map_to_list_empty. Qed.

Lemma sumM_insert_new {V} (f : nat → V → Z) m i x : m !! i = None → sumM f (<[i := x]> m) = f i x + sumM f m.
Proof. intros Hi. unfold sumM. by rewrite (sumZ_Permutation _ _ _ (map_to_list_insert m i x Hi)). Qed.

Lemma sumM_delete {V} (f : nat → V → Z) m i x : m !! i = Some x → sumM f (delete i m) = sumM f m - f i x.
Proof.
  intros Hi. rewrite <- (insert_id m i x Hi) at 2. rewrite <- insert_delete_eq.
  rewrite sumM_insert_new by apply lookup_delete_eq. lia.
Qed.

Lemma sumM_insert {V} (f : nat → V → Z) m i x :
  sumM f (<[i := x]> m) = sumM f m - match m !! i with Some y => f i y | None => 0 end + f i x.
Proof.
  destruct (m !! i) as [y|] eqn:Hi; [|rewrite sumM_insert_new by done; lia].
  rewrite <- insert_delete_eq, sumM_insert_new, (sumM_delete f m i y) by (done || apply lookup_delete_eq). lia.
Qed.

Lemma sumM_le {V} (f g : nat → V → Z) m : (∀ i x, m !! i = Some x → f i x ≤ g i x) → sumM f m ≤ sumM g m.
Proof. intros Hle. apply sumZ_le. intros [i x] Hx%elem_of_map_to_list. by apply Hle. Qed.

Lemma sumM_ext {V} (f g : nat → V → Z) m : (∀ i x, m !! i = Some x → f i x = g i x) → sumM f m = sumM g m.
Proof. intros He. apply Z.le_antisymm; apply sumM_le; intros; rewrite He; done. Qed.

Lemma sumM_nonneg {V} (f : nat → V → Z) m : (∀ i x, m !! i = Some x → 0 ≤ f i x) → 0 ≤ sumM f m.
Proof. intros Hf. apply sumZ_nonneg. intros [i x] Hx%elem_of_map_to_list. by apply Hf. Qed.

Lemma sumM_split {V} (f : nat → V → Z) m i :
  sumM f m = sumM f (delete i m) + match m !! i with Some x => f i x | None => 0 end.
Proof.
  destruct (m !! i) as [x|] eqn:Hi; [rewrite (sumM_delete f m i x Hi); lia|]. rewrite delete_id by done. lia.
Qed.

(** One term changes. *)
Lemma sumM_change {V} (f g : nat → V → Z) m i x : m !! i = Some x → (∀ j y, j ≠ i → m !! j = Some y → f j y = g j y) →
  sumM g m = sumM f m - f i x + g i x.
Proof.
  intros Hi He. pose proof (sumM_delete f m i x Hi). pose proof (sumM_delete g m i x Hi).
  assert (sumM f (delete i m) = sumM g (delete i m)); [|lia]. apply sumM_ext. intros j y [Hne Hj]%lookup_delete_Some. by apply He.
Qed.

(** ** Filtering *)

Lemma filter_all_false {A} (P : A → Prop) `{!∀ x, Decision (P x)} (l : list A) :
  (∀ x, x ∈ l → ¬ P x) → filter P l = [].
Proof.
  induction l as [|x l IH]; intros Hl; [done|]. rewrite filter_cons_False by (apply Hl, list_elem_of_here).
  apply IH. intros y Hy. by apply Hl, list_elem_of_further.
Qed.

Lemma filter_all_true {A} (P : A → Prop) `{!∀ x, Decision (P x)} (l : list A) :
  (∀ x, x ∈ l → P x) → filter P l = l.
Proof.
  induction l as [|x l IH]; intros Hl; [done|]. rewrite filter_cons_True by (apply Hl, list_elem_of_here).
  f_equal. apply IH. intros y Hy. by apply Hl, list_elem_of_further.
Qed.

(** Elements that differ have different keys. *)
Lemma NoDup_fmap_elem {A B} (f : A → B) (l : list A) x y :
  NoDup (f <$> l) → x ∈ l → y ∈ l → f x = f y → x = y.
Proof.
  intros Hl [i Hi]%list_elem_of_lookup [j Hj]%list_elem_of_lookup Hf.
  assert (i = j) as ->; [|by simplify_eq].
  eapply NoDup_lookup; [exact Hl|by rewrite list_lookup_fmap, Hi|by rewrite list_lookup_fmap, Hj, Hf].
Qed.

(** A row after an insertion is the new one or was there before. *)
Lemma insert_cases {A} (m : gmap Z A) i j x y :
  <[i := x]> m !! j = Some y → (j = i ∧ y = x) ∨ (j ≠ i ∧ m !! j = Some y).
Proof. intros [[-> ->]|[? ?]]%lookup_insert_Some; [by left|by right]. Qed.
