(* ===== verification/GoStrings.v ===== *)
(** * The parts of package [strings], [strconv] and [unicode/utf8] the code uses

    A Go string is its list of bytes.  [TrimSpace], [Split], [Join],
    [ReplaceAll], [Contains], [HasPrefix] and [Atoi] are defined on bytes the
    way the library computes them; [ToLower] needs the Unicode tables and is a
    parameter ([Unicode]) of the components that call it. *)

From S2P Require Import Prelude.

Abbreviation bytes := (list ascii) (only parsing).

(** A literal of the source. *)
Definition lit (s : string) : bytes := String.list_ascii_of_string s.

(** [strings.ToLower]. *)
Class Unicode := ToLower : bytes → bytes.

Module GoStrings.

Definition byte_of (n : nat) : ascii := ascii_of_nat n.

(** ** Trimming *)

(** The UTF-8 encodings of the code points [unicode.IsSpace] accepts. *)
Definition space_runes : list bytes :=
  map (map byte_of)
    ([[9]; [10]; [11]; [12]; [13]; [32]; [194; 133]; [194; 160]; [225; 154; 128]]
     ++ map (λ k, [226; 128; k]) [128; 129; 130; 131; 132; 133; 134; 135; 136; 137; 138; 168; 169; 175]
     ++ [[226; 129; 159]; [227; 128; 128]])%nat.

Definition is_prefix (p s : bytes) : bool := bool_decide (p `prefix_of` s).

(** Drop leading patterns as long as one matches. *)
Fixpoint strip (pats : list bytes) (fuel : nat) (s : bytes) : bytes :=
  match fuel with
  | O => s
  | S fuel =>
      match list_find (λ p, is_prefix p s = true) pats with
      | Some (_, p) => strip pats fuel (drop (length p) s)
      | None => s
      end
  end.

Definition TrimLeft (s : bytes) : bytes := strip space_runes (length s) s.
Definition TrimRight (s : bytes) : bytes :=
  reverse (strip (reverse <$> space_runes) (length s) (reverse s)).
Definition TrimSpace (s : bytes) : bytes := TrimRight (TrimLeft s).

Definition stripped (pats : list bytes) (s : bytes) : Prop :=
  ∀ p, p ∈ pats → is_prefix p s = false.

Lemma strip_suffix pats fuel : ∀ s, strip pats fuel s `suffix_of` s.
Proof.
  induction fuel as [|fuel IH]; intros s; simpl; [done|].
  destruct (list_find _ pats) as [[i p]|]; [|done].
  etrans; [apply IH|]. exists (take (length p) s). by rewrite take_drop.
Qed.

Lemma strip_stripped pats fuel : ∀ s,
  (∀ p, p ∈ pats → p ≠ []) → (length s ≤ fuel)%nat → stripped pats (strip pats fuel s).
Proof.
  induction fuel as [|fuel IH]; intros s Hne Hlen.
  - destruct s; simpl in *; [|lia]. intros p Hp. unfold is_prefix. apply bool_decide_false.
    intros [k Hk]. symmetry in Hk. apply app_eq_nil in Hk as [? _]. by apply (Hne p).
  - simpl. destruct (list_find _ pats) as [[i p]|] eqn:Hf.
    + apply list_find_Some in Hf as (Hp & Hpre & _). apply list_elem_of_lookup_2 in Hp.
      apply IH; [done|]. rewrite length_drop. unfold is_prefix in Hpre. bool_hyp.
      assert (length p ≠ 0)%nat by (intros ?%nil_length_inv; by apply (Hne p)).
      match goal with H : p `prefix_of` s |- _ => apply prefix_length in H end. lia.
    + apply list_find_None in Hf. rewrite Forall_forall in Hf.
      intros p Hp. apply Hf in Hp. by destruct (is_prefix p s).
Qed.

Lemma strip_id pats fuel s : stripped pats s → strip pats fuel s = s.
Proof.
  intros Hs. destruct fuel; simpl; [done|].
  destruct (list_find _ pats) as [[i p]|] eqn:Hf; [|done].
  apply list_find_Some in Hf as (Hp & Hpre & _). apply list_elem_of_lookup_2 in Hp.
  by rewrite Hs in Hpre.
Qed.

Lemma space_runes_nonempty p : p ∈ space_runes → p ≠ [].
Proof.
  assert (H : Forall (λ p, p ≠ []) space_runes) by (repeat constructor; done).
  rewrite Forall_forall in H. apply H.
Qed.

Lemma TrimRight_prefix s : TrimRight s `prefix_of` s.
Proof.
  unfold TrimRight. pose proof (strip_suffix (reverse <$> space_runes) (length s) (reverse s)) as [k Hk].
  exists (reverse k). by rewrite <- reverse_app, <- Hk, reverse_involutive.
Qed.

Lemma stripped_prefix pats s t : s `prefix_of` t → stripped pats t → stripped pats s.
Proof.
  intros Hst Ht p Hp. unfold is_prefix. apply bool_decide_false. intros Hps.
  specialize (Ht p Hp). unfold is_prefix in Ht. bool_hyp. apply Ht. by etrans.
Qed.

Definition trimmed (s : bytes) : Prop :=
  stripped space_runes s ∧ stripped (reverse <$> space_runes) (reverse s).

Lemma TrimSpace_trimmed s : trimmed (TrimSpace s).
Proof.
  split.
  - eapply stripped_prefix; [apply TrimRight_prefix|].
    apply strip_stripped; [apply space_runes_nonempty|done].
  - unfold TrimSpace, TrimRight. rewrite reverse_involutive.
    apply strip_stripped; [|by rewrite length_reverse].
    intros p (q & -> & Hq)%list_elem_of_fmap Hr. apply (space_runes_nonempty q Hq).
    rewrite <- (reverse_involutive q), Hr. done.
Qed.

Lemma TrimSpace_id s : trimmed s → TrimSpace s = s.
Proof.
  intros [H1 H2]. unfold TrimSpace, TrimLeft, TrimRight.
  by rewrite (strip_id space_runes), (strip_id (reverse <$> space_runes)), reverse_involutive.
Qed.

Lemma TrimSpace_infix s : ∃ k1 k2, s = k1 ++ TrimSpace s ++ k2.
Proof.
  destruct (strip_suffix space_runes (length s) s) as [k1 H1].
  destruct (TrimRight_prefix (TrimLeft s)) as [k2 H2].
  exists k1, k2. fold (TrimLeft s) in H1. unfold TrimSpace. by rewrite <- H2.
Qed.

Lemma TrimSpace_elem x s : x ∈ TrimSpace s → x ∈ s.
Proof. destruct (TrimSpace_infix s) as (k1 & k2 & Hs). intros. rewrite Hs. set_solver. Qed.

(** Trimming keeps a byte that is in no white space. *)
Lemma strip_keeps x pats fuel : (∀ p, p ∈ pats → x ∉ p) → ∀ s, x ∈ s → x ∈ strip pats fuel s.
Proof.
  intros Hx. induction fuel as [|fuel IH]; intros s Hs; simpl; [done|].
  destruct (list_find _ pats) as [[i p]|] eqn:Hf; [|done].
  apply list_find_Some in Hf as (Hp & Hpre & _). apply list_elem_of_lookup_2 in Hp.
  apply bool_decide_eq_true_1 in Hpre as [k ->]. rewrite drop_app_length. apply IH.
  by apply elem_of_app in Hs as [?%(Hx p Hp)|].
Qed.

Lemma TrimSpace_keeps x s : (∀ p, p ∈ space_runes → x ∉ p) → x ∈ s → x ∈ TrimSpace s.
Proof.
  intros Hx Hs. unfold TrimSpace, TrimRight, TrimLeft. apply elem_of_reverse, strip_keeps.
  - intros p (q & -> & Hq)%list_elem_of_fmap. rewrite elem_of_reverse. by apply Hx.
  - by apply elem_of_reverse, strip_keeps.
Qed.

Lemma TrimSpace_length s : (length (TrimSpace s) ≤ length s)%nat.
Proof.
  destruct (TrimSpace_infix s) as (k1 & k2 & Hs).
  rewrite Hs at 2. rewrite !length_app. lia.
Qed.

(** ** Splitting and joining at one byte *)

Fixpoint Split (sep : ascii) (s : bytes) : list bytes :=
  match s with
  | [] => [[]]
  | x :: s =>
      if decide (x = sep) then [] :: Split sep s
      else match Split sep s with
           | [] => [[x]]
           | l :: ls => (x :: l) :: ls
           end
  end.

Fixpoint Join (sep : ascii) (ls : list bytes) : bytes :=
  match ls with
  | [] => []
  | [l] => l
  | l :: ls => l ++ sep :: Join sep ls
  end.

Lemma Split_app sep l s : sep ∉ l → Split sep (l ++ sep :: s) = l :: Split sep s.
Proof.
  induction l as [|x l IH]; intros Hn; simpl.
  - by rewrite decide_True.
  - rewrite decide_False by set_solver. rewrite IH by set_solver. done.
Qed.

Lemma Split_single sep l : sep ∉ l → Split sep l = [l].
Proof.
  induction l as [|x l IH]; intros Hn; simpl; [done|].
  rewrite decide_False by set_solver. rewrite IH by set_solver. done.
Qed.

Lemma Split_Join sep ls : ls ≠ [] → Forall (λ l, sep ∉ l) ls → Split sep (Join sep ls) = ls.
Proof.
  induction ls as [|l ls IH]; [done|]. intros _ Hall. apply Forall_cons in Hall as [Hl Hls].
  destruct ls as [|l' ls]; [by apply Split_single|].
  change (Join sep (l :: l' :: ls)) with (l ++ sep :: Join sep (l' :: ls)).
  rewrite Split_app by done. by rewrite IH.
Qed.

Lemma Split_no_sep sep s : Forall (λ l, sep ∉ l) (Split sep s).
Proof.
  induction s as [|x s IH]; simpl; [repeat constructor; set_solver|].
  case_decide; [constructor; [set_solver|done]|].
  destruct (Split sep s) as [|l ls]; [repeat constructor; set_solver|].
  apply Forall_cons in IH as [? ?]. constructor; [set_solver|done].
Qed.

Lemma Split_elem sep s l x : l ∈ Split sep s → x ∈ l → x ∈ s.
Proof.
  revert l. induction s as [|y s IH]; intros l; simpl; [by intros ->%list_elem_of_singleton|].
  rewrite (elem_of_cons s). case_decide.
  - intros [->|Hl]%elem_of_cons Hx; [by apply not_elem_of_nil in Hx|]. right. by eapply IH.
  - destruct (Split sep s) as [|m ms].
    + intros ->%list_elem_of_singleton ->%list_elem_of_singleton. by left.
    + intros [->|Hl]%elem_of_cons Hx.
      * apply elem_of_cons in Hx as [->|Hx]; [by left|]. right. apply (IH m); [apply list_elem_of_here|done].
      * right. apply (IH l); [by apply list_elem_of_further|done].
Qed.

(** The total size of the pieces, each with its separator. *)
Definition sizes (ls : list bytes) : nat := foldr (λ l n, S (length l) + n)%nat O ls.

Lemma Split_sizes sep s : sizes (Split sep s) = S (length s).
Proof.
  induction s as [|x s IH]; simpl; [done|].
  case_decide; simpl; [by rewrite IH|].
  destruct (Split sep s); simpl in *; lia.
Qed.

Lemma Join_sizes sep ls : ls ≠ [] → S (length (Join sep ls)) = sizes ls.
Proof.
  induction ls as [|l ls IH]; [done|]. intros _. destruct ls as [|l' ls]; [simpl; lia|].
  change (Join sep (l :: l' :: ls)) with (l ++ sep :: Join sep (l' :: ls)).
  specialize (IH ltac:(done)). rewrite length_app.
  change (sizes (l :: l' :: ls)) with (S (length l) + sizes (l' :: ls))%nat.
  change (length (sep :: Join sep (l' :: ls))) with (S (length (Join sep (l' :: ls)))). lia.
Qed.

Lemma Join_elem sep ls x : x ∈ Join sep ls → x = sep ∨ ∃ l, l ∈ ls ∧ x ∈ l.
Proof.
  induction ls as [|l ls IH]; simpl; [set_solver|].
  destruct ls as [|l' ls]; [set_solver|].
  intros [?|[->|?]%elem_of_cons]%elem_of_app; [set_solver|set_solver|].
  destruct IH as [?|(? & ? & ?)]; [done|by left|set_solver].
Qed.

(** ** [ReplaceAll(s, "\r\n", "\n")], [Contains], [Atoi] *)

Definition CR : ascii := byte_of 13.
Definition LF : ascii := byte_of 10.
Definition NUL : ascii := byte_of 0.

Fixpoint crlf_to_lf (s : bytes) : bytes :=
  match s with
  | [] => []
  | x :: s' =>
      match s' with
      | y :: _ => if decide (x = CR ∧ y = LF) then crlf_to_lf s' else x :: crlf_to_lf s'
      | [] => [x]
      end
  end.

Lemma crlf_to_lf_cons x s : crlf_to_lf (x :: s) =
  match s with y :: _ => if decide (x = CR ∧ y = LF) then crlf_to_lf s else x :: crlf_to_lf s | [] => [x] end.
Proof. done. Qed.

Lemma crlf_to_lf_id s : CR ∉ s → crlf_to_lf s = s.
Proof.
  induction s as [|x [|y s] IH]; intros Hn; [done..|].
  rewrite crlf_to_lf_cons, decide_False by set_solver. rewrite IH by set_solver. done.
Qed.

Lemma crlf_to_lf_length s : (length (crlf_to_lf s) ≤ length s)%nat.
Proof.
  induction s as [|x [|y s] IH]; [done..|]. rewrite crlf_to_lf_cons.
  case_decide; simpl in *; lia.
Qed.

(** A last line stays the last line. *)
Lemma crlf_to_lf_last a b : CR ∉ b → ∃ x, crlf_to_lf (a ++ LF :: b) = x ++ LF :: b.
Proof.
  intros Hb. induction a as [|c a [x IH]].
  - exists []. simpl app. apply crlf_to_lf_id. apply not_elem_of_cons. by split.
  - simpl app. rewrite crlf_to_lf_cons. destruct (a ++ LF :: b) as [|d r] eqn:Hr; [by destruct a|].
    case_decide; [by exists x|]. exists (c :: x). by rewrite IH.
Qed.

Lemma Split_last sep x b : sep ∉ b → ∃ l ls, Split sep (x ++ sep :: b) = l :: ls ++ [b].
Proof.
  intros Hb. induction x as [|c x (l & ls & IH)]; simpl.
  - rewrite decide_True by done. exists [], []. by rewrite Split_single.
  - rewrite IH. case_decide; [by exists [], (l :: ls)|by exists (c :: l), ls].
Qed.

(** [strings.Cut] at a byte. *)
Fixpoint Cut (sep : ascii) (s : bytes) : option (bytes * bytes) :=
  match s with
  | [] => None
  | c :: s => if decide (c = sep) then Some ([], s)
              else match Cut sep s with Some (before, rest) => Some (c :: before, rest) | None => None end
  end.

Fixpoint Contains (s sub : bytes) : bool :=
  is_prefix sub s || match s with [] => false | _ :: s => Contains s sub end.

Lemma Contains_spec s sub : Contains s sub = true ↔ ∃ k1 k2, s = k1 ++ sub ++ k2.
Proof.
  assert (Hp : ∀ s, is_prefix sub s = true ↔ ∃ k, s = sub ++ k)
    by (intros; unfold is_prefix; rewrite bool_decide_eq_true; done).
  induction s as [|x s IH]; simpl.
  - rewrite orb_false_r, Hp. split; [intros [k ->]; by exists [], k|].
    intros (k1 & k2 & Hk). symmetry in Hk. apply app_eq_nil in Hk as [-> Hk]. by exists k2.
  - rewrite orb_true_iff, Hp, IH. split.
    + intros [[k Hk]|(k1 & k2 & ->)]; [by exists [], k|by exists (x :: k1), k2].
    + intros ([|y k1] & k2 & Hk); simpl in Hk; [left; by exists k2|].
      right. injection Hk as _ Hk. by exists k1, k2.
Qed.

Definition digit (c : ascii) : option Z :=
  let n := Z.of_nat (nat_of_ascii c) in
  if (48 <=? n) && (n <=? 57) then Some (n - 48) else None.

Fixpoint digits (acc : Z) (s : bytes) : option Z :=
  match s with
  | [] => Some acc
  | c :: s => match digit c with Some d => digits (acc * 10 + d) s | None => None end
  end.

(** A sign, then at least one digit; [None] for a syntax or a range error. *)
Definition Atoi (s : bytes) : option Z :=
  let '(neg, s) := match s with
                   | c :: r => if decide (c = "-"%char) then (true, r)
                               else if decide (c = "+"%char) then (false, r) else (false, s)
                   | [] => (false, s)
                   end in
  match s with
  | [] => None
  | _ => match digits 0 s with
         | Some n => let n := if neg : bool then - n else n in
                     if (int64_min <=? n) && (n <=? int64_max) then Some n else None
         | None => None
         end
  end.

Definition HasPrefix (s p : bytes) : bool := is_prefix p s.
Definition TrimPrefix (s p : bytes) : bytes := if is_prefix p s then drop (length p) s else s.

(** [strconv.FormatInt(z, 10)] *)
Fixpoint format_digits (fuel : nat) (n : Z) (acc : bytes) : bytes :=
  let c := byte_of (Z.to_nat (48 + n mod 10)) in
  match fuel with
  | O => c :: acc
  | S fuel => if n <? 10 then c :: acc else format_digits fuel (n / 10) (c :: acc)
  end.

Definition FormatInt (z : Z) : bytes :=
  if z <? 0 then "-"%char :: format_digits (Z.to_nat (Z.log2 (- z))) (- z) []
  else format_digits (Z.to_nat (Z.log2 z)) z [].

Lemma digit_format d : 0 ≤ d < 10 → digit (byte_of (Z.to_nat (48 + d))) = Some d.
Proof.
  intros Hd. unfold digit, byte_of. rewrite nat_ascii_embedding by lia. rewrite Z2Nat.id by lia.
  replace (48 <=? 48 + d) with true by (symmetry; apply Z.leb_le; lia).
  replace (48 + d <=? 57) with true by (symmetry; apply Z.leb_le; lia). simpl. f_equal. lia.
Qed.

Lemma digits_format fuel : ∀ n acc, 0 ≤ n → Z.log2 n ≤ Z.of_nat fuel →
  digits 0 (format_digits fuel n acc) = digits n acc.
Proof.
  induction fuel as [|fuel IH]; intros n acc Hn Hf; simpl.
  - assert (n ≤ 1) by (apply Z.log2_null; pose proof (Z.log2_nonneg n); lia). rewrite digit_format by (apply Z.mod_pos_bound; lia).
    by rewrite Z.mod_small by lia.
  - destruct (n <? 10) eqn:Hc; bool_hyp.
    + simpl. rewrite digit_format by (apply Z.mod_pos_bound; lia). by rewrite Z.mod_small by lia.
    + assert (0 ≤ n / 10) by (apply Z.div_pos; lia).
      rewrite IH; [|done|].
      * simpl. rewrite digit_format by (apply Z.mod_pos_bound; lia). f_equal.
        pose proof (Z.div_mod n 10 ltac:(lia)). lia.
      * pose proof (Z.div_mod n 10 ltac:(lia)). pose proof (Z.mod_pos_bound n 10 ltac:(lia)).
        assert (Hl : Z.log2 (2 * (n / 10)) ≤ Z.log2 n) by (apply Z.log2_le_mono; lia).
        rewrite Z.log2_double in Hl by lia. lia.
Qed.

Lemma format_digits_nonempty fuel n acc : format_digits fuel n acc ≠ [].
Proof. revert n acc. induction fuel as [|f IH]; intros; simpl; [done|]. by case_match. Qed.

(** Parsing what was printed. *)
Lemma Atoi_FormatInt z : 0 ≤ z ≤ int64_max → Atoi (FormatInt z) = Some z.
Proof.
  intros Hz. unfold FormatInt. rewrite (proj2 (Z.ltb_ge z 0)) by lia.
  pose proof (digits_format (Z.to_nat (Z.log2 z)) z [] ltac:(lia)) as Hd.
  specialize (Hd ltac:(rewrite Z2Nat.id; [done|apply Z.log2_nonneg])). simpl in Hd.
  pose proof (format_digits_nonempty (Z.to_nat (Z.log2 z)) z []) as Hne.
  destruct (format_digits _ z []) as [|c r] eqn:Hf; [done|]. unfold Atoi.
  assert (Hc : is_Some (digit c)) by (simpl in Hd; destruct (digit c); by eauto).
  rewrite !decide_False; [|by intros ->; destruct Hc..]. rewrite Hd.
  unfold int64_min, int64_max in *.
  by replace ((- 2 ^ 63 <=? z) && (z <=? 2 ^ 63 - 1)) with true
    by (symmetry; apply andb_true_iff; split; apply Z.leb_le; lia).
Qed.

Lemma FormatInt_inj z z' : 0 ≤ z ≤ int64_max → 0 ≤ z' ≤ int64_max →
  FormatInt z = FormatInt z' → z = z'.
Proof.
  intros Hz Hz' Heq. apply Atoi_FormatInt in Hz, Hz'. rewrite Heq in Hz. congruence.
Qed.

Lemma TrimPrefix_app p s : TrimPrefix (p ++ s) p = s.
Proof.
  unfold TrimPrefix, is_prefix. rewrite bool_decide_true by (by exists s). apply drop_app_length.
Qed.

(** ** [utf8.ValidString] *)

Definition code (c : ascii) : Z := Z.of_nat (nat_of_ascii c).

Definition within (lo hi : Z) (c : ascii) : bool := (lo <=? code c) && (code c <=? hi).

(** [strings.ToLower]: bytes for ASCII texts, the Unicode tables for others. *)
Definition ascii_lower (c : ascii) : ascii := if within 65 90 c then byte_of (nat_of_ascii c + 32) else c.
Definition Lower `{Unicode} (s : bytes) : bytes :=
  if forallb (λ c, code c <? 128) s then map ascii_lower s else ToLower s.

(** A visible ASCII character is in no white space. *)
Definition visible (c : ascii) : Prop := 33 ≤ code c ≤ 126.

Lemma visible_not_space c p : visible c → p ∈ space_runes → c ∉ p.
Proof.
  assert (Hall : Forall (Forall (λ x, ¬ visible x)) space_runes)
    by (unfold visible; repeat constructor; vm_compute; intuition congruence).
  intros Hc Hp Hin. rewrite Forall_forall in Hall. specialize (Hall p Hp). rewrite Forall_forall in Hall.
  by apply (Hall c Hin).
Qed.

Lemma TrimSpace_visible s : Forall visible s → TrimSpace s = s.
Proof.
  assert (Hhead : ∀ l p, Forall visible l → p ∈ space_runes ∨ reverse p ∈ space_runes → is_prefix p l = false).
  { intros l p Hl Hp. unfold is_prefix. apply bool_decide_false. intros [k ->]. apply Forall_app in Hl as [Hl _].
    destruct p as [|y p].
    - destruct Hp as [Hp|Hp]; by apply space_runes_nonempty in Hp.
    - apply Forall_cons in Hl as [Hy _]. destruct Hp as [Hp|Hp]; apply (visible_not_space y _ Hy) in Hp; apply Hp; [apply list_elem_of_here|].
      apply elem_of_reverse, list_elem_of_here. }
  intros Hs. apply TrimSpace_id. split; intros p Hp; apply Hhead; [done|by left|by apply Forall_reverse|].
  apply list_elem_of_fmap in Hp as (q & -> & Hq). right. by rewrite reverse_involutive.
Qed.

Lemma trimmed_ends c mid d : visible c → visible d → TrimSpace (c :: mid ++ [d]) = c :: mid ++ [d].
Proof.
  assert (Hhead : ∀ x l p, visible x → (p ∈ space_runes ∨ ∃ q, p = reverse q ∧ q ∈ space_runes) → is_prefix p (x :: l) = false).
  { intros x l p Hx Hp. unfold is_prefix. apply bool_decide_false. intros Hpre.
    assert (p ≠ [] ∧ x ∉ p) as [Hne Hnin].
    { destruct Hp as [Hp|(q & -> & Hq)].
      - split; [by apply space_runes_nonempty|by apply visible_not_space].
      - split; [|rewrite elem_of_reverse; by apply visible_not_space].
        intros Hr. apply (space_runes_nonempty q Hq). by rewrite <- (reverse_involutive q), Hr. }
    destruct p as [|y p]; [done|]. apply prefix_cons_inv_1 in Hpre as ->. apply Hnin, list_elem_of_here. }
  intros Hc Hd. apply TrimSpace_id. split; intros p Hp; [apply Hhead; [done|by left]|].
  apply list_elem_of_fmap in Hp as (q & -> & Hq).
  replace (reverse (c :: mid ++ [d])) with (d :: reverse (c :: mid)) by (by rewrite app_comm_cons, reverse_app).
  apply Hhead; [done|]. right. by exists q.
Qed.

Lemma visible_digit n : 0 ≤ n < 10 → visible (byte_of (Z.to_nat (48 + n))).
Proof. intros Hn. unfold visible, code, byte_of. rewrite nat_ascii_embedding by lia. lia. Qed.

Lemma format_digits_visible fuel : ∀ n acc, 0 ≤ n →
  ∃ l, format_digits fuel n acc = l ++ byte_of (Z.to_nat (48 + n mod 10)) :: acc ∧ Forall visible l.
Proof.
  induction fuel as [|fuel IH]; intros n acc Hn; simpl; [by exists []|].
  case_match; [by exists []|]. destruct (IH (n / 10) (byte_of (Z.to_nat (48 + n mod 10)) :: acc)) as (l & -> & Hl);
    [apply Z.div_pos; lia|].
  exists (l ++ [byte_of (Z.to_nat (48 + (n / 10) mod 10))]). rewrite <- app_assoc. split; [done|].
  apply Forall_app. split; [done|]. constructor; [|done]. apply visible_digit, Z.mod_pos_bound. lia.
Qed.

Lemma FormatInt_visible z : 0 ≤ z → ∃ l d, FormatInt z = l ++ [d] ∧ Forall visible (l ++ [d]).
Proof.
  intros Hz. unfold FormatInt. rewrite (proj2 (Z.ltb_ge z 0)) by lia.
  destruct (format_digits_visible (Z.to_nat (Z.log2 z)) z [] Hz) as (l & -> & Hl). eexists l, _. split; [done|].
  apply Forall_app. split; [done|]. constructor; [|done]. apply visible_digit, Z.mod_pos_bound. lia.
Qed.

(** A visible text followed by a number: nothing to trim. *)
Lemma TrimSpace_numbered c text z : Forall visible (c :: text) → 0 ≤ z →
  TrimSpace (c :: text ++ FormatInt z) = c :: text ++ FormatInt z.
Proof.
  intros [Hc Ht]%Forall_cons Hz. destruct (FormatInt_visible z Hz) as (l & d & -> & Hv).
  rewrite app_assoc. apply trimmed_ends; [done|]. apply Forall_app in Hv as [_ Hv]. by apply Forall_cons in Hv as [Hv _].
Qed.

(** The length of the well-formed code point [s] starts with. *)
Definition rune_len (s : bytes) : option nat :=
  match s with
  | [] => None
  | a :: s =>
      if within 0 127 a then Some 1%nat
      else match s with
      | [] => None
      | b :: s =>
          if within 194 223 a && within 128 191 b then Some 2%nat
          else match s with
          | [] => None
          | c :: s =>
              if ((within 224 224 a && within 160 191 b) || (within 225 236 a && within 128 191 b)
                  || (within 237 237 a && within 128 159 b) || (within 238 239 a && within 128 191 b))
                 && within 128 191 c then Some 3%nat
              else match s with
              | [] => None
              | d :: _ =>
                  if ((within 240 240 a && within 144 191 b) || (within 241 243 a && within 128 191 b)
                      || (within 244 244 a && within 128 143 b))
                     && within 128 191 c && within 128 191 d then Some 4%nat
                  else None
              end
          end
      end
  end.

Fixpoint valid_fuel (fuel : nat) (s : bytes) : bool :=
  match s with
  | [] => true
  | _ => match fuel, rune_len s with
         | S fuel, Some n => valid_fuel fuel (drop n s)
         | _, _ => false
         end
  end.

(** Every code point takes a byte, so the length is fuel enough. *)
Definition ValidString (s : bytes) : bool := valid_fuel (length s) s.

Lemma rune_len_bound s n : rune_len s = Some n → (1 ≤ n ≤ 4)%nat ∧ (n ≤ length s)%nat.
Proof. unfold rune_len. intros H. repeat case_match; simplify_eq/=; lia. Qed.

(** A code point depends on its own bytes only. *)
Lemma rune_len_take s n m : rune_len s = Some n → (n ≤ m)%nat → rune_len (take m s) = Some n.
Proof.
  unfold rune_len. intros H Hm.
  destruct s as [|a s]; [done|]. destruct m as [|m]; [repeat case_match; simplify_eq/=; lia|].
  simpl. destruct (within 0 127 a); [done|].
  destruct s as [|b s]; [done|]. destruct m as [|m]; [repeat case_match; simplify_eq/=; lia|].
  simpl. destruct (within 194 223 a && within 128 191 b); [done|].
  destruct s as [|c s]; [done|]. destruct m as [|m]; [repeat case_match; simplify_eq/=; lia|].
  simpl. destruct (_ && within 128 191 c); [done|].
  destruct s as [|d s]; [done|]. destruct m as [|m]; [repeat case_match; simplify_eq/=; lia|].
  done.
Qed.

Lemma valid_fuel_mono f1 : ∀ f2 s, (f1 ≤ f2)%nat → valid_fuel f1 s = true → valid_fuel f2 s = true.
Proof.
  induction f1 as [|f1 IH]; intros [|f2] s Hle; destruct s as [|x s]; cbn [valid_fuel]; try done.
  - lia.
  - destruct (rune_len (x :: s)); [|done]. apply IH. lia.
Qed.

Lemma valid_fuel_length f s : valid_fuel f s = true → ValidString s = true.
Proof.
  unfold ValidString. revert s. induction f as [|f IH]; intros [|x s]; cbn [valid_fuel]; try done.
  destruct (rune_len (x :: s)) as [n|] eqn:Hn; [|done]. intros Hv%IH.
  apply rune_len_bound in Hn as Hb. cbn [length valid_fuel]. rewrite Hn.
  eapply valid_fuel_mono; [|exact Hv]. rewrite length_drop. simpl length. lia.
Qed.

(** A well-formed string can be cut at most three bytes before any position. *)
Lemma valid_cut s : ValidString s = true → ∀ m, (m ≤ length s)%nat →
  ∃ k, (k ≤ 3)%nat ∧ (k ≤ m)%nat ∧ ValidString (take (m - k) s) = true.
Proof.
  unfold ValidString at 1. generalize (length s) at 1 as f. intros f. revert s.
  induction f as [|f IH]; intros [|x s] Hv m Hm; cbn [valid_fuel] in Hv; try done.
  - exists O. split_and!; [lia|lia|]. by rewrite firstn_nil.
  - exists O. split_and!; [lia|lia|]. by rewrite firstn_nil.
  - destruct (rune_len (x :: s)) as [n|] eqn:Hn; [|done].
    apply rune_len_bound in Hn as Hb. destruct (decide (n ≤ m)%nat) as [Hnm|Hnm].
    + destruct (IH _ Hv (m - n)%nat) as (k & Hk & Hkm & Hc); [rewrite length_drop; lia|].
      exists k. split_and!; [lia|lia|]. apply (valid_fuel_length (S (length s))).
      assert (Ht : rune_len (take (m - k) (x :: s)) = Some n) by (eapply rune_len_take; [done|lia]).
      destruct (take (m - k) (x :: s)) as [|y t] eqn:Hts; [done|]. cbn [valid_fuel]. rewrite Ht.
      rewrite <- Hts. rewrite skipn_firstn_comm. eapply valid_fuel_mono; [|].
      2: { replace (m - k - n)%nat with (m - n - k)%nat by lia. exact Hc. }
      rewrite length_take, length_drop. simpl length in *. lia.
    + exists m. split_and!; [lia|lia|]. by rewrite Nat.sub_diag.
Qed.

End GoStrings.

#[export] Hint Resolve GoStrings.TrimSpace_length GoStrings.TrimSpace_trimmed GoStrings.Split_no_sep : go.
