(* ===== verification/Float64.v ===== *)
(** * [float64] and the parts of package [math] the code uses

    A [float64] is a [spec_float] of binary64: every operation computes, with
    the rounding of IEEE 754, and a test with a NaN is false. *)

From Stdlib Require Export SpecFloat.
From S2P Require Import Prelude.

Abbreviation float64 := spec_float (only parsing).

Module Float.

Definition prec : Z := 53.
Definition emax : Z := 1024.

Definition add (x y : float64) : float64 := SFadd prec emax x y.
Definition sub (x y : float64) : float64 := SFsub prec emax x y.
Definition mul (x y : float64) : float64 := SFmul prec emax x y.
Definition div (x y : float64) : float64 := SFdiv prec emax x y.

(** [x < y], [x <= y], [x == y]; [x > y] is [lt y x]. *)
Definition lt (x y : float64) : bool := SFltb x y.
Definition le (x y : float64) : bool := SFleb x y.
Definition eq (x y : float64) : bool := SFeqb x y.

(** The conversion [float64(z)]. *)
Definition of_Z (z : Z) : float64 := binary_normalize prec emax z 0 false.
Definition zero : float64 := S754_zero false.

Definition IsNaN (x : float64) : bool := match x with S754_nan => true | _ => false end.
(** [IsInf(x, 0)] *)
Definition IsInf (x : float64) : bool := match x with S754_infinity _ => true | _ => false end.
Definition Abs (x : float64) : float64 := SFabs x.
(** [math.Min] and [math.Max]. *)
Definition Min (x y : float64) : float64 :=
  match x, y with
  | S754_infinity true, _ | _, S754_infinity true => S754_infinity true
  | S754_nan, _ | _, S754_nan => S754_nan
  | S754_zero s, S754_zero s' => if s then x else y
  | _, _ => if lt x y then x else y
  end.
Definition Max (x y : float64) : float64 :=
  match x, y with
  | S754_infinity false, _ | _, S754_infinity false => S754_infinity false
  | S754_nan, _ | _, S754_nan => S754_nan
  | S754_zero s, S754_zero s' => if s then y else x
  | _, _ => if lt y x then x else y
  end.

(** [math.Pow10] for exponents of at most 31 in absolute value: the library
    divides by the table entry when the exponent is negative. *)
Definition Pow10 (n : Z) : float64 :=
  if n <? 0 then div (of_Z 1) (of_Z (10 ^ (- n))) else of_Z (10 ^ n).

(** The literal [n / 10^d], rounded once. *)
Definition decimal (n d : Z) : float64 := div (of_Z n) (of_Z (10 ^ d)).

(** [math.Round]: to the nearest integer, halves away from zero. *)
Definition Round (x : float64) : float64 :=
  match x with
  | S754_finite s m e =>
      if 0 <=? e then x
      else
        let z := (2 * Z.pos m + 2 ^ (- e)) / 2 ^ (1 - e) in
        if z =? 0 then S754_zero s else binary_normalize prec emax (if s then - z else z) 0 s
  | _ => x
  end.

(** [int64(x)]: truncation; out of range, amd64 yields the smallest integer. *)
Definition trunc (x : float64) : Z :=
  match x with
  | S754_zero _ => 0
  | S754_finite s m e =>
      let z := if 0 <=? e then Z.pos m * 2 ^ e else Z.pos m / 2 ^ (- e) in
      let z := if s then - z else z in
      if (int64_min <=? z) && (z <=? int64_max) then z else int64_min
  | _ => int64_min
  end.

(** [n / d] to the nearest integer, ties to even. *)
Definition round_even (n d : Z) : Z :=
  let q := n / d in let r := n mod d in
  if (2 * r <? d) || ((2 * r =? d) && Z.even q) then q else q + 1.

Definition finite (x : float64) : bool := negb (IsNaN x) && negb (IsInf x).

Lemma lt_nan_l x : lt S754_nan x = false.
Proof. done. Qed.
Lemma lt_nan_r x : lt x S754_nan = false.
Proof. by destruct x as [[]|[]| |[] ??]. Qed.

Lemma sub_self x : finite x = true → sub x x = zero.
Proof.
  destruct x as [[]|[]| |[] m e]; try done; intros _; unfold sub, SFsub; rewrite Z.min_id.
  all: simpl; by rewrite Z.sub_diag.
Qed.

Example decimal_cent : decimal 1 2 = S754_finite false 5764607523034235 (-59).
Proof. reflexivity. Qed.

Example round_half : Round (decimal 25 1) = of_Z 3 ∧ Round (decimal (-25) 1) = of_Z (-3).
Proof. by vm_compute. Qed.

End Float.
