(* ===== verification/Database.v ===== *)
(** * What the database does to the values it stores

    The column types the repositories rely on, as classes: PostgreSQL itself is
    not part of the repository. *)

From Stdlib Require Import QArith Qabs.
From S2P Require Import Prelude Float64.

(** [timestamptz] keeps microseconds. *)
Class Database := {
  timestamptz : time → time;
  timestamptz_near : ∀ t, Z.abs (timestamptz t - t) ≤ 1000
}.

(** A [float64] parameter reaches a statement as a decimal number, here in units
    of 10^-8 dollars, the scale of the balances; [decimal10] is a value that has
    been through a DECIMAL(20,10) column. *)
Class Numeric := {
  numeric : float64 → Q;
  decimal10 : float64 → float64;
  numeric_nonneg : ∀ x, Float.finite x = true → Float.lt x Float.zero = false → (0 <= numeric x)%Q
}.

(** Storing a number in a column of scale 8: halves are rounded away from zero. *)
Definition round_scale (q : Q) : Z :=
  let a := (2 * Z.abs (Qnum q) + Zpos (Qden q)) / (2 * Zpos (Qden q)) in
  if Qnum q <? 0 then - a else a.

Lemma round_scale_Z z : round_scale (inject_Z z) = z.
Proof.
  unfold round_scale, inject_Z. simpl. rewrite Z.mul_1_r.
  replace (2 * Z.abs z + 1) with (1 + Z.abs z * 2) by lia. rewrite Z.div_add by lia.
  change (1 / 2) with 0. destruct (Z.ltb_spec z 0); lia.
Qed.

Lemma round_scale_nonneg q : (0 <= q)%Q → 0 ≤ round_scale q.
Proof.
  unfold round_scale, Qle. simpl. intros Hq. destruct (Z.ltb_spec (Qnum q) 0); [lia|].
  apply Z.div_pos; lia.
Qed.

#[export] Instance round_scale_proper : Proper (Qeq ==> eq) round_scale.
Proof.
  intros [n d] [n' d'] E. unfold Qeq in E. simpl in E. unfold round_scale. simpl.
  assert (Hs : (n <? 0) = (n' <? 0)) by (destruct (Z.ltb_spec n 0), (Z.ltb_spec n' 0); nia).
  rewrite Hs. assert (Ha : Z.abs n * Zpos d' = Z.abs n' * Zpos d) by nia.
  assert (Hdiv : (2 * Z.abs n + Zpos d) / (2 * Zpos d) = (2 * Z.abs n' + Zpos d') / (2 * Zpos d')); [|by rewrite Hdiv].
  rewrite <-(Z.div_mul_cancel_r (2 * Z.abs n + Zpos d) (2 * Zpos d) (Zpos d')) by lia.
  rewrite <-(Z.div_mul_cancel_r (2 * Z.abs n' + Zpos d') (2 * Zpos d') (Zpos d)) by lia.
  f_equal; nia.
Qed.

(** Storing moves a number by half a unit at most. *)
Lemma round_scale_near q : (Qabs (inject_Z (round_scale q) - q) <= 1 # 2)%Q.
Proof.
  apply Qabs_Qle_condition. destruct q as [n d]. unfold round_scale, Qle, Qminus, Qplus, Qopp, inject_Z. simpl.
  set (a := (2 * Z.abs n + Zpos d) / (2 * Zpos d)).
  assert (Ha : 2 * Zpos d * a ≤ 2 * Z.abs n + Zpos d < 2 * Zpos d * a + 2 * Zpos d).
  { pose proof (Z.mul_div_le (2 * Z.abs n + Zpos d) (2 * Zpos d) ltac:(lia)).
    pose proof (Z.mul_succ_div_gt (2 * Z.abs n + Zpos d) (2 * Zpos d) ltac:(lia)). lia. }
  destruct (Z.ltb_spec n 0); lia.
Qed.

(** A column of scale 8, read as a float: rounded once for what a float counts
    exactly, balances below 90 million dollars. *)
Definition column (z : Z) : float64 := Float.decimal z 8.

(** ** A reading of parameters to run the code with *)

(** A float in units of 10^-10, as a column of that scale stores it. *)
Definition tenths (x : float64) : Z :=
  match x with
  | S754_finite s m e =>
      let n := if 0 <=? e then Zpos m * 2 ^ e * 10 ^ 10 else Float.round_even (Zpos m * 10 ^ 10) (2 ^ (- e)) in
      if s then - n else n
  | _ => 0
  end.

Lemma tenths_nonneg x : Float.lt x Float.zero = false → 0 ≤ tenths x.
Proof.
  destruct x as [s|s| |[] m e]; try done. intros _. unfold tenths, Float.round_even. cbv zeta.
  assert (0 < 10 ^ 10) by lia. destruct (Z.leb_spec 0 e).
  - assert (0 < 2 ^ e) by (apply Z.pow_pos_nonneg; lia). nia.
  - assert (0 < 2 ^ (- e)) by (apply Z.pow_pos_nonneg; lia).
    assert (0 ≤ Zpos m * 10 ^ 10 / 2 ^ (- e)) by (apply Z.div_pos; lia). case_match; lia.
Qed.

Definition ten_decimals : Numeric.
Proof.
  refine {| numeric := λ x, tenths x # 100; decimal10 := λ x, Float.div (Float.of_Z (tenths x)) (Float.of_Z (10 ^ 10)) |}.
  intros x _ Hx. pose proof (tenths_nonneg x Hx). unfold Qle. simpl. lia.
Defined.
