(* ===== verification/Interleaving.v ===== *)
(** * Programs over a shared store, run by many workers at once

    A handler that talks to the database is a tree of its calls: it performs
    one, and goes on as the answer says.  Between two calls of a worker every
    other worker of the deployment may act, any call may fail, before or after
    it took effect, and a worker may never be scheduled again (a crash).  This
    file defines those runs and the reasoning for them: an invariant of the
    store and a relation that every step of every worker respects, so that what
    a worker has learned and the relation preserves stays true while it waits. *)

From S2P Require Import Prelude.

(** ** Trees of calls *)

Inductive prog (E : Type → Type) (A : Type) : Type :=
  | Ret (a : A)
  | Vis {X : Type} (e : E X) (k : X → prog E A).
Arguments Ret {E A} a.
Arguments Vis {E A X} e k.

Definition call {E X} (e : E X) : prog E X := Vis e Ret.

Fixpoint bind {E A B} (p : prog E A) (f : A → prog E B) : prog E B :=
  match p with
  | Ret a => f a
  | Vis e k => Vis e (λ x, bind (k x) f)
  end.

Notation "'let!' x ':=' p 'in' k" := (bind p (λ x, k))
  (at level 10, x pattern, p at level 100, k at level 200) : go_scope.

(** [for _, x := range l { ... }] over an accumulator. *)
Fixpoint for_each {E A B} (l : list B) (acc : A) (body : A → B → prog E A) : prog E A :=
  match l with
  | [] => Ret acc
  | x :: l => let! acc' := body acc x in for_each l acc' body
  end.

(** ** Calls on a store *)

(** How one call goes: it succeeds; it fails without effect; it takes effect
    and the caller is told it failed (a timeout, a lost acknowledgement). *)
Inductive fault := NoFault | FailBefore | FailAfter.

Section store.
(** [S]: the store; [Q]: questions to systems outside (their answer's type is
    the index); [DE]: what the database reports.  [lost] is the report of a call
    that failed for a reason outside the model. *)
Context {S DE : Type} {Q : Type → Type} (lost : DE) (now : S → time) (tick : N → S → S).

Inductive db : Type → Type :=
  | Read {X : Type} (q : S → result DE X) : db (result DE X)
  | Write {X : Type} (w : S → result DE X * S) : db (result DE X)
  | Now : db time
  | Log (f : S → S) : db unit        (* bookkeeping of the model *)
  | Ask {X : Type} (q : Q X) : db X.

(** What the surroundings decide at one call. *)
Record choice := mkChoice {
  ch_fault : fault;
  ch_answer : ∀ X, Q X → X
}.

(** One call, atomically.  A [Write] is a statement or a whole transaction. *)
Definition exec {X} (e : db X) (c : choice) (s : S) : X * S :=
  match e with
  | Read q => (match ch_fault c with NoFault => q s | _ => Err lost end, s)
  | Write w =>
      match ch_fault c with
      | NoFault => w s
      | FailBefore => (Err lost, s)
      | FailAfter => (Err lost, snd (w s))
      end
  | Now => (now s, s)
  | Log f => (tt, f s)
  | Ask q => (ch_answer c _ q, s)
  end.

(** A worker alone, [ch i] deciding its [i]-th call. *)
Fixpoint run {A} (p : prog db A) (ch : nat → choice) (s : S) : A * S :=
  match p with
  | Ret a => (a, s)
  | Vis e k => let '(x, s') := exec e (ch O) s in run (k x) (λ i, ch (Datatypes.S i)) s'
  end.

(** ** Many workers *)

Section pool.
Context {A Req : Type} (entry : Req → prog db A).

Inductive event :=
  | Spawn (r : Req)               (* a request arrives *)
  | Step (i : nat) (c : choice)   (* worker [i] performs its next call *)
  | Tick (d : N).                 (* time passes *)

Record config := mkConfig { cf_store : S; cf_pool : list (prog db A) }.

Definition step_event (cf : config) (e : event) : config :=
  match e with
  | Spawn r => mkConfig (cf_store cf) (cf_pool cf ++ [entry r])
  | Tick d => mkConfig (tick d (cf_store cf)) (cf_pool cf)
  | Step i c =>
      match cf_pool cf !! i with
      | Some (Vis e k) =>
          let '(x, s') := exec e c (cf_store cf) in
          mkConfig s' (<[i := k x]> (cf_pool cf))
      | _ => cf
      end
  end.

Definition run_events (cf : config) (es : list event) : config := foldl step_event cf es.

End pool.

(** ** Reasoning *)

Section safe.
Context (I : S → Prop) (R : S → S → Prop).
Context `{!PreOrder R}.

(** Every call of [p], made at any later moment, preserves [I] and respects
    [R]; and what [p] returns satisfies [Post] then and later. *)
Fixpoint safe {A} (p : prog db A) (Post : A → S → Prop) (s : S) : Prop :=
  match p with
  | Ret a => ∀ s', R s s' → I s' → Post a s'
  | Vis e k => ∀ s', R s s' → I s' → ∀ c,
      let '(x, s'') := exec e c s' in I s'' ∧ R s' s'' ∧ safe (k x) Post s''
  end.

Lemma safe_later {A} (p : prog db A) Post s s' : R s s' → safe p Post s → safe p Post s'.
Proof. destruct p as [a|X e k]; simpl; intros HR Hs s'' HR' HI; apply Hs; by first [etrans|idtac]. Qed.

Lemma safe_ret {A} (a : A) (Post : A → S → Prop) s :
  (∀ s', R s s' → I s' → Post a s') → safe (Ret a) Post s.
Proof. done. Qed.

(** In sequence: the second part may use, now and later, what the first returned. *)
Lemma safe_bind_later {A B} (p : prog db A) (f : A → prog db B) (Mid : A → S → Prop) Post : ∀ s,
  I s → safe p Mid s →
  (∀ a s', R s s' → I s' → (∀ s'', R s' s'' → I s'' → Mid a s'') → safe (f a) Post s') →
  safe (bind p f) Post s.
Proof.
  induction p as [a|X e k IH]; intros s HI Hp Hf; simpl in *.
  - by apply Hf.
  - intros s' HR HI' c. specialize (Hp s' HR HI' c). destruct (exec e c s') as [x s''].
    destruct Hp as (HI'' & HR' & Hk). split_and!; [done|done|].
    apply IH; [done|done|]. intros a s3 HR3 HI3 HM. apply Hf; [|done|done].
    etrans; [exact HR|]. by etrans.
Qed.

Lemma safe_bind {A B} (p : prog db A) (f : A → prog db B) (Mid : A → S → Prop) Post s :
  I s → safe p Mid s →
  (∀ a s', R s s' → I s' → Mid a s' → safe (f a) Post s') → safe (bind p f) Post s.
Proof.
  intros HI Hp Hf. eapply safe_bind_later; [done|done|].
  intros a s' HR HI' HM. apply Hf; [done|done|by apply HM].
Qed.

Lemma safe_weaken {A} (p : prog db A) (P1 P2 : A → S → Prop) : ∀ s,
  safe p P1 s → (∀ a s', I s' → P1 a s' → P2 a s') → safe p P2 s.
Proof.
  induction p as [a|X e k IH]; intros s Hp HP; simpl in *; [by eauto|].
  intros s' HR HI c. specialize (Hp s' HR HI c). destruct (exec e c s') as [x s''].
  destruct Hp as (? & ? & ?). eauto.
Qed.

(** What a worker learns from a read is about the moment of the read. *)
Lemma safe_read {A X} (q : S → result DE X) (k : result DE X → prog db A) Post s :
  (∀ s', R s s' → I s' → safe (k (q s')) Post s') →
  (∀ s', R s s' → I s' → safe (k (Err lost)) Post s') →
  safe (Vis (Read q) k) Post s.
Proof. intros Hq He s' HR HI c. simpl. destruct (ch_fault c); split_and!; eauto; reflexivity. Qed.

Lemma safe_write {A X} (w : S → result DE X * S) (k : result DE X → prog db A) Post s :
  (∀ s', R s s' → I s' → I (snd (w s')) ∧ R s' (snd (w s')) ∧
         safe (k (fst (w s'))) Post (snd (w s'))) →
  (∀ s', R s s' → I s' → safe (k (Err lost)) Post s') →
  safe (Vis (Write w) k) Post s.
Proof.
  intros Hw He s' HR HI c. simpl.
  destruct (Hw s' HR HI) as (HI' & HR' & Hk). destruct (ch_fault c).
  - by destruct (w s').
  - split_and!; [done|reflexivity|by apply He].
  - split_and!; [done|done|]. apply He; [by etrans|done].
Qed.

Lemma safe_now {A} (k : time → prog db A) Post s :
  (∀ s', R s s' → I s' → safe (k (now s')) Post s') → safe (Vis Now k) Post s.
Proof. intros Hk s' HR HI c. simpl. split_and!; eauto; reflexivity. Qed.

Lemma safe_log {A} (f : S → S) (k : unit → prog db A) Post s :
  (∀ s', R s s' → I s' → I (f s') ∧ R s' (f s') ∧ safe (k tt) Post (f s')) → safe (Vis (Log f) k) Post s.
Proof. intros Hk s' HR HI c. simpl. by apply Hk. Qed.

Lemma safe_ask {A X} (q : Q X) (k : X → prog db A) Post s :
  (∀ x s', R s s' → I s' → safe (k x) Post s') → safe (Vis (Ask q) k) Post s.
Proof. intros Hk s' HR HI c. simpl. split_and!; eauto; reflexivity. Qed.

Lemma safe_for_each {A B} (l : list B) (acc : A) body (Mid : A → S → Prop) : ∀ s,
  I s → (∀ s', R s s' → I s' → Mid acc s') →
  (∀ a x s', x ∈ l → R s s' → I s' → Mid a s' → safe (body a x) Mid s') →
  safe (for_each l acc body) Mid s.
Proof.
  revert acc. induction l as [|x l IH]; intros acc s HI Hacc Hbody; simpl; [done|].
  eapply safe_bind_later; [done| |].
  - apply Hbody; [by apply list_elem_of_here|reflexivity|done|]. by apply Hacc.
  - intros a s' HR HI' HM. apply IH; [done|done|]. intros b y s'' Hy HR' HI'' Hb.
    apply Hbody; [by apply list_elem_of_further|by etrans|done|done].
Qed.

(** ** All runs of a system *)

Lemma elem_of_insert_list {B} (l : list B) i x y : y ∈ <[i := x]> l → y = x ∨ y ∈ l.
Proof.
  intros [j Hj]%list_elem_of_lookup_1. destruct (decide (i = j)) as [->|Hij].
  - apply list_lookup_insert_Some in Hj as [(_ & <- & _)|[? _]]; [by left|done].
  - rewrite list_lookup_insert_ne in Hj by done. right. by eapply list_elem_of_lookup_2.
Qed.

Section adequacy.
Context {A Req : Type} (entry : Req → prog db A) (admissible : Req → Prop) (s0 : S).
Hypothesis entry_safe : ∀ r s, admissible r → R s0 s → I s → safe (entry r) (λ _ _, True) s.
Hypothesis tick_ok : ∀ d s, I s → I (tick d s) ∧ R s (tick d s).

Definition allowed (e : event (Req := Req)) : Prop :=
  match e with Spawn r => admissible r | _ => True end.

Definition pool_ok (cf : config (A := A)) : Prop :=
  I (cf_store cf) ∧ R s0 (cf_store cf) ∧ ∀ p, p ∈ cf_pool cf → safe p (λ _ _, True) (cf_store cf).

Lemma step_event_ok cf e : pool_ok cf → allowed e → pool_ok (step_event entry cf e).
Proof.
  destruct cf as [s ps]. intros (HI & HR0 & Hps) He. destruct e as [r|i c|d]; simpl in *.
  - split_and!; [done|done|]. intros p [Hp| ->%list_elem_of_singleton]%elem_of_app; simpl; auto.
  - destruct (ps !! i) as [[a|X e k]|] eqn:Hi; [done| |done].
    pose proof (Hps _ (list_elem_of_lookup_2 _ _ _ Hi)) as Hp. simpl in Hp.
    specialize (Hp s ltac:(reflexivity) HI c). destruct (exec e c s) as [x s'].
    destruct Hp as (HI' & HR & Hk). split_and!; [done|by etrans|]. simpl.
    intros p [->|Hp]%elem_of_insert_list; [done|]. eapply safe_later; [done|by apply Hps].
  - destruct (tick_ok d s HI) as [HI' HR]. split_and!; [done|by etrans|]. simpl.
    intros p Hp. eapply safe_later; [done|by apply Hps].
Qed.

Lemma run_events_ok es : ∀ cf, pool_ok cf → Forall allowed es → pool_ok (run_events entry cf es).
Proof.
  induction es as [|e es IH]; intros cf Hcf Hes; simpl; [done|].
  apply Forall_cons in Hes as [He Hes]. apply IH; [by apply step_event_ok|done].
Qed.

(** The invariant holds, and the relation has been respected, in every run of
    any number of workers, under any failures and crashes. *)
Lemma reachable_ok es : I s0 → Forall allowed es →
  let s' := cf_store (run_events entry (mkConfig s0 []) es) in I s' ∧ R s0 s'.
Proof.
  intros HI Hes. destruct (run_events_ok es (mkConfig s0 [])) as (? & ? & ?); [|done..].
  split_and!; [done|simpl; reflexivity|]. intros p Hp. by apply not_elem_of_nil in Hp.
Qed.

End adequacy.

(** ** One undisturbed worker

    [wp B p Post s]: run alone from [s] with every choice in [B], [p] returns
    with [Post]. *)
Fixpoint wp (B : choice → Prop) {A} (p : prog db A) (Post : A → S → Prop) (s : S) : Prop :=
  match p with
  | Ret a => Post a s
  | Vis e k => ∀ c, B c → let '(x, s') := exec e c s in wp B (k x) Post s'
  end.

Lemma wp_bind B {A C} (p : prog db A) (f : A → prog db C) Post : ∀ s,
  wp B p (λ a s', wp B (f a) Post s') s → wp B (bind p f) Post s.
Proof.
  induction p as [a|X e k IH]; intros s Hp; simpl in *; [done|].
  intros c Hc. specialize (Hp c Hc). destruct (exec e c s) as [x s']. by apply IH.
Qed.

Lemma wp_mono B {A} (p : prog db A) (P1 P2 : A → S → Prop) : ∀ s,
  wp B p P1 s → (∀ a s', P1 a s' → P2 a s') → wp B p P2 s.
Proof.
  induction p as [a|X e k IH]; intros s Hp HP; simpl in *; [by apply HP|].
  intros c Hc. specialize (Hp c Hc). destruct (exec e c s) as [x s']. by eapply IH.
Qed.

Lemma wp_run B {A} (p : prog db A) Post : ∀ s ch,
  (∀ i, B (ch i)) → wp B p Post s → Post (fst (run p ch s)) (snd (run p ch s)).
Proof.
  induction p as [a|X e k IH]; intros s ch HB Hp; simpl in *; [done|].
  specialize (Hp (ch O) (HB O)). destruct (exec e (ch O) s) as [x s']. by apply IH.
Qed.

(** A worker alone is a run of the system. *)
Lemma safe_run {A} (p : prog db A) Post : ∀ s ch, I s → safe p Post s →
  let '(a, s') := run p ch s in I s' ∧ R s s' ∧ Post a s'.
Proof.
  induction p as [a|X e k IH]; intros s ch HI Hp; simpl in *.
  - split_and!; [done|reflexivity|by apply Hp].
  - specialize (Hp s ltac:(reflexivity) HI (ch O)). destruct (exec e (ch O) s) as [x s'].
    destruct Hp as (HI' & HR & Hk). specialize (IH x s' (λ i, ch (Datatypes.S i)) HI' Hk).
    destruct (run (k x) _ s') as [a s'']. destruct IH as (? & ? & ?). split_and!; [done|by etrans|done].
Qed.

(** What holds of every run, and what a quiet run does, hold together. *)
Lemma wp_safe B {A} (p : prog db A) P1 P2 : ∀ s, I s → safe p P1 s → wp B p P2 s →
  wp B p (λ a s', P2 a s' ∧ P1 a s' ∧ I s' ∧ R s s') s.
Proof.
  induction p as [a|X e k IH]; intros s HI Hs Hw; simpl in *.
  - split_and!; [done|by apply Hs|done|reflexivity].
  - intros c Hc. specialize (Hs s ltac:(reflexivity) HI c). specialize (Hw c Hc).
    destruct (exec e c s) as [x s']. destruct Hs as (HI' & HR & Hs).
    eapply wp_mono; [by apply IH|]. intros a s'' (? & ? & ? & ?). split_and!; [done|done|done|by etrans].
Qed.

End safe.
End store.
