(* ===== verification/Ownership.v ===== *)
(** * Programs whose workers own what they create

    [Interleaving] lets every worker do the same things to the store at any moment.
    Here a worker may own a token: it obtains one only by the call that makes the
    token, and what the other workers do between two of its calls respects the
    token.  So it may rely on more than the others' common relation [R], and the
    others may do less.

    [R]: what every step of anybody respects; [K t]: what a step of a worker that
    does not own [t] respects; [fresh t]: nobody has made [t] yet. *)

From S2P Require Import Prelude Interleaving.

Section owned.
Context {S DE : Type} {Q : Type → Type} (lost : DE) (now : S → time) (tick : N → S → S).
Context {T : Type} `{!EqDecision T}.
Context (I : S → Prop) (R : S → S → Prop) (K : T → S → S → Prop) (fresh : T → S → Prop).
Context `{!PreOrder R} `{!∀ t, PreOrder (K t)}.
Hypothesis made_stays : ∀ t s s', R s s' → fresh t s' → fresh t s.

Abbreviation exec := (Interleaving.exec lost now).

(** What the owner of [o] may rely on while it waits; what it guarantees. *)
Definition rely (o : option T) (s s' : S) : Prop :=
  R s s' ∧ match o with Some t => K t s s' | None => True end.
Definition guar (o : option T) (s s' : S) : Prop :=
  R s s' ∧ ∀ t, o ≠ Some t → ¬ fresh t s → K t s s'.

#[export] Instance rely_preorder o : PreOrder (rely o).
Proof.
  split; [intros s; split; [done|by destruct o]|].
  intros s1 s2 s3 [R1 K1] [R2 K2]. split; [by etrans|]. destruct o; [by etrans|done].
Qed.

(** Tokens after a call: the same, or one that the call made. *)
Definition grows (o o' : option T) (s s' : S) : Prop :=
  o' = o ∨ ∃ t, o = None ∧ o' = Some t ∧ fresh t s ∧ ¬ fresh t s'.

Fixpoint osafe {A} (o : option T) (p : prog (@db S DE Q) A) (Post : option T → A → S → Prop) (s : S) : Prop :=
  match p with
  | Ret a => ∀ s', rely o s s' → I s' → Post o a s'
  | Vis e k => ∀ s', rely o s s' → I s' → ∀ c,
      let '(x, s'') := exec e c s' in
      I s'' ∧ guar o s' s'' ∧ ∃ o', grows o o' s' s'' ∧ osafe o' (k x) Post s''
  end.

Lemma osafe_later {A} o (p : prog db A) Post s s' : rely o s s' → osafe o p Post s → osafe o p Post s'.
Proof. destruct p as [a|X e k]; simpl; intros HR Hs s'' HR' HI; apply Hs; by first [etrans|idtac]. Qed.

Lemma osafe_bind {A B} (p : prog db A) (f : A → prog db B) (Mid : option T → A → S → Prop) Post : ∀ o s,
  I s → osafe o p Mid s →
  (∀ o' a s', R s s' → I s' → (∀ s'', rely o' s' s'' → I s'' → Mid o' a s'') → osafe o' (f a) Post s') →
  osafe o (bind p f) Post s.
Proof.
  induction p as [a|X e k IH]; intros o s HI Hp Hf; simpl in *.
  - apply Hf; [reflexivity|done|]. intros s' HR HI'. by apply Hp.
  - intros s' HR HI' c. specialize (Hp s' HR HI' c). destruct (exec e c s') as [x s''].
    destruct Hp as (HI'' & Hg & o' & Hgr & Hk). split_and!; [done|done|]. exists o'. split; [done|].
    apply IH; [done|done|]. intros o'' a s3 HR3 HI3 HM. apply Hf; [|done|done].
    etrans; [exact (proj1 HR)|]. etrans; [exact (proj1 Hg)|done].
Qed.

(** ** Calls that make no token *)

Lemma grows_refl o s s' : grows o o s s'.
Proof. by left. Qed.

Lemma guar_refl o s : guar o s s.
Proof. split; [reflexivity|]. intros. reflexivity. Qed.

(** A write of an owner: the call may have happened although the caller is told that
    it failed, so the failure is to be answered in the new store too. *)
Lemma osafe_write {A X} o (w : S → result DE X * S) (k : result DE X → prog db A) Post s :
  (∀ s', rely o s s' → I s' →
     I (snd (w s')) ∧ guar o s' (snd (w s')) ∧
     osafe o (k (Err lost)) Post (snd (w s')) ∧ osafe o (k (fst (w s'))) Post (snd (w s'))) →
  (∀ s', rely o s s' → I s' → osafe o (k (Err lost)) Post s') →
  osafe o (Vis (Write w) k) Post s.
Proof.
  intros Hw He s' HR HI c. simpl. destruct (Hw s' HR HI) as (HI' & Hg & Hf & Hk). destruct (ch_fault c).
  - destruct (w s') as [x s'']. split_and!; [done|done|]. exists o. split; [apply grows_refl|done].
  - split_and!; [done|apply guar_refl|]. exists o. split; [apply grows_refl|by apply He].
  - split_and!; [done|done|]. exists o. split; [apply grows_refl|done].
Qed.

(** A write that makes a token. *)
Lemma osafe_acquire {A X} (w : S → result DE X * S) (k : result DE X → prog db A) Post s :
  (∀ s', rely None s s' → I s' →
     I (snd (w s')) ∧ guar None s' (snd (w s')) ∧ osafe None (k (Err lost)) Post (snd (w s')) ∧
     (osafe None (k (fst (w s'))) Post (snd (w s')) ∨
      ∃ t, fresh t s' ∧ ¬ fresh t (snd (w s')) ∧ osafe (Some t) (k (fst (w s'))) Post (snd (w s')))) →
  (∀ s', rely None s s' → I s' → osafe None (k (Err lost)) Post s') →
  osafe None (Vis (Write w) k) Post s.
Proof.
  intros Hw He s' HR HI c. simpl. destruct (Hw s' HR HI) as (HI' & Hg & Hf & Hk). destruct (ch_fault c).
  - destruct (w s') as [x s'']. split_and!; [done|done|]. destruct Hk as [Hk|(t & H1 & H2 & Hk)].
    + exists None. split; [apply grows_refl|done].
    + exists (Some t). split; [|done]. right. by exists t.
  - split_and!; [done|apply guar_refl|]. exists None. split; [apply grows_refl|by apply He].
  - split_and!; [done|done|]. exists None. split; [apply grows_refl|done].
Qed.

(** Bookkeeping of an owner. *)
Lemma osafe_log {A} o (f : S → S) (k : unit → prog db A) Post s :
  (∀ s', rely o s s' → I s' → I (f s') ∧ guar o s' (f s') ∧ osafe o (k tt) Post (f s')) →
  osafe o (Vis (Log f) k) Post s.
Proof.
  intros Hk s' HR HI c. simpl. destruct (Hk s' HR HI) as (? & ? & ?). split_and!; [done|done|].
  exists o. split; [apply grows_refl|done].
Qed.

(** ** Programs that touch no token

    What such a program does, every worker may do: it works for an owner too, and
    what the owner knew it still knows afterwards. *)

Definition quiet (s s' : S) : Prop := R s s' ∧ ∀ t, K t s s'.

Lemma quiet_rely o s s' : quiet s s' → rely o s s'.
Proof. intros [HR HK]. split; [done|]. by destruct o. Qed.
Lemma quiet_guar o s s' : quiet s s' → guar o s s'.
Proof. intros [HR HK]. by split. Qed.
Lemma quiet_refl s : quiet s s.
Proof. split; [reflexivity|]. intros. reflexivity. Qed.

Fixpoint calm {A} (o : option T) (p : prog (@db S DE Q) A) (Post : A → S → Prop) (s : S) : Prop :=
  match p with
  | Ret a => ∀ s', rely o s s' → I s' → Post a s'
  | Vis e k => ∀ s', rely o s s' → I s' → ∀ c,
      let '(x, s'') := exec e c s' in I s'' ∧ quiet s' s'' ∧ calm o (k x) Post s''
  end.

Lemma calm_bind {A B} o (p : prog db A) (f : A → prog db B) (Mid : A → S → Prop) Post : ∀ s,
  I s → calm o p Mid s → (∀ a s', rely o s s' → I s' → Mid a s' → calm o (f a) Post s') → calm o (bind p f) Post s.
Proof.
  induction p as [a|X e k IH]; intros s HI Hp Hf; simpl in *.
  - apply Hf; [reflexivity|done|]. apply Hp; [reflexivity|done].
  - intros s' HR HI' c. specialize (Hp s' HR HI' c). destruct (exec e c s') as [x s''].
    destruct Hp as (HI'' & Hq & Hk). split_and!; [done|done|].
    apply IH; [done|done|]. intros a s3 HR3 HI3 HM. apply Hf; [|done|done].
    etrans; [exact HR|]. etrans; [by apply quiet_rely|done].
Qed.

(** A part that touches no token, in the program of an owner. *)
Lemma osafe_calm {A B} o (p : prog db A) (f : A → prog db B) (Mid : A → S → Prop) Post : ∀ s,
  I s → calm o p Mid s → (∀ a s', rely o s s' → I s' → Mid a s' → osafe o (f a) Post s') → osafe o (bind p f) Post s.
Proof.
  induction p as [a|X e k IH]; intros s HI Hp Hf; simpl in *.
  - apply Hf; [reflexivity|done|]. apply Hp; [reflexivity|done].
  - intros s' HR HI' c. specialize (Hp s' HR HI' c). destruct (exec e c s') as [x s''].
    destruct Hp as (HI'' & Hq & Hk). split_and!; [done|by apply quiet_guar|]. exists o. split; [apply grows_refl|].
    apply IH; [done|done|]. intros a s3 HR3 HI3 HM. apply Hf; [|done|done].
    etrans; [exact HR|]. etrans; [by apply quiet_rely|done].
Qed.

Lemma calm_osafe {A} o (p : prog db A) (P : A → S → Prop) (Post : option T → A → S → Prop) : ∀ s,
  calm o p P s → (∀ a s', I s' → P a s' → Post o a s') → osafe o p Post s.
Proof.
  induction p as [a|X e k IH]; intros s Hp HP; simpl in *; [by eauto|].
  intros s' HR HI c. specialize (Hp s' HR HI c). destruct (exec e c s') as [x s''].
  destruct Hp as (? & Hq & ?). split_and!; [done|by apply quiet_guar|]. exists o. split; [apply grows_refl|by apply IH].
Qed.

Lemma calm_weaken {A} o (p : prog db A) (P1 P2 : A → S → Prop) : ∀ s,
  calm o p P1 s → (∀ a s', I s' → P1 a s' → P2 a s') → calm o p P2 s.
Proof.
  induction p as [a|X e k IH]; intros s Hp HP; simpl in *; [by eauto|].
  intros s' HR HI c. specialize (Hp s' HR HI c). destruct (exec e c s') as [x s'']. naive_solver.
Qed.

Lemma calm_read {A X} o (q : S → result DE X) (k : result DE X → prog db A) Post s :
  (∀ s', rely o s s' → I s' → calm o (k (q s')) Post s') →
  (∀ s', rely o s s' → I s' → calm o (k (Err lost)) Post s') →
  calm o (Vis (Read q) k) Post s.
Proof. intros Hq He s' HR HI c. simpl. destruct (ch_fault c); split_and!; eauto using quiet_refl. Qed.

Lemma calm_write {A X} o (w : S → result DE X * S) (k : result DE X → prog db A) Post s :
  (∀ s', rely o s s' → I s' → I (snd (w s')) ∧ quiet s' (snd (w s')) ∧ calm o (k (fst (w s'))) Post (snd (w s'))) →
  (∀ s', rely o s s' → I s' → calm o (k (Err lost)) Post s') →
  calm o (Vis (Write w) k) Post s.
Proof.
  intros Hw He s' HR HI c. simpl. destruct (Hw s' HR HI) as (HI' & Hq & Hk). destruct (ch_fault c).
  - by destruct (w s').
  - split_and!; [done|apply quiet_refl|by apply He].
  - split_and!; [done|done|]. apply He; [|done]. etrans; [done|by apply quiet_rely].
Qed.

Lemma calm_now {A} o (k : time → prog db A) Post s :
  (∀ s', rely o s s' → I s' → calm o (k (now s')) Post s') → calm o (Vis Now k) Post s.
Proof. intros Hk s' HR HI c. simpl. split_and!; eauto using quiet_refl. Qed.

Lemma calm_ask {A X} o (q : Q X) (k : X → prog db A) Post s :
  (∀ x s', rely o s s' → I s' → calm o (k x) Post s') → calm o (Vis (Ask q) k) Post s.
Proof. intros Hk s' HR HI c. simpl. split_and!; eauto using quiet_refl. Qed.

(** Whatever the answers, no call of such a program matters to an owner. *)
Fixpoint tame {A} (p : prog (@db S DE Q) A) : Prop :=
  match p with
  | Ret _ => True
  | Vis e k => (∀ c s, I s → I (snd (exec e c s)) ∧ quiet s (snd (exec e c s))) ∧ ∀ x, tame (k x)
  end.

Lemma tame_calm {A} o (p : prog db A) : ∀ s, tame p → calm o p (λ _ _, True) s.
Proof.
  induction p as [a|X e k IH]; intros s Hp; simpl in *; [done|]. intros s' _ HI c. destruct Hp as [He Hk].
  specialize (He c s' HI). destruct (exec e c s') as [x s'']. destruct He. split_and!; [done|done|]. by apply IH.
Qed.

Lemma tame_bind {A B} (p : prog db A) (f : A → prog db B) : tame p → (∀ a, tame (f a)) → tame (bind p f).
Proof. intros Hp Hf. induction p as [a|X e k IH]; simpl in *; [apply Hf|]. destruct Hp. split; [done|]. intros x. by apply IH. Qed.

Lemma tame_read {X} (q : S → result DE X) : tame (call (Read q)).
Proof. split; [|done]. intros c s HI. simpl. by destruct (ch_fault c); split; try apply quiet_refl. Qed.
Lemma tame_now : tame (call Now).
Proof. split; [|done]. intros c s HI. split; [done|apply quiet_refl]. Qed.
Lemma tame_ask {X} (q : Q X) : tame (call (Ask q)).
Proof. split; [|done]. intros c s HI. split; [done|apply quiet_refl]. Qed.
Lemma tame_write {X} (w : S → result DE X * S) :
  (∀ s, I s → I (snd (w s)) ∧ quiet s (snd (w s))) → tame (call (Write w)).
Proof. intros Hw. split; [|done]. intros c s HI. simpl. by destruct (ch_fault c); [apply Hw|split; [|apply quiet_refl]|apply Hw]. Qed.

Lemma tame_for_each {A B} (l : list B) body : ∀ acc : A, (∀ a x, tame (body a x)) → tame (for_each l acc body).
Proof. induction l as [|x l IH]; intros acc Hb; simpl; [done|]. apply tame_bind; [apply Hb|]. intros a. by apply IH. Qed.

(** What a program returns with holds from then on. *)
Lemma calm_stable {A} o (p : prog db A) (Mid : A → S → Prop) : ∀ s,
  calm o p Mid s → calm o p (λ a s1, ∀ s2, rely o s1 s2 → I s2 → Mid a s2) s.
Proof.
  induction p as [a|X e k IH]; intros s Hx; simpl in *.
  - intros s' HR HI s2 HR2 HI2. apply Hx; [by etrans|done].
  - intros s' HR HI c. specialize (Hx s' HR HI c). destruct (exec e c s') as [y s'']. naive_solver.
Qed.

Lemma calm_for_each {A B} o (l : list B) (acc : A) body (Mid : A → S → Prop) : ∀ s,
  I s → (∀ s', rely o s s' → I s' → Mid acc s') →
  (∀ a x s', x ∈ l → rely o s s' → I s' → Mid a s' → calm o (body a x) Mid s') →
  calm o (for_each l acc body) Mid s.
Proof.
  revert acc. induction l as [|x l IH]; intros acc s HI Hacc Hbody; simpl; [done|].
  eapply calm_bind; [done|apply calm_stable, Hbody; [by apply list_elem_of_here|reflexivity|done|]|].
  - apply Hacc; [reflexivity|done].
  - intros a s' HR HI' HM. apply IH; [done|done|]. intros b y s'' Hy HR' HI'' Hb.
    apply Hbody; [by apply list_elem_of_further|by etrans|done|done].
Qed.

(** ** All runs of a system *)

Section adequacy.
Context {A Req : Type} (entry : Req → prog (@db S DE Q) A) (admissible : Req → Prop) (s0 : S).
Definition anything {B} (_ : option T) (_ : B) (_ : S) : Prop := True.
Hypothesis entry_safe : ∀ r s, admissible r → R s0 s → I s → osafe None (entry r) anything s.
Hypothesis tick_ok : ∀ d s, I s → I (tick d s) ∧ R s (tick d s) ∧ ∀ t, K t s (tick d s).

Abbreviation config := (config (S := S) (DE := DE) (Q := Q) (A := A)).
Abbreviation event := (event (Q := Q) (Req := Req)).

Definition may_arrive (e : event) : Prop := match e with Spawn r => admissible r | _ => True end.

(** Every token has one owner at most, and was made. *)
Record owners_ok (cf : config) (os : list (option T)) : Prop := {
  ow_safe : Forall2 (λ p o, osafe o p anything (cf_store cf)) (cf_pool cf) os;
  ow_one : ∀ i j t, os !! i = Some (Some t) → os !! j = Some (Some t) → i = j;
  ow_made : ∀ i t, os !! i = Some (Some t) → ¬ fresh t (cf_store cf)
}.
Definition opool_ok (cf : config) : Prop := I (cf_store cf) ∧ R s0 (cf_store cf) ∧ ∃ os, owners_ok cf os.

Lemma spawn_ok cf r : admissible r → opool_ok cf → opool_ok (step_event lost now tick entry cf (Spawn r)).
Proof.
  destruct cf as [s ps]. intros Hr (HI & HR & os & [Hs H1 Hm]). simpl in *. split_and!; [done|done|].
  assert (Hlast : ∀ i t, (os ++ [None]) !! i = Some (Some t) → os !! i = Some (Some t)).
  { intros i t [Hi|[_ Hi]]%lookup_app_Some; [done|]. by apply list_lookup_singleton_Some in Hi as [_ ?]. }
  exists (os ++ [None]). split; simpl.
  - apply Forall2_app; [done|]. constructor; [by apply entry_safe|constructor].
  - intros i j t Hi%Hlast Hj%Hlast. by eapply H1.
  - intros i t Hi%Hlast. by eapply Hm.
Qed.

Lemma tick_event_ok cf d : opool_ok cf → opool_ok (step_event lost now tick entry cf (Tick d)).
Proof.
  destruct cf as [s ps]. intros (HI & HR & os & [Hs H1 Hm]). simpl in *.
  destruct (tick_ok d s HI) as (HI' & HR' & HK'). split_and!; [done|by etrans|]. exists os. split; simpl.
  - eapply Forall2_impl; [exact Hs|]. intros p o. apply osafe_later. split; [done|]. by destruct o.
  - done.
  - intros i t Hi Hf. eapply Hm; [exact Hi|]. by eapply made_stays.
Qed.

Lemma owned_step_ok cf i c : opool_ok cf → opool_ok (step_event lost now tick entry cf (Step i c)).
Proof.
  destruct cf as [s ps]. intros (HI & HR0 & os & [Hs H1 Hm]). simpl in *.
  destruct (ps !! i) as [[a|X e k]|] eqn:Hi; [split_and!; [done|done|exists os; by split]| |split_and!; [done|done|exists os; by split]].
  destruct (Forall2_lookup_l _ _ _ _ _ Hs Hi) as (o & Ho & Hp). simpl in Hp.
  specialize (Hp s ltac:(reflexivity) HI c). destruct (exec e c s) as [x s'].
  destruct Hp as (HI' & [HR HK] & o' & Hgr & Hk). split_and!; [done|simpl; by etrans|].
  assert (Hkeep : ∀ t, ¬ fresh t s → ¬ fresh t s') by (intros t Hn Hf; apply Hn; by eapply made_stays).
  assert (Hnew : ∀ j t, j ≠ i → os !! j = Some (Some t) → o' ≠ Some t).
  { intros j t Hji Hj ->. destruct Hgr as [<-|(t' & -> & [= <-] & Hf & _)]; [by apply Hji, (H1 j i t)|by eapply Hm]. }
  assert (Hother : ∀ j oj, j ≠ i → os !! j = Some oj → rely oj s s').
  { intros j [t|] Hji Hj; [|by split]. split; [done|]. apply HK; [|by eapply Hm].
    intros ->. by apply Hji, (H1 j i t). }
  exists (<[i := o']> os). assert (Hlen : (i < length os)%nat) by (apply lookup_lt_is_Some; by exists o).
  split; simpl.
  - apply Forall2_lookup. intros j. destruct (decide (j = i)) as [->|Hji].
    + rewrite !list_lookup_insert_eq; [by constructor|done|]. apply lookup_lt_is_Some. by exists (Vis e k).
    + rewrite !list_lookup_insert_ne by done. rewrite Forall2_lookup in Hs. specialize (Hs j).
      destruct (ps !! j) as [p|], (os !! j) as [oj|] eqn:Hj; inversion Hs as [? ? Hpj|]; simplify_eq; [|constructor].
      constructor. eapply osafe_later; [by eapply Hother|done].
  - intros j l t Hj Hl. destruct (decide (j = i)) as [->|Hji], (decide (l = i)) as [->|Hli]; [done| | |].
    + rewrite list_lookup_insert_eq in Hj by done. rewrite list_lookup_insert_ne in Hl by done.
      injection Hj as ->. by destruct (Hnew l t Hli Hl).
    + rewrite list_lookup_insert_eq in Hl by done. rewrite list_lookup_insert_ne in Hj by done.
      injection Hl as ->. by destruct (Hnew j t Hji Hj).
    + rewrite !list_lookup_insert_ne in Hj, Hl by done. by eapply H1.
  - intros j t Hj. destruct (decide (j = i)) as [->|Hji].
    + rewrite list_lookup_insert_eq in Hj by done. injection Hj as ->.
      destruct Hgr as [<-|(t' & _ & [= <-] & _ & Hf)]; [by eapply Hkeep, Hm|done].
    + rewrite list_lookup_insert_ne in Hj by done. by eapply Hkeep, Hm.
Qed.

Lemma owned_run_ok es : ∀ cf, opool_ok cf → Forall may_arrive es → opool_ok (run_events lost now tick entry cf es).
Proof.
  induction es as [|e es IH]; intros cf Hcf Hes; simpl; [done|].
  apply Forall_cons in Hes as [He Hes]. apply IH; [|done].
  destruct e; [by apply spawn_ok|by apply owned_step_ok|by apply tick_event_ok].
Qed.

End adequacy.
End owned.
