(* ===== verification/PaymentOrder.v ===== *)
(** * Payment orders: the row and the decisions taken from it alone

    Models the status constants of [payment/types.go], the columns of a payment
    order the fulfilment reads, and the pure parts of
    [service/payment_order_provider_snapshot.go], [service/payment_fulfillment.go],
    [service/payment_order_lifecycle.go], [service/payment_refund.go] and
    [payment/currency.go]: which provider may confirm an order, what its
    notification must carry, which amounts are accepted, which references are
    recognised. *)

From S2P Require Import Prelude Float64 GoStrings.

(** [strings.EqualFold] and [strings.ToUpper] need the Unicode tables. *)
Class UnicodeFold := {
  EqualFold : bytes → bytes → bool;
  ToUpper : bytes → bytes;
  EqualFold_refl : ∀ s, EqualFold s s = true
}.

(** The decimal library: [decimal.NewFromFloat(x).Sub(decimal.NewFromFloat(y)).Round(2)],
    as a float. *)
Class Decimal := sub_round2 : float64 → float64 → float64.

Module PaymentOrder.
Import GoStrings.

(** ** Constants *)

Inductive OrderStatus :=
  | OrderStatusPending | OrderStatusPaid | OrderStatusRecharging | OrderStatusCompleted
  | OrderStatusExpired | OrderStatusCancelled | OrderStatusFailed | OrderStatusRefundRequested
  | OrderStatusRefunding | OrderStatusRefundPending | OrderStatusPartiallyRefunded
  | OrderStatusRefunded | OrderStatusRefundFailed.
#[export] Instance OrderStatus_eq_dec : EqDecision OrderStatus.
Proof. solve_decision. Defined.

Definition OrderTypeBalance : bytes := lit "balance".
Definition OrderTypeSubscription : bytes := lit "subscription".

Definition TypeAlipay : bytes := lit "alipay".
Definition TypeWxpay : bytes := lit "wxpay".
Definition TypeAlipayDirect : bytes := lit "alipay_direct".
Definition TypeWxpayDirect : bytes := lit "wxpay_direct".
Definition TypeStripe : bytes := lit "stripe".
Definition TypeCard : bytes := lit "card".
Definition TypeLink : bytes := lit "link".
Definition TypeEasyPay : bytes := lit "easypay".
Definition TypeAirwallex : bytes := lit "airwallex".

Definition paymentGraceMinutes : Z := 5.
Definition paymentFulfillmentLeaseDuration : duration := 5 * minute.
Definition amountToleranceCNY : float64 := Float.decimal 1 2.
Definition orderIDPrefix : bytes := lit "sub2_".

(** ** The row *)

(** A value of a decoded JSON object. *)
Inductive json :=
  | JString (s : bytes)
  | JNumber (x : float64)
  | JInt (z : Z)
  | JOther.

(** The columns a refund writes. *)
Record RefundColumns := mkRefund {
  RefundAmount : float64;
  RefundReason : option bytes;
  RefundAt : option time;
  ForceRefund : bool;
  RefundRequestedAt : option time;
  RefundRequestReason : option bytes;
  RefundRequestedBy : option bytes
}.

Definition no_refund : RefundColumns := mkRefund Float.zero None None false None None None.

Record Order := mkOrder {
  o_ID : Z;
  o_UserID : Z;
  o_Amount : float64;
  o_PayAmount : float64;
  o_BonusAmount : float64;
  o_RechargeCode : bytes;
  o_OutTradeNo : bytes;
  o_PaymentType : bytes;
  o_PaymentTradeNo : bytes;
  o_OrderType : bytes;
  o_SubscriptionGroupID : option Z;
  o_SubscriptionDays : option Z;
  o_ProviderInstanceID : option bytes;
  o_ProviderKey : option bytes;
  o_ProviderSnapshot : gmap bytes json;
  o_Status : OrderStatus;
  o_ExpiresAt : time;
  o_PaidAt : option time;
  o_CompletedAt : option time;
  o_FailedAt : option time;
  o_Refund : RefundColumns;
  o_CreatedAt : time;
  o_UpdatedAt : time
}.

(** A configured instance of a provider. *)
Record ProviderInstance := mkInstance {
  pi_ID : Z;
  pi_ProviderKey : bytes;
  pi_SupportedTypes : bytes;
  pi_Enabled : bool;
  pi_RefundEnabled : bool;
  pi_AllowUserRefund : bool
}.

Definition psStringValue (v : option bytes) : bytes := default [] v.

Definition psIsRefundStatus (s : OrderStatus) : bool :=
  match s with
  | OrderStatusRefundRequested | OrderStatusRefunding | OrderStatusRefundPending
  | OrderStatusPartiallyRefunded | OrderStatusRefunded | OrderStatusRefundFailed => true
  | _ => false
  end.

Definition isSupportedPaymentOrderType (t : bytes) : bool :=
  bool_decide (t = OrderTypeBalance) || bool_decide (t = OrderTypeSubscription).

(** ** Payment types *)

Definition GetBasePaymentType (t : bytes) : bytes :=
  if bool_decide (t = TypeEasyPay) then TypeEasyPay
  else if bool_decide (t = TypeAirwallex) then TypeAirwallex
  else if bool_decide (t = TypeStripe) || bool_decide (t = TypeCard) || bool_decide (t = TypeLink)
  then TypeStripe
  else if HasPrefix t TypeAlipay then TypeAlipay
  else if HasPrefix t TypeWxpay then TypeWxpay
  else t.

Definition normalizeVisibleMethodSupportType (t : bytes) : bytes :=
  let t := TrimSpace t in
  if bool_decide (t = TypeAlipay) || bool_decide (t = TypeAlipayDirect) then TypeAlipay
  else if bool_decide (t = TypeWxpay) || bool_decide (t = TypeWxpayDirect) then TypeWxpay
  else t.

Definition InstanceSupportsType (supportedTypes target : bytes) : bool :=
  if bool_decide (supportedTypes = []) then true
  else
    let normalizedTarget := normalizeVisibleMethodSupportType target in
    existsb (λ t, let supported := TrimSpace t in
               bool_decide (supported = target)
               || bool_decide (normalizeVisibleMethodSupportType supported = normalizedTarget))
      (Split ","%char supportedTypes).

(** ** The provider recorded with the order *)

Record Snapshot := mkSnapshot {
  SchemaVersion : Z;
  ProviderInstanceID : bytes;
  ProviderKey : bytes;
  PaymentMode : bytes;
  MerchantAppID : bytes;
  MerchantID : bytes;
  Currency : bytes
}.

Definition psSnapshotStringValue (v : option json) : bytes :=
  match v with Some (JString s) => TrimSpace s | _ => [] end.

Definition psSnapshotIntValue (v : option json) : Z :=
  match v with
  | Some (JInt z) => z
  | Some (JNumber x) => Float.trunc x
  | Some (JString s) => default 0 (Atoi (TrimSpace s))
  | _ => 0
  end.

Definition psOrderProviderSnapshot (o : Order) : option Snapshot :=
  let m := o_ProviderSnapshot o in
  if bool_decide (m = ∅) then None
  else
    let s := {| SchemaVersion := psSnapshotIntValue (m !! lit "schema_version");
                ProviderInstanceID := psSnapshotStringValue (m !! lit "provider_instance_id");
                ProviderKey := psSnapshotStringValue (m !! lit "provider_key");
                PaymentMode := psSnapshotStringValue (m !! lit "payment_mode");
                MerchantAppID := psSnapshotStringValue (m !! lit "merchant_app_id");
                MerchantID := psSnapshotStringValue (m !! lit "merchant_id");
                Currency := psSnapshotStringValue (m !! lit "currency") |} in
    if (SchemaVersion s =? 0) && bool_decide (ProviderInstanceID s = [])
       && bool_decide (ProviderKey s = []) && bool_decide (PaymentMode s = [])
       && bool_decide (MerchantAppID s = []) && bool_decide (MerchantID s = [])
       && bool_decide (Currency s = [])
    then None else Some s.

Definition psLegacyOrderMatchesInstance (orderPaymentType : bytes) (inst : ProviderInstance) : bool :=
  let baseType := GetBasePaymentType (TrimSpace orderPaymentType) in
  let key := TrimSpace (pi_ProviderKey inst) in
  if bool_decide (baseType = []) then false
  else if bool_decide (baseType = TypeStripe) then bool_decide (key = TypeStripe)
  else if bool_decide (key = TypeStripe) then false
  else if bool_decide (key = baseType) then true
  else InstanceSupportsType (pi_SupportedTypes inst) baseType.

Definition psFilterLegacyOrderProviderInstances (orderPaymentType : bytes)
    (instances : list ProviderInstance) : list ProviderInstance :=
  if bool_decide (TrimSpace orderPaymentType = []) then instances
  else filter (λ inst, psLegacyOrderMatchesInstance orderPaymentType inst = true) instances.

Definition paymentOrderAllowsRegistryFallback (o : Order) : bool :=
  bool_decide (psOrderProviderSnapshot o = None)
  && bool_decide (TrimSpace (psStringValue (o_ProviderInstanceID o)) = [])
  && bool_decide (TrimSpace (psStringValue (o_ProviderKey o)) = []).

Section folding.
Context `{UnicodeFold}.

(** ** Currencies and amounts *)

Definition DefaultPaymentCurrency : bytes := lit "CNY".

Definition NormalizePaymentCurrency (raw : bytes) : option bytes :=
  let currency := ToUpper (TrimSpace raw) in
  if bool_decide (currency = []) then Some DefaultPaymentCurrency
  else if negb (length currency =? 3)%nat then None
  else if forallb (within 65 90) currency then Some currency
  else None.

Record AmountUnit := mkUnit { apiMinorUnit : Z; maxFractionDigits : Z }.
Definition zeroDecimalAmountUnit : AmountUnit := mkUnit 0 0.
Definition twoDecimalAmountUnit : AmountUnit := mkUnit 2 2.
Definition threeDecimalAmountUnit : AmountUnit := mkUnit 3 3.
Definition stripeLegacyZeroAmount : AmountUnit := mkUnit 2 0.

Definition paymentCurrencyAmountUnits : list (bytes * AmountUnit) :=
  map (λ c, (lit c, zeroDecimalAmountUnit))
    ["BIF"; "CLP"; "DJF"; "GNF"; "JPY"; "KMF"; "KRW"; "MGA"; "PYG"; "RWF"; "VND"; "VUV"; "XAF"; "XOF"; "XPF"]%string
  ++ map (λ c, (lit c, stripeLegacyZeroAmount)) ["ISK"; "UGX"]%string
  ++ map (λ c, (lit c, threeDecimalAmountUnit)) ["BHD"; "IQD"; "JOD"; "KWD"; "LYD"; "OMR"; "TND"]%string.

Definition paymentCurrencyAmountUnitFor (currency : bytes) : AmountUnit :=
  match NormalizePaymentCurrency currency with
  | None => twoDecimalAmountUnit
  | Some normalized =>
      match list_find (λ e, e.1 = normalized) paymentCurrencyAmountUnits with
      | Some (_, e) => e.2
      | None => twoDecimalAmountUnit
      end
  end.

Definition CurrencyMinorUnit (currency : bytes) : Z :=
  apiMinorUnit (paymentCurrencyAmountUnitFor currency).

Definition PaymentOrderCurrency (o : Order) : bytes :=
  match psOrderProviderSnapshot o with
  | Some s => default DefaultPaymentCurrency (NormalizePaymentCurrency (Currency s))
  | None => DefaultPaymentCurrency
  end.

Definition paymentAmountToleranceForCurrency (currency : bytes) : float64 :=
  let minorUnit := CurrencyMinorUnit currency in
  if minorUnit <=? 2 then amountToleranceCNY
  else Float.div (Float.Pow10 (- minorUnit)) (Float.of_Z 2).

Definition isValidProviderAmount (amount : float64) : bool :=
  Float.lt Float.zero amount && negb (Float.IsNaN amount) && negb (Float.IsInf amount).

(** The amount check of [confirmPayment]. *)
Definition amount_mismatch (o : Order) (paid : float64) : bool :=
  Float.lt (paymentAmountToleranceForCurrency (PaymentOrderCurrency o))
           (Float.Abs (Float.sub paid (o_PayAmount o))).

(** ** Who may confirm an order, and what the notification must say *)

Definition first_nonempty (l : list bytes) (d : bytes) : bytes :=
  default d (head (filter (λ x, x ≠ []) l)).

(** [registry] is the map of registered providers, absent in some tests. *)
Definition expectedNotificationProviderKey (registry : option (bytes → bytes))
    (orderPaymentType orderProviderKey instanceProviderKey : bytes) : bytes :=
  first_nonempty
    ([TrimSpace instanceProviderKey; TrimSpace orderProviderKey]
     ++ match registry with Some f => [TrimSpace (f orderPaymentType)] | None => [] end)
    (TrimSpace orderPaymentType).

Definition expectedNotificationProviderKeyForOrder (registry : option (bytes → bytes)) (o : Order)
    (instanceProviderKey : bytes) : bytes :=
  let orderProviderKey :=
    match psOrderProviderSnapshot o with
    | Some s => if bool_decide (ProviderKey s = []) then psStringValue (o_ProviderKey o) else ProviderKey s
    | None => psStringValue (o_ProviderKey o)
    end in
  expectedNotificationProviderKey registry (o_PaymentType o) orderProviderKey instanceProviderKey.

(** The provider check of [confirmPayment]. *)
Definition provider_mismatch (expected pk : bytes) : bool :=
  bool_decide (expected ≠ []) && bool_decide (TrimSpace pk ≠ [])
  && negb (EqualFold expected (TrimSpace pk)).

Abbreviation metadata := (gmap bytes bytes) (only parsing).

Definition meta (m : metadata) (k : string) : bytes := default [] (m !! lit k).

(** [expected] recorded with the order must reappear; nothing is asked when it
    was not recorded. *)
Definition field_ok (expected actual : bytes) : bool :=
  bool_decide (expected = []) || (bool_decide (actual ≠ []) && EqualFold expected actual).

(** A status the notification may omit. *)
Definition state_ok (wanted : string) (actual : bytes) : bool :=
  bool_decide (actual = []) || EqualFold actual (lit wanted).

(** [validateProviderSnapshotMetadata]: [true] for no error. *)
Definition validateProviderSnapshotMetadata (o : Order) (providerKey : bytes) (m : metadata) : bool :=
  if bool_decide (m = ∅) then true
  else match psOrderProviderSnapshot o with
  | None => true
  | Some s =>
      let key := TrimSpace providerKey in
      if bool_decide (key = TypeWxpay) then
        field_ok (TrimSpace (MerchantAppID s)) (TrimSpace (meta m "appid"))
        && field_ok (TrimSpace (MerchantID s)) (TrimSpace (meta m "mchid"))
        && field_ok (TrimSpace (Currency s)) (ToUpper (TrimSpace (meta m "currency")))
        && state_ok "SUCCESS" (TrimSpace (meta m "trade_state"))
      else if bool_decide (key = TypeAlipay) then
        field_ok (TrimSpace (MerchantAppID s)) (TrimSpace (meta m "app_id"))
      else if bool_decide (key = TypeEasyPay) then
        field_ok (TrimSpace (MerchantID s)) (TrimSpace (meta m "pid"))
      else if bool_decide (key = TypeStripe) then
        field_ok (TrimSpace (Currency s)) (ToUpper (TrimSpace (meta m "currency")))
      else if bool_decide (key = TypeAirwallex) then
        field_ok (TrimSpace (MerchantID s)) (TrimSpace (meta m "account_id"))
        && field_ok (TrimSpace (Currency s)) (ToUpper (TrimSpace (meta m "currency")))
        && state_ok "SUCCEEDED" (TrimSpace (meta m "status"))
      else true
  end.

(** ** References *)

Definition parseLegacyPaymentOrderID (orderID : bytes) (not_found : bool) : option Z :=
  if negb not_found then None
  else
    let orderID := TrimSpace orderID in
    if negb (HasPrefix orderID orderIDPrefix) then None
    else
      let trimmed := TrimPrefix orderID orderIDPrefix in
      if bool_decide (trimmed = []) || bool_decide (trimmed = orderID) then None
      else match Atoi trimmed with
           | Some oid => if oid <=? 0 then None else Some oid
           | None => None
           end.

Definition paymentOrderQueryReference (o : Order) (provKey : bytes) : bytes :=
  let providerKey :=
    first_nonempty
      ([TrimSpace provKey]
       ++ match psOrderProviderSnapshot o with Some s => [TrimSpace (ProviderKey s)] | None => [] end
       ++ [TrimSpace (psStringValue (o_ProviderKey o))])
      (TrimSpace (o_PaymentType o)) in
  let base := GetBasePaymentType providerKey in
  if bool_decide (base = TypeAlipay) || bool_decide (base = TypeEasyPay) || bool_decide (base = TypeWxpay)
  then TrimSpace (o_OutTradeNo o)
  else first_nonempty [TrimSpace (o_PaymentTradeNo o)] (TrimSpace (o_OutTradeNo o)).

Definition paymentOrderShouldPersistUpstreamTradeNo (queryRef upstreamTradeNo currentTradeNo : bytes) : bool :=
  let upstreamTradeNo := TrimSpace upstreamTradeNo in
  if bool_decide (upstreamTradeNo = []) then false
  else if EqualFold upstreamTradeNo (TrimSpace currentTradeNo) then false
  else if EqualFold upstreamTradeNo (TrimSpace queryRef) then false
  else true.

Definition paymentOrderFallbackProviderKey (registry : option (bytes → bytes)) (o : Order) : bytes :=
  first_nonempty
    match registry with Some f => [TrimSpace (f (o_PaymentType o))] | None => [] end
    (TrimSpace (GetBasePaymentType (TrimSpace (o_PaymentType o)))).

End folding.

(** A byte the loop of [normalizeOrderLookupOutTradeNo] accepts. *)
Definition trade_no_char (c : ascii) : bool :=
  within 97 122 c || within 65 90 c || within 48 57 c || bool_decide (c = "_"%char) || bool_decide (c = "-"%char).

Definition normalizeOrderLookupOutTradeNo (raw : bytes) : option bytes :=
  let outTradeNo := TrimSpace raw in
  if bool_decide (outTradeNo = []) then None
  else if (64 <? length outTradeNo)%nat then None
  else if forallb trade_no_char outTradeNo then Some outTradeNo else None.

Definition paymentSubscriptionOrderNote (orderID : Z) : bytes :=
  lit "payment order " ++ FormatInt orderID.

Definition hasPaymentSubscriptionOrderNote (notes orderNote : bytes) : bool :=
  existsb (λ line, bool_decide (TrimSpace line = orderNote)) (Split LF (crlf_to_lf notes)).

(** ** Amounts the affiliate rebate is computed from *)

Section decimal.
Context `{Decimal}.

Definition paymentOrderAmountWithoutBonus (o : Order) : float64 :=
  if negb (bool_decide (o_OrderType o = OrderTypeBalance)) || Float.le (o_BonusAmount o) Float.zero
  then o_Amount o
  else
    let base := sub_round2 (o_Amount o) (o_BonusAmount o) in
    if Float.lt base Float.zero then Float.zero else base.

Definition affiliateRebateBaseAmount (o : Order) : float64 :=
  if bool_decide (o_OrderType o = OrderTypeBalance) then paymentOrderAmountWithoutBonus o
  else if bool_decide (o_OrderType o = OrderTypeSubscription) then o_Amount o
  else Float.zero.

End decimal.

End PaymentOrder.
