(* ===== verification/Subscription.v ===== *)
(** * Subscriptions: terms and usage windows

    Models [service/user_subscription.go] and the term and window operations of
    [service/subscription_service.go].  A window of a day follows the calendar of
    the configured zone; those of a week and a month step by whole periods from
    the moment the term (or the last manual reset) began. *)

From S2P Require Import Prelude Float64 GoStrings.

(** Offsets from UTC: of the configured zone, and of the zone the instants read
    from the database carry.  Zones with daylight saving are left out. *)
Class TimeZones := { configured_offset : duration; value_offset : duration }.

Module Subscription.
Import GoStrings.

Definition day : duration := 24 * hour.

(** [time.Date(t.Year(), t.Month(), t.Day(), 0, ...)] in a zone of fixed offset. *)
Definition start_of_day (off : duration) (t : time) : time := (t + off) / day * day - off.
(** [t.AddDate(0, 0, d)] *)
Definition AddDays (t : time) (d : Z) : time := t + d * day.

Definition MaxExpiresAt : time := 4102444799 * second.
Definition MaxValidityDays : Z := 36500.

Inductive SubStatus :=
  | SubscriptionStatusActive | SubscriptionStatusExpired
  | SubscriptionStatusSuspended | SubscriptionStatusRevoked.
#[export] Instance SubStatus_eq_dec : EqDecision SubStatus.
Proof. solve_decision. Defined.

Record UserSubscription := mkSub {
  us_ID : Z;
  us_UserID : Z;
  us_GroupID : Z;
  us_StartsAt : time;
  us_ExpiresAt : time;
  us_Status : SubStatus;
  us_DailyWindowStart : option time;
  us_WeeklyWindowStart : option time;
  us_MonthlyWindowStart : option time;
  us_DailyUsageUSD : float64;
  us_WeeklyUsageUSD : float64;
  us_MonthlyUsageUSD : float64;
  us_AssignedBy : option Z;
  us_AssignedAt : time;
  us_Notes : bytes
}.

(** What a subscription reads of its group. *)
Record Group := mkGroup {
  g_ID : Z;
  g_IsActive : bool;
  g_IsSubscriptionType : bool;
  g_DailyLimitUSD : option float64;
  g_WeeklyLimitUSD : option float64;
  g_MonthlyLimitUSD : option float64
}.

Section zones.
Context `{TimeZones}.

(** [timezone.StartOfDay] and the [startOfDay] that keeps a value's own zone. *)
Definition StartOfDay (t : time) : time := start_of_day configured_offset t.
Definition startOfDay (t : time) : time := start_of_day value_offset t.

(** ** Terms *)

Definition appendSubscriptionNotes (existingNotes newNotes : bytes) : bytes :=
  if bool_decide (newNotes = []) then existingNotes
  else if bool_decide (existingNotes = []) then newNotes
  else existingNotes ++ LF :: newNotes.

Definition renewedSubscriptionTerm (s : UserSubscription) (notes : bytes) (startsAt expiresAt : time)
    : UserSubscription :=
  {| us_ID := us_ID s; us_UserID := us_UserID s; us_GroupID := us_GroupID s;
     us_StartsAt := startsAt; us_ExpiresAt := expiresAt; us_Status := SubscriptionStatusActive;
     us_DailyWindowStart := Some (StartOfDay startsAt);
     us_WeeklyWindowStart := Some startsAt; us_MonthlyWindowStart := Some startsAt;
     us_DailyUsageUSD := Float.zero; us_WeeklyUsageUSD := Float.zero; us_MonthlyUsageUSD := Float.zero;
     us_AssignedBy := us_AssignedBy s; us_AssignedAt := us_AssignedAt s;
     us_Notes := appendSubscriptionNotes (us_Notes s) notes |}.

Definition set_term (s : UserSubscription) (expires : time) (status : SubStatus) (notes : bytes)
    : UserSubscription :=
  {| us_ID := us_ID s; us_UserID := us_UserID s; us_GroupID := us_GroupID s;
     us_StartsAt := us_StartsAt s; us_ExpiresAt := expires; us_Status := status;
     us_DailyWindowStart := us_DailyWindowStart s; us_WeeklyWindowStart := us_WeeklyWindowStart s;
     us_MonthlyWindowStart := us_MonthlyWindowStart s; us_DailyUsageUSD := us_DailyUsageUSD s;
     us_WeeklyUsageUSD := us_WeeklyUsageUSD s; us_MonthlyUsageUSD := us_MonthlyUsageUSD s;
     us_AssignedBy := us_AssignedBy s; us_AssignedAt := us_AssignedAt s; us_Notes := notes |}.

(** The body of [updateExistingSubscriptionTerm], on the locked row. *)
Definition updateExistingSubscriptionTerm (s : UserSubscription) (validityDays : Z) (notes : bytes)
    (assignmentSemantics : bool) (now : time) : UserSubscription :=
  if assignmentSemantics && bool_decide (us_Status s = SubscriptionStatusSuspended) then s
  else
    let isExpired :=
      if assignmentSemantics then
        bool_decide (us_Status s = SubscriptionStatusExpired)
        || (negb (bool_decide (us_Status s = SubscriptionStatusSuspended)) && negb (after (us_ExpiresAt s) now))
      else negb (after (us_ExpiresAt s) now) in
    let e := AddDays (if isExpired then now else us_ExpiresAt s) validityDays in
    let newExpiresAt := if after e MaxExpiresAt then MaxExpiresAt else e in
    let notes := if assignmentSemantics && bool_decide (TrimSpace (us_Notes s) = TrimSpace notes)
                 then [] else notes in
    if isExpired then renewedSubscriptionTerm s notes now newExpiresAt
    else
      set_term s newExpiresAt
        (if bool_decide (us_Status s = SubscriptionStatusActive) then us_Status s else SubscriptionStatusActive)
        (if bool_decide (notes = []) then us_Notes s else appendSubscriptionNotes (us_Notes s) notes).

Definition normalizeAssignValidityDays (days : Z) : Z :=
  let days := if days <=? 0 then 30 else days in
  if MaxValidityDays <? days then MaxValidityDays else days.

(** The row [createSubscription] inserts; its identifier is the table's. *)
Definition createSubscription (id userID groupID validityDays assignedBy : Z) (notes : bytes) (now : time)
    : UserSubscription :=
  let e := AddDays now (normalizeAssignValidityDays validityDays) in
  {| us_ID := id; us_UserID := userID; us_GroupID := groupID;
     us_StartsAt := now; us_ExpiresAt := if after e MaxExpiresAt then MaxExpiresAt else e;
     us_Status := SubscriptionStatusActive;
     us_DailyWindowStart := None; us_WeeklyWindowStart := None; us_MonthlyWindowStart := None;
     us_DailyUsageUSD := Float.zero; us_WeeklyUsageUSD := Float.zero; us_MonthlyUsageUSD := Float.zero;
     us_AssignedBy := if 0 <? assignedBy then Some assignedBy else None; us_AssignedAt := now;
     us_Notes := notes |}.

Inductive ExtendError := CannotShortenExpired | AdjustWouldExpire.
#[global] Instance ExtendError_eq_dec : EqDecision ExtendError.
Proof. solve_decision. Defined.

(** The body of [ExtendSubscription], on the locked row. *)
Definition ExtendSubscription (s : UserSubscription) (days : Z) (now : time) : result ExtendError UserSubscription :=
  let days := if MaxValidityDays <? days then MaxValidityDays else days in
  let days := if days <? - MaxValidityDays then - MaxValidityDays else days in
  let isExpired := negb (after (us_ExpiresAt s) now) in
  if isExpired && (days <? 0) then Err CannotShortenExpired
  else
    let e := AddDays (if isExpired then now else us_ExpiresAt s) days in
    let newExpiresAt := if after e MaxExpiresAt then MaxExpiresAt else e in
    if negb (after newExpiresAt now) then Err AdjustWouldExpire
    else Ok (set_term s newExpiresAt
               (if bool_decide (us_Status s = SubscriptionStatusExpired) then SubscriptionStatusActive
                else us_Status s) (us_Notes s)).

(** ** Windows *)

Definition week : duration := 7 * day.
Definition month : duration := 30 * day.

Definition IsWindowActivated (s : UserSubscription) : bool :=
  bool_decide (us_DailyWindowStart s ≠ None) || bool_decide (us_WeeklyWindowStart s ≠ None)
  || bool_decide (us_MonthlyWindowStart s ≠ None).

Definition HasOneTimeDailyQuota (s : UserSubscription) : bool :=
  if (us_StartsAt s =? zero_time) || (us_ExpiresAt s =? zero_time) then false
  else negb (after (us_ExpiresAt s) (AddDays (us_StartsAt s) 1)).

Definition daysRemainingAt (s : UserSubscription) (now : time) : Z :=
  let remaining := time_sub (us_ExpiresAt s) now in
  if remaining <=? 0 then 0
  else Z.quot remaining day + (if Z.rem remaining day =? 0 then 0 else 1).

Definition automaticDailyWindowStartAt (s : UserSubscription) (now : time) : option time :=
  match us_DailyWindowStart s with
  | None => None
  | Some w =>
      if HasOneTimeDailyQuota s then None
      else
        let today := StartOfDay now in
        if negb (after today (StartOfDay w)) then None else Some today
  end.

Definition windowResetAnchor (s : UserSubscription) (previous : time) : time :=
  let legacyAnchor := startOfDay (us_StartsAt s) in
  if before legacyAnchor (us_StartsAt s) && (previous =? legacyAnchor) then us_StartsAt s else previous.

Definition automaticWindowStartAt (s : UserSubscription) (previous : option time) (period : duration)
    (now : time) : option time :=
  match previous with
  | None => None
  | Some previous =>
      let anchor := windowResetAnchor s previous in
      let next := anchor + period in
      if before now next || negb (before next (us_ExpiresAt s)) then None
      else
        let periods := Z.quot (time_sub now anchor) period in
        let lastPeriodBeforeExpiry := Z.quot (time_sub (us_ExpiresAt s) anchor - 1) period in
        let periods := if lastPeriodBeforeExpiry <? periods then lastPeriodBeforeExpiry else periods in
        Some (anchor + periods * period)
  end.

Definition DailyResetTime (s : UserSubscription) : option time :=
  match us_DailyWindowStart s with
  | None => None
  | Some w => Some (if HasOneTimeDailyQuota s then us_ExpiresAt s else AddDays (StartOfDay w) 1)
  end.
Definition WeeklyResetTime (s : UserSubscription) : option time :=
  option_map (λ w, windowResetAnchor s w + week) (us_WeeklyWindowStart s).
Definition MonthlyResetTime (s : UserSubscription) : option time :=
  option_map (λ w, windowResetAnchor s w + month) (us_MonthlyWindowStart s).

Definition set_daily (w : time) (s : UserSubscription) : UserSubscription :=
  {| us_ID := us_ID s; us_UserID := us_UserID s; us_GroupID := us_GroupID s;
     us_StartsAt := us_StartsAt s; us_ExpiresAt := us_ExpiresAt s; us_Status := us_Status s;
     us_DailyWindowStart := Some w; us_WeeklyWindowStart := us_WeeklyWindowStart s;
     us_MonthlyWindowStart := us_MonthlyWindowStart s; us_DailyUsageUSD := Float.zero;
     us_WeeklyUsageUSD := us_WeeklyUsageUSD s; us_MonthlyUsageUSD := us_MonthlyUsageUSD s;
     us_AssignedBy := us_AssignedBy s; us_AssignedAt := us_AssignedAt s; us_Notes := us_Notes s |}.
Definition set_weekly (w : time) (s : UserSubscription) : UserSubscription :=
  {| us_ID := us_ID s; us_UserID := us_UserID s; us_GroupID := us_GroupID s;
     us_StartsAt := us_StartsAt s; us_ExpiresAt := us_ExpiresAt s; us_Status := us_Status s;
     us_DailyWindowStart := us_DailyWindowStart s; us_WeeklyWindowStart := Some w;
     us_MonthlyWindowStart := us_MonthlyWindowStart s; us_DailyUsageUSD := us_DailyUsageUSD s;
     us_WeeklyUsageUSD := Float.zero; us_MonthlyUsageUSD := us_MonthlyUsageUSD s;
     us_AssignedBy := us_AssignedBy s; us_AssignedAt := us_AssignedAt s; us_Notes := us_Notes s |}.
Definition set_monthly (w : time) (s : UserSubscription) : UserSubscription :=
  {| us_ID := us_ID s; us_UserID := us_UserID s; us_GroupID := us_GroupID s;
     us_StartsAt := us_StartsAt s; us_ExpiresAt := us_ExpiresAt s; us_Status := us_Status s;
     us_DailyWindowStart := us_DailyWindowStart s; us_WeeklyWindowStart := us_WeeklyWindowStart s;
     us_MonthlyWindowStart := Some w; us_DailyUsageUSD := us_DailyUsageUSD s;
     us_WeeklyUsageUSD := us_WeeklyUsageUSD s; us_MonthlyUsageUSD := Float.zero;
     us_AssignedBy := us_AssignedBy s; us_AssignedAt := us_AssignedAt s; us_Notes := us_Notes s |}.

(** [CheckAndResetWindows] on the copy in memory, with the conditional writes it
    issues: the window each expects in the row and the one it sets. *)
Inductive window_reset :=
  | ResetDailyUsage (expected : option time) (new : time)
  | ResetWeeklyUsage (expected : option time) (new : time)
  | ResetMonthlyUsage (expected : option time) (new : time).

Definition CheckAndResetWindows (s : UserSubscription) (now : time)
    : UserSubscription * list window_reset :=
  let '(s1, r1) := match automaticDailyWindowStartAt s now with
                   | Some w => (set_daily w s, [ResetDailyUsage (us_DailyWindowStart s) w])
                   | None => (s, []) end in
  let '(s2, r2) := match automaticWindowStartAt s1 (us_WeeklyWindowStart s1) week now with
                   | Some w => (set_weekly w s1, [ResetWeeklyUsage (us_WeeklyWindowStart s1) w])
                   | None => (s1, []) end in
  let '(s3, r3) := match automaticWindowStartAt s2 (us_MonthlyWindowStart s2) month now with
                   | Some w => (set_monthly w s2, [ResetMonthlyUsage (us_MonthlyWindowStart s2) w])
                   | None => (s2, []) end in
  (s3, r1 ++ r2 ++ r3).

(** The conditional update of [user_subscription_repo.go] on the row: it acts
    only when the row still has the window the caller saw. *)
Definition apply_reset (r : window_reset) (row : UserSubscription) : UserSubscription :=
  match r with
  | ResetDailyUsage e w => if bool_decide (us_DailyWindowStart row = e) then set_daily w row else row
  | ResetWeeklyUsage e w => if bool_decide (us_WeeklyWindowStart row = e) then set_weekly w row else row
  | ResetMonthlyUsage e w => if bool_decide (us_MonthlyWindowStart row = e) then set_monthly w row else row
  end.

(** [ActivateWindows]: only when no window is set yet. *)
Definition ActivateWindows (now : time) (row : UserSubscription) : UserSubscription :=
  if IsWindowActivated row then row
  else
    {| us_ID := us_ID row; us_UserID := us_UserID row; us_GroupID := us_GroupID row;
       us_StartsAt := us_StartsAt row; us_ExpiresAt := us_ExpiresAt row; us_Status := us_Status row;
       us_DailyWindowStart := Some (StartOfDay now); us_WeeklyWindowStart := Some now;
       us_MonthlyWindowStart := Some now; us_DailyUsageUSD := us_DailyUsageUSD row;
       us_WeeklyUsageUSD := us_WeeklyUsageUSD row; us_MonthlyUsageUSD := us_MonthlyUsageUSD row;
       us_AssignedBy := us_AssignedBy row; us_AssignedAt := us_AssignedAt row; us_Notes := us_Notes row |}.

(** ** Limits *)

Definition has_limit (l : option float64) : bool :=
  match l with Some x => Float.lt Float.zero x | None => false end.

Definition check_limit (l : option float64) (used additionalCost : float64) : bool :=
  match l with
  | Some x => if Float.lt Float.zero x then Float.le (Float.add used additionalCost) x else true
  | None => true
  end.

Definition CheckDailyLimit (s : UserSubscription) (g : Group) (c : float64) : bool :=
  check_limit (g_DailyLimitUSD g) (us_DailyUsageUSD s) c.
Definition CheckWeeklyLimit (s : UserSubscription) (g : Group) (c : float64) : bool :=
  check_limit (g_WeeklyLimitUSD g) (us_WeeklyUsageUSD s) c.
Definition CheckMonthlyLimit (s : UserSubscription) (g : Group) (c : float64) : bool :=
  check_limit (g_MonthlyLimitUSD g) (us_MonthlyUsageUSD s) c.

Inductive LimitError :=
  | ErrSubscriptionExpired | ErrSubscriptionSuspended
  | ErrDailyLimitExceeded | ErrWeeklyLimitExceeded | ErrMonthlyLimitExceeded.

(** The copy in memory after its expired windows' usage is discounted. *)
Definition discount_usage (d w m : bool) (s : UserSubscription) : UserSubscription :=
  {| us_ID := us_ID s; us_UserID := us_UserID s; us_GroupID := us_GroupID s;
     us_StartsAt := us_StartsAt s; us_ExpiresAt := us_ExpiresAt s; us_Status := us_Status s;
     us_DailyWindowStart := us_DailyWindowStart s; us_WeeklyWindowStart := us_WeeklyWindowStart s;
     us_MonthlyWindowStart := us_MonthlyWindowStart s;
     us_DailyUsageUSD := if d then Float.zero else us_DailyUsageUSD s;
     us_WeeklyUsageUSD := if w then Float.zero else us_WeeklyUsageUSD s;
     us_MonthlyUsageUSD := if m then Float.zero else us_MonthlyUsageUSD s;
     us_AssignedBy := us_AssignedBy s; us_AssignedAt := us_AssignedAt s; us_Notes := us_Notes s |}.

(** [CheckUsageLimits] *)
Definition CheckUsageLimits (s : UserSubscription) (g : Group) (c : float64) : option LimitError :=
  if negb (CheckDailyLimit s g c) then Some ErrDailyLimitExceeded
  else if negb (CheckWeeklyLimit s g c) then Some ErrWeeklyLimitExceeded
  else if negb (CheckMonthlyLimit s g c) then Some ErrMonthlyLimitExceeded
  else None.

(** [ValidateAndCheckLimits]: the caller's copy afterwards, whether maintenance
    is due, and the error. *)
Definition ValidateAndCheckLimits (s : UserSubscription) (g : Group) (now : time)
    : UserSubscription * bool * option LimitError :=
  if bool_decide (us_Status s = SubscriptionStatusExpired) then (s, false, Some ErrSubscriptionExpired)
  else if bool_decide (us_Status s = SubscriptionStatusSuspended) then (s, false, Some ErrSubscriptionSuspended)
  else if negb (after (us_ExpiresAt s) now) then (s, false, Some ErrSubscriptionExpired)
  else
    let d := bool_decide (automaticDailyWindowStartAt s now ≠ None) in
    let w := bool_decide (automaticWindowStartAt s (us_WeeklyWindowStart s) week now ≠ None) in
    let m := bool_decide (automaticWindowStartAt s (us_MonthlyWindowStart s) month now ≠ None) in
    let s' := discount_usage d w m s in
    (s', d || w || m || negb (IsWindowActivated s), CheckUsageLimits s' g Float.zero).

(** ** Stepping windows *)

#[local] Arguments automaticWindowStartAt : simpl never.
#[local] Arguments automaticDailyWindowStartAt : simpl never.

(** Instants close enough for their differences to be durations. *)
Definition near (t u : time) : Prop := int64_range (t - u).

Lemma time_sub_near t u : near t u → time_sub t u = t - u.
Proof. apply time_sub_exact. Qed.

Lemma windowResetAnchor_cases s p :
  windowResetAnchor s p = p ∨ (windowResetAnchor s p = us_StartsAt s ∧ p = startOfDay (us_StartsAt s) ∧ p < us_StartsAt s).
Proof.
  unfold windowResetAnchor. destruct (before _ _ && _) eqn:Hb; [|by left].
  bool_hyp. apply before_spec in H0. right. split_and!; [done|lia|lia].
Qed.

Lemma windowResetAnchor_ge s p : p ≤ windowResetAnchor s p.
Proof. destruct (windowResetAnchor_cases s p) as [->|(-> & _ & ?)]; lia. Qed.

Definition anchored (s : UserSubscription) (p now : time) : Prop :=
  near now (windowResetAnchor s p) ∧ near (us_ExpiresAt s) (windowResetAnchor s p).

Lemma automaticWindow_None s p period now :
  automaticWindowStartAt s (Some p) period now = None ↔
  now < windowResetAnchor s p + period ∨ us_ExpiresAt s ≤ windowResetAnchor s p + period.
Proof.
  unfold automaticWindowStartAt. destruct (before now _ || _) eqn:Hb.
  - split; [|done]. intros _. apply orb_true_iff in Hb as [Hb|Hb]; [left; by apply before_spec|right].
    bool_hyp. by apply before_false.
  - bool_hyp. apply before_false in H0. apply before_spec in H1. split; [done|lia].
Qed.

(** A weekly or monthly window moves by a positive number of whole periods
    from its anchor, not into the future, never to or past the expiry, and to
    the window that contains the present or is the last of the term. *)
Theorem automaticWindow_step s p period now w :
  0 < period → anchored s p now →
  automaticWindowStartAt s (Some p) period now = Some w →
  ∃ k, 1 ≤ k ∧ w = windowResetAnchor s p + k * period ∧
    w ≤ now ∧ w < us_ExpiresAt s ∧ (now < w + period ∨ us_ExpiresAt s ≤ w + period).
Proof.
  intros Hp [Hn He] Hw. set (a := windowResetAnchor s p) in *.
  assert (Hdue : a + period ≤ now ∧ a + period < us_ExpiresAt s).
  { destruct (decide (automaticWindowStartAt s (Some p) period now = None)) as [Hc|Hc]; [congruence|].
    rewrite automaticWindow_None in Hc. fold a in Hc. lia. }
  unfold automaticWindowStartAt in Hw. fold a in Hw.
  destruct (before now _ || _); [done|]. injection Hw as <-.
  rewrite !time_sub_near by done. rewrite !Z.quot_div_nonneg by lia.
  set (n := (now - a) / period). set (l := (us_ExpiresAt s - a - 1) / period).
  pose proof (Z.div_mod (now - a) period ltac:(lia)) as Hn'.
  pose proof (Z.mod_pos_bound (now - a) period ltac:(lia)).
  pose proof (Z.div_mod (us_ExpiresAt s - a - 1) period ltac:(lia)) as Hl'.
  pose proof (Z.mod_pos_bound (us_ExpiresAt s - a - 1) period ltac:(lia)).
  fold n in Hn'. fold l in Hl'.
  assert (1 ≤ n) by (apply Z.div_le_lower_bound; lia). assert (1 ≤ l) by (apply Z.div_le_lower_bound; lia).
  destruct (l <? n) eqn:Hc; bool_hyp; [exists l|exists n]; split_and!; try done; nia.
Qed.

Lemma automaticWindow_settled s p period now w :
  0 < period → anchored s p now → automaticWindowStartAt s (Some p) period now = Some w →
  automaticWindowStartAt s (Some w) period now = None.
Proof.
  intros Hp Ha Hw. destruct (automaticWindow_step s p period now w Hp Ha Hw) as (k & _ & _ & _ & _ & Hend).
  apply automaticWindow_None. pose proof (windowResetAnchor_ge s w). lia.
Qed.

Lemma start_of_day_idem off t : start_of_day off (start_of_day off t) = start_of_day off t.
Proof.
  unfold start_of_day. assert (0 < day) by done.
  replace ((t + off) / day * day - off + off) with ((t + off) / day * day) by lia.
  by rewrite Z.div_mul by lia.
Qed.

Lemma automaticDaily_settled s now w :
  automaticDailyWindowStartAt s now = Some w → automaticDailyWindowStartAt (set_daily w s) now = None.
Proof.
  unfold automaticDailyWindowStartAt. simpl. destruct (us_DailyWindowStart s) as [d|]; [|done].
  change (HasOneTimeDailyQuota (set_daily w s)) with (HasOneTimeDailyQuota s).
  destruct (HasOneTimeDailyQuota s); [done|]. case_match; [done|]. intros [= <-].
  unfold StartOfDay. rewrite start_of_day_idem. by rewrite (proj2 (after_false _ _)) by lia.
Qed.

(** Instants from 1970 to 2262. *)
Definition representable (t : time) : Prop := 0 ≤ t ≤ int64_max.

Record dates_ok (s : UserSubscription) : Prop := {
  starts_ok : representable (us_StartsAt s);
  expires_ok : representable (us_ExpiresAt s);
  weekly_ok : ∀ p, us_WeeklyWindowStart s = Some p → representable p;
  monthly_ok : ∀ p, us_MonthlyWindowStart s = Some p → representable p
}.

Lemma dates_anchored s p now :
  dates_ok s → representable now → representable p → anchored s p now.
Proof.
  intros [Hs He _ _] Hn Hp. unfold anchored, near, int64_range, representable, int64_min, int64_max in *.
  destruct (windowResetAnchor_cases s p) as [->|(-> & _ & _)]; lia.
Qed.

Lemma stepped_representable s p period now w :
  0 < period → dates_ok s → representable now → representable p →
  automaticWindowStartAt s (Some p) period now = Some w → representable w.
Proof.
  intros Hper Hs Hn Hp Hw.
  destruct (automaticWindow_step s p period now w Hper (dates_anchored s p now Hs Hn Hp) Hw)
    as (k & Hk & -> & Hle & _). pose proof (windowResetAnchor_ge s p).
  unfold representable in *. nia.
Qed.

(** The three resets are independent of each other. *)
Lemma CheckAndResetWindows_eq s now :
  fst (CheckAndResetWindows s now) =
    let d := automaticDailyWindowStartAt s now in
    let w := x ← us_WeeklyWindowStart s; automaticWindowStartAt s (Some x) week now in
    let m := x ← us_MonthlyWindowStart s; automaticWindowStartAt s (Some x) month now in
    let s := match d with Some t => set_daily t s | None => s end in
    let s := match w with Some t => set_weekly t s | None => s end in
    match m with Some t => set_monthly t s | None => s end.
Proof.
  assert (Hext : ∀ s1 s2 q per, us_StartsAt s1 = us_StartsAt s2 → us_ExpiresAt s1 = us_ExpiresAt s2 →
    automaticWindowStartAt s1 q per now = q ≫= λ x, automaticWindowStartAt s2 (Some x) per now).
  { intros s1 s2 [q|] per H1 H2; [|done]. simpl. unfold automaticWindowStartAt, windowResetAnchor. by rewrite H1, H2. }
  unfold CheckAndResetWindows. set (d := automaticDailyWindowStartAt s now).
  assert (∃ s1 r1, match d with Some w => (set_daily w s, [ResetDailyUsage (us_DailyWindowStart s) w]) | None => (s, []) end
    = (s1, r1) ∧ s1 = match d with Some t => set_daily t s | None => s end) as (s1 & r1 & -> & Hs1) by (destruct d; eauto).
  rewrite (Hext s1 s) by (subst; by destruct d).
  replace (us_WeeklyWindowStart s1) with (us_WeeklyWindowStart s) by (subst; by destruct d).
  set (w := us_WeeklyWindowStart s ≫= _).
  assert (∃ s2 r2, match w with Some w => (set_weekly w s1, [ResetWeeklyUsage (us_WeeklyWindowStart s) w]) | None => (s1, []) end
    = (s2, r2) ∧ s2 = match w with Some t => set_weekly t s1 | None => s1 end) as (s2 & r2 & -> & Hs2) by (destruct w; eauto).
  rewrite (Hext s2 s) by (subst; by destruct d, w).
  replace (us_MonthlyWindowStart s2) with (us_MonthlyWindowStart s) by (subst; by destruct d, w).
  simpl. fold d w. rewrite <- Hs1, <- Hs2. by destruct (us_MonthlyWindowStart s ≫= _).
Qed.

(** The windows after maintenance. *)
Definition next_window (s : UserSubscription) (q : option time) (period : duration) (now : time) : option time :=
  match q with
  | Some p => Some (default p (automaticWindowStartAt s (Some p) period now))
  | None => None
  end.

Lemma maintained_fields s now :
  let s' := fst (CheckAndResetWindows s now) in
  us_StartsAt s' = us_StartsAt s ∧ us_ExpiresAt s' = us_ExpiresAt s ∧ us_Status s' = us_Status s ∧
  us_WeeklyWindowStart s' = next_window s (us_WeeklyWindowStart s) week now ∧
  us_MonthlyWindowStart s' = next_window s (us_MonthlyWindowStart s) month now.
Proof.
  simpl. rewrite CheckAndResetWindows_eq. simpl. unfold next_window.
  destruct (automaticDailyWindowStartAt s now), (us_WeeklyWindowStart s) as [p|] eqn:Hw,
    (us_MonthlyWindowStart s) as [q|] eqn:Hm; simpl;
    repeat match goal with |- context [automaticWindowStartAt s ?x ?y now] =>
      destruct (automaticWindowStartAt s x y now) end; simpl; rewrite ?Hw, ?Hm; done.
Qed.

Lemma automaticWindow_ext s1 s2 q per now :
  us_StartsAt s1 = us_StartsAt s2 → us_ExpiresAt s1 = us_ExpiresAt s2 →
  automaticWindowStartAt s1 q per now = automaticWindowStartAt s2 q per now.
Proof. intros H1 H2. unfold automaticWindowStartAt, windowResetAnchor. by rewrite H1, H2. Qed.

Lemma next_window_settled s q period now :
  0 < period → dates_ok s → representable now → (∀ p, q = Some p → representable p) →
  automaticWindowStartAt s (next_window s q period now) period now = None.
Proof.
  intros Hper Hs Hn Hq. destruct q as [p|]; [|done]. simpl.
  destruct (automaticWindowStartAt s (Some p) period now) as [w|] eqn:Hw; simpl; [|done].
  eapply automaticWindow_settled; [done| |done]. apply dates_anchored; auto.
Qed.

(** Maintenance done twice at the same moment is maintenance done once, and
    the second pass writes nothing. *)
Theorem maintenance_idempotent s now :
  dates_ok s → representable now →
  let s' := fst (CheckAndResetWindows s now) in CheckAndResetWindows s' now = (s', []).
Proof.
  intros Hs Hn. destruct (maintained_fields s now) as (E1 & E2 & _ & E4 & E5). simpl.
  set (s' := fst (CheckAndResetWindows s now)) in *.
  assert (Hd : automaticDailyWindowStartAt s' now = None).
  { unfold s'. rewrite CheckAndResetWindows_eq. simpl.
    destruct (automaticDailyWindowStartAt s now) as [d|] eqn:Hd; [apply automaticDaily_settled in Hd|];
      destruct (us_WeeklyWindowStart s ≫= _), (us_MonthlyWindowStart s ≫= _); exact Hd. }
  unfold CheckAndResetWindows. rewrite Hd.
  rewrite (automaticWindow_ext s' s), E4 by done. rewrite next_window_settled by (done || apply Hs).
  rewrite (automaticWindow_ext s' s), E5 by done. rewrite next_window_settled by (done || apply Hs). done.
Qed.

(** The weekly windows that maintenance at the moments [nows] opens. *)
Fixpoint weekly_resets (s : UserSubscription) (nows : list time) : Z :=
  match nows with
  | [] => 0
  | now :: nows =>
      (if bool_decide (automaticWindowStartAt s (us_WeeklyWindowStart s) week now = None) then 0 else 1)
      + weekly_resets (fst (CheckAndResetWindows s now)) nows
  end.

Lemma maintained_dates s now :
  dates_ok s → representable now → dates_ok (fst (CheckAndResetWindows s now)).
Proof.
  intros Hs Hn. destruct (maintained_fields s now) as (E1 & E2 & _ & E4 & E5).
  destruct Hs as [H1 H2 H3 H4]. assert (dates_ok s) by done.
  split; rewrite ?E1, ?E2, ?E4, ?E5; [done|done| |]; unfold next_window; intros p.
  - destruct (us_WeeklyWindowStart s) as [x|]; [|done]. intros [= <-].
    destruct (automaticWindowStartAt s (Some x) week now) eqn:Hw; simpl; [|by apply H3].
    by eapply (stepped_representable s x week); [| | |apply H3|].
  - destruct (us_MonthlyWindowStart s) as [x|]; [|done]. intros [= <-].
    destruct (automaticWindowStartAt s (Some x) month now) eqn:Hw; simpl; [|by apply H4].
    by eapply (stepped_representable s x month); [| | |apply H4|].
Qed.

(** C28: The weekly quota a term gives: however often maintenance runs, the windows
    it opens, counted in weeks, end before the term does. *)
Theorem weekly_quota_bound nows : ∀ s p,
  dates_ok s → Forall representable nows → us_WeeklyWindowStart s = Some p →
  0 < weekly_resets s nows →
  windowResetAnchor s p + weekly_resets s nows * week < us_ExpiresAt s.
Proof.
  induction nows as [|now nows IH]; intros s p Hs Hnows Hp; simpl; [lia|].
  apply Forall_cons in Hnows as [Hn Hnows].
  destruct (maintained_fields s now) as (E1 & E2 & _ & E4 & _).
  pose proof (maintained_dates s now Hs Hn) as Hs'. set (s' := fst (CheckAndResetWindows s now)) in *.
  specialize (IH s'). rewrite Hp in E4. simpl in E4.
  assert (Hanch : ∀ q, windowResetAnchor s' q = windowResetAnchor s q)
    by (intros q; unfold windowResetAnchor; by rewrite E1).
  rewrite Hp. pose proof (proj1 (dates_anchored s p now Hs Hn (weekly_ok _ Hs _ Hp))) as _.
  destruct (automaticWindowStartAt s (Some p) week now) as [w|] eqn:Hw.
  - rewrite bool_decide_false by done. simpl in E4. specialize (IH w Hs' Hnows E4).
    rewrite Hanch, E2 in IH.
    destruct (automaticWindow_step s p week now w ltac:(done)
                (dates_anchored s p now Hs Hn (weekly_ok _ Hs _ Hp)) Hw) as (k & Hk & -> & _ & Hexp & _).
    pose proof (windowResetAnchor_ge s (windowResetAnchor s p + k * week)).
    assert (0 < week) by done. intros _. destruct (decide (0 < weekly_resets s' nows)) as [Hpos|Hz].
    + specialize (IH Hpos). nia.
    + assert (weekly_resets s' nows ≤ 0) by lia. nia.
  - rewrite bool_decide_true by done. simpl in E4. specialize (IH p Hs' Hnows E4).
    rewrite Hanch, E2 in IH. rewrite Z.add_0_l. done.
Qed.

(** Which window a reset is about, what it expects there and what it sets. *)
Definition reset_window (r : window_reset) (s : UserSubscription) : option time :=
  match r with
  | ResetDailyUsage _ _ => us_DailyWindowStart s
  | ResetWeeklyUsage _ _ => us_WeeklyWindowStart s
  | ResetMonthlyUsage _ _ => us_MonthlyWindowStart s
  end.
Definition reset_expected (r : window_reset) : option time :=
  match r with ResetDailyUsage e _ | ResetWeeklyUsage e _ | ResetMonthlyUsage e _ => e end.
Definition reset_new (r : window_reset) : time :=
  match r with ResetDailyUsage _ w | ResetWeeklyUsage _ w | ResetMonthlyUsage _ w => w end.

Lemma apply_reset_stale r row : reset_window r row ≠ reset_expected r → apply_reset r row = row.
Proof. destruct r; simpl; intros Hne; by rewrite bool_decide_false. Qed.

Lemma apply_reset_window r row :
  reset_window r row = reset_expected r → reset_window r (apply_reset r row) = Some (reset_new r).
Proof. destruct r; simpl; intros Heq; by rewrite bool_decide_true. Qed.

(** A reset the maintenance issues moves the window it expects. *)
Lemma issued_reset_moves s now r :
  dates_ok s → representable now → r ∈ snd (CheckAndResetWindows s now) →
  reset_expected r ≠ Some (reset_new r) ∧ reset_expected r = reset_window r s.
Proof.
  intros Hs Hn. unfold CheckAndResetWindows.
  assert (Hstep : ∀ s' p per w, us_StartsAt s' = us_StartsAt s → us_ExpiresAt s' = us_ExpiresAt s →
    representable p → 0 < per → automaticWindowStartAt s' (Some p) per now = Some w → p < w).
  { intros s' p per w E1 E2 Hp Hper Hw. rewrite (automaticWindow_ext s' s) in Hw by done.
    destruct (automaticWindow_step s p per now w Hper (dates_anchored s p now Hs Hn Hp) Hw)
      as (k & Hk & -> & _). pose proof (windowResetAnchor_ge s p). nia. }
  assert (Hd : ∀ w, automaticDailyWindowStartAt s now = Some w → us_DailyWindowStart s ≠ Some w).
  { intros w Hw Heq. unfold automaticDailyWindowStartAt in Hw. rewrite Heq in Hw.
    destruct (HasOneTimeDailyQuota s); [done|]. case_match eqn:Hc; [done|]. injection Hw as Hw. bool_hyp.
    apply after_spec in Hc. subst w. unfold StartOfDay in Hc. rewrite start_of_day_idem in Hc. lia. }
  intros Hr. destruct (automaticDailyWindowStartAt s now) as [d|] eqn:Ed.
  all: repeat match goal with
    | H : context [match automaticWindowStartAt ?s' ?q ?per ?n with _ => _ end] |- _ =>
        let E := fresh "E" in destruct (automaticWindowStartAt s' q per n) eqn:E
    end; simpl in *; repeat (apply elem_of_cons in Hr as [->|Hr]; [simpl|]); try (by apply not_elem_of_nil in Hr).
  all: try (split; [by apply Hd|done]).
  all: split; [|done]; intros Heq;
    match goal with E : automaticWindowStartAt _ ?q _ _ = Some _, Heq : ?q = _ |- _ =>
      rewrite Heq in E; apply Hstep in E;
        [lia|done|done|first [by apply (weekly_ok _ Hs)|by apply (monthly_ok _ Hs)]|done] end.
Qed.

(** Two workers that saw the same windows: the second one's reset of a window
    leaves the row as it is, whatever was charged in between.  Usage recorded
    in the new window is never erased by a stale reset. *)
Theorem stale_reset_keeps_usage s now now' r r' (charge : UserSubscription → UserSubscription) row :
  dates_ok s → representable now → representable now' →
  r ∈ snd (CheckAndResetWindows s now) → r' ∈ snd (CheckAndResetWindows s now') →
  (∀ x, reset_window r' x = reset_window r x) →
  (∀ x, reset_window r (charge x) = reset_window r x) →
  reset_window r row = reset_expected r →
  apply_reset r' (charge (apply_reset r row)) = charge (apply_reset r row).
Proof.
  intros Hs Hn Hn' Hr Hr' Hsame Hcharge Hrow.
  destruct (issued_reset_moves s now r Hs Hn Hr) as [Hmoves He].
  destruct (issued_reset_moves s now' r' Hs Hn' Hr') as [_ He'].
  apply apply_reset_stale. rewrite Hsame, Hcharge, apply_reset_window by done.
  rewrite He', Hsame, <- He. congruence.
Qed.

(** Buying days adds them to what is left of the term, or starts a fresh term
    now when nothing is left; the calendar ends in 2099. *)
Theorem extend_term_spec s days notes now :
  let s' := updateExistingSubscriptionTerm s days notes false now in
  us_ExpiresAt s' = Z.min MaxExpiresAt (AddDays (Z.max now (us_ExpiresAt s)) days) ∧
  us_Status s' = SubscriptionStatusActive ∧
  us_Notes s' = appendSubscriptionNotes (us_Notes s) notes ∧
  (now < us_ExpiresAt s → us_StartsAt s' = us_StartsAt s ∧ us_DailyUsageUSD s' = us_DailyUsageUSD s ∧
     us_WeeklyUsageUSD s' = us_WeeklyUsageUSD s ∧ us_MonthlyUsageUSD s' = us_MonthlyUsageUSD s) ∧
  (us_ExpiresAt s ≤ now → us_StartsAt s' = now ∧ us_DailyUsageUSD s' = Float.zero ∧
     us_WeeklyUsageUSD s' = Float.zero ∧ us_MonthlyUsageUSD s' = Float.zero).
Proof.
  simpl. unfold updateExistingSubscriptionTerm. simpl.
  assert (Hcap : ∀ e, (if after e MaxExpiresAt then MaxExpiresAt else e) = Z.min MaxExpiresAt e).
  { intros e. destruct (after e MaxExpiresAt) eqn:He; [apply after_spec in He|apply after_false in He]; lia. }
  rewrite !Hcap. destruct (after (us_ExpiresAt s) now) eqn:Hexp; simpl.
  - apply after_spec in Hexp. rewrite Z.max_r by lia. split_and!; try done; [by case_bool_decide| |lia].
    case_bool_decide as Hn; [|done]. subst. unfold appendSubscriptionNotes. by rewrite bool_decide_true.
  - apply after_false in Hexp. rewrite Z.max_l by lia. split_and!; try done; lia.
Qed.

(** Shortening never ends a running term: it is refused instead. *)
Theorem adjust_term_spec s days now :
  match ExtendSubscription s days now with
  | Ok s' => now < us_ExpiresAt s' ≤ MaxExpiresAt ∧
             us_ExpiresAt s' = Z.min MaxExpiresAt (AddDays (Z.max now (us_ExpiresAt s))
                                 (Z.max (- MaxValidityDays) (Z.min MaxValidityDays days)))
  | Err CannotShortenExpired => us_ExpiresAt s ≤ now ∧ days < 0
  | Err AdjustWouldExpire =>
      Z.min MaxExpiresAt (AddDays (Z.max now (us_ExpiresAt s))
        (Z.max (- MaxValidityDays) (Z.min MaxValidityDays days))) ≤ now
  end.
Proof.
  unfold ExtendSubscription.
  set (d1 := if MaxValidityDays <? days then MaxValidityDays else days).
  set (d2 := if d1 <? - MaxValidityDays then - MaxValidityDays else d1).
  assert (Hd : d2 = Z.max (- MaxValidityDays) (Z.min MaxValidityDays days)).
  { unfold d2, d1, MaxValidityDays. repeat case_match; bool_hyp; lia. }
  assert (Hneg : d2 < 0 → days < 0) by (rewrite Hd; unfold MaxValidityDays; lia).
  rewrite <- Hd. clearbody d2. clear Hd d1.
  assert (Hcap : ∀ e, (if after e MaxExpiresAt then MaxExpiresAt else e) = Z.min MaxExpiresAt e).
  { intros e. destruct (after e MaxExpiresAt) eqn:He; [apply after_spec in He|apply after_false in He]; lia. }
  rewrite !Hcap. destruct (after (us_ExpiresAt s) now) eqn:Hexp; simpl;
    [apply after_spec in Hexp; rewrite Z.max_r by lia|apply after_false in Hexp; rewrite Z.max_l by lia].
  - set (e := Z.min MaxExpiresAt _). destruct (after e now) eqn:He; simpl.
    + apply after_spec in He. split; [split; [done|unfold e; lia]|done].
    + by apply after_false in He.
  - destruct (d2 <? 0) eqn:Hd; bool_hyp; [split; [done|by apply Hneg]|].
    set (e := Z.min MaxExpiresAt _). destruct (after e now) eqn:He; simpl.
    + apply after_spec in He. split; [split; [done|unfold e; lia]|done].
    + by apply after_false in He.
Qed.

(** A line appended to the notes is found again. *)
Lemma append_notes_line notes line :
  line ≠ [] → CR ∉ line → LF ∉ line →
  line ∈ Split LF (crlf_to_lf (appendSubscriptionNotes notes line)).
Proof.
  intros Hne Hcr Hlf. unfold appendSubscriptionNotes. rewrite bool_decide_false by done.
  case_bool_decide.
  - rewrite crlf_to_lf_id, Split_single by done. by apply list_elem_of_here.
  - destruct (crlf_to_lf_last notes line Hcr) as [x ->].
    destruct (Split_last LF x line Hlf) as (l & ls & ->).
    apply list_elem_of_further, elem_of_app. right. by apply list_elem_of_here.
Qed.

End zones.

(** ** Concrete runs *)

#[local] Instance utc : TimeZones := {| configured_offset := 8 * hour; value_offset := 0 |}.

(** A term of 28 days that began on 1 January 2025 at 12:00 UTC. *)
Definition noon : time := 1735732800 * second.
Definition sub28 : UserSubscription :=
  mkSub 1 7 3 noon (AddDays noon 28) SubscriptionStatusActive (Some (StartOfDay noon)) (Some noon) (Some noon)
    (Float.of_Z 5) (Float.of_Z 9) (Float.of_Z 9) None noon [].

Lemma sub28_ok : dates_ok sub28.
Proof. split; [by vm_compute|by vm_compute|intros ? [= <-]; by vm_compute..]. Qed.

Definition visits : list time := [AddDays noon 8; AddDays noon 20; AddDays noon 27; AddDays noon 60].

Example weekly_quota_bound_witness :
  weekly_resets sub28 visits = 3 ∧
  windowResetAnchor sub28 noon + weekly_resets sub28 visits * week < us_ExpiresAt sub28.
Proof.
  split; [by vm_compute|].
  apply (weekly_quota_bound visits sub28 noon sub28_ok); [repeat constructor; by vm_compute|done|by vm_compute].
Defined.

Example maintenance_idempotent_witness :
  let s' := fst (CheckAndResetWindows sub28 (AddDays noon 8)) in
  us_WeeklyUsageUSD s' = Float.zero ∧ us_MonthlyUsageUSD s' = Float.of_Z 9 ∧
  CheckAndResetWindows s' (AddDays noon 8) = (s', []).
Proof.
  split; [by vm_compute|]. split; [by vm_compute|].
  apply (maintenance_idempotent sub28 (AddDays noon 8)); [apply sub28_ok|split; by vm_compute].
Defined.

Example automaticWindow_step_witness :
  ∃ k, 1 ≤ k ∧ AddDays noon 7 = windowResetAnchor sub28 noon + k * week ∧
    AddDays noon 7 ≤ AddDays noon 8 ∧ AddDays noon 7 < us_ExpiresAt sub28 ∧
    (AddDays noon 8 < AddDays noon 7 + week ∨ us_ExpiresAt sub28 ≤ AddDays noon 7 + week).
Proof.
  apply (automaticWindow_step sub28 noon week (AddDays noon 8) (AddDays noon 7)); [done| |by vm_compute].
  apply dates_anchored; [apply sub28_ok|split; by vm_compute..].
Defined.

Example stale_reset_keeps_usage_witness :
  let r := ResetWeeklyUsage (Some noon) (AddDays noon 7) in
  let charge s := discount_usage false false true s in
  apply_reset r (charge (apply_reset r sub28)) = charge (apply_reset r sub28).
Proof.
  apply (stale_reset_keeps_usage sub28 (AddDays noon 8) (AddDays noon 8)).
  - apply sub28_ok.
  - split; by vm_compute.
  - split; by vm_compute.
  - vm_compute. apply list_elem_of_further, list_elem_of_here.
  - vm_compute. apply list_elem_of_further, list_elem_of_here.
  - done.
  - done.
  - done.
Defined.

End Subscription.
