(* ===== verification/SubscriptionGate.v ===== *)
(** * The check of a request over a subscription

    The path of [server/middleware/api_key_auth.go] that decides by a subscription: the
    check on the copy the cache holds, [EnsureWindowMaintenance] on the row, and the
    check on the row read back.  Between any two calls other requests, workers and
    administrators may change the row. *)

From S2P Require Import Prelude Float64 GoStrings Subscription.

Module SubscriptionGate.
Import GoStrings Subscription.

Inductive gate_result :=
  | Passed
  | Refused (e : LimitError)
  | MaintenanceFailed.

(** What happens at a call to the database: others change the row, then the call
    fails or goes through. *)
Record turn := mkTurn { tn_others : UserSubscription → UserSubscription; tn_fails : bool }.

(** The answer of the check, and the status of the response. *)
Definition respond (e : option LimitError) : gate_result := match e with Some e => Refused e | None => Passed end.
Definition status (r : gate_result) : Z :=
  match r with
  | Passed => 200
  | Refused (ErrDailyLimitExceeded | ErrWeeklyLimitExceeded | ErrMonthlyLimitExceeded) => 429
  | Refused _ => 403
  | MaintenanceFailed => 500
  end.

Section gate.
Context `{TimeZones}.

(** [checkAndActivateWindowAt] *)
Definition CheckAndActivateWindow (copy : UserSubscription) (now : time) : list (UserSubscription → UserSubscription) :=
  if IsWindowActivated copy then [] else [ActivateWindows now].

(** The conditional updates of [EnsureWindowMaintenance]: the activation reads the clock
    at [now], the resets at [now']. *)
Definition maintenance_writes (copy : UserSubscription) (now now' : time) : list (UserSubscription → UserSubscription) :=
  CheckAndActivateWindow copy now ++ (apply_reset <$> snd (CheckAndResetWindows copy now')).

(** The writes one after the other; the first that fails ends the maintenance. *)
Fixpoint write_all (ws : list (UserSubscription → UserSubscription)) (ts : list turn) (row : UserSubscription)
    : option (list turn) * UserSubscription :=
  match ws with
  | [] => (Some ts, row)
  | w :: ws =>
      let t := default (mkTurn id false) (head ts) in
      let row := tn_others t row in
      if tn_fails t then (None, row) else write_all ws (tail ts) (w row)
  end.

(** The snapshot read back at the end. *)
Definition EnsureWindowMaintenance (copy : UserSubscription) (now now' : time) (ts : list turn) (row : UserSubscription)
    : option UserSubscription * UserSubscription :=
  match write_all (maintenance_writes copy now now') ts row with
  | (None, row) => (None, row)
  | (Some ts, row) =>
      let t := default (mkTurn id false) (head ts) in
      let row := tn_others t row in
      if tn_fails t then (None, row) else (Some row, row)
  end.

(** The clock at each of the calls. *)
Record clocks := mkClocks { at_check : time; at_activation : time; at_resets : time; at_recheck : time }.

Definition gate (copy : UserSubscription) (g : Group) (c : clocks) (ts : list turn) (row : UserSubscription)
    : gate_result * UserSubscription :=
  let '(copy, needsMaintenance, e) := ValidateAndCheckLimits copy g (at_check c) in
  if needsMaintenance : bool then
    match EnsureWindowMaintenance copy (at_activation c) (at_resets c) ts row with
    | (None, row) => (MaintenanceFailed, row)
    | (Some refreshed, row) => (respond (ValidateAndCheckLimits refreshed g (at_recheck c)).2, row)
    end
  else (respond e, row).

(** ** What the check promises *)

Definition live (s : UserSubscription) (now : time) : Prop :=
  us_Status s ≠ SubscriptionStatusExpired ∧ us_Status s ≠ SubscriptionStatusSuspended ∧ now < us_ExpiresAt s.

(** A window of a day is over when the calendar shows a later day; a term of one day
    has one quota. *)
Definition date_of (t : time) : Z := (t + configured_offset) / day.
Definition one_day_term (s : UserSubscription) : Prop :=
  us_StartsAt s ≠ zero_time ∧ us_ExpiresAt s ≠ zero_time ∧ us_ExpiresAt s ≤ us_StartsAt s + day.
Definition day_over (s : UserSubscription) (now : time) : Prop :=
  ∃ w, us_DailyWindowStart s = Some w ∧ ¬ one_day_term s ∧ date_of w < date_of now.

(** A longer window begins at its mark, or with the term when it is marked at the
    midnight before; it is over when a whole number of periods after its begin is past
    and still within the term. *)
Definition origin (s : UserSubscription) (w : time) : time :=
  if decide (w = startOfDay (us_StartsAt s) ∧ w < us_StartsAt s) then us_StartsAt s else w.
Definition period_over (s : UserSubscription) (q : option time) (period : duration) (now : time) : Prop :=
  ∃ w k, q = Some w ∧ 1 ≤ k ∧ origin s w + k * period ≤ now ∧ origin s w + k * period < us_ExpiresAt s.
Definition week_over s now := period_over s (us_WeeklyWindowStart s) week now.
Definition month_over s now := period_over s (us_MonthlyWindowStart s) month now.

(** A limit above zero bounds the usage. *)
Definition within (limit : option float64) (used : float64) : Prop :=
  ∀ x, limit = Some x → Float.lt Float.zero x = true → Float.le (Float.add used Float.zero) x = true.

(** Nothing to maintain. *)
Definition current (s : UserSubscription) (now : time) : Prop :=
  IsWindowActivated s = true ∧ ¬ day_over s now ∧ ¬ week_over s now ∧ ¬ month_over s now.

(** The same term. *)
Definition same_term (s s' : UserSubscription) : Prop :=
  us_StartsAt s = us_StartsAt s' ∧ us_ExpiresAt s = us_ExpiresAt s'.

(** A window that is not over keeps its mark and its usage. *)
Definition keeps_running (now : time) (s s' : UserSubscription) : Prop :=
  same_term s s' ∧ us_Status s = us_Status s' ∧
  (¬ day_over s now → us_DailyUsageUSD s' = us_DailyUsageUSD s ∧ (IsWindowActivated s = true → us_DailyWindowStart s' = us_DailyWindowStart s)) ∧
  (¬ week_over s now → us_WeeklyUsageUSD s' = us_WeeklyUsageUSD s ∧ (IsWindowActivated s = true → us_WeeklyWindowStart s' = us_WeeklyWindowStart s)) ∧
  (¬ month_over s now → us_MonthlyUsageUSD s' = us_MonthlyUsageUSD s ∧ (IsWindowActivated s = true → us_MonthlyWindowStart s' = us_MonthlyWindowStart s)).

(** The answer to a request, from the row it is about. *)
Definition verdict (s : UserSubscription) (g : Group) (now : time) (r : gate_result) : Prop :=
  let daily := day_over s now ∨ within (g_DailyLimitUSD g) (us_DailyUsageUSD s) in
  let weekly := week_over s now ∨ within (g_WeeklyLimitUSD g) (us_WeeklyUsageUSD s) in
  let monthly := month_over s now ∨ within (g_MonthlyLimitUSD g) (us_MonthlyUsageUSD s) in
  match r with
  | Passed => live s now ∧ daily ∧ weekly ∧ monthly
  | Refused ErrSubscriptionSuspended => us_Status s = SubscriptionStatusSuspended
  | Refused ErrSubscriptionExpired =>
      us_Status s = SubscriptionStatusExpired ∨ us_Status s ≠ SubscriptionStatusSuspended ∧ us_ExpiresAt s ≤ now
  | Refused ErrDailyLimitExceeded => live s now ∧ ¬ daily
  | Refused ErrWeeklyLimitExceeded => live s now ∧ daily ∧ ¬ weekly
  | Refused ErrMonthlyLimitExceeded => live s now ∧ daily ∧ weekly ∧ ¬ monthly
  | MaintenanceFailed => False
  end.

(** ** Windows *)

Lemma start_of_day_lt off t u : start_of_day off t < start_of_day off u ↔ (t + off) / day < (u + off) / day.
Proof. unfold start_of_day. assert (0 < day) by done. split; nia. Qed.

Lemma one_day_spec s : HasOneTimeDailyQuota s = true ↔ one_day_term s.
Proof.
  unfold HasOneTimeDailyQuota, one_day_term, AddDays. rewrite Z.mul_1_l.
  destruct (us_StartsAt s =? zero_time) eqn:H1, (us_ExpiresAt s =? zero_time) eqn:H2; bool_hyp; simpl;
    try (split; [done|]; intros (? & ? & _); congruence).
  rewrite negb_true_iff, after_false. intuition.
Qed.

Lemma day_spec s now : is_Some (automaticDailyWindowStartAt s now) ↔ day_over s now.
Proof.
  unfold automaticDailyWindowStartAt, day_over. destruct (us_DailyWindowStart s) as [w|]; [|by split; [intros []|intros (? & ? & _)]].
  destruct (HasOneTimeDailyQuota s) eqn:Ho.
  - apply one_day_spec in Ho. split; [by intros []|]. by intros (? & _ & [] & _).
  - assert (¬ one_day_term s) by by rewrite <- one_day_spec, Ho.
    destruct (negb _) eqn:Hb; bool_hyp.
    + apply after_false in Hb. split; [by intros []|]. intros (w' & [= <-] & _ & Hd%start_of_day_lt). unfold StartOfDay in Hb. lia.
    + apply after_spec, start_of_day_lt in Hb. split; [|by eauto]. intros _. by exists w.
Qed.

Lemma origin_anchor s w : windowResetAnchor s w = origin s w.
Proof.
  unfold windowResetAnchor, origin. case_decide as Hd.
  - destruct Hd as [-> Hlt]. rewrite (proj2 (before_spec _ _)) by done. by rewrite Z.eqb_refl.
  - destruct (before _ _ && _) eqn:Hb; [|done]. bool_hyp. apply before_spec in H0. destruct Hd. subst. done.
Qed.

Lemma period_spec s q period now : 0 < period → is_Some (automaticWindowStartAt s q period now) ↔ period_over s q period now.
Proof.
  intros Hp. unfold period_over. destruct q as [w|]; [|by split; [intros []|intros (? & ? & ? & _)]].
  rewrite <- not_eq_None_Some, automaticWindow_None, origin_anchor. split.
  - intros Hn. exists w, 1. split_and!; lia || done.
  - intros (w' & k & [= <-] & Hk & H1 & H2). nia.
Qed.

Lemma zero_within l : within l Float.zero.
Proof. intros x _. destruct x as [[]|[]| |[] m e]; done. Qed.

Lemma limit_spec l (over : bool) used :
  check_limit l (if over then Float.zero else used) Float.zero = true ↔ over = true ∨ within l used.
Proof.
  assert (∀ u, check_limit l u Float.zero = true ↔ within l u) as Hc.
  { intros u. unfold check_limit, within. destruct l as [x|]; [|by split]. destruct (Float.lt Float.zero x) eqn:Hx.
    - split; [by intros ? ? [= <-]|]. intros Hw. by apply Hw.
    - split; [intros _ ? [= <-]; congruence|done]. }
  rewrite Hc. destruct over; [|naive_solver]. split; [by left|]. intros _. apply zero_within.
Qed.

(** ** The writes *)

Definition daily_reset (s : UserSubscription) (now : time) : list window_reset :=
  match automaticDailyWindowStartAt s now with Some w => [ResetDailyUsage (us_DailyWindowStart s) w] | None => [] end.
Definition weekly_reset (s : UserSubscription) (now : time) : list window_reset :=
  match automaticWindowStartAt s (us_WeeklyWindowStart s) week now with Some w => [ResetWeeklyUsage (us_WeeklyWindowStart s) w] | None => [] end.
Definition monthly_reset (s : UserSubscription) (now : time) : list window_reset :=
  match automaticWindowStartAt s (us_MonthlyWindowStart s) month now with Some w => [ResetMonthlyUsage (us_MonthlyWindowStart s) w] | None => [] end.

Lemma resets_eq s now : snd (CheckAndResetWindows s now) = daily_reset s now ++ weekly_reset s now ++ monthly_reset s now.
Proof.
  unfold CheckAndResetWindows, daily_reset, weekly_reset, monthly_reset.
  destruct (automaticDailyWindowStartAt s now) as [d|]; simpl;
    [rewrite (automaticWindow_ext (set_daily d s) s) by done|];
    (destruct (automaticWindowStartAt s (us_WeeklyWindowStart s) week now) as [w|]; simpl;
      match goal with |- context [automaticWindowStartAt ?x ?q month now] => try rewrite (automaticWindow_ext x s) by done end;
      by destruct (automaticWindowStartAt s (us_MonthlyWindowStart s) month now)).
Qed.

(** They do not depend on the usage. *)
Lemma writes_discounted d w m s now now' : maintenance_writes (discount_usage d w m s) now now' = maintenance_writes s now now'.
Proof. unfold maintenance_writes. by rewrite !resets_eq. Qed.

(** ** The check *)

Lemma over_bool {A} (o : option A) (P : Prop) : (is_Some o ↔ P) → bool_decide (o ≠ None) = true ↔ P.
Proof. intros <-. rewrite bool_decide_eq_true. apply not_eq_None_Some. Qed.

Lemma validate_spec s g now :
  let v := ValidateAndCheckLimits s g now in
  verdict s g now (respond v.2) ∧ (v.1.2 = false ↔ ¬ live s now ∨ current s now) ∧
  ∀ t t', maintenance_writes v.1.1 t t' = maintenance_writes s t t'.
Proof.
  cbv zeta. unfold ValidateAndCheckLimits, verdict, live, current. case_bool_decide as H1; [simpl; split_and!; [by left|by split; [intros _; left; intros []|]|done]|].
  case_bool_decide as H2; [simpl; split_and!; [done|by split; [intros _; left; intros (_ & [] & _)|]|done]|]. destruct (after (us_ExpiresAt s) now) eqn:He; simpl;
    [apply after_spec in He|apply after_false in He; split; [by right|]; split; [|done]; split; [by intros _; left; lia|done]].
  pose proof (over_bool _ _ (day_spec s now)) as Hd. pose proof (over_bool _ _ (period_spec s (us_WeeklyWindowStart s) week now eq_refl)) as Hw.
  pose proof (over_bool _ _ (period_spec s (us_MonthlyWindowStart s) month now eq_refl)) as Hm.
  fold (week_over s now) in Hw. fold (month_over s now) in Hm. revert Hd Hw Hm.
  generalize (bool_decide (automaticDailyWindowStartAt s now ≠ None)), (bool_decide (automaticWindowStartAt s (us_WeeklyWindowStart s) week now ≠ None)),
    (bool_decide (automaticWindowStartAt s (us_MonthlyWindowStart s) month now ≠ None)). intros d w m Hd Hw Hm.
  split; [|split; [|intros; by apply writes_discounted]].
  - unfold CheckUsageLimits, CheckDailyLimit, CheckWeeklyLimit, CheckMonthlyLimit. simpl.
    pose proof (limit_spec (g_DailyLimitUSD g) d (us_DailyUsageUSD s)) as Ld. pose proof (limit_spec (g_WeeklyLimitUSD g) w (us_WeeklyUsageUSD s)) as Lw.
    pose proof (limit_spec (g_MonthlyLimitUSD g) m (us_MonthlyUsageUSD s)) as Lm. rewrite Hd in Ld. rewrite Hw in Lw. rewrite Hm in Lm.
    destruct (check_limit _ (if d then _ else _) _); simpl; [|naive_solver]. destruct (check_limit _ (if w then _ else _) _); simpl; [|naive_solver].
    destruct (check_limit _ (if m then _ else _) _); simpl; naive_solver.
  - rewrite <- Hd, <- Hw, <- Hm. destruct d, w, m, (IsWindowActivated s); simpl; naive_solver.
Qed.

(** ** What the writes do *)

Lemma write_all_fails ws ts row row' : write_all ws ts row = (None, row') → ∃ t, t ∈ ts ∧ tn_fails t = true.
Proof.
  revert ts row. induction ws as [|w ws IH]; intros ts row; simpl; [done|]. destruct ts as [|t ts]; simpl.
  - intros Hw. destruct (IH [] _ Hw) as (t & Ht & _). by apply not_elem_of_nil in Ht.
  - destruct (tn_fails t) eqn:Hf; [intros _; exists t; split; [constructor|done]|].
    intros Hw. destruct (IH _ _ Hw) as (u & Hu & ?). exists u. split; [by constructor|done].
Qed.

Lemma ensure_fails copy now now' ts row row' :
  EnsureWindowMaintenance copy now now' ts row = (None, row') → ∃ t, t ∈ ts ∧ tn_fails t = true.
Proof.
  unfold EnsureWindowMaintenance. assert (∀ ws ts ts' row row', write_all ws ts row = (Some ts', row') → ∀ t, t ∈ ts' → t ∈ ts) as Hsub.
  { clear. induction ws as [|w ws IH]; intros ts ts' row row'; simpl; [by intros [= <- <-]|]. case_match; [done|].
    intros Hw t Ht. specialize (IH _ _ _ _ Hw t Ht). destruct ts; [done|by constructor]. }
  destruct (write_all _ ts row) as [[ts'|] row0] eqn:Hw; [|intros _; by eapply write_all_fails].
  destruct ts' as [|t ts']; simpl; [done|]. destruct (tn_fails t) eqn:Hf; [|done]. intros _. exists t. split; [|done].
  eapply Hsub; [done|constructor].
Qed.

Lemma period_over_ext s s' q period now : same_term s s' → period_over s q period now ↔ period_over s' q period now.
Proof. intros [H1 H2]. unfold period_over, origin. by rewrite H1, H2. Qed.

Lemma day_over_ext s s' now : same_term s s' → us_DailyWindowStart s = us_DailyWindowStart s' → day_over s now ↔ day_over s' now.
Proof. intros [H1 H2] H3. unfold day_over, one_day_term. by rewrite H1, H2, H3. Qed.

(** A reset finds the window it expects, which is over, or does nothing. *)
Lemma reset_keeps copy now r x : r ∈ snd (CheckAndResetWindows copy now) → same_term copy x → keeps_running now x (apply_reset r x).
Proof.
  intros Hr Ht. rewrite resets_eq in Hr. rewrite !elem_of_app in Hr. unfold daily_reset, weekly_reset, monthly_reset in Hr.
  destruct Hr as [Hr|[Hr|Hr]];
    match type of Hr with _ ∈ match ?o with _ => _ end => destruct o as [w|] eqn:Ho; [|by apply not_elem_of_nil in Hr] end;
    apply list_elem_of_singleton in Hr as ->; simpl; (case_bool_decide as He; [|by split_and!]); split_and!; try done; intros Hn; destruct Hn.
  - apply (day_over_ext copy); [done|done|]. apply day_spec. by eexists.
  - apply (period_over_ext copy); [done|]. rewrite He. apply period_spec; [done|]. by eexists.
  - apply (period_over_ext copy); [done|]. rewrite He. apply period_spec; [done|]. by eexists.
Qed.

Lemma write_keeps copy now now' w x : w ∈ maintenance_writes copy now now' → same_term copy x → keeps_running now' x (w x).
Proof.
  intros Hw Ht. unfold maintenance_writes, CheckAndActivateWindow in Hw. rewrite elem_of_app in Hw. destruct Hw as [Hw|Hw].
  - case_match; [by apply not_elem_of_nil in Hw|]. apply list_elem_of_singleton in Hw as ->. unfold ActivateWindows.
    destruct (IsWindowActivated x) eqn:Hx; [by split_and!|]. unfold keeps_running. rewrite Hx. by split_and!.
  - apply list_elem_of_fmap in Hw as (r & -> & Hr). by eapply reset_keeps.
Qed.

(** *** Undisturbed *)

Definition maintained (s : UserSubscription) (now : time) : UserSubscription :=
  if IsWindowActivated s then fst (CheckAndResetWindows s now) else ActivateWindows now s.

Lemma unactivated s : IsWindowActivated s = false → us_DailyWindowStart s = None ∧ us_WeeklyWindowStart s = None ∧ us_MonthlyWindowStart s = None.
Proof. unfold IsWindowActivated. destruct (us_DailyWindowStart s), (us_WeeklyWindowStart s), (us_MonthlyWindowStart s); done. Qed.

Lemma bind_window s q period now : q ≫= (λ x, automaticWindowStartAt s (Some x) period now) = automaticWindowStartAt s q period now.
Proof. by destruct q. Qed.

Lemma write_all_undisturbed s now : write_all (maintenance_writes s now now) [] s = (Some [], maintained s now).
Proof.
  unfold maintained, maintenance_writes, CheckAndActivateWindow. rewrite resets_eq. unfold daily_reset, weekly_reset, monthly_reset.
  destruct (IsWindowActivated s) eqn:Ha.
  - rewrite CheckAndResetWindows_eq. cbv zeta. rewrite !bind_window.
    destruct (automaticDailyWindowStartAt s now), (automaticWindowStartAt s (us_WeeklyWindowStart s) week now),
      (automaticWindowStartAt s (us_MonthlyWindowStart s) month now); simpl;
      repeat (match goal with |- context [bool_decide (?x = ?x)] => rewrite (bool_decide_eq_true_2 (x = x) eq_refl) end; simpl); done.
  - destruct (unactivated s Ha) as (H1 & H2 & H3). unfold automaticDailyWindowStartAt. by rewrite H1, H2, H3.
Qed.

Definition usage_kept (over : Prop) (q q' : option time) (u u' : float64) : Prop := over ∧ u' = Float.zero ∨ q' = q ∧ u' = u.

(** What the maintenance leaves: a window that is over begins anew, unused. *)
Lemma maintained_usage s now : IsWindowActivated s = true →
  let s' := maintained s now in
  same_term s s' ∧ us_Status s' = us_Status s ∧
  usage_kept (day_over s now) (us_DailyWindowStart s) (us_DailyWindowStart s') (us_DailyUsageUSD s) (us_DailyUsageUSD s') ∧
  usage_kept (week_over s now) (us_WeeklyWindowStart s) (us_WeeklyWindowStart s') (us_WeeklyUsageUSD s) (us_WeeklyUsageUSD s') ∧
  usage_kept (month_over s now) (us_MonthlyWindowStart s) (us_MonthlyWindowStart s') (us_MonthlyUsageUSD s) (us_MonthlyUsageUSD s').
Proof.
  intros Ha. cbv zeta. unfold maintained. rewrite Ha, CheckAndResetWindows_eq. cbv zeta. rewrite !bind_window.
  pose proof (day_spec s now) as Hd. pose proof (period_spec s (us_WeeklyWindowStart s) week now eq_refl) as Hw.
  pose proof (period_spec s (us_MonthlyWindowStart s) month now eq_refl) as Hm. unfold usage_kept, week_over, month_over.
  rewrite <- Hd, <- Hw, <- Hm.
  destruct (automaticDailyWindowStartAt s now), (automaticWindowStartAt s (us_WeeklyWindowStart s) week now),
    (automaticWindowStartAt s (us_MonthlyWindowStart s) month now); simpl; split_and!; try done;
    first [by right|left; split; [by eexists|done]].
Qed.

Lemma usage_kept_within (over over' : Prop) q q' u u' l : usage_kept over q q' u u' → (q' = q → over' ↔ over) →
  over' ∨ within l u' ↔ over ∨ within l u.
Proof.
  intros [[Ho ->]|[Hq ->]] He; [|by rewrite He]. split; [by left|]. intros _. right. apply zero_within.
Qed.

Lemma fresh_not_over s w period now : 0 < period → now ≤ w → ¬ period_over s (Some w) period now.
Proof.
  intros Hp Hw (w' & k & [= <-] & Hk & Hk' & _). rewrite <- origin_anchor in Hk'.
  pose proof (windowResetAnchor_ge s w). nia.
Qed.

Lemma today_not_over s now : us_DailyWindowStart s = Some (StartOfDay now) → ¬ day_over s now.
Proof.
  intros Hs (w & Hw & _ & Hd). assert (w = StartOfDay now) as -> by congruence. apply start_of_day_lt in Hd.
  unfold StartOfDay in Hd. rewrite start_of_day_idem in Hd. lia.
Qed.

Lemma maintained_verdict s g now r : verdict (maintained s now) g now r ↔ verdict s g now r.
Proof.
  assert (∀ s', same_term s s' → us_Status s' = us_Status s →
    (∀ l, day_over s' now ∨ within l (us_DailyUsageUSD s') ↔ day_over s now ∨ within l (us_DailyUsageUSD s)) →
    (∀ l, week_over s' now ∨ within l (us_WeeklyUsageUSD s') ↔ week_over s now ∨ within l (us_WeeklyUsageUSD s)) →
    (∀ l, month_over s' now ∨ within l (us_MonthlyUsageUSD s') ↔ month_over s now ∨ within l (us_MonthlyUsageUSD s)) →
    verdict s' g now r ↔ verdict s g now r) as Hsame.
  { intros s' [_ He] Hst Hd Hw Hm. unfold verdict, live. cbv zeta. destruct r as [|[]|]; rewrite ?Hd, ?Hw, ?Hm, ?Hst, <- ?He; done. }
  destruct (IsWindowActivated s) eqn:Ha.
  - destruct (maintained_usage s now Ha) as (Ht & Hst & Hd & Hw & Hm). apply Hsame; [done|done| | |]; intros l.
    + eapply usage_kept_within; [exact Hd|]. intros Hq. symmetry. by apply day_over_ext.
    + eapply usage_kept_within; [exact Hw|]. intros Hq. unfold week_over. rewrite Hq. symmetry. by apply period_over_ext.
    + eapply usage_kept_within; [exact Hm|]. intros Hq. unfold month_over. rewrite Hq. symmetry. by apply period_over_ext.
  - destruct (unactivated s Ha) as (H1 & H2 & H3).
    assert (¬ day_over s now) by (intros (? & ? & _); congruence). assert (¬ week_over s now) by (intros (? & ? & ? & _); congruence).
    assert (¬ month_over s now) by (intros (? & ? & ? & _); congruence). unfold maintained, ActivateWindows. rewrite Ha.
    apply Hsame; [done|done| | |]; intros l; simpl.
    + match goal with |- day_over ?x _ ∨ _ ↔ _ => assert (¬ day_over x now) by by apply today_not_over end. naive_solver.
    + match goal with |- week_over ?x _ ∨ _ ↔ _ => assert (¬ week_over x now) by (by apply fresh_not_over; try lia) end. naive_solver.
    + match goal with |- month_over ?x _ ∨ _ ↔ _ => assert (¬ month_over x now) by (by apply fresh_not_over; try lia) end. naive_solver.
Qed.

Lemma activated_maintained s now : IsWindowActivated s = true → IsWindowActivated (fst (CheckAndResetWindows s now)) = true.
Proof.
  intros Ha. rewrite CheckAndResetWindows_eq. cbv zeta.
  destruct (automaticDailyWindowStartAt s now), (us_WeeklyWindowStart s ≫= _), (us_MonthlyWindowStart s ≫= _); try exact Ha;
    unfold IsWindowActivated; simpl; rewrite ?orb_true_r; done.
Qed.

Lemma maintained_current s now : dates_ok s → representable now → current (maintained s now) now.
Proof.
  intros Hs Hn. unfold maintained. destruct (IsWindowActivated s) eqn:Ha.
  - destruct (maintained_fields s now) as (E1 & E2 & _ & E4 & E5). cbv zeta in *.
    pose proof (maintenance_idempotent s now Hs Hn) as Hi. cbv zeta in Hi.
    set (s' := fst (CheckAndResetWindows s now)) in *. assert (snd (CheckAndResetWindows s' now) = []) as Hr by by rewrite Hi.
    rewrite resets_eq in Hr. apply app_nil in Hr as [Hd [Hw Hm]%app_nil]. unfold daily_reset, weekly_reset, monthly_reset in *. split.
    + by apply activated_maintained.
    + rewrite <- day_spec. unfold week_over, month_over. rewrite <- !period_spec by done.
      split_and!; intros [? Hx]; rewrite Hx in *; done.
  - unfold ActivateWindows. rewrite Ha. split; [done|]. split_and!; [by apply today_not_over|by apply fresh_not_over; try lia..].
Qed.

#[local] Instance live_dec s now : Decision (live s now).
Proof. unfold live. apply _. Defined.

Lemma ensure_snapshot copy now now' ts row x row' : EnsureWindowMaintenance copy now now' ts row = (Some x, row') → x = row'.
Proof. unfold EnsureWindowMaintenance. repeat case_match; naive_solver. Qed.

(** C29: the check of a request over a subscription, whatever others do to the row
    meanwhile.  When the cached copy is not live, or all its windows are current, the
    copy decides and the row is left as it is.  Otherwise the row that is read back
    after the maintenance decides; only when a call fails, the request fails.  To
    decide is to let a request through exactly when the subscription is live and every
    limit bounds the usage of its window, a window that is over counting as unused.
    No write of the maintenance touches the usage of a window that is not over,
    however old the copy it was issued from, as long as the term is still the same.
    Undisturbed, and with an up-to-date copy, the answer is the one of the row as it
    was before, and a live subscription is left with current windows. *)
Theorem request_checked copy g c ts row res row' :
  gate copy g c ts row = (res, row') →
  (¬ live copy (at_check c) ∨ current copy (at_check c) → row' = row ∧ verdict copy g (at_check c) res) ∧
  (live copy (at_check c) → ¬ current copy (at_check c) →
     verdict row' g (at_recheck c) res ∨ res = MaintenanceFailed ∧ ∃ t, t ∈ ts ∧ tn_fails t = true) ∧
  (∀ w x, w ∈ maintenance_writes copy (at_activation c) (at_resets c) → same_term copy x → keeps_running (at_resets c) x (w x)) ∧
  (∀ now, c = mkClocks now now now now → ts = [] → copy = row → dates_ok row → representable now →
     verdict row g now res ∧ (live row now → current row' now)).
Proof.
  intros Hg. unfold gate in Hg. destruct (validate_spec copy g (at_check c)) as (Hv & Hneeds & Hwrites).
  destruct (ValidateAndCheckLimits copy g (at_check c)) as [[copy' needs] e]. simpl in Hv, Hneeds, Hwrites.
  assert (EnsureWindowMaintenance copy' (at_activation c) (at_resets c) ts row = EnsureWindowMaintenance copy (at_activation c) (at_resets c) ts row)
    as He by (unfold EnsureWindowMaintenance; by rewrite Hwrites).
  destruct needs; [rewrite He in Hg|].
  - assert (live copy (at_check c) ∧ ¬ current copy (at_check c)) as [Hl Hc] by (split; [destruct (decide (live copy (at_check c))); [done|]|]; naive_solver).
    split; [naive_solver|]. split; [intros _ _|split; [by intros; eapply write_keeps|]].
    + destruct (EnsureWindowMaintenance _ _ _ _ _) as [[x|] y] eqn:Hm; injection Hg as <- <-; [left|right; split; [done|by eapply ensure_fails]].
      apply ensure_snapshot in Hm as ->. apply validate_spec.
    + intros now -> -> -> Hd Hn. unfold EnsureWindowMaintenance in Hg. simpl in Hg. rewrite write_all_undisturbed in Hg. simpl in Hg. injection Hg as <- <-.
      split; [|by intros; apply maintained_current]. apply maintained_verdict. apply validate_spec.
  - injection Hg as <- <-. split; [done|]. split; [intros; naive_solver|split; [by intros; eapply write_keeps|]].
    intros now -> _ -> _ _. simpl in *. split; [done|]. intros Hl. by destruct (proj1 Hneeds eq_refl).
Qed.

End gate.

(** ** Concrete runs *)

#[local] Instance utc8 : TimeZones := {| configured_offset := 8 * hour; value_offset := 0 |}.

Definition weekly_six : Group := mkGroup 3 true true None (Some (Float.of_Z 6)) None.
Definition eighth_day : clocks := let t := AddDays noon 8 in mkClocks t t t t.

(** The nine dollars of the first week are past. *)
Example new_week_passes : fst (gate sub28 weekly_six eighth_day [] sub28) = Passed.
Proof. by vm_compute. Qed.

(** Another request opened the second week first, and seven dollars were charged. *)
Definition overtaken (row : UserSubscription) : UserSubscription :=
  mkSub (us_ID row) (us_UserID row) (us_GroupID row) (us_StartsAt row) (us_ExpiresAt row) (us_Status row)
    (us_DailyWindowStart row) (Some (AddDays noon 7)) (us_MonthlyWindowStart row)
    (us_DailyUsageUSD row) (Float.of_Z 7) (us_MonthlyUsageUSD row) (us_AssignedBy row) (us_AssignedAt row) (us_Notes row).

Definition race : gate_result * UserSubscription := Eval vm_compute in gate sub28 weekly_six eighth_day [mkTurn overtaken false] sub28.

Example request_checked_witness :
  us_WeeklyUsageUSD (snd race) = Float.of_Z 7 ∧ verdict (snd race) weekly_six (AddDays noon 8) (Refused ErrWeeklyLimitExceeded).
Proof.
  split; [by vm_compute|].
  destruct (request_checked sub28 weekly_six eighth_day [mkTurn overtaken false] sub28 (fst race) (snd race)) as (_ & Hrow & _ & _); [by vm_compute|].
  destruct Hrow as [Hv|[Hf _]].
  - split_and!; by vm_compute.
  - intros (_ & Hday & _). apply Hday, day_spec. vm_compute. by eexists.
  - exact Hv.
  - discriminate Hf.
Defined.

End SubscriptionGate.
