(* ===== verification/PaymentStore.v ===== *)
(** * The tables behind payments, and the statements run on them

    The rows the payment and redeem services share, as a record of tables, with
    the statements of [repository/redeem_code_repo.go],
    [repository/user_repo.go], [repository/affiliate_repo.go] and the [ent]
    calls of the payment service.  A statement is one atomic step; a transaction
    is the list of its writes, applied together at its commit: the locks its
    statements take are held to the end, so a guard that held when the statement
    ran still holds then.

    Beside the balances the store keeps the journal of what was granted
    ([st_grants]), each entry with the row it is due to, and the journal of refunds
    ([st_refunds]): neither is a table. *)

From Stdlib Require Import QArith.
From S2P Require Import Prelude Float64 GoStrings PaymentOrder Subscription Database Interleaving.

Module PaymentStore.
Import GoStrings PaymentOrder.

(** ** Rows *)

Definition StatusUnused : bytes := lit "unused".
Definition StatusUsed : bytes := lit "used".
Definition StatusExpired : bytes := lit "expired".

Definition RedeemTypeBalance : bytes := lit "balance".
Definition RedeemTypeConcurrency : bytes := lit "concurrency".
Definition RedeemTypeSubscription : bytes := lit "subscription".
Definition RedeemTypeInvitation : bytes := lit "invitation".

Record RedeemCode := mkCode {
  rc_ID : Z;
  rc_Code : bytes;
  rc_Type : bytes;
  rc_Value : float64;
  rc_Status : bytes;
  rc_UsedBy : option Z;
  rc_UsedAt : option time;
  rc_ExpiresAt : option time;
  rc_GroupID : option Z;
  rc_ValidityDays : Z
}.

(** What a refund took from the user before it asked the provider. *)
Inductive DeductionType := DeductionTypeNone | DeductionTypeBalance | DeductionTypeSubscription.
#[export] Instance DeductionType_eq_dec : EqDecision DeductionType.
Proof. solve_decision. Defined.

(** The detail of a REFUND_PENDING entry. *)
Record refundPendingAuditDetail := mkPendingDetail {
  pd_RefundID : bytes;
  pd_DeductionRollbackOK : option bool;   (* left out of the text when false *)
  pd_DeductionHeld : bool;
  pd_DeductionType : DeductionType;
  pd_BalanceDeducted : float64;
  pd_SubDaysDeducted : Z;
  pd_SubscriptionID : Z;
  pd_RequestedAt : time
}.

(** Only the detail of REFUND_PENDING is read back; the others are text. *)
Inductive AuditDetail := DText | DPending (d : refundPendingAuditDetail).

(** An audit entry: a row of [payment_audit_logs]. *)
Record Audit := mkAudit {
  au_OrderID : Z;
  au_Action : string;
  au_Operator : bytes;
  au_CreatedAt : time;
  au_Detail : AuditDetail
}.

Record Affiliate := mkAffiliate {
  af_UserID : Z;
  af_InviterID : option Z;
  af_RebateRatePercent : option float64;
  af_CreatedAt : time
}.

(** What a journal entry is due to. *)
Inductive cause :=
  | DueCode (id : Z)        (* a redeem code, by its row *)
  | DueOrder (oid : Z).     (* a payment order *)
#[export] Instance cause_eq_dec : EqDecision cause.
Proof. solve_decision. Defined.

Inductive entitlement :=
  | GBalance (user : Z) (amount : float64)        (* [UpdateBalance] *)
  | GBalanceAdjust (user : Z) (delta : float64)   (* [ApplyRedeemBalanceAdjustment] *)
  | GConcurrency (user : Z) (delta : Z)
  | GConcurrencyAdjust (user : Z) (delta : Z)
  | GDays (user group days : Z)                   (* a subscription's term *)
  | GRebate (inviter invitee : Z) (amount : float64) (freezeHours : Z).

Record grant := mkGrant { gr_cause : cause; gr_what : entitlement }.

(** What a refund did, in the order it did it: an attempt claims the order, takes
    something from the user, asks the provider and may give back what it took. *)
Inductive deduction :=
  | Money (user amount : Z)        (* from the balance, in 10^-8 dollars *)
  | Days (sub days : Z)            (* from a subscription's term *)
  | Revoked (sub : Z).             (* the subscription itself *)
#[export] Instance deduction_eq_dec : EqDecision deduction.
Proof. solve_decision. Defined.

Record RefundRequest := mkRefundRequest {
  rq_TradeNo : bytes;
  rq_OrderID : bytes;
  rq_Amount : bytes;
  rq_Reason : bytes
}.

Record RefundResponse := mkRefundResponse { rr_RefundID : bytes; rr_Status : bytes }.

(** A response, and whether the call succeeded. *)
Abbreviation refund_answer := (option RefundResponse * bool)%type (only parsing).

Inductive refund_event :=
  | Claimed (oid : Z) (amount : float64) (tradeNo : bytes)
  | Deducted (oid : Z) (d : deduction)
  | Asked (oid : Z) (r : RefundRequest)
  | Answered (oid : Z) (a : refund_answer)
  | Returned (oid : Z) (d : deduction).

Record Store := mkStore {
  st_now : time;
  st_orders : gmap Z Order;
  st_instances : list ProviderInstance;
  st_codes : gmap Z RedeemCode;
  st_next_code : Z;
  st_audits : list Audit;
  st_users : gset Z;
  st_groups : gmap Z Subscription.Group;
  st_subs : gmap Z Subscription.UserSubscription;
  st_next_sub : Z;
  st_affiliates : gmap Z Affiliate;
  st_grants : list grant;               (* newest first *)
  st_locks : gmap bytes time;           (* Redis: lock keys with their expiry *)
  st_attempts : gmap Z (Z * time);      (* Redis: failed redeems with their expiry *)
  st_sent : list (Z * string);          (* notifications handed to the mailer *)
  st_balances : gmap Z Z;               (* of the users, in 10^-8 dollars *)
  st_refunds : list refund_event        (* newest first *)
}.

Definition with_orders f s := mkStore (st_now s) (f (st_orders s)) (st_instances s) (st_codes s)
  (st_next_code s) (st_audits s) (st_users s) (st_groups s) (st_subs s) (st_next_sub s) (st_affiliates s)
  (st_grants s) (st_locks s) (st_attempts s) (st_sent s) (st_balances s) (st_refunds s).
Definition with_codes f n s := mkStore (st_now s) (st_orders s) (st_instances s) (f (st_codes s))
  n (st_audits s) (st_users s) (st_groups s) (st_subs s) (st_next_sub s) (st_affiliates s)
  (st_grants s) (st_locks s) (st_attempts s) (st_sent s) (st_balances s) (st_refunds s).
Definition with_audits f s := mkStore (st_now s) (st_orders s) (st_instances s) (st_codes s)
  (st_next_code s) (f (st_audits s)) (st_users s) (st_groups s) (st_subs s) (st_next_sub s) (st_affiliates s)
  (st_grants s) (st_locks s) (st_attempts s) (st_sent s) (st_balances s) (st_refunds s).
Definition with_subs f n s := mkStore (st_now s) (st_orders s) (st_instances s) (st_codes s)
  (st_next_code s) (st_audits s) (st_users s) (st_groups s) (f (st_subs s)) n (st_affiliates s)
  (st_grants s) (st_locks s) (st_attempts s) (st_sent s) (st_balances s) (st_refunds s).
Definition with_affiliates f s := mkStore (st_now s) (st_orders s) (st_instances s) (st_codes s)
  (st_next_code s) (st_audits s) (st_users s) (st_groups s) (st_subs s) (st_next_sub s) (f (st_affiliates s))
  (st_grants s) (st_locks s) (st_attempts s) (st_sent s) (st_balances s) (st_refunds s).
Definition with_grant g s := mkStore (st_now s) (st_orders s) (st_instances s) (st_codes s)
  (st_next_code s) (st_audits s) (st_users s) (st_groups s) (st_subs s) (st_next_sub s) (st_affiliates s)
  (g :: st_grants s) (st_locks s) (st_attempts s) (st_sent s) (st_balances s) (st_refunds s).
Definition with_redis f g s := mkStore (st_now s) (st_orders s) (st_instances s) (st_codes s)
  (st_next_code s) (st_audits s) (st_users s) (st_groups s) (st_subs s) (st_next_sub s) (st_affiliates s)
  (st_grants s) (f (st_locks s)) (g (st_attempts s)) (st_sent s) (st_balances s) (st_refunds s).
Definition with_sent n s := mkStore (st_now s) (st_orders s) (st_instances s) (st_codes s)
  (st_next_code s) (st_audits s) (st_users s) (st_groups s) (st_subs s) (st_next_sub s) (st_affiliates s)
  (st_grants s) (st_locks s) (st_attempts s) (n :: st_sent s) (st_balances s) (st_refunds s).
Definition with_clock t s := mkStore t (st_orders s) (st_instances s) (st_codes s)
  (st_next_code s) (st_audits s) (st_users s) (st_groups s) (st_subs s) (st_next_sub s) (st_affiliates s)
  (st_grants s) (st_locks s) (st_attempts s) (st_sent s) (st_balances s) (st_refunds s).
Definition with_balances f s := mkStore (st_now s) (st_orders s) (st_instances s) (st_codes s)
  (st_next_code s) (st_audits s) (st_users s) (st_groups s) (st_subs s) (st_next_sub s) (st_affiliates s)
  (st_grants s) (st_locks s) (st_attempts s) (st_sent s) (f (st_balances s)) (st_refunds s).
Definition with_refund e s := mkStore (st_now s) (st_orders s) (st_instances s) (st_codes s)
  (st_next_code s) (st_audits s) (st_users s) (st_groups s) (st_subs s) (st_next_sub s) (st_affiliates s)
  (st_grants s) (st_locks s) (st_attempts s) (st_sent s) (st_balances s) (e :: st_refunds s).

Definition advance (d : N) (s : Store) : Store := with_clock (st_now s + Z.of_N d) s.

(** What the repositories report. *)
Inductive dberr :=
  | NotFound            (* no such row *)
  | Lost                (* the call failed: connection, timeout, rollback *)
  | UniqueViolation
  | SubscriptionExists  (* the unique index of subscriptions *)
  | CodeUsed            (* [ErrRedeemCodeUsed]: the guarded update found no unused row *)
  | UserNotFound
  | NotClaimed          (* ON CONFLICT DO NOTHING returned no row; a guarded update found none *)
  | Refused (e : Subscription.ExtendError).  (* [ExtendSubscription] left the row as it is *)
#[export] Instance dberr_eq_dec : EqDecision dberr.
Proof. solve_decision. Defined.

(** ** Queries *)

Definition found {A} (o : option A) : result dberr A :=
  match o with Some a => Ok a | None => Err NotFound end.

Definition rows {A} (m : gmap Z A) : list A := snd <$> map_to_list m.

(** [Query().Where(...).Only(ctx)]: an error when two rows match. *)
Definition only {A} (l : list A) : result dberr A :=
  match l with [a] => Ok a | [] => Err NotFound | _ => Err Lost end.

Definition get_order (oid : Z) (s : Store) : result dberr Order := found (st_orders s !! oid).
Definition order_by_out_trade_no (no : bytes) (s : Store) : result dberr Order :=
  only (filter (λ o, o_OutTradeNo o = no) (rows (st_orders s))).
Definition code_by_code (c : bytes) (s : Store) : result dberr RedeemCode :=
  only (filter (λ r, rc_Code r = c) (rows (st_codes s))).
Definition code_by_id (id : Z) (s : Store) : result dberr RedeemCode := found (st_codes s !! id).
Definition get_user (uid : Z) (s : Store) : result dberr unit :=
  if bool_decide (uid ∈ st_users s) then Ok tt else Err UserNotFound.
Definition get_group (gid : Z) (s : Store) : result dberr Subscription.Group := found (st_groups s !! gid).
Definition sub_by_user_group (uid gid : Z) (s : Store) : result dberr Subscription.UserSubscription :=
  only (filter (λ r, Subscription.us_UserID r = uid ∧ Subscription.us_GroupID r = gid) (rows (st_subs s))).
Definition get_affiliate (uid : Z) (s : Store) : result dberr (option Affiliate) := Ok (st_affiliates s !! uid).

Definition has_audit (oid : Z) (actions : list string) (s : Store) : bool :=
  existsb (λ a, (au_OrderID a =? oid) && bool_decide (au_Action a ∈ actions)) (st_audits s).
Definition has_audit_q oid actions (s : Store) : result dberr bool := Ok (has_audit oid actions s).

Definition count_audits (action : string) (operator : bytes) (since : time) (s : Store) : result dberr Z :=
  Ok (Z.of_nat (length (filter (λ a, au_Action a = action ∧ au_Operator a = operator ∧ since ≤ au_CreatedAt a)
                               (st_audits s)))).

Definition instance_by_id (id : Z) (s : Store) : result dberr ProviderInstance :=
  only (filter (λ i, pi_ID i = id) (st_instances s)).
Definition all_instances (s : Store) : result dberr (list ProviderInstance) := Ok (st_instances s).
Definition instances_by_key (k : bytes) (s : Store) : result dberr (list ProviderInstance) :=
  Ok (filter (λ i, pi_ProviderKey i = k) (st_instances s)).
Definition count_enabled_instances (k : bytes) (s : Store) : result dberr Z :=
  Ok (Z.of_nat (length (filter (λ i, pi_ProviderKey i = k ∧ pi_Enabled i = true) (st_instances s)))).

(** ** Single statements *)

Section statements.
Context `{Database} `{Numeric} `{TimeZones}.

(** [PaymentOrder.Update().Where(IDEQ(oid), guard).Set...]: the number of rows
    changed.  [updated_at] is set by the ORM unless the call sets it. *)
Definition touch (at_ : time) (o : Order) : Order :=
  {| o_ID := o_ID o; o_UserID := o_UserID o; o_Amount := o_Amount o; o_PayAmount := o_PayAmount o;
     o_BonusAmount := o_BonusAmount o; o_RechargeCode := o_RechargeCode o; o_OutTradeNo := o_OutTradeNo o;
     o_PaymentType := o_PaymentType o; o_PaymentTradeNo := o_PaymentTradeNo o; o_OrderType := o_OrderType o;
     o_SubscriptionGroupID := o_SubscriptionGroupID o; o_SubscriptionDays := o_SubscriptionDays o;
     o_ProviderInstanceID := o_ProviderInstanceID o; o_ProviderKey := o_ProviderKey o;
     o_ProviderSnapshot := o_ProviderSnapshot o; o_Status := o_Status o; o_ExpiresAt := o_ExpiresAt o;
     o_PaidAt := o_PaidAt o; o_CompletedAt := o_CompletedAt o; o_FailedAt := o_FailedAt o;
     o_Refund := o_Refund o; o_CreatedAt := o_CreatedAt o; o_UpdatedAt := timestamptz at_ |}.

Definition update_order_at (oid : Z) (guard : Order → bool) (set : Order → Order) (at_ : Store → time)
    (s : Store) : result dberr Z * Store :=
  match st_orders s !! oid with
  | Some o => if guard o then (Ok 1, with_orders (insert oid (touch (at_ s) (set o))) s) else (Ok 0, s)
  | None => (Ok 0, s)
  end.

Definition update_order oid guard set := update_order_at oid guard set st_now.

(** [payment_audit_logs] has a unique index on (order, action). *)
Definition insert_audit (oid : Z) (action : string) (op : bytes) (s : Store) : result dberr unit * Store :=
  if has_audit oid [action] s then (Err UniqueViolation, s)
  else (Ok tt, with_audits (cons (mkAudit oid action op (st_now s) DText)) s).

(** [redeem_codes.code] is unique; the identifier comes from the sequence. *)
Definition create_code (rc : RedeemCode) (s : Store) : result dberr unit * Store :=
  if existsb (λ r, bool_decide (rc_Code r = rc_Code rc)) (rows (st_codes s)) then (Err UniqueViolation, s)
  else
    let id := st_next_code s in
    (Ok tt, with_codes (insert id (mkCode id (rc_Code rc) (rc_Type rc) (rc_Value rc) (rc_Status rc) (rc_UsedBy rc)
                                     (rc_UsedAt rc) (rc_ExpiresAt rc) (rc_GroupID rc) (rc_ValidityDays rc)))
                       (id + 1) s).

Definition delete_code (id : Z) (s : Store) : result dberr unit * Store :=
  (Ok tt, with_codes (delete id) (st_next_code s) s).

(** Redis: [SET key NX PX ttl], [DEL], and the counter with its script. *)
Definition set_nx (key : bytes) (ttl : duration) (s : Store) : result dberr bool * Store :=
  match st_locks s !! key with
  | Some e => if st_now s <? e then (Ok false, s)
              else (Ok true, with_redis (insert key (st_now s + ttl)) id s)
  | None => (Ok true, with_redis (insert key (st_now s + ttl)) id s)
  end.
Definition del_key (key : bytes) (s : Store) : result dberr unit * Store :=
  (Ok tt, with_redis (delete key) id s).

Definition redeemRateLimitWindow : duration := 10 * minute.
Definition attempt_count (uid : Z) (s : Store) : result dberr Z :=
  Ok match st_attempts s !! uid with
     | Some (n, e) => if st_now s <? e then n else 0
     | None => 0
     end.
Definition increment_attempts (uid : Z) (s : Store) : result dberr unit * Store :=
  (Ok tt, with_redis id
     (insert uid match st_attempts s !! uid with
                 | Some (n, e) => if st_now s <? e then (n + 1, e) else (1, st_now s + redeemRateLimitWindow)
                 | None => (1, st_now s + redeemRateLimitWindow)
                 end) s).

Definition send_notification (oid : Z) (action : string) (s : Store) : result dberr unit * Store :=
  (Ok tt, with_sent (oid, action) s).

(** ** Transactions *)

Definition SUBSCRIPTION_ASSIGNED : string := "SUBSCRIPTION_ASSIGNED".
Definition REBATE_APPLIED : string := "AFFILIATE_REBATE_APPLIED".
Definition REBATE_SKIPPED : string := "AFFILIATE_REBATE_SKIPPED".

(** The writes a transaction can contain. *)
Inductive stmt :=
  | SUse (id uid : Z)                          (* mark a code used, if unused *)
  | SGrant (c : cause) (e : entitlement)       (* credit a user; the row must exist *)
  | SRenew (c : cause) (sub days : Z) (notes : bytes) (at_ : time)  (* on the locked row *)
  | SReduce (sub days : Z) (notes : bytes) (at_ : time)
  | SCreateSub (c : cause) (uid gid days : Z) (notes : bytes) (at_ : time)
  | SAssigned (oid : Z) (op : bytes)             (* the audit entry SUBSCRIPTION_ASSIGNED *)
  | SClaimRebate (oid : Z)                     (* INSERT ... ON CONFLICT DO NOTHING RETURNING id *)
  | SSkipRebate (oid : Z)                      (* the claimed entry becomes SKIPPED *)
  | SEnsureAffiliate (uid : Z)
  | SAccrue (c : cause) (inviter invitee : Z) (amount : float64) (freezeHours : Z).

Definition mark_used (uid : Z) (at_ : time) (r : RedeemCode) : RedeemCode :=
  mkCode (rc_ID r) (rc_Code r) (rc_Type r) (rc_Value r) StatusUsed (Some uid) (Some at_)
    (rc_ExpiresAt r) (rc_GroupID r) (rc_ValidityDays r).

(** The user a grant is for. *)
Definition grant_user (e : entitlement) : Z :=
  match e with
  | GBalance u _ | GBalanceAdjust u _ | GConcurrency u _ | GConcurrencyAdjust u _ | GDays u _ _ => u
  | GRebate inviter _ _ _ => inviter
  end.

(** What a grant does to the balances: [UpdateBalance] and
    [ApplyRedeemBalanceAdjustment]. *)
Definition balance_of (u : Z) (m : gmap Z Z) : Z := default 0 (m !! u).
Definition credit_balance (e : entitlement) (m : gmap Z Z) : gmap Z Z :=
  match e with
  | GBalance u x => <[u := round_scale (inject_Z (balance_of u m) + numeric x)]> m
  | GBalanceAdjust u x =>
      let q := (inject_Z (balance_of u m) + numeric x)%Q in
      <[u := if Qle_bool q 0 then 0 else round_scale q]> m
  | _ => m
  end.

(** The term [reduceOrCancelSubscription] leaves. *)
Definition reduce_term (r : Subscription.UserSubscription) (days : Z) (notes : bytes) (at_ : time)
    : Subscription.UserSubscription :=
  let e := Subscription.AddDays (Subscription.us_ExpiresAt r) (- days) in
  let notes := if bool_decide (Subscription.us_Notes r = []) then notes
               else Subscription.us_Notes r ++ LF :: notes in
  if after e at_ then Subscription.set_term r e (Subscription.us_Status r) notes
  else Subscription.set_term r at_ Subscription.SubscriptionStatusExpired notes.

Definition exec_stmt (st : stmt) (s : Store) : result dberr Store :=
  match st with
  | SUse id uid =>
      match st_codes s !! id with
      | Some r => if bool_decide (rc_Status r = StatusUnused)
                  then Ok (with_codes (insert id (mark_used uid (st_now s) r)) (st_next_code s) s)
                  else Err CodeUsed
      | None => Err CodeUsed
      end
  | SGrant c e =>
      if bool_decide (grant_user e ∈ st_users s)
      then Ok (with_grant (mkGrant c e) (with_balances (credit_balance e) s)) else Err UserNotFound
  | SRenew c sub days notes at_ =>
      match st_subs s !! sub with
      | Some r =>
          Ok (with_grant (mkGrant c (GDays (Subscription.us_UserID r) (Subscription.us_GroupID r) days))
                (with_subs (insert sub (Subscription.updateExistingSubscriptionTerm r days notes false at_))
                   (st_next_sub s) s))
      | None => Err NotFound
      end
  | SReduce sub days notes at_ =>
      match st_subs s !! sub with
      | Some r => Ok (with_subs (insert sub (reduce_term r days notes at_)) (st_next_sub s) s)
      | None => Err NotFound
      end
  | SCreateSub c uid gid days notes at_ =>
      if existsb (λ r, (Subscription.us_UserID r =? uid) && (Subscription.us_GroupID r =? gid)) (rows (st_subs s))
      then Err SubscriptionExists
      else
        let id := st_next_sub s in
        Ok (with_grant (mkGrant c (GDays uid gid (Subscription.normalizeAssignValidityDays days)))
              (with_subs (insert id (Subscription.createSubscription id uid gid days 0 notes at_)) (id + 1) s))
  | SAssigned oid op =>
      if has_audit oid [SUBSCRIPTION_ASSIGNED] s then Err UniqueViolation
      else Ok (with_audits (cons (mkAudit oid SUBSCRIPTION_ASSIGNED op (st_now s) DText)) s)
  | SClaimRebate oid =>
      if has_audit oid [REBATE_APPLIED] s then Err NotClaimed
      else Ok (with_audits (cons (mkAudit oid REBATE_APPLIED (lit "system") (st_now s) DText)) s)
  | SSkipRebate oid =>
      if has_audit oid [REBATE_SKIPPED] s then Err UniqueViolation
      else Ok (with_audits (fmap (λ a, if (au_OrderID a =? oid) && bool_decide (au_Action a = REBATE_APPLIED)
                                       then mkAudit oid REBATE_SKIPPED (au_Operator a) (au_CreatedAt a) DText else a)) s)
  | SEnsureAffiliate uid =>
      match st_affiliates s !! uid with
      | Some _ => Ok s
      | None => Ok (with_affiliates (insert uid (mkAffiliate uid None None (st_now s))) s)
      end
  | SAccrue c inviter invitee amount freezeHours =>
      match st_affiliates s !! inviter with
      | Some _ => Ok (with_grant (mkGrant c (GRebate inviter invitee amount freezeHours)) s)
      | None => Ok s
      end
  end.

Fixpoint exec_stmts (l : list stmt) (s : Store) : result dberr Store :=
  match l with
  | [] => Ok s
  | st :: l => match exec_stmt st s with Ok s' => exec_stmts l s' | Err e => Err e end
  end.

(** Commit, or roll back at the first failing statement. *)
Definition transaction (l : list stmt) (s : Store) : result dberr unit * Store :=
  match exec_stmts l s with Ok s' => (Ok tt, s') | Err e => (Err e, s) end.

End statements.
End PaymentStore.
