(* ===== verification/Redeem.v ===== *)
(** * Redeem codes and the affiliate rebate

    Models [service/redeem_service.go] (creating, looking up, deleting and
    redeeming a code), the assignment of a subscription's days by
    [assignOrExtendSubscription], and [AccrueInviteRebateForOrder] of
    [service/affiliate_service.go], as programs over the tables. *)

From S2P Require Import Prelude Float64 GoStrings PaymentOrder Subscription Database Interleaving PaymentStore.

Module Redeem.
Import GoStrings PaymentOrder PaymentStore.

(** ** Systems outside the database *)

(** The affiliate settings, as the setting service reports them at one moment. *)
Record AffiliateSettings := mkSettings {
  as_enabled : bool;
  as_durationDays : Z;
  as_ratePercent : float64;
  as_perInviteeCap : float64;
  as_freezeHours : Z
}.

(** The answer of a payment provider about an order. *)
Record QueryOrderResponse := mkQuery {
  q_TradeNo : bytes;
  q_Paid : bool;                 (* status "paid" *)
  q_Amount : float64;
  q_Metadata : gmap bytes bytes
}.

Record RefundQueryRequest := mkRefundQuery {
  qr_TradeNo : bytes;
  qr_OrderID : bytes;
  qr_RefundID : bytes;
  qr_Amount : bytes;
  qr_RequestedAt : time
}.

Inductive question : Type → Type :=
  | QSettings : question AffiliateSettings
  | QAccrued (inviter invitee : Z) : question (result dberr float64)  (* a sum in the database *)
  | QInvalidateSubscription (uid gid : Z) : question (result dberr unit)
  | QProvider (inst : ProviderInstance) : question (option bytes)     (* its key *)
  | QRegistryProvider (paymentType : bytes) : question (option bytes)
  | QQueryOrder (provider ref : bytes) : question (option QueryOrderResponse)
  | QCancelPayment (provider ref : bytes) : question unit
  | QActiveSubscription (uid gid : Z) : question (result dberr Z)     (* its identifier; a cache answers *)
  | QMerchantIdentity (provider : bytes) : question (gmap bytes bytes)
  | QRefund (provider : bytes) (r : RefundRequest) : question refund_answer
  | QSupportsRefundQuery (provider : bytes) : question bool
  | QQueryRefund (provider : bytes) (r : RefundQueryRequest) : question refund_answer
  | QStatement : question bool.                                       (* a statement inside a transaction succeeds *)

Abbreviation call_db := (@db Store dberr question).
Abbreviation prg := (prog call_db).
Definition read {X} (q : Store → result dberr X) : prg (result dberr X) := call (Read q).
Definition write {X} (w : Store → result dberr X * Store) : prg (result dberr X) := call (Write w).
Definition clock : prg time := call Now.
Definition log (e : refund_event) : prg unit := call (Log (with_refund e)).
Definition ask {X} (q : question X) : prg X := call (Ask q).

(** ** Errors *)

Inductive perror :=
  | EDB (e : dberr)
  | EApp (status : Z) (reason : string)
  | EMsg (msg : string)
  | EWrap (msg : string) (e : perror).
#[export] Instance perror_eq_dec : EqDecision perror.
Proof. solve_decision. Defined.

(** [errors.Is(e, target)] *)
Fixpoint errors_is (target e : perror) : bool :=
  bool_decide (e = target) || match e with EWrap _ e => errors_is target e | _ => false end.

Definition ErrRedeemCodeNotFound : perror := EApp 404 "REDEEM_CODE_NOT_FOUND".
Definition ErrRedeemCodeUsed : perror := EApp 409 "REDEEM_CODE_USED".
Definition ErrRedeemCodeExpired : perror := EApp 409 "REDEEM_CODE_EXPIRED".
Definition ErrRedeemRateLimited : perror := EApp 429 "REDEEM_RATE_LIMITED".
Definition ErrRedeemCodeLocked : perror := EApp 409 "REDEEM_CODE_LOCKED".
Definition ErrGroupNotSubscriptionType : perror := EApp 400 "GROUP_NOT_SUBSCRIPTION_TYPE".
Definition ErrSubscriptionNotFound : perror := EApp 404 "SUBSCRIPTION_NOT_FOUND".
Definition ErrSubscriptionAlreadyExists : perror := EApp 409 "SUBSCRIPTION_ALREADY_EXISTS".
Definition ErrUserNotFound : perror := EApp 404 "USER_NOT_FOUND".

(** What the repositories translate a failed read of a code to. *)
Definition code_error (e : dberr) : perror :=
  match e with NotFound => ErrRedeemCodeNotFound | _ => EDB e end.

(** Go on with the value, or return the wrapped error. *)
Definition on_error {A B} (wrap : perror → perror) (p : prg (result perror A))
    (k : A → prg (result perror B)) : prg (result perror B) :=
  let! r := p in match r with Ok a => k a | Err e => Ret (Err (wrap e)) end.

Definition lift {X} (p : prg (result dberr X)) : prg (result perror X) :=
  let! r := p in Ret match r with Ok x => Ok x | Err e => Err (EDB e) end.

Notation "'try' x ':=' p 'wrap' w 'in' k" := (on_error w p (λ x, k))
  (at level 10, x pattern, p at level 100, w at level 100, k at level 200) : go_scope.

(** ** A redeem code *)

Definition IsUsed (r : RedeemCode) : bool := bool_decide (rc_Status r = StatusUsed).

Definition IsExpiredAt (r : RedeemCode) (now : time) : bool :=
  bool_decide (rc_Status r = StatusExpired)
  || (bool_decide (rc_Status r = StatusUnused)
      && match rc_ExpiresAt r with Some e => negb (after e now) | None => false end).

(** How the deployment is configured. *)
Record Service := mkService {
  sv_cache : bool;                          (* Redis for redeem codes *)
  sv_affiliate : bool;                      (* the affiliate service is wired *)
  sv_registry : option (bytes → bytes)      (* provider key of a payment type *)
}.

Section service.
Context `{Database} `{Numeric} `{TimeZones} (sv : Service).

Definition redeemMaxFailedAttempts : Z := 30.
Definition redeemLockDuration : duration := 10 * second.
Definition redeemLockKey (code : bytes) : bytes := lit "redeem:lock:" ++ code.

Definition GetByCode (code : bytes) : prg (result perror RedeemCode) :=
  let! r := read (code_by_code code) in
  Ret match r with Ok rc => Ok rc | Err e => Err (EWrap "get redeem code" (code_error e)) end.

Definition CreateCode (rc : RedeemCode) : prg (result perror unit) :=
  let code := TrimSpace (rc_Code rc) in
  if bool_decide (code = []) then Ret (Err (EMsg "code is required"))
  else
    let typ := if bool_decide (rc_Type rc = []) then RedeemTypeBalance else rc_Type rc in
    if negb (bool_decide (typ = RedeemTypeInvitation)) && Float.eq (rc_Value rc) Float.zero
    then Ret (Err (EMsg "value must not be zero"))
    else
      let status := if bool_decide (rc_Status rc = []) then StatusUnused else rc_Status rc in
      let rc := mkCode (rc_ID rc) code typ (rc_Value rc) status (rc_UsedBy rc) (rc_UsedAt rc)
                       (rc_ExpiresAt rc) (rc_GroupID rc) (rc_ValidityDays rc) in
      let! now := clock in
      if IsExpiredAt rc now then Ret (Err ErrRedeemCodeExpired)
      else
        try _ := lift (write (create_code rc)) wrap EWrap "create redeem code" in
        Ret (Ok tt).

Definition Delete (id : Z) : prg (result perror unit) :=
  let! r := read (code_by_id id) in
  match r with
  | Err e => Ret (Err (EWrap "get redeem code" (code_error e)))
  | Ok rc =>
      if IsUsed rc then Ret (Err (EApp 409 "REDEEM_CODE_DELETE_USED"))
      else try _ := lift (write (delete_code id)) wrap EWrap "delete redeem code" in Ret (Ok tt)
  end.

Definition checkRedeemRateLimit (uid : Z) : prg (result perror unit) :=
  if negb (sv_cache sv) then Ret (Ok tt)
  else
    let! r := read (attempt_count uid) in
    Ret match r with
        | Err _ => Ok tt
        | Ok count => if redeemMaxFailedAttempts <=? count then Err ErrRedeemRateLimited else Ok tt
        end.

Definition incrementRedeemErrorCount (uid : Z) : prg unit :=
  if negb (sv_cache sv) then Ret tt else let! _ := write (increment_attempts uid) in Ret tt.

Definition acquireRedeemLock (code : bytes) : prg bool :=
  if negb (sv_cache sv) then Ret true
  else
    let! r := write (set_nx (redeemLockKey code) redeemLockDuration) in
    Ret match r with Ok ok => ok | Err _ => true end.

Definition releaseRedeemLock (code : bytes) : prg unit :=
  if negb (sv_cache sv) then Ret tt else let! _ := write (del_key (redeemLockKey code)) in Ret tt.

(** ** Subscription days *)

(** [assignOrExtendSubscription] inside a transaction: the reads it makes and
    the write it contributes. *)
Definition assignOrExtendSubscription (c : cause) (uid gid validityDays : Z) (notes : bytes)
    : prg (result perror stmt) :=
  try group := lift (read (get_group gid)) wrap EWrap "group not found" in
  if negb (Subscription.g_IsSubscriptionType group) then Ret (Err ErrGroupNotSubscriptionType)
  else
    let! existing := read (sub_by_user_group uid gid) in
    let! now := clock in
    Ret (Ok match existing with
            | Ok sub => SRenew c (Subscription.us_ID sub) (Subscription.normalizeAssignValidityDays validityDays) notes now
            | Err _ => SCreateSub c uid gid validityDays notes now
            end).

(** [reduceOrCancelSubscription] *)
Definition reduceOrCancelSubscription (uid gid reduceDays : Z) (notes : bytes) : prg (result perror stmt) :=
  let! r := read (sub_by_user_group uid gid) in
  match r with
  | Err _ => Ret (Err ErrSubscriptionNotFound)
  | Ok sub => let! now := clock in Ret (Ok (SReduce (Subscription.us_ID sub) reduceDays notes now))
  end.

(** ** The affiliate rebate *)

Definition clampAffiliateRebateRate (v : float64) : float64 :=
  if Float.IsNaN v || Float.IsInf v then Float.of_Z 20
  else if Float.lt v Float.zero then Float.zero
  else if Float.lt (Float.of_Z 100) v then Float.of_Z 100
  else v.

Definition roundTo (v : float64) (scale : Z) : float64 :=
  let factor := Float.Pow10 scale in Float.div (Float.Round (Float.mul v factor)) factor.

Definition resolveRebateRatePercent (inviter : Affiliate) : prg float64 :=
  match af_RebateRatePercent inviter with
  | Some v =>
      if Float.IsNaN v || Float.IsInf v then let! st := ask QSettings in Ret (as_ratePercent st)
      else Ret (clampAffiliateRebateRate v)
  | None => let! st := ask QSettings in Ret (as_ratePercent st)
  end.

(** The affiliate row of a user, created when missing; in a caller's transaction
    the write joins it, otherwise it is made at once. *)
Definition EnsureUserAffiliate (in_tx : bool) (uid : Z) : prg (result perror (Affiliate * list stmt)) :=
  if uid <=? 0 then Ret (Err ErrUserNotFound)
  else
    try a := lift (read (get_affiliate uid)) wrap id in
    match a with
    | Some a => Ret (Ok (a, []))
    | None =>
        try ws := (if in_tx then Ret (Ok [SEnsureAffiliate uid])
                   else try _ := lift (write (transaction [SEnsureAffiliate uid])) wrap id in Ret (Ok [])) wrap id in
        try a := lift (read (get_affiliate uid)) wrap id in
        let! now := clock in
        match a with
        | Some a => Ret (Ok (a, ws))
        | None => if in_tx then Ret (Ok (mkAffiliate uid None None now, ws))
                  else Ret (Err (EMsg "affiliate profile not found"))
        end
    end.

(** The amount accrued, with the writes left to the caller's transaction. *)
Definition AccrueInviteRebateForOrder (in_tx : bool) (c : cause) (invitee : Z) (base : float64)
    : prg (result perror (float64 * list stmt)) :=
  if (invitee <=? 0) || Float.le base Float.zero || Float.IsNaN base || Float.IsInf base
  then Ret (Ok (Float.zero, []))
  else
    let! st := ask QSettings in
    if negb (as_enabled st) then Ret (Ok (Float.zero, []))
    else
      try x := EnsureUserAffiliate in_tx invitee wrap id in
      let '(inviteeSummary, ws1) := x in
      match af_InviterID inviteeSummary with
      | None => Ret (Ok (Float.zero, ws1))
      | Some inviter =>
          if inviter <=? 0 then Ret (Ok (Float.zero, ws1))
          else
            try y := EnsureUserAffiliate in_tx inviter wrap id in
            let '(inviterSummary, ws2) := y in
            let! st := ask QSettings in
            let! now := clock in
            if (0 <? as_durationDays st)
               && after now (Subscription.AddDays (af_CreatedAt inviteeSummary) (as_durationDays st))
            then Ret (Ok (Float.zero, ws1 ++ ws2))
            else
              let! rate := resolveRebateRatePercent inviterSummary in
              let rebate := roundTo (Float.mul base (Float.div rate (Float.of_Z 100))) 8 in
              if Float.le rebate Float.zero then Ret (Ok (Float.zero, ws1 ++ ws2))
              else
                let! st := ask QSettings in
                let cap := as_perInviteeCap st in
                try capped :=
                  (if Float.lt Float.zero cap then
                     try existing := lift (ask (QAccrued inviter invitee)) wrap id in
                     if Float.le cap existing then Ret (Ok None)
                     else let remaining := Float.sub cap existing in
                          Ret (Ok (Some (if Float.lt remaining rebate then roundTo remaining 8 else rebate)))
                   else Ret (Ok (Some rebate))) wrap id in
                match capped with
                | None => Ret (Ok (Float.zero, ws1 ++ ws2))
                | Some rebate =>
                    let! st := ask QSettings in
                    if Float.le rebate Float.zero then Ret (Ok (Float.zero, ws1 ++ ws2))
                    else
                      let w := SAccrue c inviter invitee rebate (as_freezeHours st) in
                      if in_tx then Ret (Ok (rebate, ws1 ++ ws2 ++ [w]))
                      else try _ := lift (write (transaction [w])) wrap id in Ret (Ok (rebate, []))
                end
      end.

(** [tryAccrueAffiliateRebateForRedeem]: a failure is only logged. *)
Definition tryAccrueAffiliateRebateForRedeem (skipAffiliate : bool) (c : cause) (uid : Z) (amount : float64)
    : prg unit :=
  if skipAffiliate then Ret tt
  else if negb (sv_affiliate sv) then Ret tt
  else
    let! st := ask QSettings in
    if negb (as_enabled st) then Ret tt
    else let! _ := AccrueInviteRebateForOrder false c uid amount in Ret tt.

(** ** Redeeming *)

(** The guard of the UPDATE in [Use]. *)
Definition use_guard (id : Z) (s : Store) : result dberr unit :=
  match st_codes s !! id with
  | Some r => if bool_decide (rc_Status r = StatusUnused) then Ok tt else Err CodeUsed
  | None => Err CodeUsed
  end.

Definition use_error (e : perror) : perror :=
  if bool_decide (e = EDB CodeUsed) then ErrRedeemCodeUsed else EWrap "mark code as used" e.

(** The entitlement of a code: what the transaction writes after marking it. *)
Definition entitle (uid : Z) (rc : RedeemCode) : prg (result perror (list stmt)) :=
  let c := DueCode (rc_ID rc) in
  if bool_decide (rc_Type rc = RedeemTypeBalance) then
    Ret (Ok [SGrant c (if Float.lt (rc_Value rc) Float.zero then GBalanceAdjust uid (rc_Value rc)
                       else GBalance uid (rc_Value rc))])
  else if bool_decide (rc_Type rc = RedeemTypeConcurrency) then
    let delta := Float.trunc (rc_Value rc) in
    Ret (Ok [SGrant c (if delta <? 0 then GConcurrencyAdjust uid delta else GConcurrency uid delta)])
  else
    let gid := default 0 (rc_GroupID rc) in
    let validityDays := rc_ValidityDays rc in
    if validityDays <? 0 then
      try w := reduceOrCancelSubscription uid gid (- validityDays)
                 (lit "通过兑换码 " ++ rc_Code rc ++ lit " 退款扣减 " ++ FormatInt (- validityDays) ++ lit " 天")
               wrap EWrap "reduce or cancel subscription" in Ret (Ok [w])
    else
      try w := assignOrExtendSubscription c uid gid (if validityDays =? 0 then 30 else validityDays)
                 (lit "通过兑换码 " ++ rc_Code rc ++ lit " 兑换") wrap EWrap "assign or extend subscription" in Ret (Ok [w]).

Definition redeem_locked (enforce skipAffiliate : bool) (uid : Z) (code : bytes)
    : prg (result perror RedeemCode) :=
  let fail (e : perror) : prg (result perror RedeemCode) :=
    let! _ := (if enforce then incrementRedeemErrorCount uid else Ret tt) in Ret (Err e) in
  let! r := read (code_by_code code) in
  match r with
  | Err NotFound => fail ErrRedeemCodeNotFound
  | Err e => Ret (Err (EWrap "get redeem code" (EDB e)))
  | Ok rc =>
      let! now := clock in
      if IsExpiredAt rc now then fail ErrRedeemCodeExpired
      else
        let! now := clock in
        if negb (bool_decide (rc_Status rc = StatusUnused)) || IsExpiredAt rc now then fail ErrRedeemCodeUsed
        else if negb (bool_decide (rc_Type rc ∈ [RedeemTypeBalance; RedeemTypeConcurrency; RedeemTypeSubscription]))
        then Ret (Err (EApp 400 "REDEEM_CODE_UNSUPPORTED_TYPE"))
        else if bool_decide (rc_Type rc = RedeemTypeSubscription) && bool_decide (rc_GroupID rc = None)
        then Ret (Err (EApp 400 "REDEEM_CODE_INVALID"))
        else
          try _ := lift (read (get_user uid)) wrap EWrap "get user" in
          try _ := lift (read (use_guard (rc_ID rc))) wrap use_error in
          try ws := entitle uid rc wrap id in
          try _ := lift (write (transaction (SUse (rc_ID rc) uid :: ws)))
                   wrap (λ e, if bool_decide (e = EDB CodeUsed) then ErrRedeemCodeUsed
                              else EWrap "redeem transaction" e) in
          let! _ := (if bool_decide (rc_Type rc = RedeemTypeBalance) && Float.lt Float.zero (rc_Value rc)
                     then tryAccrueAffiliateRebateForRedeem skipAffiliate (DueCode (rc_ID rc)) uid (rc_Value rc)
                     else Ret tt) in
          let! r := read (code_by_id (rc_ID rc)) in
          Ret match r with Ok rc => Ok rc | Err e => Err (EWrap "get updated redeem code" (code_error e)) end
  end.

Definition redeem (enforce skipAffiliate : bool) (uid : Z) (code : bytes) : prg (result perror RedeemCode) :=
  try _ := (if enforce then checkRedeemRateLimit uid else Ret (Ok tt)) wrap id in
  let! locked := acquireRedeemLock code in
  if negb locked then Ret (Err ErrRedeemCodeLocked)
  else
    let! r := redeem_locked enforce skipAffiliate uid code in
    let! _ := releaseRedeemLock code in
    Ret r.

(** [Redeem], [redeemForPaymentFulfillment] *)
Definition RedeemPublic (uid : Z) (code : bytes) : prg (result perror RedeemCode) := redeem true false uid code.
Definition redeemForPaymentFulfillment (uid : Z) (code : bytes) : prg (result perror RedeemCode) :=
  redeem false true uid code.

End service.
End Redeem.
