(* ===== verification/Payment.v ===== *)
(** * Payment fulfilment: from a provider's notification to a completed order

    Models [service/payment_fulfillment.go] and the order's side of
    [service/payment_order_lifecycle.go]: a verified notification marks the order
    paid, a worker takes the fulfilment lease (the version is [updated_at]),
    credits the user through the order's redeem code or assigns the subscription,
    accrues the rebate and completes the order; cancelling and expiring ask the
    provider first. *)

From S2P Require Import Prelude Float64 GoStrings PaymentOrder Subscription Database Interleaving PaymentStore Redeem.

Module Payment.
Import GoStrings PaymentOrder PaymentStore Redeem.

Record PaymentNotification := mkNotification {
  n_TradeNo : bytes;
  n_OrderID : bytes;
  n_Amount : float64;
  n_Success : bool;                 (* status "success" *)
  n_Metadata : gmap bytes bytes
}.

Definition ErrOrderNotFound : perror := EMsg "payment order not found".
Definition BadRequest (r : string) : perror := EApp 400 r.
Definition Conflict : perror := EApp 409 "CONFLICT".

(** ** Changes of an order *)

Definition set_status (st : OrderStatus) (o : Order) : Order :=
  {| o_ID := o_ID o; o_UserID := o_UserID o; o_Amount := o_Amount o; o_PayAmount := o_PayAmount o;
     o_BonusAmount := o_BonusAmount o; o_RechargeCode := o_RechargeCode o; o_OutTradeNo := o_OutTradeNo o;
     o_PaymentType := o_PaymentType o; o_PaymentTradeNo := o_PaymentTradeNo o; o_OrderType := o_OrderType o;
     o_SubscriptionGroupID := o_SubscriptionGroupID o; o_SubscriptionDays := o_SubscriptionDays o;
     o_ProviderInstanceID := o_ProviderInstanceID o; o_ProviderKey := o_ProviderKey o;
     o_ProviderSnapshot := o_ProviderSnapshot o; o_Status := st; o_ExpiresAt := o_ExpiresAt o;
     o_PaidAt := o_PaidAt o; o_CompletedAt := o_CompletedAt o; o_FailedAt := o_FailedAt o;
     o_Refund := o_Refund o; o_CreatedAt := o_CreatedAt o; o_UpdatedAt := o_UpdatedAt o |}.

Definition set_times (paid completed failed : option time) (o : Order) : Order :=
  {| o_ID := o_ID o; o_UserID := o_UserID o; o_Amount := o_Amount o; o_PayAmount := o_PayAmount o;
     o_BonusAmount := o_BonusAmount o; o_RechargeCode := o_RechargeCode o; o_OutTradeNo := o_OutTradeNo o;
     o_PaymentType := o_PaymentType o; o_PaymentTradeNo := o_PaymentTradeNo o; o_OrderType := o_OrderType o;
     o_SubscriptionGroupID := o_SubscriptionGroupID o; o_SubscriptionDays := o_SubscriptionDays o;
     o_ProviderInstanceID := o_ProviderInstanceID o; o_ProviderKey := o_ProviderKey o;
     o_ProviderSnapshot := o_ProviderSnapshot o; o_Status := o_Status o; o_ExpiresAt := o_ExpiresAt o;
     o_PaidAt := paid; o_CompletedAt := completed; o_FailedAt := failed;
     o_Refund := o_Refund o; o_CreatedAt := o_CreatedAt o; o_UpdatedAt := o_UpdatedAt o |}.

Definition set_trade (payAmount : float64) (tradeNo : bytes) (o : Order) : Order :=
  {| o_ID := o_ID o; o_UserID := o_UserID o; o_Amount := o_Amount o; o_PayAmount := payAmount;
     o_BonusAmount := o_BonusAmount o; o_RechargeCode := o_RechargeCode o; o_OutTradeNo := o_OutTradeNo o;
     o_PaymentType := o_PaymentType o; o_PaymentTradeNo := tradeNo; o_OrderType := o_OrderType o;
     o_SubscriptionGroupID := o_SubscriptionGroupID o; o_SubscriptionDays := o_SubscriptionDays o;
     o_ProviderInstanceID := o_ProviderInstanceID o; o_ProviderKey := o_ProviderKey o;
     o_ProviderSnapshot := o_ProviderSnapshot o; o_Status := o_Status o; o_ExpiresAt := o_ExpiresAt o;
     o_PaidAt := o_PaidAt o; o_CompletedAt := o_CompletedAt o; o_FailedAt := o_FailedAt o;
     o_Refund := o_Refund o; o_CreatedAt := o_CreatedAt o; o_UpdatedAt := o_UpdatedAt o |}.

Definition status_is (l : list OrderStatus) (o : Order) : bool := bool_decide (o_Status o ∈ l).

Section service.
Context `{Database} `{Numeric} `{TimeZones} `{UnicodeFold} `{Decimal} (sv : Service).

(** A log entry: a failure to write it is only logged. *)
Definition writeAuditLog (oid : Z) (action : string) (op : bytes) : prg unit :=
  let! _ := write (insert_audit oid action op) in Ret tt.

Definition hasAuditLog (oid : Z) (action : string) : prg bool :=
  let! r := read (has_audit_q oid [action]) in Ret match r with Ok b => b | Err _ => false end.

(** ** The fulfilment lease *)

Definition truncate_us (t : time) : time := t / 1000 * 1000.

(** Who may take the lease: nobody holds it, or its holder was last seen at or
    before [staleBefore]. *)
Definition lease_guard (staleBefore : time) (o : Order) : bool :=
  status_is [OrderStatusPaid; OrderStatusFailed] o
  || (status_is [OrderStatusRecharging] o && (o_UpdatedAt o <=? staleBefore)).

(** [None]: the order is completed already. *)
Definition acquirePaymentFulfillmentLease (oid : Z) : prg (result perror (option time)) :=
  let! t := clock in
  let now := truncate_us t in
  let staleBefore := now - paymentFulfillmentLeaseDuration in
  try updated := lift (write (update_order_at oid (lease_guard staleBefore)
      (λ o, set_times (o_PaidAt o) (o_CompletedAt o) None (set_status OrderStatusRecharging o)) (λ _, now)))
    wrap EWrap "acquire fulfillment lease" in
  if updated =? 0 then
    try current := lift (read (get_order oid)) wrap EWrap "reload fulfillment lease" in
    Ret (if bool_decide (o_Status current = OrderStatusCompleted) then Ok None else Err Conflict)
  else
    try claimed := lift (read (get_order oid)) wrap EWrap "reload acquired fulfillment lease" in
    Ret (if bool_decide (o_Status claimed = OrderStatusRecharging) then Ok (Some (o_UpdatedAt claimed))
         else Err Conflict).

(** The guard of [markCompleted] and [markFailed]: the lease is still ours. *)
Definition holds_lease (version : time) (o : Order) : bool :=
  status_is [OrderStatusRecharging] o && (o_UpdatedAt o =? version).

Definition markCompleted (o : Order) (version : time) (auditAction : string) : prg (result perror unit) :=
  let oid := o_ID o in
  let! now := clock in
  try updated := lift (write (update_order oid (holds_lease version)
      (λ o, set_times (o_PaidAt o) (Some now) (o_FailedAt o) (set_status OrderStatusCompleted o))))
    wrap EWrap "mark completed" in
  if updated =? 0 then
    let! current := read (get_order oid) in
    Ret match current with
        | Ok c => if bool_decide (o_Status c = OrderStatusCompleted) then Ok tt else Err Conflict
        | Err _ => Err Conflict
        end
  else
    let! had := hasAuditLog oid auditAction in
    if had then Ret (Ok tt)
    else
      let! _ := writeAuditLog oid auditAction (lit "system") in
      let! _ := write (send_notification oid auditAction) in
      Ret (Ok tt).

Definition markFailed (oid : Z) (version : time) : prg unit :=
  let! now := clock in
  let! c := write (update_order oid (holds_lease version)
      (λ o, set_times (o_PaidAt o) (o_CompletedAt o) (Some now) (set_status OrderStatusFailed o))) in
  match c with
  | Ok n => if 0 <? n then writeAuditLog oid "FULFILLMENT_FAILED" (lit "system") else Ret tt
  | Err _ => Ret tt
  end.

(** ** Rebate *)

Definition rebate_failed (oid : Z) (e : perror) : prg (result perror unit) :=
  let! _ := writeAuditLog oid "AFFILIATE_REBATE_FAILED" (lit "system") in Ret (Err e).

(** The claim is an INSERT ... WHERE NOT EXISTS ... ON CONFLICT DO NOTHING: the
    existence test reads the entries committed so far, the conflict is decided
    against the entry another transaction has committed by then. *)
Definition applyAffiliateRebateForOrder (o : Order) : prg (result perror unit) :=
  let oid := o_ID o in
  let baseAmount := affiliateRebateBaseAmount o in
  if Float.le baseAmount Float.zero then Ret (Ok tt)
  else if negb (sv_affiliate sv) then Ret (Ok tt)
  else
    let! r := read (has_audit_q oid [REBATE_APPLIED; REBATE_SKIPPED]) in
    match r with
    | Err e => rebate_failed oid (EWrap "claim affiliate rebate audit" (EDB e))
    | Ok true => Ret (Ok tt)
    | Ok false =>
        let! a := AccrueInviteRebateForOrder true (DueOrder oid) (o_UserID o) baseAmount in
        match a with
        | Err e => rebate_failed oid (EWrap "accrue affiliate rebate" e)
        | Ok (rebateAmount, ws) =>
            let! w := write (transaction (SClaimRebate oid :: ws ++
                        (if Float.le rebateAmount Float.zero then [SSkipRebate oid] else []))) in
            match w with
            | Ok _ => Ret (Ok tt)
            | Err NotClaimed => Ret (Ok tt)
            | Err e => rebate_failed oid (EWrap "affiliate rebate tx" (EDB e))
            end
        end
    end.

(** ** Balance orders *)

Inductive redeemAction := redeemActionCreate | redeemActionRedeem | redeemActionSkipCompleted.

Definition resolveRedeemAction (lookup : result perror RedeemCode) : result perror redeemAction :=
  match lookup with
  | Err e => if errors_is ErrRedeemCodeNotFound e then Ok redeemActionCreate
             else Err (EWrap "lookup payment redeem code" e)
  | Ok existing => Ok (if IsUsed existing then redeemActionSkipCompleted else redeemActionRedeem)
  end.

(** The code found must be the order's: [None] for no error. *)
Definition validatePaymentRedeemCode (o : Order) (code : RedeemCode) : option perror :=
  if negb (bool_decide (rc_Code code = o_RechargeCode o)) then Some (EMsg "payment redeem code mismatch")
  else if negb (bool_decide (rc_Type code = RedeemTypeBalance)) then Some (EMsg "payment redeem code type mismatch")
  else if Float.IsNaN (rc_Value code) || Float.IsInf (rc_Value code)
          || Float.lt (Float.decimal 1 8) (Float.Abs (Float.sub (rc_Value code) (o_Amount o)))
  then Some (EMsg "payment redeem code amount mismatch")
  else if bool_decide (rc_Status code = StatusUnused) then
    if bool_decide (rc_UsedBy code = None) then None else Some (EMsg "unused payment redeem code has a user")
  else if bool_decide (rc_Status code = StatusUsed) then
    if bool_decide (rc_UsedBy code = Some (o_UserID o)) then None else Some (EMsg "payment redeem code user mismatch")
  else Some (EMsg "payment redeem code has invalid status").

(** The redeem code a balance order creates. *)
Definition payment_code (o : Order) : RedeemCode :=
  mkCode 0 (o_RechargeCode o) RedeemTypeBalance (o_Amount o) StatusUnused None None None None 0.

Definition doBalance (o : Order) (version : time) : prg (result perror unit) :=
  let! existing := GetByCode (o_RechargeCode o) in
  match resolveRedeemAction existing with
  | Err e => Ret (Err e)
  | Ok action =>
      match (match existing with Ok c => validatePaymentRedeemCode o c | Err _ => None end) with
      | Some e => Ret (Err e)
      | None =>
          let complete :=
            try _ := applyAffiliateRebateForOrder o wrap id in
            markCompleted o version "RECHARGE_SUCCESS" in
          let redeem_and_complete :=
            try _ := redeemForPaymentFulfillment sv (o_UserID o) (o_RechargeCode o) wrap EWrap "redeem balance" in
            complete in
          match action with
          | redeemActionSkipCompleted => complete
          | redeemActionCreate =>
              try _ := CreateCode (payment_code o) wrap EWrap "create redeem code" in redeem_and_complete
          | redeemActionRedeem => redeem_and_complete
          end
      end
  end.

(** The part the two executions share: take the lease, work, record a failure. *)
Definition with_lease (o : Order) (work : time → prg (result perror unit)) : prg (result perror unit) :=
  try lease := acquirePaymentFulfillmentLease (o_ID o) wrap id in
  match lease with
  | None => Ret (Ok tt)
  | Some version =>
      let! r := work version in
      match r with
      | Ok _ => Ret (Ok tt)
      | Err e => let! _ := markFailed (o_ID o) version in Ret (Err e)
      end
  end.

(** Statuses from which fulfilment may start or resume. *)
Definition fulfillable : list OrderStatus := [OrderStatusPaid; OrderStatusFailed; OrderStatusRecharging].

Definition ExecuteBalanceFulfillment (oid : Z) : prg (result perror unit) :=
  try o := lift (read (get_order oid)) wrap (λ _, EApp 404 "NOT_FOUND") in
  if negb (bool_decide (o_OrderType o = OrderTypeBalance)) then Ret (Err (BadRequest "INVALID_ORDER_TYPE"))
  else if bool_decide (o_Status o = OrderStatusCompleted) then Ret (Ok tt)
  else if psIsRefundStatus (o_Status o) then Ret (Err (BadRequest "INVALID_STATUS"))
  else if negb (status_is fulfillable o) then Ret (Err (BadRequest "INVALID_STATUS"))
  else with_lease o (doBalance o).

(** ** Subscription orders *)

Definition hasPaymentSubscriptionAssignmentAudit (oid : Z) : prg (result dberr bool) :=
  read (has_audit_q oid [SUBSCRIPTION_ASSIGNED; "SUBSCRIPTION_SUCCESS"%string]).

Definition invalidate (o : Order) (gid : Z) : prg (result perror unit) :=
  try _ := lift (ask (QInvalidateSubscription (o_UserID o) gid)) wrap EWrap "invalidate subscription cache" in
  Ret (Ok tt).

(** The writes of the transaction and its claim, in one commit; a claim that was
    made meanwhile by another worker is accepted. *)
Definition commit_assignment (o : Order) (gid : Z) (ws : list stmt) : prg (result perror unit) :=
  let! r := write (transaction (ws ++ [SAssigned (o_ID o) (lit "system")])) in
  match r with
  | Ok _ => invalidate o gid
  | Err UniqueViolation =>
      let! claimed := hasPaymentSubscriptionAssignmentAudit (o_ID o) in
      match claimed with
      | Ok true => invalidate o gid
      | _ => Ret (Err (EWrap "record subscription assignment audit" (EDB UniqueViolation)))
      end
  | Err e => Ret (Err (EWrap "subscription fulfillment tx" (EDB e)))
  end.

Definition ensurePaymentSubscriptionAssigned (o : Order) (gid days : Z) : prg (result perror unit) :=
  try alreadyAssigned := lift (hasPaymentSubscriptionAssignmentAudit (o_ID o))
    wrap EWrap "check subscription assignment audit" in
  if alreadyAssigned then invalidate o gid
  else
    let orderNote := paymentSubscriptionOrderNote (o_ID o) in
    let! existing := read (sub_by_user_group (o_UserID o) gid) in
    let assign :=
      try w := assignOrExtendSubscription (DueOrder (o_ID o)) (o_UserID o) gid days orderNote
        wrap EWrap "assign subscription" in
      commit_assignment o gid [w] in
    match existing with
    | Ok sub => if hasPaymentSubscriptionOrderNote (Subscription.us_Notes sub) orderNote then commit_assignment o gid [] else assign
    | Err NotFound => assign
    | Err e => Ret (Err (EWrap "check existing subscription assignment" (EDB e)))
    end.

Definition doSub (o : Order) (version : time) : prg (result perror unit) :=
  let gid := default 0 (o_SubscriptionGroupID o) in
  let days := default 0 (o_SubscriptionDays o) in
  let! g := read (get_group gid) in
  match g with
  | Ok g =>
      if negb (Subscription.g_IsActive g) then Ret (Err (EMsg "group no longer exists or inactive"))
      else
        try _ := ensurePaymentSubscriptionAssigned o gid days wrap id in
        try _ := applyAffiliateRebateForOrder o wrap id in
        markCompleted o version "SUBSCRIPTION_SUCCESS"
  | Err _ => Ret (Err (EMsg "group no longer exists or inactive"))
  end.

Definition ExecuteSubscriptionFulfillment (oid : Z) : prg (result perror unit) :=
  try o := lift (read (get_order oid)) wrap (λ _, EApp 404 "NOT_FOUND") in
  if bool_decide (o_Status o = OrderStatusCompleted) then Ret (Ok tt)
  else if psIsRefundStatus (o_Status o) then Ret (Err (BadRequest "INVALID_STATUS"))
  else if negb (status_is fulfillable o) then Ret (Err (BadRequest "INVALID_STATUS"))
  else if bool_decide (o_SubscriptionGroupID o = None) || bool_decide (o_SubscriptionDays o = None)
  then Ret (Err (BadRequest "INVALID_STATUS"))
  else with_lease o (doSub o).

(** ** Dispatch by order type *)

Definition rejectUnsupportedOrderType (o : Order) : prg unit :=
  let! now := clock in
  let! c := write (update_order (o_ID o) (status_is [OrderStatusPaid; OrderStatusRecharging])
      (λ o, set_times (o_PaidAt o) (o_CompletedAt o) (Some now) (set_status OrderStatusFailed o))) in
  match c with
  | Ok n => if 0 <? n then writeAuditLog (o_ID o) "FULFILLMENT_FAILED" (lit "system") else Ret tt
  | Err _ => Ret tt
  end.

Definition executeFulfillment (oid : Z) : prg (result perror unit) :=
  try o := lift (read (get_order oid)) wrap EWrap "get order" in
  if bool_decide (o_OrderType o = OrderTypeSubscription) then ExecuteSubscriptionFulfillment oid
  else if bool_decide (o_OrderType o = OrderTypeBalance) then ExecuteBalanceFulfillment oid
  else let! _ := rejectUnsupportedOrderType o in Ret (Ok tt).

(** ** From pending to paid *)

(** The statuses [toPaid] leaves, with the grace of an expired order. *)
Definition payable (grace : time) (o : Order) : bool :=
  status_is [OrderStatusPending; OrderStatusCancelled] o
  || (status_is [OrderStatusExpired] o && (grace <=? o_UpdatedAt o)).

Definition alreadyProcessed (oid : Z) : prg (result perror unit) :=
  let! cur := read (get_order oid) in
  match cur with
  | Err _ => Ret (Ok tt)
  | Ok cur =>
      if status_is [OrderStatusCompleted; OrderStatusRefunded] cur then Ret (Ok tt)
      else if status_is [OrderStatusFailed; OrderStatusPaid; OrderStatusRecharging] cur
      then executeFulfillment oid
      else if status_is [OrderStatusExpired] cur then
        let! _ := writeAuditLog oid "PAYMENT_AFTER_EXPIRY" (lit "system") in Ret (Ok tt)
      else Ret (Ok tt)
  end.

Definition toPaid (o : Order) (tradeNo : bytes) (paid : float64) (pk : bytes) : prg (result perror unit) :=
  let previousStatus := o_Status o in
  let! now := clock in
  let grace := now - paymentGraceMinutes * minute in
  try c := lift (write (update_order (o_ID o) (payable grace)
      (λ o, set_times (Some now) (o_CompletedAt o) None
              (set_trade paid tradeNo (set_status OrderStatusPaid o)))))
    wrap EWrap "update to PAID" in
  if c =? 0 then alreadyProcessed (o_ID o)
  else
    let! _ := (if bool_decide (previousStatus = OrderStatusCancelled)
                  || bool_decide (previousStatus = OrderStatusExpired)
               then writeAuditLog (o_ID o) "ORDER_RECOVERED" pk else Ret tt) in
    let! _ := writeAuditLog (o_ID o) "ORDER_PAID" pk in
    executeFulfillment (o_ID o).

(** [resolveSnapshotOrderProviderInstance], [resolveUniqueLegacyOrderProviderInstance]
    and [getOrderProviderInstance]; [Ok None] for no instance and no error. *)
Definition resolveSnapshotOrderProviderInstance (o : Order) (s : Snapshot)
    : prg (result perror (option ProviderInstance)) :=
  let column := TrimSpace (psStringValue (o_ProviderInstanceID o)) in
  let sid := if bool_decide (TrimSpace (ProviderInstanceID s) = []) then column
             else TrimSpace (ProviderInstanceID s) in
  if bool_decide (sid = []) then Ret (Err (EMsg "provider snapshot is missing provider_instance_id"))
  else if negb (bool_decide (column = [])) && negb (bool_decide (ProviderInstanceID s = []))
          && negb (EqualFold column (ProviderInstanceID s))
  then Ret (Err (EMsg "provider snapshot instance mismatch"))
  else match Atoi sid with
  | None => Ret (Err (EMsg "provider snapshot instance id is invalid"))
  | Some id =>
      try i := lift (read (instance_by_id id)) wrap EWrap "provider snapshot instance" in
      Ret (if negb (bool_decide (ProviderKey s = []))
              && negb (EqualFold (TrimSpace (pi_ProviderKey i)) (ProviderKey s))
           then Err (EMsg "provider snapshot key mismatch") else Ok (Some i))
  end.

Definition unique_match (paymentType : bytes) (l : list ProviderInstance) : option ProviderInstance :=
  match psFilterLegacyOrderProviderInstances paymentType l with [i] => Some i | _ => None end.

Definition resolveUniqueLegacyOrderProviderInstance (o : Order)
    : prg (result perror (option ProviderInstance)) :=
  let paymentType := GetBasePaymentType (TrimSpace (o_PaymentType o)) in
  let providerKey := TrimSpace (psStringValue (o_ProviderKey o)) in
  if negb (bool_decide (providerKey = [])) then
    try l := lift (read (instances_by_key providerKey)) wrap id in Ret (Ok (unique_match paymentType l))
  else if bool_decide (paymentType = []) then Ret (Ok None)
  else try l := lift (read all_instances) wrap id in Ret (Ok (unique_match paymentType l)).

Definition getOrderProviderInstance (o : Order) : prg (result perror (option ProviderInstance)) :=
  match psOrderProviderSnapshot o with
  | Some s => resolveSnapshotOrderProviderInstance o s
  | None =>
      let column := TrimSpace (psStringValue (o_ProviderInstanceID o)) in
      if bool_decide (column = []) then resolveUniqueLegacyOrderProviderInstance o
      else match Atoi column with
           | None => Ret (Ok None)
           | Some id => try i := lift (read (instance_by_id id)) wrap (λ e, e) in Ret (Ok (Some i))
           end
  end.

(** The key of the instance found; empty when there is none. *)
Definition instance_key (inst : result perror (option ProviderInstance)) : bytes :=
  match inst with Ok (Some i) => pi_ProviderKey i | _ => [] end.

Definition confirmPayment (oid : Z) (tradeNo : bytes) (paid : float64) (pk : bytes) (m : gmap bytes bytes)
    : prg (result perror unit) :=
  let! o := read (get_order oid) in
  match o with
  | Err _ => Ret (Ok tt)
  | Ok o =>
      let! inst := getOrderProviderInstance o in
      let expected := expectedNotificationProviderKeyForOrder (sv_registry sv) o (instance_key inst) in
      let reject (action : string) (e : string) : prg (result perror unit) :=
        let! _ := writeAuditLog (o_ID o) action pk in Ret (Err (EMsg e)) in
      if provider_mismatch expected pk then reject "PAYMENT_PROVIDER_MISMATCH" "provider mismatch"
      else if negb (validateProviderSnapshotMetadata o pk m)
      then reject "PAYMENT_PROVIDER_METADATA_MISMATCH" "provider metadata mismatch"
      else if negb (isValidProviderAmount paid) then reject "PAYMENT_INVALID_AMOUNT" "invalid paid amount from provider"
      else if amount_mismatch o paid then reject "PAYMENT_AMOUNT_MISMATCH" "amount mismatch"
      else toPaid o tradeNo paid pk
  end.

Definition HandlePaymentNotification (n : PaymentNotification) (pk : bytes) : prg (result perror unit) :=
  if negb (n_Success n) then Ret (Ok tt)
  else
    let! order := read (order_by_out_trade_no (n_OrderID n)) in
    match order with
    | Ok o => confirmPayment (o_ID o) (n_TradeNo n) (n_Amount n) pk (n_Metadata n)
    | Err e =>
        match parseLegacyPaymentOrderID (n_OrderID n) (bool_decide (e = NotFound)) with
        | Some oid => confirmPayment oid (n_TradeNo n) (n_Amount n) pk (n_Metadata n)
        | None => Ret (Err (if bool_decide (e = NotFound) then EWrap "out_trade_no" ErrOrderNotFound
                            else EWrap "lookup order failed" (EDB e)))
        end
    end.

Definition RetryFulfillment (oid : Z) : prg (result perror unit) :=
  try o := lift (read (get_order oid)) wrap (λ _, EApp 404 "NOT_FOUND") in
  if bool_decide (o_PaidAt o = None) then Ret (Err (BadRequest "INVALID_STATUS"))
  else if psIsRefundStatus (o_Status o) then Ret (Err (BadRequest "INVALID_STATUS"))
  else if bool_decide (o_Status o = OrderStatusCompleted) then Ret (Err (BadRequest "INVALID_STATUS"))
  else if negb (status_is fulfillable o) then Ret (Err (BadRequest "INVALID_STATUS"))
  else if negb (isSupportedPaymentOrderType (o_OrderType o)) then Ret (Err (BadRequest "INVALID_ORDER_TYPE"))
  else
    let! _ := writeAuditLog oid "RECHARGE_RETRY" (lit "admin") in
    executeFulfillment oid.

(** ** Asking the provider; cancelling and expiring *)

(** [getOrderProvider]: the provider's key, when it can be built. *)
Definition getOrderProvider (o : Order) : prg (option bytes) :=
  let! inst := getOrderProviderInstance o in
  match inst with
  | Err _ => Ret None
  | Ok (Some i) => ask (QProvider i)
  | Ok None =>
      if negb (paymentOrderAllowsRegistryFallback o) then Ret None
      else
        let providerKey := paymentOrderFallbackProviderKey (sv_registry sv) o in
        if bool_decide (providerKey = []) then Ret None
        else
          let! c := read (count_enabled_instances (TrimSpace providerKey)) in
          match c with
          | Ok n => if n <=? 1 then ask (QRegistryProvider (o_PaymentType o)) else Ret None
          | Err _ => Ret None
          end
  end.

Definition requeryPaidOrderOnce (prov ref : bytes) : prg (option QueryOrderResponse) :=
  if bool_decide (TrimSpace ref = []) then Ret None
  else
    let! r := ask (QQueryOrder prov ref) in
    Ret match r with
        | Some resp => if q_Paid resp && isValidProviderAmount (q_Amount resp) then Some resp else None
        | None => None
        end.

(** [checkPaidWithOptions]: [true] for "already_paid". *)
Definition checkPaidWithOptions (o : Order) (cancelIfUnpaid : bool) : prg bool :=
  let! prov := getOrderProvider o in
  match prov with
  | None => Ret false
  | Some prov =>
      let queryRef := paymentOrderQueryReference o prov in
      if bool_decide (queryRef = []) then Ret false
      else
        let! resp := ask (QQueryOrder prov queryRef) in
        match resp with
        | None => Ret false
        | Some resp =>
            if q_Paid resp then
              let! valid := (if isValidProviderAmount (q_Amount resp) then Ret (Some resp)
                             else
                               let! _ := writeAuditLog (o_ID o) "PAYMENT_INVALID_AMOUNT" prov in
                               requeryPaidOrderOnce prov queryRef) in
              match valid with
              | None => Ret false
              | Some resp =>
                  let upstream := TrimSpace (q_TradeNo resp) in
                  let! tradeNo :=
                    (if paymentOrderShouldPersistUpstreamTradeNo queryRef upstream (o_PaymentTradeNo o) then
                       let! _ := write (update_order (o_ID o) (λ _, true)
                                          (λ o, set_trade (o_PayAmount o) upstream o)) in
                       Ret upstream
                     else Ret (o_PaymentTradeNo o)) in
                  let! _ := HandlePaymentNotification
                              (mkNotification tradeNo (o_OutTradeNo o) (q_Amount resp) true (q_Metadata resp)) prov in
                  Ret true
              end
            else
              let! _ := (if cancelIfUnpaid then ask (QCancelPayment prov queryRef) else Ret tt) in
              Ret false
        end
  end.

Inductive cancel_outcome := AlreadyPaid | Cancelled.
#[export] Instance cancel_outcome_eq_dec : EqDecision cancel_outcome.
Proof. solve_decision. Defined.

Definition cancelCore (o : Order) (fs : OrderStatus) (op : bytes) : prg (result perror cancel_outcome) :=
  let! paid := (if negb (bool_decide (o_PaymentTradeNo o = [])) || negb (bool_decide (o_PaymentType o = []))
                then checkPaidWithOptions o true else Ret false) in
  if paid then Ret (Ok AlreadyPaid)
  else
    try c := lift (write (update_order (o_ID o) (status_is [OrderStatusPending]) (set_status fs)))
      wrap EWrap "update order status" in
    let! _ := (if 0 <? c then
                 writeAuditLog (o_ID o) (if bool_decide (fs = OrderStatusExpired) then "ORDER_EXPIRED"
                                         else "ORDER_CANCELLED") op
               else Ret tt) in
    Ret (Ok Cancelled).

Definition CancelOrder (oid uid : Z) : prg (result perror cancel_outcome) :=
  try o := lift (read (get_order oid)) wrap (λ _, EApp 404 "NOT_FOUND") in
  if negb (o_UserID o =? uid) then Ret (Err (EApp 403 "FORBIDDEN"))
  else if negb (status_is [OrderStatusPending] o) then Ret (Err (BadRequest "INVALID_STATUS"))
  else cancelCore o OrderStatusCancelled (lit "user:" ++ FormatInt uid).

Definition AdminCancelOrder (oid : Z) : prg (result perror cancel_outcome) :=
  try o := lift (read (get_order oid)) wrap (λ _, EApp 404 "NOT_FOUND") in
  if negb (status_is [OrderStatusPending] o) then Ret (Err (BadRequest "INVALID_STATUS"))
  else cancelCore o OrderStatusCancelled (lit "admin").

Definition expired_pending (now : time) (s : Store) : result dberr (list Order) :=
  Ok (filter (λ o, o_Status o = OrderStatusPending ∧ o_ExpiresAt o ≤ now) (rows (st_orders s))).

(** The number of orders expired. *)
Definition ExpireTimedOutOrders : prg (result perror Z) :=
  let! now := clock in
  try orders := lift (read (expired_pending now)) wrap EWrap "query expired" in
  let! n := for_each orders 0 (λ n o,
    let! outcome := cancelCore o OrderStatusExpired (lit "system") in
    Ret match outcome with Ok Cancelled => n + 1 | _ => n end) in
  Ret (Ok n).

Definition VerifyOrderByOutTradeNo (raw : bytes) (uid : Z) : prg (result perror Order) :=
  match normalizeOrderLookupOutTradeNo raw with
  | None => Ret (Err (BadRequest "INVALID_OUT_TRADE_NO"))
  | Some no =>
      try o := lift (read (order_by_out_trade_no no)) wrap (λ _, EApp 404 "NOT_FOUND") in
      if negb (o_UserID o =? uid) then Ret (Err (EApp 403 "FORBIDDEN"))
      else if status_is [OrderStatusPending; OrderStatusExpired] o then
        let! paid := checkPaidWithOptions o false in
        if paid then try o := lift (read (get_order (o_ID o))) wrap EWrap "reload order" in Ret (Ok o)
        else Ret (Ok o)
      else Ret (Ok o)
  end.

Definition pendingPaymentReconcileLimit : nat := 20.

(** The oldest unexpired pending orders of Alipay and WeChat. *)
Definition created_before (a b : Order) : Prop := o_CreatedAt a ≤ o_CreatedAt b.
#[local] Instance created_before_dec : RelDecision created_before := λ a b, Z_le_dec _ _.

Definition is_direct_channel (t : bytes) : bool :=
  bool_decide (t = TypeWxpay) || HasPrefix t (TypeWxpay ++ lit "_")
  || bool_decide (t = TypeAlipay) || HasPrefix t (TypeAlipay ++ lit "_").

Definition reconcilable (now : time) (s : Store) : result dberr (list Order) :=
  Ok (take pendingPaymentReconcileLimit (merge_sort created_before
    (filter (λ o, o_Status o = OrderStatusPending ∧ now < o_ExpiresAt o ∧
                  (is_direct_channel (o_PaymentType o)
                   || match o_ProviderKey o with Some k => is_direct_channel k | None => false end) = true)
            (rows (st_orders s))))).

Definition ReconcilePendingPaymentOrders : prg (result perror Z) :=
  let! now := clock in
  try orders := lift (read (reconcilable now)) wrap EWrap "query pending payment orders" in
  let! n := for_each orders 0 (λ n o,
    let! paid := checkPaidWithOptions o false in Ret (if paid then n + 1 else n)) in
  Ret (Ok n).

End service.

End Payment.
