(* ===== verification/Refund.v ===== *)
(** * Refunds: asked for by a user, carried out by an administrator

    Models [service/payment_refund.go] with the refund arithmetic of
    [service/payment_amounts.go]: an attempt claims the order (status REFUNDING),
    takes the amount from the user's balance or the days from a subscription, asks the
    provider, and marks the order refunded, waits for the provider (REFUND_PENDING,
    what was taken is held), or gives back what was taken.  A pending refund is
    concluded by [QueryAndFinalizeRefund].  Cache invalidations and the texts of
    warnings are left out. *)

From Stdlib Require Import QArith.
From S2P Require Import Prelude Float64 GoStrings PaymentOrder Subscription Database Interleaving PaymentStore Redeem Payment.

(** The decimal library: [NewFromFloat(x).Round(n)], [x * y / z] rounded to [n]
    digits, and [StringFixed(n)]. *)
Class RefundDecimal := {
  decimal_round : float64 → Z → float64;
  decimal_share : float64 → float64 → float64 → Z → float64;
  decimal_fixed : float64 → Z → bytes
}.

Module Refund.
Import GoStrings PaymentOrder PaymentStore Redeem Payment.

Record RefundPlan := mkPlan {
  rp_OrderID : Z;
  rp_Order : Order;
  rp_RefundAmount : float64;
  rp_GatewayAmount : float64;
  rp_Reason : bytes;
  rp_Force : bool;
  rp_DeductBalance : bool;
  rp_DeductionType : DeductionType;
  rp_BalanceToDeduct : float64;
  rp_SubDaysToDeduct : Z;
  rp_SubscriptionID : Z;
  rp_deductionHeld : bool
}.

Record RefundResult := mkRefundResult {
  rs_Success : bool;
  rs_RequireForce : bool;
  rs_BalanceDeducted : float64;
  rs_SubDaysDeducted : Z
}.

Definition unsuccessful : RefundResult := mkRefundResult false false Float.zero 0.
Definition require_force : RefundResult := mkRefundResult false true Float.zero 0.
Definition successful (p : RefundPlan) : RefundResult :=
  mkRefundResult true false (rp_BalanceToDeduct p) (rp_SubDaysToDeduct p).

Definition plan_deduction (t : DeductionType) (balance : float64) (days sub : Z) (held : bool) (p : RefundPlan) : RefundPlan :=
  mkPlan (rp_OrderID p) (rp_Order p) (rp_RefundAmount p) (rp_GatewayAmount p) (rp_Reason p) (rp_Force p)
    (rp_DeductBalance p) t balance days sub held.
Definition plan_balance (x : float64) (p : RefundPlan) : RefundPlan :=
  plan_deduction (rp_DeductionType p) x (rp_SubDaysToDeduct p) (rp_SubscriptionID p) (rp_deductionHeld p) p.
Definition plan_days (n : Z) (p : RefundPlan) : RefundPlan :=
  plan_deduction (rp_DeductionType p) (rp_BalanceToDeduct p) n (rp_SubscriptionID p) (rp_deductionHeld p) p.

(** What a plan takes, and gives back. *)
Definition takes_balance (p : RefundPlan) : bool :=
  bool_decide (rp_DeductionType p = DeductionTypeBalance) && Float.lt Float.zero (rp_BalanceToDeduct p).
Definition takes_days (p : RefundPlan) : bool :=
  bool_decide (rp_DeductionType p = DeductionTypeSubscription) && (0 <? rp_SubDaysToDeduct p) && (0 <? rp_SubscriptionID p).

Definition Forbidden (r : string) : perror := EApp 403 r.
Definition ErrAdjustWouldExpire : perror := EApp 400 "ADJUST_WOULD_EXPIRE".
Definition extend_error (e : dberr) : perror :=
  match e with
  | NotFound => ErrSubscriptionNotFound
  | Refused Subscription.AdjustWouldExpire => ErrAdjustWouldExpire
  | Refused Subscription.CannotShortenExpired => EApp 400 "CANNOT_SHORTEN_EXPIRED"
  | e => EDB e
  end.

Definition REFUND_PENDING : string := "REFUND_PENDING".
Definition REFUND_FAILED : string := "REFUND_FAILED".
Definition REFUND_SUCCESS : string := "REFUND_SUCCESS".
Definition REFUND_ROLLBACK_FAILED : string := "REFUND_ROLLBACK_FAILED".

(** ** Changes of an order *)

Definition set_refund (r : RefundColumns) (o : Order) : Order :=
  {| o_ID := o_ID o; o_UserID := o_UserID o; o_Amount := o_Amount o; o_PayAmount := o_PayAmount o;
     o_BonusAmount := o_BonusAmount o; o_RechargeCode := o_RechargeCode o; o_OutTradeNo := o_OutTradeNo o;
     o_PaymentType := o_PaymentType o; o_PaymentTradeNo := o_PaymentTradeNo o; o_OrderType := o_OrderType o;
     o_SubscriptionGroupID := o_SubscriptionGroupID o; o_SubscriptionDays := o_SubscriptionDays o;
     o_ProviderInstanceID := o_ProviderInstanceID o; o_ProviderKey := o_ProviderKey o;
     o_ProviderSnapshot := o_ProviderSnapshot o; o_Status := o_Status o; o_ExpiresAt := o_ExpiresAt o;
     o_PaidAt := o_PaidAt o; o_CompletedAt := o_CompletedAt o; o_FailedAt := o_FailedAt o; o_Refund := r;
     o_CreatedAt := o_CreatedAt o; o_UpdatedAt := o_UpdatedAt o |}.

(** The user's request; what a conclusion sets. *)
Definition requested (amount : float64) (now : time) (reason by_ : bytes) (o : Order) : Order :=
  let r := o_Refund o in
  set_refund (mkRefund amount (RefundReason r) (RefundAt r) (ForceRefund r) (Some now) (Some reason) (Some by_))
    (set_status OrderStatusRefundRequested o).

Definition concluded (amount : float64) (reason : bytes) (at_ : option time) (force : bool) (o : Order) : Order :=
  let r := o_Refund o in
  set_refund (mkRefund amount (Some reason) at_ force (RefundRequestedAt r) (RefundRequestReason r) (RefundRequestedBy r)) o.

Definition failed_at (now : time) (o : Order) : Order :=
  set_times (o_PaidAt o) (o_CompletedAt o) (Some now) (set_status OrderStatusRefundFailed o).

Definition refund_final_status (p : RefundPlan) : OrderStatus :=
  if Float.lt (rp_RefundAmount p) (o_Amount (rp_Order p)) then OrderStatusPartiallyRefunded else OrderStatusRefunded.
Definition refunded (p : RefundPlan) (now : time) (o : Order) : Order :=
  concluded (rp_RefundAmount p) (rp_Reason p) (Some now) (rp_Force p) (set_status (refund_final_status p) o).
Definition pending (p : RefundPlan) (o : Order) : Order :=
  concluded (rp_RefundAmount p) (rp_Reason p) None (rp_Force p)
    (set_times (o_PaidAt o) (o_CompletedAt o) None (set_status OrderStatusRefundPending o)).

(** ** Statements *)

Section service.
Context `{Database} `{Numeric} `{TimeZones} `{UnicodeFold} `{RefundDecimal}.

Definition get_balance (uid : Z) (s : Store) : result dberr float64 :=
  if bool_decide (uid ∈ st_users s) then Ok (column (balance_of uid (st_balances s))) else Err UserNotFound.

Definition sub_by_id (id : Z) (s : Store) : result dberr Subscription.UserSubscription := found (st_subs s !! id).

(** The claim of an attempt, with its entry in the journal. *)
Definition refundable : list OrderStatus :=
  [OrderStatusCompleted; OrderStatusRefundRequested; OrderStatusRefundFailed].
Definition claim_refund (p : RefundPlan) (s : Store) : result dberr Z * Store :=
  let '(r, s') := update_order (rp_OrderID p) (status_is refundable) (set_status OrderStatusRefunding) s in
  (r, match r with
      | Ok 1 => with_refund (Claimed (rp_OrderID p) (rp_RefundAmount p) (o_PaymentTradeNo (rp_Order p))) s'
      | _ => s'
      end).

(** The update of a row by its identifier fails when there is none. *)
Definition update_one (oid : Z) (set : Order → Order) (s : Store) : result dberr unit * Store :=
  let '(r, s') := update_order oid (λ _, true) set s in
  (match r with Ok n => if 0 <? n then Ok tt else Err NotFound | Err e => Err e end, s').

(** [DeductAvailableBalance]: what there is, up to [x]. *)
Definition deduct_available (oid uid : Z) (x : float64) (s : Store) : result dberr float64 * Store :=
  if Float.lt x Float.zero then (Err Lost, s)
  else if negb (bool_decide (uid ∈ st_users s)) then (Err UserNotFound, s)
  else
    let b := balance_of uid (st_balances s) in
    let available := inject_Z (Z.max b 0) in
    let taken := if Qle_bool (numeric x) available then numeric x else available in
    let b' := round_scale (inject_Z b - taken) in
    (Ok (column (b - b')),
     with_refund (Deducted oid (Money uid (b - b'))) (with_balances (insert uid b') s)).

(** [UpdateBalance], giving back a deduction. *)
Definition return_balance (oid uid : Z) (x : float64) (s : Store) : result dberr unit * Store :=
  if negb (bool_decide (uid ∈ st_users s)) then (Err UserNotFound, s)
  else
    let b := balance_of uid (st_balances s) in
    let b' := round_scale (inject_Z b + numeric x) in
    (Ok tt, with_refund (Returned oid (Money uid (b' - b))) (with_balances (insert uid b') s)).

(** The transaction of [ExtendSubscription], for the refund entry [ev]. *)
Definition extend_subscription (ev : refund_event) (id days : Z) (s : Store) : result dberr unit * Store :=
  match st_subs s !! id with
  | None => (Err NotFound, s)
  | Some r =>
      match Subscription.ExtendSubscription r days (st_now s) with
      | Err e => (Err (Refused e), s)
      | Ok r' => (Ok tt, with_refund ev (with_subs (insert id r') (st_next_sub s) s))
      end
  end.

Definition delete_subscription (oid id : Z) (s : Store) : result dberr unit * Store :=
  (Ok tt, with_refund (Deducted oid (Revoked id)) (with_subs (delete id) (st_next_sub s) s)).

(** The newest REFUND_PENDING entry of the order. *)
Definition latest_pending (oid : Z) (s : Store) : result dberr (option AuditDetail) :=
  Ok (head (au_Detail <$> filter (λ a, au_OrderID a = oid ∧ au_Action a = REFUND_PENDING) (st_audits s))).

(** The row [o] in a transaction of the order, with the audit entry [action]. *)
Definition with_entry (oid : Z) (action : string) (d : AuditDetail) (s : Store) : result dberr Store :=
  if has_audit oid [action] s then Err UniqueViolation
  else Ok (with_audits (cons (mkAudit oid action (lit "admin") (st_now s) d)) s).

Definition set_row (oid : Z) (o : Order) (s : Store) : Store :=
  with_orders (insert oid (touch (st_now s) o)) s.

Definition commit {A} (s : Store) (r : result dberr (A * Store)) : result dberr A * Store :=
  match r with Ok (a, s') => (Ok a, s') | Err e => (Err e, s) end.

(** The transaction of [markRefundPending]. *)
Definition mark_pending (p : RefundPlan) (d : refundPendingAuditDetail) (s : Store) : result dberr unit * Store :=
  commit s match st_orders s !! rp_OrderID p with
  | None => Err NotFound
  | Some o =>
      match with_entry (rp_OrderID p) REFUND_PENDING (DPending d) s with
      | Ok s1 => Ok (tt, set_row (rp_OrderID p) (pending p o) s1)
      | Err e => Err e
      end
  end.

(** [applyRefundFinalDeduction], in the transaction of its caller. *)
Definition apply_final_balance (p : RefundPlan) (s : Store) : result dberr RefundPlan * Store :=
  if negb (takes_balance p) then (Ok p, s)
  else
    let '(r, s') := deduct_available (rp_OrderID p) (o_UserID (rp_Order p)) (rp_BalanceToDeduct p) s in
    (match r with Ok x => Ok (plan_balance x p) | Err e => Err e end, s').

Definition apply_final_days (p : RefundPlan) (s : Store) : result dberr RefundPlan * Store :=
  if negb (takes_days p) then (Ok p, s)
  else
    let ev := Deducted (rp_OrderID p) (Days (rp_SubscriptionID p) (rp_SubDaysToDeduct p)) in
    let '(r, s') := extend_subscription ev (rp_SubscriptionID p) (- rp_SubDaysToDeduct p) s in
    match r with
    | Ok _ => (Ok p, s')
    | Err (Refused Subscription.AdjustWouldExpire) =>
        let '(r, s') := delete_subscription (rp_OrderID p) (rp_SubscriptionID p) s in
        (match r with Ok _ => Ok p | Err e => Err e end, s')
    | Err e => (Err e, s)
    end.

Definition applyRefundFinalDeduction (p : RefundPlan) (s : Store) : result dberr RefundPlan * Store :=
  if rp_deductionHeld p then (Ok p, s)
  else
    match apply_final_balance p s with
    | (Ok p, s) => apply_final_days p s
    | (Err e, s) => (Err e, s)
    end.

(** The transaction of [finalizePendingRefundSuccess]. *)
Definition finalize_success (p : RefundPlan) (now : time) (s : Store) : result dberr RefundPlan * Store :=
  commit s match st_orders s !! rp_OrderID p with
  | None => Err NotClaimed
  | Some o =>
      if negb (status_is [OrderStatusRefundPending] o) then Err NotClaimed
      else
        match applyRefundFinalDeduction p s with
        | (Err e, _) => Err e
        | (Ok p, s1) =>
            match with_entry (rp_OrderID p) REFUND_SUCCESS DText s1 with
            | Ok s2 => Ok (p, set_row (rp_OrderID p) (refunded p now o) s2)
            | Err e => Err e
            end
        end
  end.

(** [returnHeldRefundDeduction], in the transaction of its caller. *)
Definition returnHeldRefundDeduction (p : RefundPlan) (s : Store) : result dberr unit * Store :=
  let '(r, s1) := if takes_balance p
                  then return_balance (rp_OrderID p) (o_UserID (rp_Order p)) (rp_BalanceToDeduct p) s
                  else (Ok tt, s) in
  match r with
  | Err e => (Err e, s)
  | Ok _ =>
      if takes_days p
      then extend_subscription (Returned (rp_OrderID p) (Days (rp_SubscriptionID p) (rp_SubDaysToDeduct p)))
             (rp_SubscriptionID p) (rp_SubDaysToDeduct p) s1
      else (Ok tt, s1)
  end.

(** The transaction of [finalizeRefundFailedTx]: [Ok false] when what was held could
    not be given back and everything was rolled back; [returns] is false when that
    failed for a reason outside the model. *)
Definition finalize_failed (p : RefundPlan) (now : time) (returns : bool) (s : Store) : result dberr bool * Store :=
  commit s match st_orders s !! rp_OrderID p with
  | None => Err NotClaimed
  | Some o =>
      if negb (status_is [OrderStatusRefundPending] o) then Err NotClaimed
      else
        let '(r, s1) := if negb (rp_deductionHeld p) then (Ok tt, s)
                        else if returns then returnHeldRefundDeduction p s else (Err Lost, s) in
        match r with
        | Err _ => Ok (false, s)
        | Ok _ =>
            match with_entry (rp_OrderID p) REFUND_FAILED DText s1 with
            | Ok s2 => Ok (true, set_row (rp_OrderID p) (failed_at now o) s2)
            | Err e => Err e
            end
        end
  end.

(** The same after such a failure: the entry REFUND_ROLLBACK_FAILED instead. *)
Definition finalize_unreturned (p : RefundPlan) (now : time) (s : Store) : result dberr unit * Store :=
  commit s match st_orders s !! rp_OrderID p with
  | None => Err NotClaimed
  | Some o =>
      if negb (status_is [OrderStatusRefundPending] o) then Err NotClaimed
      else
        match with_entry (rp_OrderID p) REFUND_ROLLBACK_FAILED DText s with
        | Err e => Err e
        | Ok s1 =>
            match with_entry (rp_OrderID p) REFUND_FAILED DText s1 with
            | Ok s2 => Ok (tt, set_row (rp_OrderID p) (failed_at now o) s2)
            | Err e => Err e
            end
        end
  end.

(** ** The provider instance of an order *)

(** An explicit binding is needed: legacy orders are not guessed at. *)
Definition getRefundOrderProviderInstance (o : Order) : prg (result perror (option ProviderInstance)) :=
  match psOrderProviderSnapshot o with
  | Some s => resolveSnapshotOrderProviderInstance o s
  | None =>
      let column := TrimSpace (psStringValue (o_ProviderInstanceID o)) in
      if bool_decide (column = []) then Ret (Ok None)
      else match Atoi column with
           | None => Ret (Err (EMsg "refund provider instance id is invalid"))
           | Some id =>
               try i := lift (read (instance_by_id id)) wrap EWrap "refund provider instance" in Ret (Ok (Some i))
           end
  end.

Definition getRefundProvider (o : Order) : prg (result perror bytes) :=
  try inst := getRefundOrderProviderInstance o wrap id in
  match inst with
  | None => Ret (Err (EMsg "refund provider instance is unavailable"))
  | Some i =>
      let! k := ask (QProvider i) in
      Ret match k with Some k => Ok k | None => Err (EMsg "create provider") end
  end.

(** ** The user's request *)

Definition validateRefundRequest (oid uid : Z) : prg (result perror Order) :=
  try o := lift (read (get_order oid)) wrap (λ _, EApp 404 "NOT_FOUND") in
  if negb (o_UserID o =? uid) then Ret (Err (Forbidden "FORBIDDEN"))
  else if negb (bool_decide (o_OrderType o = OrderTypeBalance)) then Ret (Err (BadRequest "INVALID_ORDER_TYPE"))
  else if negb (status_is [OrderStatusCompleted] o) then Ret (Err (BadRequest "INVALID_STATUS"))
  else
    let! inst := getRefundOrderProviderInstance o in
    match inst with
    | Ok (Some i) => Ret (if pi_AllowUserRefund i then Ok o else Err (Forbidden "USER_REFUND_DISABLED"))
    | _ => Ret (Err (Forbidden "USER_REFUND_DISABLED"))
    end.

Definition RequestRefund (oid uid : Z) (reason : bytes) : prg (result perror unit) :=
  try o := validateRefundRequest oid uid wrap id in
  try balance := lift (read (get_balance (o_UserID o))) wrap EWrap "get user" in
  if Float.lt balance (o_Amount o) then Ret (Err (BadRequest "BALANCE_NOT_ENOUGH"))
  else
    let! now := clock in
    try c := lift (write (update_order oid
        (λ x, (o_UserID x =? uid) && status_is [OrderStatusCompleted] x
              && bool_decide (o_OrderType x = OrderTypeBalance))
        (requested (o_Amount o) now (TrimSpace reason) (FormatInt uid))))
      wrap EWrap "update" in
    if c =? 0 then Ret (Err Conflict)
    else let! _ := writeAuditLog oid "REFUND_REQUESTED" (lit "user:" ++ FormatInt uid) in Ret (Ok tt).

(** ** The plan *)

Definition CurrencyMaxFractionDigits (currency : bytes) : Z := maxFractionDigits (paymentCurrencyAmountUnitFor currency).

Definition calculateGatewayRefundAmount (orderAmount payAmount refundAmount : float64) (currency : bytes) : float64 :=
  if Float.le orderAmount Float.zero || Float.le payAmount Float.zero || Float.le refundAmount Float.zero then Float.zero
  else
    let fractionDigits := CurrencyMaxFractionDigits currency in
    if Float.le (Float.Abs (Float.sub refundAmount orderAmount)) (paymentAmountToleranceForCurrency currency)
    then decimal_round payAmount fractionDigits
    else decimal_share payAmount refundAmount orderAmount fractionDigits.

Definition formatGatewayRefundAmount (amount : float64) (o : Order) : bytes :=
  decimal_fixed amount (CurrencyMaxFractionDigits (PaymentOrderCurrency o)).

(** The plan with what is to be deducted; a result when force is needed. *)
Definition prepDeduct (o : Order) (p : RefundPlan) (force : bool) : prg (RefundPlan * option RefundResult) :=
  if bool_decide (o_OrderType o = OrderTypeSubscription) then
    let p := plan_deduction DeductionTypeSubscription (rp_BalanceToDeduct p) (rp_SubDaysToDeduct p) (rp_SubscriptionID p) (rp_deductionHeld p) p in
    match o_SubscriptionGroupID o, o_SubscriptionDays o with
    | Some gid, Some days =>
        let p := plan_days days p in
        let! sub := ask (QActiveSubscription (o_UserID o) gid) in
        Ret match sub with
            | Ok id => (plan_deduction (rp_DeductionType p) (rp_BalanceToDeduct p) days id (rp_deductionHeld p) p, None)
            | Err _ => (p, if force then None else Some require_force)
            end
    | _, _ => Ret (p, None)
    end
  else
    let! balance := read (get_balance (o_UserID o)) in
    Ret match balance with
        | Err _ => (p, if force then None else Some require_force)
        | Ok b =>
            let t := plan_deduction DeductionTypeBalance (rp_BalanceToDeduct p) (rp_SubDaysToDeduct p) (rp_SubscriptionID p) (rp_deductionHeld p) p in
            if Float.lt b (rp_RefundAmount p) && negb force then (t, Some require_force)
            else (plan_balance (Float.Max Float.zero (Float.Min (rp_RefundAmount p) b)) t, None)
        end.

Definition refund_order_text (oid : Z) : bytes := lit "refund order:" ++ FormatInt oid.

Definition PrepareRefund (oid : Z) (amt : float64) (reason : bytes) (force deduct : bool)
    : prg (result perror (RefundPlan + RefundResult)) :=
  try o := lift (read (get_order oid)) wrap (λ _, EApp 404 "NOT_FOUND") in
  if negb (status_is refundable o) then Ret (Err (BadRequest "INVALID_STATUS"))
  else
    let! inst := getRefundOrderProviderInstance o in
    match inst with
    | Err _ => Ret (Err (EApp 500 "PROVIDER_LOOKUP_FAILED"))
    | Ok None => Ret (Err (Forbidden "REFUND_DISABLED"))
    | Ok (Some i) =>
        if negb (pi_RefundEnabled i) then Ret (Err (Forbidden "REFUND_DISABLED"))
        else if Float.IsNaN amt || Float.IsInf amt then Ret (Err (BadRequest "INVALID_AMOUNT"))
        else
          let amt := if Float.le amt Float.zero then o_Amount o else amt in
          let currency := PaymentOrderCurrency o in
          if Float.lt (paymentAmountToleranceForCurrency currency) (Float.sub amt (o_Amount o))
          then Ret (Err (BadRequest "REFUND_AMOUNT_EXCEEDED"))
          else
            let reason := first_nonempty [TrimSpace reason; default [] (RefundRequestReason (o_Refund o))]
                            (refund_order_text (o_ID o)) in
            let p := mkPlan oid o amt (calculateGatewayRefundAmount (o_Amount o) (o_PayAmount o) amt currency)
                       reason force deduct DeductionTypeNone Float.zero 0 0 false in
            if deduct then
              let! r := prepDeduct o p force in
              Ret (Ok match r with (_, Some early) => inr early | (p, None) => inl p end)
            else Ret (Ok (inl p))
    end.

(** ** Taking and giving back *)

(** The subscription service's methods, as refunds call them. *)
Definition ExtendSubscription (ev : refund_event) (id days : Z) : prg (result perror unit) :=
  let! r := write (extend_subscription ev id days) in
  match r with
  | Err e => Ret (Err (extend_error e))
  | Ok _ => try _ := lift (read (sub_by_id id)) wrap (λ e, e) in Ret (Ok tt)
  end.

Definition RevokeSubscription (oid id : Z) : prg (result perror unit) :=
  try sub := lift (read (sub_by_id id)) wrap (λ e, e) in
  try _ := lift (write (delete_subscription oid id)) wrap (λ e, e) in
  try _ := lift (ask (QInvalidateSubscription (Subscription.us_UserID sub) (Subscription.us_GroupID sub)))
    wrap EWrap "invalidate billing subscription cache" in
  Ret (Ok tt).

Definition restored_status (p : RefundPlan) : OrderStatus :=
  if bool_decide (o_Status (rp_Order p) = OrderStatusRefundRequested) then OrderStatusRefundRequested
  else OrderStatusCompleted.
Definition restoreStatus (p : RefundPlan) : prg unit :=
  let! _ := write (update_one (rp_OrderID p) (set_status (restored_status p))) in Ret tt.

(** The two deductions of [ExecuteRefund]: none when an earlier attempt failed to
    give back what it had taken. *)
Definition deduct_balance (p : RefundPlan) : prg (result perror RefundPlan) :=
  if negb (takes_balance p) then Ret (Ok p)
  else
    let! skip := hasAuditLog (rp_OrderID p) REFUND_ROLLBACK_FAILED in
    if skip then Ret (Ok (plan_balance Float.zero p))
    else
      let! r := write (deduct_available (rp_OrderID p) (o_UserID (rp_Order p)) (rp_BalanceToDeduct p)) in
      match r with
      | Ok deducted => Ret (Ok (plan_balance deducted p))
      | Err e => let! _ := restoreStatus p in Ret (Err (EWrap "deduction" (EDB e)))
      end.

Definition deduct_days (p : RefundPlan) : prg (result perror RefundPlan) :=
  if negb (takes_days p) then Ret (Ok p)
  else
    let! skip := hasAuditLog (rp_OrderID p) REFUND_ROLLBACK_FAILED in
    if skip then Ret (Ok (plan_days 0 p))
    else
      let ev := Deducted (rp_OrderID p) (Days (rp_SubscriptionID p) (rp_SubDaysToDeduct p)) in
      let! r := ExtendSubscription ev (rp_SubscriptionID p) (- rp_SubDaysToDeduct p) in
      match r with
      | Ok _ => Ret (Ok p)
      | Err e =>
          if errors_is ErrAdjustWouldExpire e then
            let! r := RevokeSubscription (rp_OrderID p) (rp_SubscriptionID p) in
            match r with
            | Ok _ => Ret (Ok p)
            | Err e => let! _ := restoreStatus p in Ret (Err (EWrap "revoke subscription" e))
            end
          else let! _ := restoreStatus p in Ret (Err (EWrap "deduct subscription days" e))
      end.

(** [true] when nothing has to be given back any more. *)
Definition rollback_balance (p : RefundPlan) : prg bool :=
  if negb (takes_balance p) then Ret true
  else
    let! r := write (return_balance (rp_OrderID p) (o_UserID (rp_Order p)) (rp_BalanceToDeduct p)) in
    match r with
    | Ok _ => Ret true
    | Err _ => let! _ := writeAuditLog (rp_OrderID p) REFUND_ROLLBACK_FAILED (lit "admin") in Ret false
    end.
Definition rollback_days (p : RefundPlan) : prg bool :=
  if negb (takes_days p) then Ret true
  else
    let ev := Returned (rp_OrderID p) (Days (rp_SubscriptionID p) (rp_SubDaysToDeduct p)) in
    let! r := ExtendSubscription ev (rp_SubscriptionID p) (rp_SubDaysToDeduct p) in
    match r with
    | Ok _ => Ret true
    | Err _ => let! _ := writeAuditLog (rp_OrderID p) REFUND_ROLLBACK_FAILED (lit "admin") in Ret false
    end.
Definition RollbackRefund (p : RefundPlan) : prg bool :=
  let! ok := rollback_balance p in
  if ok then rollback_days p else Ret false.

(** ** The provider's answer *)

Definition handleGwFail (p : RefundPlan) (e : perror) : prg (result perror RefundResult) :=
  let! ok := RollbackRefund p in
  if ok then
    let! _ := restoreStatus p in
    let! _ := writeAuditLog (rp_OrderID p) "REFUND_GATEWAY_FAILED" (lit "admin") in
    Ret (Ok unsuccessful)
  else
    let! now := clock in
    let! _ := write (update_one (rp_OrderID p) (failed_at now)) in
    let! _ := writeAuditLog (rp_OrderID p) REFUND_FAILED (lit "admin") in
    Ret (Err (EApp 500 "REFUND_FAILED")).

Definition markRefundOk (p : RefundPlan) : prg (result perror RefundResult) :=
  let! now := clock in
  try _ := lift (write (update_one (rp_OrderID p) (refunded p now))) wrap EWrap "mark refund" in
  let! _ := writeAuditLog (rp_OrderID p) REFUND_SUCCESS (lit "admin") in
  Ret (Ok (successful p)).

(** A float that is not finite has no JSON. *)
Definition markRefundPending (p : RefundPlan) (resp : RefundResponse) : prg (result perror RefundResult) :=
  if negb (Float.finite (rp_RefundAmount p) && Float.finite (rp_BalanceToDeduct p))
  then Ret (Err (EMsg "marshal refund pending audit"))
  else
    let! now := clock in
    let d := mkPendingDetail (TrimSpace (rr_RefundID resp)) None true (rp_DeductionType p) (rp_BalanceToDeduct p)
               (rp_SubDaysToDeduct p) (rp_SubscriptionID p) now in
    try _ := lift (write (mark_pending p d)) wrap EWrap "mark refund pending" in
    Ret (Ok unsuccessful).

Definition ProviderStatusPending : bytes := lit "pending".
Definition ProviderStatusSuccess : bytes := lit "success".
Definition ProviderStatusRefunded : bytes := lit "refunded".

(** [validateRefundProviderResponse]: [true] for no error. *)
Definition validateRefundProviderResponse (resp : option RefundResponse) : bool :=
  match resp with
  | None => false
  | Some r =>
      let status := TrimSpace (rr_Status r) in
      bool_decide (status = ProviderStatusSuccess) || bool_decide (status = ProviderStatusRefunded)
      || bool_decide (status = ProviderStatusPending)
  end.

Definition gwRefund (p : RefundPlan) : prg (result perror RefundResponse) :=
  let o := rp_Order p in
  if bool_decide (o_PaymentTradeNo o = []) then
    let! _ := writeAuditLog (o_ID o) "REFUND_NO_TRADE_NO" (lit "admin") in
    Ret (Ok (mkRefundResponse [] ProviderStatusSuccess))
  else
    try prov := getRefundProvider o wrap EWrap "get refund provider" in
    let! m := ask (QMerchantIdentity prov) in
    if negb (validateProviderSnapshotMetadata o prov m) then
      let! _ := writeAuditLog (o_ID o) "REFUND_PROVIDER_METADATA_MISMATCH" (lit "admin") in
      Ret (Err (EMsg "provider metadata mismatch"))
    else
      let req := mkRefundRequest (o_PaymentTradeNo o) (o_OutTradeNo o)
                   (formatGatewayRefundAmount (rp_GatewayAmount p) o) (rp_Reason p) in
      let! _ := log (Asked (rp_OrderID p) req) in
      let! a := ask (QRefund prov req) in
      let! _ := log (Answered (rp_OrderID p) a) in
      Ret match a with
          | (Some r, false) => if bool_decide (TrimSpace (rr_Status r) = ProviderStatusPending) then Ok r
                               else Err (EMsg "provider refund failed")
          | (None, false) => Err (EMsg "provider refund failed")
          | (resp, true) =>
              match resp with
              | Some r => if validateRefundProviderResponse resp then Ok r else Err (EMsg "payment refund failed")
              | None => Err (EMsg "payment refund response missing")
              end
          end.

Definition finishRefund (p : RefundPlan) (resp : RefundResponse) : prg (result perror RefundResult) :=
  if negb (validateRefundProviderResponse (Some resp)) then handleGwFail p (EMsg "payment refund failed")
  else
    let status := TrimSpace (rr_Status resp) in
    if bool_decide (status = ProviderStatusSuccess) || bool_decide (status = ProviderStatusRefunded) then markRefundOk p
    else if bool_decide (status = ProviderStatusPending) then markRefundPending p resp
    else handleGwFail p (EMsg "payment refund returned unknown status").

(** ** An attempt *)

Definition ExecuteRefund (p : RefundPlan) : prg (result perror RefundResult) :=
  try c := lift (write (claim_refund p)) wrap EWrap "lock" in
  if c =? 0 then Ret (Err Conflict)
  else
    try p := deduct_balance p wrap id in
    try p := deduct_days p wrap id in
    let! r := gwRefund p in
    match r with
    | Err e => handleGwFail p e
    | Ok resp => finishRefund p resp
    end.

(** The administrator's request: prepare, then execute. *)
Definition ProcessRefund (oid : Z) (amt : float64) (reason : bytes) (force deduct : bool)
    : prg (result perror RefundResult) :=
  try r := PrepareRefund oid amt reason force deduct wrap id in
  match r with
  | inr early => Ret (Ok early)
  | inl p => ExecuteRefund p
  end.

(** ** A pending refund *)

(** No entry, for an order of an older version: what was taken was given back. *)
Definition legacy_detail : refundPendingAuditDetail :=
  mkPendingDetail [] None false DeductionTypeNone Float.zero 0 0 zero_time.

Definition latestRefundPendingDetail (oid : Z) : prg (result perror refundPendingAuditDetail) :=
  try e := lift (read (latest_pending oid)) wrap EWrap "load refund pending audit" in
  Ret match e with
      | None => Ok legacy_detail
      | Some DText => Err (EMsg "parse refund pending audit")
      | Some (DPending d) => Ok d
      end.

(** The field keeps its default when the text leaves it out. *)
Definition rollback_ok (d : refundPendingAuditDetail) : bool := default true (pd_DeductionRollbackOK d).

Definition applyTo (d : refundPendingAuditDetail) (p : RefundPlan) : RefundPlan :=
  plan_deduction (pd_DeductionType d) (pd_BalanceDeducted d) (pd_SubDaysDeducted d) (pd_SubscriptionID d) true p.

Definition refundFinalizePlan (o : Order) : RefundPlan :=
  let refundAmount := RefundAmount (o_Refund o) in
  let reason := first_nonempty [TrimSpace (psStringValue (RefundReason (o_Refund o)))] (refund_order_text (o_ID o)) in
  mkPlan (o_ID o) o refundAmount
    (calculateGatewayRefundAmount (o_Amount o) (o_PayAmount o) refundAmount (PaymentOrderCurrency o)) reason
    (ForceRefund (o_Refund o)) true DeductionTypeBalance
    (if bool_decide (o_OrderType o = OrderTypeBalance) then refundAmount else Float.zero) 0 0 false.

Definition tx_error (msg : string) (e : dberr) : perror :=
  if bool_decide (e = NotClaimed) then Conflict else EWrap msg (EDB e).

Definition finalizePendingRefundSuccess (p : RefundPlan) : prg (result perror RefundResult) :=
  let! now := clock in
  let! r := write (finalize_success p now) in
  Ret match r with
      | Ok p => Ok (successful p)
      | Err e => Err (tx_error "refund finalization" e)
      end.

Definition finalizeRefundFailed (p : RefundPlan) : prg (result perror RefundResult) :=
  let! returns := ask QStatement in
  let! now := clock in
  let! r := write (finalize_failed p now returns) in
  match r with
  | Ok true => Ret (Ok unsuccessful)
  | Err e => Ret (Err (tx_error "refund failure finalization" e))
  | Ok false =>
      let! now := clock in
      let! r := write (finalize_unreturned p now) in
      Ret match r with
          | Ok _ => Ok unsuccessful
          | Err e => Err (tx_error "refund failure finalization" e)
          end
  end.

(** The plan of a conclusion, from the entry of the attempt that is pending. *)
Definition final_plan (o : Order) (d : refundPendingAuditDetail) : prg (RefundPlan * option RefundResult) :=
  let plan := refundFinalizePlan o in
  if pd_DeductionHeld d then Ret (applyTo d plan, None)
  else if negb (rollback_ok d) then Ret (plan_days 0 (plan_balance Float.zero plan), None)
  else if bool_decide (o_OrderType o = OrderTypeSubscription) then prepDeduct o plan true
  else Ret (plan, None).

Definition QueryAndFinalizeRefund (oid : Z) : prg (result perror RefundResult) :=
  try o := lift (read (get_order oid)) wrap (λ _, EApp 404 "NOT_FOUND") in
  if negb (status_is [OrderStatusRefundPending] o) then Ret (Err (BadRequest "INVALID_STATUS"))
  else
    try prov := getRefundProvider o wrap EWrap "get refund provider" in
    let! supported := ask (QSupportsRefundQuery prov) in
    if negb supported then Ret (Err (BadRequest "REFUND_QUERY_UNSUPPORTED"))
    else
      try d := latestRefundPendingDetail oid wrap id in
      let! a := ask (QQueryRefund prov (mkRefundQuery (o_PaymentTradeNo o) (o_OutTradeNo o) (TrimSpace (pd_RefundID d))
                  (formatGatewayRefundAmount (RefundAmount (o_Refund o)) o) (pd_RequestedAt d))) in
      match a with
      | (_, false) => Ret (Err (EMsg "query refund"))
      | (resp, true) =>
          let! r := final_plan o d in
          match r with
          | (_, Some early) => Ret (Ok early)
          | (plan, None) =>
              match resp with
              | None => finalizeRefundFailed plan
              | Some r =>
                  let status := TrimSpace (rr_Status r) in
                  if negb (validateRefundProviderResponse resp) then finalizeRefundFailed plan
                  else if bool_decide (status = ProviderStatusSuccess) || bool_decide (status = ProviderStatusRefunded)
                  then finalizePendingRefundSuccess plan
                  else if bool_decide (status = ProviderStatusPending) then
                    let! _ := writeAuditLog oid "REFUND_QUERY_PENDING" (lit "admin") in Ret (Ok unsuccessful)
                  else finalizeRefundFailed plan
              end
          end
      end.

End service.
End Refund.
