(* ===== verification/PaymentInvariant.v ===== *)
(** * The invariant of the payment tables, and the steps that preserve it

    The relation between an earlier and a later store that every statement and
    transaction respects, the invariant of orders, codes, journal and audit
    entries, and one lemma per statement and transaction of the payment and
    redeem services. *)

From S2P Require Import Prelude Float64 GoStrings PaymentOrder Subscription Database Interleaving PaymentStore Redeem Payment.

Module PaymentInvariant.
Import GoStrings PaymentOrder PaymentStore Redeem Payment.

(** ** The relation between an earlier and a later store *)

(** The statuses of an order that has been delivered: completed, or in a refund. *)
Definition settled : list OrderStatus :=
  [OrderStatusCompleted; OrderStatusRefundRequested; OrderStatusRefunding; OrderStatusRefundPending;
   OrderStatusPartiallyRefunded; OrderStatusRefunded; OrderStatusRefundFailed].

(** The edges of the order's life that fulfilment, cancelling and expiring take;
    refunds move among the settled statuses. *)
Inductive status_step : OrderStatus → OrderStatus → Prop :=
  | pending_paid : status_step OrderStatusPending OrderStatusPaid
  | cancelled_paid : status_step OrderStatusCancelled OrderStatusPaid
  | expired_paid : status_step OrderStatusExpired OrderStatusPaid
  | pending_cancelled : status_step OrderStatusPending OrderStatusCancelled
  | pending_expired : status_step OrderStatusPending OrderStatusExpired
  | paid_recharging : status_step OrderStatusPaid OrderStatusRecharging
  | paid_failed : status_step OrderStatusPaid OrderStatusFailed
  | failed_recharging : status_step OrderStatusFailed OrderStatusRecharging
  | recharging_completed : status_step OrderStatusRecharging OrderStatusCompleted
  | recharging_failed : status_step OrderStatusRecharging OrderStatusFailed
  | settled_moves st st' : st ∈ settled → st' ∈ settled → status_step st st'.
#[local] Hint Constructors status_step : core.

(** Membership of a status in a list, decided; and its absurdity. *)
Ltac status_in := by apply (bool_decide_unpack _).
Ltac status_out := let H := fresh in intros H; exfalso; revert H; status_in.

Lemma status_is_elem l o : status_is l o = true → o_Status o ∈ l.
Proof. apply bool_decide_eq_true_1. Qed.

Ltac status_cases H :=
  apply status_is_elem in H; repeat (apply elem_of_cons in H as [H|H]); [..|by apply not_elem_of_nil in H].

(** The columns no request changes. *)
Definition core_of (o : Order) :=
  (o_ID o, o_UserID o, o_Amount o, o_RechargeCode o, o_OutTradeNo o, o_OrderType o,
   o_SubscriptionGroupID o, o_SubscriptionDays o).

Record order_le (o o' : Order) : Prop := {
  ole_core : core_of o = core_of o';
  ole_status : rtc status_step (o_Status o) (o_Status o');
  ole_paid : is_Some (o_PaidAt o) → is_Some (o_PaidAt o')
}.

Definition code_le (c c' : RedeemCode) : Prop :=
  c' = c ∨ (rc_Status c = StatusUnused ∧ ∃ u t, c' = mark_used u t c).

Record later (s s' : Store) : Prop := {
  lt_now : st_now s ≤ st_now s';
  lt_orders : ∀ oid o, st_orders s !! oid = Some o → ∃ o', st_orders s' !! oid = Some o' ∧ order_le o o';
  lt_orders_back : ∀ oid o', st_orders s' !! oid = Some o' → is_Some (st_orders s !! oid);
  lt_codes : ∀ id c, st_codes s !! id = Some c → ∃ c', st_codes s' !! id = Some c' ∧ code_le c c';
  lt_grants : st_grants s `suffix_of` st_grants s';
  lt_audit : ∀ oid, has_audit oid [SUBSCRIPTION_ASSIGNED; "SUBSCRIPTION_SUCCESS"%string] s = true →
                    has_audit oid [SUBSCRIPTION_ASSIGNED; "SUBSCRIPTION_SUCCESS"%string] s' = true
}.

#[export] Instance order_le_preorder : PreOrder order_le.
Proof.
  split; [by split|]. intros x y z [H1 H2 H3] [H4 H5 H6].
  split; [congruence|by etrans|auto].
Qed.

Lemma used_not_unused : StatusUsed ≠ StatusUnused.
Proof. done. Qed.

#[export] Instance code_le_preorder : PreOrder code_le.
Proof.
  split; [by left|]. intros x y z [->|(Hx & u & t & ->)] [->|(Hy & u' & t' & ->)].
  - by left.
  - right; eauto.
  - right; eauto.
  - simpl in Hy. by apply used_not_unused in Hy.
Qed.

#[export] Instance later_preorder : PreOrder later.
Proof.
  split.
  - intros s. split; [lia| |by eauto| |done|done]; intros i x Hx; exists x; (split; [done|reflexivity]).
  - intros x y z [H1 H2 H3 H4 H5 H6] [K1 K2 K3 K4 K5 K6]. split.
    + lia.
    + intros i o Ho. destruct (H2 i o Ho) as (o' & Ho' & ?). destruct (K2 i o' Ho') as (o'' & ? & ?).
      exists o''. split; [done|by etrans].
    + intros i o Ho. destruct (K3 i o Ho) as [o' Ho']. by eapply H3.
    + intros i o Ho. destruct (H4 i o Ho) as (o' & Ho' & ?). destruct (K4 i o' Ho') as (o'' & ? & ?).
      exists o''. split; [done|by etrans].
    + by etrans.
    + auto.
Qed.

(** ** The invariant *)

Definition is_rebate (e : entitlement) : bool := match e with GRebate _ _ _ _ => true | _ => false end.

(** Journal entries due to [c]: what was credited, and the rebates. *)
Definition credits (c : cause) (s : Store) : list grant :=
  filter (λ g, gr_cause g = c ∧ is_rebate (gr_what g) = false) (st_grants s).
Definition rebates (c : cause) (s : Store) : list grant :=
  filter (λ g, gr_cause g = c ∧ is_rebate (gr_what g) = true) (st_grants s).

(** What redeeming a balance code credits. *)
Definition balance_credit (uid : Z) (v : float64) : entitlement :=
  if Float.lt v Float.zero then GBalanceAdjust uid v else GBalance uid v.

(** The code's value is the order's amount, as the code compares them. *)
Definition value_ok (o : Order) (c : RedeemCode) : bool :=
  negb (Float.IsNaN (rc_Value c) || Float.IsInf (rc_Value c)
        || Float.lt (Float.decimal 1 8) (Float.Abs (Float.sub (rc_Value c) (o_Amount o)))).

(** The order's recharge code has been redeemed for the order's user. *)
Definition credited (o : Order) (s : Store) : Prop :=
  ∃ id c, st_codes s !! id = Some c ∧ rc_Code c = o_RechargeCode o ∧ rc_Type c = RedeemTypeBalance ∧
    value_ok o c = true ∧ rc_Status c = StatusUsed ∧ rc_UsedBy c = Some (o_UserID o).

Definition assigned (o : Order) (s : Store) : Prop :=
  has_audit (o_ID o) [SUBSCRIPTION_ASSIGNED; "SUBSCRIPTION_SUCCESS"%string] s = true.

Definition completable (o : Order) (s : Store) : Prop :=
  (o_OrderType o = OrderTypeBalance → credited o s) ∧
  (o_OrderType o = OrderTypeSubscription → assigned o s).

(** Statuses only a paid order has. *)
Definition funded : list OrderStatus :=
  [OrderStatusPaid; OrderStatusRecharging; OrderStatusFailed] ++ settled.

(** A redeem code that exists under an order's recharge code is the order's. *)
Definition own_code (o : Order) (c : RedeemCode) : Prop :=
  rc_Type c = RedeemTypeBalance ∧ value_ok o c = true ∧ rc_ExpiresAt c = None ∧
  ((rc_Status c = StatusUnused ∧ rc_UsedBy c = None) ∨
   (rc_Status c = StatusUsed ∧ rc_UsedBy c = Some (o_UserID o))).

(** How an order is made: a generated recharge code, a checked amount. *)
Definition well_formed (o : Order) : Prop :=
  TrimSpace (o_RechargeCode o) = o_RechargeCode o ∧ o_RechargeCode o ≠ [] ∧
  Float.finite (o_Amount o) = true ∧ Float.lt Float.zero (o_Amount o) = true.

(** [strict]: also keep that only an order redeems its recharge code. *)
Record inv (strict : Prop) (s : Store) : Prop := {
  inv_order : ∀ oid o, st_orders s !! oid = Some o →
    o_ID o = oid ∧ o_UpdatedAt o ≤ st_now s + 1000 ∧
    (o_Status o ∈ funded → is_Some (o_PaidAt o)) ∧
    (o_Status o ∈ settled → completable o s);
  inv_code_id : ∀ id c, st_codes s !! id = Some c → rc_ID c = id ∧ id < st_next_code s;
  inv_code_unique : ∀ id id' c c', st_codes s !! id = Some c → st_codes s !! id' = Some c' →
    rc_Code c = rc_Code c' → id = id';
  inv_unused : ∀ id c, st_codes s !! id = Some c → rc_Status c ≠ StatusUsed → credits (DueCode id) s = [];
  inv_fresh : ∀ id, st_next_code s ≤ id → credits (DueCode id) s = [];
  inv_once : ∀ id, (length (credits (DueCode id) s) ≤ 1)%nat;
  inv_used : ∀ id c, st_codes s !! id = Some c → rc_Status c = StatusUsed → rc_Type c = RedeemTypeBalance →
    ∃ u, rc_UsedBy c = Some u ∧ credits (DueCode id) s = [mkGrant (DueCode id) (balance_credit u (rc_Value c))];
  inv_days : ∀ oid, credits (DueOrder oid) s = [] ∨
    ((length (credits (DueOrder oid) s) ≤ 1)%nat ∧ has_audit oid [SUBSCRIPTION_ASSIGNED] s = true);
  inv_rebate : ∀ oid, rebates (DueOrder oid) s = [] ∨
    ((length (rebates (DueOrder oid) s) ≤ 1)%nat ∧ has_audit oid [REBATE_APPLIED] s = true);
  inv_locks : ∀ k e, st_locks s !! k = Some e → e ≤ st_now s + redeemLockDuration;
  inv_recharge : strict → ∀ oid oid' o o', st_orders s !! oid = Some o → st_orders s !! oid' = Some o' →
    o_RechargeCode o = o_RechargeCode o' → oid = oid';
  inv_own : strict → ∀ oid o id c, st_orders s !! oid = Some o → o_OrderType o = OrderTypeBalance →
    st_codes s !! id = Some c → rc_Code c = o_RechargeCode o → own_code o c ∧ o_Status o ∈ funded;
  inv_formed : ∀ oid o, st_orders s !! oid = Some o → well_formed o
}.

(** A store of orders just created satisfies it. *)
Lemma inv_created strict s :
  st_codes s = ∅ → st_grants s = [] → st_locks s = ∅ →
  (∀ oid o, st_orders s !! oid = Some o →
     o_ID o = oid ∧ o_UpdatedAt o ≤ st_now s + 1000 ∧ o_Status o = OrderStatusPending ∧ well_formed o) →
  (∀ oid oid' o o', st_orders s !! oid = Some o → st_orders s !! oid' = Some o' →
     o_RechargeCode o = o_RechargeCode o' → oid = oid') → inv strict s.
Proof.
  intros Hc Hg Hl Ho Hr.
  assert (Hcr : ∀ c, credits c s = [] ∧ rebates c s = []) by (intros c; unfold credits, rebates; by rewrite Hg).
  split; rewrite ?Hc, ?Hl; try (intros; by first [apply Hcr|left; apply Hcr]); try (by intros ? ? ?%lookup_empty_Some).
  - intros oid o Hx. destruct (Ho oid o Hx) as (? & ? & Hst & _). rewrite Hst.
    split_and!; [done|done|status_out|status_out].
  - by intros ? ? ? ? ?%lookup_empty_Some.
  - intros id. destruct (Hcr (DueCode id)) as [-> _]. simpl. lia.
  - done.
  - by intros _ ? ? ? ? _ _ ?%lookup_empty_Some.
  - intros oid o Hx. by destruct (Ho oid o Hx) as (_ & _ & _ & ?).
Qed.

(** ** What later states keep *)

Lemma funded_step st st' : rtc status_step st st' → st ∈ funded → st' ∈ funded.
Proof.
  induction 1 as [st|st x st' Hstep _ IH]; [done|]. intros Hst. apply IH. unfold funded in *.
  destruct Hstep; try status_in; try (by apply elem_of_app; right); by revert Hst; status_out.
Qed.

Lemma settled_step st st' : rtc status_step st st' → st ∈ settled → st' ∈ settled.
Proof.
  induction 1 as [st|st x st' Hstep _ IH]; [done|]. intros Hst. apply IH.
  destruct Hstep; try done; by revert Hst; status_out.
Qed.

Lemma settled_funded st : st ∈ settled → st ∈ funded.
Proof. intros Hst. by apply elem_of_app; right. Qed.

Lemma has_audit_iff oid l s : has_audit oid l s = true ↔
  ∃ a, a ∈ st_audits s ∧ au_OrderID a = oid ∧ au_Action a ∈ l.
Proof.
  unfold has_audit. rewrite existsb_exists. split.
  - intros (a & Ha & Hb). bool_hyp. exists a. by rewrite list_elem_of_In.
  - intros (a & Ha & <- & Hl). exists a. rewrite <- list_elem_of_In. split; [done|].
    apply andb_true_iff. split; [lia|by apply bool_decide_eq_true_2].
Qed.

Lemma code_le_used c c' : code_le c c' → rc_Status c = StatusUsed → c' = c.
Proof. intros [->|(Hu & _)] ?; [done|]. exfalso. apply used_not_unused. congruence. Qed.

Lemma core_fields o o' : core_of o = core_of o' →
  o_ID o = o_ID o' ∧ o_UserID o = o_UserID o' ∧ o_Amount o = o_Amount o' ∧ o_RechargeCode o = o_RechargeCode o' ∧
  o_OutTradeNo o = o_OutTradeNo o' ∧ o_OrderType o = o_OrderType o' ∧
  o_SubscriptionGroupID o = o_SubscriptionGroupID o' ∧ o_SubscriptionDays o = o_SubscriptionDays o'.
Proof. intros [=]. by split_and!. Qed.

Lemma value_ok_core o o' c : core_of o = core_of o' → value_ok o c = value_ok o' c.
Proof. intros [=]. unfold value_ok. congruence. Qed.

Lemma well_formed_core o o' : core_of o = core_of o' → well_formed o → well_formed o'.
Proof. intros [=]. unfold well_formed. intros (? & ? & ? & ?). split_and!; congruence. Qed.

Lemma credited_later o o' s s' : core_of o = core_of o' → later s s' → credited o s → credited o' s'.
Proof.
  intros Hc HR (id & c & Hid & H1 & H2 & H3 & H4 & H5).
  destruct (lt_codes _ _ HR id c Hid) as (c' & Hc' & Hle). apply code_le_used in Hle; [subst c'|done].
  exists id, c. rewrite <- (value_ok_core _ _ _ Hc). injection Hc. intros. split_and!; congruence.
Qed.

Lemma completable_later o o' s s' : core_of o = core_of o' → later s s' → completable o s → completable o' s'.
Proof.
  intros Hc HR [H1 H2]. assert (o_OrderType o = o_OrderType o' ∧ o_ID o = o_ID o') as [E1 E2] by (injection Hc; done).
  split; rewrite <- E1; intros Ht.
  - by eapply credited_later; [| |apply H1].
  - unfold assigned. rewrite <- E2. by apply (lt_audit _ _ HR), H2.
Qed.

(** ** What the invariant says of a completed order *)

Lemma completed_credit strict s oid o :
  inv strict s → st_orders s !! oid = Some o → o_Status o ∈ settled → o_OrderType o = OrderTypeBalance →
  ∃ id c, st_codes s !! id = Some c ∧ rc_Code c = o_RechargeCode o ∧ value_ok o c = true ∧
    credits (DueCode id) s = [mkGrant (DueCode id) (balance_credit (o_UserID o) (rc_Value c))].
Proof.
  intros Hinv Ho Hst Ht. destruct (inv_order _ _ Hinv oid o Ho) as (_ & _ & _ & Hc).
  destruct (proj1 (Hc Hst) Ht) as (id & c & Hid & Hcode & Hty & Hv & Hused & Hu). exists id, c.
  destruct (inv_used _ _ Hinv id c Hid Hused Hty) as (u & Hu' & Hg). rewrite Hu in Hu'. injection Hu' as <-.
  done.
Qed.

(** ** Steps preserve the invariant *)

Lemma credits_ext c s s' : st_grants s' = st_grants s → credits c s' = credits c s ∧ rebates c s' = rebates c s.
Proof. unfold credits, rebates. by intros ->. Qed.

Lemma credits_cons c g s : credits c (with_grant g s) =
  if decide (gr_cause g = c ∧ is_rebate (gr_what g) = false) then g :: credits c s else credits c s.
Proof. unfold credits. simpl. by rewrite filter_cons. Qed.
Lemma rebates_cons c g s : rebates c (with_grant g s) =
  if decide (gr_cause g = c ∧ is_rebate (gr_what g) = true) then g :: rebates c s else rebates c s.
Proof. unfold rebates. simpl. by rewrite filter_cons. Qed.

(** Statements that touch neither codes nor audit entries, and what the journal
    entry they may add is due to, with whether it is a rebate. *)
Definition neutral (st : stmt) : Prop :=
  match st with SUse _ _ | SAssigned _ _ | SClaimRebate _ | SSkipRebate _ => False | _ => True end.
Definition stmt_due (st : stmt) : option (cause * bool) :=
  match st with
  | SGrant c e => Some (c, is_rebate e)
  | SRenew c _ _ _ _ | SCreateSub c _ _ _ _ _ => Some (c, false)
  | SAccrue c _ _ _ _ => Some (c, true)
  | _ => None
  end.
Definition granting (st : stmt) : Prop := is_Some (stmt_due st).
#[export] Instance granting_dec st : Decision (granting st).
Proof. unfold granting. apply _. Defined.

Section steps.
Context `{Database} `{Numeric} `{TimeZones} {strict : Prop}.
Abbreviation inv := (inv strict).

(** What the invariant reads. *)
Record same (s s' : Store) : Prop := {
  sm_now : st_now s' = st_now s;
  sm_orders : st_orders s' = st_orders s;
  sm_codes : st_codes s' = st_codes s;
  sm_next : st_next_code s' = st_next_code s;
  sm_audits : st_audits s' = st_audits s;
  sm_grants : st_grants s' = st_grants s;
  sm_locks : st_locks s' = st_locks s
}.

Definition good_step (s s' : Store) : Prop := inv s' ∧ later s s'.

Lemma good_refl s : inv s → good_step s s.
Proof. by split. Qed.

Lemma good_trans s1 s2 s3 : good_step s1 s2 → good_step s2 s3 → good_step s1 s3.
Proof. intros [_ ?] [? ?]. split; [done|by etrans]. Qed.

(** Rebuild the invariant when orders, codes and journal stay as they are. *)
Lemma frame_later s s' :
  st_now s ≤ st_now s' → st_orders s' = st_orders s → st_codes s' = st_codes s →
  st_grants s' = st_grants s →
  (∀ oid l, has_audit oid l s = true → has_audit oid l s' = true) → later s s'.
Proof.
  intros E1 E2 E3 E4 E5. split; rewrite ?E2, ?E3, ?E4; try done.
  - intros i o Ho. exists o. split; [done|reflexivity].
  - intros i c Hc. exists c. split; [done|reflexivity].
  - intros oid Ha. by apply E5.
Qed.

Lemma frame_inv s s' :
  inv s → st_now s ≤ st_now s' → st_orders s' = st_orders s → st_codes s' = st_codes s →
  st_next_code s' = st_next_code s → st_grants s' = st_grants s →
  (∀ oid l, has_audit oid l s = true → has_audit oid l s' = true) →
  (∀ k e, st_locks s' !! k = Some e → e ≤ st_now s' + redeemLockDuration) → good_step s s'.
Proof.
  intros Hinv E1 E2 E3 E4 E5 E6 E7.
  assert (HR : later s s') by (by apply frame_later). split; [|done].
  assert (Hcr : ∀ c, credits c s' = credits c s) by (intros c; by apply credits_ext).
  assert (Hrb : ∀ c, rebates c s' = rebates c s) by (intros c; by apply credits_ext).
  destruct Hinv as [I1 I2 I3 I4 I5 I6 I7 I8 I9 I10 I11 I12 I13].
  split; rewrite ?E2, ?E3, ?E4; intros; rewrite ?Hcr, ?Hrb in *; eauto.
  - match goal with Ho : st_orders s !! _ = Some _ |- _ => destruct (I1 _ _ Ho) as (? & ? & ? & Hc) end. split_and!; [done|lia|done|].
    intros Hst. eapply completable_later; [reflexivity|done|by apply Hc].
  - destruct (I8 oid) as [?|[? ?]]; [by left|right]. split; [done|by apply E6].
  - destruct (I9 oid) as [?|[? ?]]; [by left|right]. split; [done|by apply E6].
Qed.

Lemma good_same s s' : inv s → same s s' → good_step s s'.
Proof.
  intros Hinv [E1 E2 E3 E4 E5 E6 E7]. apply frame_inv; try done; [lia| |].
  - intros oid l. unfold has_audit. by rewrite E5.
  - rewrite E7, E1. apply (inv_locks _ _ Hinv).
Qed.

Lemma add_audit_ok a s : inv s → good_step s (with_audits (cons a) s).
Proof.
  intros Hinv. apply frame_inv; try first [done|simpl; lia]; [ |apply (inv_locks _ _ Hinv)].
  intros i l. unfold has_audit. simpl. intros ->. by rewrite orb_true_r.
Qed.

Lemma insert_audit_ok oid a op s : inv s → good_step s (snd (insert_audit oid a op s)).
Proof.
  intros Hinv. unfold insert_audit. destruct (has_audit oid [a] s); [by apply good_refl|]. by apply add_audit_ok.
Qed.

Lemma set_nx_ok k s : inv s → good_step s (snd (set_nx k redeemLockDuration s)).
Proof.
  intros Hinv. unfold set_nx. destruct (st_locks s !! k) as [e|] eqn:Hk; [destruct (_ <? e); [by apply good_refl|]|].
  all: simpl; apply frame_inv; try first [done|simpl; lia]; simpl; intros k' e'.
  all: destruct (decide (k = k')) as [->|Hne];
    [rewrite lookup_insert_eq; intros [= <-]; lia|rewrite lookup_insert_ne by done; apply (inv_locks _ _ Hinv)].
Qed.

Lemma del_key_ok k s : inv s → good_step s (snd (del_key k s)).
Proof.
  intros Hinv. apply frame_inv; try first [done|simpl; lia]. simpl. intros k' e'.
  rewrite lookup_delete_Some. intros [_ ?]. by eapply inv_locks.
Qed.

Lemma increment_attempts_ok uid s : inv s → good_step s (snd (increment_attempts uid s)).
Proof. intros Hinv. by apply good_same. Qed.
Lemma send_notification_ok oid a s : inv s → good_step s (snd (send_notification oid a s)).
Proof. intros Hinv. by apply good_same. Qed.

Lemma advance_ok d s : inv s → good_step s (advance d s).
Proof.
  intros Hinv. apply frame_inv; try first [done|simpl; lia].
  simpl. intros k e He. pose proof (inv_locks _ _ Hinv k e He). lia.
Qed.

(** An order's row changes. *)
Definition order_change (o o' : Order) (s : Store) : Prop :=
  order_le o o' ∧ (o_Status o' ∈ funded → is_Some (o_PaidAt o')) ∧
  (o_Status o' ∈ settled → completable o' s).

Lemma update_order_at_ok oid guard set at_ s :
  inv s → at_ s ≤ st_now s →
  (∀ o, st_orders s !! oid = Some o → guard o = true → order_change o (set o) s) →
  good_step s (snd (update_order_at oid guard set at_ s)).
Proof.
  intros Hinv Hat Hch. unfold update_order_at.
  destruct (st_orders s !! oid) as [o|] eqn:Ho; [|by apply good_refl].
  destruct (guard o) eqn:Hg; [|by apply good_refl]. simpl.
  destruct (Hch o eq_refl Hg) as (Hle & Hfund & Hcomp).
  set (o' := touch (at_ s) (set o)). set (s' := with_orders _ s).
  assert (Hcore : core_of o = core_of o') by (by destruct Hle).
  assert (HR : later s s').
  { split; simpl; try done.
    - intros i x Hx. destruct (decide (oid = i)) as [<-|Hne].
      + exists o'. rewrite lookup_insert_eq. split; [done|]. rewrite Ho in Hx. injection Hx as <-.
        destruct Hle. by split.
      + exists x. rewrite lookup_insert_ne by done. split; [done|reflexivity].
    - intros i x. destruct (decide (oid = i)) as [<-|Hne]; [by eauto|by rewrite lookup_insert_ne; eauto].
    - intros i c Hc. exists c. split; [done|reflexivity]. }
  split; [|done].
  assert (Hlook : ∀ i x, st_orders s' !! i = Some x → ∃ y, st_orders s !! i = Some y ∧ core_of y = core_of x ∧
            (o_Status y ∈ funded → o_Status x ∈ funded) ∧ ((i = oid ∧ x = o') ∨ x = y)).
  { intros i x. simpl. destruct (decide (oid = i)) as [<-|Hne].
    - rewrite lookup_insert_eq. intros [= <-]. exists o. split_and!; auto. apply funded_step. by destruct Hle.
    - rewrite lookup_insert_ne by done. eauto 6. }
  destruct Hinv as [I1 I2 I3 I4 I5 I6 I7 I8 I9 I10 I11 I12 I13]. split; try done.
  - intros i x Hx. destruct (Hlook i x Hx) as (y & Hy & Hyx & _ & [[-> ->]| ->]).
    + assert (o_ID o' = oid) by (destruct (I1 _ _ Ho); destruct (core_fields _ _ Hcore); congruence).
      split_and!; [done| |done|].
      * simpl. pose proof (timestamptz_near (at_ s)). lia.
      * intros Hst. eapply completable_later; [|exact HR|by apply Hcomp]. done.
    + destruct (I1 _ _ Hy) as (? & ? & ? & Hc). split_and!; [done|done|done|].
      intros Hst. eapply completable_later; [reflexivity|exact HR|by apply Hc].
  - intros Hs i i' x x' Hx Hx' Heq. destruct (Hlook i x Hx) as (y & Hy & Hyx & _).
    destruct (Hlook i' x' Hx') as (y' & Hy' & Hyx' & _). apply (I11 Hs i i' y y' Hy Hy').
    apply core_fields in Hyx as (_ & _ & _ & -> & _). by apply core_fields in Hyx' as (_ & _ & _ & -> & _).
  - intros Hs i x id c Hx Ht Hc Hcode. destruct (Hlook i x Hx) as (y & Hy & Hyx & Hf & _).
    assert (own_code y c ∧ o_Status y ∈ funded) as [(J1 & J2 & J3 & J4) J5]
      by (pose proof (core_fields _ _ Hyx); eapply (I12 Hs i y); [done| |done|]; intuition congruence).
    split; [|by apply Hf]. split_and!; [done|by rewrite <- (value_ok_core _ _ _ Hyx)|done|].
    apply core_fields in Hyx as (_ & Hu & _). destruct J4 as [J4|[J4 J6]]; [by left|right]. split; [done|congruence].
  - intros i x Hx. destruct (Hlook i x Hx) as (y & Hy & Hyx & _).
    eapply well_formed_core; [exact Hyx|by eapply I13].
Qed.

Lemma create_code_ok rc s :
  inv s → rc_Status rc = StatusUnused → rc_UsedBy rc = None →
  (strict → ∀ oid o, st_orders s !! oid = Some o → o_OrderType o = OrderTypeBalance →
     rc_Code rc = o_RechargeCode o → own_code o rc ∧ o_Status o ∈ funded) →
  good_step s (snd (create_code rc s)).
Proof.
  intros Hinv Hun Hnone Hown. unfold create_code.
  destruct (existsb _ _) eqn:Hex; [by apply good_refl|]. simpl.
  set (id := st_next_code s). set (c0 := mkCode id _ _ _ _ _ _ _ _ _). set (s' := with_codes _ _ s).
  destruct Hinv as [I1 I2 I3 I4 I5 I6 I7 I8 I9 I10 I11 I12 I13].
  assert (Hnew : st_codes s !! id = None).
  { destruct (st_codes s !! id) as [c|] eqn:Hc; [|done]. destruct (I2 _ _ Hc). unfold id in *. lia. }
  assert (Hcode : ∀ i c, st_codes s !! i = Some c → rc_Code c ≠ rc_Code rc).
  { intros i c Hc Heq.
    rewrite <- not_true_iff_false, existsb_exists in Hex. apply Hex. exists c. split.
    - apply list_elem_of_In, list_elem_of_fmap. exists (i, c). split; [done|by apply elem_of_map_to_list].
    - by apply bool_decide_eq_true_2. }
  assert (Hlook : ∀ i c, st_codes s' !! i = Some c → (i = id ∧ c = c0) ∨ (i ≠ id ∧ st_codes s !! i = Some c))
    by (intros i c; apply insert_cases).
  assert (HR : later s s').
  { split; simpl; try done; [intros i o Ho; exists o; split; [done|reflexivity]|].
    intros i c Hc. exists c. rewrite lookup_insert_ne by (intros <-; congruence). split; [done|reflexivity]. }
  split; [|done]. split; try done.
  - intros oid o Ho. destruct (I1 _ _ Ho) as (? & ? & ? & Hc). split_and!; [done|done|done|].
    intros Hst. eapply completable_later; [reflexivity|exact HR|by apply Hc].
  - intros i c [(-> & ->)|(_ & Hc)]%Hlook; simpl; [split; [done|lia]|]. destruct (I2 _ _ Hc). split; [done|lia].
  - intros i i' c c' [(-> & ->)|(_ & Hc)]%Hlook [(-> & ->)|(_ & Hc')]%Hlook Heq; simpl in *.
    + done.
    + exfalso. by apply (Hcode _ _ Hc').
    + exfalso. by apply (Hcode _ _ Hc).
    + by eapply I3.
  - intros i c [(-> & ->)|(_ & Hc)]%Hlook Hst; [by apply I5|by eapply I4].
  - intros i Hi. apply I5. simpl in Hi. fold id in Hi. unfold id in *. lia.
  - intros i c [(-> & ->)|(_ & Hc)]%Hlook Hst Ht; simpl in *;
    [pose proof used_not_unused; congruence|]. by eapply I7.
  - intros Hs oid o i c Ho Ht [(-> & ->)|(_ & Hc)]%Hlook Heq; [|by eapply I12].
    destruct (Hown Hs oid o Ho Ht Heq) as [(J1 & J2 & J3 & J4) J5]. done.
Qed.

(** ** Transactions *)

Definition dues (c : cause) (b : bool) (ws : list stmt) : Prop :=
  Forall (λ st, neutral st ∧ (stmt_due st = None ∨ stmt_due st = Some (c, b))) ws ∧
  (length (filter granting ws) ≤ 1)%nat.

Definition due_to (c : cause) (b : bool) (g : grant) : Prop := gr_cause g = c ∧ is_rebate (gr_what g) = b.

Record journalled (gs : list grant) (s s' : Store) : Prop := {
  jr_now : st_now s' = st_now s;
  jr_orders : st_orders s' = st_orders s;
  jr_codes : st_codes s' = st_codes s;
  jr_next : st_next_code s' = st_next_code s;
  jr_audits : st_audits s' = st_audits s;
  jr_grants : st_grants s' = gs ++ st_grants s;
  jr_locks : st_locks s' = st_locks s
}.

Lemma exec_neutral st s s' : neutral st → exec_stmt st s = Ok s' →
  ∃ gs, journalled gs s s' ∧ (length gs ≤ length (filter granting [st]))%nat ∧
    ∀ g, g ∈ gs → stmt_due st = Some (gr_cause g, is_rebate (gr_what g)).
Proof.
  intros Hn Hex.
  destruct st; simpl in *; try done; repeat case_match; simplify_eq/=.
  all: first
    [ by (exists []; split; [by split|split; [simpl; lia|intros g Hg; by apply not_elem_of_nil in Hg]])
    | eexists [_]; split; [by split|split; [simpl; lia|by intros g ->%list_elem_of_singleton]] ].
Qed.

Lemma journalled_trans gs gs' s1 s2 s3 :
  journalled gs s1 s2 → journalled gs' s2 s3 → journalled (gs' ++ gs) s1 s3.
Proof. intros [] []. split; [congruence..| |congruence]. rewrite <- app_assoc. congruence. Qed.

Lemma exec_dues c b ws : ∀ s s', Forall (λ st, neutral st ∧ (stmt_due st = None ∨ stmt_due st = Some (c, b))) ws →
  exec_stmts ws s = Ok s' →
  ∃ gs, journalled gs s s' ∧ (length gs ≤ length (filter granting ws))%nat ∧ Forall (due_to c b) gs.
Proof.
  induction ws as [|st ws IH]; intros s s' Hws Hex; simpl in Hex.
  - injection Hex as <-. exists []. by split.
  - apply Forall_cons in Hws as [[Hn Hd] Hws]. destruct (exec_stmt st s) as [s1|e] eqn:Hst1; [|done].
    destruct (exec_neutral st s s1 Hn Hst1) as (gs1 & HJ1 & Hl1 & Hd1).
    destruct (IH s1 s' Hws Hex) as (gs & HJ & Hl & Hgs). exists (gs ++ gs1). split_and!.
    + by eapply journalled_trans.
    + rewrite length_app. rewrite filter_cons in Hl1 |- *. simpl in Hl1. case_decide; simpl in *; lia.
    + apply Forall_app. split; [done|]. apply Forall_forall. intros g Hg.
      destruct Hd as [Hd|Hd]; rewrite (Hd1 g Hg) in Hd; [done|]. by injection Hd as <- <-.
Qed.

(** Journal entries due to another cause, or of the other kind, change no count. *)
Lemma credits_app c gs s s' : st_grants s' = gs ++ st_grants s →
  credits c s' = filter (λ g, gr_cause g = c ∧ is_rebate (gr_what g) = false) gs ++ credits c s.
Proof. unfold credits. intros ->. by rewrite filter_app. Qed.
Lemma rebates_app c gs s s' : st_grants s' = gs ++ st_grants s →
  rebates c s' = filter (λ g, gr_cause g = c ∧ is_rebate (gr_what g) = true) gs ++ rebates c s.
Proof. unfold rebates. intros ->. by rewrite filter_app. Qed.

Lemma filter_due_none c b c' b' gs : Forall (due_to c b) gs → (c, b) ≠ (c', b') →
  filter (λ g, gr_cause g = c' ∧ is_rebate (gr_what g) = b') gs = [].
Proof.
  intros Hgs Hne. apply filter_all_false. intros g Hg [E1 E2].
  rewrite Forall_forall in Hgs. destruct (Hgs g Hg) as [E3 E4]. congruence.
Qed.

Lemma credits_other c b gs s s' c' : st_grants s' = gs ++ st_grants s → Forall (due_to c b) gs →
  (c, b) ≠ (c', false) → credits c' s' = credits c' s.
Proof. intros Hg Hgs Hne. rewrite (credits_app c' gs s s' Hg). by rewrite (filter_due_none c b). Qed.
Lemma rebates_other c b gs s s' c' : st_grants s' = gs ++ st_grants s → Forall (due_to c b) gs →
  (c, b) ≠ (c', true) → rebates c' s' = rebates c' s.
Proof. intros Hg Hgs Hne. rewrite (rebates_app c' gs s s' Hg). by rewrite (filter_due_none c b). Qed.

(** Marking an unused code used. *)
Lemma mark_used_later id uid t c s : st_codes s !! id = Some c → rc_Status c = StatusUnused →
  later s (with_codes (insert id (mark_used uid t c)) (st_next_code s) s).
Proof.
  intros Hc Hun. split; simpl; try done; [intros i o Ho; exists o; split; [done|reflexivity]|].
  intros i x Hx. destruct (decide (id = i)) as [<-|Hne].
  - exists (mark_used uid t c). rewrite lookup_insert_eq. split; [done|]. rewrite Hc in Hx. injection Hx as <-.
    right. split; [done|]. by exists uid, t.
  - exists x. rewrite lookup_insert_ne by done. split; [done|reflexivity].
Qed.

Lemma journalled_later gs s s' : journalled gs s s' → later s s'.
Proof.
  intros [E1 E2 E3 E4 E5 E6 E7]. split; rewrite ?E1, ?E2, ?E3; try done.
  - intros i o Ho. exists o. split; [done|reflexivity].
  - intros i c Hc. exists c. split; [done|reflexivity].
  - by exists gs.
  - intros oid. unfold has_audit. by rewrite E5.
Qed.

(** A transaction that fails leaves everything. *)
Lemma transaction_ok l s (P : Store → Prop) :
  inv s → (∀ s', exec_stmts l s = Ok s' → good_step s s' ∧ P s') →
  good_step s (snd (transaction l s)) ∧ (fst (transaction l s) = Ok tt → P (snd (transaction l s))).
Proof.
  intros Hinv Hok. unfold transaction. destruct (exec_stmts l s) as [s'|e]; simpl.
  - destruct (Hok s' eq_refl). by split.
  - split; [by apply good_refl|done].
Qed.

(** Rebates due to codes are not counted. *)
Lemma accrue_tx_ok id ws s :
  inv s → dues (DueCode id) true ws → good_step s (snd (transaction ws s)).
Proof.
  intros Hinv [Hws _]. apply (transaction_ok ws s (λ _, True) Hinv). intros s' Hex. split; [|done].
  destruct (exec_dues _ _ _ _ _ Hws Hex) as (gs & HJ & _ & Hgs).
  pose proof (journalled_later _ _ _ HJ) as HR. split; [|done].
  assert (Hcr : ∀ c, credits c s' = credits c s).
  { intros c. apply (credits_other (DueCode id) true gs); [apply HJ|done|congruence]. }
  assert (Hrb : ∀ oid, rebates (DueOrder oid) s' = rebates (DueOrder oid) s).
  { intros oid. apply (rebates_other (DueCode id) true gs); [apply HJ|done|congruence]. }
  assert (Hau : ∀ oid l, has_audit oid l s' = has_audit oid l s) by (intros; unfold has_audit; by rewrite (jr_audits _ _ _ HJ)).
  destruct HJ as [E1 E2 E3 E4 E5 E6 E7]. destruct Hinv as [I1 I2 I3 I4 I5 I6 I7 I8 I9 I10 I11 I12 I13].
  split; rewrite ?E1, ?E2, ?E3, ?E4, ?E7; intros; rewrite ?Hcr, ?Hrb, ?Hau in *; eauto.
  match goal with Ho : st_orders s !! _ = Some _ |- _ => destruct (I1 _ _ Ho) as (? & ? & ? & Hc) end. split_and!; [done|lia|done|].
  intros Hst. eapply completable_later; [reflexivity|done|by apply Hc].
Qed.

Lemma use_tx_ok id uid ws s :
  inv s → dues (DueCode id) false ws →
  (∀ c, st_codes s !! id = Some c → rc_Type c = RedeemTypeBalance →
     ws = [SGrant (DueCode id) (balance_credit uid (rc_Value c))]) →
  (strict → ∀ c oid o, st_codes s !! id = Some c → st_orders s !! oid = Some o →
     o_OrderType o = OrderTypeBalance → rc_Code c = o_RechargeCode o → o_UserID o = uid) →
  good_step s (snd (transaction (SUse id uid :: ws) s)) ∧
  (fst (transaction (SUse id uid :: ws) s) = Ok tt →
   ∃ c t, st_codes s !! id = Some c ∧
          st_codes (snd (transaction (SUse id uid :: ws) s)) !! id = Some (mark_used uid t c)).
Proof.
  intros Hinv [Hws Hcount] Hbal Hown.
  apply (transaction_ok _ s (λ s', ∃ c t, st_codes s !! id = Some c ∧
           st_codes s' !! id = Some (mark_used uid t c)) Hinv).
  intros s' Hex. simpl in Hex. destruct (st_codes s !! id) as [c|] eqn:Hc; [|done].
  case_bool_decide as Hun; [|done]. set (s1 := with_codes _ _ s) in Hex.
  destruct (exec_dues _ _ _ _ _ Hws Hex) as (gs & HJ & Hlen & Hgs).
  set (c1 := mark_used uid (st_now s) c) in *.
  assert (Hcodes : st_codes s' = <[id := c1]> (st_codes s)) by apply HJ.
  assert (Hlook : ∀ i x, st_codes s' !! i = Some x → (i = id ∧ x = c1) ∨ (i ≠ id ∧ st_codes s !! i = Some x)).
  { intros i x. rewrite Hcodes. apply insert_cases. }
  assert (HR : later s s') by (trans s1; [by apply mark_used_later|by eapply journalled_later]).
  assert (Hcr : ∀ c', c' ≠ DueCode id → credits c' s' = credits c' s).
  { intros c' Hne. apply (credits_other (DueCode id) false gs s1); [apply HJ|done|congruence]. }
  assert (Hrb : ∀ c', rebates c' s' = rebates c' s).
  { intros c'. apply (rebates_other (DueCode id) false gs s1); [apply HJ|done|congruence]. }
  assert (Hid : credits (DueCode id) s' = gs).
  { rewrite (credits_app _ gs s1 s') by apply HJ. change (credits (DueCode id) s1) with (credits (DueCode id) s).
    rewrite (inv_unused _ _ Hinv id c Hc), app_nil_r by (rewrite Hun; intros ?; by apply used_not_unused).
    apply filter_all_true. intros g Hg. rewrite Forall_forall in Hgs. by destruct (Hgs g Hg). }
  assert (Hau : ∀ oid l, has_audit oid l s' = has_audit oid l s)
    by (intros; unfold has_audit; by rewrite (jr_audits _ _ _ HJ)).
  split; [split; [|done]|by exists c, (st_now s); rewrite Hcodes, lookup_insert_eq].
  pose proof (jr_orders _ _ _ HJ) as E2. pose proof (jr_now _ _ _ HJ) as E1.
  pose proof (jr_next _ _ _ HJ) as E4. pose proof (jr_locks _ _ _ HJ) as E7. simpl in E1, E2, E4, E7.
  destruct Hinv as [I1 I2 I3 I4 I5 I6 I7 I8 I9 I10 I11 I12 I13].
  split; rewrite ?E1, ?E2, ?E4, ?E7; try done.
  - intros oid o Ho. destruct (I1 _ _ Ho) as (? & ? & ? & Hcm). split_and!; [done|done|done|].
    intros Hst. eapply completable_later; [reflexivity|done|by apply Hcm].
  - intros i x [(-> & ->)|(_ & Hx)]%Hlook; [apply (I2 id c Hc)|by apply I2].
  - intros i i' x x' [(-> & ->)|(_ & Hx)]%Hlook [(-> & ->)|(_ & Hx')]%Hlook Heq; simpl in *; [done| | |];
      by eapply I3.
  - intros i x [(-> & ->)|(Hne & Hx)]%Hlook Hst; [done|]. rewrite Hcr by congruence. by eapply I4.
  - intros i Hi. destruct (decide (i = id)) as [->|Hne]; [destruct (I2 id c Hc); lia|].
    rewrite Hcr by congruence. by apply I5.
  - intros i. destruct (decide (i = id)) as [->|Hne]; [rewrite Hid; lia|]. rewrite Hcr by congruence. apply I6.
  - intros i x [(-> & ->)|(Hne & Hx)]%Hlook Hst Ht.
    + exists uid. split; [done|]. rewrite Hid. simpl in Ht. specialize (Hbal c eq_refl Ht). subst ws.
      simpl in Hex. case_bool_decide; [|done]. injection Hex as <-.
      pose proof (jr_grants _ _ _ HJ) as Hg. simpl in Hg.
      change (mkGrant (DueCode id) (balance_credit uid (rc_Value c)) :: st_grants s) with
        ([mkGrant (DueCode id) (balance_credit uid (rc_Value c))] ++ st_grants s) in Hg.
      symmetry. by apply app_inv_tail in Hg.
    + rewrite Hcr by congruence. by apply I7.
  - intros oid. rewrite Hcr, Hau by congruence. apply I8.
  - intros oid. rewrite Hrb, Hau. apply I9.
  - intros Hs oid o i x Ho Ht [(-> & ->)|(Hne & Hx)]%Hlook Hcode; [|by eapply I12].
    destruct (I12 Hs oid o id c Ho Ht Hc Hcode) as [(J1 & J2 & J3 & J4) J5].
    split; [|done]. split_and!; [done|done|done|].
    right. split; [done|]. simpl. f_equal. symmetry. by eapply Hown.
Qed.

Lemma assign_tx_ok oid ws op s :
  inv s → dues (DueOrder oid) false ws →
  good_step s (snd (transaction (ws ++ [SAssigned oid op]) s)) ∧
  (fst (transaction (ws ++ [SAssigned oid op]) s) = Ok tt →
   has_audit oid [SUBSCRIPTION_ASSIGNED] (snd (transaction (ws ++ [SAssigned oid op]) s)) = true).
Proof.
  intros Hinv [Hws Hcount]. apply (transaction_ok _ s (λ s', has_audit oid [SUBSCRIPTION_ASSIGNED] s' = true) Hinv).
  intros s' Hex. assert (∃ s1, exec_stmts ws s = Ok s1 ∧ exec_stmt (SAssigned oid op) s1 = Ok s')
    as (s1 & Hws1 & Haud).
  { clear -Hex. revert s Hex. induction ws as [|w ws IH]; intros s Hex; simpl in *.
    - exists s. split; [done|]. by destruct (has_audit _ _ s).
    - destruct (exec_stmt w s); [by apply IH|done]. }
  destruct (exec_dues _ _ _ _ _ Hws Hws1) as (gs & HJ & Hlen & Hgs).
  simpl in Haud. destruct (has_audit oid [SUBSCRIPTION_ASSIGNED] s1) eqn:Hno; [done|]. injection Haud as <-.
  set (s' := with_audits _ s1).
  assert (Hau : ∀ i l, has_audit i l s = has_audit i l s1) by (intros; unfold has_audit; by rewrite (jr_audits _ _ _ HJ)).
  assert (Hau' : ∀ i l, has_audit i l s = true → has_audit i l s' = true).
  { intros i l. rewrite Hau. unfold has_audit. simpl. intros ->. by rewrite orb_true_r. }
  assert (Hset : has_audit oid [SUBSCRIPTION_ASSIGNED] s' = true).
  { apply has_audit_iff. eexists. split; [by apply list_elem_of_here|]. split; [done|by apply list_elem_of_here]. }
  assert (HR : later s s').
  { trans s1; [by eapply journalled_later|]. apply frame_later; try first [done|simpl; lia].
    intros i l. rewrite <- Hau. apply Hau'. }
  split; [split; [|done]|done].
  assert (Hcr : ∀ c', c' ≠ DueOrder oid → credits c' s' = credits c' s).
  { intros c' Hne. apply (credits_other (DueOrder oid) false gs); [apply HJ|done|congruence]. }
  assert (Hrb : ∀ c', rebates c' s' = rebates c' s).
  { intros c'. apply (rebates_other (DueOrder oid) false gs); [apply HJ|done|congruence]. }
  pose proof (jr_orders _ _ _ HJ) as E2. pose proof (jr_now _ _ _ HJ) as E1. pose proof (jr_codes _ _ _ HJ) as E3.
  pose proof (jr_next _ _ _ HJ) as E4. pose proof (jr_locks _ _ _ HJ) as E7.
  destruct Hinv as [I1 I2 I3 I4 I5 I6 I7 I8 I9 I10 I11 I12 I13].
  split; simpl; rewrite ?E1, ?E2, ?E3, ?E4, ?E7; try done.
  - intros i o Ho. destruct (I1 _ _ Ho) as (? & ? & ? & Hcm). split_and!; [done|done|done|].
    intros Hst. eapply completable_later; [reflexivity|done|by apply Hcm].
  - intros i c Hc Hst. rewrite Hcr by done. by eapply I4.
  - intros i Hi. rewrite Hcr by done. by apply I5.
  - intros i. rewrite Hcr by done. apply I6.
  - intros i c Hc Hst Ht. destruct (I7 i c Hc Hst Ht) as (u & Hu & Hg). exists u. by rewrite Hcr by done.
  - intros i. destruct (decide (i = oid)) as [->|Hne].
    + right. split; [|done]. destruct (I8 oid) as [Hnil|[_ Hold]]; [|by rewrite Hau, Hno in Hold].
      rewrite (credits_app _ gs s s') by apply HJ. rewrite Hnil, app_nil_r.
      pose proof (length_filter (λ g, gr_cause g = DueOrder oid ∧ is_rebate (gr_what g) = false) gs). lia.
    + rewrite Hcr by congruence. destruct (I8 i) as [?|[? ?]]; [by left|right]. split; [done|by apply Hau'].
  - intros i. rewrite Hrb. destruct (I9 i) as [?|[? ?]]; [by left|right]. split; [done|by apply Hau'].
Qed.

(** The claim, the accrual and, when nothing was accrued, the renaming of the
    claimed entry. *)
Definition rebate_tail (oid : Z) (skipped : bool) : list stmt := if skipped then [SSkipRebate oid] else [].

Lemma exec_app l1 l2 : ∀ s s', exec_stmts (l1 ++ l2) s = Ok s' →
  ∃ s1, exec_stmts l1 s = Ok s1 ∧ exec_stmts l2 s1 = Ok s'.
Proof.
  induction l1 as [|st l1 IH]; intros s s' Hex; simpl in *; [by eauto|].
  destruct (exec_stmt st s); [by apply IH|done].
Qed.

(** Renaming the claimed entry touches no other entry. *)
Lemma skip_keeps_audits oid s s' i l :
  exec_stmt (SSkipRebate oid) s = Ok s' → REBATE_APPLIED ∉ l → has_audit i l s = true → has_audit i l s' = true.
Proof.
  simpl. destruct (has_audit oid [REBATE_SKIPPED] s); [done|]. intros [= <-] Hl Ha.
  apply has_audit_iff in Ha as (a & Ha & Hi & Hal). apply has_audit_iff. simpl.
  exists (if (au_OrderID a =? oid) && bool_decide (au_Action a = REBATE_APPLIED)
          then mkAudit oid REBATE_SKIPPED (au_Operator a) (au_CreatedAt a) DText else a).
  split; [apply list_elem_of_fmap; by exists a|]. case_match eqn:Hc; [|done].
  bool_hyp. congruence.
Qed.

Lemma tail_keeps_audits oid skipped s s' i l :
  exec_stmts (rebate_tail oid skipped) s = Ok s' → REBATE_APPLIED ∉ l ∨ i ≠ oid →
  has_audit i l s = true → has_audit i l s' = true.
Proof.
  intros Htail Hl Ha. destruct skipped; simpl in Htail; [|by injection Htail as <-].
  destruct (has_audit oid [REBATE_SKIPPED] s) eqn:Hsk; [done|]. injection Htail as <-.
  destruct Hl as [Hl|Hi]; [eapply (skip_keeps_audits oid s); [simpl; by rewrite Hsk|done|done]|].
  apply has_audit_iff in Ha as (a & Ha1 & Ha2 & Ha3). apply has_audit_iff. exists a. split; [|done].
  simpl. apply list_elem_of_fmap. exists a. split; [|done].
  by rewrite (proj2 (Z.eqb_neq _ _)) by congruence.
Qed.

Lemma rebate_tx_ok oid ws skipped s :
  inv s → dues (DueOrder oid) true ws → (skipped = true → filter granting ws = []) →
  good_step s (snd (transaction (SClaimRebate oid :: ws ++ rebate_tail oid skipped) s)).
Proof.
  intros Hinv [Hws Hcount] Hskip. apply (transaction_ok _ s (λ _, True) Hinv). intros s' Hex. split; [|done].
  simpl in Hex. destruct (has_audit oid [REBATE_APPLIED] s) eqn:Hno; [done|].
  set (s1 := with_audits _ s) in Hex. apply exec_app in Hex as (s2 & Hex & Htail).
  destruct (exec_dues _ _ _ _ _ Hws Hex) as (gs & HJ & Hlen & Hgs).
  assert (Hgr : st_grants s' = gs ++ st_grants s ∧ st_now s' = st_now s ∧ st_orders s' = st_orders s ∧
                st_codes s' = st_codes s ∧ st_next_code s' = st_next_code s ∧ st_locks s' = st_locks s).
  { destruct HJ as [E1 E2 E3 E4 E5 E6 E7]. destruct skipped; simpl in Htail;
      [destruct (has_audit oid [REBATE_SKIPPED] s2); [done|]|]; injection Htail as <-; simpl in *;
      rewrite E1, E2, E3, E4, E6, E7; done. }
  destruct Hgr as (E6 & E1 & E2 & E3 & E4 & E7).
  assert (Hsub : ∀ i l, has_audit i l s = true → has_audit i l s2 = true).
  { intros i l. unfold has_audit. rewrite (jr_audits _ _ _ HJ). simpl. intros ->. by rewrite orb_true_r. }
  assert (Hau : ∀ i l, REBATE_APPLIED ∉ l ∨ i ≠ oid → has_audit i l s = true → has_audit i l s' = true)
    by (intros i l Hl Ha; eapply (tail_keeps_audits oid skipped s2); [exact Htail|exact Hl|by apply Hsub]).
  assert (HR : later s s').
  { split; rewrite ?E1, ?E2, ?E3; try done; [intros i o Ho; exists o; by split|intros i c Hc; exists c; by split| |].
    - by exists gs.
    - intros i. apply Hau. left. by intros [?|?%list_elem_of_singleton]%elem_of_cons. }
  split; [|done].
  assert (Hcr : ∀ c', credits c' s' = credits c' s).
  { intros c'. by apply (credits_other (DueOrder oid) true gs). }
  assert (Hrb : ∀ c', c' ≠ DueOrder oid → rebates c' s' = rebates c' s).
  { intros c' Hne. apply (rebates_other (DueOrder oid) true gs); [done|done|congruence]. }
  destruct Hinv as [I1 I2 I3 I4 I5 I6 I7 I8 I9 I10 I11 I12 I13].
  split; simpl; rewrite ?E1, ?E2, ?E3, ?E4, ?E7; try done.
  - intros i o Ho. destruct (I1 _ _ Ho) as (? & ? & ? & Hcm). split_and!; [done|done|done|].
    intros Hst. eapply completable_later; [reflexivity|done|by apply Hcm].
  - intros i c Hc Hst. rewrite Hcr. by eapply I4.
  - intros i Hi. rewrite Hcr. by apply I5.
  - intros i. rewrite Hcr. apply I6.
  - intros i c Hc Hst Ht. destruct (I7 i c Hc Hst Ht) as (u & Hu & Hg). exists u. by rewrite Hcr.
  - intros i. rewrite Hcr. destruct (I8 i) as [?|[? ?]]; [by left|right]. split; [done|]. apply Hau; [|done].
    left. by intros ?%list_elem_of_singleton.
  - intros i. destruct (decide (i = oid)) as [->|Hne].
    + destruct (I9 oid) as [Hnil|[_ Hold]]; [|congruence].
      rewrite (rebates_app _ gs s s') by done. rewrite Hnil, app_nil_r.
      destruct skipped; [left|right].
      * rewrite (Hskip eq_refl) in Hlen. by destruct gs; simpl in *; [|lia].
      * split; [pose proof (length_filter (λ g, gr_cause g = DueOrder oid ∧ is_rebate (gr_what g) = true) gs); lia|].
        injection Htail as <-. apply has_audit_iff. rewrite (jr_audits _ _ _ HJ). simpl.
        eexists. split; [by apply list_elem_of_here|]. split; [done|by apply list_elem_of_here].
    + rewrite Hrb by congruence. destruct (I9 i) as [?|[? ?]]; [by left|right]. split; [done|].
      apply Hau; [by right|done].
Qed.

End steps.
End PaymentInvariant.
