(* ===== verification/PaymentSafety.v ===== *)
(** * Payments under any interleaving: credited once, never lost

    Each program of the payment and redeem services is safe at every moment it may
    be run: it keeps the invariant of [PaymentInvariant] whatever other programs do
    between its calls. *)

From S2P Require Import Prelude Float64 GoStrings PaymentOrder Subscription Database Interleaving PaymentStore Redeem Payment PaymentInvariant.

Module PaymentSafety.
Import GoStrings PaymentOrder PaymentStore Redeem Payment PaymentInvariant.

Section programs.
Context `{Database} `{Numeric} `{TimeZones} `{UnicodeFold} `{Decimal} (sv : Service) (strict : Prop).
Abbreviation inv := (inv strict).
Abbreviation good_step := (good_step (strict := strict)).

(** ** Programs *)

Abbreviation safe := (Interleaving.safe Lost st_now inv later).

(** Facts that later stores keep. *)
Definition stable (P : Store → Prop) : Prop := ∀ s s', P s → later s s' → inv s' → P s'.

(** A result that, when it is a success, satisfies [P]. *)
Definition ok_post {A} (P : A → Store → Prop) (r : result perror A) (s : Store) : Prop :=
  match r with Ok a => P a s | Err _ => True end.
Definition any {A} (r : A) (s : Store) : Prop := True.

Lemma s_weaken {A} (p : prg A) (P : A → Store → Prop) s : safe p P s → safe p any s.
Proof. intros Hp. by eapply (safe_weaken Lost st_now inv later). Qed.

Lemma s_err {A} (P : A → Store → Prop) e s : safe (Ret (Err e) : prg (result perror A)) (ok_post P) s.
Proof. intros s' _ _. done. Qed.
Lemma s_any {A} (a : A) s : safe (Ret a : prg A) any s.
Proof. intros s' _ _. done. Qed.

Lemma s_try {A B} (w : perror → perror) (p : prg (result perror A)) (k : A → prg (result perror B)) P Q s :
  inv s → safe p (ok_post P) s →
  (∀ a s', later s s' → inv s' → P a s' → safe (k a) (ok_post Q) s') →
  safe (on_error w p k) (ok_post Q) s.
Proof.
  intros Hinv Hp Hk. eapply (safe_bind Lost st_now inv later); [done|exact Hp|]. intros [a|e] s' HR Hinv' HP; [by apply Hk|].
  intros s'' _ _. done.
Qed.

Lemma s_bind {A B} (p : prg A) (k : A → prg B) P Q s :
  inv s → safe p P s → (∀ a s', later s s' → inv s' → P a s' → safe (k a) Q s') → safe (bind p k) Q s.
Proof. intros Hinv Hp Hk. by eapply (safe_bind Lost st_now inv later). Qed.

Lemma s_read {A B} (q : Store → result dberr A) (k : result dberr A → prg B) Q s :
  (∀ s', later s s' → inv s' → safe (k (q s')) Q s') →
  (∀ s', later s s' → inv s' → safe (k (Err Lost)) Q s') →
  safe (bind (read q) k) Q s.
Proof. intros Hq He. by apply (safe_read Lost st_now inv later). Qed.

Lemma s_write {A B} (w : Store → result dberr A * Store) (k : result dberr A → prg B) Q s :
  (∀ s', later s s' → inv s' → good_step s' (snd (w s')) ∧ safe (k (fst (w s'))) Q (snd (w s'))) →
  (∀ s', later s s' → inv s' → safe (k (Err Lost)) Q s') →
  safe (bind (write w) k) Q s.
Proof.
  intros Hq He. apply (safe_write Lost st_now inv later); [|done]. intros s' HR Hinv. destruct (Hq s' HR Hinv) as [[? ?] ?]. done.
Qed.

Lemma s_clock {B} (k : time → prg B) Q s :
  (∀ s', later s s' → inv s' → safe (k (st_now s')) Q s') → safe (bind clock k) Q s.
Proof. intros Hk. by apply (safe_now Lost st_now inv later). Qed.

Lemma s_ask {A B} (q : question A) (k : A → prg B) Q s :
  (∀ x s', later s s' → inv s' → safe (k x) Q s') → safe (bind (ask q) k) Q s.
Proof. intros Hk. by apply (safe_ask Lost st_now inv later). Qed.

Lemma s_lift_read {A} (q : Store → result dberr A) (P : A → Store → Prop) s :
  (∀ s' a, later s s' → inv s' → q s' = Ok a → P a s') → (∀ a, stable (P a)) →
  safe (lift (read q)) (ok_post P) s.
Proof.
  intros Hq HP. apply s_read; [|intros; apply s_err]. intros s' HR Hinv.
  destruct (q s') as [a|e] eqn:Hq'; [|apply s_err]. intros s'' HR' Hinv'. simpl. eapply HP; [by eapply Hq|done|done].
Qed.

Lemma s_lift_write {A} (w : Store → result dberr A * Store) (P : A → Store → Prop) s :
  (∀ s', later s s' → inv s' → good_step s' (snd (w s')) ∧ ∀ a, fst (w s') = Ok a → P a (snd (w s'))) →
  (∀ a, stable (P a)) → safe (lift (write w)) (ok_post P) s.
Proof.
  intros Hw HP. apply s_write; [|intros; apply s_err]. intros s' HR Hinv.
  destruct (Hw s' HR Hinv) as [Hg Hok]. split; [done|]. destruct (fst (w s')) as [a|e]; [|apply s_err].
  intros s'' HR' Hinv'. simpl. eapply HP; [by apply Hok|done|done].
Qed.

Lemma s_lift_ask {A} (q : question (result dberr A)) s : safe (lift (ask q)) (ok_post any) s.
Proof. apply s_ask. intros [x|e] s' _ _; [by intros ? ? ?|apply s_err]. Qed.

(** *** Facts *)

Lemma stable_True {A} (a : A) : stable (any a).
Proof. done. Qed.

(** The row [o] was read from: its fixed columns. *)
Definition known (o : Order) (s : Store) : Prop :=
  ∃ o', st_orders s !! o_ID o = Some o' ∧ core_of o' = core_of o.

Lemma known_stable o : stable (known o).
Proof.
  intros s s' (o' & Ho & Hc) HR _. destruct (lt_orders _ _ HR _ _ Ho) as (o'' & Ho'' & Hle).
  exists o''. split; [done|]. destruct Hle. congruence.
Qed.

Lemma completable_stable o : stable (completable o).
Proof. intros s s' Hc HR _. by eapply completable_later. Qed.

Lemma get_order_known oid o s : inv s → get_order oid s = Ok o → known o s ∧ o_ID o = oid.
Proof.
  unfold get_order. intros Hinv Hf. destruct (st_orders s !! oid) as [x|] eqn:Hx; [|done]. injection Hf as ->.
  destruct (inv_order _ _ Hinv oid o Hx) as [<- _]. split; [|done]. by exists o.
Qed.

Lemma known_and_id oid (o : Order) : stable (λ s, known o s ∧ o_ID o = oid).
Proof. intros s s' [Hk Hi] HR Hinv. split; [by eapply known_stable|done]. Qed.

Lemma read_order_spec oid s :
  safe (lift (read (get_order oid))) (ok_post (λ o s, known o s ∧ o_ID o = oid)) s.
Proof. apply s_lift_read; [intros s' o _ Hinv Hq; by apply get_order_known|intros o; apply known_and_id]. Qed.

(** *** Small programs *)

Lemma writeAuditLog_safe oid a op s : safe (writeAuditLog oid a op) any s.
Proof.
  apply s_write; [|intros; apply s_any]. intros s' _ Hinv. split; [by apply insert_audit_ok|apply s_any].
Qed.

Lemma hasAuditLog_safe oid a s : safe (hasAuditLog oid a) any s.
Proof. apply s_read; intros; apply s_any. Qed.

Lemma unit_write_safe (w : Store → result dberr unit * Store) s :
  (∀ s', inv s' → good_step s' (snd (w s'))) → safe (write w) any s.
Proof.
  intros Hw. apply (safe_write Lost st_now inv later); [|intros; apply s_any].
  intros s' _ Hinv. destruct (Hw s' Hinv) as [? ?]. split_and!; [done|done|apply s_any].
Qed.

Lemma incrementRedeemErrorCount_safe uid s : safe (incrementRedeemErrorCount sv uid) any s.
Proof.
  unfold incrementRedeemErrorCount. case_match; [apply s_any|].
  apply s_write; [|intros; apply s_any]. intros s' _ Hinv. split; [by apply increment_attempts_ok|apply s_any].
Qed.

Lemma checkRedeemRateLimit_safe uid s : safe (checkRedeemRateLimit sv uid) (ok_post any) s.
Proof.
  unfold checkRedeemRateLimit. case_match; [by intros ? ? ?|].
  apply s_read; intros; repeat case_match; by intros ? ? ?.
Qed.

Lemma acquireRedeemLock_safe code s : safe (acquireRedeemLock sv code) any s.
Proof.
  unfold acquireRedeemLock. case_match; [apply s_any|].
  apply s_write; [|intros; apply s_any]. intros s' _ Hinv. split; [by apply set_nx_ok|apply s_any].
Qed.

Lemma releaseRedeemLock_safe code s : safe (releaseRedeemLock sv code) any s.
Proof.
  unfold releaseRedeemLock. case_match; [apply s_any|].
  apply s_write; [|intros; apply s_any]. intros s' _ Hinv. split; [by apply del_key_ok|apply s_any].
Qed.

(** *** Accruing a rebate *)

Lemma dues_nil c b : dues c b [].
Proof. split; [constructor|simpl; lia]. Qed.

Lemma granting_ensure uid : ¬ granting (SEnsureAffiliate uid).
Proof. intros [? [=]]. Qed.

(** Writes of [EnsureUserAffiliate]: no journal entry. *)
Definition ensures (ws : list stmt) : Prop := Forall (λ st, ∃ uid, st = SEnsureAffiliate uid) ws.

Lemma ensures_dues c b ws : ensures ws → dues c b ws ∧ filter granting ws = [].
Proof.
  intros Hws. assert (Hnil : filter granting ws = []).
  { apply filter_all_false. intros st Hst. unfold ensures in Hws. rewrite Forall_forall in Hws.
    destruct (Hws st Hst) as [uid ->]. apply granting_ensure. }
  split; [|done]. split; [|rewrite Hnil; simpl; lia].
  eapply Forall_impl; [exact Hws|]. intros st [uid ->]. by split; [|left].
Qed.

Lemma ensures_accrue c ws inviter invitee x h :
  ensures ws → dues c true (ws ++ [SAccrue c inviter invitee x h]).
Proof.
  intros Hws. destruct (ensures_dues c true ws Hws) as [[Hf _] Hnil]. split.
  - apply Forall_app. split; [done|]. constructor; [|done]. by split; [|right].
  - rewrite filter_app, Hnil. apply (length_filter granting [SAccrue c inviter invitee x h]).
Qed.

Lemma EnsureUserAffiliate_safe in_tx uid s :
  inv s → safe (EnsureUserAffiliate in_tx uid) (ok_post (λ x _, ensures (snd x))) s.
Proof.
  intros Hinv. unfold EnsureUserAffiliate. case_match; [apply s_err|].
  eapply (s_try _ _ _ any); [done|by apply s_lift_read|]. intros [a|] s1 _ Hinv1 _; [by intros ? ? ?; constructor|].
  eapply (s_try _ _ _ (λ ws _, ensures ws)); [done| |].
  - destruct in_tx; [by intros ? ? ?; repeat econstructor|].
    eapply (s_try _ _ _ any); [done| |intros; intros ? ? ?; constructor].
    apply s_lift_write; [|done]. intros s2 _ Hinv2. split; [|done].
    apply (accrue_tx_ok 0); [done|]. apply ensures_dues. by repeat econstructor.
  - intros ws s2 _ Hinv2 Hws. eapply (s_try _ _ _ any); [done|by apply s_lift_read|].
    intros a s3 _ Hinv3 _. apply s_clock. intros s4 _ _. destruct a as [a|]; [by intros ? ? ?|].
    destruct in_tx; [by intros ? ? ?|apply s_err].
Qed.

(** What [AccrueInviteRebateForOrder] leaves to its caller. *)
Definition accrued (c : cause) (x : float64 * list stmt) (_ : Store) : Prop :=
  dues c true (snd x) ∧ (Float.le (fst x) Float.zero = true → filter granting (snd x) = []).

Lemma accrued_zero c ws s : ensures ws → accrued c (Float.zero, ws) s.
Proof. intros Hws. destruct (ensures_dues c true ws Hws). by split. Qed.

Lemma resolveRebateRatePercent_safe a s : safe (resolveRebateRatePercent a) any s.
Proof.
  unfold resolveRebateRatePercent. case_match; [case_match|]; try apply s_any; apply s_ask; intros; apply s_any.
Qed.

Lemma AccrueInviteRebateForOrder_safe in_tx c invitee base s :
  inv s → (in_tx = false → ∃ id, c = DueCode id) →
  safe (AccrueInviteRebateForOrder in_tx c invitee base) (ok_post (accrued c)) s.
Proof.
  intros Hinv Hc. unfold AccrueInviteRebateForOrder.
  assert (Hzero : ∀ ws s, ensures ws → safe (Ret (Ok (Float.zero, ws)) : prg (result perror (float64 * list stmt))) (ok_post (accrued c)) s)
    by (intros ws s0 Hws ? _ _; by apply accrued_zero).
  case_match; [by apply Hzero; constructor|]. apply s_ask. intros st s1 _ Hinv1.
  case_match; [by apply Hzero; constructor|].
  eapply s_try; [done|by apply EnsureUserAffiliate_safe|]. intros [a ws1] s2 _ Hinv2 Hws1. simpl in Hws1.
  destruct (af_InviterID a) as [inviter|]; [|by apply Hzero]. case_match; [by apply Hzero|].
  eapply s_try; [done|by apply EnsureUserAffiliate_safe|]. intros [b ws2] s3 _ Hinv3 Hws2. simpl in Hws2.
  assert (Hws : ensures (ws1 ++ ws2)) by (by apply Forall_app).
  apply s_ask. intros st' s4 _ Hinv4. apply s_clock. intros s5 _ Hinv5. case_match; [by apply Hzero|].
  eapply s_bind; [done|apply resolveRebateRatePercent_safe|]. intros rate s6 _ Hinv6 _.
  case_match; [by apply Hzero|]. apply s_ask. intros st3 s7 _ Hinv7.
  eapply (s_try _ _ _ any); [done| |].
  { case_match; [|by intros ? ? ?]. eapply (s_try _ _ _ any); [done|apply s_lift_ask|].
    intros x s8 _ _ _. case_match; by intros ? ? ?. }
  intros [rebate|] s8 _ Hinv8 _; [|by apply Hzero]. apply s_ask. intros st4 s9 _ Hinv9.
  destruct (Float.le rebate Float.zero) eqn:Hle; [by apply Hzero|].
  destruct in_tx.
  - intros ? _ _. simpl. rewrite app_assoc. split; simpl; [by apply ensures_accrue|by rewrite Hle].
  - destruct (Hc eq_refl) as [id ->]. eapply (s_try _ _ _ any); [done| |].
    + apply s_lift_write; [|done]. intros s10 _ Hinv10. split; [|done].
      apply (accrue_tx_ok id); [done|]. apply (ensures_accrue _ []). constructor.
    + intros. intros ? _ _. split; [apply dues_nil|done].
Qed.

(** *** Redeeming *)

Lemma only_Ok {A} (l : list A) a : only l = Ok a → l = [a].
Proof. destruct l as [|x [|y l]]; simpl; congruence. Qed.

Lemma rows_elem {A} (m : gmap Z A) a : a ∈ rows m ↔ ∃ id, m !! id = Some a.
Proof.
  unfold rows. rewrite list_elem_of_fmap. split.
  - intros ([id x] & -> & Hx). exists id. by apply elem_of_map_to_list in Hx.
  - intros [id Hid]. exists (id, a). split; [done|by apply elem_of_map_to_list].
Qed.

Lemma code_by_code_Ok code s rc : inv s → code_by_code code s = Ok rc →
  st_codes s !! rc_ID rc = Some rc ∧ rc_Code rc = code.
Proof.
  intros Hinv Hq. apply only_Ok in Hq. assert (Hin : rc ∈ [rc]) by apply list_elem_of_here.
  rewrite <- Hq in Hin. apply list_elem_of_filter in Hin as [Hcode [id Hid]%rows_elem].
  destruct (inv_code_id _ _ Hinv id rc Hid) as [<- _]. done.
Qed.

(** The row a code was read from, whatever became of it. *)
Definition code_known (rc : RedeemCode) (s : Store) : Prop :=
  ∃ c, st_codes s !! rc_ID rc = Some c ∧ code_le rc c.

Lemma code_known_stable rc : stable (code_known rc).
Proof.
  intros s s' (c & Hc & Hle) HR _. destruct (lt_codes _ _ HR _ _ Hc) as (c' & Hc' & Hle').
  exists c'. split; [done|by etrans].
Qed.

Lemma code_le_fields c c' : code_le c c' →
  rc_ID c' = rc_ID c ∧ rc_Code c' = rc_Code c ∧ rc_Type c' = rc_Type c ∧ rc_Value c' = rc_Value c.
Proof. intros [->|(_ & u & t & ->)]; done. Qed.

Definition used_by (code : bytes) (uid : Z) (s : Store) : Prop :=
  ∃ id c, st_codes s !! id = Some c ∧ rc_Code c = code ∧ rc_Status c = StatusUsed ∧ rc_UsedBy c = Some uid.

Lemma used_by_stable code uid : stable (used_by code uid).
Proof.
  intros s s' (id & c & Hc & Hcode & Hst & Hu) HR _. destruct (lt_codes _ _ HR _ _ Hc) as (c' & Hc' & Hle).
  apply code_le_used in Hle; [subst|done]. by exists id, c.
Qed.

(** Under [strict], only an order's own user redeems its recharge code. *)
Definition may_redeem (uid : Z) (code : bytes) (s : Store) : Prop :=
  strict → ∀ oid o, st_orders s !! oid = Some o → o_OrderType o = OrderTypeBalance →
    o_RechargeCode o = code → o_UserID o = uid.

Lemma later_order_back s s' oid o' : later s s' → st_orders s' !! oid = Some o' →
  ∃ o, st_orders s !! oid = Some o ∧ core_of o = core_of o'.
Proof.
  intros HR Ho'. destruct (lt_orders_back _ _ HR oid o' Ho') as [o Ho].
  destruct (lt_orders _ _ HR oid o Ho) as (o'' & Ho'' & [Hc _ _]). exists o. split; [done|congruence].
Qed.

Lemma may_redeem_stable uid code : stable (may_redeem uid code).
Proof.
  intros s s' Hm HR _ Hs oid o' Ho' Ht Hcode. destruct (later_order_back _ _ _ _ HR Ho') as (o & Ho & Hc).
  apply core_fields in Hc as (_ & <- & _ & Hr & _ & Hty & _). apply (Hm Hs oid o Ho); congruence.
Qed.

Definition entitled (uid : Z) (rc : RedeemCode) (ws : list stmt) (_ : Store) : Prop :=
  dues (DueCode (rc_ID rc)) false ws ∧
  (rc_Type rc = RedeemTypeBalance → ws = [SGrant (DueCode (rc_ID rc)) (balance_credit uid (rc_Value rc))]).

Lemma dues_single c b w : neutral w → stmt_due w = None ∨ stmt_due w = Some (c, b) → dues c b [w].
Proof. intros Hn Hd. split; [constructor; [by split|constructor]|]. apply (length_filter granting [w]). Qed.

Lemma assignOrExtendSubscription_safe c uid gid days notes s :
  inv s → safe (assignOrExtendSubscription c uid gid days notes) (ok_post (λ w _, dues c false [w])) s.
Proof.
  intros Hinv. unfold assignOrExtendSubscription.
  eapply (s_try _ _ _ any); [done|by apply s_lift_read|]. intros g s1 _ Hinv1 _. case_match; [apply s_err|].
  apply s_read; intros s2 _ Hinv2; apply s_clock; intros s3 _ _ s4 _ _; simpl;
    [case_match|]; (apply dues_single; [done|by right]).
Qed.

Lemma reduceOrCancelSubscription_safe c uid gid days notes s :
  inv s → safe (reduceOrCancelSubscription uid gid days notes) (ok_post (λ w _, dues c false [w])) s.
Proof.
  intros Hinv. unfold reduceOrCancelSubscription. apply s_read; [|intros; apply s_err].
  intros s1 _ Hinv1. case_match; [|apply s_err]. apply s_clock. intros s2 _ _ s3 _ _. apply dues_single; [done|by left].
Qed.

Lemma entitle_safe uid rc s : inv s → safe (entitle uid rc) (ok_post (entitled uid rc)) s.
Proof.
  intros Hinv. unfold entitle. case_bool_decide as Hbal.
  { intros s' _ _. split; [|intros _; by unfold balance_credit].
    apply dues_single; [done|]. right. simpl. by case_match. }
  case_bool_decide as Hcon.
  { intros s' _ _. split; [|done]. apply dues_single; [done|]. right. simpl. by case_match. }
  assert (Hsingle : ∀ w s', dues (DueCode (rc_ID rc)) false [w] → entitled uid rc [w] s') by (by split).
  case_match; (eapply (s_try _ _ _ (λ w _, dues (DueCode (rc_ID rc)) false [w]));
    [done| |intros w s' _ _ Hw s'' _ _; by apply Hsingle]); [by apply reduceOrCancelSubscription_safe|by apply assignOrExtendSubscription_safe].
Qed.

Lemma tryAccrue_safe skip id uid amount s :
  inv s → safe (tryAccrueAffiliateRebateForRedeem sv skip (DueCode id) uid amount) any s.
Proof.
  intros Hinv. unfold tryAccrueAffiliateRebateForRedeem. case_match; [apply s_any|]. case_match; [apply s_any|].
  apply s_ask. intros st s1 _ Hinv1. case_match; [apply s_any|].
  eapply s_bind; [done|apply AccrueInviteRebateForOrder_safe; [done|by eauto]|]. intros; apply s_any.
Qed.

(** The transaction of a redemption, when its row has changed since it was read. *)
Lemma redeem_tx uid code rc ws s :
  inv s → code_known rc s → rc_Code rc = code → may_redeem uid code s → entitled uid rc ws s →
  good_step s (snd (transaction (SUse (rc_ID rc) uid :: ws) s)) ∧
  (fst (transaction (SUse (rc_ID rc) uid :: ws) s) = Ok tt →
   used_by code uid (snd (transaction (SUse (rc_ID rc) uid :: ws) s))).
Proof.
  intros Hinv (c & Hc & Hle) Hcode Hmay [Hdues Hbal]. destruct (code_le_fields _ _ Hle) as (_ & Ec & Et & Ev).
  destruct (use_tx_ok (rc_ID rc) uid ws s Hinv Hdues) as [Hg Hok].
  - intros c' Hc' Ht. rewrite Hc in Hc'. injection Hc' as <-. rewrite Ev. apply Hbal. congruence.
  - intros Hs c' oid o Hc' Ho Ht Hr. rewrite Hc in Hc'. injection Hc' as <-. apply (Hmay Hs oid o Ho Ht). congruence.
  - split; [done|]. intros Hfst. destruct (Hok Hfst) as (c' & t & Hc' & Hnew). rewrite Hc in Hc'. injection Hc' as <-.
    exists (rc_ID rc), (mark_used uid t c). split_and!; [done|simpl; congruence|done|done].
Qed.

Lemma redeem_fail_safe (enforce : bool) uid e (P : RedeemCode → Store → Prop) s :
  inv s → safe (bind (if enforce then incrementRedeemErrorCount sv uid else Ret tt : prg unit)
                     (λ _, Ret (Err e) : prg (result perror RedeemCode))) (ok_post P) s.
Proof.
  intros Hinv. eapply (s_bind _ _ any); [done| |intros; apply s_err].
  destruct enforce; [apply incrementRedeemErrorCount_safe|apply s_any].
Qed.

Lemma redeem_locked_safe enforce skip uid code s :
  inv s → may_redeem uid code s →
  safe (redeem_locked sv enforce skip uid code) (ok_post (λ _, used_by code uid)) s.
Proof.
  intros Hinv Hmay. unfold redeem_locked. cbv zeta. apply s_read; [|intros; apply s_err].
  intros s1 HR1 Hinv1. destruct (code_by_code code s1) as [rc|e] eqn:Hq;
    [|by destruct e; try apply s_err; apply redeem_fail_safe].
  destruct (code_by_code_Ok _ _ _ Hinv1 Hq) as [Hrow Hcode].
  assert (Hknown : code_known rc s1) by (by exists rc).
  assert (Hmay1 : may_redeem uid code s1) by (by eapply may_redeem_stable).
  apply s_clock. intros s2 HR2 Hinv2. case_match; [by apply redeem_fail_safe|].
  apply s_clock. intros s3 HR3 Hinv3. case_match; [by apply redeem_fail_safe|].
  case_match; [apply s_err|]. case_match; [apply s_err|].
  eapply (s_try _ _ _ any); [done|by apply s_lift_read|]. intros _ s4 HR4 Hinv4 _.
  eapply (s_try _ _ _ any); [done|by apply s_lift_read|]. intros _ s5 HR5 Hinv5 _.
  eapply s_try; [done|by apply entitle_safe|]. intros ws s6 HR6 Hinv6 Hws.
  assert (HR : later s1 s6) by (etrans; [exact HR2|]; etrans; [exact HR3|]; etrans; [exact HR4|]; by etrans).
  eapply (s_try _ _ _ (λ _, used_by code uid)); [done| |].
  { apply s_lift_write; [|intros _; apply used_by_stable]. intros s7 HR7 Hinv7.
    assert (later s1 s7) by by etrans.
    destruct (redeem_tx uid code rc ws s7) as [Hg Hok]; [done|by eapply code_known_stable|done| |done|].
    - by eapply may_redeem_stable.
    - split; [done|]. intros []. apply Hok. }
  intros _ s8 HR8 Hinv8 Hused. eapply (s_bind _ _ any); [done| |].
  { case_match; [by apply tryAccrue_safe|apply s_any]. }
  intros _ s9 HR9 Hinv9 _. apply s_read; [|intros; apply s_err]. intros s10 HR10 Hinv10.
  case_match; [|apply s_err]. intros s11 HR11 Hinv11. simpl.
  eapply used_by_stable; [exact Hused| |done]. etrans; [exact HR9|]. by etrans.
Qed.

Lemma redeem_safe enforce skip uid code s :
  inv s → may_redeem uid code s →
  safe (redeem sv enforce skip uid code) (ok_post (λ _, used_by code uid)) s.
Proof.
  intros Hinv Hmay. unfold redeem. eapply (s_try _ _ _ any); [done| |].
  { destruct enforce; [apply checkRedeemRateLimit_safe|by intros ? ? ?]. }
  intros _ s1 HR1 Hinv1 _. eapply s_bind; [done|apply acquireRedeemLock_safe|].
  intros locked s2 HR2 Hinv2 _. case_match; [apply s_err|].
  assert (Hmay2 : may_redeem uid code s2) by (eapply may_redeem_stable; [exact Hmay| |done]; by etrans).
  eapply s_bind; [done|by apply redeem_locked_safe|]. intros r s3 HR3 Hinv3 Hr.
  eapply s_bind; [done|apply releaseRedeemLock_safe|]. intros _ s4 HR4 Hinv4 _.
  intros s5 HR5 Hinv5. destruct r as [rc|e]; [|done]. simpl in *.
  eapply used_by_stable; [exact Hr|by etrans|done].
Qed.

(** *** The order's own code *)

(** The order has been paid. *)
Definition funded_row (oid : Z) (s : Store) : Prop := ∃ o, st_orders s !! oid = Some o ∧ o_Status o ∈ funded.

Lemma funded_row_stable oid : stable (funded_row oid).
Proof.
  intros s s' (o & Ho & Hf) HR _. destruct (lt_orders _ _ HR _ _ Ho) as (o' & Ho' & [_ Hst _]).
  exists o'. split; [done|by eapply funded_step].
Qed.

(** A row under the order's recharge code is a balance code of its amount. *)
Definition order_code (o : Order) (s : Store) : Prop :=
  ∃ rc, code_known rc s ∧ rc_Code rc = o_RechargeCode o ∧ rc_Type rc = RedeemTypeBalance ∧ value_ok o rc = true.

Lemma order_code_stable o : stable (order_code o).
Proof. intros s s' (rc & Hk & Hrc) HR Hinv. exists rc. split; [by eapply code_known_stable|done]. Qed.

Lemma order_credited o s : inv s → order_code o s → used_by (o_RechargeCode o) (o_UserID o) s → credited o s.
Proof.
  intros Hinv (rc & (c & Hc & Hle) & Hcode & Ht & Hv) (id & c' & Hc' & Hcode' & Hst & Hu).
  destruct (code_le_fields _ _ Hle) as (_ & Ec & Et & Ev).
  assert (rc_ID rc = id) as <- by (eapply (inv_code_unique _ _ Hinv); [done|done|congruence]).
  rewrite Hc in Hc'. injection Hc' as <-. exists (rc_ID rc), c.
  split_and!; [done|congruence|congruence| |done|done]. revert Hv. unfold value_ok. by rewrite Ev.
Qed.

Lemma known_formed o s : inv s → known o s → well_formed o.
Proof. intros Hinv (o' & Ho & Hc). eapply well_formed_core; [exact Hc|]. by eapply inv_formed. Qed.

Lemma value_ok_same o rc : Float.finite (o_Amount o) = true → rc_Value rc = o_Amount o → value_ok o rc = true.
Proof.
  unfold value_ok, Float.finite. intros Hf ->. rewrite Float.sub_self by done.
  apply andb_true_iff in Hf as [->%negb_true_iff ->%negb_true_iff]. done.
Qed.

Lemma create_code_row rc s : fst (create_code rc s) = Ok tt →
  ∃ id c, st_codes (snd (create_code rc s)) !! id = Some c ∧ rc_ID c = id ∧ rc_Code c = rc_Code rc ∧
          rc_Type c = rc_Type rc ∧ rc_Value c = rc_Value rc.
Proof.
  unfold create_code. destruct (existsb _ _); [done|]. intros _. simpl.
  eexists _, _. rewrite lookup_insert_eq. by split_and!.
Qed.

Lemma own_payment_code o rc s :
  inv s → known o s → rc_Code rc = o_RechargeCode o → rc_Type rc = RedeemTypeBalance → rc_Value rc = o_Amount o →
  rc_Status rc = StatusUnused → rc_UsedBy rc = None → rc_ExpiresAt rc = None →
  funded_row (o_ID o) s →
  strict → ∀ oid o', st_orders s !! oid = Some o' → o_OrderType o' = OrderTypeBalance →
    rc_Code rc = o_RechargeCode o' → own_code o' rc ∧ o_Status o' ∈ funded.
Proof.
  intros Hinv Hk Hcode Ht Hv Hst Hu He (y & Hy & Hf) Hs oid o' Ho' _ Hcode'.
  destruct (known_formed o s Hinv Hk) as (_ & _ & Hfin & _). destruct Hk as (x & Hx & Hc).
  pose proof (core_fields _ _ Hc) as (_ & _ & _ & Er & _).
  assert (oid = o_ID o) as -> by (eapply (inv_recharge _ _ Hinv Hs); [exact Ho'|exact Hx|congruence]).
  rewrite Hx in Ho', Hy. injection Ho' as <-. injection Hy as <-. split; [|done]. split_and!; [done| |done|by left].
  rewrite (value_ok_core _ _ _ Hc). by apply value_ok_same.
Qed.

Lemma create_payment_code_safe o s :
  inv s → known o s → funded_row (o_ID o) s →
  safe (CreateCode (payment_code o)) (ok_post (λ _, order_code o)) s.
Proof.
  intros Hinv Hk Hf. destruct (known_formed o s Hinv Hk) as (Htrim & _ & Hfin & _).
  unfold CreateCode. cbv zeta.
  change (if bool_decide (rc_Type (payment_code o) = []) then RedeemTypeBalance else rc_Type (payment_code o))
    with RedeemTypeBalance.
  change (if bool_decide (rc_Status (payment_code o) = []) then StatusUnused else rc_Status (payment_code o))
    with StatusUnused.
  case_bool_decide; [apply s_err|]. case_match; [apply s_err|].
  apply s_clock. intros s1 HR1 Hinv1. case_match; [apply s_err|].
  match goal with Hx : IsExpiredAt ?rc' _ = false |- _ => set (rc := rc') in *; clear Hx end.
  assert (Hrc : rc_Code rc = o_RechargeCode o) by exact Htrim.
  eapply (s_try _ _ _ (λ _, order_code o)); [done| |intros _ s2 _ _ Ho s3 ? ?; by eapply order_code_stable].
  apply s_lift_write; [|intros _; apply order_code_stable]. intros s2 HR2 Hinv2.
  assert (Hk2 : known o s2) by (eapply known_stable; [exact Hk|by etrans|done]).
  assert (Hf2 : funded_row (o_ID o) s2) by (eapply funded_row_stable; [exact Hf|by etrans|done]).
  split; [apply create_code_ok; [done|done|done|by eapply own_payment_code]|].
  intros [] Hok. destruct (create_code_row rc s2 Hok) as (id & c & Hc & <- & Ec & Et & Ev).
  exists c. split_and!; [by exists c|congruence|by rewrite Et|by apply value_ok_same; rewrite ?Ev].
Qed.

(** *** The lease and the end of a fulfilment *)

(** An update of an order by a guarded statement, whatever it reports. *)
Lemma s_update {A} oid guard set at_ (k : result dberr Z → prg A) Q s :
  inv s → (∀ s', later s s' → at_ s' ≤ st_now s') →
  (∀ s' o, later s s' → inv s' → st_orders s' !! oid = Some o → guard o = true → order_change o (set o) s') →
  (∀ r s', later s s' → inv s' → safe (k r) Q s') →
  safe (bind (write (update_order_at oid guard set at_)) k) Q s.
Proof.
  intros Hinv Hat Hch Hk. apply s_write; [|intros; by apply Hk]. intros s' HR Hinv'.
  destruct (update_order_at_ok (strict := strict) oid guard set at_ s') as [Hi HR']; [done|by apply Hat|by eauto|].
  split; [done|]. apply Hk; [by etrans|done].
Qed.

Lemma lift_update_safe oid guard set at_ s :
  inv s → (∀ s', later s s' → at_ s' ≤ st_now s') →
  (∀ s' o, later s s' → inv s' → st_orders s' !! oid = Some o → guard o = true → order_change o (set o) s') →
  safe (lift (write (update_order_at oid guard set at_))) (ok_post any) s.
Proof. intros Hinv Hat Hch. apply s_update; [done|done|done|]. intros [x|e] s' _ _ ? _ _; done. Qed.

(** A paid order moves on. *)
Lemma fulfilment_change oid o o' s :
  inv s → st_orders s !! oid = Some o → core_of o = core_of o' → o_PaidAt o' = o_PaidAt o →
  rtc status_step (o_Status o) (o_Status o') → o_Status o ∈ funded →
  (o_Status o' ∈ settled → completable o' s) → order_change o o' s.
Proof.
  intros Hinv Ho Hc Hp Hst Hf Hcomp. destruct (inv_order _ _ Hinv oid o Ho) as (_ & _ & Hpaid & _).
  split_and!; [|intros _; rewrite Hp; by apply Hpaid|done]. split; [done|done|by rewrite Hp].
Qed.

Lemma holds_lease_change oid o o' version s :
  inv s → st_orders s !! oid = Some o → holds_lease version o = true →
  core_of o = core_of o' → o_PaidAt o' = o_PaidAt o →
  (o_Status o' = OrderStatusCompleted ∧ completable o' s ∨ o_Status o' = OrderStatusFailed) → order_change o o' s.
Proof.
  intros Hinv Ho [Hst _]%andb_true_iff Hc Hp Hnew. status_cases Hst.
  eapply fulfilment_change; [done|done|done|done| |rewrite Hst; by right; left|].
  - rewrite Hst. destruct Hnew as [[-> _]| ->]; apply rtc_once; constructor.
  - destruct Hnew as [[_ ?]| ->]; [done|status_out].
Qed.

Lemma lease_change oid o staleBefore s :
  inv s → st_orders s !! oid = Some o → lease_guard staleBefore o = true →
  order_change o (set_times (o_PaidAt o) (o_CompletedAt o) None (set_status OrderStatusRecharging o)) s.
Proof.
  intros Hinv Ho Hg. unfold lease_guard in Hg.
  apply orb_true_iff in Hg as [Hg|[Hg _]%andb_true_iff]; status_cases Hg;
    (eapply fulfilment_change; [done|done|done|done|simpl; rewrite Hg|rewrite Hg; status_in|status_out]).
  all: first [by apply rtc_once; constructor|done].
Qed.

Lemma truncate_le t : truncate_us t ≤ t.
Proof. unfold truncate_us. pose proof (Z.mul_div_le t 1000). lia. Qed.

Definition leased (oid : Z) (lease : option time) (s : Store) : Prop := is_Some lease → funded_row oid s.

Lemma leased_stable oid lease : stable (leased oid lease).
Proof. intros s s' Hl HR Hinv Hs. eapply funded_row_stable; [by apply Hl|done|done]. Qed.

Lemma acquire_safe oid s : inv s → safe (acquirePaymentFulfillmentLease oid) (ok_post (leased oid)) s.
Proof.
  intros Hinv. unfold acquirePaymentFulfillmentLease. apply s_clock. intros s1 HR1 Hinv1. cbv zeta.
  eapply (s_try _ _ _ any); [done| |].
  - apply lift_update_safe; [done| |].
    + intros s2 HR2. pose proof (truncate_le (st_now s1)). destruct HR2. lia.
    + intros s2 o _ Hinv2 Ho Hg. by eapply lease_change.
  - intros n s2 _ Hinv2 _. case_match.
    + eapply (s_try _ _ _ any); [done|by apply s_lift_read|]. intros o s3 _ _ _. case_match; [|by intros ? ? ?].
      intros s4 _ _ [? [=]].
    + eapply (s_try _ _ _ (λ o s, o_Status o ∈ funded → funded_row oid s)); [done| |].
      { apply s_lift_read; [|intros o s3 s4 Ho HR Hi Hf; by eapply funded_row_stable; [apply Ho| |]].
        intros s3 o _ Hinv3 Hq Hf. destruct (get_order_known _ _ _ Hinv3 Hq) as [_ <-]. exists o. split; [|done].
        unfold get_order in Hq. by destruct (st_orders s3 !! _); [injection Hq as ->|]. }
      intros o s3 _ _ Ho. case_bool_decide as Hst; [|by intros ? ? ?]. intros s4 HR4 Hinv4 _.
      eapply funded_row_stable; [apply Ho; rewrite Hst; by right; left|done|done].
Qed.

Lemma markCompleted_safe o version a s :
  inv s → known o s → completable o s → safe (markCompleted o version a) (ok_post any) s.
Proof.
  intros Hinv Hk Hc. unfold markCompleted. apply s_clock. intros s1 HR1 Hinv1.
  eapply (s_try _ _ _ any); [done| |].
  - apply lift_update_safe; [done|intros; done|]. intros s2 x HR2 Hinv2 Hx Hg.
    assert (HR : later s s2) by by etrans. destruct (known_stable o s s2 Hk HR Hinv2) as (y & Hy & Hyo).
    rewrite Hy in Hx. injection Hx as ->. eapply holds_lease_change; [done|done|exact Hg|done|done|].
    left. split; [done|]. by eapply completable_later; [|exact HR|exact Hc].
  - intros n s2 _ Hinv2 _. case_match.
    + apply s_read; intros s3 _ _; repeat case_match; by intros ? ? ?.
    + eapply s_bind; [done|apply hasAuditLog_safe|]. intros had s3 _ Hinv3 _. case_match; [by intros ? ? ?|].
      eapply s_bind; [done|apply writeAuditLog_safe|]. intros _ s4 _ Hinv4 _.
      eapply s_bind; [done|apply unit_write_safe; intros; by apply send_notification_ok|]. by intros _ s5 _ _ _ ? ? ?.
Qed.

Lemma audit_if_changed_safe (c : result dberr Z) oid a op s :
  safe (match c with Ok n => if 0 <? n then writeAuditLog oid a op else Ret tt | Err _ => Ret tt end) any s.
Proof. destruct c; [case_match; [apply writeAuditLog_safe|]|]; apply s_any. Qed.

Lemma markFailed_safe oid version s : inv s → safe (markFailed oid version) any s.
Proof.
  intros Hinv. unfold markFailed. apply s_clock. intros s1 HR1 Hinv1.
  apply s_update; [done|intros; done| |intros; apply audit_if_changed_safe].
  intros s2 o _ Hinv2 Ho Hg. eapply holds_lease_change; [done|done|exact Hg|done|done|by right].
Qed.

(** *** The rebate of an order *)

Lemma rebate_failed_safe oid e s : safe (rebate_failed oid e) (ok_post any) s.
Proof.
  apply s_write; [|intros; apply s_err]. intros s' _ Hinv. split; [by apply insert_audit_ok|apply s_err].
Qed.

Lemma s_ok {A} (a : A) s : safe (Ret (Ok a) : prg (result perror A)) (ok_post any) s.
Proof. by intros ? ? ?. Qed.

Lemma applyAffiliateRebateForOrder_safe o s :
  inv s → safe (applyAffiliateRebateForOrder sv o) (ok_post any) s.
Proof.
  intros Hinv. unfold applyAffiliateRebateForOrder. cbv zeta. case_match; [apply s_ok|]. case_match; [apply s_ok|].
  apply s_read; [|intros; apply rebate_failed_safe]. intros s1 _ Hinv1. simpl. case_match; [apply s_ok|].
  eapply s_bind; [done|by apply AccrueInviteRebateForOrder_safe|]. intros [[amount ws]|e] s2 _ Hinv2 Ha;
    [|apply rebate_failed_safe]. destruct Ha as [Hdues Hskip].
  apply s_write; [|intros; apply rebate_failed_safe]. intros s3 _ Hinv3. split.
  - by apply (rebate_tx_ok (o_ID o) ws (Float.le amount Float.zero)).
  - repeat case_match; first [apply s_ok|apply rebate_failed_safe].
Qed.

(** *** Balance orders *)

Lemma validate_order_code o rc s :
  inv s → st_codes s !! rc_ID rc = Some rc → validatePaymentRedeemCode o rc = None →
  order_code o s ∧ (IsUsed rc = true → used_by (o_RechargeCode o) (o_UserID o) s).
Proof.
  intros Hinv Hrow Hv. unfold validatePaymentRedeemCode in Hv.
  destruct (bool_decide (rc_Code rc = _)) eqn:Hc; [apply bool_decide_eq_true_1 in Hc|done].
  destruct (bool_decide (rc_Type rc = _)) eqn:Ht; [apply bool_decide_eq_true_1 in Ht|done]. simpl in Hv.
  destruct (_ || _) eqn:Hval; [done|]. split.
  - exists rc. split_and!; [by exists rc|done|done|]. unfold value_ok. by rewrite Hval.
  - intros Hu%bool_decide_eq_true_1. rewrite Hu in Hv. simpl in Hv. case_bool_decide as Hby; [|done].
    by exists (rc_ID rc), rc.
Qed.

(** The order's user redeems the order's code. *)
Lemma order_may_redeem o s : inv s → known o s → may_redeem (o_UserID o) (o_RechargeCode o) s.
Proof.
  intros Hinv (x & Hx & Hc) Hs oid o' Ho' _ Hcode. pose proof (core_fields _ _ Hc) as (_ & Hu & _ & Hr & _).
  assert (oid = o_ID o) as -> by (eapply (inv_recharge _ _ Hinv Hs); [exact Ho'|exact Hx|congruence]).
  congruence.
Qed.

Lemma credited_stable o : stable (credited o).
Proof. intros s s' Hc HR _. by eapply credited_later. Qed.

Lemma complete_balance_safe o version s :
  inv s → known o s → o_OrderType o = OrderTypeBalance → credited o s →
  safe (try _ := applyAffiliateRebateForOrder sv o wrap id in markCompleted o version "RECHARGE_SUCCESS")
    (ok_post any) s.
Proof.
  intros Hinv Hk Ht Hc. eapply s_try; [done|by apply applyAffiliateRebateForOrder_safe|].
  intros _ s1 HR1 Hinv1 _. apply markCompleted_safe; [done|by eapply known_stable|].
  split; [intros _; by eapply credited_stable|]. rewrite Ht. intros Hx. discriminate Hx.
Qed.

Lemma redeem_and_complete_safe o version s :
  inv s → known o s → o_OrderType o = OrderTypeBalance → order_code o s →
  safe (try _ := redeemForPaymentFulfillment sv (o_UserID o) (o_RechargeCode o) wrap EWrap "redeem balance" in
        try _ := applyAffiliateRebateForOrder sv o wrap id in markCompleted o version "RECHARGE_SUCCESS")
    (ok_post any) s.
Proof.
  intros Hinv Hk Ht Hoc. eapply s_try; [done|apply redeem_safe; [done|by apply order_may_redeem]|].
  intros rc s1 HR1 Hinv1 Hused. apply complete_balance_safe; [done|by eapply known_stable|done|].
  apply order_credited; [done|by eapply order_code_stable|done].
Qed.

Lemma doBalance_safe o version s :
  inv s → known o s → funded_row (o_ID o) s → o_OrderType o = OrderTypeBalance →
  safe (doBalance sv o version) (ok_post any) s.
Proof.
  intros Hinv Hk Hf Ht. unfold doBalance, GetByCode. cbv zeta.
  apply s_read; [|intros; apply s_err]. intros s1 HR1 Hinv1.
  assert (Hk1 : known o s1) by by eapply known_stable.
  destruct (code_by_code _ s1) as [rc|e] eqn:Hq; simpl.
  - destruct (code_by_code_Ok _ _ _ Hinv1 Hq) as [Hrow _].
    destruct (validatePaymentRedeemCode o rc) eqn:Hv; [apply s_err|].
    destruct (validate_order_code o rc s1 Hinv1 Hrow Hv) as [Hoc Hused]. destruct (IsUsed rc).
    + apply complete_balance_safe; [done|done|done|]. by apply order_credited; [| |apply Hused].
    + by apply redeem_and_complete_safe.
  - destruct (errors_is _ _); [|apply s_err].
    eapply s_try; [done|apply create_payment_code_safe; [done|done|by eapply funded_row_stable]|]. intros [] s2 HR2 Hinv2 Hoc.
    apply redeem_and_complete_safe; [done|by eapply known_stable|done|done].
Qed.

Lemma with_lease_safe o work s :
  inv s → known o s →
  (∀ v s', inv s' → known o s' → funded_row (o_ID o) s' → safe (work v) (ok_post any) s') →
  safe (with_lease o work) (ok_post any) s.
Proof.
  intros Hinv Hk Hwork. unfold with_lease. eapply s_try; [done|by apply acquire_safe|].
  intros [version|] s1 HR1 Hinv1 Hl; [|apply s_ok].
  eapply s_bind; [done|apply Hwork; [done|by eapply known_stable|by apply Hl]|].
  intros [[]|e] s2 _ Hinv2 _; [apply s_ok|]. eapply s_bind; [done|by apply markFailed_safe|]. intros; apply s_err.
Qed.

Lemma ExecuteBalanceFulfillment_safe oid s : inv s → safe (ExecuteBalanceFulfillment sv oid) (ok_post any) s.
Proof.
  intros Hinv. unfold ExecuteBalanceFulfillment. eapply s_try; [done|apply read_order_spec|].
  intros o s1 _ Hinv1 [Hk _]. case_bool_decide as Ht; [|apply s_err]. simpl.
  case_match; [apply s_ok|]. case_match; [apply s_err|]. case_match; [apply s_err|].
  apply with_lease_safe; [done|done|]. intros v s2 Hinv2 Hk2 Hf2. by apply doBalance_safe.
Qed.

(** *** Subscription orders *)

Lemma assigned_stable o : stable (assigned o).
Proof. intros s s' Ha HR _. by apply (lt_audit _ _ HR). Qed.

Lemma has_assigned o s : has_audit (o_ID o) [SUBSCRIPTION_ASSIGNED] s = true → assigned o s.
Proof.
  intros (a & Ha & Hi & Hl)%has_audit_iff. apply has_audit_iff. exists a. split_and!; [done|done|].
  apply list_elem_of_singleton in Hl as ->. by left.
Qed.

Lemma assignment_read_safe o s :
  safe (hasPaymentSubscriptionAssignmentAudit (o_ID o)) (λ r s, r = Ok true → assigned o s) s.
Proof.
  apply (safe_read Lost st_now inv later); intros s1 HR1 Hinv1 s2 HR2 Hinv2; [|done].
  intros [= Ha]. by eapply assigned_stable.
Qed.

Lemma invalidate_safe o gid s : inv s → assigned o s → safe (invalidate o gid) (ok_post (λ _, assigned o)) s.
Proof.
  intros Hinv Ha. unfold invalidate. eapply (s_try _ _ _ any); [done|apply s_lift_ask|].
  intros [] s1 HR1 _ _ s2 HR2 Hinv2. simpl. eapply assigned_stable; [exact Ha|by etrans|done].
Qed.

Lemma commit_assignment_safe o gid ws s :
  inv s → dues (DueOrder (o_ID o)) false ws →
  safe (commit_assignment o gid ws) (ok_post (λ _, assigned o)) s.
Proof.
  intros Hinv Hdues. apply s_write; [|intros; apply s_err]. intros s1 _ Hinv1.
  destruct (assign_tx_ok (strict := strict) (o_ID o) ws (lit "system") s1 Hinv1 Hdues) as [[Hinv2 HR2] Hok].
  split; [done|]. destruct (fst _) as [[]|[]] eqn:Hr; try apply s_err.
  - apply invalidate_safe; [done|]. by apply has_assigned, Hok.
  - eapply s_bind; [done|apply assignment_read_safe|]. intros [[]|e] s3 _ Hinv3 Ha; try apply s_err.
    apply invalidate_safe; [done|by apply Ha].
Qed.

Lemma ensurePaymentSubscriptionAssigned_safe o gid days s :
  inv s → safe (ensurePaymentSubscriptionAssigned o gid days) (ok_post (λ _, assigned o)) s.
Proof.
  intros Hinv. unfold ensurePaymentSubscriptionAssigned. cbv zeta.
  eapply (s_try _ _ _ (λ b s, b = true → assigned o s)); [done| |].
  { eapply s_bind; [done|apply assignment_read_safe|]. intros [b|e] s1 _ _ Hb s2 HR2 Hinv2; [|done].
    intros ->. by eapply assigned_stable; [apply Hb| |]. }
  intros b s1 _ Hinv1 Hb. destruct b; [by apply invalidate_safe; [|apply Hb]|].
  assert (Hassign : ∀ s, inv s → safe
    (try w := assignOrExtendSubscription (DueOrder (o_ID o)) (o_UserID o) gid days (paymentSubscriptionOrderNote (o_ID o))
       wrap EWrap "assign subscription" in
     commit_assignment o gid [w]) (ok_post (λ _, assigned o)) s).
  { intros s2 Hinv2. eapply s_try; [done|by apply assignOrExtendSubscription_safe|].
    intros w s3 _ Hinv3 Hw. by apply commit_assignment_safe. }
  apply s_read; [|intros; apply s_err]. intros s2 _ Hinv2.
  destruct (sub_by_user_group _ _ s2) as [sub|[]]; try apply s_err; [|by apply Hassign].
  case_match; [|by apply Hassign]. apply commit_assignment_safe; [done|apply dues_nil].
Qed.

Lemma doSub_safe o version s :
  inv s → known o s → o_OrderType o = OrderTypeSubscription → safe (doSub sv o version) (ok_post any) s.
Proof.
  intros Hinv Hk Ht. unfold doSub. cbv zeta. apply s_read; [|intros; apply s_err]. intros s1 HR1 Hinv1.
  case_match; [|apply s_err]. case_match; [apply s_err|].
  eapply s_try; [done|by apply ensurePaymentSubscriptionAssigned_safe|]. intros [] s2 HR2 Hinv2 Ha.
  eapply s_try; [done|by apply applyAffiliateRebateForOrder_safe|]. intros _ s3 HR3 Hinv3 _.
  apply markCompleted_safe; [done|eapply known_stable; [exact Hk| |done]|].
  - etrans; [exact HR1|]. by etrans.
  - split; [rewrite Ht; discriminate|]. intros _. by eapply assigned_stable.
Qed.

(** The row of an identifier, of the given type. *)
Definition typed (oid : Z) (t : bytes) (s : Store) : Prop :=
  ∃ o, known o s ∧ o_ID o = oid ∧ o_OrderType o = t.

Lemma typed_stable oid t : stable (typed oid t).
Proof. intros s s' (o & Hk & Ho) HR Hinv. exists o. split; [by eapply known_stable|done]. Qed.

Lemma typed_known o t s : known o s → typed (o_ID o) t s → o_OrderType o = t.
Proof.
  intros (x & Hx & Hc) (o' & (x' & Hx' & Hc') & Hid & <-). rewrite Hid, Hx in Hx'. injection Hx' as <-.
  pose proof (core_fields _ _ Hc). pose proof (core_fields _ _ Hc'). intuition congruence.
Qed.

Lemma ExecuteSubscriptionFulfillment_safe oid s :
  inv s → typed oid OrderTypeSubscription s → safe (ExecuteSubscriptionFulfillment sv oid) (ok_post any) s.
Proof.
  intros Hinv Ht. unfold ExecuteSubscriptionFulfillment. eapply s_try; [done|apply read_order_spec|].
  intros o s1 HR1 Hinv1 [Hk <-]. case_match; [apply s_ok|]. do 3 (case_match; [apply s_err|]).
  apply with_lease_safe; [done|done|]. intros v s2 Hinv2 Hk2 _. apply doSub_safe; [done|done|].
  eapply typed_known; [exact Hk|by eapply typed_stable].
Qed.

(** *** Dispatch, payment, retry *)

Lemma rejectUnsupportedOrderType_safe o s : inv s → safe (rejectUnsupportedOrderType o) any s.
Proof.
  intros Hinv. unfold rejectUnsupportedOrderType. apply s_clock. intros s1 HR1 Hinv1.
  apply s_update; [done|intros; done| |intros; apply audit_if_changed_safe].
  intros s2 x _ Hinv2 Hx Hg. status_cases Hg;
    (eapply fulfilment_change; [done|done|done|done|rewrite Hg; simpl|rewrite Hg; status_in|status_out]).
  all: by apply rtc_once; constructor.
Qed.

Lemma executeFulfillment_safe oid s : inv s → safe (executeFulfillment sv oid) (ok_post any) s.
Proof.
  intros Hinv. unfold executeFulfillment. eapply s_try; [done|apply read_order_spec|].
  intros o s1 HR1 Hinv1 [Hk <-]. case_bool_decide as Ht.
  - apply ExecuteSubscriptionFulfillment_safe; [done|]. by exists o.
  - case_match; [by apply ExecuteBalanceFulfillment_safe|].
    eapply s_bind; [done|by apply rejectUnsupportedOrderType_safe|]. intros; apply s_ok.
Qed.

Lemma alreadyProcessed_safe oid s : inv s → safe (alreadyProcessed sv oid) (ok_post any) s.
Proof.
  intros Hinv. unfold alreadyProcessed. apply s_read; [|intros; apply s_ok]. intros s1 _ Hinv1.
  case_match; [|apply s_ok]. case_match; [apply s_ok|]. case_match; [by apply executeFulfillment_safe|].
  case_match; [|apply s_ok]. eapply s_bind; [done|apply writeAuditLog_safe|]. intros; apply s_ok.
Qed.

Lemma payable_change grace now paid tradeNo o s :
  payable grace o = true →
  order_change o (set_times (Some now) (o_CompletedAt o) None (set_trade paid tradeNo (set_status OrderStatusPaid o))) s.
Proof.
  unfold payable. intros Hg. apply orb_true_iff in Hg as [Hg|[Hg _]%andb_true_iff]; status_cases Hg;
    (split_and!; [split; [done| |by intros _]|by intros _|status_out]);
    rewrite Hg; by apply rtc_once; constructor.
Qed.

Lemma toPaid_safe o tradeNo paid pk s : inv s → safe (toPaid sv o tradeNo paid pk) (ok_post any) s.
Proof.
  intros Hinv. unfold toPaid. cbv zeta. apply s_clock. intros s1 _ Hinv1.
  eapply (s_try _ _ _ any); [done| |].
  - apply lift_update_safe; [done|intros; done|]. intros s2 x _ _ _ Hg. by eapply payable_change.
  - intros n s2 _ Hinv2 _. case_match; [by apply alreadyProcessed_safe|].
    eapply (s_bind _ _ any); [done| |]; [case_match; [apply writeAuditLog_safe|apply s_any]|].
    intros _ s3 _ Hinv3 _. eapply s_bind; [done|apply writeAuditLog_safe|].
    intros _ s4 _ Hinv4 _. by apply executeFulfillment_safe.
Qed.

(** *** Notifications *)

Lemma read_any {A B} (q : Store → result dberr A) w (k : A → prg (result perror B)) s :
  inv s → (∀ a s, inv s → safe (k a) (ok_post any) s) → safe (on_error w (lift (read q)) k) (ok_post any) s.
Proof. intros Hinv Hk. eapply (s_try _ _ _ any); [done|by apply s_lift_read|]. intros; by apply Hk. Qed.

Lemma resolveSnapshot_safe o snap s : inv s → safe (resolveSnapshotOrderProviderInstance o snap) (ok_post any) s.
Proof.
  intros Hinv. unfold resolveSnapshotOrderProviderInstance. cbv zeta.
  set (sid := if bool_decide (TrimSpace _ = []) then _ else _). clearbody sid.
  case_match; [apply s_err|]. case_match; [apply s_err|]. destruct (Atoi _); [|apply s_err].
  apply read_any; [done|]. intros i s1 _. case_match; by intros ? ? ?.
Qed.

Lemma getOrderProviderInstance_safe o s : inv s → safe (getOrderProviderInstance o) (ok_post any) s.
Proof.
  intros Hinv. unfold getOrderProviderInstance. destruct (psOrderProviderSnapshot o) as [snap|].
  - by apply resolveSnapshot_safe.
  - cbv zeta. case_match.
    + unfold resolveUniqueLegacyOrderProviderInstance. cbv zeta.
      case_match; [apply read_any; [done|]; intros; apply s_ok|].
      case_match; [apply s_ok|apply read_any; [done|]; intros; apply s_ok].
    + destruct (Atoi _); [|apply s_ok]. apply read_any; [done|]. intros; apply s_ok.
Qed.

Lemma confirmPayment_safe oid tradeNo paid pk m s :
  inv s → safe (confirmPayment sv oid tradeNo paid pk m) (ok_post any) s.
Proof.
  intros Hinv. unfold confirmPayment. apply s_read; [|intros; apply s_ok]. intros s1 _ Hinv1.
  destruct (get_order oid s1) as [o|]; [|apply s_ok].
  eapply s_bind; [done|by apply getOrderProviderInstance_safe|]. intros inst s2 _ Hinv2 _.
  cbv zeta. set (expected := expectedNotificationProviderKeyForOrder _ _ _). clearbody expected.
  assert (Hreject : ∀ action e, safe (let! _ := writeAuditLog (o_ID o) action pk in Ret (Err (EMsg e)) : prg (result perror unit))
                                     (ok_post any) s2).
  { intros action e. eapply s_bind; [done|apply writeAuditLog_safe|]. intros; apply s_err. }
  do 4 (case_match; [by apply Hreject|]). by apply toPaid_safe.
Qed.

Lemma HandlePaymentNotification_safe n pk s :
  inv s → safe (HandlePaymentNotification sv n pk) (ok_post any) s.
Proof.
  intros Hinv. unfold HandlePaymentNotification. case_match; [apply s_ok|].
  apply s_read; intros s1 _ Hinv1; [destruct (order_by_out_trade_no _ s1) as [o|e]; [by apply confirmPayment_safe|]|];
    (case_match; [by apply confirmPayment_safe|apply s_err]).
Qed.

Lemma RetryFulfillment_safe oid s : inv s → safe (RetryFulfillment sv oid) (ok_post any) s.
Proof.
  intros Hinv. unfold RetryFulfillment. apply read_any; [done|]. intros o s1 Hinv1.
  do 5 (case_match; [apply s_err|]). eapply s_bind; [done|apply writeAuditLog_safe|].
  intros; by apply executeFulfillment_safe.
Qed.

(** *** Asking the provider *)

Lemma getOrderProvider_safe o s : inv s → safe (getOrderProvider sv o) any s.
Proof.
  intros Hinv. unfold getOrderProvider. eapply s_bind; [done|by apply getOrderProviderInstance_safe|].
  intros [[i|]|e] s1 _ Hinv1 _; [apply (safe_ask Lost st_now inv later); intros; apply s_any| |apply s_any].
  case_match; [apply s_any|]. cbv zeta. case_match; [apply s_any|].
  apply s_read; intros s2 _ _; [case_match; [case_match|]|]; try apply s_any.
  apply (safe_ask Lost st_now inv later); intros; apply s_any.
Qed.

Lemma requery_safe prov ref s : safe (requeryPaidOrderOnce prov ref) any s.
Proof. unfold requeryPaidOrderOnce. case_match; [apply s_any|]. apply s_ask. intros; repeat case_match; apply s_any. Qed.

Lemma order_le_trade pay trade o : order_le o (set_trade pay trade o).
Proof. by split. Qed.

Lemma persist_trade_safe {A} o upstream (k : result dberr Z → prg A) Q s :
  inv s → (∀ r s', later s s' → inv s' → safe (k r) Q s') →
  safe (bind (write (update_order (o_ID o) (λ _, true) (λ o, set_trade (o_PayAmount o) upstream o))) k) Q s.
Proof.
  intros Hinv Hk. apply s_update; [done|intros; done| |done]. intros s1 x _ Hinv1 Hx _.
  destruct (inv_order _ _ Hinv1 _ x Hx) as (_ & _ & Hp & Hc).
  split_and!; [apply order_le_trade|done|]. intros Hst. eapply completable_later; [|reflexivity|by apply Hc]. done.
Qed.

Lemma checkPaidWithOptions_safe o cancel s : inv s → safe (checkPaidWithOptions sv o cancel) any s.
Proof.
  intros Hinv. unfold checkPaidWithOptions. eapply s_bind; [done|by apply getOrderProvider_safe|].
  intros [prov|] s1 _ Hinv1 _; [|apply s_any]. cbv zeta. case_match; [apply s_any|].
  apply s_ask. intros [resp|] s2 _ Hinv2; [|apply s_any]. case_match.
  - eapply (s_bind _ _ any); [done| |].
    { case_match; [apply s_any|]. eapply s_bind; [done|apply writeAuditLog_safe|]. intros; apply requery_safe. }
    intros [r|] s3 _ Hinv3 _; [|apply s_any]. eapply (s_bind _ _ any); [done| |].
    { case_match; [|apply s_any]. apply persist_trade_safe; [done|]. intros; apply s_any. }
    intros trade s4 _ Hinv4 _. eapply s_bind; [done|by apply HandlePaymentNotification_safe|]. intros; apply s_any.
  - eapply (s_bind _ _ any); [done| |intros; apply s_any].
    case_match; [apply (safe_ask Lost st_now inv later); intros; apply s_any|apply s_any].
Qed.

Lemma cancelCore_safe o fs op s :
  inv s → fs = OrderStatusCancelled ∨ fs = OrderStatusExpired → safe (cancelCore sv o fs op) (ok_post any) s.
Proof.
  intros Hinv Hfs. unfold cancelCore. eapply (s_bind _ _ any); [done| |].
  { case_match; [by apply checkPaidWithOptions_safe|apply s_any]. }
  intros paid s1 _ Hinv1 _. case_match; [apply s_ok|]. eapply (s_try _ _ _ any); [done| |].
  - apply lift_update_safe; [done|intros; done|]. intros s2 x _ Hinv2 Hx Hg. status_cases Hg.
    split_and!; [split; [done| |done]| |].
    + rewrite Hg. apply rtc_once. destruct Hfs as [->| ->]; constructor.
    + destruct Hfs as [->| ->]; status_out.
    + destruct Hfs as [->| ->]; status_out.
  - intros n s2 _ Hinv2 _. eapply (s_bind _ _ any); [done| |intros; apply s_ok].
    case_match; [apply writeAuditLog_safe|apply s_any].
Qed.

Lemma CancelOrder_safe oid uid s : inv s → safe (CancelOrder sv oid uid) (ok_post any) s.
Proof.
  intros Hinv. unfold CancelOrder. apply read_any; [done|]. intros o s1 Hinv1.
  case_match; [apply s_err|]. case_match; [apply s_err|]. apply cancelCore_safe; [done|by left].
Qed.

Lemma AdminCancelOrder_safe oid s : inv s → safe (AdminCancelOrder sv oid) (ok_post any) s.
Proof.
  intros Hinv. unfold AdminCancelOrder. apply read_any; [done|]. intros o s1 Hinv1.
  case_match; [apply s_err|]. apply cancelCore_safe; [done|by left].
Qed.

Lemma s_for_each {A B} (l : list B) (acc : A) (body : A → B → prg A) s :
  inv s → (∀ a x s, inv s → safe (body a x) any s) → safe (for_each l acc body) any s.
Proof. intros Hinv Hbody. apply (safe_for_each Lost st_now inv later); [done|done|]. intros; by apply Hbody. Qed.

Lemma ExpireTimedOutOrders_safe s : inv s → safe (ExpireTimedOutOrders sv) (ok_post any) s.
Proof.
  intros Hinv. unfold ExpireTimedOutOrders. apply s_clock. intros s1 _ Hinv1. apply read_any; [done|].
  intros os s2 Hinv2. eapply (s_bind _ _ any); [done| |intros; apply s_ok]. apply s_for_each; [done|].
  intros n o s3 Hinv3. eapply s_bind; [done|apply cancelCore_safe; [done|by right]|]. intros; apply s_any.
Qed.

Lemma VerifyOrderByOutTradeNo_safe raw uid s : inv s → safe (VerifyOrderByOutTradeNo sv raw uid) (ok_post any) s.
Proof.
  intros Hinv. unfold VerifyOrderByOutTradeNo. case_match; [|apply s_err]. apply read_any; [done|].
  intros o s1 Hinv1. case_match; [apply s_err|]. case_match; [|apply s_ok].
  eapply s_bind; [done|by apply checkPaidWithOptions_safe|]. intros paid s2 _ Hinv2 _. case_match; [|apply s_ok].
  apply read_any; [done|]. intros; apply s_ok.
Qed.

Lemma ReconcilePendingPaymentOrders_safe s : inv s → safe (ReconcilePendingPaymentOrders sv) (ok_post any) s.
Proof.
  intros Hinv. unfold ReconcilePendingPaymentOrders. apply s_clock. intros s1 _ Hinv1. apply read_any; [done|].
  intros os s2 Hinv2. eapply (s_bind _ _ any); [done| |intros; apply s_ok]. apply s_for_each; [done|].
  intros n o s3 Hinv3. eapply s_bind; [done|by apply checkPaidWithOptions_safe|]. intros; apply s_any.
Qed.

End programs.
End PaymentSafety.
