(* ===== verification/PaymentSystem.v ===== *)
(** * The system of payments: every request, under any interleaving

    Refunds keep the invariant of payments too; every request of the payment, redeem
    and refund services is an entry of one system, so the invariant of
    [PaymentInvariant] holds in all its runs, with any number of workers, any failing
    calls, crashes and lease takeovers. *)

From S2P Require Import Prelude Float64 GoStrings PaymentOrder Subscription Database Interleaving PaymentStore Redeem Payment Refund PaymentInvariant PaymentSafety.

Module PaymentSystem.
Import GoStrings PaymentOrder PaymentStore Redeem Payment Refund PaymentInvariant PaymentSafety.

Section refunds.
Context `{Database} `{Numeric} `{TimeZones} `{UnicodeFold} `{Decimal} `{RefundDecimal} (strict : Prop).
Abbreviation inv := (inv strict).
Abbreviation good_step := (good_step (strict := strict)).
Abbreviation safe := (Interleaving.safe Lost st_now inv later).
Abbreviation stable := (stable strict).

(** ** Statements *)

(** The order was delivered. *)
Definition settled_row (oid : Z) (s : Store) : Prop := ∃ o, st_orders s !! oid = Some o ∧ o_Status o ∈ settled.

Lemma settled_row_stable oid : stable (settled_row oid).
Proof.
  intros s s' (o & Ho & Hf) HR _. destruct (lt_orders _ _ HR _ _ Ho) as (o' & Ho' & [_ Hst _]).
  exists o'. split; [done|by eapply settled_step].
Qed.

Lemma refund_change oid o o' s :
  inv s → st_orders s !! oid = Some o → core_of o = core_of o' → o_PaidAt o' = o_PaidAt o →
  o_Status o ∈ settled → o_Status o' ∈ settled → order_change o o' s.
Proof.
  intros Hinv Ho Hc Hp Hs Hs'. eapply fulfilment_change; [done|done|done|done| |by apply settled_funded|].
  - apply rtc_once. by apply settled_moves.
  - intros _. destruct (inv_order _ _ Hinv oid o Ho) as (_ & _ & _ & Hcomp).
    eapply completable_later; [exact Hc|reflexivity|by apply Hcomp].
Qed.

Lemma good_journal s s' : inv s → same s s' → good_step s s'.
Proof. apply good_same. Qed.

Lemma set_row_ok oid o o' s :
  inv s → st_orders s !! oid = Some o → order_change o o' s → good_step s (set_row oid o' s).
Proof.
  intros Hinv Ho Hch.
  assert (good_step s (snd (update_order_at oid (λ _, true) (λ _, o') st_now s))) as Hg.
  { apply update_order_at_ok; [done|done|]. intros x Hx _. rewrite Ho in Hx. by injection Hx as <-. }
  unfold update_order_at in Hg. by rewrite Ho in Hg.
Qed.

Lemma with_entry_ok oid a d s s1 : inv s → with_entry oid a d s = Ok s1 → good_step s s1.
Proof. intros Hinv. unfold with_entry. case_match; intros [= <-]. by apply add_audit_ok. Qed.

Lemma commit_ok {A} s (r : result dberr (A * Store)) :
  inv s → (∀ a s', r = Ok (a, s') → good_step s s') → good_step s (snd (commit s r)).
Proof. intros Hinv Hr. destruct r as [[a s']|e]; simpl; [by eapply Hr|by apply good_refl]. Qed.

(** Changes of a row that stay among the settled statuses. *)
Definition refund_like (set : Order → Order) : Prop :=
  ∀ o, core_of o = core_of (set o) ∧ o_PaidAt (set o) = o_PaidAt o ∧ o_Status (set o) ∈ settled.

Lemma set_status_like st : st ∈ settled → refund_like (set_status st).
Proof. by intros Hst o. Qed.
Lemma failed_at_like now : refund_like (failed_at now).
Proof. intros o. split_and!; [done|done|status_in]. Qed.
Lemma pending_like p : refund_like (pending p).
Proof. intros o. split_and!; [done|done|status_in]. Qed.
Lemma refunded_like p now : refund_like (refunded p now).
Proof.
  intros o. split_and!; [done|done|]. unfold refunded, refund_final_status. simpl. case_match; status_in.
Qed.
Lemma requested_like x now r b : refund_like (requested x now r b).
Proof. intros o. split_and!; [done|done|status_in]. Qed.

Lemma like_change set oid o s : refund_like set → inv s → st_orders s !! oid = Some o → o_Status o ∈ settled → order_change o (set o) s.
Proof. intros Hset Hinv Ho Hs. destruct (Hset o) as (? & ? & ?). by eapply refund_change. Qed.

Lemma update_settled_ok oid guard set s :
  inv s → refund_like set → (∀ o, st_orders s !! oid = Some o → guard o = true → o_Status o ∈ settled) →
  good_step s (snd (update_order oid guard set s)).
Proof.
  intros Hinv Hset Hg. apply update_order_at_ok; [done|done|]. intros o Ho Hgo. eapply like_change; eauto.
Qed.

Lemma update_one_ok oid set s : inv s → settled_row oid s → refund_like set → good_step s (snd (update_one oid set s)).
Proof.
  intros Hinv (o & Ho & Hs) Hset. unfold update_one.
  assert (good_step s (snd (update_order oid (λ _, true) set s))) as Hg.
  { apply update_settled_ok; [done|done|]. intros x Hx _. by simplify_eq. }
  by destruct (update_order _ _ _ _).
Qed.

Lemma refundable_settled o : status_is refundable o = true → o_Status o ∈ settled.
Proof. intros Hst. status_cases Hst; rewrite Hst; status_in. Qed.

Lemma claim_refund_ok p s : inv s → good_step s (snd (claim_refund p s)).
Proof.
  intros Hinv. unfold claim_refund.
  assert (good_step s (snd (update_order (rp_OrderID p) (status_is refundable) (set_status OrderStatusRefunding) s))) as Hg.
  { apply update_settled_ok; [done|apply set_status_like; status_in|]. intros o _. apply refundable_settled. }
  destruct (update_order _ _ _ _) as [[[|[| |]|]|] s']; simpl in *; try done.
  eapply good_trans; [exact Hg|]. apply good_same; [apply Hg|done].
Qed.

Lemma claim_refund_settled p n s : fst (claim_refund p s) = Ok n → n ≠ 0 → settled_row (rp_OrderID p) (snd (claim_refund p s)).
Proof.
  unfold claim_refund, update_order, update_order_at. destruct (st_orders s !! _) as [o|] eqn:Ho; [|by intros [= <-]].
  destruct (status_is refundable o); [|by intros [= <-]]. intros _ _.
  eexists. simpl. rewrite lookup_insert_eq. split; [done|status_in].
Qed.

Lemma deduct_available_ok oid uid x s : inv s → good_step s (snd (deduct_available oid uid x s)).
Proof. intros Hinv. unfold deduct_available. repeat case_match; first [by apply good_refl|by apply good_same]. Qed.
Lemma return_balance_ok oid uid x s : inv s → good_step s (snd (return_balance oid uid x s)).
Proof. intros Hinv. unfold return_balance. repeat case_match; first [by apply good_refl|by apply good_same]. Qed.
Lemma extend_subscription_ok ev id days s : inv s → good_step s (snd (extend_subscription ev id days s)).
Proof. intros Hinv. unfold extend_subscription. repeat case_match; first [by apply good_refl|by apply good_same]. Qed.
Lemma delete_subscription_ok oid id s : inv s → good_step s (snd (delete_subscription oid id s)).
Proof. intros Hinv. unfold delete_subscription. repeat case_match; first [by apply good_refl|by apply good_same]. Qed.

Lemma set_like_row_ok set oid o s s1 :
  refund_like set → st_orders s1 = st_orders s → inv s1 → st_orders s !! oid = Some o → o_Status o ∈ settled →
  good_step s1 (set_row oid (set o) s1).
Proof.
  intros Hset E Hinv Ho Hs. rewrite <- E in Ho. eapply set_row_ok; [done|done|by eapply like_change].
Qed.

Lemma with_entry_orders oid a d s s1 : with_entry oid a d s = Ok s1 → st_orders s1 = st_orders s.
Proof. unfold with_entry. by case_match; intros [= <-]. Qed.

Lemma mark_pending_ok p d s : inv s → settled_row (rp_OrderID p) s → good_step s (snd (mark_pending p d s)).
Proof.
  intros Hinv (o & Ho & Hs). unfold mark_pending. apply commit_ok; [done|]. intros [] s'. rewrite Ho.
  destruct (with_entry _ _ _ _) as [s1|] eqn:He; [|done]. intros [= <-].
  pose proof (with_entry_ok _ _ _ _ _ Hinv He) as Hg. eapply good_trans; [exact Hg|].
  eapply set_like_row_ok; [apply pending_like|by eapply with_entry_orders|apply Hg|done|done].
Qed.

Lemma pending_settled o : status_is [OrderStatusRefundPending] o = true → o_Status o ∈ settled.
Proof. intros Hst. status_cases Hst; rewrite Hst; status_in. Qed.

(** What a transaction does besides the row of its order. *)
Definition beside (s s' : Store) : Prop := good_step s s' ∧ st_orders s' = st_orders s.

Lemma beside_refl s : inv s → beside s s.
Proof. intros Hinv. split; [by apply good_refl|done]. Qed.

Lemma deduct_available_beside oid uid x s : inv s → beside s (snd (deduct_available oid uid x s)).
Proof. intros Hinv. split; [by apply deduct_available_ok|]. unfold deduct_available. by repeat case_match. Qed.
Lemma return_balance_beside oid uid x s : inv s → beside s (snd (return_balance oid uid x s)).
Proof. intros Hinv. split; [by apply return_balance_ok|]. unfold return_balance. by repeat case_match. Qed.
Lemma extend_subscription_beside ev id days s : inv s → beside s (snd (extend_subscription ev id days s)).
Proof. intros Hinv. split; [by apply extend_subscription_ok|]. unfold extend_subscription. by repeat case_match. Qed.
Lemma delete_subscription_beside oid id s : inv s → beside s (snd (delete_subscription oid id s)).
Proof. intros Hinv. split; [by apply delete_subscription_ok|]. unfold delete_subscription. by repeat case_match. Qed.

Lemma beside_trans s1 s2 s3 : beside s1 s2 → beside s2 s3 → beside s1 s3.
Proof. intros [? ?] [? ?]. split; [by eapply good_trans|congruence]. Qed.
Lemma beside_inv s s' : beside s s' → inv s'.
Proof. by intros [[? _] _]. Qed.

Lemma applyRefundFinalDeduction_beside p s : inv s → beside s (snd (applyRefundFinalDeduction p s)).
Proof.
  intros Hinv. unfold applyRefundFinalDeduction. case_match; [by apply beside_refl|].
  assert (beside s (snd (apply_final_balance p s))) as Hb.
  { unfold apply_final_balance. case_match; [by apply beside_refl|].
    pose proof (deduct_available_beside (rp_OrderID p) (o_UserID (rp_Order p)) (rp_BalanceToDeduct p) s Hinv) as Hd.
    by destruct (deduct_available _ _ _ _). }
  destruct (apply_final_balance p s) as [[q|e] s1]; [|done]. simpl in *.
  eapply beside_trans; [exact Hb|]. apply beside_inv in Hb. unfold apply_final_days.
  case_match; [by apply beside_refl|].
  match goal with |- context [extend_subscription ?ev ?id ?d ?t] => pose proof (extend_subscription_beside ev id d t Hb) as Hx end.
  destruct (extend_subscription _ _ _ _) as [[u|e] s2]; [done|].
  pose proof (delete_subscription_beside (rp_OrderID q) (rp_SubscriptionID q) s1 Hb) as Hy.
  destruct (delete_subscription _ _ _). destruct e as [| | | | | | |[]]; try done; by apply beside_refl.
Qed.

Lemma returnHeldRefundDeduction_beside p s : inv s → beside s (snd (returnHeldRefundDeduction p s)).
Proof.
  intros Hinv. unfold returnHeldRefundDeduction.
  assert (beside s (snd (if takes_balance p then return_balance (rp_OrderID p) (o_UserID (rp_Order p)) (rp_BalanceToDeduct p) s
                         else (Ok tt, s)))) as Hb.
  { case_match; [by apply return_balance_beside|by apply beside_refl]. }
  destruct (if takes_balance p then _ else _) as [[u|e] s1]; [|by apply beside_refl]. simpl in *.
  case_match; [|done]. eapply beside_trans; [exact Hb|]. apply extend_subscription_beside. by eapply beside_inv.
Qed.

Lemma final_deduction_plan p q s s' : applyRefundFinalDeduction p s = (Ok q, s') → ∃ x, q = plan_balance x p ∨ q = p.
Proof.
  unfold applyRefundFinalDeduction, apply_final_balance, apply_final_days. intros Ha.
  repeat (case_match; simplify_eq/=); first [by exists Float.zero; right|by eexists; left].
Qed.

(** The end of a conclusion: the entry and the row. *)
Lemma conclude_ok p a d set o s s1 s' :
  refund_like set → inv s → beside s s1 → st_orders s !! rp_OrderID p = Some o → o_Status o ∈ settled →
  with_entry (rp_OrderID p) a d s1 = Ok s' → good_step s (set_row (rp_OrderID p) (set o) s').
Proof.
  intros Hset Hinv [Hg E] Ho Hs He. pose proof (with_entry_ok _ _ _ _ _ (proj1 Hg) He) as Hg'.
  eapply good_trans; [exact Hg|]. eapply good_trans; [exact Hg'|].
  eapply set_like_row_ok; [done| |apply Hg'|done|done]. rewrite <- E. by eapply with_entry_orders.
Qed.

Lemma finalize_success_ok p now s : inv s → good_step s (snd (finalize_success p now s)).
Proof.
  intros Hinv. unfold finalize_success. apply commit_ok; [done|]. intros q s'.
  destruct (st_orders s !! rp_OrderID p) as [o|] eqn:Ho; [|done].
  destruct (status_is _ o) eqn:Hst; [|done]. simpl. apply pending_settled in Hst.
  pose proof (applyRefundFinalDeduction_beside p s Hinv) as Hb.
  destruct (applyRefundFinalDeduction p s) as [[q'|e] s1] eqn:Ha; [|done]. simpl in *.
  assert (rp_OrderID q' = rp_OrderID p) as Eq by by destruct (final_deduction_plan _ _ _ _ Ha) as [x [->| ->]].
  destruct (with_entry _ _ _ _) as [s2|] eqn:He; [|done]. intros [= <- <-].
  rewrite Eq in *. eapply conclude_ok; [apply refunded_like|done|exact Hb|done|done|exact He].
Qed.

Lemma finalize_failed_ok p now b s : inv s → good_step s (snd (finalize_failed p now b s)).
Proof.
  intros Hinv. unfold finalize_failed. apply commit_ok; [done|]. intros q s'.
  destruct (st_orders s !! rp_OrderID p) as [o|] eqn:Ho; [|done].
  destruct (status_is _ o) eqn:Hst; [|done]. simpl. apply pending_settled in Hst.
  assert (beside s (snd (if negb (rp_deductionHeld p) then (Ok tt, s)
                         else if b then returnHeldRefundDeduction p s else (Err Lost, s)))) as Hb.
  { repeat case_match; first [by apply beside_refl|by apply returnHeldRefundDeduction_beside]. }
  destruct (if negb _ then _ else _) as [[u|e] s1]; [|intros [= <- <-]; by apply good_refl]. simpl in *.
  destruct (with_entry _ _ _ _) as [s2|] eqn:He; [|done]. intros [= <- <-].
  eapply conclude_ok; [apply failed_at_like|done|exact Hb|done|done|exact He].
Qed.

Lemma finalize_unreturned_ok p now s : inv s → good_step s (snd (finalize_unreturned p now s)).
Proof.
  intros Hinv. unfold finalize_unreturned. apply commit_ok; [done|]. intros q s'.
  destruct (st_orders s !! rp_OrderID p) as [o|] eqn:Ho; [|done].
  destruct (status_is _ o) eqn:Hst; [|done]. simpl. apply pending_settled in Hst.
  destruct (with_entry _ _ _ s) as [s1|] eqn:He; [|done].
  destruct (with_entry _ _ _ s1) as [s2|] eqn:He2; [|done]. intros [= <- <-].
  eapply conclude_ok; [apply failed_at_like|done| |done|done|exact He2].
  split; [by eapply with_entry_ok|by eapply with_entry_orders].
Qed.

(** ** Programs *)

Abbreviation s_err := (s_err strict).
Abbreviation s_any := (s_any strict).
Abbreviation s_ok := (s_ok strict).

Lemma s_log {B} e (k : unit → prg B) Q s :
  (∀ s', later s s' → inv s' → safe (k tt) Q s') → safe (bind (log e) k) Q s.
Proof.
  intros Hk. apply (safe_log Lost st_now inv later). intros s' HR Hinv.
  destruct (good_same (strict := strict) s' (with_refund e s')) as [? HR']; [done|done|].
  split_and!; [done|done|]. apply Hk; [by etrans|done].
Qed.

(** A write whose outcome does not matter to what follows. *)
Lemma s_write_any {A B} (w : Store → result dberr A * Store) (k : result dberr A → prg B) Q s :
  inv s → (∀ s', later s s' → inv s' → good_step s' (snd (w s'))) →
  (∀ r s', later s s' → inv s' → safe (k r) Q s') → safe (bind (write w) k) Q s.
Proof.
  intros Hinv Hw Hk. apply s_write; [|intros; by apply Hk]. intros s' HR Hinv'.
  destruct (Hw s' HR Hinv') as [Hi HR']. split; [done|]. apply Hk; [by etrans|done].
Qed.

Lemma lift_write_any {A} (w : Store → result dberr A * Store) s :
  inv s → (∀ s', later s s' → inv s' → good_step s' (snd (w s'))) → safe (lift (write w)) (ok_post any) s.
Proof. intros Hinv Hw. apply s_write_any; [done|done|]. intros [x|e] s' _ _; [apply s_ok|apply s_err]. Qed.

Lemma getRefundOrderProviderInstance_safe o s : inv s → safe (getRefundOrderProviderInstance o) (ok_post any) s.
Proof.
  intros Hinv. unfold getRefundOrderProviderInstance. destruct (psOrderProviderSnapshot o) as [snap|].
  - by apply resolveSnapshot_safe.
  - cbv zeta. case_match; [apply s_ok|]. destruct (Atoi _); [|apply s_err].
    apply read_any; [done|]. intros; apply s_ok.
Qed.

Lemma getRefundProvider_safe o s : inv s → safe (getRefundProvider o) (ok_post any) s.
Proof.
  intros Hinv. unfold getRefundProvider.
  eapply (s_try _ _ _ _ any); [done|by apply getRefundOrderProviderInstance_safe|]. intros [i|] s1 _ Hinv1 _; [|apply s_err].
  apply s_ask. intros [k|] s2 _ _; [apply s_ok|apply s_err].
Qed.

Lemma RequestRefund_safe oid uid reason s : inv s → safe (RequestRefund oid uid reason) (ok_post any) s.
Proof.
  intros Hinv. unfold RequestRefund. eapply (s_try _ _ _ _ any); [done| |].
  { unfold validateRefundRequest. apply read_any; [done|]. intros o s1 Hinv1. do 3 (case_match; [apply s_err|]).
    eapply s_bind; [done|by apply getRefundOrderProviderInstance_safe|]. intros [[i|]|] s2 _ _ _; [|apply s_err..].
    case_match; [apply s_ok|apply s_err]. }
  intros o s1 _ Hinv1 _. apply read_any; [done|]. intros b s2 Hinv2. case_match; [apply s_err|].
  apply s_clock. intros s3 _ Hinv3. eapply (s_try _ _ _ _ any); [done| |].
  - apply lift_write_any; [done|]. intros s4 _ Hinv4. apply update_settled_ok; [done|apply requested_like|].
    intros x _ Hg. apply andb_true_iff in Hg as [[_ Hg]%andb_true_iff _]. status_cases Hg. rewrite Hg. status_in.
  - intros c s4 _ Hinv4 _. case_match; [apply s_err|]. eapply s_bind; [done|apply writeAuditLog_safe|]. intros; apply s_ok.
Qed.

Lemma ExtendSubscription_safe ev id days s : inv s → safe (ExtendSubscription ev id days) (ok_post any) s.
Proof.
  intros Hinv. apply s_write_any; [done|intros; by apply extend_subscription_ok|].
  intros [x|e] s1 _ Hinv1; [|apply s_err]. apply read_any; [done|]. intros; apply s_ok.
Qed.

Lemma RevokeSubscription_safe oid id s : inv s → safe (RevokeSubscription oid id) (ok_post any) s.
Proof.
  intros Hinv. apply read_any; [done|]. intros sub s1 Hinv1. eapply (s_try _ _ _ _ any); [done| |].
  - apply lift_write_any; [done|]. intros; by apply delete_subscription_ok.
  - intros _ s2 _ Hinv2 _. eapply (s_try _ _ _ _ any); [done|apply s_lift_ask|]. intros; apply s_ok.
Qed.

(** Below, the order of the plan is settled. *)
Abbreviation row p := (settled_row (rp_OrderID p)).

Lemma restoreStatus_safe p s : inv s → row p s → safe (restoreStatus p) any s.
Proof.
  intros Hinv Hrow. apply s_write_any; [done| |intros; apply s_any]. intros s1 HR Hinv1.
  apply update_one_ok; [done|by eapply settled_row_stable|]. apply set_status_like.
  unfold restored_status. case_match; status_in.
Qed.

Definition same_order (p q : RefundPlan) (_ : Store) : Prop := rp_OrderID q = rp_OrderID p.

Lemma s_plan p q s : rp_OrderID q = rp_OrderID p → safe (Ret (Ok q) : prg (result perror RefundPlan)) (ok_post (same_order p)) s.
Proof. by intros E s' _ _. Qed.

Lemma restore_err_plan_safe p q e s : inv s → row p s →
  safe (let! _ := restoreStatus p in Ret (Err e) : prg (result perror RefundPlan)) (ok_post (same_order q)) s.
Proof. intros Hinv Hrow. eapply s_bind; [done|by apply restoreStatus_safe|]. intros; apply s_err. Qed.

Lemma deduct_balance_safe p s : inv s → row p s → safe (deduct_balance p) (ok_post (same_order p)) s.
Proof.
  intros Hinv Hrow. unfold deduct_balance. case_match; [by apply s_plan|].
  eapply s_bind; [done|apply hasAuditLog_safe|]. intros skip s1 HR1 Hinv1 _. case_match; [by apply s_plan|].
  apply s_write_any; [done|intros; by apply deduct_available_ok|]. intros [x|e] s2 HR2 Hinv2; [by apply s_plan|].
  apply restore_err_plan_safe; [done|]. eapply settled_row_stable; [exact Hrow|by etrans|done].
Qed.

Lemma deduct_days_safe p s : inv s → row p s → safe (deduct_days p) (ok_post (same_order p)) s.
Proof.
  intros Hinv Hrow. unfold deduct_days. case_match; [by apply s_plan|].
  eapply s_bind; [done|apply hasAuditLog_safe|]. intros skip s1 HR1 Hinv1 _. case_match; [by apply s_plan|].
  eapply s_bind; [done|by apply ExtendSubscription_safe|]. intros [x|e] s2 HR2 Hinv2 _; [by apply s_plan|].
  assert (row p s2) as Hrow2 by (eapply settled_row_stable; [exact Hrow|by etrans|done]).
  case_match; [|by apply restore_err_plan_safe].
  eapply s_bind; [done|by apply RevokeSubscription_safe|]. intros [y|e'] s3 HR3 Hinv3 _; [by apply s_plan|].
  apply restore_err_plan_safe; [done|by eapply settled_row_stable].
Qed.

Lemma audit_then_safe {A} oid a op (r : A) s : safe (let! _ := writeAuditLog oid a op in Ret r : prg A) any s.
Proof.
  apply s_write; [|intros; apply s_any]. intros s' _ Hinv. split; [by apply insert_audit_ok|apply s_any].
Qed.

Lemma RollbackRefund_safe p s : inv s → safe (RollbackRefund p) any s.
Proof.
  intros Hinv. eapply (s_bind _ _ _ any); [done| |].
  - unfold rollback_balance. case_match; [apply s_any|].
    apply s_write_any; [done|intros; by apply return_balance_ok|]. intros [x|e] s1 _ _; [apply s_any|apply audit_then_safe].
  - intros [] s1 _ Hinv1 _; [|apply s_any]. unfold rollback_days. case_match; [apply s_any|].
    eapply s_bind; [done|by apply ExtendSubscription_safe|]. intros [x|e] s2 _ _ _; [apply s_any|apply audit_then_safe].
Qed.

Lemma ok_any {A} (p : prg (result perror A)) s : safe p any s → safe p (ok_post any) s.
Proof. intros Hp. eapply (safe_weaken Lost st_now inv later); [exact Hp|]. by intros [] ? _ _. Qed.

Lemma handleGwFail_safe p e s : inv s → row p s → safe (handleGwFail p e) (ok_post any) s.
Proof.
  intros Hinv Hrow. eapply s_bind; [done|by apply RollbackRefund_safe|]. intros [] s1 HR1 Hinv1 _.
  - eapply s_bind; [done|apply restoreStatus_safe; [done|by eapply settled_row_stable]|]. intros _ s2 _ _ _.
    apply ok_any, audit_then_safe.
  - apply s_clock. intros s2 HR2 Hinv2. apply s_write_any; [done| |intros; apply ok_any, audit_then_safe].
    intros s3 HR3 Hinv3. apply update_one_ok; [done| |apply failed_at_like].
    eapply settled_row_stable; [exact Hrow|etrans; [exact HR1|by etrans]|done].
Qed.

Lemma markRefundOk_safe p s : inv s → row p s → safe (markRefundOk p) (ok_post any) s.
Proof.
  intros Hinv Hrow. apply s_clock. intros s1 HR1 Hinv1. eapply (s_try _ _ _ _ any); [done| |].
  - apply lift_write_any; [done|]. intros s2 HR2 Hinv2. apply update_one_ok; [done| |apply refunded_like].
    eapply settled_row_stable; [exact Hrow|by etrans|done].
  - intros _ s2 _ _ _. apply ok_any, audit_then_safe.
Qed.

Lemma markRefundPending_safe p r s : inv s → row p s → safe (markRefundPending p r) (ok_post any) s.
Proof.
  intros Hinv Hrow. unfold markRefundPending. case_match; [apply s_err|]. apply s_clock. intros s1 HR1 Hinv1. cbv zeta.
  eapply (s_try _ _ _ _ any); [done| |intros; apply s_ok].
  apply lift_write_any; [done|]. intros s2 HR2 Hinv2. apply mark_pending_ok; [done|].
  eapply settled_row_stable; [exact Hrow|by etrans|done].
Qed.

Lemma gwRefund_safe p s : inv s → safe (gwRefund p) (ok_post any) s.
Proof.
  intros Hinv. unfold gwRefund. cbv zeta. case_match; [apply ok_any, audit_then_safe|].
  eapply s_try; [done|by apply getRefundProvider_safe|]. intros prov s1 _ Hinv1 _. apply s_ask. intros m s2 _ Hinv2.
  case_match; [apply ok_any, audit_then_safe|]. apply s_log. intros s3 _ Hinv3. apply s_ask. intros a s4 _ Hinv4.
  apply s_log. intros s5 _ _. apply ok_any, s_any.
Qed.

Lemma finishRefund_safe p r s : inv s → row p s → safe (finishRefund p r) (ok_post any) s.
Proof.
  intros Hinv Hrow. unfold finishRefund. cbv zeta. case_match; [by apply handleGwFail_safe|].
  case_match; [by apply markRefundOk_safe|]. case_match; [by apply markRefundPending_safe|by apply handleGwFail_safe].
Qed.

Lemma ExecuteRefund_safe p s : inv s → safe (ExecuteRefund p) (ok_post any) s.
Proof.
  intros Hinv. unfold ExecuteRefund. eapply (s_try _ _ _ _ (λ n s, n ≠ 0 → row p s)); [done| |].
  - apply s_lift_write; [|intros n s1 s2 Hn HR Hi E; by eapply settled_row_stable; [apply Hn| |]].
    intros s1 _ Hinv1. split; [by apply claim_refund_ok|]. intros n Hn Hne. by eapply claim_refund_settled.
  - intros n s1 _ Hinv1 Hn. case_match; [apply s_err|]. assert (row p s1) as Hrow by (apply Hn; lia).
    eapply s_try; [done|by apply deduct_balance_safe|]. intros p1 s2 HR2 Hinv2 E1.
    assert (row p1 s2) as Hrow1 by (rewrite E1; by eapply settled_row_stable).
    eapply s_try; [done|by apply deduct_days_safe|]. intros p2 s3 HR3 Hinv3 E2.
    assert (row p2 s3) as Hrow2 by (rewrite E2; by eapply settled_row_stable).
    eapply s_bind; [done|by apply gwRefund_safe|]. intros [r|e] s4 HR4 Hinv4 _;
      [apply finishRefund_safe|apply handleGwFail_safe]; try done; by eapply settled_row_stable.
Qed.

Lemma prepDeduct_safe o p force s : inv s → safe (prepDeduct o p force) any s.
Proof.
  intros Hinv. unfold prepDeduct. cbv zeta. case_match.
  - repeat case_match; try apply s_any; apply s_ask; intros; apply s_any.
  - apply s_read; intros; apply s_any.
Qed.

Lemma PrepareRefund_safe oid amt reason force deduct s : inv s → safe (PrepareRefund oid amt reason force deduct) (ok_post any) s.
Proof.
  intros Hinv. apply read_any; [done|]. intros o s1 Hinv1. case_match; [apply s_err|].
  eapply s_bind; [done|by apply getRefundOrderProviderInstance_safe|]. intros [[i|]|e] s2 _ Hinv2 _; [|apply s_err..].
  cbv zeta. do 2 (case_match; [apply s_err|]).
  generalize (if Float.le amt Float.zero then o_Amount o else amt). intros x.
  case_match; [apply s_err|]. case_match; [|apply s_ok].
  eapply s_bind; [done|by apply prepDeduct_safe|]. intros [q [r|]] s3 _ _ _; apply s_ok.
Qed.

Lemma ProcessRefund_safe oid amt reason force deduct s : inv s → safe (ProcessRefund oid amt reason force deduct) (ok_post any) s.
Proof.
  intros Hinv. eapply (s_try _ _ _ _ any); [done|by apply PrepareRefund_safe|]. intros [p|r] s1 _ Hinv1 _;
    [by apply ExecuteRefund_safe|apply s_ok].
Qed.

Lemma finalizeRefundFailed_safe p s : inv s → safe (finalizeRefundFailed p) (ok_post any) s.
Proof.
  intros Hinv. apply s_ask. intros b s1 _ Hinv1. apply s_clock. intros s2 _ Hinv2.
  apply s_write_any; [done|intros; by apply finalize_failed_ok|]. intros [[]|e] s3 _ Hinv3; [apply s_ok| |apply s_err].
  apply s_clock. intros s4 _ Hinv4. apply s_write_any; [done|intros; by apply finalize_unreturned_ok|].
  intros [x|e] s5 _ _; [apply s_ok|apply s_err].
Qed.

Lemma finalizePendingRefundSuccess_safe p s : inv s → safe (finalizePendingRefundSuccess p) (ok_post any) s.
Proof.
  intros Hinv. apply s_clock. intros s1 _ Hinv1. apply s_write_any; [done|intros; by apply finalize_success_ok|].
  intros [x|e] s2 _ _; [apply s_ok|apply s_err].
Qed.

Lemma QueryAndFinalizeRefund_safe oid s : inv s → safe (QueryAndFinalizeRefund oid) (ok_post any) s.
Proof.
  intros Hinv. apply read_any; [done|]. intros o s1 Hinv1. case_match; [apply s_err|].
  eapply s_try; [done|by apply getRefundProvider_safe|]. intros prov s2 _ Hinv2 _. apply s_ask. intros b s3 _ Hinv3.
  case_match; [apply s_err|]. eapply (s_try _ _ _ _ any); [done| |].
  { apply read_any; [done|]. intros e s4 _. apply ok_any, s_any. }
  intros d s4 _ Hinv4 _. apply s_ask. intros [resp []] s5 _ Hinv5; [|apply s_err].
  eapply (s_bind _ _ _ any); [done| |].
  { unfold final_plan. cbv zeta. repeat (case_match; [apply s_any|]). case_match; [by apply prepDeduct_safe|apply s_any]. }
  intros [plan [r|]] s6 _ Hinv6 _; [apply s_ok|]. cbv zeta.
  repeat case_match; first [by apply finalizeRefundFailed_safe|by apply finalizePendingRefundSuccess_safe
                           |apply ok_any, audit_then_safe].
Qed.

End refunds.

(** ** The system *)

Inductive request :=
  | RNotify (n : PaymentNotification) (pk : bytes)   (* a provider's webhook, verified *)
  | RRetry (oid : Z)
  | RCancel (oid uid : Z)
  | RAdminCancel (oid : Z)
  | RExpire                                          (* the timer *)
  | RReconcile                                       (* the timer *)
  | RVerify (outTradeNo : bytes) (uid : Z)
  | RRedeem (uid : Z) (code : bytes)                 (* a user redeems a code *)
  | RDelete (id : Z)                                 (* an administrator deletes a code *)
  | RRequestRefund (oid uid : Z) (reason : bytes)
  | RRefund (oid : Z) (amount : float64) (reason : bytes) (force deduct : bool)
  | RQueryRefund (oid : Z)
  | RSpend (uid : Z) (f : Z → Z).                    (* another service changes a balance *)

Definition change_balance (uid : Z) (f : Z → Z) (s : Store) : result dberr unit * Store :=
  (Ok tt, with_balances (alter f uid) s).

Section system.
Context `{Database} `{Numeric} `{TimeZones} `{UnicodeFold} `{Decimal} `{RefundDecimal} (sv : Service).

Definition ignore {A} (p : prg A) : prg unit := let! _ := p in Ret tt.

Definition entry (r : request) : prg unit :=
  match r with
  | RNotify n pk => ignore (HandlePaymentNotification sv n pk)
  | RRetry oid => ignore (RetryFulfillment sv oid)
  | RCancel oid uid => ignore (CancelOrder sv oid uid)
  | RAdminCancel oid => ignore (AdminCancelOrder sv oid)
  | RExpire => ignore (ExpireTimedOutOrders sv)
  | RReconcile => ignore (ReconcilePendingPaymentOrders sv)
  | RVerify no uid => ignore (VerifyOrderByOutTradeNo sv no uid)
  | RRedeem uid code => ignore (RedeemPublic sv uid code)
  | RDelete id => ignore (Delete id)
  | RRequestRefund oid uid reason => ignore (RequestRefund oid uid reason)
  | RRefund oid amount reason force deduct => ignore (ProcessRefund oid amount reason force deduct)
  | RQueryRefund oid => ignore (QueryAndFinalizeRefund oid)
  | RSpend uid f => ignore (write (change_balance uid f))
  end.

(** What a schedule leads to: requests that arrive, calls of the workers with
    their failures and answers, and time that passes. *)
Abbreviation event := (event (Q := question) (Req := request)).
Definition reach (es : list event) (s : Store) : Store :=
  cf_store (run_events Lost st_now advance entry (mkConfig s []) es).

(** All requests but the deletion of a code; under [strict], nobody but the
    order's user spells out an order's recharge code. *)
Definition admissible (strict : Prop) (s : Store) (r : request) : Prop :=
  match r with
  | RDelete _ => False
  | RRedeem uid code => may_redeem strict uid code s
  | _ => True
  end.

Definition admissible_events (strict : Prop) (s : Store) : list event → Prop :=
  Forall (allowed (Q := question) (admissible strict s)).

Lemma ignore_safe {A} (strict : Prop) (p : prg (result perror A)) s :
  inv strict s → Interleaving.safe Lost st_now (inv strict) later p (ok_post any) s →
  Interleaving.safe Lost st_now (inv strict) later (ignore p) (λ _ _, True) s.
Proof. intros Hinv Hp. eapply s_bind; [done|exact Hp|]. intros; apply s_any. Qed.

Lemma entry_safe (strict : Prop) s0 r s :
  admissible strict s0 r → later s0 s → inv strict s →
  Interleaving.safe Lost st_now (inv strict) later (entry r) (λ _ _, True) s.
Proof.
  intros Hr HR Hinv. destruct r; unfold entry; try (apply ignore_safe; [done|]); try done.
  - by apply HandlePaymentNotification_safe.
  - by apply RetryFulfillment_safe.
  - by apply CancelOrder_safe.
  - by apply AdminCancelOrder_safe.
  - by apply ExpireTimedOutOrders_safe.
  - by apply ReconcilePendingPaymentOrders_safe.
  - by apply VerifyOrderByOutTradeNo_safe.
  - eapply (safe_weaken Lost st_now _ later); [apply redeem_safe; [done|by eapply may_redeem_stable]|by intros []].
  - by apply RequestRefund_safe.
  - by apply ProcessRefund_safe.
  - by apply QueryAndFinalizeRefund_safe.
  - apply s_write_any; [done| |intros; apply s_any]. intros s1 _ Hinv1. by apply good_same.
Qed.

Lemma reach_ok (strict : Prop) es s :
  inv strict s → admissible_events strict s es → inv strict (reach es s) ∧ later s (reach es s).
Proof.
  intros Hinv Hes. apply (reachable_ok Lost st_now advance (inv strict) later entry (admissible strict s));
    [by apply entry_safe|intros; by apply advance_ok|done|done].
Qed.

End system.
End PaymentSystem.
