(* ===== verification/RefundInvariant.v ===== *)
(** * What the steps of refunds and payments preserve of refunds

    The journal of an order read as a list of attempts, the invariant that links it
    to the order's row and its REFUND_PENDING entry, what every step respects, and
    what the worker of an attempt may rely on while the order is REFUNDING. *)

From Stdlib Require Import QArith Qabs.
From S2P Require Import Prelude Float64 GoStrings PaymentOrder Subscription Database Interleaving Ownership PaymentStore Redeem Payment Refund PaymentInvariant.

Module RefundInvariant.
Import GoStrings PaymentOrder PaymentStore Redeem Payment Refund PaymentInvariant.

(** ** Attempts *)

Definition event_order (e : refund_event) : Z :=
  match e with Claimed oid _ _ | Deducted oid _ | Asked oid _ | Answered oid _ | Returned oid _ => oid end.

(** The journal of one order, newest first. *)
Definition events (oid : Z) (s : Store) : list refund_event := filter (λ e, event_order e = oid) (st_refunds s).

Inductive asking :=
  | NotAsked
  | Waiting (r : RefundRequest)
  | Heard (r : RefundRequest) (a : refund_answer).

Record attempt := mkAttempt {
  at_Amount : float64;
  at_TradeNo : bytes;
  at_Deduct : option deduction;
  at_Ask : asking;
  at_Return : option deduction
}.

(** The provider reports the refund as made; as not decided. *)
Definition accepted (a : refund_answer) : bool :=
  match a with
  | (Some r, true) => let status := TrimSpace (rr_Status r) in
                      bool_decide (status = ProviderStatusSuccess) || bool_decide (status = ProviderStatusRefunded)
  | _ => false
  end.
Definition undecided (a : refund_answer) : bool :=
  match a with
  | (Some r, _) => bool_decide (TrimSpace (rr_Status r) = ProviderStatusPending)
  | (None, _) => false
  end.

(** The provider has not been asked, or has answered and does not report success. *)
Definition unaccepted (a : asking) : bool :=
  match a with NotAsked => true | Waiting _ => false | Heard _ ans => negb (accepted ans) end.
Definition closed (a : attempt) : Prop := unaccepted (at_Ask a) = true.

(** The [n]-th claim of an order. *)
Abbreviation token := (Z * nat)%type (only parsing).

Section numeric.
Context `{Numeric}.

(** What is given back for [d]: the amount read as a float and stored again; nothing
    restores a revoked subscription, the call finds no row. *)
Definition gives_back (d d' : deduction) : bool :=
  match d, d' with
  | Money u z, Money u' z' =>
      (u =? u') && Qle_bool (Qabs (inject_Z z' - numeric (column z))) (1 # 2)
  | Days sub n, Days sub' n' => (sub =? sub') && (n =? n')
  | Revoked sub, Days sub' _ => sub =? sub'
  | _, _ => false
  end.

(** The next event of an order: an attempt takes something at most once, before it
    asks; it asks at most once; it gives back at most once, what it took, and only
    when the provider does not report success.  [None]: out of order. *)
Definition add_event (e : refund_event) (l : option (list attempt)) : option (list attempt) :=
  match e, l with
  | Claimed _ x t, Some l => Some (mkAttempt x t None NotAsked None :: l)
  | Deducted _ d, Some (mkAttempt x t None NotAsked None :: l) => Some (mkAttempt x t (Some d) NotAsked None :: l)
  | Asked _ r, Some (mkAttempt x t d NotAsked None :: l) => Some (mkAttempt x t d (Waiting r) None :: l)
  | Answered _ ans, Some (mkAttempt x t d (Waiting r) None :: l) => Some (mkAttempt x t d (Heard r ans) None :: l)
  | Returned _ d', Some (mkAttempt x t (Some d) ask None :: l) =>
      if gives_back d d' && unaccepted ask then Some (mkAttempt x t (Some d) ask (Some d') :: l) else None
  | _, _ => None
  end.

Definition attempts (oid : Z) (s : Store) : option (list attempt) := foldr add_event (Some []) (events oid s).

Lemma events_cons oid e s : events oid (with_refund e s) =
  if decide (event_order e = oid) then e :: events oid s else events oid s.
Proof. unfold events. simpl. by rewrite filter_cons. Qed.

Lemma attempts_cons oid e s : event_order e = oid → attempts oid (with_refund e s) = add_event e (attempts oid s).
Proof. intros E. unfold attempts. rewrite events_cons, decide_True by done. done. Qed.

Lemma attempts_events oid s s' : events oid s' = events oid s → attempts oid s' = attempts oid s.
Proof. unfold attempts. by intros ->. Qed.

(** ** The invariant *)

(** The entries REFUND_PENDING of an order: the index allows one. *)
Definition pending_entries (oid : Z) (s : Store) : list Audit :=
  filter (λ a, au_OrderID a = oid ∧ au_Action a = REFUND_PENDING) (st_audits s).
Definition pending_entry (oid : Z) (d : refundPendingAuditDetail) (s : Store) : Prop :=
  ∃ a, pending_entries oid s = [a] ∧ au_Detail a = DPending d.

(** A plan for user [u] gives back exactly what the attempt took. *)
Definition owed (u : Z) (t : DeductionType) (x : float64) (n sub : Z) (a : attempt) : Prop :=
  match at_Deduct a with
  | None => (t = DeductionTypeBalance → Float.lt Float.zero x = false) ∧
            (t = DeductionTypeSubscription → (0 <? n) && (0 <? sub) = false)
  | Some (Money u' z) => u' = u ∧ t = DeductionTypeBalance ∧ x = column z
  | Some (Days sub' n') => t = DeductionTypeSubscription ∧ n' = n ∧ sub' = sub
  | Some (Revoked sub') => t = DeductionTypeSubscription ∧ sub' = sub
  end.

Definition held (u : Z) (d : refundPendingAuditDetail) (a : attempt) : Prop :=
  pd_DeductionHeld d = true ∧
  owed u (pd_DeductionType d) (pd_BalanceDeducted d) (pd_SubDaysDeducted d) (pd_SubscriptionID d) a.

(** The provider waits to decide. *)
Definition awaits (a : attempt) : Prop := ∃ r ans, at_Ask a = Heard r ans ∧ undecided ans = true.

(** How an attempt that refunded the order ends: the provider reported success, or
    promised to decide and confirmed later, or the order had no trade number. *)
Definition final (a : attempt) : Prop :=
  at_Return a = None ∧
  match at_Ask a with
  | NotAsked => at_TradeNo a = []
  | Waiting _ => False
  | Heard _ ans => accepted ans = true ∨ undecided ans = true
  end.

Definition final_status (amount orderAmount : float64) : OrderStatus :=
  if Float.lt amount orderAmount then OrderStatusPartiallyRefunded else OrderStatusRefunded.

(** What the row says of the latest attempt; all earlier ones are closed. *)
Definition state_ok (o : Order) (l : list attempt) (s : Store) : Prop :=
  match o_Status o with
  | OrderStatusRefunding => ∃ a l', l = a :: l' ∧ Forall closed l'
  | OrderStatusRefundPending => ∃ a l' d, l = a :: l' ∧ Forall closed l' ∧ awaits a ∧ at_Return a = None ∧
      at_Amount a = RefundAmount (o_Refund o) ∧ pending_entry (o_ID o) d s ∧ held (o_UserID o) d a
  | OrderStatusRefunded | OrderStatusPartiallyRefunded => ∃ a l', l = a :: l' ∧ Forall closed l' ∧ final a ∧
      at_Amount a = RefundAmount (o_Refund o) ∧ o_Status o = final_status (at_Amount a) (o_Amount o)
  | OrderStatusCompleted | OrderStatusRefundRequested | OrderStatusRefundFailed => Forall closed l
  | _ => l = []
  end.

Record rinv (s : Store) : Prop := {
  ri_id : ∀ oid o, st_orders s !! oid = Some o → o_ID o = oid;
  ri_one : ∀ oid, (length (pending_entries oid s) ≤ 1)%nat;
  ri_state : ∀ oid o, st_orders s !! oid = Some o → ∃ l, attempts oid s = Some l ∧ state_ok o l s
}.

(** No refund has begun: at most requested, or failed. *)
Definition begun : list OrderStatus :=
  [OrderStatusRefunding; OrderStatusRefundPending; OrderStatusRefunded; OrderStatusPartiallyRefunded].
Record no_refunds (s : Store) : Prop := {
  nr_log : st_refunds s = [];
  nr_pending : ∀ oid, pending_entries oid s = [];
  nr_rows : ∀ oid o, st_orders s !! oid = Some o → o_ID o = oid ∧ o_Status o ∉ begun
}.

Lemma rinv_initial s : no_refunds s → rinv s.
Proof.
  intros [Hl Hp Hr]. split.
  - intros oid o Ho. by destruct (Hr oid o Ho).
  - intros oid. rewrite Hp. simpl. lia.
  - intros oid o Ho. exists []. unfold attempts, events. rewrite Hl. split; [done|].
    destruct (Hr oid o Ho) as [_ Hst]. unfold state_ok.
    destruct (o_Status o); try done; try (by constructor); exfalso; apply Hst; status_in.
Qed.

(** ** What every step respects *)

Definition refunded_statuses : list OrderStatus := [OrderStatusRefunded; OrderStatusPartiallyRefunded].

(** The entries that conclude a pending refund. *)
Definition conclusions : list string := [REFUND_SUCCESS; REFUND_FAILED].

(** The beginnings of attempts and the requests to the provider. *)
Definition is_start (e : refund_event) : bool := match e with Claimed _ _ _ | Asked _ _ => true | _ => false end.
Definition starts (oid : Z) (s : Store) : list refund_event := filter (λ e, is_start e = true) (events oid s).

(** A pending refund still waits and nothing was started, or it has been concluded. *)
Definition still_waits (oid : Z) (s s' : Store) : Prop :=
  (∃ o, st_orders s' !! oid = Some o ∧ o_Status o = OrderStatusRefundPending ∧ starts oid s' = starts oid s) ∨
  (∃ a, a ∈ conclusions ∧ has_audit oid [a] s = false ∧ has_audit oid [a] s' = true).

Record rlater (s s' : Store) : Prop := {
  rl_rows : ∀ oid o, st_orders s !! oid = Some o → ∃ o', st_orders s' !! oid = Some o' ∧ core_of o' = core_of o;
  rl_log : st_refunds s `suffix_of` st_refunds s';
  rl_pending : ∀ oid, pending_entries oid s ≠ [] → pending_entries oid s' = pending_entries oid s;
  rl_once : ∀ oid o o', pending_entries oid s ≠ [] → st_orders s !! oid = Some o → st_orders s' !! oid = Some o' →
    o_Status o' = OrderStatusRefundPending →
    o_Status o = OrderStatusRefundPending ∧ RefundAmount (o_Refund o') = RefundAmount (o_Refund o);
  rl_final : ∀ oid o, st_orders s !! oid = Some o → o_Status o ∈ refunded_statuses →
    events oid s' = events oid s ∧
    ∃ o', st_orders s' !! oid = Some o' ∧ o_Status o' = o_Status o ∧ o_Refund o' = o_Refund o;
  rl_entries : ∀ oid a, a ∈ conclusions → has_audit oid [a] s = true → has_audit oid [a] s' = true;
  rl_waits : ∀ oid o, st_orders s !! oid = Some o → o_Status o = OrderStatusRefundPending → still_waits oid s s'
}.

Lemma still_waits_same oid o s s' : st_orders s' !! oid = Some o → o_Status o = OrderStatusRefundPending →
  events oid s' = events oid s → still_waits oid s s'.
Proof. intros Ho Hst He. left. exists o. split_and!; [done|done|]. unfold starts. by rewrite He. Qed.

#[export] Instance rlater_preorder : PreOrder rlater.
Proof.
  split; [intros s; split; eauto using still_waits_same; intros; by simplify_eq|].
  intros x y z [H1 H2 H3 H4 H5 H6 H7] [K1 K2 K3 K4 K5 K6 K7]. split.
  - intros i o Ho. destruct (H1 i o Ho) as (o' & Ho' & E). destruct (K1 i o' Ho') as (o'' & ? & E').
    exists o''. split; [done|congruence].
  - by etrans.
  - intros i Hi. rewrite K3, H3; [done|done|]. by rewrite H3.
  - intros i o o2 Hi Ho Ho2 Hst. destruct (H1 i o Ho) as (o1 & Ho1 & _).
    destruct (K4 i o1 o2) as [Hst1 E]; [by rewrite H3|done..|]. destruct (H4 i o o1) as [? E']; [done..|].
    split; [done|congruence].
  - intros i o Ho Hst. destruct (H5 i o Ho Hst) as (Ee & o1 & Ho1 & E1 & R1). rewrite <- E1 in Hst.
    destruct (K5 i o1 Ho1 Hst) as (Fe & o2 & Ho2 & E2 & R2). split; [congruence|]. exists o2. split_and!; [done|congruence..].
  - intros i a Ha Hx. by apply K6, H6.
  - intros i o Ho Hst. destruct (H7 i o Ho Hst) as [(o1 & Ho1 & Hst1 & E1)|(a & Ha & Hx & Hy)]; [|right; exists a; auto].
    destruct (K7 i o1 Ho1 Hst1) as [(o2 & Ho2 & Hst2 & E2)|(a & Ha & Hy & Hz)]; [left; exists o2; split_and!; [done|done|congruence]|].
    right. exists a. split_and!; [done| |done]. destruct (has_audit i [a] x) eqn:Hx; [|done]. rewrite H6 in Hy; done.
Qed.

(** ** Tokens *)

Definition is_claim (e : refund_event) : bool := match e with Claimed _ _ _ => true | _ => false end.
Definition claims (oid : Z) (s : Store) : nat := length (filter (λ e, is_claim e = true) (events oid s)).

Definition fresh (t : token) (s : Store) : Prop := (claims t.1 s < t.2)%nat.

Definition refunding (oid : Z) (s : Store) : Prop :=
  ∃ o, st_orders s !! oid = Some o ∧ o_Status o = OrderStatusRefunding.

(** While the attempt is the latest and the order is REFUNDING, nobody else touches
    the order's status or its journal. *)
Definition spares (t : token) (s s' : Store) : Prop :=
  claims t.1 s = t.2 → refunding t.1 s → refunding t.1 s' ∧ events t.1 s' = events t.1 s.

Lemma claims_events oid s s' : events oid s' = events oid s → claims oid s' = claims oid s.
Proof. unfold claims. by intros ->. Qed.

#[export] Instance spares_preorder t : PreOrder (spares t).
Proof.
  split; [by intros s|]. intros x y z H1 H2 Hc Hr. destruct (H1 Hc Hr) as [Hr' He].
  destruct H2 as [Hr'' He']; [by rewrite (claims_events _ _ _ He)|done|]. split; [done|congruence].
Qed.

Lemma made_stays t s s' : rlater s s' → fresh t s' → fresh t s.
Proof.
  intros [_ [k Hl] _ _ _ _ _]. unfold fresh, claims, events. rewrite Hl, !filter_app, length_app. lia.
Qed.

(** ** Steps on one order *)

Record only (oid : Z) (s s' : Store) : Prop := {
  on_rows : ∀ i, i ≠ oid → st_orders s' !! i = st_orders s !! i;
  on_events : ∀ i, i ≠ oid → events i s' = events i s;
  on_pending : ∀ i, i ≠ oid → pending_entries i s' = pending_entries i s;
  on_later : rlater s s'
}.

Lemma only_trans oid s1 s2 s3 : only oid s1 s2 → only oid s2 s3 → only oid s1 s3.
Proof.
  intros [H1 H2 H3 H4] [K1 K2 K3 K4]. split; [..|by etrans].
  all: intros i Hi; first [rewrite K1 by done; by apply H1|rewrite K2 by done; by apply H2|rewrite K3 by done; by apply H3].
Qed.

(** What refunds read of a store: the rest may change. *)
Record unchanged (s s' : Store) : Prop := {
  un_orders : st_orders s' = st_orders s;
  un_refunds : st_refunds s' = st_refunds s;
  un_audits : st_audits s' = st_audits s
}.

Lemma unchanged_only oid s s' : unchanged s s' → only oid s s'.
Proof.
  intros [E1 E2 E3]. split; [by intros i _; rewrite E1|by intros i _; unfold events; rewrite E2|by intros i _; unfold pending_entries; rewrite E3|].
  split; [intros i o Ho; exists o; by rewrite E1|by rewrite E2|by intros i _; unfold pending_entries; rewrite E3|..].
  - intros i o o' _ Ho Ho' Hst. rewrite E1 in Ho'. by simplify_eq.
  - intros i o Ho _. split; [unfold events; by rewrite E2|]. exists o. by rewrite E1.
  - intros i a _. unfold has_audit. by rewrite E3.
  - intros i o Ho Hst. apply (still_waits_same i o); [by rewrite E1|done|unfold events; by rewrite E2].
Qed.

Lemma row_only oid o o' s :
  st_orders s !! oid = Some o → core_of o' = core_of o → o_Status o ∉ refunded_statuses →
  (o_Status o' = OrderStatusRefundPending → pending_entries oid s = []) → o_Status o ≠ OrderStatusRefundPending →
  only oid s (with_orders (insert oid o') s).
Proof.
  intros Ho Hc Hnf Hp Hnp. split; simpl; try done; [intros i Hi; by rewrite lookup_insert_ne|]. split; simpl; try done.
  - intros i x Hx. destruct (decide (oid = i)) as [<-|Hne].
    + exists o'. rewrite lookup_insert_eq. split; [done|]. congruence.
    + exists x. by rewrite lookup_insert_ne.
  - intros i x x' Hn Hx Hx' Hst. destruct (decide (oid = i)) as [<-|Hne].
    + rewrite lookup_insert_eq in Hx'. simplify_eq. by destruct Hn; apply Hp.
    + rewrite lookup_insert_ne in Hx' by done. by simplify_eq.
  - intros i x Hx Hst. split; [done|]. destruct (decide (oid = i)) as [<-|Hne]; [congruence|].
    exists x. by rewrite lookup_insert_ne.
  - intros i x Hx Hst. destruct (decide (oid = i)) as [<-|Hne]; [congruence|].
    apply (still_waits_same i x); [simpl; by rewrite lookup_insert_ne|done|done].
Qed.

Lemma event_only e s : (∀ o, st_orders s !! event_order e = Some o →
    o_Status o ∉ refunded_statuses ∧ (o_Status o = OrderStatusRefundPending → is_start e = false)) →
  only (event_order e) s (with_refund e s).
Proof.
  intros Hnf.
  split; simpl; try done; [intros i Hi; rewrite events_cons, decide_False; done|].
  split; simpl; try done; [by eauto|by exists [e]|intros; by simplify_eq|..].
  - intros i o Ho Hst. rewrite events_cons, decide_False; [by eauto|]. intros <-. by destruct (Hnf o Ho).
  - intros i o Ho Hst. left. exists o. split_and!; [done|done|]. unfold starts. rewrite events_cons. case_decide; [subst|done].
    rewrite filter_cons, decide_False; [done|]. destruct (Hnf o Ho) as [_ Hs]. by rewrite Hs.
Qed.

Lemma entry_only a s : (au_Action a = REFUND_PENDING → pending_entries (au_OrderID a) s = []) →
  only (au_OrderID a) s (with_audits (cons a) s).
Proof.
  intros Hp. assert (Hp' : ∀ i, i ≠ au_OrderID a ∨ pending_entries i s ≠ [] →
    pending_entries i (with_audits (cons a) s) = pending_entries i s).
  { intros i Hi. unfold pending_entries. simpl. rewrite filter_cons, decide_False; [done|].
    intros [Hid Ha]. destruct Hi as [Hi|Hi]; [congruence|]. apply Hi. rewrite <- Hid. by apply Hp. }
  split; simpl; try done; [intros i Hi; apply Hp'; by left|].
  split; simpl; try done; [by eauto|intros i Hi; apply Hp'; by right|intros; by simplify_eq|by eauto|..].
  - intros i x _ Hx. apply orb_true_iff. by right.
  - intros i o Ho Hst. by apply (still_waits_same i o).
Qed.

(** A conclusion: the row leaves REFUND_PENDING together with the entry. *)
Lemma conclude_only oid o o' e s : st_orders s !! oid = Some o → o_Status o = OrderStatusRefundPending → core_of o' = core_of o →
  o_Status o' ≠ OrderStatusRefundPending → au_OrderID e = oid → au_Action e ∈ conclusions → has_audit oid [au_Action e] s = false →
  only oid s (with_orders (insert oid o') (with_audits (cons e) s)).
Proof.
  intros Ho Hst Hc Hn He Ha Hnew.
  assert (Hp : ∀ i, pending_entries i (with_audits (cons e) s) = pending_entries i s).
  { intros i. unfold pending_entries. simpl. rewrite filter_cons, decide_False; [done|]. intros [_ E]. rewrite E in Ha. revert Ha. status_out. }
  split; [intros i Hi; simpl; by rewrite lookup_insert_ne|done|intros i _; apply Hp|]. split; [|done|intros i _; apply Hp|..]; simpl.
  - intros i x Hx. destruct (decide (oid = i)) as [<-|Hne].
    + exists o'. rewrite lookup_insert_eq. split; [done|]. congruence.
    + exists x. by rewrite lookup_insert_ne.
  - intros i x x' _ Hx Hx' Hst'. destruct (decide (oid = i)) as [<-|Hne].
    + rewrite lookup_insert_eq in Hx'. by simplify_eq.
    + rewrite lookup_insert_ne in Hx' by done. by simplify_eq.
  - intros i x Hx Hst'. split; [done|]. destruct (decide (oid = i)) as [<-|Hne].
    + rewrite Ho in Hx. injection Hx as <-. rewrite Hst in Hst'. revert Hst'. status_out.
    + exists x. by rewrite lookup_insert_ne.
  - intros i x _ Hx. apply orb_true_iff. by right.
  - intros i x Hx Hst'. destruct (decide (oid = i)) as [<-|Hne].
    + right. exists (au_Action e). split_and!; [done|done|]. unfold has_audit. simpl. rewrite He, Z.eqb_refl, bool_decide_eq_true_2 by by left. done.
    + apply (still_waits_same i x); [simpl; by rewrite lookup_insert_ne|done|done].
Qed.

Lemma only_rinv oid s s' : rinv s → only oid s s' → (length (pending_entries oid s') ≤ 1)%nat →
  (∀ o', st_orders s' !! oid = Some o' → o_ID o' = oid ∧ ∃ l, attempts oid s' = Some l ∧ state_ok o' l s') → rinv s'.
Proof.
  intros [I1 I2 I3] [O1 O2 O3 _] Hp Hrow. split.
  - intros i o Ho. destruct (decide (i = oid)) as [->|Hne]; [by apply Hrow|]. rewrite O1 in Ho by done. by apply I1.
  - intros i. destruct (decide (i = oid)) as [->|Hne]; [done|]. by rewrite O3.
  - intros i o Ho. destruct (decide (i = oid)) as [->|Hne]; [by apply Hrow|]. rewrite O1 in Ho by done.
    destruct (I3 i o Ho) as (l & Hl & Hst). exists l. split; [by rewrite (attempts_events _ s) by by apply O2|].
    pose proof (I1 i o Ho) as Hid. unfold state_ok, pending_entry in *. rewrite Hid in *. by rewrite (O3 i) by done.
Qed.

Abbreviation guar := (Ownership.guar rlater spares fresh).
Abbreviation rely := (Ownership.rely rlater spares).
Abbreviation quiet := (Ownership.quiet rlater spares).

Lemma only_spares t oid s s' : only oid s s' → t.1 ≠ oid ∨ claims t.1 s ≠ t.2 ∨ ¬ refunding t.1 s → spares t s s'.
Proof.
  intros [O1 O2 _ _] Ht Hc Hr. destruct Ht as [Hne|[?|?]]; [|done|done].
  unfold refunding. by rewrite O1, O2.
Qed.

Lemma only_guar t s s' : claims t.1 s = t.2 → only t.1 s s' → guar (Some t) s s'.
Proof.
  intros Hc Ho. split; [apply Ho|]. intros t' Hne _. eapply only_spares; [exact Ho|].
  destruct (decide (t'.1 = t.1)) as [E|E]; [|by left]. right. left. rewrite E, Hc. intros E2. apply Hne.
  destruct t, t'; simpl in *. congruence.
Qed.

Lemma only_quiet oid s s' : ¬ refunding oid s → only oid s s' → quiet s s'.
Proof.
  intros Hn Ho. split; [apply Ho|]. intros t. eapply only_spares; [exact Ho|].
  destruct (decide (t.1 = oid)) as [E|E]; [right; right; by rewrite E|by left].
Qed.

(** ** The owner of an attempt *)

(** The attempt is the latest of its order, which is REFUNDING. *)
Definition mine (t : token) (a : attempt) (s : Store) : Prop :=
  refunding t.1 s ∧ claims t.1 s = t.2 ∧ ∃ l, attempts t.1 s = Some (a :: l) ∧ Forall closed l.

Lemma mine_stable t a s s' : rely (Some t) s s' → mine t a s → mine t a s'.
Proof.
  intros [HR HK] (Hr & Hc & l & Hl & Hcl). destruct (HK Hc Hr) as [Hr' He]. split_and!; [done|by rewrite (claims_events _ _ _ He)|].
  exists l. by rewrite (attempts_events _ _ _ He).
Qed.

(** An entry of the attempt, with whatever else the statement does. *)
Lemma owner_event t a a' e s s1 :
  rinv s → mine t a s → unchanged s s1 → event_order e = t.1 → is_claim e = false →
  (∀ l, add_event e (Some (a :: l)) = Some (a' :: l)) →
  rinv (with_refund e s1) ∧ guar (Some t) s (with_refund e s1) ∧ mine t a' (with_refund e s1).
Proof.
  intros Hinv (Hr & Hc & l & Hl & Hcl) Hun He Hnc Hadd.
  assert (Hon : only t.1 s (with_refund e s1)).
  { eapply only_trans; [by eapply unchanged_only|]. rewrite <- He. apply event_only. rewrite He, (un_orders _ _ Hun).
    destruct Hr as (o & Ho & Hst). intros x Hx. rewrite Ho in Hx. injection Hx as <-. rewrite Hst. split; [status_in|done]. }
  destruct Hun as [E1 E2 E3]. assert (Hev : events t.1 s1 = events t.1 s) by (unfold events; by rewrite E2).
  assert (Hat : attempts t.1 (with_refund e s1) = Some (a' :: l)).
  { rewrite attempts_cons by done. rewrite (attempts_events _ s) by done. by rewrite Hl, Hadd. }
  assert (Hr' : refunding t.1 (with_refund e s1)) by (unfold refunding; simpl; by rewrite E1).
  split_and!; [|by apply only_guar|split_and!; [done| |by exists l]].
  - eapply only_rinv; [done|exact Hon| |].
    + unfold pending_entries. simpl. rewrite E3. apply (ri_one _ Hinv).
    + intros o' Ho'. destruct Hr' as (o & Ho & Hst). rewrite Ho' in Ho. injection Ho as <-. simpl in Ho'.
      rewrite E1 in Ho'. split; [by eapply ri_id|]. exists (a' :: l). split; [done|]. unfold state_ok. rewrite Hst. by eauto.
  - unfold claims in *. rewrite events_cons, decide_True, filter_cons, decide_False, Hev by (done || by rewrite Hnc). done.
Qed.

(** The row moves on, and with it what else the statement does. *)
Lemma row_moves t a o o' s s1 :
  rinv s → mine t a s → st_orders s !! t.1 = Some o → core_of o' = core_of o →
  (o_Status o' = OrderStatusRefundPending → pending_entries t.1 s = []) →
  only t.1 (with_orders (insert t.1 o') s) s1 → st_orders s1 !! t.1 = Some o' → st_refunds s1 = st_refunds s →
  (length (pending_entries t.1 s1) ≤ 1)%nat → (∀ l, Forall closed l → state_ok o' (a :: l) s1) →
  rinv s1 ∧ guar (Some t) s s1.
Proof.
  intros Hinv (Hr & Hc & l & Hl & Hcl) Ho Hcore Hnew Hon E1 E2 Hone Hst.
  assert (Hon' : only t.1 s s1).
  { eapply only_trans; [|exact Hon]. destruct Hr as (x & Hx & Hstx). rewrite Ho in Hx. injection Hx as <-.
    apply (row_only _ o); try done; rewrite Hstx; [status_in|done]. }
  split; [|by apply only_guar]. eapply only_rinv; [done|exact Hon'|done|].
  intros x. rewrite E1. intros [= <-]. split.
  - rewrite <- (ri_id _ Hinv t.1 o Ho). by destruct (core_fields _ _ Hcore).
  - exists (a :: l). split; [by rewrite (attempts_events _ s) by (unfold events; by rewrite E2)|]. by apply Hst.
Qed.

End numeric.
End RefundInvariant.
