(* ===== verification/RefundSafety.v ===== *)
(** * Every run keeps the invariant of refunds

    The payment and redeem services leave refunds alone: each of their calls, whatever
    the answers, touches no attempt.  A refund's worker owns its attempt from the claim
    on.  So [rinv] holds in all runs of the system of [PaymentSystem]. *)

From Stdlib Require Import QArith Qabs.
From S2P Require Import Prelude Float64 GoStrings PaymentOrder Subscription Database Interleaving Ownership PaymentStore Redeem Payment Refund PaymentInvariant PaymentSafety PaymentSystem RefundInvariant.

Module RefundSafety.
Import GoStrings PaymentOrder PaymentStore Redeem Payment Refund PaymentInvariant PaymentSafety PaymentSystem RefundInvariant.

(** ** Steps that leave refunds alone *)

Definition in_refund : list OrderStatus :=
  [OrderStatusRefundRequested; OrderStatusRefunding; OrderStatusRefundPending;
   OrderStatusPartiallyRefunded; OrderStatusRefunded; OrderStatusRefundFailed].

Record same_refund (o o' : Order) : Prop := {
  sr_core : core_of o' = core_of o;
  sr_columns : o_Refund o' = o_Refund o;
  sr_status : o_Status o' = o_Status o ∨ (o_Status o ∉ settled ∧ o_Status o' ∉ in_refund)
}.

Record apart (s s' : Store) : Prop := {
  ap_rows : ∀ oid o, st_orders s !! oid = Some o → ∃ o', st_orders s' !! oid = Some o' ∧ same_refund o o';
  ap_back : ∀ oid o', st_orders s' !! oid = Some o' → is_Some (st_orders s !! oid);
  ap_log : st_refunds s' = st_refunds s;
  ap_pending : ∀ oid, pending_entries oid s' = pending_entries oid s;
  ap_entries : ∀ oid a, a ∈ conclusions → has_audit oid [a] s = true → has_audit oid [a] s' = true
}.

#[export] Instance apart_preorder : PreOrder apart.
Proof.
  split; [intros s; split; eauto; intros oid o Ho; exists o; split; [done|]; by split; auto|].
  intros x y z [H1 H2 H3 H4 H5] [K1 K2 K3 K4 K5]. split.
  - intros i o Ho. destruct (H1 i o Ho) as (o1 & Ho1 & [E1 E2 E3]). destruct (K1 i o1 Ho1) as (o2 & Ho2 & [F1 F2 F3]).
    exists o2. split; [done|]. split; [congruence|congruence|].
    destruct E3 as [E3|[E3 E4]]; [by rewrite <- E3|]. destruct F3 as [->|[F3 F4]]; right; by split.
  - intros i o Ho. destruct (K2 i o Ho) as [o' Ho']. by eapply H2.
  - congruence.
  - intros i. by rewrite K4.
  - auto.
Qed.

Lemma unchanged_apart s s' : unchanged s s' → apart s s'.
Proof.
  intros [E1 E2 E3]. split; unfold pending_entries, has_audit; rewrite ?E1, ?E2, ?E3; eauto.
  intros i o Ho. exists o. split; [done|]. by split; auto.
Qed.

Abbreviation rely := (Ownership.rely rlater spares).
Abbreviation guar := (Ownership.guar rlater spares fresh).
Abbreviation quiet := (Ownership.quiet rlater spares).

Section numeric.
Context `{Numeric}.

Lemma state_ok_same o o' l s s' : (∀ oid, pending_entries oid s' = pending_entries oid s) →
  same_refund o o' → state_ok o l s → state_ok o' l s'.
Proof.
  intros Hp [Hc Hr Hst] Hok. apply core_fields in Hc as (Hid & Hu & Ha & _).
  destruct Hst as [Hst|[Hn Hn']]; unfold state_ok, pending_entry in *.
  - rewrite Hst, Hid, Hu, Ha, Hr, Hp. done.
  - assert (l = []) as -> by (destruct (o_Status o); try done; by destruct Hn; status_in).
    destruct (o_Status o'); try done; try (by constructor); destruct Hn'; status_in.
Qed.

Lemma apart_ok s s' : rinv s → apart s s' → rinv s' ∧ quiet s s'.
Proof.
  intros [I1 I2 I3] [A1 A2 A3 A4 A5]. assert (Hev : ∀ oid, events oid s' = events oid s) by (intros; unfold events; by rewrite A3).
  assert (Hrow : ∀ oid o', st_orders s' !! oid = Some o' → ∃ o, st_orders s !! oid = Some o ∧ same_refund o o').
  { intros oid o' Ho'. destruct (A2 _ _ Ho') as [o Ho]. exists o. split; [done|]. destruct (A1 _ _ Ho) as (x & Hx & ?). by simplify_eq. }
  split; [|split].
  - split.
    + intros oid o' Ho'. destruct (Hrow _ _ Ho') as (o & Ho & [Hc _ _]). rewrite <- (I1 _ _ Ho). by destruct (core_fields _ _ Hc).
    + intros oid. by rewrite A4.
    + intros oid o' Ho'. destruct (Hrow _ _ Ho') as (o & Ho & Hs). destruct (I3 _ _ Ho) as (l & Hl & Hst).
      exists l. split; [by rewrite (attempts_events _ s)|by eapply state_ok_same].
  - split; [|by rewrite A3|by intros oid _|..].
    + intros oid o Ho. destruct (A1 _ _ Ho) as (o' & Ho' & [Hc _ _]). by exists o'.
    + intros oid o o' _ Ho Ho' Hst. destruct (A1 _ _ Ho) as (x & Hx & [_ Hr [E|[_ E]]]); simplify_eq.
      * split; congruence.
      * destruct E. rewrite Hst. status_in.
    + intros oid o Ho Hst. split; [done|]. destruct (A1 _ _ Ho) as (o' & Ho' & [_ Hr [E|[E _]]]); [by exists o'|].
      destruct E. revert Hst. by destruct (o_Status o); first [status_in|status_out].
    + done.
    + intros oid o Ho Hst. destruct (A1 _ _ Ho) as (o' & Ho' & [_ _ [E|[E _]]]).
      * apply (still_waits_same oid o'); [done|congruence|by apply Hev].
      * destruct E. rewrite Hst. status_in.
  - intros t Hc (o & Ho & Hst). split; [|done]. destruct (A1 _ _ Ho) as (o' & Ho' & [_ _ [E|[E _]]]).
    + exists o'. split; [done|congruence].
    + destruct E. rewrite Hst. status_in.
Qed.

End numeric.

Section services.
Context `{Database} `{Numeric} `{TimeZones} `{UnicodeFold} `{Decimal} `{RefundDecimal}.
Abbreviation tame := (Ownership.tame (Q := question) Lost st_now rinv rlater spares).

(** A row's change, by its guard. *)
Lemma update_order_at_apart oid guard set at_ s : (∀ o, guard o = true → same_refund o (set o)) →
  apart s (snd (update_order_at oid guard set at_ s)).
Proof.
  intros Hg. unfold update_order_at. destruct (st_orders s !! oid) as [o|] eqn:Ho; [|reflexivity].
  destruct (guard o) eqn:E; [|reflexivity]. destruct (Hg o E) as [Hc Hr Hs]. split; simpl; try done.
  - intros i x Hx. destruct (decide (oid = i)) as [<-|Hne].
    + rewrite Ho in Hx. injection Hx as <-. eexists. rewrite lookup_insert_eq. split; [done|]. by split.
    + exists x. rewrite lookup_insert_ne by done. split; [done|]. by split; auto.
  - intros i x. destruct (decide (oid = i)) as [<-|Hne]; [by intros _; exists o|]. rewrite lookup_insert_ne by done. by intros Hx; exists x.
Qed.

Lemma status_same st l o set : status_is l o = true → core_of (set o) = core_of o → o_Refund (set o) = o_Refund o →
  o_Status (set o) = st → Forall (λ x, x ∉ settled) l → st ∉ in_refund → same_refund o (set o).
Proof.
  intros Hg Hc Hr <- Hl Hst. split; [done|done|]. right. split; [|done].
  rewrite Forall_forall in Hl. by apply Hl, status_is_elem.
Qed.

Lemma cons_audit_apart a s : au_Action a ≠ REFUND_PENDING → apart s (with_audits (cons a) s).
Proof.
  intros Ha. split; simpl; eauto.
  - intros i o Ho. exists o. split; [done|]. by split; auto.
  - intros oid. unfold pending_entries. simpl. rewrite filter_cons, decide_False; [done|]. by intros [_ ?].
  - intros oid x _ Hx. apply orb_true_iff. by right.
Qed.

Lemma insert_audit_apart oid a op s : a ≠ REFUND_PENDING → apart s (snd (insert_audit oid a op s)).
Proof. intros Ha. unfold insert_audit. case_match; [reflexivity|]. by apply cons_audit_apart. Qed.

Lemma set_entry_apart f s : (∀ a, au_OrderID (f a) = au_OrderID a) →
  (∀ a, f a = a ∨ au_Action a ∉ REFUND_PENDING :: conclusions ∧ au_Action (f a) ≠ REFUND_PENDING) → apart s (with_audits (fmap f) s).
Proof.
  intros Hid Hf. split; simpl; eauto.
  - intros i o Ho. exists o. split; [done|]. by split; auto.
  - intros oid. unfold pending_entries. simpl. induction (st_audits s) as [|a l IH]; [done|].
    rewrite fmap_cons, !filter_cons, IH, Hid. destruct (Hf a) as [->|[E E']]; [done|].
    rewrite (decide_False (P := _ ∧ au_Action (f a) = _)) by by intros [_ ?]. rewrite decide_False; [done|]. intros [_ Ea]. apply E. rewrite Ea. by left.
  - intros oid x Hx. unfold has_audit. rewrite !existsb_exists. simpl. intros (a & Ha & Hax). exists a. split; [|done].
    apply in_map_iff. exists a. split; [|done]. destruct (Hf a) as [?|[E _]]; [done|]. destruct E. right.
    apply andb_true_iff in Hax as [_ Hax]. apply bool_decide_eq_true, list_elem_of_singleton in Hax. by rewrite Hax.
Qed.

Lemma exec_stmt_apart st s s' : exec_stmt st s = Ok s' → apart s s'.
Proof.
  destruct st; simpl; intros Hs; repeat (case_match; simplify_eq/=);
    first [reflexivity|by apply unchanged_apart|by apply cons_audit_apart|idtac].
  apply set_entry_apart; intros a; case_match eqn:E; try done; try (by left).
  - apply andb_true_iff in E as [? _]. simpl. lia.
  - right. apply andb_true_iff in E as [_ E]. apply bool_decide_eq_true in E. rewrite E. split; [status_in|done].
Qed.

Lemma transaction_apart l s : apart s (snd (transaction l s)).
Proof.
  unfold transaction. destruct (exec_stmts l s) as [s'|e] eqn:E; [simpl|reflexivity].
  revert s E. induction l as [|st l IH]; intros s E; simpl in *; [by simplify_eq|].
  destruct (exec_stmt st s) as [s1|] eqn:E1; [|done]. etrans; [by eapply exec_stmt_apart|by apply IH].
Qed.

(** ** Programs of the payment and redeem services *)

Lemma t_ret {A} (a : A) : tame (Ret a).
Proof. done. Qed.
Lemma t_bind {A B} (p : prg A) (k : A → prg B) : tame p → (∀ a, tame (k a)) → tame (bind p k).
Proof. apply tame_bind. Qed.
Lemma t_try {A B} w (p : prg (result perror A)) (k : A → prg (result perror B)) :
  tame p → (∀ a, tame (k a)) → tame (on_error w p k).
Proof. intros Hp Hk. apply t_bind; [done|]. by intros [a|e]. Qed.
Lemma t_lift {A} (p : prg (result dberr A)) : tame p → tame (lift p).
Proof. intros Hp. by apply t_bind. Qed.
Lemma t_read {A} (q : Store → result dberr A) : tame (read q).
Proof. apply (tame_read Lost st_now rinv rlater spares). Qed.
Lemma t_clock : tame clock.
Proof. apply (tame_now Lost st_now rinv rlater spares). Qed.
Lemma t_ask {A} (q : question A) : tame (ask q).
Proof. apply (tame_ask Lost st_now rinv rlater spares). Qed.
Lemma t_for_each {A B} (l : list B) (acc : A) body : (∀ a x, tame (body a x)) → tame (for_each l acc body).
Proof. apply tame_for_each. Qed.
Lemma t_write {A} (w : Store → result dberr A * Store) : (∀ s, apart s (snd (w s))) → tame (write w).
Proof. intros Hw. apply (tame_write Lost st_now rinv rlater spares). intros s Hs. by apply apart_ok. Qed.

Create HintDb tame.
#[local] Hint Resolve t_ret t_read t_clock t_ask : tame.

(** By the shape of a program: its calls one by one, its branches each. *)
#[local] Ltac tame :=
  repeat (intros; cbv zeta; lazymatch goal with
  | |- Ownership.tame _ _ _ _ _ ?p =>
      lazymatch p with
      | on_error _ _ _ => apply t_try
      | lift _ => apply t_lift
      | bind _ _ => apply t_bind
      | for_each _ _ _ => apply t_for_each
      | _ => first [solve [auto 2 with tame nocore]|case_match]
      end
  end).

Lemma t_keep {A} (w : Store → result dberr A * Store) : (∀ s, unchanged s (snd (w s))) → tame (write w).
Proof. intros Hw. apply t_write. intros s. by apply unchanged_apart. Qed.

Lemma t_transaction l : tame (write (transaction l)).
Proof. apply t_write. intros s. apply transaction_apart. Qed.

Lemma t_audit oid a op : a ≠ REFUND_PENDING → tame (writeAuditLog oid a op).
Proof. intros Ha. apply t_bind; [apply t_write; intros s; by apply insert_audit_apart|done]. Qed.

#[local] Ltac keep := intros; apply t_keep; intros; cbv [create_code delete_code increment_attempts set_nx del_key send_notification change_balance]; repeat case_match; by split.

Lemma t_create_code rc : tame (write (create_code rc)).
Proof. keep. Qed.
Lemma t_delete_code id : tame (write (delete_code id)).
Proof. keep. Qed.
Lemma t_increment uid : tame (write (increment_attempts uid)).
Proof. keep. Qed.
Lemma t_set_nx k d : tame (write (set_nx k d)).
Proof. keep. Qed.
Lemma t_del_key k : tame (write (del_key k)).
Proof. keep. Qed.
Lemma t_send oid a : tame (write (send_notification oid a)).
Proof. keep. Qed.
Lemma t_change_balance uid f : tame (write (change_balance uid f)).
Proof. keep. Qed.
#[local] Hint Resolve t_transaction t_create_code t_delete_code t_increment t_set_nx t_del_key t_send t_change_balance : tame.
#[local] Hint Extern 1 (Ownership.tame _ _ _ _ _ (writeAuditLog _ _ _)) => by apply t_audit : tame.

Section redeem.
Context (sv : Service).
Lemma t_assign c uid gid n notes : tame (assignOrExtendSubscription c uid gid n notes).
Proof. unfold assignOrExtendSubscription. tame. Qed.
Lemma t_reduce uid gid n notes : tame (reduceOrCancelSubscription uid gid n notes).
Proof. unfold reduceOrCancelSubscription. tame. Qed.
Lemma t_ensure b uid : tame (EnsureUserAffiliate b uid).
Proof. unfold EnsureUserAffiliate. tame. Qed.
#[local] Hint Resolve t_assign t_reduce t_ensure : tame.
Lemma t_rate a : tame (resolveRebateRatePercent a).
Proof. unfold resolveRebateRatePercent. tame. Qed.
#[local] Hint Resolve t_rate : tame.
Lemma t_accrue b c u x : tame (AccrueInviteRebateForOrder b c u x).
Proof. unfold AccrueInviteRebateForOrder. tame. Qed.
#[local] Hint Resolve t_accrue : tame.
Lemma t_try_accrue b c u x : tame (tryAccrueAffiliateRebateForRedeem sv b c u x).
Proof. unfold tryAccrueAffiliateRebateForRedeem. tame. Qed.
Lemma t_entitle uid rc : tame (entitle uid rc).
Proof. unfold entitle. tame. Qed.
#[local] Hint Resolve t_try_accrue t_entitle : tame.
Lemma t_redeem b c uid code : tame (redeem sv b c uid code).
Proof.
  unfold redeem, redeem_locked, checkRedeemRateLimit, acquireRedeemLock, releaseRedeemLock, incrementRedeemErrorCount. tame.
Qed.
Lemma t_delete id : tame (Delete id).
Proof. unfold Delete. tame. Qed.
Lemma t_create rc : tame (CreateCode rc).
Proof. unfold CreateCode. tame. Qed.
End redeem.
#[local] Hint Resolve t_redeem t_delete t_create t_accrue t_assign : tame.

(** An order's row: what the guard excludes is in a refund. *)
Lemma t_row oid l guard set at_ st : (∀ o, guard o = true → o_Status o ∈ l) →
  (∀ o, core_of (set o) = core_of o ∧ o_Refund (set o) = o_Refund o ∧ o_Status (set o) = st) →
  bool_decide (Forall (λ x, x ∉ settled) l) = true → bool_decide (st ∉ in_refund) = true →
  tame (write (update_order_at oid guard set at_)).
Proof.
  intros Hg Hset Hl%bool_decide_eq_true Hst%bool_decide_eq_true. apply t_write. intros s. apply update_order_at_apart.
  intros o Ho. destruct (Hset o) as (? & ? & E). split; [done|done|]. right. rewrite E. split; [|done].
  rewrite Forall_forall in Hl. by apply Hl, Hg.
Qed.

Section payment.
Context (sv : Service).

Lemma t_lease oid : tame (acquirePaymentFulfillmentLease oid).
Proof.
  unfold acquirePaymentFulfillmentLease. tame.
  apply (t_row _ [OrderStatusPaid; OrderStatusFailed; OrderStatusRecharging] _ _ _ OrderStatusRecharging); try done.
  intros o Ho. unfold lease_guard in Ho. apply orb_true_iff in Ho as [Ho|[Ho _]%andb_true_iff]; status_cases Ho; rewrite Ho; status_in.
Qed.

Lemma holds_recharging v o : holds_lease v o = true → o_Status o ∈ [OrderStatusRecharging].
Proof. unfold holds_lease. intros [Ho _]%andb_true_iff. by apply status_is_elem. Qed.

Lemma t_completed o v a : a ≠ REFUND_PENDING → tame (markCompleted o v a).
Proof.
  intros Ha. unfold markCompleted, hasAuditLog. tame.
  by eapply (t_row _ _ _ _ _ OrderStatusCompleted); [apply holds_recharging|..].
Qed.
Lemma t_failed oid v : tame (markFailed oid v).
Proof. unfold markFailed. tame. by eapply (t_row _ _ _ _ _ OrderStatusFailed); [apply holds_recharging|..]. Qed.
#[local] Hint Resolve t_lease t_failed : tame.
#[local] Hint Extern 1 (Ownership.tame _ _ _ _ _ (markCompleted _ _ _)) => by apply t_completed : tame.

Lemma t_rebate o : tame (applyAffiliateRebateForOrder sv o).
Proof. unfold applyAffiliateRebateForOrder, rebate_failed. tame. Qed.
#[local] Hint Resolve t_rebate : tame.
Lemma t_doBalance o v : tame (doBalance sv o v).
Proof. unfold doBalance, redeemForPaymentFulfillment, GetByCode. tame. Qed.
Lemma t_doSub o v : tame (doSub sv o v).
Proof. unfold doSub, ensurePaymentSubscriptionAssigned, commit_assignment, hasPaymentSubscriptionAssignmentAudit, invalidate. tame. Qed.
Lemma t_with_lease o w : (∀ v, tame (w v)) → tame (with_lease o w).
Proof. intros Hw. unfold with_lease. tame. Qed.
#[local] Hint Resolve t_doBalance t_doSub t_with_lease : tame.
Lemma t_execute oid : tame (executeFulfillment sv oid).
Proof.
  unfold executeFulfillment, ExecuteSubscriptionFulfillment, ExecuteBalanceFulfillment, rejectUnsupportedOrderType. tame.
  apply (t_row _ [OrderStatusPaid; OrderStatusRecharging] _ _ _ OrderStatusFailed); try done. intros x. apply status_is_elem.
Qed.
#[local] Hint Resolve t_execute : tame.

Lemma t_toPaid o no x pk : tame (toPaid sv o no x pk).
Proof.
  unfold toPaid, alreadyProcessed. tame.
  apply (t_row _ [OrderStatusPending; OrderStatusCancelled; OrderStatusExpired] _ _ _ OrderStatusPaid); try done.
  intros y Hy. apply orb_true_iff in Hy as [Hy|[Hy _]%andb_true_iff]; status_cases Hy; rewrite Hy; status_in.
Qed.
Lemma t_instance o : tame (getOrderProviderInstance o).
Proof. unfold getOrderProviderInstance, resolveSnapshotOrderProviderInstance, resolveUniqueLegacyOrderProviderInstance. tame. Qed.
#[local] Hint Resolve t_toPaid t_instance : tame.
Lemma t_confirm oid no x pk m : tame (confirmPayment sv oid no x pk m).
Proof. unfold confirmPayment. tame. Qed.
#[local] Hint Resolve t_confirm : tame.
Lemma t_notify n pk : tame (HandlePaymentNotification sv n pk).
Proof. unfold HandlePaymentNotification. tame. Qed.
Lemma t_retry oid : tame (RetryFulfillment sv oid).
Proof. unfold RetryFulfillment. tame. Qed.
Lemma t_provider o : tame (getOrderProvider sv o).
Proof. unfold getOrderProvider. tame. Qed.
#[local] Hint Resolve t_notify t_provider : tame.

Lemma t_set_trade oid no : tame (write (update_order oid (λ _, true) (λ o, set_trade (o_PayAmount o) no o))).
Proof. apply t_write. intros s. apply update_order_at_apart. intros o _. by split; auto. Qed.
#[local] Hint Resolve t_set_trade : tame.
Lemma t_check o b : tame (checkPaidWithOptions sv o b).
Proof. unfold checkPaidWithOptions, requeryPaidOrderOnce. tame. Qed.
#[local] Hint Resolve t_check : tame.
Lemma t_cancelCore o fs op : fs ∉ in_refund → tame (cancelCore sv o fs op).
Proof.
  intros Hfs. unfold cancelCore. tame.
  apply (t_row _ [OrderStatusPending] _ _ _ fs); try done; [intros x; apply status_is_elem|by apply bool_decide_eq_true].
Qed.
#[local] Hint Extern 1 (Ownership.tame _ _ _ _ _ (cancelCore _ _ _ _)) => apply t_cancelCore; status_in : tame.
Lemma t_CancelOrder oid uid : tame (CancelOrder sv oid uid).
Proof. unfold CancelOrder. tame. Qed.
Lemma t_AdminCancelOrder oid : tame (AdminCancelOrder sv oid).
Proof. unfold AdminCancelOrder. tame. Qed.
Lemma t_expire : tame (ExpireTimedOutOrders sv).
Proof. unfold ExpireTimedOutOrders. tame. Qed.
Lemma t_reconcile : tame (ReconcilePendingPaymentOrders sv).
Proof. unfold ReconcilePendingPaymentOrders. tame. Qed.
Lemma t_verify no uid : tame (VerifyOrderByOutTradeNo sv no uid).
Proof. unfold VerifyOrderByOutTradeNo. tame. Qed.
End payment.

(** ** Refunds: the parts that touch no attempt *)

Lemma t_refund_instance o : tame (getRefundOrderProviderInstance o).
Proof. unfold getRefundOrderProviderInstance, resolveSnapshotOrderProviderInstance. tame. Qed.
#[local] Hint Resolve t_refund_instance : tame.
Lemma t_refund_provider o : tame (getRefundProvider o).
Proof. unfold getRefundProvider. tame. Qed.
Lemma t_prepDeduct o p force : tame (prepDeduct o p force).
Proof. unfold prepDeduct. tame. Qed.
Lemma t_has oid a : tame (hasAuditLog oid a).
Proof. unfold hasAuditLog. tame. Qed.
#[local] Hint Resolve t_refund_provider t_prepDeduct t_has : tame.

(** Between attempts an order may change among these statuses. *)
Lemma rest_ok oid o o' s : rinv s → st_orders s !! oid = Some o → core_of o' = core_of o →
  o_Status o ∈ refundable → o_Status o' ∈ refundable →
  rinv (with_orders (insert oid o') s) ∧ quiet s (with_orders (insert oid o') s).
Proof.
  intros Hinv Ho Hc Hs Hs'.
  assert (Hon : only oid s (with_orders (insert oid o') s)).
  { eapply row_only; [done|done| | |].
    - destruct (o_Status o); first [status_in|revert Hs; status_out].
    - intros E. rewrite E in Hs'. revert Hs'. status_out.
    - intros E. rewrite E in Hs. revert Hs. status_out. }
  split; [|eapply only_quiet; [|exact Hon]].
  - eapply only_rinv; [done|exact Hon|apply (ri_one _ Hinv)|]. intros x. simpl. rewrite lookup_insert_eq. intros [= <-].
    destruct (core_fields _ _ Hc) as (Hid & _). split; [rewrite <- (ri_id _ Hinv _ _ Ho); congruence|].
    destruct (ri_state _ Hinv _ _ Ho) as (l & Hl & Hst). exists l. split; [done|].
    assert (Hcl : Forall closed l) by (unfold state_ok in Hst; destruct (o_Status o); try done; revert Hs; status_out).
    unfold state_ok. destruct (o_Status o'); try done; revert Hs'; status_out.
  - intros (y & Hy & E). rewrite Ho in Hy. injection Hy as <-. rewrite E in Hs. revert Hs. status_out.
Qed.

Lemma t_request oid guard set : (∀ o, guard o = true → o_Status o ∈ refundable) →
  (∀ o, core_of (set o) = core_of o ∧ o_Status (set o) ∈ refundable) → tame (write (update_order oid guard set)).
Proof.
  intros Hg Hset. apply (tame_write Lost st_now rinv rlater spares). intros s Hs. unfold update_order, update_order_at.
  destruct (st_orders s !! oid) as [o|] eqn:Ho; [|split; [done|by apply quiet_refl; apply _]].
  destruct (guard o) eqn:E; [|split; [done|by apply quiet_refl; apply _]]. destruct (Hset o). by eapply rest_ok; eauto.
Qed.

Lemma t_RequestRefund oid uid reason : tame (RequestRefund oid uid reason).
Proof.
  unfold RequestRefund, validateRefundRequest. tame. apply t_request.
  - intros x [[_ Hg]%andb_true_iff _]%andb_true_iff. status_cases Hg. rewrite Hg. status_in.
  - intros x. split; [done|status_in].
Qed.

End services.
End RefundSafety.
