(* ===== verification/RefundOwner.v ===== *)
(** * The worker of a refund owns its attempt

    From the claim to the last write of [ExecuteRefund] nobody else touches the attempt;
    what a pending refund's entry promises is kept by [QueryAndFinalizeRefund].  With
    [RefundSafety] this gives the invariant of refunds in every run. *)

From Stdlib Require Import QArith Qabs.
From S2P Require Import Prelude Float64 GoStrings PaymentOrder Subscription Database Interleaving Ownership PaymentStore Redeem Payment Refund PaymentInvariant PaymentSafety PaymentSystem RefundInvariant RefundSafety.

Module RefundOwner.
Import GoStrings PaymentOrder PaymentStore Redeem Payment Refund PaymentInvariant PaymentSafety PaymentSystem RefundInvariant RefundSafety.

Abbreviation rely := (Ownership.rely rlater spares).
Abbreviation guar := (Ownership.guar rlater spares fresh).
Abbreviation quiet := (Ownership.quiet rlater spares).

Section services.
Context `{Database} `{Numeric} `{TimeZones} `{UnicodeFold} `{Decimal} `{RefundDecimal}.
Abbreviation tame := (Ownership.tame (Q := question) Lost st_now rinv rlater spares).
Abbreviation calm := (Ownership.calm (Q := question) Lost st_now rinv rlater spares).
Abbreviation osafe := (Ownership.osafe (Q := question) Lost st_now rinv rlater spares fresh).

(** ** What a plan owes, and giving it back *)

Definition owes (p : RefundPlan) (a : attempt) : Prop :=
  owed (o_UserID (rp_Order p)) (rp_DeductionType p) (rp_BalanceToDeduct p) (rp_SubDaysToDeduct p) (rp_SubscriptionID p) a.

(** The attempt as it is, or what it took given back. *)
Definition gives (oid : Z) (a : attempt) (s s' : Store) : Prop :=
  s' = s ∨ ∃ e s0 a', unchanged s s0 ∧ s' = with_refund e s0 ∧ event_order e = oid ∧ is_start e = false ∧
    closed a' ∧ ∀ l, add_event e (Some (a :: l)) = Some (a' :: l).

Lemma add_returned oid a l d d' : at_Deduct a = Some d → at_Return a = None → closed a → gives_back d d' = true →
  add_event (Returned oid d') (Some (a :: l)) = Some (mkAttempt (at_Amount a) (at_TradeNo a) (Some d) (at_Ask a) (Some d') :: l).
Proof. intros Hd Hr Hc Hg. destruct a; simpl in *; subst. unfold closed in Hc. simpl in Hc. by rewrite Hg, Hc. Qed.

Lemma gives_money u z z' : (Qabs (inject_Z z' - numeric (column z)) <= 1 # 2)%Q → gives_back (Money u z) (Money u z') = true.
Proof. intros Hq. cbn [gives_back]. rewrite Z.eqb_refl. by apply Qle_bool_iff. Qed.

Lemma gives_event oid a d d' s s0 : at_Deduct a = Some d → at_Return a = None → closed a → gives_back d d' = true →
  unchanged s s0 → gives oid a s (with_refund (Returned oid d') s0).
Proof.
  intros Hd Hr Hc Hg Hu. right. exists (Returned oid d'), s0, (mkAttempt (at_Amount a) (at_TradeNo a) (Some d) (at_Ask a) (Some d')).
  split_and!; [done..|]. intros l. by apply add_returned.
Qed.

Lemma takes_balance_spec p : takes_balance p = true →
  rp_DeductionType p = DeductionTypeBalance ∧ Float.lt Float.zero (rp_BalanceToDeduct p) = true.
Proof. unfold takes_balance. intros [E%bool_decide_eq_true ?]%andb_true_iff. done. Qed.
Lemma takes_days_spec p : takes_days p = true →
  rp_DeductionType p = DeductionTypeSubscription ∧ (0 <? rp_SubDaysToDeduct p) && (0 <? rp_SubscriptionID p) = true.
Proof. unfold takes_days. intros [[E%bool_decide_eq_true ?]%andb_true_iff ?]%andb_true_iff. split; [done|]. by apply andb_true_iff. Qed.

(** What is given back is what was taken, up to the rounding of the column. *)
Lemma returned_near b x : (Qabs (inject_Z (round_scale (inject_Z b + numeric x) - b) - numeric x) <= 1 # 2)%Q.
Proof.
  pose proof (round_scale_near (inject_Z b + numeric x)) as Hn.
  revert Hn. generalize (round_scale (inject_Z b + numeric x)). intros b' Hn.
  unfold Z.sub. rewrite inject_Z_plus, inject_Z_opp.
  eapply Qle_trans; [|exact Hn]. apply Qle_lteq. right. apply Qabs_wd. ring.
Qed.

Lemma return_balance_gives p a s : owes p a → closed a → at_Return a = None → takes_balance p = true →
  gives (rp_OrderID p) a s (snd (return_balance (rp_OrderID p) (o_UserID (rp_Order p)) (rp_BalanceToDeduct p) s)).
Proof.
  intros Ho Hc Hr [Ht Hx]%takes_balance_spec. unfold owes, owed in Ho. rewrite Ht in Ho.
  destruct (at_Deduct a) as [[u z|sub n|sub]|] eqn:Hd; [|by destruct Ho|by destruct Ho|destruct Ho as [Ho _]; by rewrite Ho in Hx].
  destruct Ho as (-> & _ & ->). unfold return_balance. case_match; [by left|]. cbn [snd].
  eapply gives_event; [exact Hd|done|done| |by split]. apply gives_money, returned_near.
Qed.

Lemma return_days_gives p a s : owes p a → closed a → at_Return a = None → takes_days p = true →
  gives (rp_OrderID p) a s (snd (extend_subscription (Returned (rp_OrderID p) (Days (rp_SubscriptionID p) (rp_SubDaysToDeduct p)))
    (rp_SubscriptionID p) (rp_SubDaysToDeduct p) s)).
Proof.
  intros Ho Hc Hr [Ht Hx]%takes_days_spec. unfold owes, owed in Ho. rewrite Ht in Ho.
  assert (Hd : ∃ d, at_Deduct a = Some d ∧ gives_back d (Days (rp_SubscriptionID p) (rp_SubDaysToDeduct p)) = true).
  { destruct (at_Deduct a) as [[u z|sub n|sub]|]; [by destruct Ho as (_ & ? & _)| | |].
    - destruct Ho as (_ & -> & ->). eexists. split; [done|]. simpl. by rewrite !Z.eqb_refl.
    - destruct Ho as (_ & ->). eexists. split; [done|]. simpl. by rewrite Z.eqb_refl.
    - destruct Ho as [_ Ho]. rewrite Ho in Hx; done. }
  destruct Hd as (d & Hd & Hg). unfold extend_subscription. destruct (st_subs s !! _) as [r|]; [|by left].
  destruct (Subscription.ExtendSubscription r _ _); [|by left]. by eapply gives_event.
Qed.

(** ** Rules *)

Definition finished {A} (_ : option token) (_ : A) (_ : Store) : Prop := True.
(** The owner is still the owner. *)
Definition keeps (t : token) {A} (P : A → Store → Prop) (o : option token) (a : A) (s : Store) : Prop := o = Some t ∧ P a s.

Lemma s_tame {A B} o (p : prg A) (k : A → prg B) Q s : rinv s → tame p →
  (∀ a s', rely o s s' → rinv s' → osafe o (k a) Q s') → osafe o (bind p k) Q s.
Proof.
  intros Hinv Hp Hk. eapply (osafe_calm Lost st_now rinv rlater spares fresh); [done|by apply tame_calm|]. intros; by apply Hk.
Qed.

Lemma s_over {A} o (p : prg A) s : tame p → osafe o p finished s.
Proof. intros Hp. eapply (calm_osafe Lost st_now rinv rlater spares fresh); [by apply tame_calm|done]. Qed.

Lemma s_then {A B} o (p : prg A) (k : A → prg B) s : rinv s → osafe o p finished s → (∀ a, tame (k a)) →
  osafe o (bind p k) finished s.
Proof.
  intros Hinv Hp Hk. eapply (osafe_bind Lost st_now rinv rlater spares fresh); [done|exact Hp|]. intros; by apply s_over.
Qed.

(** In sequence: the owner keeps its token. *)
Lemma s_seq {A B} t (p : prg A) (k : A → prg B) (P : A → Store → Prop) Q s : rinv s →
  osafe (Some t) p (keeps t P) s →
  (∀ a s', rinv s' → P a s' → osafe (Some t) (k a) Q s') → osafe (Some t) (bind p k) Q s.
Proof.
  intros Hinv Hp Hk. eapply (osafe_bind Lost st_now rinv rlater spares fresh); [done|exact Hp|].
  intros o a s' HR Hi HM. destruct (HM s') as [-> HP]; [split; [reflexivity|by destruct o; [reflexivity|]]|done|]. by apply Hk.
Qed.

Lemma own_write {A B} t (w : Store → result dberr A * Store) (k : result dberr A → prg B) Q s :
  (∀ s', rely (Some t) s s' → rinv s' → let s1 := snd (w s') in rinv s1 ∧ guar (Some t) s' s1 ∧
     (rinv s1 → osafe (Some t) (k (Err Lost)) Q s1 ∧ osafe (Some t) (k (fst (w s'))) Q s1)) →
  (∀ s', rely (Some t) s s' → rinv s' → osafe (Some t) (k (Err Lost)) Q s') → osafe (Some t) (bind (write w) k) Q s.
Proof.
  intros Hw He. apply (osafe_write Lost st_now rinv rlater spares fresh); [|exact He]. intros s' HR Hi.
  destruct (Hw s' HR Hi) as (Hi' & Hg & Hk). destruct (Hk Hi'). by split_and!.
Qed.

(** ** The owner's knowledge *)

Definition of_row (p : RefundPlan) (s : Store) : Prop :=
  ∃ o, st_orders s !! rp_OrderID p = Some o ∧ core_of o = core_of (rp_Order p).

Lemma of_row_later p s s' : rlater s s' → of_row p s → of_row p s'.
Proof. intros HR (o & Ho & E). destruct (rl_rows _ _ HR _ _ Ho) as (o' & Ho' & E'). exists o'. split; [done|congruence]. Qed.

Record works (t : token) (p : RefundPlan) (a : attempt) (s : Store) : Prop := {
  wk_mine : mine t a s;
  wk_order : t.1 = rp_OrderID p;
  wk_row : of_row p s;
  wk_amount : at_Amount a = rp_RefundAmount p;
  wk_trade : at_TradeNo a = o_PaymentTradeNo (rp_Order p);
  wk_return : at_Return a = None
}.

Lemma works_later t p a s s' : rely (Some t) s s' → works t p a s → works t p a s'.
Proof.
  intros HR [Hm Ho Hr ? ? ?]. split; [by eapply mine_stable|done| |done..]. eapply of_row_later; [|done]. by destruct HR.
Qed.

(** The next entry of the attempt. *)
Lemma works_event t p a a' e s s1 : rinv s → works t p a s → unchanged s s1 → event_order e = t.1 → is_claim e = false →
  (∀ l, add_event e (Some (a :: l)) = Some (a' :: l)) →
  at_Amount a' = at_Amount a → at_TradeNo a' = at_TradeNo a → at_Return a' = None →
  rinv (with_refund e s1) ∧ guar (Some t) s (with_refund e s1) ∧ works t p a' (with_refund e s1).
Proof.
  intros Hinv [Hm Ho (o & Hrow & Hc) ? ? ?] Hu He Hcl Hadd E1 E2 E3.
  destruct (owner_event _ _ _ _ _ _ Hinv Hm Hu He Hcl Hadd) as (Hi & Hg & Hm'). split_and!; [done|done|].
  split; [done|done| |congruence|congruence|done]. exists o. simpl. by rewrite (un_orders _ _ Hu).
Qed.

(** Giving back. *)
Lemma mine_gives t a s s' : rinv s → mine t a s → closed a → gives t.1 a s s' →
  rinv s' ∧ guar (Some t) s s' ∧ ∃ a', closed a' ∧ mine t a' s'.
Proof.
  intros Hinv Hm Hc [->|(e & s0 & a' & Hu & -> & He & Hcl & Hc' & Hadd)].
  - split_and!; [done|apply guar_refl; apply _|by exists a].
  - assert (is_claim e = false) as Hcl' by by destruct e.
    destruct (owner_event _ _ _ _ _ _ Hinv Hm Hu He Hcl' Hadd) as (? & ? & ?). split_and!; [done|done|by exists a'].
Qed.

(** ** The row moves on *)

Lemma end_row {A} t a oid set (k : result dberr unit → prg A) Q s : rinv s → mine t a s → t.1 = oid →
  (∀ o s', rlater s s' → st_orders s' !! oid = Some o →
     core_of (set o) = core_of o ∧ o_Status (set o) ≠ OrderStatusRefundPending ∧
     ∀ l at_ s1, Forall closed l → state_ok (touch at_ (set o)) (a :: l) s1) →
  (∀ r s', rinv s' → osafe (Some t) (k r) Q s') → osafe (Some t) (bind (write (update_one oid set)) k) Q s.
Proof.
  intros Hinv Hm <- Hset Hk. apply own_write; [|intros; by apply Hk]. intros s' HR Hi.
  apply (mine_stable _ _ _ _ HR) in Hm. unfold update_one, update_order, update_order_at.
  destruct (proj1 Hm) as (o & Ho & Hst). rewrite Ho. cbv zeta. cbn [snd fst].
  destruct (Hset o s' (proj1 HR) Ho) as (Hc & Hnp & Hok).
  match goal with |- rinv ?s1 ∧ _ => assert (rinv s1 ∧ guar (Some t) s' s1) as [Hi1 Hg1] end.
  { eapply (row_moves t a o (touch (st_now s') (set o))); [done|exact Hm|exact Ho|exact Hc|by intros ?|by apply unchanged_only| |done|apply (ri_one _ Hi)|].
    - simpl. by rewrite lookup_insert_eq.
    - intros l Hcl. by apply Hok. }
  split_and!; [done|done|]. intros _. by split; apply Hk.
Qed.

Lemma restore_row {A} t a p (k : unit → prg A) Q s : rinv s → mine t a s → closed a → t.1 = rp_OrderID p →
  (∀ s', rinv s' → osafe (Some t) (k tt) Q s') → osafe (Some t) (bind (restoreStatus p) k) Q s.
Proof.
  intros Hinv Hm Hc Ht Hk. unfold restoreStatus.
  apply (end_row t a _ _ (λ _, k tt)); [done|done|done| |intros _; exact Hk].
  intros o s' _ _. unfold restored_status. split_and!; [done|by case_bool_decide|].
  intros l at_ s1 Hl. by case_bool_decide; constructor.
Qed.

(** What was taken stays: the attempt is closed. *)
Lemma restore_error {A} t a p e (P : result perror A → Store → Prop) s : rinv s → mine t a s → closed a → t.1 = rp_OrderID p →
  (∀ s', P (Err e) s') → osafe (Some t) (let! _ := restoreStatus p in Ret (Err e) : prg (result perror A)) (keeps t P) s.
Proof. intros Hinv Hm Hc Ht HP. eapply restore_row; [done..|]. by intros s' _ s'' _ _. Qed.

Lemma handleGwFail_tail t a p (ok : bool) s : rinv s → mine t a s → closed a → t.1 = rp_OrderID p →
  osafe (Some t)
    (if ok then
       let! _ := restoreStatus p in
       let! _ := writeAuditLog (rp_OrderID p) "REFUND_GATEWAY_FAILED" (lit "admin") in Ret (Ok unsuccessful)
     else
       let! now := clock in
       let! _ := write (update_one (rp_OrderID p) (failed_at now)) in
       let! _ := writeAuditLog (rp_OrderID p) REFUND_FAILED (lit "admin") in
       Ret (Err (EApp 500 "REFUND_FAILED"))) finished s.
Proof.
  intros Hinv Hm Hc Ht. destruct ok.
  - eapply restore_row; [done..|]. intros s' _. apply s_over, t_bind; [by apply t_audit|done].
  - apply s_tame; [done|apply t_clock|]. intros now s1 HR Hi.
    eapply end_row; [done|by eapply mine_stable|done| |].
    + intros o s' _ _. split_and!; [done|done|]. intros l at_ s2 Hl. by constructor.
    + intros r s' _. apply s_over, t_bind; [by apply t_audit|done].
Qed.

(** ** Rolling back *)

(** Something of the attempt is left, with its provider not reporting success. *)
Definition over (t : token) {A} (_ : A) (s : Store) : Prop := ∃ a, mine t a s ∧ closed a.

Lemma over_later {A} t a (x : A) s s' : rely (Some t) s s' → mine t a s → closed a → keeps t (over t) (Some t) x s'.
Proof. intros HR Hm Hc. split; [done|]. exists a. split; [by eapply mine_stable|done]. Qed.

(** After the statement that gives back. *)
Lemma rollback_tail {E} (r : result E unit) t p a s : rinv s → mine t a s → closed a → osafe (Some t)
  (match r with Ok _ => Ret true | Err _ => let! _ := writeAuditLog (rp_OrderID p) REFUND_ROLLBACK_FAILED (lit "admin") in Ret false end)
  (keeps t (over t)) s.
Proof.
  intros Hinv Hm Hc. destruct r as [u|e].
  - intros s' HR _. by eapply over_later.
  - eapply s_tame; [done|by apply t_audit|]. intros _ s1 HR _ s' HR' _. eapply over_later; [exact HR'|by eapply mine_stable|done].
Qed.

Lemma rollback_balance_safe t p a s : rinv s → works t p a s → owes p a → closed a →
  osafe (Some t) (rollback_balance p) (keeps t (over t)) s.
Proof.
  intros Hinv Hw Ho Hc. unfold rollback_balance. destruct (takes_balance p) eqn:Hb; simpl negb; cbn match.
  2: { intros s' HR _. eapply over_later; [exact HR|apply Hw|done]. }
  apply own_write.
  - intros s' HR Hi. cbv zeta. destruct (works_later _ _ _ _ _ HR Hw) as [Hm Ht Hrow _ _ Hret].
    set (w := return_balance _ _ _). destruct (mine_gives t a s' (snd (w s'))) as (Hi' & Hg & a' & Hc' & Hm');
      [done|done|done| |split_and!; [done|done|]].
    + rewrite Ht. by apply return_balance_gives.
    + intros _. split; [by apply (rollback_tail (Err Lost) t p a')|by eapply rollback_tail].
  - intros s' HR Hi. apply (rollback_tail (Err Lost) t p a); [done| |done]. eapply mine_stable; [exact HR|]. apply Hw.
Qed.

Lemma rollback_days_safe t p a s : rinv s → works t p a s → owes p a → closed a →
  osafe (Some t) (rollback_days p) (keeps t (over t)) s.
Proof.
  intros Hinv Hw Ho Hc. unfold rollback_days. destruct (takes_days p) eqn:Hb; simpl negb; cbn match.
  2: { intros s' HR _. eapply over_later; [exact HR|apply Hw|done]. }
  unfold ExtendSubscription. apply own_write.
  - intros s' HR Hi. cbv zeta. destruct (works_later _ _ _ _ _ HR Hw) as [Hm Ht Hrow _ _ Hret].
    set (w := extend_subscription _ _ _). destruct (mine_gives t a s' (snd (w s'))) as (Hi' & Hg & a' & Hc' & Hm');
      [done|done|done| |split_and!; [done|done|]].
    + rewrite Ht. by apply return_days_gives.
    + intros _. split; [by apply (rollback_tail (Err (EDB Lost)) t p a')|]. destruct (fst (w s')) as [u|e]; [|by apply (rollback_tail (Err (extend_error e)) t p a')].
      eapply (s_tame _ (on_error (λ e, e) (lift (read (sub_by_id (rp_SubscriptionID p)))) (λ _, Ret (Ok tt))));
        [done|by apply t_try; [apply t_lift, t_read|]|].
      intros r s2 HR2 Hi2. eapply (rollback_tail r); [done|by eapply mine_stable|done].
  - intros s' HR Hi. apply (rollback_tail (Err (EDB Lost)) t p a); [done| |done]. eapply mine_stable; [exact HR|]. apply Hw.
Qed.

Lemma RollbackRefund_owner t p a s : rinv s → works t p a s → owes p a → closed a →
  osafe (Some t) (RollbackRefund p) (keeps t (over t)) s.
Proof.
  intros Hinv Hw Ho Hc. unfold RollbackRefund. destruct (takes_days p) eqn:Hd.
  - assert (takes_balance p = false) as Hb by (apply takes_days_spec in Hd as [Hd _]; unfold takes_balance; by rewrite Hd).
    unfold rollback_balance. rewrite Hb. by apply (rollback_days_safe t p a).
  - eapply s_seq; [done|by eapply rollback_balance_safe|]. intros ok s1 Hi (a' & Hm & Hc').
    assert (Hend : ∀ b : bool, osafe (Some t) (Ret b) (keeps t (over t)) s1) by (intros b s' HR _; by eapply over_later).
    destruct ok; [|apply Hend]. unfold rollback_days. rewrite Hd. apply Hend.
Qed.

Lemma handleGwFail_owner t p a e s : rinv s → works t p a s → owes p a → closed a →
  osafe (Some t) (handleGwFail p e) finished s.
Proof.
  intros Hinv Hw Ho Hc. unfold handleGwFail. eapply s_seq; [done|by eapply RollbackRefund_owner|].
  intros ok s1 Hi (a' & Hm & Hc'). eapply handleGwFail_tail; [done|done|done|apply Hw].
Qed.

(** ** Conclusions of an attempt *)

Lemma final_status_of p o : core_of o = core_of (rp_Order p) → refund_final_status p = final_status (rp_RefundAmount p) (o_Amount o).
Proof. intros (_ & _ & E & _)%core_fields. unfold refund_final_status, final_status. by rewrite E. Qed.

Lemma markRefundOk_owner t p a s : rinv s → works t p a s → final a → osafe (Some t) (markRefundOk p) finished s.
Proof.
  intros Hinv Hw Hf. apply s_tame; [done|apply t_clock|]. intros now s1 HR Hi.
  destruct (works_later _ _ _ _ _ HR Hw) as [Hm Ht (x & Hx & Hcx) Ha _ Hret].
  apply (end_row t a _ _ (λ r, _ : prg (result perror RefundResult))); [done|done|done| |].
  - intros o s' HR' Ho. destruct (rl_rows _ _ HR' _ _ Hx) as (o' & Ho' & Hco). rewrite Ho in Ho'. injection Ho' as <-.
    assert (core_of o = core_of (rp_Order p)) as Hc by congruence. apply final_status_of in Hc. unfold refund_final_status in Hc.
    split; [done|]. simpl. unfold state_ok. simpl. unfold refund_final_status.
    destruct (Float.lt _ _); (split; [done|]; intros l at_ s2 Hl; exists a, l; by split_and!; [..|rewrite Ha]).
  - intros [u|e] s' _; apply s_over; [|done]. apply t_bind; [by apply t_audit|done].
Qed.

Lemma no_entry oid s : has_audit oid [REFUND_PENDING] s = false → pending_entries oid s = [].
Proof.
  unfold has_audit, pending_entries. induction (st_audits s) as [|x l IH]; [done|]. cbn [existsb].
  intros [Hx Hl]%orb_false_iff. rewrite filter_cons, decide_False; [by apply IH|]. intros [Ho Ha].
  rewrite bool_decide_eq_true_2 in Hx by (rewrite Ha; apply list_elem_of_here). rewrite Ho, Z.eqb_refl in Hx. done.
Qed.

Lemma mark_pending_owner t p a d s : rinv s → works t p a s → awaits a → pd_DeductionHeld d = true →
  held (o_UserID (rp_Order p)) d a → let s1 := snd (mark_pending p d s) in rinv s1 ∧ guar (Some t) s s1.
Proof.
  intros Hinv Hw Haw Hd Hh. cbv zeta. destruct Hw as [Hm Ht (o & Ho & Hc) Ha _ Hret]. unfold mark_pending. rewrite Ho.
  unfold with_entry. destruct (has_audit _ _ s) eqn:Hn; [split; [done|apply guar_refl; apply _]|]. apply no_entry in Hn.
  set (e := mkAudit _ _ _ _ _). cbn [commit snd]. rewrite <- Ht in *.
  set (o' := touch (st_now s) (pending p o)). change (set_row _ _ _) with (with_audits (cons e) (with_orders (insert t.1 o') s)).
  assert (Hents : pending_entries t.1 (with_audits (cons e) (with_orders (insert t.1 o') s)) = [e]).
  { unfold pending_entries in *. cbn [st_audits with_audits with_orders]. rewrite filter_cons, decide_True, Hn; [done|]. by rewrite Ht. }
  eapply (row_moves t a o o'); [done|exact Hm|exact Ho|done|done| | |done|by rewrite Hents; simpl; lia|].
  - replace t.1 with (au_OrderID e). apply entry_only. intros _. cbn [au_OrderID e]. by rewrite <- Ht.
  - simpl. by rewrite lookup_insert_eq.
  - intros l Hl. unfold state_ok. cbn [o' touch pending concluded set_refund set_times set_status o_Status].
    apply core_fields in Hc as (_ & Hu & _). exists a, l, d. split_and!; [done..| |].
    + exists e. split; [|done]. change (o_ID o') with (o_ID o). by rewrite (ri_id _ Hinv _ _ Ho).
    + change (o_UserID o') with (o_UserID o). by rewrite Hu.
Qed.

Lemma markRefundPending_owner t p a resp s : rinv s → works t p a s → awaits a → owes p a →
  osafe (Some t) (markRefundPending p resp) finished s.
Proof.
  intros Hinv Hw Haw Ho. unfold markRefundPending. case_match; [by apply s_over|].
  apply s_tame; [done|apply t_clock|]. intros now s1 HR Hi. cbv zeta. set (d := mkPendingDetail _ _ _ _ _ _ _ _).
  apply own_write; [|intros; by apply s_over]. intros s2 HR2 Hi2. cbv zeta.
  destruct (mark_pending_owner t p a d s2) as [Hi' Hg]; [done| |done|done|done|].
  - eapply works_later; [exact HR2|by eapply works_later].
  - split_and!; [done|done|]. intros _. split; apply s_over; [done|]. by destruct (mark_pending p d s2) as [[] ?].
Qed.

(** ** The provider's answer *)

Lemma undecided_not_accepted ans : undecided ans = true → accepted ans = false.
Proof.
  destruct ans as [[r|] [|]]; try done. unfold undecided, accepted. intros E%bool_decide_eq_true. rewrite E. done.
Qed.
Lemma awaits_closed a : awaits a → closed a.
Proof. intros (r & ans & E & Hu). unfold closed. rewrite E. simpl. by rewrite undecided_not_accepted. Qed.

(** What the worker knows when the provider has been asked, or could not be. *)
Definition heard (t : token) (p : RefundPlan) (d : option deduction) (r : result perror RefundResponse) (s : Store) : Prop :=
  ∃ a, works t p a s ∧ at_Deduct a = d ∧
    match r with
    | Err _ => closed a
    | Ok resp =>
        let status := TrimSpace (rr_Status resp) in
        ((status = ProviderStatusSuccess ∨ status = ProviderStatusRefunded) ∧ final a) ∨ (status = ProviderStatusPending ∧ awaits a)
    end.

(** What [gwRefund] makes of an answer. *)
Definition judge (ans : refund_answer) : result perror RefundResponse :=
  match ans with
  | (Some r, false) => if bool_decide (TrimSpace (rr_Status r) = ProviderStatusPending) then Ok r
                       else Err (EMsg "provider refund failed")
  | (None, false) => Err (EMsg "provider refund failed")
  | (resp, true) =>
      match resp with
      | Some r => if validateRefundProviderResponse resp then Ok r else Err (EMsg "payment refund failed")
      | None => Err (EMsg "payment refund response missing")
      end
  end.

Lemma judge_heard x t d r ans : let a := mkAttempt x t d (Heard r ans) None in
  match judge ans with
  | Err _ => closed a
  | Ok resp =>
      let status := TrimSpace (rr_Status resp) in
      ((status = ProviderStatusSuccess ∨ status = ProviderStatusRefunded) ∧ final a) ∨ (status = ProviderStatusPending ∧ awaits a)
  end.
Proof.
  intros a. destruct ans as [[rs|] [|]]; simpl; try done.
  - unfold validateRefundProviderResponse. unfold closed, final, awaits, undecided. cbn [a at_Ask at_Return unaccepted accepted].
    destruct (bool_decide (TrimSpace (rr_Status rs) = ProviderStatusSuccess)) eqn:E1.
    { left. apply bool_decide_eq_true in E1. split; [by left|]. split; [done|by left]. }
    destruct (bool_decide (TrimSpace (rr_Status rs) = ProviderStatusRefunded)) eqn:E2.
    { left. apply bool_decide_eq_true in E2. split; [by right|]. split; [done|by left]. }
    destruct (bool_decide (TrimSpace (rr_Status rs) = ProviderStatusPending)) eqn:E3; simpl; [|done].
    right. apply bool_decide_eq_true in E3. split; [done|]. exists r, (Some rs, true). split; [done|]. by apply bool_decide_eq_true_2.
  - case_bool_decide as E; [|done]. right. split; [done|]. exists r, (Some rs, false). split; [done|]. simpl. by apply bool_decide_eq_true_2.
Qed.

Lemma unchanged_refl s : unchanged s s.
Proof. by split. Qed.

Lemma own_log {B} t p a a' e (k : unit → prg B) Q s : rinv s → works t p a s → event_order e = t.1 → is_claim e = false →
  (∀ l, add_event e (Some (a :: l)) = Some (a' :: l)) →
  at_Amount a' = at_Amount a → at_TradeNo a' = at_TradeNo a → at_Return a' = None →
  (∀ s', rinv s' → works t p a' s' → osafe (Some t) (k tt) Q s') → osafe (Some t) (bind (log e) k) Q s.
Proof.
  intros Hinv Hw He Hc Hadd E1 E2 E3 Hk. apply (osafe_log Lost st_now rinv rlater spares fresh). intros s' HR Hi.
  edestruct (works_event t p a a' e s' s') as (Hi' & Hg & Hw');
    [done|by eapply works_later|apply unchanged_refl|done..|]. split_and!; [done|done|by apply Hk].
Qed.

Lemma works_fields t p a s : works t p a s → at_Ask a = NotAsked → a = mkAttempt (at_Amount a) (at_TradeNo a) (at_Deduct a) NotAsked None.
Proof. intros [_ _ _ _ _ E] E'. destruct a; simpl in *; congruence. Qed.

Lemma closed_unasked a : at_Ask a = NotAsked → closed a.
Proof. unfold closed. by intros ->. Qed.

Lemma gwRefund_owner t p a s : rinv s → works t p a s → at_Ask a = NotAsked →
  osafe (Some t) (gwRefund p) (keeps t (heard t p (at_Deduct a))) s.
Proof.
  intros Hinv Hw Hn. unfold gwRefund. cbv zeta.
  assert (Hret : ∀ r a' s', works t p a' s' → at_Deduct a' = at_Deduct a → match r with
      | Err _ => closed a'
      | Ok resp => let status := TrimSpace (rr_Status resp) in
          ((status = ProviderStatusSuccess ∨ status = ProviderStatusRefunded) ∧ final a') ∨ (status = ProviderStatusPending ∧ awaits a')
      end → osafe (Some t) (Ret r) (keeps t (heard t p (at_Deduct a))) s').
  { intros r a' s' Hw' Hd Hr s2 HR _. split; [done|]. exists a'. split_and!; [by eapply works_later|done|done]. }
  assert (Herr : ∀ e s', rely (Some t) s s' → osafe (Some t) (Ret (Err e)) (keeps t (heard t p (at_Deduct a))) s').
  { intros e s' HR. apply (Hret _ a); [by eapply works_later|done|by apply closed_unasked]. }
  case_bool_decide as Htr.
  { apply s_tame; [done|by apply t_audit|]. intros _ s1 HR _. apply (Hret _ a); [by eapply works_later|done|].
    left. split; [left; by vm_compute|]. split; [apply Hw|]. rewrite Hn. by rewrite (wk_trade _ _ _ _ Hw). }
  apply s_tame; [done|apply t_refund_provider|]. intros [prov|e] s1 HR1 Hi1; [|by apply Herr].
  apply s_tame; [done|apply t_ask|]. intros m s2 HR2 Hi2. assert (HR : rely (Some t) s s2) by (by etrans).
  case_match.
  { apply s_tame; [done|by apply t_audit|]. intros _ s3 HR3 _. apply Herr. by etrans. }
  pose proof (works_later _ _ _ _ _ HR Hw) as Hw2. pose proof (works_fields _ _ _ _ Hw Hn) as Ea.
  set (req := mkRefundRequest _ _ _ _). set (aw := mkAttempt (at_Amount a) (at_TradeNo a) (at_Deduct a) (Waiting req) None).
  eapply (own_log t p a aw); [done|done|symmetry; apply Hw|done|intros l; by rewrite Ea|done..|]. intros s3 Hi3 Hw3.
  apply s_tame; [done|apply t_ask|]. intros ans s4 HR4 Hi4.
  eapply (own_log t p aw (mkAttempt (at_Amount a) (at_TradeNo a) (at_Deduct a) (Heard req ans) None));
    [done|by eapply works_later|symmetry; apply Hw|done|done..|].
  intros s5 _ Hw5. apply (Hret (judge ans) _ _ Hw5); [done|]. apply judge_heard.
Qed.

Lemma owes_same p a a' : at_Deduct a' = at_Deduct a → owes p a → owes p a'.
Proof. unfold owes, owed. by intros ->. Qed.

Lemma finishRefund_owner t p a resp s : rinv s → works t p a s → owes p a →
  (let status := TrimSpace (rr_Status resp) in
   ((status = ProviderStatusSuccess ∨ status = ProviderStatusRefunded) ∧ final a) ∨ (status = ProviderStatusPending ∧ awaits a)) →
  osafe (Some t) (finishRefund p resp) finished s.
Proof.
  intros Hinv Hw Ho Hr. unfold finishRefund, validateRefundProviderResponse. cbv zeta in *.
  destruct Hr as [[[->| ->] Hf]|[-> Ha]]; simpl; [by eapply markRefundOk_owner..|by eapply markRefundPending_owner].
Qed.

(** ** Taking *)

Definition same_plan (p q : RefundPlan) : Prop :=
  rp_OrderID q = rp_OrderID p ∧ rp_Order q = rp_Order p ∧ rp_RefundAmount q = rp_RefundAmount p.

Lemma works_plan t p q a s : same_plan p q → works t p a s → works t q a s.
Proof. intros (E1 & E2 & E3) [? ? ? ? ? ?]. split; unfold of_row in *; rewrite ?E1, ?E2, ?E3; done. Qed.

(** After a deduction: a plan that owes what was taken, or nothing taken yet. *)
Definition took (t : token) (p : RefundPlan) (P : RefundPlan → attempt → Prop) (r : result perror RefundPlan) (s : Store) : Prop :=
  match r with
  | Ok q => ∃ a, works t q a s ∧ at_Ask a = NotAsked ∧ P q a
  | Err _ => True
  end.

Lemma took_plan t p q a (P : RefundPlan → attempt → Prop) s s' : rely (Some t) s s' → works t p a s → at_Ask a = NotAsked → same_plan p q → P q a →
  keeps t (took t p P) (Some t) (Ok q) s'.
Proof. intros HR Hw Hn Hs HP. split; [done|]. exists a. split_and!; [|done|done]. eapply works_plan; [done|]. by eapply works_later. Qed.

Definition taking (p : RefundPlan) (a : attempt) : Prop :=
  if bool_decide (rp_DeductionType p = DeductionTypeSubscription) then at_Deduct a = None else owes p a.

Lemma deduct_available_event oid uid x s : ∀ r s1, deduct_available oid uid x s = (r, s1) →
  (s1 = s ∧ ∃ e, r = Err e) ∨
  (∃ z s0, unchanged s s0 ∧ s1 = with_refund (Deducted oid (Money uid z)) s0 ∧ r = Ok (column z)).
Proof.
  intros r s1. unfold deduct_available. repeat (case_match; [intros [= <- <-]; left; by eauto|]).
  intros [= <- <-]. right. eexists _, _. split; [|done]. done.
Qed.

Lemma deduct_balance_owner t p a s : rinv s → works t p a s → at_Ask a = NotAsked → at_Deduct a = None →
  osafe (Some t) (deduct_balance p) (keeps t (took t p taking)) s.
Proof.
  intros Hinv Hw Hn Hd. unfold deduct_balance.
  assert (Hnone : ∀ q, same_plan p q → takes_balance q = false → ∀ s', rely (Some t) s s' →
            osafe (Some t) (Ret (Ok q)) (keeps t (took t p taking)) s').
  { intros q Hs Hb s' HR s'' HR' _. eapply (took_plan _ p _ a _ s); [by etrans|done..|].
    unfold taking. case_bool_decide as Ht; [done|]. unfold owes, owed. rewrite Hd. split; [|done].
    intros Ht'. unfold takes_balance in Hb. by rewrite bool_decide_eq_true_2 in Hb. }
  destruct (takes_balance p) eqn:Hb; simpl negb; cbn match; [|by apply Hnone].
  apply s_tame; [done|apply t_has|]. intros [] s1 HR1 Hi1.
  { apply Hnone; [done| |done]. unfold takes_balance. apply andb_false_iff. by right. }
  assert (Hfail : ∀ a' e s', rinv s' → works t p a' s' → at_Ask a' = NotAsked → osafe (Some t)
    (let! _ := restoreStatus p in Ret (Err (EWrap "deduction" (EDB e)))) (keeps t (took t p taking)) s').
  { intros a' e s' Hi' Hw' Hn'. eapply restore_error; [done|apply Hw'|by apply closed_unasked|apply Hw'|done]. }
  apply own_write; [|intros s2 HR2 Hi2; apply (Hfail a); [done|eapply works_later; [exact HR2|]; by eapply works_later|done]].
  intros s2 HR2 Hi2. cbv zeta. assert (Hw2 : works t p a s2) by (eapply works_later; [exact HR2|]; by eapply works_later).
  destruct (deduct_available _ _ _ s2) as [r s3] eqn:Hda. apply deduct_available_event in Hda.
  destruct Hda as [[-> [e ->]]|(z & s0 & Hu & -> & ->)]; cbn [fst snd].
  { split_and!; [done|apply guar_refl; apply _|]. intros _. by split; eapply Hfail. }
  pose proof (works_fields _ _ _ _ Hw Hn) as Ea. rewrite Hd in Ea.
  set (a' := mkAttempt (at_Amount a) (at_TradeNo a) (Some (Money (o_UserID (rp_Order p)) z)) NotAsked None).
  destruct (works_event t p a a' (Deducted (rp_OrderID p) (Money (o_UserID (rp_Order p)) z)) s2 s0) as (Hi' & Hg & Hw');
    [done|done|done|symmetry; apply Hw|done|intros l; by rewrite Ea|done..|].
  split_and!; [done|done|]. intros _. split; [by eapply Hfail|]. intros s4 HR4 _. eapply took_plan; [exact HR4|exact Hw'|done|done|].
  apply takes_balance_spec in Hb as [Ht _]. unfold taking. simpl. rewrite Ht. by rewrite bool_decide_eq_false_2.
Qed.

(** A statement of the attempt that takes [d], or does nothing. *)
Lemma take_event t p a d oid s s0 : rinv s → works t p a s → at_Ask a = NotAsked → at_Deduct a = None → oid = t.1 → unchanged s s0 →
  let s1 := with_refund (Deducted oid d) s0 in
  rinv s1 ∧ guar (Some t) s s1 ∧ ∃ a', works t p a' s1 ∧ at_Ask a' = NotAsked ∧ at_Deduct a' = Some d.
Proof.
  intros Hinv Hw Hn Hd -> Hu. pose proof (works_fields _ _ _ _ Hw Hn) as Ea. rewrite Hd in Ea.
  destruct (works_event t p a (mkAttempt (at_Amount a) (at_TradeNo a) (Some d) NotAsked None) (Deducted t.1 d) s s0) as (Hi' & Hg & Hw');
    [done|done|done|done|done|intros l; by rewrite Ea|done..|]. split_and!; [done|done|]. eexists. by split_and!.
Qed.

Definition extended (t : token) (p : RefundPlan) (r : result perror unit) (s : Store) : Prop :=
  ∃ a, works t p a s ∧ at_Ask a = NotAsked ∧
    match r with
    | Ok _ => at_Deduct a = Some (Days (rp_SubscriptionID p) (rp_SubDaysToDeduct p))
    | Err e => errors_is ErrAdjustWouldExpire e = true → at_Deduct a = None
    end.

Lemma extended_now {t p a r s} : works t p a s → at_Ask a = NotAsked →
    match r with
    | Ok _ => at_Deduct a = Some (Days (rp_SubscriptionID p) (rp_SubDaysToDeduct p))
    | Err e => errors_is ErrAdjustWouldExpire e = true → at_Deduct a = None
    end → osafe (Some t) (Ret r) (keeps t (extended t p)) s.
Proof. intros Hw Hn Hr s' HR _. split; [done|]. exists a. split_and!; [by eapply works_later|done|done]. Qed.

Lemma extend_owner t p a s : rinv s → works t p a s → at_Ask a = NotAsked → at_Deduct a = None →
  osafe (Some t) (ExtendSubscription (Deducted (rp_OrderID p) (Days (rp_SubscriptionID p) (rp_SubDaysToDeduct p)))
    (rp_SubscriptionID p) (- rp_SubDaysToDeduct p)) (keeps t (extended t p)) s.
Proof.
  intros Hinv Hw Hn Hd. unfold ExtendSubscription.
  apply own_write; [|intros s' HR Hi; by eapply extended_now; [eapply works_later|..]].
  intros s' HR Hi. cbv zeta. apply (works_later _ _ _ _ _ HR) in Hw. unfold extend_subscription.
  assert (Hkeep : ∀ e, rinv s' ∧ guar (Some t) s' s' ∧ (rinv s' →
    osafe (Some t) (Ret (Err (EDB Lost))) (keeps t (extended t p)) s' ∧ osafe (Some t) (Ret (Err e)) (keeps t (extended t p)) s')).
  { intros e. split_and!; [done|apply guar_refl; apply _|]. intros _. by split; eapply extended_now. }
  destruct (st_subs s' !! _) as [r|]; [|apply Hkeep].
  destruct (Subscription.ExtendSubscription r _ _) as [r'|e]; [|apply Hkeep]. cbn [fst snd].
  destruct (take_event t p a (Days (rp_SubscriptionID p) (rp_SubDaysToDeduct p)) (rp_OrderID p) s'
    (with_subs (insert (rp_SubscriptionID p) r') (st_next_sub s') s')) as (Hi' & Hg & a' & Hw' & Hn' & Hd');
    [done..|symmetry; apply Hw|by split|]. split_and!; [exact Hi'|exact Hg|]. intros _. split; [by eapply extended_now|].
  apply (s_tame _ (read (sub_by_id (rp_SubscriptionID p)))); [done|apply t_read|]. intros x s2 HR2 Hi2.
  assert (Hw2 : works t p a' s2) by (by eapply works_later).
  destruct x as [x|e]; by apply (extended_now Hw2 Hn').
Qed.

Lemma revoke_owner t p a s : rinv s → works t p a s → at_Ask a = NotAsked → at_Deduct a = None →
  osafe (Some t) (RevokeSubscription (rp_OrderID p) (rp_SubscriptionID p))
    (keeps t (λ r s', ∃ a', works t p a' s' ∧ at_Ask a' = NotAsked ∧
       match r with Ok _ => at_Deduct a' = Some (Revoked (rp_SubscriptionID p)) | Err _ => True end)) s.
Proof.
  intros Hinv Hw Hn Hd. set (P := λ (r : result perror unit) s', _).
  assert (Hret : ∀ r a' s', works t p a' s' → at_Ask a' = NotAsked →
    match r with Ok _ => at_Deduct a' = Some (Revoked (rp_SubscriptionID p)) | Err _ => True end →
    osafe (Some t) (Ret r) (keeps t P) s').
  { intros r a' s' Hw' Hn' Hr s2 HR _. split; [done|]. exists a'. split_and!; [by eapply works_later|done|done]. }
  unfold RevokeSubscription. apply (s_tame _ (read (sub_by_id (rp_SubscriptionID p)))); [done|apply t_read|].
  intros [sub|e] s1 HR1 Hi1; apply (works_later _ _ _ _ _ HR1) in Hw; [|by eapply (Hret (Err _))].
  apply own_write; [|intros s' HR Hi; by eapply (Hret (Err _)); [eapply works_later|..]].
  intros s' HR Hi. cbv zeta. apply (works_later _ _ _ _ _ HR) in Hw.
  destruct (take_event t p a (Revoked (rp_SubscriptionID p)) (rp_OrderID p) s'
    (with_subs (delete (rp_SubscriptionID p)) (st_next_sub s') s')) as (Hi' & Hg & a' & Hw' & Hn' & Hd');
    [done..|symmetry; apply Hw|by split|]. split_and!; [exact Hi'|exact Hg|]. intros _. split; [by eapply (Hret (Err _))|].
  cbn [fst bind on_error lift]. apply (s_tame _ (ask _)); [done|apply t_ask|]. intros x s2 HR2 Hi2.
  assert (Hw2 : works t p a' s2) by (by eapply works_later).
  destruct x as [x|e]; by apply (Hret _ a').
Qed.

Lemma deduct_days_owner t p a s : rinv s → works t p a s → at_Ask a = NotAsked → taking p a →
  osafe (Some t) (deduct_days p) (keeps t (took t p owes)) s.
Proof.
  intros Hinv Hw Hn Hd. unfold deduct_days. destruct (takes_days p) eqn:Hb; simpl negb; cbn match.
  2: { intros s' HR _. eapply took_plan; [exact HR|exact Hw|done|done|]. unfold taking in Hd. case_bool_decide as Ht; [|done].
       unfold owes, owed. rewrite Hd, Ht. split; [done|]. intros _. unfold takes_days in Hb. by rewrite Ht in Hb. }
  apply takes_days_spec in Hb as [Ht Hpos]. unfold taking in Hd. rewrite bool_decide_eq_true_2 in Hd by done.
  apply s_tame; [done|apply t_has|]. intros [] s1 HR1 Hi1; apply (works_later _ _ _ _ _ HR1) in Hw.
  { intros s' HR _. eapply took_plan; [exact HR|exact Hw|done|done|]. unfold owes, owed. simpl. rewrite Hd, Ht. done. }
  assert (Hfail : ∀ a' e s', rinv s' → works t p a' s' → at_Ask a' = NotAsked → osafe (Some t)
    (let! _ := restoreStatus p in Ret (Err e)) (keeps t (took t p owes)) s').
  { intros a' e s' Hi' Hw' Hn'. eapply restore_error; [done|apply Hw'|by apply closed_unasked|apply Hw'|done]. }
  cbv zeta. eapply s_seq; [done|by eapply extend_owner|]. intros r s2 Hi2 (a' & Hw' & Hn' & Hr). destruct r as [u|e].
  { intros s' HR _. eapply took_plan; [exact HR|exact Hw'|done|done|]. unfold owes, owed. by rewrite Hr. }
  destruct (errors_is _ e) eqn:He; [|by eapply Hfail]. eapply s_seq; [done|by eapply revoke_owner; [..|apply Hr]|].
  intros r s3 Hi3 (a2 & Hw2 & Hn2 & Hr2). destruct r as [u|e2]; [|by eapply Hfail].
  intros s' HR _. eapply took_plan; [exact HR|exact Hw2|done|done|]. unfold owes, owed. by rewrite Hr2.
Qed.

(** ** The attempt *)

Lemma attempt_safe t p a s : rinv s → works t p a s → at_Ask a = NotAsked → at_Deduct a = None →
  osafe (Some t)
    (try p := deduct_balance p wrap id in
     try p := deduct_days p wrap id in
     let! r := gwRefund p in
     match r with
     | Err e => handleGwFail p e
     | Ok resp => finishRefund p resp
     end) finished s.
Proof.
  intros Hinv Hw Hn Hd. unfold on_error. eapply s_seq; [done|by eapply deduct_balance_owner|].
  intros [q|e] s1 Hi1 HP; [|by apply s_over]. destruct HP as (a1 & Hw1 & Hn1 & Ht1).
  eapply s_seq; [done|by eapply deduct_days_owner|]. intros [q2|e] s2 Hi2 HP; [|by apply s_over].
  destruct HP as (a2 & Hw2 & Hn2 & Ho2). eapply s_seq; [done|by eapply gwRefund_owner|].
  intros r s3 Hi3 (a3 & Hw3 & Hd3 & Hr). apply (owes_same _ _ _ Hd3) in Ho2.
  destruct r as [resp|e]; [by eapply finishRefund_owner|by eapply handleGwFail_owner].
Qed.

Lemma claimed_row p o s : rinv s → of_row p s → st_orders s !! rp_OrderID p = Some o → o_Status o ∈ refundable →
  let t := (rp_OrderID p, S (claims (rp_OrderID p) s)) in
  let e := Claimed (rp_OrderID p) (rp_RefundAmount p) (o_PaymentTradeNo (rp_Order p)) in
  let s1 := with_refund e (with_orders (insert (rp_OrderID p) (touch (st_now s) (set_status OrderStatusRefunding o))) s) in
  rinv s1 ∧ quiet s s1 ∧ fresh t s ∧ ¬ fresh t s1 ∧
  works t p (mkAttempt (rp_RefundAmount p) (o_PaymentTradeNo (rp_Order p)) None NotAsked None) s1.
Proof.
  intros Hinv Hrow Ho Hst. cbv zeta. set (t := (_, _)). set (e := Claimed _ _ _). set (a := mkAttempt _ _ _ _ _).
  set (o' := touch (st_now s) (set_status OrderStatusRefunding o)). set (s0 := with_orders (insert (rp_OrderID p) o') s).
  assert (Hon : only (rp_OrderID p) s (with_refund e s0)).
  { eapply only_trans; [apply (row_only _ o o'); try done|apply (event_only e)].
    - destruct (o_Status o); first [status_in|revert Hst; status_out].
    - intros E. rewrite E in Hst. revert Hst. status_out.
    - intros x. simpl. rewrite lookup_insert_eq. intros [= <-]. split; [status_in|done]. }
  destruct (ri_state _ Hinv _ _ Ho) as (l & Hl & Hok).
  assert (Hcl : Forall closed l) by (unfold state_ok in Hok; destruct (o_Status o); try done; revert Hst; status_out).
  assert (Hat : attempts (rp_OrderID p) (with_refund e s0) = Some (a :: l)).
  { rewrite attempts_cons by done. rewrite (attempts_events _ s) by done. by rewrite Hl. }
  assert (Hrow' : st_orders (with_refund e s0) !! rp_OrderID p = Some o') by (simpl; by rewrite lookup_insert_eq).
  assert (Hc : claims (rp_OrderID p) (with_refund e s0) = t.2).
  { unfold claims. rewrite events_cons, decide_True by done. rewrite filter_cons, decide_True by done. done. }
  split_and!.
  - eapply only_rinv; [done|exact Hon|apply (ri_one _ Hinv)|]. intros x. rewrite Hrow'. intros [= <-].
    split; [exact (ri_id _ Hinv _ _ Ho)|]. exists (a :: l). split; [done|]. unfold state_ok. simpl. by exists a, l.
  - eapply only_quiet; [|exact Hon]. intros (x & Hx & E). rewrite Ho in Hx. injection Hx as <-. rewrite E in Hst. revert Hst. status_out.
  - unfold fresh, t. simpl. lia.
  - unfold fresh. change t.1 with (rp_OrderID p). rewrite Hc. lia.
  - split; try done; [split_and!|].
    + by exists o'.
    + exact Hc.
    + by exists l.
    + destruct Hrow as (x & Hx & E). rewrite Ho in Hx. injection Hx as <-. by exists o'.
Qed.

Lemma ExecuteRefund_owner p s : rinv s → of_row p s → osafe None (ExecuteRefund p) finished s.
Proof.
  intros Hinv Hrow. unfold ExecuteRefund. apply (osafe_acquire Lost st_now rinv rlater spares fresh); [|intros; by apply s_over].
  intros s1 HR Hi. apply (of_row_later _ _ _ (proj1 HR)) in Hrow.
  unfold claim_refund, update_order, update_order_at. destruct Hrow as (o & Ho & Hc). rewrite Ho.
  destruct (status_is refundable o) eqn:Hst; cbn [fst snd].
  - apply status_is_elem in Hst. destruct (claimed_row p o s1) as (Hi' & Hq & Hf & Hnf & Hw); [done|by exists o|done|done|].
    split_and!; [done|by apply quiet_guar|by apply s_over|]. right. eexists. split_and!; [exact Hf|exact Hnf|]. by eapply attempt_safe.
  - split_and!; [done|apply guar_refl; apply _|by apply s_over|by left; apply s_over].
Qed.

(** ** The plan *)

Lemma c_tame {A B} o (p : prg A) (k : A → prg B) Q s : rinv s → tame p →
  (∀ a s', rely o s s' → rinv s' → calm o (k a) Q s') → calm o (bind p k) Q s.
Proof.
  intros Hinv Hp Hk. eapply (calm_bind Lost st_now rinv rlater spares); [done|by apply tame_calm|]. intros; by apply Hk.
Qed.

Lemma prepDeduct_plan o ord p force s : rinv s → calm o (prepDeduct ord p force) (λ r _, same_plan p (fst r)) s.
Proof.
  intros Hinv. unfold prepDeduct. cbv zeta. case_bool_decide.
  - destruct (o_SubscriptionGroupID ord) as [gid|]; [|done]. destruct (o_SubscriptionDays ord) as [days|]; [|done].
    apply c_tame; [done|apply t_ask|]. intros x s' _ _. by destruct x.
  - apply c_tame; [done|apply t_read|]. intros x s' _ _ s'' _ _. repeat case_match; by simplify_eq/=.
Qed.

Definition prepared (r : result perror (RefundPlan + RefundResult)) (s : Store) : Prop :=
  match r with Ok (inl p) => of_row p s | _ => True end.

Lemma PrepareRefund_prepared oid amt reason force deduct s : rinv s →
  calm None (PrepareRefund oid amt reason force deduct) prepared s.
Proof.
  intros Hinv. unfold PrepareRefund. unfold on_error, lift.
  apply (calm_read Lost st_now rinv rlater spares); [|by intros s' _ _ s'' _ _].
  intros s1 HR1 Hi1. unfold get_order, found. destruct (st_orders s1 !! oid) as [o|] eqn:Ho; [|by intros s' _ _]. cbn [bind].
  assert (Hok : ∀ p, rp_OrderID p = oid → rp_Order p = o → of_row p s1) by (intros p E1 E2; exists o; by rewrite E1, E2).
  case_match; [by intros s' _ _|]. apply c_tame; [done|apply t_refund_instance|]. intros [[i|]|e] s2 HR2 Hi2; [|by intros s' _ _..].
  cbv zeta. do 2 (case_match; [by intros s' _ _|]). generalize (if Float.le amt Float.zero then o_Amount o else amt). intros x.
  case_match; [by intros s' _ _|]. set (p := mkPlan _ _ _ _ _ _ _ _ _ _ _ _). destruct deduct.
  - eapply (calm_bind Lost st_now rinv rlater spares); [done|by apply prepDeduct_plan|].
    intros [q r] s3 HR3 Hi3 (E1 & E2 & _) s4 HR4 _. destruct r; [done|]. simpl in *.
    eapply of_row_later; [|by apply Hok]. etrans; [exact (proj1 HR2)|]. etrans; [exact (proj1 HR3)|exact (proj1 HR4)].
  - intros s4 HR4 _. simpl. eapply of_row_later; [|by apply Hok]. etrans; [exact (proj1 HR2)|exact (proj1 HR4)].
Qed.

Lemma ProcessRefund_owner oid amt reason force deduct s : rinv s → osafe None (ProcessRefund oid amt reason force deduct) finished s.
Proof.
  intros Hinv. unfold ProcessRefund, on_error.
  eapply (osafe_calm Lost st_now rinv rlater spares fresh); [done|by apply PrepareRefund_prepared|].
  intros [[p|r]|e] s1 _ Hi1 HP; [by apply ExecuteRefund_owner|by apply s_over..].
Qed.

(** ** Concluding a pending refund *)

(** The entry of the attempt, and that a second one cannot be made. *)
Definition waits (oid : Z) (o : Order) (d : refundPendingAuditDetail) (s : Store) : Prop :=
  o_ID o = oid ∧ pending_entry oid d s ∧ pd_DeductionHeld d = true ∧
  ∃ o', st_orders s !! oid = Some o' ∧ core_of o' = core_of o ∧
    (o_Status o' = OrderStatusRefundPending → RefundAmount (o_Refund o') = RefundAmount (o_Refund o)).

Lemma waits_later oid o d s s' : rlater s s' → waits oid o d s → waits oid o d s'.
Proof.
  intros HR (Hid & (a & Ha & Hd) & Hh & o1 & Ho1 & Hc & Hst). assert (Hne : pending_entries oid s ≠ []) by (by rewrite Ha).
  destruct (rl_rows _ _ HR _ _ Ho1) as (o2 & Ho2 & Hc2). split_and!; [done| |done|].
  - exists a. by rewrite (rl_pending _ _ HR _ Hne).
  - exists o2. split_and!; [done|congruence|]. intros E.
    destruct (rl_once _ _ HR _ _ _ Hne Ho1 Ho2 E) as [E1 ->]. by apply Hst.
Qed.

Lemma waits_row oid o s : rinv s → st_orders s !! oid = Some o → o_Status o = OrderStatusRefundPending → ∃ d, waits oid o d s.
Proof.
  intros Hinv Ho Hst. destruct (ri_state _ Hinv _ _ Ho) as (l & Hl & Hok). unfold state_ok in Hok. rewrite Hst in Hok.
  destruct Hok as (a & l' & d & -> & _ & _ & _ & _ & Hp & Hh & _). pose proof (ri_id _ Hinv _ _ Ho) as Hid. rewrite Hid in Hp.
  exists d. split_and!; [done|done|done|]. by exists o.
Qed.

(** The pending attempt behind the entry. *)
Lemma waits_attempt oid o d o' s : rinv s → waits oid o d s → st_orders s !! oid = Some o' → o_Status o' = OrderStatusRefundPending →
  core_of o' = core_of o ∧ ∃ a l, attempts oid s = Some (a :: l) ∧ Forall closed l ∧ awaits a ∧ at_Return a = None ∧
    at_Amount a = RefundAmount (o_Refund o) ∧ owes (applyTo d (refundFinalizePlan o)) a.
Proof.
  intros Hinv (Hid & (x & Hx & Hd) & _ & o1 & Ho1 & Hc & Ham) Ho Hst. rewrite Ho in Ho1. injection Ho1 as <-.
  destruct (ri_state _ Hinv _ _ Ho) as (l & Hl & Hok). unfold state_ok in Hok. rewrite Hst in Hok.
  destruct Hok as (a & l' & d' & -> & Hcl & Haw & Hr & Ha & (x' & Hx' & Hd') & _ & Hh). rewrite (ri_id _ Hinv _ _ Ho) in Hx'.
  assert (d' = d) as -> by congruence. split; [done|]. exists a, l'. split_and!; [done..|by rewrite Ha, Ham|].
  apply core_fields in Hc as (_ & Hu & _). unfold owes. simpl. by rewrite <- Hu.
Qed.

Lemma entry_other a s : au_Action a ≠ REFUND_PENDING →
  only (au_OrderID a) s (with_audits (cons a) s) ∧ pending_entries (au_OrderID a) (with_audits (cons a) s) = pending_entries (au_OrderID a) s.
Proof.
  intros Ha. split; [by apply entry_only|]. unfold pending_entries. simpl. rewrite filter_cons, decide_False; [done|]. by intros [_ ?].
Qed.

(** The row leaves REFUND_PENDING, with its entry in the same transaction. *)
Lemma conclude_entry oid o set action l s s1 s2 : rinv s → st_orders s !! oid = Some o → o_Status o = OrderStatusRefundPending →
  only oid s s1 → st_orders s1 = st_orders s → pending_entries oid s1 = pending_entries oid s → attempts oid s1 = Some l →
  core_of (set o) = core_of o → o_Status (set o) ≠ OrderStatusRefundPending → (∀ at_ s', state_ok (touch at_ (set o)) l s') →
  action ∈ conclusions → with_entry oid action DText s1 = Ok s2 → rinv (set_row oid (set o) s2) ∧ quiet s (set_row oid (set o) s2).
Proof.
  intros Hinv Ho Hst Hon E Ea Hl Hc Hn Hok Hact. unfold with_entry. destruct (has_audit oid [action] s1) eqn:Hnew; [done|]. intros [= <-].
  set (e := mkAudit _ _ _ _ _). set (o2 := touch (st_now s1) (set o)).
  assert (Hon' : only oid s (with_orders (insert oid o2) (with_audits (cons e) s1))).
  { eapply only_trans; [exact Hon|]. apply (conclude_only oid o); try done. by rewrite E. }
  assert (action ≠ REFUND_PENDING) as Hnp by (intros ->; revert Hact; status_out).
  destruct (entry_other e s1 Hnp) as [_ Hp]. cbn [au_OrderID e] in Hp. split.
  - eapply only_rinv; [done|exact Hon'| |].
    + change (length (pending_entries oid (with_audits (cons e) s1)) ≤ 1)%nat. rewrite Hp, Ea. apply (ri_one _ Hinv).
    + intros x. simpl. rewrite lookup_insert_eq. intros [= <-]. destruct (core_fields _ _ Hc) as (Hid & _).
      split; [rewrite <- (ri_id _ Hinv _ _ Ho); exact Hid|]. by exists l.
  - eapply only_quiet; [|exact Hon']. intros (x & Hx & Ex). rewrite Ho in Hx. injection Hx as <-. congruence.
Qed.

Lemma quiet_ok s : rinv s → rinv s ∧ quiet s s.
Proof. intros Hinv. split; [done|]. apply quiet_refl; apply _. Qed.

Lemma commit_quiet {A} s (r : result dberr (A * Store)) : rinv s →
  (∀ a s', r = Ok (a, s') → rinv s' ∧ quiet s s') → rinv (snd (commit s r)) ∧ quiet s (snd (commit s r)).
Proof. intros Hinv Hr. destruct r as [[a s']|e]; simpl; [by eapply Hr|by apply quiet_ok]. Qed.

Lemma finalize_success_quiet oid o d now s : rinv s → waits oid o d s →
  let s1 := snd (finalize_success (applyTo d (refundFinalizePlan o)) now s) in rinv s1 ∧ quiet s s1.
Proof.
  intros Hinv Hw. cbv zeta. assert (Hid : o_ID o = oid) by apply Hw. set (p := applyTo d (refundFinalizePlan o)).
  assert (Hp : rp_OrderID p = oid) by done. unfold finalize_success. rewrite Hp.
  apply commit_quiet; [done|]. intros q s'. destruct (st_orders s !! oid) as [o'|] eqn:Ho; [|done].
  destruct (status_is [OrderStatusRefundPending] o') eqn:Hst; [|done]. cbn [negb]. status_cases Hst.
  destruct (waits_attempt _ _ _ _ _ Hinv Hw Ho Hst) as (Hc & a & l & Hl & Hcl & Haw & Hr & Ha & _).
  change (applyRefundFinalDeduction p s) with (Ok p : result dberr RefundPlan, s). cbn match. rewrite Hp.
  destruct (with_entry _ _ _ _) as [s2|] eqn:He; [|done]. intros [= <- <-].
  assert (Hf : refund_final_status p = final_status (at_Amount a) (o_Amount o')).
  { rewrite Ha. apply final_status_of. by rewrite Hc. }
  eapply (conclude_entry oid o' (refunded p now) REFUND_SUCCESS (a :: l) s s s2); try done; [..|status_in].
  - simpl. rewrite Hf. unfold final_status. by case_match.
  - intros at_ s3. unfold state_ok. cbn [touch refunded concluded set_refund set_status o_Status o_Amount]. rewrite Hf.
    assert (final a) as Hfin.
    { split; [done|]. destruct Haw as (r & ans & -> & Hu). by right. }
    unfold final_status. destruct (Float.lt _ _) eqn:E; exists a, l; (split_and!; [done|done|done|exact Ha|by rewrite E]).
Qed.

Lemma gives_attempts oid a l o s s' : st_orders s !! oid = Some o → o_Status o = OrderStatusRefundPending → attempts oid s = Some (a :: l) → closed a → Forall closed l → gives oid a s s' →
  only oid s s' ∧ st_orders s' = st_orders s ∧ st_audits s' = st_audits s ∧ ∃ l', attempts oid s' = Some l' ∧ Forall closed l'.
Proof.
  intros Ho Hst Hl Hc Hcl [->|(e & s0 & a' & Hu & -> & <- & Hns & Hc' & Hadd)].
  - split_and!; [by apply unchanged_only|done|done|]. exists (a :: l). split; [done|by constructor].
  - split_and!; [|apply Hu|apply Hu|].
    + eapply only_trans; [by apply unchanged_only|apply event_only]. intros x. rewrite (un_orders _ _ Hu), Ho.
      intros [= <-]. rewrite Hst. split; [status_in|done].
    + exists (a' :: l). split; [|by constructor]. rewrite attempts_cons by done.
      rewrite (attempts_events _ s) by (unfold events; by rewrite (un_refunds _ _ Hu)). by rewrite Hl.
Qed.

Lemma returnHeld_gives p a s u s1 : owes p a → closed a → at_Return a = None → returnHeldRefundDeduction p s = (Ok u, s1) →
  gives (rp_OrderID p) a s s1.
Proof.
  intros Ho Hc Hr. unfold returnHeldRefundDeduction. destruct (takes_balance p) eqn:Hb.
  - assert (takes_days p = false) as -> by (apply takes_balance_spec in Hb as [Hb _]; unfold takes_days; by rewrite Hb).
    pose proof (return_balance_gives p a s Ho Hc Hr Hb) as Hg. destruct (return_balance _ _ _ _) as [[]?]; [|done].
    by intros [= _ <-].
  - destruct (takes_days p) eqn:Hd; [|intros [= _ <-]; by left].
    pose proof (return_days_gives p a s Ho Hc Hr Hd) as Hg. intros E. by rewrite E in Hg.
Qed.

Lemma finalize_failed_quiet oid o d now b s : rinv s → waits oid o d s →
  let s1 := snd (finalize_failed (applyTo d (refundFinalizePlan o)) now b s) in rinv s1 ∧ quiet s s1.
Proof.
  intros Hinv Hw. cbv zeta. assert (Hid : o_ID o = oid) by apply Hw. set (p := applyTo d (refundFinalizePlan o)).
  assert (Hp : rp_OrderID p = oid) by done. unfold finalize_failed. rewrite Hp.
  apply commit_quiet; [done|]. intros q s'. destruct (st_orders s !! oid) as [o'|] eqn:Ho; [|done].
  destruct (status_is [OrderStatusRefundPending] o') eqn:Hst; [|done]. cbn [negb]. status_cases Hst.
  destruct (waits_attempt _ _ _ _ _ Hinv Hw Ho Hst) as (Hc & a & l & Hl & Hcl & Haw%awaits_closed & Hr & Ha & Hows).
  change (negb (rp_deductionHeld p)) with false. cbn match.
  destruct (if b then _ else _) as [[u|e] s1] eqn:Hret; [|intros [= _ <-]; by apply quiet_ok].
  destruct b; [|done]. apply (returnHeld_gives _ a) in Hret; [|done..]. rewrite Hp in Hret.
  destruct (gives_attempts _ _ _ _ _ _ Ho Hst Hl Haw Hcl Hret) as (Hon & E & Ea & l' & Hl' & Hcl').
  destruct (with_entry _ _ _ _) as [s2|] eqn:He; [|done]. intros [= <- <-].
  eapply (conclude_entry oid o' (failed_at now) REFUND_FAILED l' s s1 s2); try done; [|status_in]. unfold pending_entries. by rewrite Ea.
Qed.

Lemma finalize_unreturned_quiet oid o d now s : rinv s → waits oid o d s →
  let s1 := snd (finalize_unreturned (applyTo d (refundFinalizePlan o)) now s) in rinv s1 ∧ quiet s s1.
Proof.
  intros Hinv Hw. cbv zeta. assert (Hid : o_ID o = oid) by apply Hw. set (p := applyTo d (refundFinalizePlan o)).
  assert (Hp : rp_OrderID p = oid) by done. unfold finalize_unreturned. rewrite Hp.
  apply commit_quiet; [done|]. intros q s'. destruct (st_orders s !! oid) as [o'|] eqn:Ho; [|done].
  destruct (status_is [OrderStatusRefundPending] o') eqn:Hst; [|done]. cbn [negb]. status_cases Hst.
  destruct (waits_attempt _ _ _ _ _ Hinv Hw Ho Hst) as (Hc & a & l & Hl & Hcl & Haw%awaits_closed & _).
  destruct (with_entry oid REFUND_ROLLBACK_FAILED _ s) as [s1|] eqn:He1; [|done].
  destruct (with_entry oid REFUND_FAILED _ s1) as [s2|] eqn:He; [|done]. intros [= <- <-].
  unfold with_entry in He1. case_match; [done|]. injection He1 as <-. set (e := mkAudit _ _ _ _ _) in *.
  destruct (entry_other e s ltac:(done)) as [Hon Hents].
  eapply (conclude_entry oid o' (failed_at now) REFUND_FAILED (a :: l) s (with_audits (cons e) s) s2); try done; [|status_in].
  intros at_ s3. by constructor.
Qed.

(** ** The query *)

Definition any {A} (_ : A) (_ : Store) : Prop := True.

Lemma c_quiet {A B} o (w : Store → result dberr A * Store) (k : result dberr A → prg B) s : 
  (∀ s', rely o s s' → rinv s' → rinv (snd (w s')) ∧ quiet s' (snd (w s'))) →
  (∀ r s', rlater s s' → rinv s' → calm o (k r) any s') → calm o (bind (write w) k) any s.
Proof.
  intros Hw Hk. apply (calm_write Lost st_now rinv rlater spares).
  - intros s' HR Hi. destruct (Hw s' HR Hi) as [Hi' Hq]. split_and!; [done|done|]. apply Hk; [|done].
    etrans; [exact (proj1 HR)|exact (proj1 Hq)].
  - intros s' HR Hi. apply Hk; [exact (proj1 HR)|done].
Qed.

Lemma c_over {A} o (p : prg A) s : tame p → calm o p any s.
Proof. apply tame_calm. Qed.

Lemma finalizeRefundFailed_calm oid o d s : rinv s → waits oid o d s →
  calm None (finalizeRefundFailed (applyTo d (refundFinalizePlan o))) any s.
Proof.
  intros Hinv Hw. unfold finalizeRefundFailed. apply c_tame; [done|apply t_ask|]. intros b s1 HR1 Hi1.
  apply c_tame; [done|apply t_clock|]. intros now s2 HR2 Hi2. apply (waits_later _ _ _ _ _ (proj1 HR1)), (waits_later _ _ _ _ _ (proj1 HR2)) in Hw.
  apply c_quiet; [intros s' HR Hi; by eapply finalize_failed_quiet; [|eapply waits_later; [exact (proj1 HR)|]]|].
  intros [[]|e] s3 HR3 Hi3; [by apply c_over| |by apply c_over].
  apply c_tame; [done|apply t_clock|]. intros now' s4 HR4 Hi4. apply (waits_later _ _ _ _ _ HR3), (waits_later _ _ _ _ _ (proj1 HR4)) in Hw.
  apply c_quiet; [intros s' HR Hi; by eapply finalize_unreturned_quiet; [|eapply waits_later; [exact (proj1 HR)|]]|].
  intros r s5 _ _. by apply c_over.
Qed.

Lemma finalizePendingRefundSuccess_calm oid o d s : rinv s → waits oid o d s →
  calm None (finalizePendingRefundSuccess (applyTo d (refundFinalizePlan o))) any s.
Proof.
  intros Hinv Hw. unfold finalizePendingRefundSuccess. apply c_tame; [done|apply t_clock|]. intros now s1 HR1 Hi1.
  apply (waits_later _ _ _ _ _ (proj1 HR1)) in Hw.
  apply c_quiet; [intros s' HR Hi; by eapply finalize_success_quiet; [|eapply waits_later; [exact (proj1 HR)|]]|].
  intros r s2 _ _. by apply c_over.
Qed.

Lemma waits_detail oid o d s : waits oid o d s → latest_pending oid s = Ok (Some (DPending d)).
Proof. intros (_ & (a & Ha & Hd) & _). unfold latest_pending. unfold pending_entries in Ha. rewrite Ha. simpl. by rewrite Hd. Qed.

Lemma QueryAndFinalizeRefund_calm oid s : rinv s → calm None (QueryAndFinalizeRefund oid) any s.
Proof.
  intros Hinv. unfold QueryAndFinalizeRefund. unfold on_error at 1. unfold lift at 1.
  apply (calm_read Lost st_now rinv rlater spares); [|intros; by apply c_over].
  intros s1 HR1 Hi1. unfold get_order, found. destruct (st_orders s1 !! oid) as [o|] eqn:Ho; [|by apply c_over]. cbn [bind].
  destruct (status_is _ o) eqn:Hst; [|by apply c_over]. cbn [negb]. status_cases Hst.
  destruct (waits_row _ _ _ Hi1 Ho Hst) as [d Hw]. unfold on_error at 1.
  apply c_tame; [done|apply t_refund_provider|]. intros [prov|e] s2 HR2 Hi2; [|by apply c_over]. apply (waits_later _ _ _ _ _ (proj1 HR2)) in Hw.
  apply c_tame; [done|apply t_ask|]. intros b s3 HR3 Hi3. apply (waits_later _ _ _ _ _ (proj1 HR3)) in Hw.
  case_match; [by apply c_over|]. unfold latestRefundPendingDetail, on_error, lift.
  apply (calm_read Lost st_now rinv rlater spares); [|intros; by apply c_over].
  intros s4 HR4 Hi4. apply (waits_later _ _ _ _ _ (proj1 HR4)) in Hw. rewrite (waits_detail _ _ _ _ Hw). cbn [bind].
  apply c_tame; [done|apply t_ask|]. intros [resp []] s5 HR5 Hi5; [|by apply c_over]. apply (waits_later _ _ _ _ _ (proj1 HR5)) in Hw.
  unfold final_plan. destruct Hw as (Hid & Hp & Hheld & Hrow). rewrite Hheld. cbn [bind].
  assert (Hw : waits oid o d s5) by done. cbv zeta.
  repeat case_match; first [by eapply finalizeRefundFailed_calm|by eapply finalizePendingRefundSuccess_calm
                           |apply c_over; apply t_bind; [by apply t_audit|done]].
Qed.

(** ** All runs *)

Context (sv : Service).

Lemma ignore_owned {A} (p : prg A) s : rinv s → osafe None p finished s → osafe None (ignore p) finished s.
Proof. intros Hinv Hp. by eapply s_then. Qed.

Lemma entry_owned r s : rinv s → osafe None (entry sv r) finished s.
Proof.
  intros Hinv. destruct r; unfold entry; (apply ignore_owned; [done|]).
  - apply s_over, t_notify.
  - apply s_over, t_retry.
  - apply s_over, t_CancelOrder.
  - apply s_over, t_AdminCancelOrder.
  - apply s_over, t_expire.
  - apply s_over, t_reconcile.
  - apply s_over, t_verify.
  - apply s_over, t_redeem.
  - apply s_over, t_delete.
  - apply s_over, t_RequestRefund.
  - by apply ProcessRefund_owner.
  - eapply (calm_osafe Lost st_now rinv rlater spares fresh); [by apply QueryAndFinalizeRefund_calm|done].
  - apply s_over, t_change_balance.
Qed.

Abbreviation event := (event (Q := question) (Req := request)).
Abbreviation config := (config (S := Store) (DE := dberr) (Q := question) (A := unit)).
Abbreviation runs := (run_events Lost st_now advance (entry sv)).
Abbreviation refunds_ok := (opool_ok (Q := question) (A := unit) Lost st_now rinv rlater spares fresh).

Lemma refunds_run (es : list event) s0 (cf : config) : refunds_ok s0 cf → refunds_ok s0 (runs cf es).
Proof.
  intros Hcf. apply (owned_run_ok Lost st_now advance rinv rlater spares fresh made_stays (entry sv) (λ _, True) s0).
  - intros r s' _ _ Hi. by apply entry_owned.
  - intros d s' Hi. destruct (apart_ok s' (advance d s') Hi) as [? [? ?]]; [by apply unchanged_apart|done].
  - done.
  - by apply Forall_forall; intros [].
Qed.

Lemma refunds_start s : rinv s → refunds_ok s (mkConfig s []).
Proof. intros Hinv. split_and!; [done|simpl; reflexivity|]. exists []. by split; [apply Forall2_nil_2|..]. Qed.

(** The invariant of refunds holds in every run, whatever arrives; and what a longer
    run keeps of a shorter one. *)
Lemma refunds_reach es s : rinv s → rinv (reach sv es s) ∧ rlater s (reach sv es s).
Proof. intros Hinv. destruct (refunds_run es s (mkConfig s [])) as (? & ? & _); [by apply refunds_start|done]. Qed.

Lemma refunds_continue es es' s : rinv s → rlater (reach sv es s) (reach sv (es ++ es') s).
Proof.
  intros Hinv. destruct (refunds_run es s (mkConfig s [])) as (Hi & _ & Hos); [by apply refunds_start|].
  unfold reach, run_events. rewrite foldl_app.
  by destruct (refunds_run es' (cf_store (runs (mkConfig s []) es)) (runs (mkConfig s []) es)) as (_ & ? & _).
Qed.

End services.
End RefundOwner.
