(* ===== verification/PaymentTheorems.v ===== *)
(** * What holds of payments in every run

    The theorems about the system of [PaymentSafety]: whatever requests arrive,
    however their calls interleave, fail or stop half-way. *)

From S2P Require Import Prelude Float64 GoStrings PaymentOrder Subscription Database Interleaving PaymentStore Redeem Payment Refund PaymentInvariant PaymentSafety PaymentSystem.

Module PaymentTheorems.
Import GoStrings PaymentOrder PaymentStore Redeem Payment Refund PaymentInvariant PaymentSafety PaymentSystem.

Section theorems.
Context `{Database} `{Numeric} `{TimeZones} `{UnicodeFold} `{Decimal} `{RefundDecimal} (sv : Service).

(** C1: in every run in which no administrator deletes a redeem code (the race of
    [deleted_code_credited_twice] is excluded, nothing else is), a balance order that
    is COMPLETED or in a refund has been credited through its own recharge code
    exactly once: the journal holds one entry for that code, to the order's user, of
    a value the service accepts for the order's amount. *)
Theorem completed_order_credited_once es s oid o :
  inv False s → admissible_events False s es →
  st_orders (reach sv es s) !! oid = Some o →
  o_Status o ∈ settled → o_OrderType o = OrderTypeBalance →
  ∃ id c, st_codes (reach sv es s) !! id = Some c ∧ rc_Code c = o_RechargeCode o ∧ value_ok o c = true ∧
    credits (DueCode id) (reach sv es s) = [mkGrant (DueCode id) (balance_credit (o_UserID o) (rc_Value c))].
Proof.
  intros Hinv Hes Ho Hst Ht. destruct (reach_ok sv False es s Hinv Hes) as [Hinv' _]. by eapply completed_credit.
Qed.

(** C2: in every run in which no administrator deletes a redeem code, nothing is
    granted twice: at most one credit for a redeem code, at most one term for a subscription order, at most one rebate for an
    order. *)
Theorem nothing_granted_twice es s :
  inv False s → admissible_events False s es →
  (∀ id, (length (credits (DueCode id) (reach sv es s)) ≤ 1)%nat) ∧
  (∀ oid, (length (credits (DueOrder oid) (reach sv es s)) ≤ 1)%nat) ∧
  (∀ oid, (length (rebates (DueOrder oid) (reach sv es s)) ≤ 1)%nat).
Proof.
  intros Hinv Hes. destruct (reach_ok sv False es s Hinv Hes) as [Hinv' _]. split_and!.
  - apply (inv_once _ _ Hinv').
  - intros oid. destruct (inv_days _ _ Hinv' oid) as [->|[? _]]; [simpl; lia|done].
  - intros oid. destruct (inv_rebate _ _ Hinv' oid) as [->|[? _]]; [simpl; lia|done].
Qed.

(** C3: in every run in which nobody but the order's user redeems an order's
    recharge code, which can be guessed, and no administrator deletes a code, what is
    credited for that code is credited to the order's user, for the
    order's amount, and only after the order was paid. *)
Theorem no_credit_without_payment es s oid o id c :
  inv True s → admissible_events True s es →
  st_orders (reach sv es s) !! oid = Some o → o_OrderType o = OrderTypeBalance →
  st_codes (reach sv es s) !! id = Some c → rc_Code c = o_RechargeCode o →
  credits (DueCode id) (reach sv es s) ≠ [] →
  is_Some (o_PaidAt o) ∧ o_Status o ∈ funded ∧ value_ok o c = true ∧
  credits (DueCode id) (reach sv es s) = [mkGrant (DueCode id) (balance_credit (o_UserID o) (rc_Value c))].
Proof.
  intros Hinv Hes Ho Ht Hc Hcode Hcr. destruct (reach_ok sv True es s Hinv Hes) as [Hinv' _].
  destruct (inv_own _ _ Hinv' I oid o id c Ho Ht Hc Hcode) as [(Hty & Hv & _ & Hst) Hf].
  destruct (inv_order _ _ Hinv' oid o Ho) as (_ & _ & Hpaid & _).
  destruct Hst as [[Hun _]|[Hused Hu]].
  - exfalso. apply Hcr. apply (inv_unused _ _ Hinv' id c Hc). rewrite Hun. intros ?; by apply used_not_unused.
  - destruct (inv_used _ _ Hinv' id c Hc Hused Hty) as (u & Hu' & Hg). rewrite Hu in Hu'. injection Hu' as <-.
    split_and!; [by apply Hpaid|done|done|done].
Qed.

(** C4: in every run in which no code is deleted, an order keeps its user, amount,
    type and codes; a paid order stays paid and is never cancelled or expired; and a completed order stays
    completed or is in a refund, which no fulfilment undoes. *)
Theorem paid_order_never_lost es s oid o :
  inv False s → admissible_events False s es → st_orders s !! oid = Some o →
  ∃ o', st_orders (reach sv es s) !! oid = Some o' ∧ core_of o' = core_of o ∧
    (is_Some (o_PaidAt o) → is_Some (o_PaidAt o')) ∧
    (o_Status o ∈ funded → o_Status o' ∈ funded) ∧
    (o_Status o ∈ settled → o_Status o' ∈ settled).
Proof.
  intros Hinv Hes Ho. destruct (reach_ok sv False es s Hinv Hes) as [_ HR].
  destruct (lt_orders _ _ HR oid o Ho) as (o' & Ho' & [Hc Hst Hp]). exists o'. split_and!; [done|done|done|by apply funded_step|by apply settled_step].
Qed.

(** C26: in every run in which no code is deleted, the tables stay well formed: rows
    sit under their identifiers, codes are distinct and below the sequence, a paid status has its payment time,
    versions are not in the future, a code that is not used has no entry in the
    journal, and a lock expires within its term. *)
Theorem tables_well_formed es s :
  inv False s → admissible_events False s es →
  let s' := reach sv es s in
  (∀ oid o, st_orders s' !! oid = Some o →
     o_ID o = oid ∧ o_UpdatedAt o ≤ st_now s' + 1000 ∧ well_formed o ∧ (o_Status o ∈ funded → is_Some (o_PaidAt o))) ∧
  (∀ id c, st_codes s' !! id = Some c → rc_ID c = id ∧ id < st_next_code s' ∧
     (rc_Status c ≠ StatusUsed → credits (DueCode id) s' = [])) ∧
  (∀ id id' c c', st_codes s' !! id = Some c → st_codes s' !! id' = Some c' → rc_Code c = rc_Code c' → id = id') ∧
  (∀ k e, st_locks s' !! k = Some e → e ≤ st_now s' + redeemLockDuration).
Proof.
  intros Hinv Hes s'. destruct (reach_ok sv False es s Hinv Hes) as [Hinv' _]. split_and!.
  - intros oid o Ho. destruct (inv_order _ _ Hinv' oid o Ho) as (? & ? & ? & _).
    split_and!; [done|done|by eapply inv_formed|done].
  - intros id c Hc. destruct (inv_code_id _ _ Hinv' id c Hc). split_and!; [done|done|by eapply inv_unused].
  - apply (inv_code_unique _ _ Hinv').
  - apply (inv_locks _ _ Hinv').
Qed.

(** ** Leases *)

Lemma update_refused oid guard set at_ s o :
  st_orders s !! oid = Some o → guard o = false → update_order_at oid guard set at_ s = (Ok 0, s).
Proof. unfold update_order_at. by intros -> ->. Qed.

(** The store after a successful takeover. *)
Definition taken_over (oid : Z) (now : time) (s : Store) : Store :=
  snd (update_order_at oid (lease_guard (now - paymentFulfillmentLeaseDuration))
    (λ o, set_times (o_PaidAt o) (o_CompletedAt o) None (set_status OrderStatusRecharging o)) (λ _, now) s).

Lemma stale_version oid now s o :
  st_orders s !! oid = Some o → o_Status o = OrderStatusRecharging →
  o_UpdatedAt o ≤ now - paymentFulfillmentLeaseDuration →
  ∃ o', st_orders (taken_over oid now s) !! oid = Some o' ∧ holds_lease (o_UpdatedAt o) o' = false.
Proof.
  intros Ho Hst Hv. unfold taken_over, update_order_at. rewrite Ho.
  assert (lease_guard (now - paymentFulfillmentLeaseDuration) o = true) as ->.
  { unfold lease_guard, status_is. rewrite Hst. simpl. by apply Z.leb_le. }
  eexists. simpl. rewrite lookup_insert_eq. split; [done|].
  unfold holds_lease. apply andb_false_iff. right. simpl. apply Z.eqb_neq.
  pose proof (timestamptz_near now). unfold paymentFulfillmentLeaseDuration, minute, second in *. lia.
Qed.

(** Whatever its calls report, a worker that lost its lease changes no order. *)
Lemma stale_markFailed oid version ch s o :
  st_orders s !! oid = Some o → holds_lease version o = false →
  st_orders (snd (run Lost st_now (markFailed oid version) ch s)) = st_orders s.
Proof.
  intros Ho Hh. unfold markFailed, clock, write, call. simpl.
  unfold update_order. rewrite (update_refused _ _ _ _ _ _ Ho Hh). by destruct (ch_fault (ch 1%nat)).
Qed.

Lemma stale_markCompleted o version a ch s x :
  st_orders s !! o_ID o = Some x → holds_lease version x = false →
  st_orders (snd (run Lost st_now (markCompleted o version a) ch s)) = st_orders s ∧
  (o_Status x ≠ OrderStatusCompleted → ∃ e, fst (run Lost st_now (markCompleted o version a) ch s) = Err e).
Proof.
  intros Ho Hh. unfold markCompleted, clock, write, call, on_error, lift, read. simpl.
  unfold update_order. rewrite (update_refused _ _ _ _ _ _ Ho Hh).
  destruct (ch_fault (ch 1%nat)); simpl; [|by eauto..].
  unfold get_order. rewrite Ho. destruct (ch_fault (ch 2%nat)); simpl; split; eauto.
  intros Hne. rewrite bool_decide_eq_false_2 by done. eauto.
Qed.

(** C7: a worker whose lease was taken over cannot finish the order: once another
    worker has taken a RECHARGING order whose lease went stale, the first
    worker's [markCompleted] and [markFailed] change no order, and its
    [markCompleted] returns an error, whatever its calls report. *)
Theorem takeover_revokes_lease oid now s o ch a :
  st_orders s !! oid = Some o → o_Status o = OrderStatusRecharging → o_ID o = oid →
  o_UpdatedAt o ≤ now - paymentFulfillmentLeaseDuration →
  let s' := taken_over oid now s in
  let failed := run Lost st_now (markFailed oid (o_UpdatedAt o)) ch s' in
  let completed := run Lost st_now (markCompleted o (o_UpdatedAt o) a) ch s' in
  st_orders (snd failed) = st_orders s' ∧ st_orders (snd completed) = st_orders s' ∧
  ∃ e, fst completed = Err e.
Proof.
  intros Ho Hst Hid Hv s' failed completed. destruct (stale_version oid now s o Ho Hst Hv) as (o' & Ho' & Hh).
  assert (Hst' : o_Status o' ≠ OrderStatusCompleted).
  { unfold taken_over, update_order_at in Ho'. rewrite Ho in Ho'. case_match; simpl in Ho'.
    - rewrite lookup_insert_eq in Ho'. injection Ho' as <-. discriminate.
    - rewrite Ho in Ho'. injection Ho' as <-. congruence. }
  subst oid. destruct (stale_markCompleted o (o_UpdatedAt o) a ch s' o' Ho' Hh) as [Hc He].
  split_and!; [by eapply stale_markFailed|done|by apply He].
Qed.

(** ** What a notification must say *)

Lemma wp_anything B {A} (p : prg A) Q : (∀ a s', Q a s') → ∀ s, Interleaving.wp (S := Store) (Q := question) Lost st_now B p Q s.
Proof.
  intros HQ. induction p as [a|X e k IH]; intros s; simpl; [apply HQ|]. intros c _.
  destruct (exec Lost st_now e c s). apply IH.
Qed.

Lemma run_read {A B} (q : Store → result dberr A) (k : result dberr A → prg B) ch s :
  run Lost st_now (bind (read q) k) ch s =
  run Lost st_now (k match ch_fault (ch O) with NoFault => q s | _ => Err Lost end) (λ i, ch (S i)) s.
Proof. done. Qed.

Lemma only_elem {A} (P : A → Prop) `{∀ x, Decision (P x)} l a : only (filter P l) = Ok a → a ∈ l.
Proof.
  intros Hq%only_Ok. assert (Hin : a ∈ filter P l) by (rewrite Hq; apply list_elem_of_here).
  by apply list_elem_of_filter in Hin as [_ ?].
Qed.

(** Orders, codes, subscriptions and the journal. *)
Definition untouched (s s' : Store) : Prop :=
  st_orders s' = st_orders s ∧ st_codes s' = st_codes s ∧ st_subs s' = st_subs s ∧ st_grants s' = st_grants s.

(** The notification matches the order: the provider, what the provider recorded
    about the payment, and the amount. *)
Definition matching (o : Order) (k pk : bytes) (m : gmap bytes bytes) (paid : float64) : Prop :=
  provider_mismatch (expectedNotificationProviderKeyForOrder (sv_registry sv) o k) pk = false ∧
  validateProviderSnapshotMetadata o pk m = true ∧ isValidProviderAmount paid = true ∧ amount_mismatch o paid = false.

(** A worker that cannot read the order acknowledges the notification: when the
    first read of [confirmPayment] fails, it returns no error and changes nothing,
    whatever the notification says. *)
Theorem failed_read_acknowledged oid tradeNo paid pk m ch s :
  ch_fault (ch O) ≠ NoFault → run Lost st_now (confirmPayment sv oid tradeNo paid pk m) ch s = (Ok tt, s).
Proof. unfold confirmPayment. rewrite run_read. by destruct (ch_fault (ch O)). Qed.

(** ** An order paid at the provider is not cancelled *)

(** The provider can be built and reports the payment as made, of a valid amount. *)
Definition reports_paid (c : choice) : Prop :=
  ch_fault c = NoFault ∧ (∀ i, is_Some (ch_answer c _ (QProvider i))) ∧
  ∀ prov ref, ∃ resp, ch_answer c _ (QQueryOrder prov ref) = Some resp ∧ q_Paid resp = true ∧
    isValidProviderAmount (q_Amount resp) = true.

Lemma query_reference_nonempty o prov : TrimSpace (o_OutTradeNo o) ≠ [] → paymentOrderQueryReference o prov ≠ [].
Proof.
  intros Hne. unfold paymentOrderQueryReference. cbv zeta.
  match goal with |- context [GetBasePaymentType ?k] => generalize k end. intros k. case_match; [done|].
  unfold first_nonempty. rewrite filter_cons, filter_nil. by destruct (decide (TrimSpace (o_PaymentTradeNo o) ≠ [])).
Qed.

Lemma checkPaid_paid o cancel i s :
  Interleaving.wp Lost st_now reports_paid (getOrderProviderInstance o) (λ r _, r = Ok (Some i)) s →
  TrimSpace (o_OutTradeNo o) ≠ [] →
  Interleaving.wp Lost st_now reports_paid (checkPaidWithOptions sv o cancel) (λ b _, b = true) s.
Proof.
  intros Hinst Hne. unfold checkPaidWithOptions, getOrderProvider. do 2 apply wp_bind.
  eapply wp_mono; [exact Hinst|]. intros r s1 ->. simpl. intros c (_ & Hprov & _). destruct (Hprov i) as [prov ->].
  simpl. rewrite bool_decide_eq_false_2 by by apply query_reference_nonempty. simpl.
  intros c' (_ & _ & Hq). destruct (Hq prov (paymentOrderQueryReference o prov)) as (resp & -> & -> & Hv).
  rewrite Hv. simpl. apply wp_bind. apply wp_anything. intros trade s2 c2 _.
  destruct (exec _ _ _ _ _) as [x s3]. apply wp_bind. by apply wp_anything.
Qed.

(** An order the provider reports as paid is neither cancelled nor expired:
    when its instance is found, the calls succeed and the provider reports a valid
    payment, [cancelCore] - for a user, an administrator or the timer - returns
    "already paid" without reaching its UPDATE. *)
Theorem paid_at_provider_not_cancelled o fs op i s ch :
  o_PaymentType o ≠ [] → TrimSpace (o_OutTradeNo o) ≠ [] →
  Interleaving.wp Lost st_now reports_paid (getOrderProviderInstance o) (λ r _, r = Ok (Some i)) s →
  (∀ n, reports_paid (ch n)) → fst (run Lost st_now (cancelCore sv o fs op) ch s) = Ok AlreadyPaid.
Proof.
  intros Hty Hne Hinst Hch.
  apply (wp_run Lost st_now reports_paid (cancelCore sv o fs op) (λ r _, r = Ok AlreadyPaid)); [done|].
  unfold cancelCore. rewrite (bool_decide_eq_false_2 (o_PaymentType o = [])) by done. rewrite orb_true_r.
  apply wp_bind. eapply wp_mono; [by eapply checkPaid_paid|]. by intros b s' ->.
Qed.

(** ** References that are read back *)

Lemma visible_text (t : string) : forallb (λ c, (33 <=? code c) && (code c <=? 126)) (lit t) = true → Forall visible (lit t).
Proof.
  rewrite forallb_forall. intros Hall. apply Forall_forall. intros c Hc. unfold visible.
  specialize (Hall c (proj1 (list_elem_of_In _ _) Hc)). lia.
Qed.

(** The legacy reference of an order, its prefix and its number, is read back as
    that order's number. *)
Theorem legacy_reference_roundtrip oid :
  0 < oid ≤ int64_max → parseLegacyPaymentOrderID (orderIDPrefix ++ FormatInt oid) true = Some oid.
Proof.
  intros Hoid. unfold parseLegacyPaymentOrderID. simpl (negb true). cbv zeta iota.
  replace (TrimSpace (orderIDPrefix ++ FormatInt oid)) with (orderIDPrefix ++ FormatInt oid)
    by (symmetry; apply (TrimSpace_numbered "s"%char (lit "ub2_") oid); [by apply (visible_text "sub2_")|lia]).
  assert (HasPrefix (orderIDPrefix ++ FormatInt oid) orderIDPrefix = true) as ->
    by (unfold HasPrefix, is_prefix; apply bool_decide_eq_true_2; by eexists).
  rewrite TrimPrefix_app. destruct (FormatInt_visible oid ltac:(lia)) as (l & d & Hf & _).
  rewrite bool_decide_eq_false_2 by (rewrite Hf; by destruct l).
  rewrite bool_decide_eq_false_2 by (intros Heq%(f_equal length); rewrite length_app in Heq; simpl in Heq; lia).
  simpl. rewrite Atoi_FormatInt by lia. by rewrite (proj2 (Z.leb_gt oid 0)) by lia.
Qed.

Lemma order_note_plain oid : 0 ≤ oid →
  let note := paymentSubscriptionOrderNote oid in TrimSpace note = note ∧ CR ∉ note ∧ LF ∉ note ∧ note ≠ [].
Proof.
  intros Hoid. simpl. unfold paymentSubscriptionOrderNote. destruct (FormatInt_visible oid Hoid) as (l & d & -> & Hv).
  assert (Hno : ∀ c, ¬ visible c → c ∉ lit "payment order " → c ∉ lit "payment order " ++ l ++ [d]).
  { intros c Hc Hl [?|Hin]%elem_of_app; [done|]. rewrite Forall_forall in Hv. by apply Hc, Hv. }
  split_and!; [|apply Hno..|by destruct l]; [|by vm_compute; intuition congruence|by apply (bool_decide_unpack _)..].
  rewrite app_assoc. apply (trimmed_ends "p"%char (lit "ayment order " ++ l) d); [by vm_compute|].
  apply Forall_app in Hv as [_ Hv]. by apply Forall_cons in Hv as [Hv _].
Qed.

Lemma update_notes r days notes now : notes ≠ [] →
  Subscription.us_Notes (Subscription.updateExistingSubscriptionTerm r days notes false now) =
  Subscription.appendSubscriptionNotes (Subscription.us_Notes r) notes.
Proof.
  intros Hne. unfold Subscription.updateExistingSubscriptionTerm. simpl.
  repeat case_match; simpl; try done; bool_hyp; try done.
Qed.

Lemma note_line_found notes oid : 0 ≤ oid →
  paymentSubscriptionOrderNote oid ∈ Split LF (crlf_to_lf notes) →
  hasPaymentSubscriptionOrderNote notes (paymentSubscriptionOrderNote oid) = true.
Proof.
  intros Hoid Hin. apply existsb_exists. exists (paymentSubscriptionOrderNote oid). split; [by apply list_elem_of_In|].
  apply bool_decide_eq_true_2. by apply order_note_plain.
Qed.

(** C27: the note an order leaves on a subscription is recognised there: after the
    order's term has been added to the row, or the row created, the check that
    keeps a second worker from assigning again finds the order's note, whatever
    notes the row had. *)
Theorem assignment_note_recognised oid r days id uid gid by_ now :
  0 ≤ oid →
  let note := paymentSubscriptionOrderNote oid in
  hasPaymentSubscriptionOrderNote
    (Subscription.us_Notes (Subscription.updateExistingSubscriptionTerm r days note false now)) note = true ∧
  hasPaymentSubscriptionOrderNote
    (Subscription.us_Notes (Subscription.createSubscription id uid gid days by_ note now)) note = true.
Proof.
  intros Hoid note. destruct (order_note_plain oid Hoid) as (_ & Hcr & Hlf & Hne). split.
  - rewrite update_notes by done. by apply note_line_found, Subscription.append_notes_line.
  - simpl. apply note_line_found; [done|]. rewrite crlf_to_lf_id, Split_single by done. apply list_elem_of_here.
Qed.

End theorems.
End PaymentTheorems.
