(* ===== verification/PaymentMatching.v ===== *)
(** * Only a payment that matches the order confirms it

    What [confirmPayment] demands of a notification, said without the code's own
    helper functions: the provider instance that the order names, the provider's key,
    what the provider recorded about the payment, and the amount. *)

From S2P Require Import Prelude Float64 GoStrings PaymentOrder Subscription Database Interleaving PaymentStore Redeem Payment PaymentInvariant PaymentSafety PaymentSystem PaymentTheorems.

Module PaymentMatching.
Import GoStrings PaymentOrder PaymentStore Redeem Payment PaymentTheorems.

(** ** The instance of an order *)

Definition column_of (o : Order) : bytes := TrimSpace (psStringValue (o_ProviderInstanceID o)).

(** The only row with the identifier that [name] spells. *)
Definition named (name : bytes) (i : ProviderInstance) (l : list ProviderInstance) : Prop :=
  Atoi name = Some (pi_ID i) ∧ filter (λ j, pi_ID j = pi_ID i) l = [i].

(** For an order that names none: the only one for its provider and payment type. *)
Definition only_candidate (o : Order) (i : ProviderInstance) (l : list ProviderInstance) : Prop :=
  let base := GetBasePaymentType (TrimSpace (o_PaymentType o)) in
  let key := TrimSpace (psStringValue (o_ProviderKey o)) in
  (key = [] → base ≠ []) ∧
  filter (λ j, (TrimSpace base ≠ [] → psLegacyOrderMatchesInstance base j = true) ∧ (key ≠ [] → pi_ProviderKey j = key)) l = [i].

Section folding.
Context `{UnicodeFold}.

Definition belongs (o : Order) (i : ProviderInstance) (l : list ProviderInstance) : Prop :=
  match psOrderProviderSnapshot o with
  | Some s =>
      named (if bool_decide (TrimSpace (ProviderInstanceID s) = []) then column_of o else TrimSpace (ProviderInstanceID s)) i l ∧
      (column_of o = [] ∨ ProviderInstanceID s = [] ∨ EqualFold (column_of o) (ProviderInstanceID s) = true) ∧
      (ProviderKey s = [] ∨ EqualFold (TrimSpace (pi_ProviderKey i)) (ProviderKey s) = true)
  | None => if bool_decide (column_of o = []) then only_candidate o i l else named (column_of o) i l
  end.

(** ** The payment *)

(** The provider's key is the first that is known: of the instance, recorded with the
    order, registered for the payment type, or the payment type; an empty one passes. *)
Definition provider_agrees (registry : option (bytes → bytes)) (o : Order) (k pk : bytes) : Prop :=
  let recorded := match psOrderProviderSnapshot o with
                  | Some s => if bool_decide (ProviderKey s = []) then psStringValue (o_ProviderKey o) else ProviderKey s
                  | None => psStringValue (o_ProviderKey o)
                  end in
  match filter (λ x, x ≠ []) ([TrimSpace k; TrimSpace recorded] ++
          match registry with Some f => [TrimSpace (f (o_PaymentType o))] | None => [] end ++ [TrimSpace (o_PaymentType o)]) with
  | [] => True
  | e :: _ => TrimSpace pk = [] ∨ EqualFold e (TrimSpace pk) = true
  end.

(** What was recorded with the order is in the notification; a status that is there is
    the one of a payment that was made. *)
Definition carries (recorded said : bytes) : Prop := recorded = [] ∨ (said ≠ [] ∧ EqualFold recorded said = true).
Definition succeeded (status : string) (said : bytes) : Prop := said = [] ∨ EqualFold said (lit status) = true.

Definition merchant_agrees (o : Order) (pk : bytes) (m : gmap bytes bytes) : Prop :=
  ∀ s, m ≠ ∅ → psOrderProviderSnapshot o = Some s →
  let said k := TrimSpace (default [] (m !! lit k)) in
  let app := TrimSpace (MerchantAppID s) in
  let merchant := TrimSpace (MerchantID s) in
  let currency := carries (TrimSpace (Currency s)) (ToUpper (said "currency")) in
  (TrimSpace pk = TypeWxpay → carries app (said "appid") ∧ carries merchant (said "mchid") ∧ currency ∧ succeeded "SUCCESS" (said "trade_state")) ∧
  (TrimSpace pk = TypeAlipay → carries app (said "app_id")) ∧
  (TrimSpace pk = TypeEasyPay → carries merchant (said "pid")) ∧
  (TrimSpace pk = TypeStripe → currency) ∧
  (TrimSpace pk = TypeAirwallex → carries merchant (said "account_id") ∧ currency ∧ succeeded "SUCCEEDED" (said "status")).

(** A positive finite amount, off by no more than the tolerance of the currency. *)
Definition amount_agrees (o : Order) (paid : float64) : Prop :=
  Float.lt Float.zero paid = true ∧ Float.IsNaN paid = false ∧ Float.IsInf paid = false ∧
  Float.lt (paymentAmountToleranceForCurrency (PaymentOrderCurrency o)) (Float.Abs (Float.sub paid (o_PayAmount o))) = false.

Lemma provider_agrees_ok registry o k pk :
  provider_mismatch (expectedNotificationProviderKeyForOrder registry o k) pk = false → provider_agrees registry o k pk.
Proof.
  unfold provider_mismatch, expectedNotificationProviderKeyForOrder, expectedNotificationProviderKey, first_nonempty, provider_agrees.
  cbv zeta. rewrite app_assoc. set (l := ([_; _] ++ _)%list). rewrite (filter_app _ l). clearbody l.
  assert (Hagree : ∀ e, e ≠ [] → bool_decide (e ≠ []) && bool_decide (TrimSpace pk ≠ []) && negb (EqualFold e (TrimSpace pk)) = false →
    TrimSpace pk = [] ∨ EqualFold e (TrimSpace pk) = true).
  { intros e He. destruct (decide (TrimSpace pk = [])) as [?|Hpk]; [by left|]. rewrite !bool_decide_eq_true_2 by done.
    simpl. intros ?%negb_false_iff. by right. }
  destruct (filter (λ x, x ≠ []) l) as [|e l'] eqn:Hl; simpl.
  - rewrite filter_cons, filter_nil. case_decide; [by apply Hagree|done].
  - apply Hagree. assert (Hin : e ∈ filter (λ x, x ≠ []) l) by (rewrite Hl; apply list_elem_of_here). by apply list_elem_of_filter in Hin as [? _].
Qed.

Lemma field_carries recorded said : field_ok recorded said = true → carries recorded said.
Proof.
  unfold field_ok. intros [?%bool_decide_eq_true|Hs]%orb_true_iff; [by left|right].
  apply andb_true_iff in Hs as [?%bool_decide_eq_true ?]. by split.
Qed.

Lemma state_succeeded status said : PaymentOrder.state_ok status said = true → succeeded status said.
Proof. unfold PaymentOrder.state_ok. intros [?%bool_decide_eq_true|?]%orb_true_iff; [by left|by right]. Qed.

Lemma merchant_agrees_ok o pk m : validateProviderSnapshotMetadata o pk m = true → merchant_agrees o pk m.
Proof.
  intros Hv s Hm Hs. unfold validateProviderSnapshotMetadata in Hv. rewrite bool_decide_eq_false_2 in Hv by done. rewrite Hs in Hv.
  cbv zeta in *. fold (meta m "appid") (meta m "mchid") (meta m "currency") (meta m "trade_state") (meta m "app_id") (meta m "pid")
    (meta m "account_id") (meta m "status").
  split_and!; intros Hk; rewrite Hk in Hv; simpl in Hv; repeat (apply andb_true_iff in Hv as [Hv ?]);
    repeat split; first [by apply field_carries|by apply state_succeeded].
Qed.

Lemma amount_agrees_ok o paid : isValidProviderAmount paid = true → amount_mismatch o paid = false → amount_agrees o paid.
Proof.
  unfold isValidProviderAmount, amount_mismatch. intros [[Hp Hn%negb_true_iff]%andb_true_iff Hi%negb_true_iff]%andb_true_iff Ha. by split_and!.
Qed.

Lemma named_only name i l : named name i l → ∃ id, Atoi name = Some id ∧ only (filter (λ j, pi_ID j = id) l) = Ok i.
Proof. intros [Ha Hf]. exists (pi_ID i). split; [done|]. by rewrite Hf. Qed.

Lemma only_named name id i l : Atoi name = Some id → only (filter (λ j, pi_ID j = id) l) = Ok i → named name i l.
Proof.
  intros Ha Hf%PaymentSafety.only_Ok. assert (Hi : i ∈ filter (λ j, pi_ID j = id) l) by (rewrite Hf; apply list_elem_of_here).
  apply list_elem_of_filter in Hi as [Hi _]. split; [by rewrite Hi|]. by rewrite Hi.
Qed.

Lemma unique_match_spec t l i : unique_match t l = Some i ↔ filter (λ j, TrimSpace t ≠ [] → psLegacyOrderMatchesInstance t j = true) l = [i].
Proof.
  assert (psFilterLegacyOrderProviderInstances t l = filter (λ j, TrimSpace t ≠ [] → psLegacyOrderMatchesInstance t j = true) l) as E.
  { unfold psFilterLegacyOrderProviderInstances. case_bool_decide as Ht.
    - symmetry. apply filter_all_true. intros j _ Hne. by destruct Hne.
    - apply list_filter_iff. intros j. naive_solver. }
  unfold unique_match. rewrite E. destruct (filter _ l) as [|j [|j' l']]; naive_solver.
Qed.

(** ** The resolution finds it *)

Section service.
Context `{Database} `{Numeric} `{TimeZones} `{Decimal} (sv : Service).

(** [calm]: no call fails. *)
Section calls.
Context (calm : Prop).
Definition respects (c : choice (Q := question)) : Prop := calm → ch_fault c = NoFault.
Abbreviation wp := (Interleaving.wp (S := Store) (Q := question) Lost st_now respects).

Lemma m_read {A B} (q : Store → result dberr A) (k : result dberr A → prg B) Q s :
  wp (k (q s)) Q s → ((calm → False) → wp (k (Err Lost)) Q s) → wp (bind (read q) k) Q s.
Proof. intros Hk He c Hc. simpl. destruct (ch_fault c) eqn:Hf; [done|..]; apply He; intros Hq; by rewrite (Hc Hq) in Hf. Qed.

Lemma m_try_read {A B} w (q : Store → result dberr A) (k : A → prg (result perror B)) Q s :
  (∀ a, q s = Ok a → wp (k a) Q s) → (∀ e, (∀ x, q s = Err x → Q (Err e) s)) → ((calm → False) → ∀ e, Q (Err e) s) →
  wp (on_error w (lift (read q)) k) Q s.
Proof. intros Hk He Hf. apply (m_read q); [|intros Hc; by apply Hf]. destruct (q s) as [a|x] eqn:E; [by apply Hk|by eapply He]. Qed.

(** What the resolution answers: the instance, or that there is none. *)
Definition resolved (o : Order) (s : Store) (r : result perror (option ProviderInstance)) (s' : Store) : Prop :=
  s' = s ∧ match r with
           | Ok (Some i) => belongs o i (st_instances s)
           | _ => calm → ∀ i, ¬ belongs o i (st_instances s)
           end.

Lemma snapshot_resolved o snap s : psOrderProviderSnapshot o = Some snap → wp (resolveSnapshotOrderProviderInstance o snap) (resolved o s) s.
Proof.
  intros Hs. unfold resolveSnapshotOrderProviderInstance. fold (column_of o). cbv zeta.
  set (sid := if bool_decide (TrimSpace (ProviderInstanceID snap) = []) then column_of o else TrimSpace (ProviderInstanceID snap)). unfold resolved, belongs. rewrite Hs. fold sid.
  assert (Hno : ∀ i, named sid i (st_instances s) → sid ≠ []) by (intros i [Ha _] E; by rewrite E in Ha).
  case_bool_decide as H1'; [split; [done|]; intros _ i [Hn _]; by apply Hno in Hn|].
  case_match eqn:H2'.
  - split; [done|]. intros _ i (_ & Hm & _).
    apply andb_true_iff in H2' as [[H2'%negb_true_iff%bool_decide_eq_false_1 H3'%negb_true_iff%bool_decide_eq_false_1]%andb_true_iff H4'%negb_true_iff].
    destruct Hm as [?|[?|?]]; congruence.
  - assert (Hm : column_of o = [] ∨ ProviderInstanceID snap = [] ∨ EqualFold (column_of o) (ProviderInstanceID snap) = true).
    { destruct (decide (column_of o = [])) as [?|Hc]; [by left|]. destruct (decide (ProviderInstanceID snap = [])) as [?|Hp]; [by right; left|].
      right; right. rewrite !bool_decide_eq_false_2 in H2' by done. by apply negb_false_iff in H2'. }
    destruct (Atoi sid) as [id|] eqn:Ha; [|split; [done|]; intros _ i [[Hn _] _]; by rewrite Ha in Hn].
    apply m_try_read.
    + intros i Hi. case_match eqn:H3'; (split; [done|]).
      * intros _ j ([id' [Hj Hoj]]%named_only & _ & Hk). rewrite Ha in Hj. injection Hj as <-. unfold instance_by_id in Hi. rewrite Hi in Hoj.
        injection Hoj as <-. apply andb_true_iff in H3' as [Hk1%negb_true_iff%bool_decide_eq_false_1 Hk2%negb_true_iff].
        destruct Hk as [?|Hk]; [done|]. congruence.
      * split; [by eapply only_named|]. split; [done|]. destruct (decide (ProviderKey snap = [])) as [?|Hk]; [by left|right].
        rewrite bool_decide_eq_false_2 in H3' by done. by apply negb_false_iff in H3'.
    + intros e x Hx. split; [done|]. intros _ i ([id' [Hj Hoj]]%named_only & _). rewrite Ha in Hj. injection Hj as <-.
      unfold instance_by_id in Hx. congruence.
    + intros Hc e. split; [done|]. intros ?; by destruct Hc.
Qed.

Lemma legacy_resolved o s : psOrderProviderSnapshot o = None → column_of o = [] → wp (resolveUniqueLegacyOrderProviderInstance o) (resolved o s) s.
Proof.
  intros Hs Hc. unfold resolveUniqueLegacyOrderProviderInstance. cbv zeta.
  set (base := GetBasePaymentType _). set (key := TrimSpace (psStringValue (o_ProviderKey o))).
  assert (Hb : ∀ i, belongs o i (st_instances s) ↔ (key = [] → base ≠ []) ∧
    filter (λ j, (TrimSpace base ≠ [] → psLegacyOrderMatchesInstance base j = true) ∧ (key ≠ [] → pi_ProviderKey j = key)) (st_instances s) = [i]).
  { intros i. unfold belongs. by rewrite Hs, bool_decide_eq_true_2. }
  assert (Hdone : ∀ l, (∀ i, belongs o i (st_instances s) ↔ unique_match base l = Some i) → resolved o s (Ok (unique_match base l)) s).
  { intros l Hl. split; [done|]. destruct (unique_match base l) as [i|] eqn:Hm; [by apply Hl|]. intros _ i Hi%Hl. done. }
  assert (Hlost : (calm → False) → ∀ e, resolved o s (Err e) s) by (intros Hx e; split; [done|]; intros ?; by destruct Hx).
  case_bool_decide as Hk; simpl.
  - case_bool_decide as Hbase.
    + split; [done|]. intros _ i [Hne _]%Hb. by apply Hne.
    + apply m_try_read; [|done|done]. intros l [= <-]. apply Hdone. intros i. rewrite Hb, unique_match_spec.
      rewrite (list_filter_iff _ (λ j, TrimSpace base ≠ [] → psLegacyOrderMatchesInstance base j = true)); [naive_solver|]. intros j. naive_solver.
  - apply m_try_read; [|done|done]. intros l [= <-]. apply Hdone. intros i. rewrite Hb, unique_match_spec, list_filter_filter.
    rewrite (list_filter_iff _ (λ j, (TrimSpace base ≠ [] → psLegacyOrderMatchesInstance base j = true) ∧ pi_ProviderKey j = key)); [naive_solver|].
    intros j. naive_solver.
Qed.

Lemma getOrderProviderInstance_resolved o s : wp (getOrderProviderInstance o) (resolved o s) s.
Proof.
  unfold getOrderProviderInstance. destruct (psOrderProviderSnapshot o) as [snap|] eqn:Hs; [by apply snapshot_resolved|].
  fold (column_of o). cbv zeta. case_bool_decide as Hc; [by apply legacy_resolved|].
  assert (Hb : ∀ i, belongs o i (st_instances s) ↔ named (column_of o) i (st_instances s)).
  { intros i. unfold belongs. by rewrite Hs, bool_decide_eq_false_2. }
  unfold resolved. destruct (Atoi (column_of o)) as [id|] eqn:Ha; [|split; [done|]; intros _ i [Hn _]%Hb; congruence].
  apply m_try_read.
  - intros i Hi. split; [done|]. apply Hb. by eapply only_named.
  - intros e x Hx. split; [done|]. intros _ i [id' [Hj Hoj]]%Hb%named_only. rewrite Ha in Hj. injection Hj as <-.
    unfold instance_by_id in Hx. congruence.
  - intros Hf e. split; [done|]. intros ?; by destruct Hf.
Qed.

(** The key that the order's instance gives, or none when there is no such instance,
    or a call failed. *)
Definition key_of_instance (o : Order) (k : bytes) (l : list ProviderInstance) : Prop :=
  (∃ i, belongs o i l ∧ k = pi_ProviderKey i) ∨ (k = [] ∧ (calm → ∀ i, ¬ belongs o i l)).

Lemma resolved_key o s r s' : resolved o s r s' → key_of_instance o (instance_key r) (st_instances s).
Proof. intros [_ Hr]. destruct r as [[i|]|e]; [left; by exists i|by right..]. Qed.

Lemma reject_wp oid action pk e s (Q : result perror unit → Store → Prop) :
  (∀ s', untouched s s' → Q (Err e) s') →
  wp (let! _ := writeAuditLog oid action pk in Ret (Err e)) Q s.
Proof.
  intros HQ c _. simpl. unfold insert_audit. destruct (ch_fault c), (has_audit oid [action] s); simpl; by apply HQ.
Qed.

Lemma anything_wp {A} (p : prg A) Q : (∀ a s', Q a s') → ∀ s, wp p Q s.
Proof. apply wp_anything. Qed.

(** The payment is the order's. *)
Definition genuine (o : Order) (k pk : bytes) (m : gmap bytes bytes) (paid : float64) : Prop :=
  provider_agrees (sv_registry sv) o k pk ∧ merchant_agrees o pk m ∧ amount_agrees o paid.

End calls.

(** C8: a notification that is not about the order changes nothing and is answered with
    an error: a run of [confirmPayment], whatever its calls report, changes orders,
    codes, subscriptions or the journal only if the order exists; the notifying
    provider is the one of the instance that the order names - by the identifier and
    the key recorded with it, by its column, or as the only candidate for its payment
    type - or, when there is no such instance or a call failed, the one recorded or
    registered for it; the merchant, currency and status that the provider reports
    agree with what the order recorded; and the amount is finite, positive and within
    the currency's tolerance.  Otherwise it returns an error, or there is no such
    order, or it could not be read. *)
Theorem only_matching_payment_confirmed oid tradeNo paid pk m ch s :
  let '(r, s') := run Lost st_now (confirmPayment sv oid tradeNo paid pk m) ch s in
  (∃ o k, st_orders s !! oid = Some o ∧ key_of_instance (∀ n, ch_fault (ch n) = NoFault) o k (st_instances s) ∧ genuine o k pk m paid) ∨
  (untouched s s' ∧ (r = Ok tt → st_orders s !! oid = None ∨ ch_fault (ch O) ≠ NoFault)).
Proof.
  set (calm := ∀ n, ch_fault (ch n) = NoFault). unfold confirmPayment. rewrite run_read.
  destruct (ch_fault (ch O)) eqn:Hf; simpl; [|right; split; [done|]; by right|right; split; [done|]; by right].
  unfold get_order. destruct (st_orders s !! oid) as [o|] eqn:Ho; simpl; [|right; split; [done|]; by left].
  match goal with |- let '(_, _) := run _ _ ?p ?ch' s in _ =>
    assert (Hwp : Interleaving.wp Lost st_now (respects calm) p (λ r s',
      (∃ k, key_of_instance calm o k (st_instances s) ∧ genuine o k pk m paid) ∨ (untouched s s' ∧ ∃ e, r = Err e)) s);
    [|pose proof (wp_run Lost st_now (respects calm) p _ s ch' (λ n Hc, Hc (S n)) Hwp) as Hrun; destruct (run Lost st_now p ch' s) as [r s']] end.
  - apply wp_bind. eapply wp_mono; [apply getOrderProviderInstance_resolved|]. intros inst s1 Hr. pose proof (proj1 Hr) as ->.
    apply resolved_key in Hr. revert Hr. generalize (instance_key inst). intros k Hk.
    case_match eqn:H1'; [apply reject_wp; by eauto|]. case_match eqn:H2'; [apply reject_wp; by eauto|].
    case_match eqn:H3'; [apply reject_wp; by eauto|]. case_match eqn:H4'; [apply reject_wp; by eauto|].
    apply negb_false_iff in H2', H3'. apply anything_wp. intros r s'. left. exists k. split; [done|].
    split_and!; [by apply provider_agrees_ok|by apply merchant_agrees_ok|by apply amount_agrees_ok].
  - simpl in Hrun. destruct Hrun as [(k & Hk & Hm)|[Hu [e ->]]]; [left; by exists o, k|right; by split].
Qed.

End service.
End folding.
End PaymentMatching.
