(* ===== verification/PaymentLiveness.v ===== *)
(** * A paid order can always be completed

    Whatever happened before - workers that died holding the lease or the redeem
    lock, calls that took effect unnoticed, accruals rolled back - once the lease
    has gone stale, one administrator's retry whose calls succeed completes a paid
    balance order. *)

From S2P Require Import Prelude Float64 GoStrings PaymentOrder Subscription Database Interleaving PaymentStore Redeem Payment Refund PaymentInvariant PaymentSafety PaymentSystem PaymentTheorems.

Module PaymentLiveness.
Import GoStrings PaymentOrder PaymentStore Redeem Payment Refund PaymentInvariant PaymentSafety PaymentSystem PaymentTheorems.

(** ** Looking a code up *)

Lemma rows_delete {A} (m : gmap Z A) id a : m !! id = Some a → rows m ≡ₚ a :: rows (delete id m).
Proof. intros Hid. unfold rows. by rewrite <- (map_to_list_delete m id a Hid). Qed.

Lemma code_by_code_found strict s id c :
  inv strict s → st_codes s !! id = Some c → code_by_code (rc_Code c) s = Ok c.
Proof.
  intros Hinv Hc. unfold code_by_code.
  assert (Hp : filter (λ r, rc_Code r = rc_Code c) (rows (st_codes s)) ≡ₚ [c]).
  { rewrite (rows_delete _ _ _ Hc), filter_cons_True by done. rewrite filter_all_false; [done|].
    intros r [i Hi]%rows_elem Heq. apply lookup_delete_Some in Hi as [Hne Hi]. apply Hne. by eapply inv_code_unique. }
  apply Permutation_singleton_r in Hp as ->. done.
Qed.

Lemma code_by_code_none s code :
  (∀ id c, st_codes s !! id = Some c → rc_Code c ≠ code) → code_by_code code s = Err NotFound.
Proof.
  intros Hno. unfold code_by_code. rewrite filter_all_false; [done|]. intros r [i Hi]%rows_elem. by eapply Hno.
Qed.

(** Either some row has the code or none has. *)
Lemma code_dec s code :
  (∃ id c, st_codes s !! id = Some c ∧ rc_Code c = code) ∨ (∀ id c, st_codes s !! id = Some c → rc_Code c ≠ code).
Proof.
  destruct (decide (Exists (λ r, rc_Code r = code) (rows (st_codes s)))) as [Hex|Hno].
  - apply Exists_exists in Hex as (c & [id Hid]%rows_elem & Hc). left. by exists id, c.
  - right. intros id c Hc Heq. apply Hno, Exists_exists. exists c. split; [apply rows_elem; by exists id|done].
Qed.

Section liveness.
Context `{Database} `{Numeric} `{TimeZones} `{UnicodeFold} `{Decimal} `{RefundDecimal} (sv : Service).

(** The calls succeed; the affiliate sum can be computed. *)
Definition answered (c : choice) : Prop :=
  ch_fault c = NoFault ∧ ∀ a b, ∃ x, ch_answer c _ (QAccrued a b) = Ok x.

Abbreviation wp := (Interleaving.wp Lost st_now answered).

(** ** Rules *)

Lemma w_read {A B} (q : Store → result dberr A) (k : result dberr A → prg B) Q s :
  wp (k (q s)) Q s → wp (bind (read q) k) Q s.
Proof. intros Hk c [Hc _]. simpl. by rewrite Hc. Qed.

Lemma w_write {A B} (w : Store → result dberr A * Store) (k : result dberr A → prg B) Q s :
  wp (k (fst (w s))) Q (snd (w s)) → wp (bind (write w) k) Q s.
Proof. intros Hk c [Hc _]. simpl. rewrite Hc. by destruct (w s). Qed.

Lemma w_clock {B} (k : time → prg B) Q s : wp (k (st_now s)) Q s → wp (bind clock k) Q s.
Proof. intros Hk c _. done. Qed.

Lemma w_ask {A B} (q : question A) (k : A → prg B) Q s : (∀ x, wp (k x) Q s) → wp (bind (ask q) k) Q s.
Proof. intros Hk c _. apply Hk. Qed.

Lemma w_bind {A B} (p : prg A) (k : A → prg B) P Q s :
  wp p P s → (∀ a s', P a s' → wp (k a) Q s') → wp (bind p k) Q s.
Proof. intros Hp Hk. apply wp_bind. by eapply wp_mono. Qed.

(** The part returns a value satisfying [P], and no error. *)
Definition returns {A} (P : A → Store → Prop) (r : result perror A) (s : Store) : Prop :=
  match r with Ok a => P a s | Err _ => False end.

Lemma w_try {A B} w (p : prg (result perror A)) (k : A → prg (result perror B)) P Q s :
  wp p (returns P) s → (∀ a s', P a s' → wp (k a) Q s') → wp (on_error w p k) Q s.
Proof. intros Hp Hk. eapply w_bind; [exact Hp|]. intros [a|e] s' HP; [by apply Hk|done]. Qed.

Lemma w_try_read {A B} w (q : Store → result dberr A) (k : A → prg (result perror B)) Q s a :
  q s = Ok a → wp (k a) Q s → wp (on_error w (lift (read q)) k) Q s.
Proof. intros Hq Hk. apply (w_read q). by rewrite Hq. Qed.

Lemma w_try_write {A B} w (q : Store → result dberr A * Store) (k : A → prg (result perror B)) Q s a s' :
  q s = (Ok a, s') → wp (k a) Q s' → wp (on_error w (lift (write q)) k) Q s.
Proof. intros Hq Hk. apply (w_write q). by rewrite Hq. Qed.

(** ** What the parts leave alone *)

(** The tables fulfilment depends on, apart from the order's row. *)
Record calm (s s' : Store) : Prop := {
  cm_now : st_now s' = st_now s;
  cm_codes : st_codes s' = st_codes s;
  cm_users : st_users s' = st_users s;
  cm_locks : st_locks s' = st_locks s
}.
#[local] Hint Constructors calm : core.

Lemma calm_refl s : calm s s.
Proof. by split. Qed.
Lemma calm_trans s1 s2 s3 : calm s1 s2 → calm s2 s3 → calm s1 s3.
Proof. intros [] []. split; congruence. Qed.

Lemma w_audit {A} oid a op (k : unit → prg A) Q s :
  (∀ s', calm s s' → st_orders s' = st_orders s → wp (k tt) Q s') →
  wp (bind (writeAuditLog oid a op) k) Q s.
Proof.
  intros Hk. apply (w_write (insert_audit oid a op)). apply Hk; unfold insert_audit; by destruct (has_audit _ _ s).
Qed.

Lemma acquire_wp oid o s :
  st_orders s !! oid = Some o → lease_guard (truncate_us (st_now s) - paymentFulfillmentLeaseDuration) o = true →
  wp (acquirePaymentFulfillmentLease oid)
    (returns (λ lease s', ∃ o', lease = Some (o_UpdatedAt o') ∧ st_orders s' !! oid = Some o' ∧
                          o_Status o' = OrderStatusRecharging ∧ core_of o' = core_of o ∧ calm s s')) s.
Proof.
  intros Ho Hg. unfold acquirePaymentFulfillmentLease. apply w_clock. cbv zeta.
  eapply w_try_write; [unfold update_order_at; by rewrite Ho, Hg|]. simpl (_ =? _).
  eapply w_try_read; [unfold get_order; simpl; by rewrite lookup_insert_eq|].
  rewrite bool_decide_eq_true_2 by done. 
  eexists (touch _ _). split; [reflexivity|]. simpl. rewrite lookup_insert_eq. by split_and!.
Qed.

Lemma markCompleted_wp o x a s :
  st_orders s !! o_ID o = Some x → o_Status x = OrderStatusRecharging →
  wp (markCompleted o (o_UpdatedAt x) a)
    (returns (λ _ s', ∃ o', st_orders s' !! o_ID o = Some o' ∧ o_Status o' = OrderStatusCompleted)) s.
Proof.
  intros Hx Hst. unfold markCompleted. apply w_clock.
  assert (Hg : holds_lease (o_UpdatedAt x) x = true).
  { unfold holds_lease, status_is. rewrite Hst. simpl. apply Z.eqb_refl. }
  eapply w_try_write; [unfold update_order, update_order_at; by rewrite Hx, Hg|]. simpl (_ =? _).
  assert (Hdone : ∀ s' o', st_orders s' = <[o_ID o := o']> (st_orders s) → o_Status o' = OrderStatusCompleted →
    ∃ o', st_orders s' !! o_ID o = Some o' ∧ o_Status o' = OrderStatusCompleted).
  { intros s' o' -> Hc. exists o'. by rewrite lookup_insert_eq. }
  apply (w_read (has_audit_q (o_ID o) [a])). unfold has_audit_q. destruct (has_audit _ _ _); [by eapply Hdone|].
  apply w_audit. intros s' _ Hs'. apply (w_write (send_notification (o_ID o) a)).
  eapply Hdone; [exact Hs'|done].
Qed.

(** ** The rebate *)

Definition accrual (st : stmt) : Prop :=
  match st with SEnsureAffiliate _ | SAccrue _ _ _ _ _ => True | _ => False end.

Lemma ensure_wp uid s :
  0 < uid → wp (EnsureUserAffiliate true uid) (returns (λ x s', Forall accrual (snd x) ∧ s' = s)) s.
Proof.
  intros Hu. unfold EnsureUserAffiliate. rewrite (proj2 (Z.leb_gt _ _)) by done.
  eapply w_try_read; [done|]. destruct (st_affiliates s !! uid) as [a|] eqn:Ha; [by split|].
  simpl. intros c [Hc _]. simpl. rewrite Hc. unfold get_affiliate. rewrite Ha. simpl. intros c' _.
  split; [by repeat constructor|done].
Qed.

Lemma accrue_wp c invitee base s :
  wp (AccrueInviteRebateForOrder true c invitee base) (returns (λ x s', Forall accrual (snd x) ∧ s' = s)) s.
Proof.
  unfold AccrueInviteRebateForOrder. case_match eqn:Hinv; [by split|].
  apply orb_false_iff in Hinv as [[[Hi _]%orb_false_iff _]%orb_false_iff _]. apply Z.leb_gt in Hi.
  apply w_ask. intros st. case_match; [by split|].
  eapply w_try; [by apply ensure_wp|]. intros [a ws1] s1 [Hws1 ->]. simpl in Hws1.
  destruct (af_InviterID a) as [inviter|]; [|by split]. case_match eqn:Hr; [by split|]. apply Z.leb_gt in Hr.
  eapply w_try; [by apply ensure_wp|]. intros [b ws2] s2 [Hws2 ->]. simpl in Hws2.
  assert (Hws : Forall accrual (ws1 ++ ws2)) by (by apply Forall_app).
  apply w_ask. intros st'. apply w_clock. case_match; [by split|].
  eapply (w_bind _ _ (λ _ s', s' = s)); [unfold resolveRebateRatePercent; repeat case_match; by try (intros ? ?)|].
  intros rate s3 ->. cbv zeta. case_match; [by split|]. apply w_ask. intros st3.
  eapply (w_try _ _ _ (λ _ s', s' = s)).
  { case_match; [|done]. intros ch [_ Hans]. simpl. destruct (Hans inviter invitee) as [x ->]. simpl. by case_match. }
  intros [rebate|] s4 ->; [|by split]. apply w_ask. intros st4. case_match; [by split|].
  split; [|done]. simpl. rewrite app_assoc. apply Forall_app. by repeat constructor.
Qed.

Lemma accrual_exec ws : Forall accrual ws → ∀ s, ∃ s', exec_stmts ws s = Ok s' ∧
  st_audits s' = st_audits s ∧ st_orders s' = st_orders s.
Proof.
  induction 1 as [|st ws Hst _ IH]; intros s; [by exists s|]. simpl.
  assert (∃ s1, exec_stmt st s = Ok s1 ∧ st_audits s1 = st_audits s ∧ st_orders s1 = st_orders s) as (s1 & -> & E1 & E2).
  { destruct st; try done; simpl; case_match; eexists; split; done. }
  destruct (IH s1) as (s' & -> & ? & ?). exists s'. split_and!; congruence.
Qed.

Lemma rebate_wp o s :
  wp (applyAffiliateRebateForOrder sv o) (returns (λ _ s', st_orders s' = st_orders s)) s.
Proof.
  unfold applyAffiliateRebateForOrder. cbv zeta. case_match; [done|]. case_match; [done|].
  apply (w_read (has_audit_q _ _)). simpl. case_match eqn:Hno; [done|].
  assert (Hnot : ∀ a, a ∈ [REBATE_APPLIED; REBATE_SKIPPED] → has_audit (o_ID o) [a] s = false).
  { intros a Ha. apply not_true_iff_false. intros (x & Hx & Hi & Hl)%has_audit_iff.
    apply not_true_iff_false in Hno. apply Hno, has_audit_iff. exists x. apply list_elem_of_singleton in Hl as ->. done. }
  eapply w_bind; [apply accrue_wp|]. intros [[amount ws]|e] s1; [|done]. intros [Hws ->]. simpl in Hws.
  apply (w_write (transaction _)). unfold transaction. simpl.
  rewrite (Hnot REBATE_APPLIED) by by left.
  set (s1 := with_audits _ s). destruct (accrual_exec ws Hws s1) as (s2 & E2 & Ea & Eo).
  assert (∃ s3, exec_stmts (ws ++ (if Float.le amount Float.zero then [SSkipRebate (o_ID o)] else [])) s1 = Ok s3
                ∧ st_orders s3 = st_orders s) as (s3 & -> & Eo3); [|done].
  assert (Happ : ∀ l1 l2 s s', exec_stmts l1 s = Ok s' → exec_stmts (l1 ++ l2) s = exec_stmts l2 s').
  { clear. induction l1 as [|st l1 IH]; intros l2 s s' Hex; simpl in *; [by injection Hex as ->|].
    destruct (exec_stmt st s); [by apply IH|done]. }
  rewrite (Happ _ _ _ _ E2). case_match; [|by exists s2]. simpl.
  assert (has_audit (o_ID o) [REBATE_SKIPPED] s2 = false) as ->; [|by eexists].
  unfold has_audit. rewrite Ea. specialize (Hnot REBATE_SKIPPED ltac:(by right; left)).
  unfold has_audit in Hnot. simpl. rewrite Hnot. by rewrite andb_false_r.
Qed.

(** ** Redeeming *)

(** A code that can be redeemed now. *)
Definition redeemable (c : RedeemCode) : Prop :=
  rc_Type c = RedeemTypeBalance ∧ rc_Status c = StatusUnused ∧ rc_ExpiresAt c = None.

Lemma redeemable_not_expired c now : redeemable c → IsExpiredAt c now = false.
Proof. unfold IsExpiredAt. by intros (_ & -> & ->). Qed.

Lemma redeem_locked_wp uid c s :
  inv True s → st_codes s !! rc_ID c = Some c → redeemable c → uid ∈ st_users s →
  wp (redeem_locked sv false true uid (rc_Code c)) (returns (λ _ s', st_orders s' = st_orders s)) s.
Proof.
  intros Hinv Hc Hr Hu. unfold redeem_locked. apply (w_read (code_by_code _)).
  rewrite (code_by_code_found True s _ c Hinv Hc). apply w_clock. rewrite redeemable_not_expired by done.
  apply w_clock. rewrite redeemable_not_expired by done. destruct Hr as (Ht & Hst & _). rewrite Ht, Hst.
  change (negb (bool_decide (StatusUnused = StatusUnused)) || false) with false. cbv iota.
  change (negb (bool_decide (RedeemTypeBalance ∈ [RedeemTypeBalance; RedeemTypeConcurrency; RedeemTypeSubscription])))
    with false. cbv iota.
  change (bool_decide (RedeemTypeBalance = RedeemTypeSubscription) && bool_decide (rc_GroupID c = None)) with false.
  cbv iota.
  eapply w_try_read; [unfold get_user; by rewrite bool_decide_eq_true_2|].
  eapply w_try_read; [unfold use_guard; by rewrite Hc, Hst|].
  eapply (w_try _ _ _ (λ ws s', ws = [SGrant (DueCode (rc_ID c)) (balance_credit uid (rc_Value c))] ∧ s' = s)).
  { unfold entitle. by rewrite Ht. }
  intros ws s1 [-> ->]. eapply w_try_write.
  { unfold transaction. simpl. rewrite Hc, bool_decide_eq_true_2 by done. simpl.
    rewrite bool_decide_eq_true_2; [done|]. unfold balance_credit. by case_match. }
  eapply (w_bind _ _ (λ _ s', s' = _)); [by case_match|]. intros _ s1 ->.
  apply (w_read (code_by_id _)). unfold code_by_id. simpl. by rewrite lookup_insert_eq.
Qed.

Lemma redeem_wp uid c s :
  inv True s → st_codes s !! rc_ID c = Some c → redeemable c → uid ∈ st_users s →
  (∀ e, st_locks s !! redeemLockKey (rc_Code c) = Some e → e ≤ st_now s) →
  wp (redeemForPaymentFulfillment sv uid (rc_Code c)) (returns (λ _ s', st_orders s' = st_orders s)) s.
Proof.
  intros Hinv Hc Hr Hu Hlock. unfold redeemForPaymentFulfillment, redeem.
  eapply (w_try _ _ _ (λ _ s', s' = s)); [done|]. intros [] s1 ->.
  eapply (w_bind _ _ (λ b s', b = true ∧ inv True s' ∧ st_codes s' = st_codes s ∧ st_users s' = st_users s ∧
                              st_orders s' = st_orders s)).
  { unfold acquireRedeemLock. case_match; [done|]. apply (w_write (set_nx _ _)).
    split; [|split; [by apply set_nx_ok|]]; unfold set_nx; destruct (st_locks s !! _) as [e|]; try done;
      specialize (Hlock e eq_refl); by rewrite (proj2 (Z.ltb_ge _ _)). }
  intros b s1 (-> & Hinv1 & E1 & E2 & E3). simpl (negb _).
  eapply w_bind; [by apply redeem_locked_wp; rewrite ?E1, ?E2|]. intros r s2 Hr2.
  eapply (w_bind _ _ (λ _ s', st_orders s' = st_orders s2)).
  { unfold releaseRedeemLock. case_match; [done|]. by apply (w_write (del_key _)). }
  intros _ s3 E. destruct r; simpl in *; [congruence|done].
Qed.

(** ** A balance order *)

Lemma complete_balance_wp o x s :
  st_orders s !! o_ID o = Some x → o_Status x = OrderStatusRecharging →
  wp (try _ := applyAffiliateRebateForOrder sv o wrap id in markCompleted o (o_UpdatedAt x) "RECHARGE_SUCCESS")
    (returns (λ _ s', ∃ o', st_orders s' !! o_ID o = Some o' ∧ o_Status o' = OrderStatusCompleted)) s.
Proof.
  intros Hx Hst. eapply w_try; [apply rebate_wp|]. intros [] s1 E. apply markCompleted_wp; [by rewrite E|done].
Qed.

Lemma redeem_and_complete_wp o x c s :
  inv True s → st_orders s !! o_ID o = Some x → o_Status x = OrderStatusRecharging →
  st_codes s !! rc_ID c = Some c → rc_Code c = o_RechargeCode o → redeemable c → o_UserID o ∈ st_users s →
  (∀ e, st_locks s !! redeemLockKey (o_RechargeCode o) = Some e → e ≤ st_now s) →
  wp (try _ := redeemForPaymentFulfillment sv (o_UserID o) (o_RechargeCode o) wrap EWrap "redeem balance" in
      try _ := applyAffiliateRebateForOrder sv o wrap id in markCompleted o (o_UpdatedAt x) "RECHARGE_SUCCESS")
    (returns (λ _ s', ∃ o', st_orders s' !! o_ID o = Some o' ∧ o_Status o' = OrderStatusCompleted)) s.
Proof.
  intros Hinv Hx Hst Hc <- Hr Hu Hlock. eapply w_try; [by apply redeem_wp|]. intros rc s1 E.
  apply complete_balance_wp; [by rewrite E|done].
Qed.

(** The order's own code passes the checks made on it. *)
Lemma own_code_valid o x c : core_of x = core_of o → own_code x c → rc_Code c = o_RechargeCode o →
  validatePaymentRedeemCode o c = None.
Proof.
  intros Hc (Ht & Hv & _ & Hst) Hcode. rewrite (value_ok_core _ _ _ Hc) in Hv. unfold validatePaymentRedeemCode.
  rewrite !bool_decide_eq_true_2 by done. unfold value_ok in Hv. apply negb_true_iff in Hv. rewrite Hv. simpl.
  pose proof (core_fields _ _ Hc) as (_ & <- & _).
  destruct Hst as [[-> ->]|[-> ->]]; [done|]. simpl. by rewrite bool_decide_eq_true_2.
Qed.

Lemma create_payment_code_wp o s :
  well_formed o → (∀ id c, st_codes s !! id = Some c → rc_Code c ≠ o_RechargeCode o) →
  wp (CreateCode (payment_code o))
    (returns (λ _ s', st_orders s' = st_orders s ∧ st_users s' = st_users s ∧ st_locks s' = st_locks s ∧
       st_now s' = st_now s ∧
       ∃ c, st_codes s' !! rc_ID c = Some c ∧ rc_Code c = o_RechargeCode o ∧ redeemable c)) s.
Proof.
  intros (Htrim & Hne & Hfin & Hpos) Hno. unfold CreateCode. cbv zeta. simpl (rc_Code _). rewrite Htrim.
  rewrite bool_decide_eq_false_2 by done.
  assert (Float.eq (rc_Value (payment_code o)) Float.zero = false) as ->.
  { simpl. revert Hpos. unfold Float.lt, Float.eq. by destruct (o_Amount o) as [[]|[]| |[] ? ?]. }
  rewrite andb_false_r. apply w_clock.
  match goal with |- context [IsExpiredAt ?rc _] => change (IsExpiredAt rc (st_now s)) with false end. cbv iota.
  eapply w_try_write.
  { unfold create_code. destruct (existsb _ _) eqn:Hex; [|reflexivity]. exfalso.
    apply existsb_exists in Hex as (r & Hr%list_elem_of_In & Heq%bool_decide_eq_true_1).
    apply rows_elem in Hr as [i Hi]. by apply (Hno i r Hi). }
  simpl. split_and!; [done..|]. exists (mkCode (st_next_code s) (o_RechargeCode o) RedeemTypeBalance (o_Amount o)
    StatusUnused None None None None 0). simpl. by rewrite lookup_insert_eq.
Qed.

Lemma doBalance_wp o x s :
  inv True s → st_orders s !! o_ID o = Some x → o_Status x = OrderStatusRecharging → core_of x = core_of o →
  o_OrderType o = OrderTypeBalance → o_UserID o ∈ st_users s →
  (∀ e, st_locks s !! redeemLockKey (o_RechargeCode o) = Some e → e ≤ st_now s) →
  wp (doBalance sv o (o_UpdatedAt x))
    (returns (λ _ s', ∃ o', st_orders s' !! o_ID o = Some o' ∧ o_Status o' = OrderStatusCompleted)) s.
Proof.
  intros Hinv Hx Hst Hcore Ht Hu Hlock. unfold doBalance, GetByCode. cbv zeta. apply (w_read (code_by_code _)).
  pose proof (core_fields _ _ Hcore) as (_ & _ & _ & Er & _ & Et & _).
  assert (Hf : funded_row (o_ID o) s) by (exists x; rewrite Hst; split; [done|by right; left]).
  assert (Hk : known o s) by by exists x.
  destruct (code_dec s (o_RechargeCode o)) as [(id & c & Hc & Hcode)|Hno].
  - assert (own_code x c) as Hown by (eapply (inv_own _ _ Hinv I); [done|congruence|done|congruence]).
    rewrite <- Hcode, (code_by_code_found True s id c Hinv Hc), Hcode. simpl.
    rewrite (own_code_valid o x c) by done. unfold IsUsed. case_bool_decide as Hused.
    + by apply complete_balance_wp.
    + destruct Hown as (Hty & _ & He & [[Hun _]|[Hu' _]]); [|done].
      destruct (inv_code_id _ _ Hinv id c Hc) as [<- _]. by apply (redeem_and_complete_wp o x c).
  - rewrite (code_by_code_none s _ Hno). simpl. eapply w_bind.
    { eapply (wp_safe Lost st_now (inv True) later); [done|by apply create_payment_code_safe|].
      apply create_payment_code_wp; [by eapply known_formed|done]. }
    intros [[]|e] s1 (Hr & _ & Hinv1 & _); [|done].
    destruct Hr as (E1 & E2 & E3 & E4 & c & Hc & Hcode & Hr).
    apply (redeem_and_complete_wp o x c); [done|by rewrite E1|done|done|done|done|by rewrite E2|].
    rewrite E3, E4. exact Hlock.
Qed.

(** ** The retry *)

Lemma fulfillable_funded st : st ∈ fulfillable → st ∈ funded.
Proof. unfold fulfillable, funded. set_solver. Qed.

Lemma stale_guard o staleBefore :
  o_Status o ∈ fulfillable → o_UpdatedAt o ≤ staleBefore → lease_guard staleBefore o = true.
Proof.
  intros Hst Hv. unfold lease_guard, status_is. apply Z.leb_le in Hv. rewrite Hv.
  unfold fulfillable in Hst. repeat (apply elem_of_cons in Hst as [->|Hst]); [done..|by apply not_elem_of_nil in Hst].
Qed.

(** The order can be taken up: balance, paid, its lease free or stale, its user
    there, the lock on its code free. *)
Record resumable (oid : Z) (o : Order) (s : Store) : Prop := {
  rs_row : st_orders s !! oid = Some o;
  rs_type : o_OrderType o = OrderTypeBalance;
  rs_status : o_Status o ∈ fulfillable;
  rs_lease : lease_guard (truncate_us (st_now s) - paymentFulfillmentLeaseDuration) o = true;
  rs_user : o_UserID o ∈ st_users s;
  rs_lock : ∀ e, st_locks s !! redeemLockKey (o_RechargeCode o) = Some e → e ≤ st_now s
}.

Definition completes (oid : Z) (r : result perror unit) (s : Store) : Prop :=
  returns (λ _ s', ∃ o', st_orders s' !! oid = Some o' ∧ o_Status o' = OrderStatusCompleted) r s.

Lemma not_refund st : st ∈ fulfillable → psIsRefundStatus st = false ∧ st ≠ OrderStatusCompleted.
Proof.
  unfold fulfillable. intros Hst.
  repeat (apply elem_of_cons in Hst as [->|Hst]); [by split..|by apply not_elem_of_nil in Hst].
Qed.

Lemma ExecuteBalanceFulfillment_wp oid o s :
  inv True s → resumable oid o s → wp (ExecuteBalanceFulfillment sv oid) (completes oid) s.
Proof.
  intros Hinv [Ho Ht Hst Hv Hu Hlock]. unfold ExecuteBalanceFulfillment.
  destruct (inv_order _ _ Hinv oid o Ho) as (Hid & _). destruct (not_refund _ Hst) as [Hnr Hnc].
  eapply w_try_read; [unfold get_order; by rewrite Ho|]. rewrite (bool_decide_eq_true_2 _ Ht), Hnr.
  rewrite (bool_decide_eq_false_2 _ Hnc). unfold status_is at 1. rewrite (bool_decide_eq_true_2 _ Hst). simpl (negb true).
  cbv iota. unfold with_lease. rewrite Hid. eapply w_bind.
  { eapply (wp_safe Lost st_now (inv True) later); [done|by apply acquire_safe|].
    by apply acquire_wp. }
  intros [lease|e] s1 (Hr & _ & Hinv1 & _); [|done]. destruct Hr as (x & -> & Hx & Hxs & Hc & [E1 _ E3 E4]).
  eapply w_bind; [apply doBalance_wp; [done|by rewrite Hid|done|done|done|by rewrite E3|by rewrite E4, E1]|].
  rewrite Hid. by intros [[]|e] s2 Hdone.
Qed.

Lemma calm_resumable oid o s s' :
  calm s s' → st_orders s' = st_orders s → resumable oid o s → resumable oid o s'.
Proof. intros [E1 E2 E3 E4] E [? ? ? ? ? ?]. split; rewrite ?E1, ?E3, ?E4, ?E; done. Qed.

Lemma executeFulfillment_wp oid o s :
  inv True s → resumable oid o s → wp (executeFulfillment sv oid) (completes oid) s.
Proof.
  intros Hinv Hr. pose proof Hr as [Ho Ht _ _ _ _].
  unfold executeFulfillment. eapply w_try_read; [unfold get_order; by rewrite Ho|]. rewrite Ht.
  change (wp (ExecuteBalanceFulfillment sv oid) (completes oid) s). by eapply ExecuteBalanceFulfillment_wp.
Qed.

Lemma w_audit_inv {A} oid a op (k : unit → prg A) Q s :
  inv True s → (∀ s', calm s s' → st_orders s' = st_orders s → inv True s' → wp (k tt) Q s') →
  wp (bind (writeAuditLog oid a op) k) Q s.
Proof.
  intros Hinv Hk. apply (w_write (insert_audit oid a op)). destruct (insert_audit_ok oid a op s Hinv) as [Hinv' _].
  apply Hk; [| |done]; unfold insert_audit; by destruct (has_audit _ _ s).
Qed.

Lemma RetryFulfillment_wp oid o s :
  inv True s → resumable oid o s → wp (RetryFulfillment sv oid) (completes oid) s.
Proof.
  intros Hinv Hr. pose proof Hr as [Ho Ht Hst _ _ _]. destruct (not_refund _ Hst) as [Hnr Hnc].
  destruct (inv_order _ _ Hinv oid o Ho) as (_ & _ & Hpaid & _).
  destruct (Hpaid (fulfillable_funded _ Hst)) as [t Hp].
  unfold RetryFulfillment. eapply w_try_read; [unfold get_order; by rewrite Ho|].
  rewrite Hp, Hnr, (bool_decide_eq_false_2 _ Hnc). unfold status_is at 1. rewrite (bool_decide_eq_true_2 _ Hst), Ht.
  change (wp (let! _ := writeAuditLog oid "RECHARGE_RETRY" (lit "admin") in executeFulfillment sv oid) (completes oid) s).
  apply w_audit_inv; [done|]. intros s1 Hcalm Eo Hinv1. eapply executeFulfillment_wp; [done|by eapply calm_resumable].
Qed.

(** ** The notification *)

Lemma toPaid_wp o tradeNo paid pk s :
  inv True s → st_orders s !! o_ID o = Some o → o_OrderType o = OrderTypeBalance → o_UserID o ∈ st_users s →
  payable (st_now s - paymentGraceMinutes * minute) o = true →
  (∀ e, st_locks s !! redeemLockKey (o_RechargeCode o) = Some e → e ≤ st_now s) →
  wp (toPaid sv o tradeNo paid pk) (completes (o_ID o)) s.
Proof.
  intros Hinv Ho Ht Hu Hp Hlock. unfold toPaid. cbv zeta. apply w_clock.
  set (paid_row := λ o, set_times (Some (st_now s)) (o_CompletedAt o) None (set_trade paid tradeNo (set_status OrderStatusPaid o))).
  assert (Hup : update_order (o_ID o) (payable (st_now s - paymentGraceMinutes * minute)) paid_row s =
                (Ok 1, with_orders (insert (o_ID o) (touch (st_now s) (paid_row o))) s)).
  { unfold update_order, update_order_at. by rewrite Ho, Hp. }
  destruct (update_order_at_ok (strict := True) (o_ID o) (payable (st_now s - paymentGraceMinutes * minute)) paid_row st_now s)
    as [Hinv1 _]; [done|done|intros x _ Hx; by eapply payable_change|].
  unfold update_order in Hup. rewrite Hup in Hinv1. simpl in Hinv1.
  eapply w_try_write; [exact Hup|]. simpl (_ =? _). cbv iota.
  assert (Hr : resumable (o_ID o) (touch (st_now s) (paid_row o)) (snd (Ok 1 : result dberr Z, with_orders (insert (o_ID o) (touch (st_now s) (paid_row o))) s))).
  { split; simpl; [by rewrite lookup_insert_eq|done|by left| |done|done]. done. }
  simpl in Hr. set (s1 := with_orders _ s) in *.
  eapply (w_bind _ _ (λ _ s', inv True s' ∧ resumable (o_ID o) (touch (st_now s) (paid_row o)) s')).
  { case_match; [|done]. apply (w_audit_inv _ _ _ (λ _, Ret tt)); [done|].
    intros s2 Hc Eo Hi. split; [done|by eapply calm_resumable]. }
  intros _ s2 [Hinv2 Hr2]. apply w_audit_inv; [done|]. intros s3 Hc Eo Hi.
  eapply executeFulfillment_wp; [done|by eapply calm_resumable].
Qed.

(** The instance found for an order, when no call fails. *)
Lemma getOrderProviderInstance_wp o ch s :
  (∀ i, ch_fault (ch i) = NoFault) →
  wp (getOrderProviderInstance o) (λ r s', s' = s ∧ r = fst (run Lost st_now (getOrderProviderInstance o) ch s)) s.
Proof.
  intros Hch.
  assert (Hread : ∀ {X} (q : Store → result dberr X) w (k : X → prg (result perror (option ProviderInstance))),
    (∀ x, ∃ r, k x = Ret r) →
    wp (on_error w (lift (read q)) k) (λ r s', s' = s ∧ r = fst (run Lost st_now (on_error w (lift (read q)) k) ch s)) s).
  { intros X q w k Hk. apply (w_read q). unfold on_error, lift, read, call. simpl. rewrite (Hch O).
    destruct (q s) as [x|e]; simpl; [|done]. by destruct (Hk x) as [r ->]. }
  unfold getOrderProviderInstance. destruct (psOrderProviderSnapshot o) as [snap|].
  - unfold resolveSnapshotOrderProviderInstance.
    cbv zeta. set (sid := if bool_decide (TrimSpace _ = []) then _ else _). clearbody sid.
    case_match; [done|]. case_match; [done|]. destruct (Atoi sid); [|done]. apply Hread. intros i. by eexists.
  - cbv zeta. case_match.
    + unfold resolveUniqueLegacyOrderProviderInstance. cbv zeta.
      case_match; [apply Hread; by eexists|]. case_match; [done|]. apply Hread; by eexists.
    + destruct (Atoi _); [|done]. apply Hread; by eexists.
Qed.

Lemma HandlePaymentNotification_wp n pk o ch s :
  inv True s → n_Success n = true → order_by_out_trade_no (n_OrderID n) s = Ok o →
  o_OrderType o = OrderTypeBalance → o_UserID o ∈ st_users s →
  payable (st_now s - paymentGraceMinutes * minute) o = true →
  (∀ e, st_locks s !! redeemLockKey (o_RechargeCode o) = Some e → e ≤ st_now s) →
  (∀ i, ch_fault (ch i) = NoFault) →
  matching sv o (instance_key (fst (run Lost st_now (getOrderProviderInstance o) ch s))) pk (n_Metadata n) (n_Amount n) →
  st_orders s !! o_ID o = Some o → wp (HandlePaymentNotification sv n pk) (completes (o_ID o)) s.
Proof.
  intros Hinv Hok Hq Ht Hu Hp Hlock Hch (M1 & M2 & M3 & M4) Ho. unfold HandlePaymentNotification. rewrite Hok. simpl (negb true).
  cbv iota. apply (w_read (order_by_out_trade_no _)). rewrite Hq.
  unfold confirmPayment. apply (w_read (get_order _)). unfold get_order. rewrite Ho. simpl (found _).
  eapply w_bind; [by apply (getOrderProviderInstance_wp o ch)|]. intros inst s1 [-> ->].
  cbv zeta. rewrite M1, M2, M3, M4. by apply toPaid_wp.
Qed.

(** ** From any reachable state *)

(** The order is COMPLETED, and the journal holds one credit for its code, to its
    user, of its amount. *)
Definition delivered (oid : Z) (o : Order) (s : Store) : Prop :=
  ∃ o' id c, st_orders s !! oid = Some o' ∧ o_Status o' = OrderStatusCompleted ∧
    st_codes s !! id = Some c ∧ rc_Code c = o_RechargeCode o ∧ value_ok o c = true ∧
    credits (DueCode id) s = [mkGrant (DueCode id) (balance_credit (o_UserID o) (rc_Value c))].

Lemma run_delivers (p : prg (result perror unit)) oid o ch s :
  inv True s → st_orders s !! oid = Some o → o_OrderType o = OrderTypeBalance → (∀ i, answered (ch i)) →
  Interleaving.safe Lost st_now (inv True) later p (ok_post any) s → wp p (completes oid) s →
  let '(r, s') := run Lost st_now p ch s in r = Ok tt ∧ delivered oid o s'.
Proof.
  intros Hinv Ho Ht Hch Hs Hwp. pose proof (wp_run Lost st_now answered _ _ _ ch Hch Hwp) as Hrun.
  pose proof (safe_run Lost st_now (inv True) later _ _ _ ch Hinv Hs) as Hsafe.
  destruct (run Lost st_now p ch s) as [[[]|e] s']; [|done]. destruct Hsafe as (Hinv' & HR & _).
  destruct Hrun as (o' & Ho' & Hst'). simpl in Ho'. split; [done|].
  destruct (lt_orders _ _ HR oid o Ho) as (o2 & Ho2 & [Hc _ _]). rewrite Ho' in Ho2. injection Ho2 as <-.
  pose proof (core_fields _ _ Hc) as (_ & Eu & _ & Er & _ & Et & _).
  destruct (completed_credit True s' oid o' Hinv' Ho') as (id & c & ? & ? & Hv & Hg); [rewrite Hst'; status_in|congruence|].
  exists o', id, c. rewrite Eu, Er, (value_ok_core _ _ _ Hc). done.
Qed.

(** C5: after any run in which no administrator deleted a redeem code and nobody but
    an order's user redeemed the order's code - whatever else happened: lost calls,
    dead workers, rolled-back accruals - a paid balance order of an existing user that
    is not completed can be completed: when nothing has touched it for the lease's five minutes, one administrator's retry
    whose calls succeed returns without error, leaves the order COMPLETED, and its
    user has been credited for its code exactly once. *)
Theorem retry_completes_paid_order es s oid o d ch :
  inv True s → admissible_events True s es →
  st_orders (reach sv es s) !! oid = Some o → o_OrderType o = OrderTypeBalance →
  o_Status o ∈ fulfillable → o_UserID o ∈ st_users (reach sv es s) →
  paymentFulfillmentLeaseDuration + 2000 ≤ Z.of_N d → (∀ i, answered (ch i)) →
  let '(r, s') := run Lost st_now (RetryFulfillment sv oid) ch (advance d (reach sv es s)) in
  r = Ok tt ∧ delivered oid o s'.
Proof.
  intros Hinv Hes Ho Ht Hst Hu Hd Hch. destruct (reach_ok sv True es s Hinv Hes) as [Hinv1 _].
  set (s1 := reach sv es s) in *. destruct (advance_ok d s1 Hinv1) as [Hinv2 _].
  apply run_delivers; [done|done|done|done|by apply RetryFulfillment_safe|]. apply (RetryFulfillment_wp oid o); [done|].
  destruct (inv_order _ _ Hinv1 oid o Ho) as (_ & Hv & _). split; simpl; [done|done|done| |done|].
  - apply stale_guard; [done|]. unfold truncate_us.
    pose proof (Z.mod_pos_bound (st_now s1 + Z.of_N d) 1000 ltac:(lia)).
    pose proof (Z.div_mod (st_now s1 + Z.of_N d) 1000 ltac:(lia)). lia.
  - intros e He. pose proof (inv_locks _ _ Hinv1 _ e He).
    unfold redeemLockDuration, paymentFulfillmentLeaseDuration, minute, second in *. lia.
Qed.

(** C6: after any run in which no code was deleted and nobody but an order's user
    redeemed the order's code, a successful notification that matches a balance
    order still open - pending, cancelled, or expired within the grace period - of
    an existing user delivers it when its calls succeed and no lock on the order's
    code is held: the order becomes COMPLETED, its user credited for its code exactly
    once. *)
Theorem notification_delivers_order es s o n pk ch :
  inv True s → admissible_events True s es →
  order_by_out_trade_no (n_OrderID n) (reach sv es s) = Ok o → o_OrderType o = OrderTypeBalance →
  payable (st_now (reach sv es s) - paymentGraceMinutes * minute) o = true →
  o_UserID o ∈ st_users (reach sv es s) →
  (∀ e, st_locks (reach sv es s) !! redeemLockKey (o_RechargeCode o) = Some e → e ≤ st_now (reach sv es s)) →
  n_Success n = true → (∀ i, answered (ch i)) →
  matching sv o (instance_key (fst (run Lost st_now (getOrderProviderInstance o) ch (reach sv es s))))
    pk (n_Metadata n) (n_Amount n) →
  let '(r, s') := run Lost st_now (HandlePaymentNotification sv n pk) ch (reach sv es s) in
  r = Ok tt ∧ delivered (o_ID o) o s'.
Proof.
  intros Hinv Hes Hq Ht Hp Hu Hlock Hn Hch Hm. destruct (reach_ok sv True es s Hinv Hes) as [Hinv1 _].
  set (s1 := reach sv es s) in *.
  assert (Ho : st_orders s1 !! o_ID o = Some o).
  { pose proof Hq as Hin%only_elem. apply rows_elem in Hin as [id Hid]. by destruct (inv_order _ _ Hinv1 id o Hid) as [-> _]. }
  apply run_delivers; [done|done|done|done|by apply HandlePaymentNotification_safe|].
  eapply HandlePaymentNotification_wp; [done..| |exact Hm|done]. intros i. by destruct (Hch i).
Qed.

End liveness.
End PaymentLiveness.
