(* ===== verification/PaymentExamples.v ===== *)
(** * Runs of the payment system at concrete inputs

    One order, one user, one code: what the theorems of [PaymentTheorems] and
    [PaymentLiveness] say of runs that can be computed, and the schedules that show
    what they leave out. *)

From S2P Require Import Prelude Float64 GoStrings PaymentOrder Subscription Database Interleaving PaymentStore Redeem Payment Refund PaymentInvariant PaymentSafety PaymentSystem PaymentTheorems PaymentLiveness.

Module PaymentExamples.
Import GoStrings PaymentOrder PaymentStore Redeem Payment Refund PaymentInvariant PaymentSafety PaymentSystem PaymentTheorems PaymentLiveness.

(** A database that truncates to microseconds, Beijing time, bytewise comparison of
    names, binary subtraction. *)
#[local] Instance microseconds : Database.
Proof.
  refine {| timestamptz := λ t, t / 1000 * 1000 |}. intros t.
  pose proof (Z.div_mod t 1000 ltac:(lia)). pose proof (Z.mod_pos_bound t 1000 ltac:(lia)). lia.
Defined.
#[local] Instance decimals : Numeric := ten_decimals.
#[local] Instance beijing : TimeZones := {| configured_offset := 8 * hour; value_offset := 0 |}.
#[local] Instance bytewise : UnicodeFold.
Proof. refine {| EqualFold := λ a b, bool_decide (a = b); ToUpper := id |}. intros s. by apply bool_decide_eq_true_2. Defined.
#[local] Instance binary : Decimal := Float.sub.
#[local] Instance whole : RefundDecimal :=
  {| decimal_round := λ x _, x; decimal_share := λ x y z _, Float.div (Float.mul x y) z;
     decimal_fixed := λ x _, FormatInt (Float.trunc x) |}.

Definition now0 : time := 1700000000 * second.

Definition order : Order :=
  {| o_ID := 1; o_UserID := 7; o_Amount := Float.of_Z 10; o_PayAmount := Float.of_Z 10; o_BonusAmount := Float.zero;
     o_RechargeCode := lit "PAY-1-4f"; o_OutTradeNo := lit "sub2_20231114"; o_PaymentType := TypeAlipay;
     o_PaymentTradeNo := []; o_OrderType := OrderTypeBalance; o_SubscriptionGroupID := None;
     o_SubscriptionDays := None; o_ProviderInstanceID := Some (lit "3"); o_ProviderKey := Some TypeAlipay;
     o_ProviderSnapshot := ∅; o_Status := OrderStatusPending; o_ExpiresAt := now0 + 30 * minute; o_PaidAt := None;
     o_CompletedAt := None; o_FailedAt := None; o_Refund := no_refund; o_CreatedAt := now0; o_UpdatedAt := now0 |}.

Definition alipay : ProviderInstance := mkInstance 3 TypeAlipay [] true true true.

Definition store : Store :=
  mkStore now0 {[1 := order]} [alipay] ∅ 1 [] {[7]} ∅ ∅ 1 ∅ [] ∅ ∅ [] {[7 := 0]} [].

Definition service : Service := mkService true true None.

(** Affiliates are on at 20 per cent; the provider reports the order as paid. *)
Definition answers (X : Type) (q : question X) : X :=
  match q in question X return X with
  | QSettings => mkSettings true 30 (Float.of_Z 20) Float.zero 0
  | QAccrued _ _ => Ok Float.zero
  | QInvalidateSubscription _ _ => Ok tt
  | QProvider i => Some (pi_ProviderKey i)
  | QRegistryProvider t => Some t
  | QQueryOrder _ _ => Some (mkQuery (lit "2023111422001") true (Float.of_Z 10) ∅)
  | QCancelPayment _ _ => tt
  | QActiveSubscription _ _ => Err NotFound
  | QMerchantIdentity _ => ∅
  | QRefund _ _ => (Some (mkRefundResponse [] (lit "success")), true)
  | QSupportsRefundQuery _ => true
  | QQueryRefund _ _ => (Some (mkRefundResponse [] (lit "success")), true)
  | QStatement => true
  end.

Definition fine : choice := mkChoice NoFault answers.
Definition lost : choice := mkChoice FailBefore answers.

Definition notification : PaymentNotification :=
  mkNotification (lit "2023111422001") (lit "sub2_20231114") (Float.of_Z 10) true ∅.

Lemma store_created (strict : Prop) : inv strict store.
Proof.
  apply inv_created; [done..| |].
  - intros oid o Ho. change (st_orders store) with ({[1 := order]} : gmap Z Order) in Ho.
    apply lookup_singleton_Some in Ho as [<- <-]. by vm_compute.
  - intros oid oid' o o'. change (st_orders store) with ({[1 := order]} : gmap Z Order). intros Ho Ho' _.
    apply lookup_singleton_Some in Ho as [<- _].
    by apply lookup_singleton_Some in Ho' as [<- _].
Qed.

(** ** A delivery *)

Definition calls (i n : nat) : list (event (Q := question) (Req := request)) := repeat (Step i fine) n.

Definition delivery : list (event (Q := question) (Req := request)) :=
  Spawn (RNotify notification TypeAlipay) :: calls 0 60.

Lemma delivery_admissible (strict : Prop) : admissible_events strict store delivery.
Proof. by repeat constructor. Qed.

Definition completed : Order := Eval vm_compute in default order (st_orders (reach service delivery store) !! 1).
Definition used : RedeemCode := Eval vm_compute in
  default (payment_code order) (st_codes (reach service delivery store) !! 1).

Example completed_order_credited_once_witness :
  ∃ id c, st_codes (reach service delivery store) !! id = Some c ∧ rc_Code c = o_RechargeCode completed ∧
    value_ok completed c = true ∧ credits (DueCode id) (reach service delivery store) =
      [mkGrant (DueCode id) (balance_credit (o_UserID completed) (rc_Value c))].
Proof.
  apply (completed_order_credited_once service delivery store 1 completed);
    [apply store_created|apply delivery_admissible|by vm_compute|status_in|by vm_compute].
Defined.

Example nothing_granted_twice_witness :
  (∀ id, (length (credits (DueCode id) (reach service delivery store)) ≤ 1)%nat) ∧
  (∀ oid, (length (credits (DueOrder oid) (reach service delivery store)) ≤ 1)%nat) ∧
  (∀ oid, (length (rebates (DueOrder oid) (reach service delivery store)) ≤ 1)%nat).
Proof. apply (nothing_granted_twice service delivery store); [apply store_created|apply delivery_admissible]. Defined.

Example no_credit_without_payment_witness :
  is_Some (o_PaidAt completed) ∧ o_Status completed ∈ funded ∧ value_ok completed used = true ∧
  credits (DueCode 1) (reach service delivery store) =
    [mkGrant (DueCode 1) (balance_credit (o_UserID completed) (rc_Value used))].
Proof.
  apply (no_credit_without_payment service delivery store 1 completed 1 used);
    [apply store_created|apply delivery_admissible|by vm_compute..].
Defined.

Example paid_order_never_lost_witness :
  ∃ o', st_orders (reach service delivery store) !! 1 = Some o' ∧ core_of o' = core_of order ∧
    (is_Some (o_PaidAt order) → is_Some (o_PaidAt o')) ∧
    (o_Status order ∈ funded → o_Status o' ∈ funded) ∧
    (o_Status order ∈ settled → o_Status o' ∈ settled).
Proof.
  apply (paid_order_never_lost service delivery store 1 order);
    [apply store_created|apply delivery_admissible|reflexivity].
Defined.

Example tables_well_formed_witness : rc_ID used = 1 ∧ 1 < st_next_code (reach service delivery store).
Proof.
  destruct (tables_well_formed service delivery store (store_created False) (delivery_admissible False)) as (_ & Hcodes & _).
  destruct (Hcodes 1 used) as (Hid & Hlt & _); [by vm_compute|]. split; [exact Hid|exact Hlt].
Defined.

(** ** A worker that died *)

(** The worker of the notification stops after taking the lease. *)
Definition died : list (event (Q := question) (Req := request)) :=
  Spawn (RNotify notification TypeAlipay) :: calls 0 11.
Definition recharging : Order := Eval vm_compute in default order (st_orders (reach service died store) !! 1).

Example died_in_recharging : o_Status recharging = OrderStatusRecharging.
Proof. reflexivity. Qed.

Lemma fine_answered : answered fine.
Proof. split; [done|]. intros a b. by exists Float.zero. Qed.

Lemma died_admissible (strict : Prop) : admissible_events strict store died.
Proof. by repeat constructor. Qed.

Example retry_completes_paid_order_witness :
  let '(r, s') := run Lost st_now (RetryFulfillment service 1) (λ _, fine)
                    (advance (Z.to_N (6 * minute)) (reach service died store)) in
  r = Ok tt ∧ delivered 1 recharging s'.
Proof.
  apply (retry_completes_paid_order service died store 1 recharging (Z.to_N (6 * minute)) (λ _, fine));
    [apply store_created|apply died_admissible|by vm_compute|by vm_compute|by apply (bool_decide_eq_true_1 _); vm_compute
    |by apply (bool_decide_eq_true_1 _); vm_compute|by vm_compute|intros _; apply fine_answered].
Defined.

Example notification_delivers_order_witness :
  let '(r, s') := run Lost st_now (HandlePaymentNotification service notification TypeAlipay) (λ _, fine)
                    (reach service [] store) in
  r = Ok tt ∧ delivered 1 order s'.
Proof.
  apply (notification_delivers_order service [] store order notification TypeAlipay (λ _, fine));
    [apply store_created|constructor|by vm_compute|by vm_compute|by vm_compute|by apply (bool_decide_eq_true_1 _); vm_compute
    |intros e He; vm_compute in He; discriminate|reflexivity|intros _; apply fine_answered|by vm_compute].
Defined.

Definition takeover_time : time := now0 + 6 * minute.

Example takeover_revokes_lease_witness :
  let s' := taken_over 1 takeover_time (reach service died store) in
  let failed := run Lost st_now (markFailed 1 (o_UpdatedAt recharging)) (λ _, fine) s' in
  let completed := run Lost st_now (markCompleted recharging (o_UpdatedAt recharging) "RECHARGE_SUCCESS") (λ _, fine) s' in
  st_orders (snd failed) = st_orders s' ∧ st_orders (snd completed) = st_orders s' ∧
  ∃ e, fst completed = Err e.
Proof.
  apply (takeover_revokes_lease 1 takeover_time (reach service died store) recharging); by vm_compute.
Defined.

Example failed_read_acknowledged_witness :
  run Lost st_now (confirmPayment service 1 (lit "t") (Float.of_Z 10) TypeAlipay ∅) (λ _, lost) store = (Ok tt, store).
Proof. apply (failed_read_acknowledged service 1 (lit "t") (Float.of_Z 10) TypeAlipay ∅ (λ _, lost) store). discriminate. Defined.

Example paid_at_provider_not_cancelled_witness :
  fst (run Lost st_now (cancelCore service order OrderStatusExpired (lit "system")) (λ _, fine) store) = Ok AlreadyPaid.
Proof.
  assert (Hfine : reports_paid fine).
  { split; [done|split]; [by eexists|]. intros prov ref. by eexists. }
  apply (paid_at_provider_not_cancelled service order OrderStatusExpired (lit "system") alipay store (λ _, fine));
    [done|done| |done].
  assert (getOrderProviderInstance order =
    on_error (λ e, e) (lift (read (instance_by_id 3))) (λ i, Ret (Ok (Some i)))) as -> by by vm_compute.
  intros c (Hc & _). simpl. by rewrite Hc.
Defined.

(** A notification of another amount changes nothing and is refused. *)
Example wrong_amount_refused :
  let '(r, s') := run Lost st_now (confirmPayment service 1 (lit "t") (Float.of_Z 9) TypeAlipay ∅) (λ _, fine) store in
  untouched store s' ∧ r ≠ Ok tt.
Proof. by vm_compute. Qed.

Example legacy_reference_roundtrip_witness : parseLegacyPaymentOrderID (lit "sub2_42") true = Some 42.
Proof. apply (legacy_reference_roundtrip 42). split; [done|by vm_compute]. Defined.

Example assignment_note_recognised_witness :
  hasPaymentSubscriptionOrderNote
    (Subscription.us_Notes (Subscription.createSubscription 1 7 3 30 0 (lit "payment order 42") now0)) (lit "payment order 42") = true.
Proof.
  apply (assignment_note_recognised 42 (Subscription.createSubscription 1 7 3 30 0 [] now0) 30 1 7 3 0 now0). done.
Defined.

(** ** What the theorems leave out *)

(** An administrator deletes an order's code while its worker redeems it. *)
Definition delete_race : list (event (Q := question) (Req := request)) :=
  Spawn (RNotify notification TypeAlipay) :: calls 0 14      (* the code is created *)
  ++ Spawn (RDelete 1) :: calls 1 1                          (* checked: unused *)
  ++ calls 0 7                                               (* redeemed; the worker dies *)
  ++ calls 1 1                                               (* deleted *)
  ++ Tick (Z.to_N (6 * minute)) :: Spawn (RRetry 1) :: calls 2 60.

(** The deletion of a code is not safe against its redemption: the check is made
    while the code is unused, the row is deleted after a worker has redeemed it, and
    the retry of the order, finding no code, creates and redeems another: one paid
    order, two credits. *)
Example deleted_code_credited_twice :
  st_grants (reach service delete_race store) =
    [mkGrant (DueCode 2) (GBalance 7 (Float.of_Z 10)); mkGrant (DueCode 1) (GBalance 7 (Float.of_Z 10))] ∧
  (o_Status <$> st_orders (reach service delete_race store) !! 1) = Some OrderStatusCompleted.
Proof. by vm_compute. Qed.

(** A user asks for the order while its notification is worked on: recording the
    provider's trade number touches the row and with it the version the other
    worker holds, so the order, credited, stays RECHARGING though no call failed. *)
Definition trade_number_race : list (event (Q := question) (Req := request)) :=
  Spawn (RVerify (lit "sub2_20231114") 7) :: calls 0 4               (* the provider reports it paid *)
  ++ Spawn (RNotify notification TypeAlipay) :: calls 1 28           (* paid, leased, credited *)
  ++ Tick (Z.to_N second) :: calls 0 1                               (* the trade number *)
  ++ calls 1 60 ++ calls 0 60.

Example recorded_trade_number_revokes_lease :
  st_grants (reach service trade_number_race store) = [mkGrant (DueCode 1) (GBalance 7 (Float.of_Z 10))] ∧
  (o_Status <$> st_orders (reach service trade_number_race store) !! 1) = Some OrderStatusRecharging ∧
  Forall (λ p, ∃ a, p = Ret a) (cf_pool (run_events Lost st_now advance (entry service) (mkConfig store []) trade_number_race)).
Proof. split_and!; [by vm_compute|by vm_compute|]. vm_compute. repeat constructor; by eexists. Qed.

End PaymentExamples.
