(* ===== verification/RefundTheorems.v ===== *)
(** * What holds of refunds in every run

    Any number of administrators and users, failing calls, crashes and time: the
    attempts of an order come one after another, at most one of them is accepted by the
    provider, and only a delivered order is ever refunded. *)

From S2P Require Import Prelude Float64 GoStrings PaymentOrder Subscription Database Interleaving Ownership PaymentStore Redeem Payment Refund PaymentInvariant PaymentSafety PaymentSystem RefundInvariant RefundSafety RefundOwner.

Module RefundTheorems.
Import GoStrings PaymentOrder PaymentStore Redeem Payment Refund PaymentInvariant PaymentSafety PaymentSystem RefundInvariant RefundSafety RefundOwner.

Section theorems.
Context `{Database} `{Numeric} `{TimeZones} `{UnicodeFold} `{Decimal} `{RefundDecimal} (sv : Service).

(** C9: in every run, the journal of an order's refunds is a sequence of attempts -
    each takes from the user once, before it asks; asks once; gives back once, only
    what it took, and never after the provider reported success - and the order's row
    says how the latest one stands: REFUNDING while it runs; REFUND_PENDING when the
    provider has not decided, what was taken is held and is what the order's only
    REFUND_PENDING entry says; refunded, in full or in part as the amounts compare,
    when the provider reported success or promised to decide; else every attempt is
    closed without the provider's success. *)
Theorem refund_attempts_in_order es s oid o :
  no_refunds s → st_orders (reach sv es s) !! oid = Some o →
  ∃ l, attempts oid (reach sv es s) = Some l ∧ state_ok o l (reach sv es s) ∧
    (length (pending_entries oid (reach sv es s)) ≤ 1)%nat.
Proof.
  intros Hs Ho. destruct (refunds_reach sv es s (rinv_initial s Hs)) as [[_ Hone Hstate] _].
  destruct (Hstate oid o Ho) as (l & Hl & Hst). by exists l.
Qed.

(** Attempts that the provider accepted, or has been asked for and has not answered. *)
Definition open_attempts (l : list attempt) : list attempt := filter (λ a, unaccepted (at_Ask a) = false) l.

Lemma closed_none l : Forall closed l → open_attempts l = [].
Proof. induction 1 as [|a l Ha _ IH]; [done|]. unfold open_attempts in *. rewrite filter_cons, decide_False; [done|]. by rewrite Ha. Qed.

(** All attempts but the latest are closed. *)
Lemma state_latest o l s : state_ok o l s → Forall closed l ∨ ∃ a l', l = a :: l' ∧ Forall closed l'.
Proof. unfold state_ok. destruct (o_Status o); intros Hst; first [by left; subst; constructor|by left|right; naive_solver]. Qed.

(** One more when the order waits for the provider. *)
Definition waiting (o : Order) : nat := if bool_decide (o_Status o = OrderStatusRefundPending) then 1 else 0.

Lemma state_open o l s : state_ok o l s → (length (open_attempts l) + waiting o ≤ 1)%nat.
Proof.
  intros Hst. unfold waiting. case_bool_decide as Hp.
  - unfold state_ok in Hst. rewrite Hp in Hst. destruct Hst as (a & l' & d & -> & Hl & Haw%awaits_closed & _).
    rewrite closed_none by by constructor. simpl. lia.
  - apply state_latest in Hst as [Hl|(a & l' & -> & Hl)]; [rewrite closed_none by done; simpl; lia|].
    unfold open_attempts. rewrite filter_cons. apply closed_none in Hl. unfold open_attempts in Hl. rewrite Hl. case_decide; simpl; lia.
Qed.

(** C10: in every run, however often administrators try: at most one attempt of an
    order was accepted by the provider, or is being asked for, or waits for the
    provider to decide; a refund that waits is not claimed or sent to the provider
    again in any continuation, unless a query has concluded it in between, writing
    the order's REFUND_SUCCESS or REFUND_FAILED entry; and an order that has been
    refunded, in full or in part, is never touched by a refund again: in every
    continuation its status, its refund columns and its journal are the same. *)
Theorem refunded_once_and_for_all es es' s oid o :
  no_refunds s → st_orders (reach sv es s) !! oid = Some o →
  (∃ l, attempts oid (reach sv es s) = Some l ∧ (length (open_attempts l) + waiting o ≤ 1)%nat) ∧
  (o_Status o = OrderStatusRefundPending → still_waits oid (reach sv es s) (reach sv (es ++ es') s)) ∧
  (o_Status o ∈ [OrderStatusRefunded; OrderStatusPartiallyRefunded] →
     events oid (reach sv (es ++ es') s) = events oid (reach sv es s) ∧
     ∃ o', st_orders (reach sv (es ++ es') s) !! oid = Some o' ∧ o_Status o' = o_Status o ∧ o_Refund o' = o_Refund o).
Proof.
  intros Hs Ho. apply rinv_initial in Hs. destruct (refunds_reach sv es s Hs) as [Hinv _].
  pose proof (refunds_continue sv es es' s Hs) as Hl. split_and!.
  - destruct (ri_state _ Hinv oid o Ho) as (l & Hat & Hst). exists l. split; [done|by eapply state_open].
  - intros Hst. by apply (rl_waits _ _ Hl oid o).
  - intros Hst. by apply (rl_final _ _ Hl).
Qed.

Lemma no_attempts evs : foldr add_event (Some []) evs = Some [] → evs = [].
Proof.
  destruct evs as [|e evs]; [done|]. simpl. destruct (foldr add_event (Some []) evs) as [l|]; destruct e; simpl; try done;
    repeat (case_match; try done).
Qed.

Lemma attempted_settled o l s : state_ok o l s → l ≠ [] → o_Status o ∈ settled.
Proof. unfold state_ok. destruct (o_Status o) eqn:E; intros Hst Hl; first [status_in|done]. Qed.

(** C11: in every run in which no administrator deletes a redeem code, an order for
    which a refund has been claimed was delivered first: a balance order's recharge code has been credited exactly once, to the
    order's user, a subscription order's term has been assigned at most once; and the
    order never leaves the statuses of delivered and refunded orders. *)
Theorem only_delivered_orders_refunded es s oid o :
  inv False s → no_refunds s → admissible_events False s es →
  st_orders (reach sv es s) !! oid = Some o → events oid (reach sv es s) ≠ [] →
  o_Status o ∈ settled ∧
  (o_OrderType o = OrderTypeBalance → ∃ id c, st_codes (reach sv es s) !! id = Some c ∧ rc_Code c = o_RechargeCode o ∧
     value_ok o c = true ∧
     credits (DueCode id) (reach sv es s) = [mkGrant (DueCode id) (balance_credit (o_UserID o) (rc_Value c))]) ∧
  (o_OrderType o = OrderTypeSubscription → assigned o (reach sv es s) ∧ (length (credits (DueOrder oid) (reach sv es s)) ≤ 1)%nat).
Proof.
  intros Hinv Hs Hes Ho Hev. destruct (reach_ok sv False es s Hinv Hes) as [Hinv' _].
  destruct (refunds_reach sv es s (rinv_initial s Hs)) as [Hr _].
  destruct (ri_state _ Hr oid o Ho) as (l & Hl & Hst).
  assert (Hset : o_Status o ∈ settled).
  { eapply attempted_settled; [exact Hst|]. intros ->. apply Hev. by apply no_attempts. }
  split_and!; [done|intros Ht; by eapply completed_credit|]. intros Ht.
  destruct (inv_order _ _ Hinv' oid o Ho) as (_ & _ & _ & Hc). split; [by apply Hc|].
  destruct (inv_days _ _ Hinv' oid) as [->|[? _]]; [simpl; lia|done].
Qed.

End theorems.
End RefundTheorems.
