(* ===== verification/RefundLiveness.v ===== *)
(** * What a refund does when nothing goes wrong

    From any reachable state, a refund whose calls succeed and whose provider accepts
    takes the amount and completes; and the query of a pending refund concludes it as
    the provider says: refunded, or what was taken is given back. *)

From Stdlib Require Import QArith.
From S2P Require Import Prelude Float64 GoStrings PaymentOrder Subscription Database Interleaving Ownership PaymentStore Redeem Payment Refund PaymentInvariant PaymentSafety PaymentSystem RefundInvariant RefundSafety RefundOwner.

Module RefundLiveness.
Import GoStrings PaymentOrder PaymentStore Redeem Payment Refund PaymentInvariant PaymentSafety PaymentSystem RefundInvariant RefundSafety RefundOwner.

Section quiet_calls.
Context `{Database} `{Numeric} `{TimeZones} `{UnicodeFold} `{Decimal} `{RefundDecimal}.
Context (B : choice (Q := question) → Prop) (succeeds : ∀ c, B c → ch_fault c = NoFault).
Abbreviation wp := (Interleaving.wp (S := Store) (Q := question) Lost st_now B).

Lemma r_read {A C} (q : Store → result dberr A) (k : result dberr A → prg C) Q s : wp (k (q s)) Q s → wp (bind (read q) k) Q s.
Proof using succeeds. intros Hk c Hc. simpl. by rewrite (succeeds c Hc). Qed.
Lemma r_write {A C} (w : Store → result dberr A * Store) (k : result dberr A → prg C) Q s :
  wp (k (fst (w s))) Q (snd (w s)) → wp (bind (write w) k) Q s.
Proof using succeeds. intros Hk c Hc. simpl. rewrite (succeeds c Hc). by destruct (w s). Qed.
Lemma r_clock {C} (k : time → prg C) Q s : wp (k (st_now s)) Q s → wp (bind clock k) Q s.
Proof. by intros Hk c _. Qed.
Lemma r_ask {A C} (q : question A) (k : A → prg C) Q s : (∀ c, B c → wp (k (ch_answer c _ q)) Q s) → wp (bind (ask q) k) Q s.
Proof. intros Hk c Hc. by apply Hk. Qed.
Lemma r_log {C} e (k : unit → prg C) Q s : wp (k tt) Q (with_refund e s) → wp (bind (log e) k) Q s.
Proof. by intros Hk c _. Qed.
Lemma r_bind {A C} (p : prg A) (k : A → prg C) P Q s : wp p P s → (∀ a s', P a s' → wp (k a) Q s') → wp (bind p k) Q s.
Proof. intros Hp Hk. apply wp_bind. by eapply wp_mono. Qed.

(** The instance the order names is configured, whatever else the tables hold. *)
Definition instance_found (o : Order) (i : ProviderInstance) (l : list ProviderInstance) : Prop :=
  ∀ s, st_instances s = l → wp (getRefundOrderProviderInstance o) (λ r s', s' = s ∧ r = Ok (Some i)) s.

Lemma provider_found o i s : instance_found o i (st_instances s) →
  (∀ c, B c → is_Some (ch_answer c _ (QProvider i))) →
  wp (getRefundProvider o) (λ r s', s' = s ∧ ∃ k, r = Ok k) s.
Proof.
  intros Hi Hp. unfold getRefundProvider, on_error. eapply r_bind; [by apply Hi|]. intros r s' [-> ->].
  apply r_ask. intros c Hc. destruct (Hp c Hc) as [k ->]. split; [done|by exists k].
Qed.

Lemma r_audit {C} oid a op (k : unit → prg C) Q s :
  (∀ l, wp (k tt) Q (with_audits (λ _, l) s)) → wp (bind (writeAuditLog oid a op) k) Q s.
Proof using succeeds.
  intros Hk. apply (r_write (insert_audit oid a op)). unfold insert_audit.
  case_match; [|apply Hk]. assert (s = with_audits (λ _, st_audits s) s) as E by by destruct s. simpl. rewrite E. apply Hk.
Qed.

End quiet_calls.

Section liveness.
Context `{Database} `{Numeric} `{TimeZones} `{UnicodeFold} `{Decimal} `{RefundDecimal} (sv : Service).

(** ** A refund *)

(** Every call succeeds, the order's merchant data agree, and the provider accepts. *)
Record accepting (o : Order) (i : ProviderInstance) (c : choice (Q := question)) : Prop := {
  ac_calls : ch_fault c = NoFault;
  ac_provider : is_Some (ch_answer c _ (QProvider i));
  ac_merchant : ∀ k, validateProviderSnapshotMetadata o k (ch_answer c _ (QMerchantIdentity k)) = true;
  ac_refund : ∀ k r, accepted (ch_answer c _ (QRefund k r)) = true
}.

(** What is taken: the amount, or the balance when that is less and force is used. *)
Definition deductible (amount : float64) (b : Z) : float64 := Float.Max Float.zero (Float.Min amount (column b)).
Definition after_deduction (x : float64) (b : Z) : Z :=
  round_scale (inject_Z b - (if Qle_bool (numeric x) (inject_Z (Z.max b 0)) then numeric x else inject_Z (Z.max b 0))).

Definition amount_of (o : Order) (amt : float64) : float64 := if Float.le amt Float.zero then o_Amount o else amt.

(** The refund an administrator may ask for. *)
Record refund_allowed (o : Order) (i : ProviderInstance) (amt : float64) (force : bool) (s : Store) : Prop := {
  ra_type : o_OrderType o = OrderTypeBalance;
  ra_status : status_is refundable o = true;
  ra_trade : o_PaymentTradeNo o ≠ [];
  ra_enabled : pi_RefundEnabled i = true;
  ra_finite : Float.finite amt = true;
  ra_amount : Float.lt (paymentAmountToleranceForCurrency (PaymentOrderCurrency o)) (Float.sub (amount_of o amt) (o_Amount o)) = false;
  ra_user : o_UserID o ∈ st_users s;
  ra_enough : Float.lt (column (balance_of (o_UserID o) (st_balances s))) (amount_of o amt) && negb force = false;
  ra_positive : Float.lt Float.zero (deductible (amount_of o amt) (balance_of (o_UserID o) (st_balances s))) = true;
  ra_skip : has_audit (o_ID o) [REFUND_ROLLBACK_FAILED] s = false
}.

Definition plan_of (o : Order) (amt : float64) (reason : bytes) (force : bool) (b : Z) : RefundPlan :=
  mkPlan (o_ID o) o (amount_of o amt)
    (calculateGatewayRefundAmount (o_Amount o) (o_PayAmount o) (amount_of o amt) (PaymentOrderCurrency o))
    (first_nonempty [TrimSpace reason; default [] (RefundRequestReason (o_Refund o))] (refund_order_text (o_ID o)))
    force true DeductionTypeBalance (deductible (amount_of o amt) b) 0 0 false.

Section accepted.
Context (o : Order) (i : ProviderInstance).
Abbreviation wp := (Interleaving.wp (S := Store) (Q := question) Lost st_now (accepting o i)).
Let succeeds : ∀ c, accepting o i c → ch_fault c = NoFault := ac_calls o i.

Lemma PrepareRefund_wp amt reason force s : st_orders s !! o_ID o = Some o → instance_found (accepting o i) o i (st_instances s) →
  refund_allowed o i amt force s →
  wp (PrepareRefund (o_ID o) amt reason force true)
    (λ r s', s' = s ∧ r = Ok (inl (plan_of o amt reason force (balance_of (o_UserID o) (st_balances s))))) s.
Proof.
  intros Ho Hi [Ht Hst _ Hen Hf Ham Hu Hb _ _]. unfold PrepareRefund, on_error, lift. apply (r_read _ succeeds).
  unfold get_order. rewrite Ho. cbn [found bind]. rewrite Hst. cbn [negb]. eapply r_bind; [by apply Hi|]. intros r s' [-> ->].
  rewrite Hen. cbn [negb]. unfold Float.finite in Hf. apply andb_true_iff in Hf as [Hn%negb_true_iff Hinf%negb_true_iff].
  rewrite Hn, Hinf. cbn [orb]. cbv zeta. fold (amount_of o amt). rewrite Ham.
  unfold prepDeduct. rewrite bool_decide_eq_false_2 by by rewrite Ht. cbn [bind]. apply (r_read _ succeeds).
  unfold get_balance. rewrite bool_decide_eq_true_2 by done. cbn [bind]. cbv zeta. cbn [rp_RefundAmount]. by rewrite Hb.
Qed.

(** The refund is done: the row, the journal and the balance. *)
Definition refund_done (x amount : float64) (l : list attempt) (s : Store) (r : result perror RefundResult) (s' : Store) : Prop :=
  let b := balance_of (o_UserID o) (st_balances s) in
  let b' := after_deduction x b in
  (∃ res, r = Ok res ∧ rs_Success res = true ∧ rs_BalanceDeducted res = column (b - b')) ∧
  (∃ o', st_orders s' !! o_ID o = Some o' ∧ core_of o' = core_of o ∧ o_Status o' = final_status amount (o_Amount o) ∧
     RefundAmount (o_Refund o') = amount) ∧
  st_balances s' = <[o_UserID o := b']> (st_balances s) ∧
  ∃ rq ans, accepted ans = true ∧
    attempts (o_ID o) s' = Some (mkAttempt amount (o_PaymentTradeNo o) (Some (Money (o_UserID o) (b - b'))) (Heard rq ans) None :: l).

Lemma lt_asym_zero x : Float.lt Float.zero x = true → Float.lt x Float.zero = false.
Proof. by destruct x as [[]|[]| |[] m e]. Qed.

Lemma accepted_judge ans : accepted ans = true → ∃ r, judge ans = Ok r ∧
  (TrimSpace (rr_Status r) = ProviderStatusSuccess ∨ TrimSpace (rr_Status r) = ProviderStatusRefunded).
Proof.
  destruct ans as [[r|] [|]]; try done. simpl. unfold validateRefundProviderResponse. intros E.
  apply orb_true_iff in E as [E|E]; rewrite E; [|rewrite orb_true_r]; exists r; (split; [done|]);
    apply bool_decide_eq_true in E; auto.
Qed.

Lemma deduct_available_ok_spec oid x s : Float.lt Float.zero x = true → o_UserID o ∈ st_users s →
  deduct_available oid (o_UserID o) x s =
  let b := balance_of (o_UserID o) (st_balances s) in let b' := after_deduction x b in
  (Ok (column (b - b')), with_refund (Deducted oid (Money (o_UserID o) (b - b'))) (with_balances (insert (o_UserID o) b') s)).
Proof. intros Hx Hu. unfold deduct_available. rewrite lt_asym_zero by done. by rewrite bool_decide_eq_true_2. Qed.

Lemma mark_ok_wp p s (Q : result perror RefundResult → Store → Prop) o1 : st_orders s !! rp_OrderID p = Some o1 →
  (∀ l, Q (Ok (successful p)) (with_audits (λ _, l)
     (with_orders (insert (rp_OrderID p) (touch (st_now s) (refunded p (st_now s) o1))) s))) →
  wp (markRefundOk p) Q s.
Proof using succeeds.
  intros Ho HQ. unfold markRefundOk, on_error, lift. apply r_clock, (r_write _ succeeds).
  unfold update_one, update_order, update_order_at. rewrite Ho. cbn [fst snd bind]. simpl (0 <? 1). cbn match. cbn [bind].
  apply (r_audit _ succeeds). intros l. apply HQ.
Qed.

Lemma gateway_wp p s (Q : result perror RefundResult → Store → Prop) : rp_Order p = o → o_PaymentTradeNo o ≠ [] →
  instance_found (accepting o i) o i (st_instances s) →
  (∀ rq ans, accepted ans = true → wp (markRefundOk p) Q (with_refund (Answered (rp_OrderID p) ans) (with_refund (Asked (rp_OrderID p) rq) s))) →
  wp (let! r := gwRefund p in match r with Err e => handleGwFail p e | Ok resp => finishRefund p resp end) Q s.
Proof using succeeds.
  intros Hp Htr Hi HQ. unfold gwRefund. rewrite Hp. cbv zeta. rewrite bool_decide_eq_false_2 by done. unfold on_error.
  eapply r_bind; [eapply r_bind; [apply (provider_found _ o i s Hi), ac_provider|]|intros r s' HP; exact HP].
  intros r s' [-> [k ->]]. apply r_ask. intros c Hc. rewrite (ac_merchant _ _ _ Hc). cbn [negb].
  apply r_log. apply r_ask. intros c' Hc'. apply r_log. cbn [bind].
  pose proof (ac_refund _ _ _ Hc' k (mkRefundRequest (o_PaymentTradeNo o) (o_OutTradeNo o)
                   (formatGatewayRefundAmount (rp_GatewayAmount p) o) (rp_Reason p))) as Hacc.
  destruct (accepted_judge _ Hacc) as (resp & Hj & Hst). unfold judge in Hj. cbn [Interleaving.wp]. rewrite Hj.
  unfold finishRefund, validateRefundProviderResponse. cbv zeta. destruct Hst as [-> | ->]; by apply HQ.
Qed.

Lemma deduct_balance_wp p s (Q : result perror RefundPlan → Store → Prop) :
  rp_Order p = o → rp_DeductionType p = DeductionTypeBalance → Float.lt Float.zero (rp_BalanceToDeduct p) = true →
  has_audit (rp_OrderID p) [REFUND_ROLLBACK_FAILED] s = false → o_UserID o ∈ st_users s →
  (let b := balance_of (o_UserID o) (st_balances s) in let b' := after_deduction (rp_BalanceToDeduct p) b in
   Q (Ok (plan_balance (column (b - b')) p))
     (with_refund (Deducted (rp_OrderID p) (Money (o_UserID o) (b - b'))) (with_balances (insert (o_UserID o) b') s))) →
  wp (deduct_balance p) Q s.
Proof using succeeds.
  intros Hp Ht Hx Hskip Hu HQ. unfold deduct_balance, takes_balance. rewrite Ht, Hx. cbn [bool_decide negb andb].
  unfold hasAuditLog. apply (r_read _ succeeds). unfold has_audit_q. rewrite Hskip. cbn [bind].
  apply (r_write _ succeeds). rewrite Hp, deduct_available_ok_spec by done. exact HQ.
Qed.

Lemma attempt_made oid x no d rq ans l s s' : attempts oid s = Some l →
  st_refunds s' = Answered oid ans :: Asked oid rq :: Deducted oid d :: Claimed oid x no :: st_refunds s →
  attempts oid s' = Some (mkAttempt x no (Some d) (Heard rq ans) None :: l).
Proof.
  intros Hl E.
  rewrite (attempts_events _ (with_refund (Answered oid ans) (with_refund (Asked oid rq) (with_refund (Deducted oid d) (with_refund (Claimed oid x no) s)))) s')
    by (unfold events; by rewrite E).
  by rewrite !attempts_cons, Hl by done.
Qed.

Lemma ExecuteRefund_wp p s amount l : attempts (o_ID o) s = Some l → st_orders s !! o_ID o = Some o → instance_found (accepting o i) o i (st_instances s) →
  rp_OrderID p = o_ID o → rp_Order p = o → rp_RefundAmount p = amount → rp_DeductionType p = DeductionTypeBalance →
  status_is refundable o = true → o_PaymentTradeNo o ≠ [] → Float.lt Float.zero (rp_BalanceToDeduct p) = true →
  has_audit (o_ID o) [REFUND_ROLLBACK_FAILED] s = false → o_UserID o ∈ st_users s →
  wp (ExecuteRefund p) (refund_done (rp_BalanceToDeduct p) amount l s) s.
Proof using succeeds.
  intros Hl Ho Hi Hid Hord Ham Ht Hst Htr Hx Hskip Hu. unfold ExecuteRefund, on_error at 1, lift at 1. apply (r_write _ succeeds).
  unfold claim_refund, update_order, update_order_at. rewrite Hid, Ho, Hst. cbn [fst snd bind]. simpl (1 =? 0). cbn match.
  unfold on_error. eapply r_bind; [eapply (deduct_balance_wp p); [done..|by rewrite Hid|done|]|].
  { instantiate (1 := λ r s', r = Ok _ ∧ s' = _). by split. }
  intros r s' [-> ->]. set (q := plan_balance _ p).
  assert (takes_days q = false) as Hd by (unfold takes_days; cbn [q plan_balance plan_deduction rp_DeductionType]; by rewrite Ht).
  unfold deduct_days. rewrite Hd. cbn [negb bind].
  apply gateway_wp; [done|done|done|]. intros rq ans Hacc.
  eapply (mark_ok_wp q); [cbn [q plan_balance plan_deduction rp_OrderID]; rewrite Hid; simpl; by rewrite lookup_insert_eq|].
  intros al. cbn [q plan_balance plan_deduction rp_OrderID]. rewrite Hid. unfold refund_done. cbv zeta. split_and!.
  - eexists. by split_and!.
  - eexists. split; [simpl; by rewrite lookup_insert_eq|]. split_and!; [done| |by simpl; rewrite Ham].
    change (refund_final_status q = final_status amount (o_Amount o)). rewrite <- Ham. apply (final_status_of q). change (core_of o = core_of (rp_Order p)). by rewrite Hord.
  - done.
  - exists rq, ans. split; [done|].
    rewrite <- Ham. eapply attempt_made; [done|]. simpl. by rewrite Hord.
Qed.


End accepted.

(** ** The query of a pending refund *)

(** Every call succeeds, and the provider answers [ans]. *)
Record answering (i : ProviderInstance) (ans : option RefundResponse) (c : choice (Q := question)) : Prop := {
  an_calls : ch_fault c = NoFault;
  an_provider : is_Some (ch_answer c _ (QProvider i));
  an_supported : ∀ k, ch_answer c _ (QSupportsRefundQuery k) = true;
  an_answer : ∀ k r, ch_answer c _ (QQueryRefund k r) = (ans, true);
  an_statement : ch_answer c _ QStatement = true
}.

Section queried.
Context (o : Order) (i : ProviderInstance) (ans : option RefundResponse).
Abbreviation wp := (Interleaving.wp (S := Store) (Q := question) Lost st_now (answering i ans)).
Let calls_succeed : ∀ c, answering i ans c → ch_fault c = NoFault := an_calls i ans.

(** The entries of an earlier conclusion: the index allows one of each. *)
Definition unconcluded (s : Store) : Prop :=
  has_audit (o_ID o) [REFUND_SUCCESS] s = false ∧ has_audit (o_ID o) [REFUND_FAILED] s = false.

(** The refund is concluded as refunded: what was taken stays taken. *)
Definition confirmed (a : attempt) (s : Store) (r : result perror RefundResult) (s' : Store) : Prop :=
  (∃ res, r = Ok res ∧ rs_Success res = true) ∧ st_balances s' = st_balances s ∧ st_refunds s' = st_refunds s ∧
  ∃ o', st_orders s' !! o_ID o = Some o' ∧ core_of o' = core_of o ∧ o_Status o' = final_status (at_Amount a) (o_Amount o).

(** The refund failed: what was taken is given back. *)
Definition given_back (a : attempt) (u z : Z) (l : list attempt) (s : Store) (r : result perror RefundResult) (s' : Store) : Prop :=
  let b := balance_of u (st_balances s) in
  let b' := round_scale (inject_Z b + numeric (column z)) in
  r = Ok unsuccessful ∧ st_balances s' = <[u := b']> (st_balances s) ∧
  (∃ o', st_orders s' !! o_ID o = Some o' ∧ core_of o' = core_of o ∧ o_Status o' = OrderStatusRefundFailed) ∧
  attempts (o_ID o) s' = Some (mkAttempt (at_Amount a) (at_TradeNo a) (Some (Money u z)) (at_Ask a) (Some (Money u (b' - b))) :: l).

Lemma success_wp d a s : waits (o_ID o) o d s → st_orders s !! o_ID o = Some o → o_Status o = OrderStatusRefundPending →
  at_Amount a = RefundAmount (o_Refund o) → unconcluded s →
  wp (finalizePendingRefundSuccess (applyTo d (refundFinalizePlan o))) (confirmed a s) s.
Proof using calls_succeed.
  intros Hw Ho Hst Ha [Hs _]. unfold finalizePendingRefundSuccess. apply r_clock, (r_write _ calls_succeed).
  set (p := applyTo d (refundFinalizePlan o)). unfold finalize_success. change (rp_OrderID p) with (o_ID o). rewrite Ho.
  unfold status_is. rewrite Hst, bool_decide_eq_true_2 by by left. cbn [negb].
  change (applyRefundFinalDeduction p s) with (Ok p : result dberr RefundPlan, s). cbn match.
  unfold with_entry. change (rp_OrderID p) with (o_ID o). rewrite Hs. cbn [commit fst snd Interleaving.wp].
  split_and!; [by eexists|done|done|]. eexists. split; [simpl; by rewrite lookup_insert_eq|]. split; [done|].
  change (refund_final_status p = final_status (at_Amount a) (o_Amount o)).
  rewrite Ha. by apply (final_status_of p o).
Qed.

Lemma failed_wp d a u z l s : rinv s → waits (o_ID o) o d s → st_orders s !! o_ID o = Some o → o_Status o = OrderStatusRefundPending →
  attempts (o_ID o) s = Some (a :: l) → at_Deduct a = Some (Money u z) → Float.lt Float.zero (column z) = true →
  u ∈ st_users s → unconcluded s →
  wp (finalizeRefundFailed (applyTo d (refundFinalizePlan o))) (given_back a u z l s) s.
Proof using calls_succeed.
  intros Hinv Hw Ho Hst Hl Hd Hz Hu [_ Hf]. set (p := applyTo d (refundFinalizePlan o)).
  destruct (waits_attempt _ _ _ _ _ Hinv Hw Ho Hst) as (_ & a' & l' & Hl' & _ & Haw & Hr & _ & Hows).
  rewrite Hl in Hl'. injection Hl' as <- <-. pose proof (awaits_closed _ Haw) as Hc.
  unfold owes, owed in Hows. fold p in Hows. rewrite Hd in Hows. destruct Hows as (Eu & Et & Ex).
  assert (takes_balance p = true) as Htb by (unfold takes_balance; by rewrite Et, Ex, Hz).
  assert (takes_days p = false) as Htd by (unfold takes_days; by rewrite Et).
  unfold finalizeRefundFailed. apply r_ask. intros c Hcall. rewrite (an_statement _ _ _ Hcall).
  apply r_clock, (r_write _ calls_succeed). unfold finalize_failed. change (rp_OrderID _) with (o_ID o). rewrite Ho.
  unfold status_is. rewrite Hst, bool_decide_eq_true_2 by by left. cbn [negb]. change (rp_deductionHeld _) with true. cbn [negb].
  fold p. unfold returnHeldRefundDeduction. rewrite Htb, Htd. unfold return_balance.
  rewrite <- Eu, bool_decide_eq_true_2 by done. cbn [negb]. cbv zeta. change (rp_OrderID p) with (o_ID o).
  unfold with_entry. cbn [has_audit]. change (has_audit (o_ID o) [REFUND_FAILED] _) with (has_audit (o_ID o) [REFUND_FAILED] s). rewrite Hf.
  cbn [commit fst snd Interleaving.wp]. unfold given_back. cbv zeta. rewrite Ex. split_and!; [done|done| |].
  - eexists. split; [simpl; by rewrite lookup_insert_eq|]. done.
  - set (b := balance_of _ _). set (b' := round_scale _).
    rewrite (attempts_events _ (with_refund (Returned (o_ID o) (Money u (b' - b))) s)) by done.
    rewrite attempts_cons, Hl by done. apply add_returned; [done..|]. apply gives_money, returned_near.
Qed.

(** The provider has decided. *)
Definition decided : bool := negb (undecided (ans, true)).

Lemma query_wp s a u z l : rinv s → st_orders s !! o_ID o = Some o → o_Status o = OrderStatusRefundPending →
  instance_found (answering i ans) o i (st_instances s) → attempts (o_ID o) s = Some (a :: l) →
  at_Deduct a = Some (Money u z) → Float.lt Float.zero (column z) = true → u ∈ st_users s → unconcluded s → decided = true →
  wp (QueryAndFinalizeRefund (o_ID o))
    (λ r s', if accepted (ans, true) then confirmed a s r s' else given_back a u z l s r s') s.
Proof using calls_succeed.
  intros Hinv Ho Hst Hi Hl Hd Hz Hu Hun Hdec. destruct (waits_row _ _ _ Hinv Ho Hst) as [d Hw].
  destruct (waits_attempt _ _ _ _ _ Hinv Hw Ho Hst) as (_ & a' & l' & Hl' & _ & _ & _ & Ha & _).
  rewrite Hl in Hl'. injection Hl' as <- <-.
  unfold QueryAndFinalizeRefund, on_error at 1, lift at 1. apply (r_read _ calls_succeed). unfold get_order. rewrite Ho. cbn [found bind].
  unfold status_is. rewrite Hst, bool_decide_eq_true_2 by by left. cbn [negb]. unfold on_error at 1.
  eapply r_bind; [apply (provider_found _ o i s Hi), an_provider|]. intros r s' [-> [k ->]].
  apply r_ask. intros c Hc. rewrite (an_supported _ _ _ Hc). cbn [negb].
  unfold latestRefundPendingDetail, on_error, lift. apply (r_read _ calls_succeed). rewrite (waits_detail _ _ _ _ Hw). cbn [bind].
  apply r_ask. intros c' Hc'. rewrite (an_answer _ _ _ Hc'). unfold final_plan. rewrite (proj1 (proj2 (proj2 Hw))). cbn [bind].
  assert (Hok : wp (finalizePendingRefundSuccess (applyTo d (refundFinalizePlan o))) (confirmed a s) s) by (by apply success_wp).
  assert (Hno : wp (finalizeRefundFailed (applyTo d (refundFinalizePlan o))) (given_back a u z l s) s) by (by apply failed_wp).
  revert Hok Hno Hdec. unfold decided. clear. generalize (answering i ans). intros B Hok Hno Hdec.
  destruct ans as [resp|]; [|exact Hno]. unfold undecided, accepted in *. unfold validateRefundProviderResponse.
  cbv zeta. apply negb_true_iff in Hdec. rewrite Hdec, orb_false_r.
  destruct (bool_decide _ || bool_decide _); [exact Hok|exact Hno].
Qed.

(** C13: after any run, asking the provider about a pending refund that took money
    from the balance of an existing user concludes it, when the calls succeed, no refund of the order was concluded before,
    and the provider has decided: if it reports success the order is refunded, the
    amount deciding in full or in part, and nothing else is taken; if not, the order
    is REFUND_FAILED, the attempt's deduction is given back to the user it was taken
    from, up to the rounding of the column, and the journal says so. *)
Theorem query_concludes_refund es s0 a u z l ch :
  no_refunds s0 → let s := reach sv es s0 in
  st_orders s !! o_ID o = Some o → o_Status o = OrderStatusRefundPending → instance_found (answering i ans) o i (st_instances s) →
  attempts (o_ID o) s = Some (a :: l) → at_Deduct a = Some (Money u z) → Float.lt Float.zero (column z) = true →
  u ∈ st_users s → unconcluded s → decided = true → (∀ n, answering i ans (ch n)) →
  let '(r, s') := run Lost st_now (QueryAndFinalizeRefund (o_ID o)) ch s in
  u = o_UserID o ∧ if accepted (ans, true) then confirmed a s r s' else given_back a u z l s r s'.
Proof using calls_succeed.
  intros Hs0 s Ho Hst Hi Hl Hd Hz Hu Hun Hdec Hch. destruct (refunds_reach sv es s0 (rinv_initial s0 Hs0)) as [Hinv _].
  pose proof (wp_run Lost st_now (answering i ans) _ _ _ ch Hch (query_wp s a u z l Hinv Ho Hst Hi Hl Hd Hz Hu Hun Hdec)) as Hrun.
  destruct (run Lost st_now _ ch s) as [r s']. split; [|done]. destruct (waits_row _ _ _ Hinv Ho Hst) as [d Hw].
  destruct (waits_attempt _ _ _ _ _ Hinv Hw Ho Hst) as (_ & a' & l' & Hl' & _ & _ & _ & _ & Hows).
  change (reach sv es s0) with s in Hl'. rewrite Hl in Hl'. injection Hl' as <- <-. unfold owes, owed in Hows. rewrite Hd in Hows. by destruct Hows as [-> _].
Qed.

End queried.
End liveness.
End RefundLiveness.
