(* ===== verification/RefundExamples.v ===== *)
(** * Runs of refunds at concrete inputs

    The order of [PaymentExamples], delivered, then refunded: what the theorems say of
    runs that can be computed, and the schedules that show what the code leaves open. *)

From Stdlib Require Import QArith.
From S2P Require Import Prelude Float64 GoStrings PaymentOrder Subscription Database Interleaving PaymentStore Redeem Payment Refund PaymentInvariant PaymentSafety PaymentSystem PaymentExamples RefundInvariant RefundOwner RefundTheorems RefundLiveness.

Module RefundExamples.
Import GoStrings PaymentOrder PaymentStore Redeem Payment Refund PaymentInvariant PaymentSafety PaymentSystem PaymentExamples RefundInvariant RefundTheorems RefundLiveness.

#[local] Existing Instances microseconds decimals beijing bytewise binary whole.

(** The provider's answers about refunds. *)
Definition replies (refund query : refund_answer) (X : Type) (q : question X) : X :=
  match q in question X return X with
  | QRefund _ _ => refund
  | QQueryRefund _ _ => query
  | q => answers _ q
  end.
Definition says (status : string) : refund_answer := (Some (mkRefundResponse (lit "re_1") (lit status)), true).
Definition with_replies (f : fault) (refund query : string) : choice := mkChoice f (replies (says refund) (says query)).

Abbreviation event := (event (Q := question) (Req := request)).
Definition steps (i n : nat) (refund query : string) : list event := repeat (Step i (with_replies NoFault refund query)) n.

Definition ask_refund : event := Spawn (RRefund 1 Float.zero (lit "by mail") false true).

Lemma store_no_refunds : no_refunds store.
Proof.
  split; [done|done|]. intros oid o Ho. change (st_orders store) with ({[1 := order]} : gmap Z Order) in Ho.
  apply lookup_singleton_Some in Ho as [<- <-]. split; [done|]. status_in.
Qed.

(** Where an order and its user's balance stand; whether every worker has returned. *)
Definition stands (es : list event) : option OrderStatus * option Z :=
  let s := reach service es store in (o_Status <$> st_orders s !! 1, st_balances s !! 7).
Definition all_returned (es : list event) : bool :=
  forallb (λ p, match p with Ret _ => true | _ => false end)
    (cf_pool (run_events Lost st_now advance (entry service) (mkConfig store []) es)).

(** ** The theorems at these inputs *)

Definition refunded_run : list event := delivery ++ ask_refund :: steps 1 30 "success" "success".
Definition refunded_order : Order := Eval vm_compute in default order (st_orders (reach service refunded_run store) !! 1).

Example refund_attempts_in_order_witness :
  ∃ l, attempts 1 (reach service refunded_run store) = Some l ∧ state_ok refunded_order l (reach service refunded_run store) ∧
    (length (pending_entries 1 (reach service refunded_run store)) ≤ 1)%nat.
Proof. apply (refund_attempts_in_order service refunded_run store 1 refunded_order); [apply store_no_refunds|by vm_compute]. Defined.

Example refunded_once_and_for_all_witness :
  events 1 (reach service (refunded_run ++ ask_refund :: steps 2 30 "success" "success") store) = events 1 (reach service refunded_run store).
Proof.
  destruct (refunded_once_and_for_all service refunded_run (ask_refund :: steps 2 30 "success" "success") store 1 refunded_order)
    as (_ & _ & Hkept); [apply store_no_refunds|by vm_compute|]. apply Hkept. status_in.
Defined.

Lemma refunded_run_admissible (strict : Prop) : admissible_events strict store refunded_run.
Proof. by repeat constructor. Qed.

Example only_delivered_orders_refunded_witness :
  ∃ id c, st_codes (reach service refunded_run store) !! id = Some c ∧ rc_Code c = o_RechargeCode refunded_order ∧
     value_ok refunded_order c = true ∧ credits (DueCode id) (reach service refunded_run store) =
       [mkGrant (DueCode id) (balance_credit (o_UserID refunded_order) (rc_Value c))].
Proof.
  destruct (only_delivered_orders_refunded service refunded_run store 1 refunded_order) as (_ & Hcredit & _);
    [apply store_created|apply store_no_refunds|apply refunded_run_admissible|by vm_compute|by vm_compute|].
  apply Hcredit. by vm_compute.
Defined.

(** The order of [PaymentExamples] as delivered names its instance by its identifier. *)
Lemma delivered_instance B : (∀ c, B c → ch_fault c = NoFault) → instance_found B completed alipay [alipay].
Proof.
  intros HB s Hs.
  assert (getRefundOrderProviderInstance completed =
    on_error (EWrap "refund provider instance") (lift (read (instance_by_id 3))) (λ i, Ret (Ok (Some i)))) as -> by by vm_compute.
  intros c Hc. simpl. rewrite (HB c Hc). unfold instance_by_id. rewrite Hs. by vm_compute.
Qed.

Definition accept : choice := with_replies NoFault "success" "success".

Lemma accept_accepting : accepting completed alipay accept.
Proof. split; [done|by eexists|by intros k; vm_compute|by intros k r; vm_compute]. Qed.


Definition pending_run : list event := delivery ++ ask_refund :: steps 1 30 "pending" "pending".
Definition pending_order : Order := Eval vm_compute in default order (st_orders (reach service pending_run store) !! 1).
Definition no_attempt : attempt := mkAttempt Float.zero [] None NotAsked None.
Definition pending_attempt : attempt := Eval vm_compute in
  default no_attempt (l ← attempts 1 (reach service pending_run store); head l).
Definition declined : option RefundResponse := Some (mkRefundResponse (lit "re_1") (lit "failed")).

Lemma pending_instance B : (∀ c, B c → ch_fault c = NoFault) → instance_found B pending_order alipay [alipay].
Proof.
  intros HB s Hs.
  assert (getRefundOrderProviderInstance pending_order =
    on_error (EWrap "refund provider instance") (lift (read (instance_by_id 3))) (λ i, Ret (Ok (Some i)))) as -> by by vm_compute.
  intros c Hc. simpl. rewrite (HB c Hc). unfold instance_by_id. rewrite Hs. by vm_compute.
Qed.

Example query_concludes_refund_witness :
  let s := reach service pending_run store in
  let '(r, s') := run Lost st_now (QueryAndFinalizeRefund (o_ID pending_order)) (λ _, with_replies NoFault "pending" "failed") s in
  7 = o_UserID pending_order ∧
  if accepted (declined, true) then confirmed pending_order pending_attempt s r s'
  else given_back pending_order pending_attempt 7 (10 * 10 ^ 8) [] s r s'.
Proof.
  assert (∀ n : nat, answering alipay declined (with_replies NoFault "pending" "failed")) as Han.
  { intros _. split; [done|by eexists|done|done|done]. }
  apply (query_concludes_refund service pending_order alipay declined pending_run store pending_attempt 7 (10 * 10 ^ 8) []
    (λ _, with_replies NoFault "pending" "failed") store_no_refunds);
    [by vm_compute|done|apply (pending_instance _ (an_calls alipay declined))|by vm_compute|done|by vm_compute
    |by apply (bool_decide_eq_true_1 _); vm_compute|by vm_compute|by vm_compute|exact Han].
Defined.
(** ** What the theorems leave out *)

Definition ask_query : event := Spawn (RQueryRefund 1).
Definition failed_run : list event := pending_run ++ ask_query :: steps 2 30 "pending" "failed".

Example declined_refund_returned : stands pending_run = (Some OrderStatusRefundPending, Some 0) ∧
  stands failed_run = (Some OrderStatusRefundFailed, Some (10 * 10 ^ 8)).
Proof. by vm_compute. Qed.

(** A refund the provider declined may be asked for again, but when the provider then
    wants to decide later, the entry REFUND_PENDING of the first attempt makes the
    transaction fail: every worker has returned, no call failed, the order is REFUNDING
    and its user's money is taken; no request leads out of REFUNDING. *)
Definition second_pending : list event := failed_run ++ ask_refund :: steps 3 30 "pending" "pending".
Definition no_way_out : list event :=
  second_pending ++ ask_refund :: steps 4 30 "success" "success" ++ ask_query :: steps 5 30 "success" "success".

Example second_pending_refund_stuck :
  stands no_way_out = (Some OrderStatusRefunding, Some 0) ∧ all_returned no_way_out = true.
Proof. by vm_compute. Qed.

(** A worker that dies after its claim leaves the same: REFUNDING has no lease. *)
Definition crashed : list event := delivery ++ ask_refund :: steps 1 6 "success" "success".

Example crashed_refund_stuck :
  stands (crashed ++ Tick (Z.to_N hour) :: ask_refund :: steps 2 30 "success" "success" ++ ask_query :: steps 3 30 "success" "success")
  = (Some OrderStatusRefunding, Some 0).
Proof. by vm_compute. Qed.

(** A deduction whose acknowledgement is lost is not given back: the order is COMPLETED
    again, and the next attempt takes the amount a second time. *)
Definition top_up : list event := Spawn (RSpend 7 (λ b, b + 10 * 10 ^ 8)) :: steps 1 3 "success" "success".
Definition lost_deduction : list event :=
  delivery ++ top_up ++ ask_refund :: steps 2 5 "success" "success"
  ++ Step 2 (with_replies FailAfter "success" "success") :: steps 2 30 "success" "success".

Example lost_deduction_taken_twice :
  stands lost_deduction = (Some OrderStatusCompleted, Some (10 * 10 ^ 8)) ∧
  stands (lost_deduction ++ ask_refund :: steps 3 30 "success" "success") = (Some OrderStatusRefunded, Some 0).
Proof. by vm_compute. Qed.

(** A user's request made between an administrator's reading of the order and the
    claim is forgotten when the provider declines: the status read first is restored. *)
Definition stale_restore : list event :=
  delivery ++ ask_refund :: steps 1 3 "failed" "failed"
  ++ Spawn (RRequestRefund 1 7 (lit "please")) :: steps 2 30 "failed" "failed".

Example restored_status_forgets_request :
  stands stale_restore = (Some OrderStatusRefundRequested, Some (10 * 10 ^ 8)) ∧
  stands (stale_restore ++ steps 1 30 "failed" "failed") = (Some OrderStatusCompleted, Some (10 * 10 ^ 8)).
Proof. by vm_compute. Qed.

(** A failed rollback leaves the entry REFUND_FAILED; when a later attempt is declined
    after waiting, that entry makes every conclusion fail: it stays REFUND_PENDING. *)
Definition forced_refund : event := Spawn (RRefund 1 Float.zero (lit "by mail") true true).
Definition rollback_lost : list event :=
  delivery ++ ask_refund :: steps 1 12 "failed" "failed"
  ++ Step 1 (with_replies FailBefore "failed" "failed") :: steps 1 30 "failed" "failed".
Definition declined_later : list event :=
  rollback_lost ++ forced_refund :: steps 2 30 "pending" "pending" ++ ask_query :: steps 3 30 "pending" "failed"
  ++ ask_query :: steps 4 30 "pending" "failed".

Example declined_refund_never_concluded :
  stands rollback_lost = (Some OrderStatusRefundFailed, Some 0) ∧
  stands declined_later = (Some OrderStatusRefundPending, Some 0) ∧ all_returned declined_later = true.
Proof. by vm_compute. Qed.

End RefundExamples.
