(* ===== verification/BatchRequest.v ===== *)
(** * Batch image requests: what a submission may contain and what it costs

    Models the request half of [service/batch_image_public.go]: the limits and
    their defaults, [validateSubmitRequest] with the expansion of an item into its
    repeats, [normalizeBatchImageReferenceInputs], and [resolvePricingSnapshot].
    The errors of the whole component are declared here. *)

From S2P Require Import Prelude Float64 GoStrings PaymentOrder.

Module BatchRequest.
Import GoStrings.

(** ** Errors: the variables [ErrBatchImage...] of [service/batch_image.go]

    [errors.Is] compares the reasons, so a wrapped cause is left out.  [Lost] is a
    call to the database that failed for a reason outside the model. *)
Inductive berror :=
  | Lost
  | JobNotFound | JobExists | ItemExists
  | InvalidTransition | InvalidProvider
  | MissingProviderJobName | MissingAccountID | UnsupportedProvider | UnsupportedAccount
  | IndexOutputMissing | IndexParseFailed | IndexNoResultLines | DuplicateCustomID | IndexStateConflict
  | SettlementInvalidStatus | SettlementManifestConflict | SettlementPricingMissing | SettlementBillingFailed
  | AlreadySettled | SettlementMissingAPIKeyID | SettlementMissingAccountID | SettlementInvalidCounts
  | SettlementCostExceedsHold | BillingHoldFailed | InsufficientBalance | FrozenInsufficient
  | RequestConflict | RequestIDRequired | UserNotFound
  | Disabled | GroupDisabled | InvalidModel | NoAccountAvailable | InvalidItems | DuplicateCustomIDInRequest
  | PromptTooLong | InvalidReferenceImage | TooManyReferenceImages | ReferenceImagesTooLarge
  | TooManyOutputImages | ProviderSubmitFailed | QueueFailed | IdempotencyConflict | CancelFailed
  | ManagedBucketMissing | VertexGCSBucketMissing | MissingAPIKey | MissingServiceAccount
  | OutputDeleteNotReady | RecordDeleteNotReady | CleanupFailed | ProviderCleanupFailed | CleanupUnsafePath.
#[export] Instance berror_eq_dec : EqDecision berror.
Proof. solve_decision. Defined.

Abbreviation res := (result berror) (only parsing).

(** [infraerrors.Reason]; errors made by [errors.New] and those from outside have none. *)
Definition Reason (e : berror) : bytes :=
  match e with
  | JobNotFound => lit "BATCH_IMAGE_JOB_NOT_FOUND"
  | JobExists => lit "BATCH_IMAGE_JOB_EXISTS"
  | ItemExists => lit "BATCH_IMAGE_ITEM_EXISTS"
  | InvalidTransition => lit "BATCH_IMAGE_INVALID_TRANSITION"
  | InvalidProvider => lit "BATCH_IMAGE_INVALID_PROVIDER"
  | MissingProviderJobName => lit "BATCH_IMAGE_MISSING_PROVIDER_JOB_NAME"
  | MissingAccountID => lit "BATCH_IMAGE_MISSING_ACCOUNT_ID"
  | UnsupportedProvider => lit "BATCH_IMAGE_UNSUPPORTED_PROVIDER"
  | UnsupportedAccount => lit "BATCH_IMAGE_PROVIDER_UNSUPPORTED_ACCOUNT"
  | IndexOutputMissing => lit "BATCH_IMAGE_INDEX_OUTPUT_MISSING"
  | IndexParseFailed => lit "BATCH_IMAGE_INDEX_PARSE_FAILED"
  | IndexNoResultLines => lit "BATCH_IMAGE_INDEX_NO_RESULT_LINES"
  | DuplicateCustomID => lit "DUPLICATE_CUSTOM_ID_IN_OUTPUT"
  | IndexStateConflict => lit "BATCH_IMAGE_INDEX_STATE_CONFLICT"
  | SettlementInvalidStatus => lit "BATCH_IMAGE_SETTLEMENT_INVALID_STATUS"
  | SettlementManifestConflict => lit "BATCH_IMAGE_SETTLEMENT_MANIFEST_CONFLICT"
  | SettlementPricingMissing => lit "BATCH_IMAGE_SETTLEMENT_PRICING_MISSING"
  | SettlementBillingFailed => lit "BATCH_IMAGE_SETTLEMENT_BILLING_FAILED"
  | AlreadySettled => lit "BATCH_IMAGE_ALREADY_SETTLED"
  | SettlementMissingAPIKeyID => lit "BATCH_IMAGE_SETTLEMENT_MISSING_API_KEY_ID"
  | SettlementMissingAccountID => lit "BATCH_IMAGE_SETTLEMENT_MISSING_ACCOUNT_ID"
  | SettlementInvalidCounts => lit "BATCH_IMAGE_SETTLEMENT_INVALID_COUNTS"
  | SettlementCostExceedsHold => lit "BATCH_IMAGE_SETTLEMENT_COST_EXCEEDS_HOLD"
  | BillingHoldFailed => lit "BATCH_IMAGE_BILLING_HOLD_FAILED"
  | InsufficientBalance => lit "BATCH_IMAGE_INSUFFICIENT_BALANCE"
  | UserNotFound => lit "USER_NOT_FOUND"
  | Disabled => lit "BATCH_IMAGE_DISABLED"
  | GroupDisabled => lit "BATCH_IMAGE_GROUP_DISABLED"
  | InvalidModel => lit "BATCH_IMAGE_INVALID_MODEL"
  | NoAccountAvailable => lit "BATCH_IMAGE_NO_ACCOUNT_AVAILABLE"
  | InvalidItems => lit "BATCH_IMAGE_INVALID_ITEMS"
  | DuplicateCustomIDInRequest => lit "BATCH_IMAGE_DUPLICATE_CUSTOM_ID"
  | PromptTooLong => lit "BATCH_IMAGE_PROMPT_TOO_LONG"
  | InvalidReferenceImage => lit "BATCH_IMAGE_INVALID_REFERENCE_IMAGE"
  | TooManyReferenceImages => lit "BATCH_IMAGE_TOO_MANY_REFERENCE_IMAGES"
  | ReferenceImagesTooLarge => lit "BATCH_IMAGE_REFERENCE_IMAGES_TOO_LARGE"
  | TooManyOutputImages => lit "BATCH_IMAGE_TOO_MANY_OUTPUT_IMAGES"
  | ProviderSubmitFailed => lit "BATCH_IMAGE_PROVIDER_SUBMIT_FAILED"
  | QueueFailed => lit "BATCH_IMAGE_QUEUE_FAILED"
  | IdempotencyConflict => lit "BATCH_IMAGE_IDEMPOTENCY_CONFLICT"
  | CancelFailed => lit "BATCH_IMAGE_CANCEL_FAILED"
  | ManagedBucketMissing => lit "VERTEX_MANAGED_GCS_BUCKET_MISSING"
  | VertexGCSBucketMissing => lit "BATCH_IMAGE_VERTEX_GCS_BUCKET_MISSING"
  | MissingAPIKey => lit "BATCH_IMAGE_PROVIDER_MISSING_API_KEY"
  | MissingServiceAccount => lit "BATCH_IMAGE_PROVIDER_MISSING_SERVICE_ACCOUNT"
  | OutputDeleteNotReady => lit "BATCH_IMAGE_OUTPUT_DELETE_NOT_READY"
  | RecordDeleteNotReady => lit "BATCH_IMAGE_RECORD_DELETE_NOT_READY"
  | CleanupFailed => lit "BATCH_IMAGE_CLEANUP_FAILED"
  | ProviderCleanupFailed => lit "BATCH_IMAGE_PROVIDER_CLEANUP_FAILED"
  | CleanupUnsafePath => lit "BATCH_IMAGE_CLEANUP_UNSAFE_PATH"
  | Lost | FrozenInsufficient | RequestConflict | RequestIDRequired => []
  end.

(** ** Strings *)

Definition BatchImageProviderGeminiAPI : bytes := lit "gemini_api".
Definition BatchImageProviderVertex : bytes := lit "vertex".

Definition IsSupportedBatchImageProvider (p : bytes) : bool :=
  bool_decide (p = BatchImageProviderGeminiAPI) || bool_decide (p = BatchImageProviderVertex).

Definition truncateBatchImageMessage (message : bytes) (limit : Z) : bytes :=
  let message := TrimSpace message in
  if (limit <=? 0) || (Z.of_nat (length message) <=? limit) then message
  else take (Z.to_nat limit) message.

Definition batchImageDerefString (v : option bytes) : bytes :=
  match v with Some s => TrimSpace s | None => [] end.

Definition batchImageOptionalStringPtr (v : bytes) : option bytes :=
  let v := TrimSpace v in if bool_decide (v = []) then None else Some v.

(** [fmt.Sprintf("%0*d", width, z)] of a number that is not negative. *)
Definition pad_zero (width : nat) (z : Z) : bytes :=
  let d := FormatInt z in repeat "0"%char (width - length d) ++ d.

(** ** The request *)

Record BatchImageReferenceInput := mkReference {
  ref_ID : bytes;
  ref_Type : bytes;
  ref_MimeType : bytes;
  ref_Data : bytes;
  ref_FileURI : bytes
}.

Record BatchImageSubmitItem := mkItem {
  CustomID : bytes;
  Prompt : bytes;
  OutputCount : Z;
  ReferenceImages : list BatchImageReferenceInput
}.

Record BatchImageSubmitRequest := mkRequest {
  Model : bytes;
  TaskName : bytes;
  ParentBatchID : bytes;
  Provider : bytes;
  Items : list BatchImageSubmitItem;
  ResponseMimeType : bytes;
  AspectRatio : bytes;
  ImageSize : bytes
}.

(** The section [BatchImage] of the configuration; a bound that is not positive
    means its default. *)
Record Limits := mkLimits {
  cfg_MaxItemsPerJobDefault : Z;
  cfg_MaxOutputImagesPerJob : Z;
  cfg_MaxOutputImagesPerItem : Z;
  cfg_MaxPromptCharsPerItem : Z;
  cfg_MaxReferenceImagesPerJob : Z;
  cfg_MaxReferenceInlineBytesPerJob : Z;
  cfg_DefaultResponseMimeType : bytes;
  cfg_DefaultImageSize : bytes
}.

Definition or_default (x d : Z) : Z := if 0 <? x then x else d.
Definition maxItems (c : Limits) : Z := or_default (cfg_MaxItemsPerJobDefault c) 200.
Definition maxOutputImagesPerJob (c : Limits) : Z := or_default (cfg_MaxOutputImagesPerJob c) 200.
Definition maxOutputImagesPerItem (c : Limits) : Z := or_default (cfg_MaxOutputImagesPerItem c) 4.
Definition maxPromptChars (c : Limits) : Z := or_default (cfg_MaxPromptCharsPerItem c) 8000.
Definition maxReferenceImagesPerJob (c : Limits) : Z := or_default (cfg_MaxReferenceImagesPerJob c) 1000.
Definition maxReferenceInlineBytesPerJob (c : Limits) : Z :=
  or_default (cfg_MaxReferenceInlineBytesPerJob c) (128 * 1024 * 1024).
Definition defaultResponseMimeType (c : Limits) : bytes :=
  let s := TrimSpace (cfg_DefaultResponseMimeType c) in if bool_decide (s = []) then lit "image/png" else s.
Definition defaultBatchImageImageSize : bytes := lit "1K".
Definition defaultImageSize (c : Limits) : bytes :=
  let s := TrimSpace (cfg_DefaultImageSize c) in if bool_decide (s = []) then defaultBatchImageImageSize else s.
Definition maxBatchImageReferenceImageBytes : Z := 10 * 1024 * 1024.

Definition batchImageRepeatSuffixWidth (count : Z) : nat :=
  if count <? 10 then 2%nat else length (FormatInt count).

Definition lenZ {A} (l : list A) : Z := Z.of_nat (length l).

Section validate.
Context `{Unicode} `{UnicodeFold} (cfg : Limits).

(** *** Reference images *)

Definition maxBatchImageReferenceImagesForModel (model : bytes) : Z :=
  let model := ToLower (TrimSpace model) in
  if Contains model (lit "pro-image") then 14
  else if Contains model (lit "flash-image") then 3
  else 0.

Definition normalizeBatchImageReferenceMimeType (v : bytes) : bytes :=
  let v := ToLower (TrimSpace v) in
  if bool_decide (v = lit "image/jpeg") || bool_decide (v = lit "image/jpg") then lit "image/jpeg"
  else if bool_decide (v = lit "image/png") then lit "image/png"
  else if bool_decide (v = lit "image/webp") then lit "image/webp"
  else [].

Definition normalize_reference (r : BatchImageReferenceInput) : res BatchImageReferenceInput :=
  let r := mkReference (truncateBatchImageMessage (TrimSpace (ref_ID r)) 80)
             (truncateBatchImageMessage (TrimSpace (ref_Type r)) 40)
             (normalizeBatchImageReferenceMimeType (ref_MimeType r)) (ref_Data r) (TrimSpace (ref_FileURI r)) in
  if bool_decide (ref_MimeType r = []) then Err InvalidReferenceImage
  else if bool_decide (ref_Data r = []) && bool_decide (ref_FileURI r = []) then Err InvalidReferenceImage
  else if negb (bool_decide (ref_Data r = [])) && negb (bool_decide (ref_FileURI r = [])) then Err InvalidReferenceImage
  else if maxBatchImageReferenceImageBytes <? lenZ (ref_Data r) then Err InvalidReferenceImage
  else if negb (bool_decide (ref_FileURI r = [])) && negb (HasPrefix (ref_FileURI r) (lit "gs://"))
  then Err InvalidReferenceImage
  else Ok r.

Fixpoint normalize_references (l : list BatchImageReferenceInput) : res (list BatchImageReferenceInput) :=
  match l with
  | [] => Ok []
  | r :: l =>
      let* r := normalize_reference r in
      let* l := normalize_references l in
      Ok (r :: l)
  end.

(** The item with its references normalised, their number, their inline bytes. *)
Definition normalizeBatchImageReferenceInputs (model : bytes) (item : BatchImageSubmitItem)
    : res (BatchImageSubmitItem * Z * Z) :=
  if bool_decide (ReferenceImages item = []) then Ok (item, 0, 0)
  else
    let maxRefs := maxBatchImageReferenceImagesForModel model in
    if (maxRefs <=? 0) || (maxRefs <? lenZ (ReferenceImages item)) then Err TooManyReferenceImages
    else
      let* out := normalize_references (ReferenceImages item) in
      Ok (mkItem (CustomID item) (Prompt item) (OutputCount item) out, lenZ out,
          sumZ (λ r, lenZ (ref_Data r)) out).

(** *** Items *)

(** The loop's variables. *)
Record Totals := mkTotals {
  seen : list bytes;
  totalReferenceImages : Z;
  totalInlineReferenceBytes : Z;
  totalOutputImages : Z;
  expandedItems : list BatchImageSubmitItem
}.

(** The inner loop: repeat [k + 1 .. outputCount] of an item. *)
Fixpoint expand_item (item : BatchImageSubmitItem) (outputCount : Z) (rest : nat) (t : Totals) : res Totals :=
  match rest with
  | O => Ok t
  | S rest =>
      let repeatIndex := outputCount - Z.of_nat rest in
      let id := if 1 <? outputCount
                then CustomID item ++ "_"%char :: pad_zero (batchImageRepeatSuffixWidth outputCount) repeatIndex
                else CustomID item in
      if bool_decide (id ∈ seen t) then Err DuplicateCustomIDInRequest
      else expand_item item outputCount rest
             (mkTotals (id :: seen t) (totalReferenceImages t) (totalInlineReferenceBytes t) (totalOutputImages t)
                (expandedItems t ++ [mkItem id (Prompt item) 0 (ReferenceImages item)]))
  end.

Definition validate_item (model : bytes) (i : nat) (item : BatchImageSubmitItem) (t : Totals) : res Totals :=
  let id := TrimSpace (CustomID item) in
  let id := if bool_decide (id = []) then lit "item_" ++ pad_zero 6 (Z.of_nat i + 1) else id in
  let outputCount := if OutputCount item =? 0 then 1 else OutputCount item in
  if (outputCount <? 1) || (maxOutputImagesPerItem cfg <? outputCount) then Err InvalidItems
  else
    let outputs := totalOutputImages t + outputCount in
    if maxOutputImagesPerJob cfg <? outputs then Err TooManyOutputImages
    else
      let prompt := TrimSpace (Prompt item) in
      if bool_decide (prompt = []) then Err InvalidItems
      else if maxPromptChars cfg <? lenZ prompt then Err PromptTooLong
      else
        let* refs := normalizeBatchImageReferenceInputs model (mkItem id prompt (OutputCount item) (ReferenceImages item)) in
        let '(item, referenceCount, inlineReferenceBytes) := refs in
        let refs := totalReferenceImages t + referenceCount * outputCount in
        if maxReferenceImagesPerJob cfg <? refs then Err TooManyReferenceImages
        else
          let inline := totalInlineReferenceBytes t + inlineReferenceBytes * outputCount in
          if maxReferenceInlineBytesPerJob cfg <? inline then Err ReferenceImagesTooLarge
          else expand_item item outputCount (Z.to_nat outputCount)
                 (mkTotals (seen t) refs inline outputs (expandedItems t)).

Fixpoint validate_items (model : bytes) (i : nat) (l : list BatchImageSubmitItem) (t : Totals) : res Totals :=
  match l with
  | [] => Ok t
  | item :: l => let* t := validate_item model i item t in validate_items model (S i) l t
  end.

(** [defaultTaskName]: a name made of the current time. *)
Definition validateSubmitRequest (defaultTaskName : bytes) (req : BatchImageSubmitRequest) : res BatchImageSubmitRequest :=
  let model := TrimSpace (Model req) in
  let taskName := TrimSpace (TaskName req) in
  let provider := TrimSpace (Provider req) in
  let mime := TrimSpace (ResponseMimeType req) in
  let size := TrimSpace (ImageSize req) in
  if bool_decide (model = []) then Err InvalidModel
  else
    let taskName := if bool_decide (taskName = []) then defaultTaskName else taskName in
    let taskName := if 255 <? lenZ taskName then truncateBatchImageMessage taskName 255 else taskName in
    if negb (bool_decide (provider = [])) && negb (IsSupportedBatchImageProvider provider) then Err UnsupportedProvider
    else if bool_decide (Items req = []) then Err InvalidItems
    else if maxItems cfg <? lenZ (Items req) then Err InvalidItems
    else
      let mime := if bool_decide (mime = []) then defaultResponseMimeType cfg else mime in
      let size := if bool_decide (size = []) then defaultImageSize cfg else size in
      if negb (EqualFold size defaultBatchImageImageSize) then Err InvalidItems
      else
        let* t := validate_items model 0 (Items req) (mkTotals [] 0 0 0 []) in
        Ok (mkRequest model taskName (TrimSpace (ParentBatchID req)) provider (expandedItems t) mime
              (TrimSpace (AspectRatio req)) defaultBatchImageImageSize).

(** *** What an accepted request holds *)

Definition item_ok (item : BatchImageSubmitItem) : Prop :=
  CustomID item ≠ [] ∧ Prompt item ≠ [] ∧ lenZ (Prompt item) ≤ maxPromptChars cfg.

Record totals_ok (t : Totals) : Prop := {
  to_seen : seen t ≡ₚ (CustomID <$> expandedItems t);
  to_unique : NoDup (seen t);
  to_items : Forall item_ok (expandedItems t)
}.

Lemma expand_item_ok item n rest : ∀ t t', expand_item item n rest t = Ok t' → item_ok item → totals_ok t →
  totals_ok t' ∧ lenZ (expandedItems t') = lenZ (expandedItems t) + Z.of_nat rest ∧
  totalOutputImages t' = totalOutputImages t.
Proof.
  induction rest as [|rest IH]; intros t t' Hx Hitem Ht; simpl in Hx; [injection Hx as <-; split_and!; [done|lia|done]|].
  case_bool_decide as Hin; [done|]. set (id := if 1 <? n then _ else _) in Hx, Hin.
  apply IH in Hx as (Ht' & Hlen & Hout); [|done|].
  - split_and!; [done| |done]. rewrite Hlen. unfold lenZ. simpl. rewrite length_app. simpl. lia.
  - destruct Ht as [Hs Hu Hi], Hitem as (Hid & Hp & Hl). split; simpl.
    + rewrite fmap_app, Hs. simpl. apply Permutation_cons_append.
    + by constructor.
    + apply Forall_app. split; [done|]. constructor; [|done]. split_and!; [|done|done]. simpl. subst id.
      destruct (1 <? n); [|done]. by destruct (CustomID item).
Qed.

Lemma normalize_inputs_item model item item' n m :
  normalizeBatchImageReferenceInputs model item = Ok (item', n, m) →
  CustomID item' = CustomID item ∧ Prompt item' = Prompt item.
Proof.
  unfold normalizeBatchImageReferenceInputs. intros Hn. step_all. apply rbind_ok in Hn as (out & _ & Hn). by simplify_eq/=.
Qed.

Lemma validate_item_ok model i item t t' : validate_item model i item t = Ok t' → totals_ok t →
  lenZ (expandedItems t) = totalOutputImages t →
  totals_ok t' ∧ lenZ (expandedItems t') = totalOutputImages t' ∧
  totalOutputImages t < totalOutputImages t' ≤ maxOutputImagesPerJob cfg.
Proof.
  unfold validate_item. intros Hv Ht Hlen. set (id := if bool_decide (TrimSpace (CustomID item) = []) then _ else _) in Hv.
  set (n := if OutputCount item =? 0 then 1 else OutputCount item) in Hv.
  destruct ((n <? 1) || _) eqn:Hn; [done|]. bool_hyp.
  destruct (maxOutputImagesPerJob cfg <? _) eqn:Hout; [done|]. bool_hyp. case_bool_decide as Hp; [done|].
  destruct (maxPromptChars cfg <? _) eqn:Hl; [done|]. bool_hyp.
  apply rbind_ok in Hv as ([[item' r] b] & Hr & Hv). apply normalize_inputs_item in Hr as [Hid Hpr].
  repeat (case_match; [done|]). apply expand_item_ok in Hv as (Ht' & Hlen' & Hout').
  - simpl in *. rewrite Z2Nat.id in Hlen' by lia. split_and!; [done|lia|lia|lia].
  - split_and!; [rewrite Hid|by rewrite Hpr|by rewrite Hpr]. simpl. subst id. by case_bool_decide.
  - destruct Ht. by split.
Qed.

Lemma validate_items_ok model l : ∀ i t t', validate_items model i l t = Ok t' → totals_ok t →
  lenZ (expandedItems t) = totalOutputImages t → totalOutputImages t ≤ maxOutputImagesPerJob cfg →
  totals_ok t' ∧ lenZ (expandedItems t') = totalOutputImages t' ∧
  totalOutputImages t + lenZ l ≤ totalOutputImages t' ≤ maxOutputImagesPerJob cfg.
Proof.
  induction l as [|item l IH]; intros i t t' Hv Ht Hlen Hmax; simpl in Hv; [injection Hv as <-; unfold lenZ in *; simpl; split_and!; [done|done|lia|lia]|].
  apply rbind_ok in Hv as (t1 & H1 & Hv). apply validate_item_ok in H1 as (Ht1 & Hlen1 & Hlt & Hmax1); [|done|done].
  apply IH in Hv as (Ht' & Hlen' & Hle & Hmax'); [|done..]. split_and!; [done|done| |done]. unfold lenZ in *. simpl. lia.
Qed.

(** What [validateSubmitRequest] lets through: the items it hands on have
    distinct, non-empty identifiers and prompts within the bound, there is at least
    one for every item of the request and at most the configured number of images. *)
Lemma validated_items_ok name req r : validateSubmitRequest name req = Ok r →
  NoDup (CustomID <$> Items r) ∧ Forall item_ok (Items r) ∧
  0 < lenZ (Items req) ≤ lenZ (Items r) ∧ lenZ (Items r) ≤ maxOutputImagesPerJob cfg ∧
  Model r ≠ [] ∧ (Provider r = [] ∨ IsSupportedBatchImageProvider (Provider r) = true).
Proof.
  unfold validateSubmitRequest. intros Hv. case_bool_decide as Hm; [done|].
  destruct (negb _ && negb _) eqn:Hp; [done|]. case_bool_decide as Hne; [done|].
  repeat (case_match; [done|]). apply rbind_ok in Hv as (t & Ht & [= <-]). simpl.
  apply validate_items_ok in Ht as (Hok & Hlen & Hle & Hmax).
  - destruct Hok as [Hs Hu Hi]. rewrite <- Hs. rewrite Hlen.
    assert (0 < lenZ (Items req)) by (unfold lenZ; destruct (Items req); simpl; [done|lia]).
    split_and!; [done|done|done|simpl in *; lia|done|done|].
    apply andb_false_iff in Hp as [Hp|Hp]; bool_hyp; [by left|by right].
  - split; [done|constructor|constructor].
  - done.
  - simpl. unfold maxOutputImagesPerJob, or_default. destruct (Z.ltb_spec 0 (cfg_MaxOutputImagesPerJob cfg)); lia.
Qed.
End validate.

(** ** Prices *)

(** The group's columns pricing reads; [GetImagePrice("1K")] is [ImagePrice1K]. *)
Record PricingGroup := mkPricingGroup {
  AllowBatchImageGeneration : bool;
  RateMultiplier : float64;
  ImageRateIndependent : bool;
  ImageRateMultiplier : float64;
  BatchImageDiscountMultiplier : float64;
  BatchImageHoldMultiplier : float64;
  ImagePrice1K : option float64
}.

Record BatchImagePricingSnapshot := mkSnapshot {
  BaseUnitPrice : float64;
  GroupRateMultiplier : float64;
  AccountRateMultiplier : float64;
  BatchDiscountMultiplier : float64;
  HoldMultiplier : float64;
  BillableUnitPrice : float64;
  HoldUnitPrice : float64;
  EstimatedCost : float64;
  HoldAmount : float64
}.

Definition one : float64 := Float.of_Z 1.
Definition minus_one : float64 := Float.of_Z (-1).
Definition defaultBatchImageDiscountMultiplier : float64 := Float.decimal 5 1.
Definition defaultBatchImageHoldMultiplier : float64 := Float.decimal 6 1.

(** [if x < 0 { x = 0 }] *)
Definition clamp0 (x : float64) : float64 := if Float.lt x Float.zero then Float.zero else x.

(** [Account.BillingRateMultiplier] *)
Definition BillingRateMultiplier (rate : option float64) : float64 :=
  match rate with
  | None => one
  | Some r => if Float.lt r Float.zero then one else r
  end.

(** The variables the group's branch sets: unit, group, discount and hold
    multiplier.  [userRate]: what the user's own rate for the group is, or [None]
    when no rate repository is configured. *)
Definition group_pricing (g : PricingGroup) (userRate : option (res (option float64)))
    : res (float64 * float64 * float64 * float64) :=
  if negb (AllowBatchImageGeneration g) then Err GroupDisabled
  else
    let* effective := match userRate with
                      | None => Ok (clamp0 (RateMultiplier g))
                      | Some (Err _) => Err SettlementPricingMissing
                      | Some (Ok None) => Ok (clamp0 (RateMultiplier g))
                      | Some (Ok (Some r)) => Ok r
                      end in
    let groupMultiplier := clamp0 (if ImageRateIndependent g then ImageRateMultiplier g else effective) in
    let discount := clamp0 (BatchImageDiscountMultiplier g) in
    let hold := if Float.le Float.zero (BatchImageHoldMultiplier g) then BatchImageHoldMultiplier g
                else defaultBatchImageHoldMultiplier in
    let unit := match ImagePrice1K g with
                | Some u => if Float.le Float.zero u then u else minus_one
                | None => minus_one
                end in
    Ok (unit, groupMultiplier, discount, hold).

(** [resolvePricingSnapshot]: [group] is the owner's group when it has one (and
    [Err] when it cannot be loaded), [resolved] the model's price, [rate] the
    account's multiplier, [count] the number of items. *)
Definition resolvePricingSnapshot (group : option (res PricingGroup)) (userRate : option (res (option float64)))
    (resolved : res float64) (rate : option float64) (count : Z) : res BatchImagePricingSnapshot :=
  let* v := match group with
            | None => Ok (minus_one, one, defaultBatchImageDiscountMultiplier, defaultBatchImageHoldMultiplier)
            | Some (Err _) => Err SettlementPricingMissing
            | Some (Ok g) => group_pricing g userRate
            end in
  let '(unit, groupMultiplier, discount, hold) := v in
  let* unit := if Float.lt unit Float.zero
               then match resolved with
                    | Ok u => if Float.lt u Float.zero then Err SettlementPricingMissing else Ok u
                    | Err _ => Err SettlementPricingMissing
                    end
               else Ok unit in
  let hold := if Float.lt hold discount then discount else hold in
  let accountMultiplier := clamp0 (BillingRateMultiplier rate) in
  let standardUnitPrice := Float.mul (Float.mul unit groupMultiplier) accountMultiplier in
  let billableUnitPrice := Float.mul standardUnitPrice discount in
  let holdUnitPrice := Float.mul standardUnitPrice hold in
  Ok (mkSnapshot unit groupMultiplier accountMultiplier discount hold billableUnitPrice holdUnitPrice
        (Float.mul billableUnitPrice (Float.of_Z count)) (Float.mul holdUnitPrice (Float.of_Z count))).

Lemma clamp0_nonneg x : Float.lt (clamp0 x) Float.zero = false.
Proof. unfold clamp0. by destruct (Float.lt x Float.zero) eqn:E. Qed.

(** No factor of a snapshot is negative, and the share held back is never below the
    share that will be charged: the clamp the comment of the source asks for. *)
Theorem pricing_snapshot_bounds group userRate resolved rate count p :
  resolvePricingSnapshot group userRate resolved rate count = Ok p →
  Float.lt (BaseUnitPrice p) Float.zero = false ∧ Float.lt (GroupRateMultiplier p) Float.zero = false ∧
  Float.lt (AccountRateMultiplier p) Float.zero = false ∧ Float.lt (BatchDiscountMultiplier p) Float.zero = false ∧
  Float.lt (HoldMultiplier p) (BatchDiscountMultiplier p) = false ∧
  BillableUnitPrice p = Float.mul (Float.mul (Float.mul (BaseUnitPrice p) (GroupRateMultiplier p)) (AccountRateMultiplier p))
                          (BatchDiscountMultiplier p) ∧
  HoldUnitPrice p = Float.mul (Float.mul (Float.mul (BaseUnitPrice p) (GroupRateMultiplier p)) (AccountRateMultiplier p))
                      (HoldMultiplier p).
Proof.
  unfold resolvePricingSnapshot. intros Hr. apply rbind_ok in Hr as ([[[unit gm] disc] hold] & Hg & Hr).
  apply rbind_ok in Hr as (u & Hu & [= <-]). simpl.
  assert (Hgd : Float.lt gm Float.zero = false ∧ Float.lt disc Float.zero = false).
  { destruct group as [[g|]|]; [|done|].
    - unfold group_pricing in Hg. destruct (negb _); [done|]. apply rbind_ok in Hg as (e & _ & [= _ <- <- _]).
      split; apply clamp0_nonneg.
    - by injection Hg as _ <- <- _. }
  destruct Hgd as [Hgm Hd]. split_and!; [|done|apply clamp0_nonneg|done| |done|done].
  - destruct (Float.lt unit Float.zero) eqn:Hneg; [|by injection Hu as <-]. destruct resolved as [v|]; [|done].
    destruct (Float.lt v Float.zero) eqn:Hv; [done|]. by injection Hu as <-.
  - destruct (Float.lt hold disc) eqn:Hc; [|done]. unfold Float.lt, SFltb, SFcompare. destruct disc as [[]|[]| |[] m e]; try done; by rewrite ?Z.compare_refl, ?Pos.compare_refl.
Qed.

(** A byte slice may end inside a code point: a message in Chinese is cut into
    text that is not UTF-8, which the database refuses. *)
Example truncation_breaks_utf8 :
  let s := lit "ab" ++ map byte_of [229; 134; 187]%nat in
  ValidString s = true ∧ ValidString (truncateBatchImageMessage s 4) = false.
Proof. by vm_compute. Qed.
End BatchRequest.
