(* ===== verification/BatchStore.v ===== *)
(** * The tables behind batch images, and the statements run on them

    The rows of [batch_image_jobs] and [batch_image_items], the users' available
    and frozen balances, the claimed billing requests with their archive, and the
    statements of [repository/batch_image_repo.go] and of the balance holds in
    [repository/usage_billing_repo.go], each a statement or a transaction.

    Balances are whole numbers of 10^-8 dollars, the scale of the columns; what a
    statement adds or takes is rational, and storing rounds.  [st_journal] is not a
    table: it records every billing command that was applied, with the wallet before
    and after when the statement changed one. *)

From Stdlib Require Import QArith.
From S2P Require Import Prelude Float64 GoStrings PaymentOrder BatchRequest Database Interleaving.

(** [hex.EncodeToString(sha256.Sum256(s))], and the hash of a request's JSON. *)
Class Hashing := {
  sha256_hex : bytes → bytes;
  HashBatchImageSubmitRequest : BatchRequest.BatchImageSubmitRequest → bytes
}.

Module BatchStore.
Import GoStrings BatchRequest.

(** ** Jobs *)

Inductive JobStatus :=
  | Created | Uploading | Submitted | Running | Indexing | Settling
  | Completed | Failed | Cancelled | OutputDeleted.
#[export] Instance JobStatus_eq_dec : EqDecision JobStatus.
Proof. solve_decision. Defined.

Definition IsTerminalBatchImageJobStatus (st : JobStatus) : bool :=
  match st with Completed | Failed | Cancelled | OutputDeleted => true | _ => false end.

Definition CanTransitionBatchImageJob (from to : JobStatus) : bool :=
  if IsTerminalBatchImageJobStatus from then
    bool_decide (to = OutputDeleted) && negb (bool_decide (from = OutputDeleted))
    && (bool_decide (from = Completed) || bool_decide (from = Failed) || bool_decide (from = Cancelled))
  else if bool_decide (to = Failed) then true
  else
    match from with
    | Created => bool_decide (to ∈ [Uploading; Submitted; Cancelled])
    | Uploading => bool_decide (to ∈ [Submitted; Cancelled])
    | Submitted => bool_decide (to ∈ [Running; Indexing; Failed; Cancelled])
    | Running => bool_decide (to ∈ [Running; Indexing; Failed; Cancelled])
    | Indexing => bool_decide (to ∈ [Settling; Failed])
    | Settling => bool_decide (to = Completed)
    | _ => false
    end.

(** What a job is created with and no statement changes afterwards. *)
Record CreateBatchImageJobParams := mkParams {
  BatchID : bytes;
  UserID : Z;
  APIKeyID : option Z;
  AccountID : option Z;
  RoutedGroupID : option Z;
  p_Provider : bytes;
  p_Model : bytes;
  p_ParentBatchID : option bytes;
  ItemCount : Z;
  p_EstimatedCost : float64;
  p_HoldAmount : option float64;
  p_BillableUnitPrice : float64;
  PricingSnapshotVersion : Z;
  IdempotencyKey : option bytes;
  RequestHash : option bytes
}.

(** A row.  Left out: columns no operation modelled here reads ([version], the
    submission, start, finish, settlement and download times, [output_expires_at],
    the bucket locations, the last error's message). *)
Record BatchImageJob := mkJob {
  j_ID : Z;
  j_Params : CreateBatchImageJobParams;
  j_Status : JobStatus;
  j_ProviderJobName : option bytes;
  j_ProviderOutputRef : option bytes;
  j_SuccessCount : Z;
  j_FailCount : Z;
  j_ActualCost : option float64;
  j_ManifestHash : option bytes;
  j_RetryCount : Z;
  j_LastErrorCode : option bytes;
  j_UpdatedAt : time;
  j_InputDeletedAt : option time;
  j_OutputDeletedAt : option time;
  j_UserDeletedAt : option time
}.

Definition set_status (st : JobStatus) (j : BatchImageJob) : BatchImageJob :=
  mkJob (j_ID j) (j_Params j) st (j_ProviderJobName j) (j_ProviderOutputRef j) (j_SuccessCount j) (j_FailCount j)
    (j_ActualCost j) (j_ManifestHash j) (j_RetryCount j) (j_LastErrorCode j) (j_UpdatedAt j)
    (j_InputDeletedAt j) (j_OutputDeletedAt j) (j_UserDeletedAt j).
Definition set_provider (name outputRef : option bytes) (j : BatchImageJob) : BatchImageJob :=
  mkJob (j_ID j) (j_Params j) (j_Status j) name outputRef (j_SuccessCount j) (j_FailCount j)
    (j_ActualCost j) (j_ManifestHash j) (j_RetryCount j) (j_LastErrorCode j) (j_UpdatedAt j)
    (j_InputDeletedAt j) (j_OutputDeletedAt j) (j_UserDeletedAt j).
Definition set_counts (success fail : Z) (j : BatchImageJob) : BatchImageJob :=
  mkJob (j_ID j) (j_Params j) (j_Status j) (j_ProviderJobName j) (j_ProviderOutputRef j) success fail
    (j_ActualCost j) (j_ManifestHash j) (j_RetryCount j) (j_LastErrorCode j) (j_UpdatedAt j)
    (j_InputDeletedAt j) (j_OutputDeletedAt j) (j_UserDeletedAt j).
Definition set_settled (cost : option float64) (manifest : option bytes) (j : BatchImageJob) : BatchImageJob :=
  mkJob (j_ID j) (j_Params j) (j_Status j) (j_ProviderJobName j) (j_ProviderOutputRef j) (j_SuccessCount j)
    (j_FailCount j) cost manifest (j_RetryCount j) (j_LastErrorCode j) (j_UpdatedAt j)
    (j_InputDeletedAt j) (j_OutputDeletedAt j) (j_UserDeletedAt j).
Definition set_error (retries : Z) (code : option bytes) (j : BatchImageJob) : BatchImageJob :=
  mkJob (j_ID j) (j_Params j) (j_Status j) (j_ProviderJobName j) (j_ProviderOutputRef j) (j_SuccessCount j)
    (j_FailCount j) (j_ActualCost j) (j_ManifestHash j) retries code (j_UpdatedAt j)
    (j_InputDeletedAt j) (j_OutputDeletedAt j) (j_UserDeletedAt j).
Definition set_deleted (input output user : option time) (j : BatchImageJob) : BatchImageJob :=
  mkJob (j_ID j) (j_Params j) (j_Status j) (j_ProviderJobName j) (j_ProviderOutputRef j) (j_SuccessCount j)
    (j_FailCount j) (j_ActualCost j) (j_ManifestHash j) (j_RetryCount j) (j_LastErrorCode j) (j_UpdatedAt j)
    input output user.
Definition set_updated (t : time) (j : BatchImageJob) : BatchImageJob :=
  mkJob (j_ID j) (j_Params j) (j_Status j) (j_ProviderJobName j) (j_ProviderOutputRef j) (j_SuccessCount j)
    (j_FailCount j) (j_ActualCost j) (j_ManifestHash j) (j_RetryCount j) (j_LastErrorCode j) t
    (j_InputDeletedAt j) (j_OutputDeletedAt j) (j_UserDeletedAt j).

(** [CASE WHEN col IS NULL THEN t ELSE col END] *)
Definition first_time (t : time) (old : option time) : option time :=
  match old with Some o => Some o | None => Some t end.

(** ** Items *)

Inductive ItemStatus := ItemPending | ItemSuccess | ItemFailed | ItemCancelled.
#[export] Instance ItemStatus_eq_dec : EqDecision ItemStatus.
Proof. solve_decision. Defined.

(** Left out: the description of the source line, the stored image's type, the
    prompt's preview. *)
Record BatchImageItem := mkBatchItem {
  i_CustomID : bytes;
  i_Status : ItemStatus;
  i_ImageCount : Z;
  i_ErrorCode : option bytes
}.

(** ** Balances *)

Record Wallet := mkWallet { balance : Z; frozen : Z }.

Inductive hold_op := Reserve | Capture | Release.
#[export] Instance hold_op_eq_dec : EqDecision hold_op.
Proof. solve_decision. Defined.

(** [BatchImageBalanceHoldCommand] *)
Record HoldCommand := mkCommand {
  c_RequestID : bytes;
  c_APIKeyID : Z;
  c_Fingerprint : bytes;
  c_PayloadHash : bytes;
  c_UserID : Z;
  c_BatchID : bytes;
  c_HoldAmount : float64;
  c_ActualAmount : float64
}.

Record entry := mkEntry {
  en_op : hold_op;
  en_cmd : HoldCommand;
  en_move : option (Wallet * Wallet)
}.

Record Store := mkStore {
  st_now : time;
  st_users : gmap Z Wallet;                  (* the users not deleted *)
  st_dedup : gmap (bytes * Z) bytes;         (* usage_billing_dedup *)
  st_archive : gmap (bytes * Z) bytes;       (* usage_billing_dedup_archive *)
  st_jobs : gmap bytes BatchImageJob;        (* by batch_id, which is unique *)
  st_next : Z;                               (* the sequence of their identifiers *)
  st_items : gmap bytes (list BatchImageItem);  (* by job, in the order of their identifiers *)
  st_events : list (bytes * string);         (* newest first *)
  st_journal : list entry                    (* newest first *)
}.

Definition with_clock t s := mkStore t (st_users s) (st_dedup s) (st_archive s) (st_jobs s) (st_next s)
  (st_items s) (st_events s) (st_journal s).
Definition with_users f s := mkStore (st_now s) (f (st_users s)) (st_dedup s) (st_archive s) (st_jobs s) (st_next s)
  (st_items s) (st_events s) (st_journal s).
Definition with_claims d a s := mkStore (st_now s) (st_users s) d a (st_jobs s) (st_next s)
  (st_items s) (st_events s) (st_journal s).
Definition with_jobs f n s := mkStore (st_now s) (st_users s) (st_dedup s) (st_archive s) (f (st_jobs s)) n
  (st_items s) (st_events s) (st_journal s).
Definition with_items f s := mkStore (st_now s) (st_users s) (st_dedup s) (st_archive s) (st_jobs s) (st_next s)
  (f (st_items s)) (st_events s) (st_journal s).
Definition with_event e s := mkStore (st_now s) (st_users s) (st_dedup s) (st_archive s) (st_jobs s) (st_next s)
  (st_items s) (e :: st_events s) (st_journal s).
Definition with_entry e s := mkStore (st_now s) (st_users s) (st_dedup s) (st_archive s) (st_jobs s) (st_next s)
  (st_items s) (st_events s) (e :: st_journal s).

Definition advance (d : N) (s : Store) : Store := with_clock (st_now s + Z.of_N d) s.

(** ** Billing commands *)

(** [fmt.Sprintf("%0.10f", x)]: the exact value to ten decimals, ties to even. *)
Definition format_f10 (x : float64) : bytes :=
  match x with
  | S754_nan => lit "NaN"
  | S754_infinity s => if s then lit "-Inf" else lit "+Inf"
  | S754_zero s => lit (if s then "-0.0000000000" else "0.0000000000")
  | S754_finite s m e =>
      let n := if 0 <=? e then Zpos m * 2 ^ e * 10 ^ 10 else Float.round_even (Zpos m * 10 ^ 10) (2 ^ (- e)) in
      (if s then lit "-" else []) ++ FormatInt (n / 10 ^ 10) ++ lit "." ++ pad_zero 10 (n mod 10 ^ 10)
  end.

Definition request_prefix (op : hold_op) : bytes :=
  match op with
  | Reserve => lit "batch_image_hold:"
  | Capture => lit "batch_image_capture:"
  | Release => lit "batch_image_release:"
  end.
(** [BatchImageHoldRequestID] and its two siblings. *)
Definition request_id (op : hold_op) (batchID : bytes) : bytes := request_prefix op ++ TrimSpace batchID.

Section statements.
Context `{Database} `{Numeric} `{Hashing}.

Definition buildBatchImageBalanceHoldFingerprint (c : HoldCommand) : bytes :=
  let bar := lit "|" in
  let raw := FormatInt (c_UserID c) ++ bar ++ FormatInt (c_APIKeyID c) ++ bar ++ TrimSpace (c_BatchID c) ++ bar
             ++ format_f10 (c_HoldAmount c) ++ bar ++ format_f10 (c_ActualAmount c) in
  let payload := TrimSpace (c_PayloadHash c) in
  sha256_hex (if bool_decide (payload = []) then raw else raw ++ bar ++ payload).

(** [Normalize] *)
Definition Normalize (c : HoldCommand) : HoldCommand :=
  let c := mkCommand (TrimSpace (c_RequestID c)) (c_APIKeyID c) (c_Fingerprint c) (c_PayloadHash c) (c_UserID c)
             (TrimSpace (c_BatchID c)) (c_HoldAmount c) (c_ActualAmount c) in
  if bool_decide (TrimSpace (c_Fingerprint c) = [])
  then mkCommand (c_RequestID c) (c_APIKeyID c) (buildBatchImageBalanceHoldFingerprint c) (c_PayloadHash c)
         (c_UserID c) (c_BatchID c) (c_HoldAmount c) (c_ActualAmount c)
  else c.

(** [claimUsageBillingRequest]: [Ok false] when the request was applied before.
    The insertion is undone with the transaction unless the answer is [Ok true]. *)
Definition claim (requestID : bytes) (key : Z) (fp : bytes) (s : Store) : res bool * Store :=
  let same old := bool_decide (TrimSpace old = TrimSpace fp) in
  match st_dedup s !! (requestID, key) with
  | Some old => (if same old then Ok false else Err RequestConflict, s)
  | None =>
      match st_archive s !! (requestID, key) with
      | Some old => (if same old then Ok false else Err RequestConflict, s)
      | None => (Ok true, with_claims (<[(requestID, key) := fp]> (st_dedup s)) (st_archive s) s)
      end
  end.

(** [batchImageHoldClaimExists] *)
Definition claimed (requestID : bytes) (key : Z) (s : Store) : bool :=
  bool_decide (is_Some (st_dedup s !! (requestID, key))) || bool_decide (is_Some (st_archive s !! (requestID, key))).

(** [UPDATE users SET balance = .., frozen_balance = .. WHERE id = user AND guard]:
    a parameter that is not a number, or is infinite, exceeds every balance. *)
Definition at_least (b : Z) (x : float64) : bool := Float.finite x && Qle_bool (numeric x) (inject_Z b).

Definition update_wallet (c : HoldCommand) (refused : berror) (guard : Wallet → bool) (set : Wallet → Wallet)
    (s : Store) : res (option (Wallet * Wallet) * Store) :=
  match st_users s !! c_UserID c with
  | Some w => if guard w then Ok (Some (w, set w), with_users (insert (c_UserID c) (set w)) s) else Err refused
  | None => Err UserNotFound
  end.

Definition add (b : Z) (q : Q) : Z := round_scale (inject_Z b + q).

Definition positive (x : float64) : bool := negb (Float.le x Float.zero).

Definition reserveUsageBillingBatchImageBalance (c : HoldCommand) (s : Store) : res (option (Wallet * Wallet) * Store) :=
  let h := numeric (c_HoldAmount c) in
  if negb (positive (c_HoldAmount c)) then Ok (None, s)
  else update_wallet c InsufficientBalance (λ w, at_least (balance w) (c_HoldAmount c))
         (λ w, mkWallet (add (balance w) (- h)) (add (frozen w) h)) s.

(** Both parameters are read as numbers.  A charge that is not finite is refused. *)
Definition captureUsageBillingBatchImageBalance (c : HoldCommand) (s : Store) : res (option (Wallet * Wallet) * Store) :=
  let h := numeric (c_HoldAmount c) in
  let a := numeric (c_ActualAmount c) in
  if negb (positive (c_HoldAmount c)) && negb (positive (c_ActualAmount c)) then Ok (None, s)
  else if Float.lt (Float.decimal 1 8) (Float.sub (c_ActualAmount c) (c_HoldAmount c)) then Err SettlementCostExceedsHold
  else if negb (Float.finite (c_ActualAmount c)) then Err Lost
  else update_wallet c FrozenInsufficient (λ w, at_least (frozen w) (c_HoldAmount c))
         (λ w, mkWallet (add (balance w) ((if Qle_bool h a then 0 else h - a) - (if Qle_bool a h then 0 else a - h)))
                        (add (frozen w) (- h))) s.

Definition releaseUsageBillingBatchImageBalance (c : HoldCommand) (s : Store) : res (option (Wallet * Wallet) * Store) :=
  let h := numeric (c_HoldAmount c) in
  if negb (positive (c_HoldAmount c)) then Ok (None, s)
  else if negb (claimed (request_id Reserve (c_BatchID c)) (c_APIKeyID c) s) then Ok (None, s)
  else update_wallet c FrozenInsufficient (λ w, at_least (frozen w) (c_HoldAmount c))
         (λ w, mkWallet (add (balance w) h) (add (frozen w) (- h))) s.

Definition hold_statement (op : hold_op) : HoldCommand → Store → res (option (Wallet * Wallet) * Store) :=
  match op with
  | Reserve => reserveUsageBillingBatchImageBalance
  | Capture => captureUsageBillingBatchImageBalance
  | Release => releaseUsageBillingBatchImageBalance
  end.

(** The transaction: claim, apply, commit; whether it was applied. *)
Definition applyBatchImageBalanceHold (op : hold_op) (c : HoldCommand) (s : Store) : res bool * Store :=
  let c := Normalize c in
  if bool_decide (c_RequestID c = []) then (Err RequestIDRequired, s)
  else
    match claim (c_RequestID c) (c_APIKeyID c) (c_Fingerprint c) s with
    | (Err e, _) => (Err e, s)
    | (Ok false, _) => (Ok false, s)
    | (Ok true, s1) =>
        match hold_statement op c s1 with
        | Ok (move, s2) => (Ok true, with_entry (mkEntry op c move) s2)
        | Err e => (Err e, s)
        end
    end.

(** [CleanupUsageBillingDedup]: one statement moves rows to the archive; [old]
    says which are older than the cutoff. *)
Definition archive_claims (old : bytes * Z → bool) (s : Store) : res unit * Store :=
  (Ok tt, with_claims (filter (λ kv, old (fst kv) = false) (st_dedup s))
            (st_archive s ∪ filter (λ kv, old (fst kv) = true) (st_dedup s)) s).

(** ** Queries on jobs and items *)

Definition job_by_batch_id (b : bytes) (s : Store) : res BatchImageJob :=
  match st_jobs s !! b with Some j => Ok j | None => Err JobNotFound end.

Definition job_for_owner (user key : Z) (b : bytes) (s : Store) : res BatchImageJob :=
  match st_jobs s !! b with
  | Some j => if (UserID (j_Params j) =? user) && bool_decide (APIKeyID (j_Params j) = Some key)
                 && bool_decide (j_UserDeletedAt j = None)
              then Ok j else Err JobNotFound
  | None => Err JobNotFound
  end.

Definition jobs (s : Store) : list BatchImageJob := snd <$> map_to_list (st_jobs s).

(** [ORDER BY id DESC LIMIT 1] *)
Definition newest (l : list BatchImageJob) : option BatchImageJob :=
  foldr (λ j best, match best with
                   | Some k => if j_ID k <? j_ID j then Some j else Some k
                   | None => Some j
                   end) None l.

Definition job_by_idempotency_key (user key : Z) (k : bytes) (s : Store) : res BatchImageJob :=
  match newest (filter (λ j, UserID (j_Params j) = user ∧ APIKeyID (j_Params j) = Some key ∧
                             IdempotencyKey (j_Params j) = Some k) (jobs s)) with
  | Some j => Ok j
  | None => Err JobNotFound
  end.

(** [COALESCE(hold_amount, estimated_cost)] *)
Definition hold_of (p : CreateBatchImageJobParams) : float64 :=
  match p_HoldAmount p with Some h => h | None => p_EstimatedCost p end.

Definition unsubmitted (j : BatchImageJob) : bool := bool_decide (j_Status j ∈ [Created; Uploading]).
Definition stale (cutoff : time) (j : BatchImageJob) : bool :=
  unsubmitted j && bool_decide (j_ProviderJobName j = None) && (j_UpdatedAt j <=? timestamptz cutoff).

Definition older (j k : BatchImageJob) : Prop :=
  j_UpdatedAt j < j_UpdatedAt k ∨ (j_UpdatedAt j = j_UpdatedAt k ∧ j_ID j ≤ j_ID k).
#[export] Instance older_dec : RelDecision older.
Proof. intros j k. unfold older. apply _. Defined.

Definition list_stale (cutoff : time) (limit : Z) (s : Store) : res (list BatchImageJob) :=
  let limit := if (limit <=? 0) || (1000 <? limit) then 100 else limit in
  Ok (take (Z.to_nat limit)
        (merge_sort older (filter (λ j, stale cutoff j = true ∧ Float.lt Float.zero (hold_of (j_Params j)) = true) (jobs s)))).

(** One page of a job's items. *)
Definition list_items (b : bytes) (limit offset : Z) (s : Store) : res (list BatchImageItem) :=
  let limit := if (limit <=? 0) || (500 <? limit) then 100 else limit in
  Ok (take (Z.to_nat limit) (drop (Z.to_nat offset) (default [] (st_items s !! b)))).

(** ** Statements on jobs and items *)

(** [UPDATE batch_image_jobs SET .., updated_at = at WHERE batch_id = b]; a
    [time.Now()] of the repository is the moment of the statement. *)
Definition put_at (at_ : time) (b : bytes) (j : BatchImageJob) (s : Store) : Store :=
  with_jobs (insert b (set_updated (timestamptz at_) j)) (st_next s) s.
Definition put (b : bytes) (j : BatchImageJob) (s : Store) : Store := put_at (st_now s) b j s.

(** Prices are columns of scale 10. *)
Definition stored_params (p : CreateBatchImageJobParams) : CreateBatchImageJobParams :=
  mkParams (BatchID p) (UserID p) (APIKeyID p) (AccountID p) (RoutedGroupID p) (p_Provider p) (p_Model p)
    (p_ParentBatchID p) (ItemCount p) (decimal10 (p_EstimatedCost p)) (decimal10 <$> p_HoldAmount p)
    (decimal10 (p_BillableUnitPrice p)) (PricingSnapshotVersion p) (IdempotencyKey p) (RequestHash p).

Definition create_job (p : CreateBatchImageJobParams) (s : Store) : res BatchImageJob * Store :=
  if negb (IsSupportedBatchImageProvider (p_Provider p)) then (Err InvalidProvider, s)
  else
    match st_jobs s !! BatchID p with
    | Some _ => (Err JobExists, s)
    | None =>
        let j := mkJob (st_next s) (stored_params p) Created None None 0 0 None None 0 None
                   (timestamptz (st_now s)) None None None in
        (Ok j, with_jobs (insert (BatchID p) j) (st_next s + 1) s)
    end.

(** [TransitionBatchImageJobStatus]: the row is locked, checked and written. *)
Definition transition (b : bytes) (to : JobStatus) (code : option bytes) (event : string) (s : Store)
    : res unit * Store :=
  match st_jobs s !! b with
  | None => (Err JobNotFound, s)
  | Some j =>
      if negb (CanTransitionBatchImageJob (j_Status j) to) then (Err InvalidTransition, s)
      else
        let j' := set_error (j_RetryCount j) (if bool_decide (to = Failed) then code else j_LastErrorCode j) (set_status to j) in
        let j' := if bool_decide (to = OutputDeleted)
                  then set_deleted (j_InputDeletedAt j) (first_time (timestamptz (st_now s)) (j_OutputDeletedAt j))
                         (j_UserDeletedAt j) j'
                  else j' in
        (Ok tt, with_event (b, event) (put b j' s))
  end.

Definition touch_submitting (b : bytes) (s : Store) : res unit * Store :=
  match st_jobs s !! b with
  | Some j => if unsubmitted j then (Ok tt, put b j s) else (Ok tt, s)
  | None => (Ok tt, s)
  end.

(** The [UPDATE] of [FailStaleUnsubmittedBatchImageJob]: whether a row changed. *)
Definition fail_stale (b : bytes) (cutoff : time) (code : bytes) (s : Store) : res bool * Store :=
  match st_jobs s !! b with
  | Some j => if stale cutoff j then (Ok true, put b (set_error (j_RetryCount j) (Some code) (set_status Failed j)) s)
              else (Ok false, s)
  | None => (Ok false, s)
  end.

Definition update_output_ref (b ref : bytes) (s : Store) : res unit * Store :=
  match st_jobs s !! b with
  | Some j => (Ok tt, put b (set_provider (j_ProviderJobName j) (Some ref) j) s)
  | None => (Err JobNotFound, s)
  end.

(** [NULLIF(v, '')] *)
Definition nullif_empty (v : bytes) : option bytes := if bool_decide (v = []) then None else Some v.

Definition provider_submit (b name outputRef : bytes) (s : Store) : res unit * Store :=
  match st_jobs s !! b with
  | None => (Err JobNotFound, s)
  | Some j =>
      if negb (CanTransitionBatchImageJob (j_Status j) Submitted) then (Err InvalidTransition, s)
      else (Ok tt, with_event (b, "provider_submitted"%string)
                     (put b (set_provider (Some name) (nullif_empty outputRef) (set_status Submitted j)) s))
  end.

(** The [UPDATE] of [RecordBatchImageJobSubmitFailure]: no condition on the status. *)
Definition submit_failure (b code : bytes) (markFailed : bool) (s : Store) : res unit * Store :=
  match st_jobs s !! b with
  | Some j => (Ok tt, put b (set_error (j_RetryCount j) (Some code) (if markFailed then set_status Failed j else j)) s)
  | None => (Ok tt, s)
  end.

(** [manifest_hash] is unique where it is set. *)
Definition manifest_taken (b manifest : bytes) (s : Store) : bool :=
  existsb (λ j, negb (bool_decide (BatchID (j_Params j) = b)) && bool_decide (j_ManifestHash j = Some manifest)) (jobs s).

Definition mark_settled (b : bytes) (cost : float64) (manifest : bytes) (at_ : time) (s : Store) : res unit * Store :=
  match st_jobs s !! b with
  | None => (Err JobNotFound, s)
  | Some j =>
      if bool_decide (j_Status j = Settling)
         && (bool_decide (j_ManifestHash j = None) || bool_decide (j_ManifestHash j = Some [])
             || bool_decide (j_ManifestHash j = Some manifest))
      then if manifest_taken b manifest s then (Err Lost, s)
           else (Ok tt, with_event (b, "settlement_completed"%string)
                          (put_at at_ b (set_settled (Some (decimal10 cost)) (Some manifest) (set_status Completed j)) s))
      else if bool_decide (j_Status j = Settling) then (Err SettlementManifestConflict, s)
      else if bool_decide (j_Status j = Completed) then (Err AlreadySettled, s)
      else (Err SettlementInvalidStatus, s)
  end.

(** The [UPDATE .. RETURNING retry_count] of [SetBatchImageJobSettlementFailed]. *)
Definition settlement_failed (b code : bytes) (s : Store) : res Z * Store :=
  match st_jobs s !! b with
  | Some j => (Ok (j_RetryCount j + 1), put b (set_error (j_RetryCount j + 1) (Some code) j) s)
  | None => (Err JobNotFound, s)
  end.

(** The insertions of [BulkCreateBatchImageItems], one transaction: the identifier is
    unique in its job, and the job must exist. *)
Definition bulk_create_items (b : bytes) (l : list BatchImageItem) (s : Store) : res unit * Store :=
  let old := default [] (st_items s !! b) in
  if bool_decide (l = []) then (Ok tt, s)
  else if bool_decide (st_jobs s !! b = None) then (Err Lost, s)
  else if bool_decide (NoDup (i_CustomID <$> old ++ l)) then (Ok tt, with_items (insert b (old ++ l)) s)
  else (Err ItemExists, s).

Definition replace_items (b : bytes) (l : list BatchImageItem) (success fail : Z) (s : Store) : res unit * Store :=
  match st_jobs s !! b with
  | None => (Err JobNotFound, s)
  | Some j =>
      if negb (bool_decide (j_Status j = Indexing)) then (Err IndexStateConflict, s)
      else if bool_decide (NoDup (i_CustomID <$> l))
      then (Ok tt, put b (set_counts success fail j) (with_items (insert b l) s))
      else (Err ItemExists, s)
  end.

Definition append_event (b : bytes) (event : string) (s : Store) : res unit * Store :=
  match st_jobs s !! b with
  | Some _ => (Ok tt, with_event (b, event) s)
  | None => (Err Lost, s)
  end.

Definition mark_input_deleted (b : bytes) (at_ : time) (s : Store) : res unit * Store :=
  match st_jobs s !! b with
  | Some j => (Ok tt, put_at at_ b (set_deleted (first_time (timestamptz at_) (j_InputDeletedAt j)) (j_OutputDeletedAt j)
                               (j_UserDeletedAt j) j) s)
  | None => (Err JobNotFound, s)
  end.

Definition mark_output_deleted (b : bytes) (at_ : time) (s : Store) : res unit * Store :=
  match st_jobs s !! b with
  | Some j =>
      (Ok tt, put_at at_ b (set_deleted (j_InputDeletedAt j) (first_time (timestamptz at_) (j_OutputDeletedAt j))
                       (j_UserDeletedAt j)
                       (if bool_decide (j_Status j = Completed) then set_status OutputDeleted j else j)) s)
  | None => (Err JobNotFound, s)
  end.

Definition mark_user_deleted (user key : Z) (b : bytes) (at_ : time) (s : Store) : res unit * Store :=
  match st_jobs s !! b with
  | Some j => if (UserID (j_Params j) =? user) && bool_decide (APIKeyID (j_Params j) = Some key)
                 && bool_decide (j_UserDeletedAt j = None) && IsTerminalBatchImageJobStatus (j_Status j)
              then (Ok tt, put_at at_ b (set_deleted (j_InputDeletedAt j) (j_OutputDeletedAt j) (Some (timestamptz at_)) j) s)
              else (Err RecordDeleteNotReady, s)
  | None => (Err RecordDeleteNotReady, s)
  end.

(** The [UPDATE] of [RecordBatchImageCleanupFailure]. *)
Definition cleanup_failure (b code : bytes) (s : Store) : res unit * Store :=
  match st_jobs s !! b with
  | Some j => (Ok tt, put b (set_error (j_RetryCount j + 1) (Some code) j) s)
  | None => (Ok tt, s)
  end.
End statements.
End BatchStore.
