(* ===== verification/BatchImage.v ===== *)
(** * Batch image jobs: submission, processing, settlement, recovery

    Models the services over the tables of [BatchStore]: [Submit], [Cancel] and
    [DeleteRecord] of [service/batch_image_public.go]; the balance holds of
    [service/batch_image_billing_hold.go]; the processor and the indexer of
    [service/batch_image_processor.go]; the settlement of
    [service/batch_image_settlement.go]; the recovery of stale submissions of
    [service/batch_image_billing_recovery.go]; and [cleanupJob] of
    [service/batch_image_cleanup.go].  Dropping a cached API key and writing a usage
    log change nothing here and are left out, as are the texts of errors. *)

From S2P Require Import Prelude Float64 GoStrings PaymentOrder BatchRequest Database Interleaving BatchStore.

Module BatchImage.
Import GoStrings BatchRequest BatchStore.

(** ** Systems outside the database *)

Record Owner := mkOwner { ow_UserID : Z; ow_APIKeyID : Z; ow_GroupID : option Z }.

Record Group := mkGroup { g_Pricing : PricingGroup; g_IsGemini : bool }.

(** What [selectProviderAndAccount] returns. *)
Record Selection := mkSelection {
  sel_Provider : bytes;
  sel_AccountID : Z;
  sel_RateMultiplier : option float64;
  sel_RoutedGroupID : option Z
}.

Inductive BatchProviderInternalState :=
  | StateQueued | StateRunning | StateSucceeded | StateFailed | StateCancelled | StateExpired | StateOther.
#[export] Instance state_eq_dec : EqDecision BatchProviderInternalState.
Proof. solve_decision. Defined.

Record BatchProviderStatus := mkStatus {
  bs_InternalState : BatchProviderInternalState;
  bs_ProviderOutputRef : bytes;
  bs_ErrorCode : bytes;
  bs_SuggestedRequeueAfter : duration
}.

(** What [ParseBatchImageResultLine] reads from a line of the provider's output. *)
Record ParsedBatchImageResult := mkParsed {
  pr_CustomID : bytes;
  pr_Succeeded : bool;
  pr_ImageCount : Z;
  pr_ErrorCode : bytes;
  pr_SourceLineNumber : Z
}.

(** The output: what each line that is not blank parses to, and the error the scan
    ended with. *)
Record ProviderOutput := mkOutput {
  out_lines : list (res ParsedBatchImageResult);
  out_error : option berror
}.

Inductive CleanupTarget := CleanupTargetInput | CleanupTargetOutput.
#[export] Instance CleanupTarget_eq_dec : EqDecision CleanupTarget.
Proof. solve_decision. Defined.

Inductive question : Type → Type :=
  | QTaskName : question bytes
  | QGroup (gid : Z) : question (res (option Group))
  | QUserRate (uid gid : Z) : question (res (option float64))
  | QUnitPrice (provider model : bytes) : question (res float64)
  | QSelect (o : Owner) (provider model : bytes) : question (res Selection)
  | QRandom : question (res (Vector.t ascii 16))                     (* crypto/rand *)
  | QProviderSubmit (job : BatchImageJob) : question (res (option (bytes * bytes)))  (* name, output *)
  | QProviderGet (job : BatchImageJob) : question (res (option BatchProviderStatus))
  | QOpenResult (job : BatchImageJob) : question (res ProviderOutput)
  | QProviderCancel (job : BatchImageJob) : question (res unit)
  | QProviderCleanup (job : BatchImageJob) (t : CleanupTarget) : question (res unit)
  | QAccount (id : Z) : question (res bool)                          (* found; supported by the provider *)
  | QEnqueue (b : bytes) : question (res bool).                      (* false: queued already *)

Abbreviation call_db := (@db Store berror question).
Abbreviation prg := (prog call_db).
Definition read {X} (q : Store → res X) : prg (res X) := call (Read q).
Definition write {X} (w : Store → res X * Store) : prg (res X) := call (Write w).
Definition clock : prg time := call Now.
Definition ask {X} (q : question X) : prg X := call (Ask q).

Definition on_ok {A B} (p : prg (res A)) (k : A → prg (res B)) : prg (res B) :=
  bind p (λ r, match r with Ok a => k a | Err e => Ret (Err e) end).
Notation "'try' x ':=' p 'in' k" := (on_ok p (λ x, k))
  (at level 10, x pattern, p at level 100, k at level 200) : go_scope.
(** [if err := p; err != nil { e }] *)
Definition or_else {A B} (p : prg (res A)) (e : berror → prg B) (k : A → prg B) : prg B :=
  bind p (λ r, match r with Ok a => k a | Err x => e x end).

(** [NewBatchImageID] *)
Definition hex_digit (n : nat) : ascii := byte_of (if (n <? 10)%nat then 48 + n else 87 + n)%nat.
Definition hex_encode (l : bytes) : bytes :=
  l ≫= λ c, [hex_digit (nat_of_ascii c / 16); hex_digit (nat_of_ascii c mod 16)]%nat.
Definition NewBatchImageID (random : Vector.t ascii 16) : bytes := lit "imgbatch_" ++ hex_encode (Vector.to_list random).

Record Service := mkService {
  sv_Enabled : bool;
  sv_Limits : Limits;
  sv_HasQueue : bool;
  sv_HasUserRates : bool;
  sv_StaleAfter : duration;       (* of the recovery; 0 for its default *)
  sv_RecoveryLimit : Z;
  sv_DefaultRequeue : duration;
  sv_SettlementRetryDelay : duration
}.

(** ** Accounting for a provider's output *)

(** [sort.Strings] *)
Fixpoint bytes_leb (a b : bytes) : bool :=
  match a, b with
  | [], _ => true
  | _ :: _, [] => false
  | x :: a, y :: b =>
      if (nat_of_ascii x <? nat_of_ascii y)%nat then true
      else if (nat_of_ascii y <? nat_of_ascii x)%nat then false else bytes_leb a b
  end.
Definition bytes_le (a b : bytes) : Prop := bytes_leb a b = true.
#[export] Instance bytes_le_dec : RelDecision bytes_le.
Proof. intros a b. unfold bytes_le. apply _. Defined.

Record IndexResult := mkIndex {
  ix_seen : list bytes;
  ix_unknown : Z;
  ix_items : list BatchImageItem;
  ix_success : Z;
  ix_fail : Z;
  ix_total : Z
}.

(** The item a result line becomes. *)
Definition item_of (p : ParsedBatchImageResult) : BatchImageItem :=
  if pr_Succeeded p then mkBatchItem (pr_CustomID p) ItemSuccess (pr_ImageCount p) None
  else mkBatchItem (pr_CustomID p) ItemFailed (pr_ImageCount p) (batchImageOptionalStringPtr (pr_ErrorCode p)).

(** One turn of the scan: a line for an identifier that was not submitted is counted
    and dropped, a second line for one is an error. *)
Definition index_line (expected : list bytes) (line : res ParsedBatchImageResult) (r : IndexResult) : res IndexResult :=
  let* p := line in
  if negb (bool_decide (expected = [])) && negb (bool_decide (pr_CustomID p ∈ expected))
  then Ok (mkIndex (ix_seen r) (ix_unknown r + 1) (ix_items r) (ix_success r) (ix_fail r) (ix_total r))
  else if bool_decide (pr_CustomID p ∈ ix_seen r) then Err DuplicateCustomID
  else Ok (mkIndex (pr_CustomID p :: ix_seen r) (ix_unknown r) (ix_items r ++ [item_of p])
             (ix_success r + if pr_Succeeded p then 1 else 0) (ix_fail r + if pr_Succeeded p then 0 else 1)
             (ix_total r + 1)).

Fixpoint index_lines (expected : list bytes) (lines : list (res ParsedBatchImageResult)) (r : IndexResult) : res IndexResult :=
  match lines with
  | [] => Ok r
  | l :: lines => let* r := index_line expected l r in index_lines expected lines r
  end.

Definition missing_item (id : bytes) : BatchImageItem := mkBatchItem id ItemFailed 0 (Some (lit "PROVIDER_RESULT_MISSING")).

(** The submitted identifiers the output leaves out become failures, in order. *)
Definition index_missing (expected : list bytes) (r : IndexResult) : IndexResult :=
  let missing := merge_sort bytes_le (filter (λ id, id ∉ ix_seen r) expected) in
  mkIndex (ix_seen r) (ix_unknown r) (ix_items r ++ (missing_item <$> missing)) (ix_success r)
    (ix_fail r + lenZ missing) (ix_total r + lenZ missing).

(** [expected] is a map in the source: an identifier occurs once. *)
Definition index_output (expected : list bytes) (o : ProviderOutput) : res IndexResult :=
  let* r := index_lines expected (out_lines o) (mkIndex [] 0 [] 0 0 0) in
  match out_error o with
  | Some e => Err e
  | None =>
      let r := index_missing expected r in
      if ix_total r =? 0 then Err IndexNoResultLines else Ok r
  end.

Section service.
Context `{Database} `{Numeric} `{Hashing} `{Unicode} `{UnicodeFold} (sv : Service).

(** ** Balance holds *)

Definition buildBatchImageHoldCommand (job : BatchImageJob) (requestID : bytes) (actual : float64) (payloadHash : bytes)
    : res HoldCommand :=
  let p := j_Params job in
  match APIKeyID p with
  | Some key =>
      if key <=? 0 then Err SettlementMissingAPIKeyID
      else Ok (mkCommand requestID key [] (TrimSpace payloadHash) (UserID p) (BatchID p) (clamp0 (hold_of p)) (clamp0 actual))
  | None => Err SettlementMissingAPIKeyID
  end.

Definition reserveBatchImageBalanceHold (job : BatchImageJob) (payloadHash : bytes) : prg (res unit) :=
  match buildBatchImageHoldCommand job (request_id Reserve (BatchID (j_Params job))) Float.zero payloadHash with
  | Err e => Ret (Err e)
  | Ok c =>
      if Float.le (c_HoldAmount c) Float.zero then Ret (Ok tt)
      else
        let! r := write (applyBatchImageBalanceHold Reserve c) in
        Ret match r with
            | Ok _ => Ok tt
            | Err e => if bool_decide (e = InsufficientBalance) then Err InsufficientBalance else Err BillingHoldFailed
            end
  end.

Definition captureBatchImageBalanceHold (job : BatchImageJob) (actual : float64) (payloadHash : bytes) : prg (res unit) :=
  match buildBatchImageHoldCommand job (request_id Capture (BatchID (j_Params job))) actual payloadHash with
  | Err e => Ret (Err e)
  | Ok c =>
      let! r := write (applyBatchImageBalanceHold Capture c) in
      Ret match r with Ok _ => Ok tt | Err _ => Err SettlementBillingFailed end
  end.

(** A fingerprint conflict means that the hold was released before. *)
Definition releaseBatchImageBalanceHold (job : BatchImageJob) (payloadHash : bytes) : prg (res unit) :=
  match buildBatchImageHoldCommand job (request_id Release (BatchID (j_Params job))) Float.zero payloadHash with
  | Err e => Ret (Err e)
  | Ok c =>
      if Float.le (c_HoldAmount c) Float.zero then Ret (Ok tt)
      else
        let! r := write (applyBatchImageBalanceHold Release c) in
        Ret match r with
            | Ok _ => Ok tt
            | Err e => if bool_decide (e = RequestConflict) then Ok tt else Err BillingHoldFailed
            end
  end.

Definition request_hash_of (job : BatchImageJob) : bytes := batchImageDerefString (RequestHash (j_Params job)).

(** ** Repository methods of two statements *)

Definition RecordBatchImageJobSubmitFailure (b code : bytes) (markFailed : bool) : prg (res unit) :=
  try _ := write (submit_failure b code markFailed) in
  write (append_event b (if markFailed then "submit_failed" else "queue_failed")).

(** Without the event the count is lost: the caller looks at the error first. *)
Definition SetBatchImageJobSettlementFailed (b code : bytes) : prg (res Z) :=
  try n := write (settlement_failed b code) in
  try _ := write (append_event b "settlement_failed") in
  Ret (Ok n).

(** Whether the row changed, and whether the event was written. *)
Definition FailStaleUnsubmittedBatchImageJob (b : bytes) (cutoff : time) (code : bytes) : prg (bool * res unit) :=
  let! r := write (fail_stale b cutoff code) in
  match r with
  | Err e => Ret (false, Err e)
  | Ok false => Ret (false, Ok tt)
  | Ok true => let! e := write (append_event b "billing_hold_recovery_failed_unsubmitted") in Ret (true, e)
  end.

Definition mark_and_log (w : Store → res unit * Store) (b : bytes) (event : string) : prg (res unit) :=
  try _ := write w in write (append_event b event).

(** [errors.Is(err, ErrBatchImageAlreadyQueued)] counts as queued. *)
Definition enqueue (b : bytes) : prg (res unit) :=
  let! r := ask (QEnqueue b) in Ret match r with Ok _ => Ok tt | Err e => Err e end.

Definition enqueueBillingRetry (b : bytes) : prg unit :=
  if negb (sv_HasQueue sv) then Ret tt
  else
    let! r := enqueue b in
    match r with
    | Ok _ => Ret tt
    | Err _ => let! _ := write (append_event b "billing_retry_enqueue_failed") in Ret tt
    end.

(** ** Submission *)

Definition ensureGroupAllowsBatchImage (gid : option Z) : prg (res unit) :=
  match gid with
  | None => Ret (Ok tt)
  | Some gid =>
      if gid <=? 0 then Ret (Ok tt)
      else
        let! g := ask (QGroup gid) in
        Ret match g with
            | Ok (Some g) => if negb (AllowBatchImageGeneration (g_Pricing g)) || negb (g_IsGemini g)
                             then Err GroupDisabled else Ok tt
            | _ => Err SettlementPricingMissing
            end
  end.

Definition price (o : Owner) (req : BatchImageSubmitRequest) (sel : Selection) : prg (res BatchImagePricingSnapshot) :=
  let! group := match sel_RoutedGroupID sel with
                | Some gid => if gid <=? 0 then Ret None
                              else let! g := ask (QGroup gid) in
                                   Ret (Some match g with Ok (Some g) => Ok (g_Pricing g) | _ => Err SettlementPricingMissing end)
                | None => Ret None
                end in
  let! rate := match sel_RoutedGroupID sel with
               | Some gid => if sv_HasUserRates sv then let! r := ask (QUserRate (ow_UserID o) gid) in Ret (Some r)
                             else Ret None
               | None => Ret None
               end in
  let! unit := ask (QUnitPrice (sel_Provider sel) (Model req)) in
  Ret (resolvePricingSnapshot group rate unit (sel_RateMultiplier sel) (lenZ (Items req))).

(** The batch the new one belongs to: its parent's parent, when there is one. *)
Definition resolve_parent (o : Owner) (parent : bytes) : prg (res (option bytes)) :=
  match batchImageOptionalStringPtr parent with
  | None => Ret (Ok None)
  | Some id =>
      try p := read (job_for_owner (ow_UserID o) (ow_APIKeyID o) id) in
      Ret (Ok match p_ParentBatchID (j_Params p) with
              | Some q => match batchImageOptionalStringPtr q with Some q => Some q | None => Some id end
              | None => Some id
              end)
  end.

Definition hidePreUpstreamSubmitFailure (o : Owner) (job : BatchImageJob) : prg unit :=
  match j_ProviderJobName job with
  | Some _ => Ret tt
  | None =>
      let! now := clock in
      let b := BatchID (j_Params job) in
      let! _ := mark_and_log (mark_user_deleted (ow_UserID o) (ow_APIKeyID o) b now) b "user_record_deleted" in
      Ret tt
  end.

(** Record the failure, hide the record, report the error. *)
Definition refuse {A} (o : Owner) (job : BatchImageJob) (code : bytes) (e : berror) : prg (res A) :=
  let! _ := RecordBatchImageJobSubmitFailure (BatchID (j_Params job)) code true in
  let! _ := hidePreUpstreamSubmitFailure o job in
  Ret (Err e).

Definition releaseFailedSubmitHold (job : BatchImageJob) (requestHash : bytes) : prg (res unit) :=
  let b := BatchID (j_Params job) in
  let! r := releaseBatchImageBalanceHold job requestHash in
  match r with
  | Ok _ => Ret (Ok tt)
  | Err _ =>
      let! _ := RecordBatchImageJobSubmitFailure b (lit "BILLING_RELEASE_FAILED") true in
      let! _ := enqueueBillingRetry b in
      Ret (Err BillingHoldFailed)
  end.

Definition createPendingItems (b : bytes) (items : list BatchImageSubmitItem) : prg (res unit) :=
  match items with
  | [] => Ret (Ok tt)
  | _ => write (bulk_create_items b ((λ i, mkBatchItem (CustomID i) ItemPending 0 None) <$> items))
  end.

Definition abortOrphanProviderJob (job : BatchImageJob) (name outputRef : bytes) : prg unit :=
  let orphan := set_provider (batchImageOptionalStringPtr name) (j_ProviderOutputRef job) job in
  let! _ := ask (QProviderCancel orphan) in
  let! _ := ask (QProviderCleanup orphan CleanupTargetInput) in
  let! _ := write (append_event (BatchID (j_Params job)) "provider_job_aborted_after_submit") in
  Ret tt.

Definition batchImageProviderSubmitPublicError (e : berror) : berror :=
  let reason := TrimSpace (Reason e) in
  if bool_decide (reason = lit "VERTEX_MANAGED_GCS_BUCKET_MISSING") then VertexGCSBucketMissing
  else if bool_decide (reason = lit "BATCH_IMAGE_PROVIDER_MISSING_API_KEY") then MissingAPIKey
  else if bool_decide (reason = lit "BATCH_IMAGE_PROVIDER_MISSING_SERVICE_ACCOUNT") then MissingServiceAccount
  else if bool_decide (reason = lit "BATCH_IMAGE_PROVIDER_UNSUPPORTED_ACCOUNT") then UnsupportedAccount
  else ProviderSubmitFailed.

Definition batchImageProviderSubmitRecordCode (e : berror) : bytes :=
  let reason := TrimSpace (Reason e) in
  if bool_decide (reason = []) || bool_decide (reason = lit "BATCH_IMAGE_PROVIDER_SUBMIT_FAILED")
  then lit "PROVIDER_SUBMIT_FAILED" else reason.

(** From the provider's answer on. *)
Definition submit_answered (o : Owner) (job : BatchImageJob) (requestHash : bytes)
    (answer : res (option (bytes * bytes))) : prg (res BatchImageJob) :=
  let b := BatchID (j_Params job) in
  match answer with
  | Err e =>
      try _ := releaseFailedSubmitHold job requestHash in
      let publicErr := batchImageProviderSubmitPublicError e in
      refuse o job (batchImageProviderSubmitRecordCode publicErr) publicErr
  | Ok None =>
      try _ := releaseFailedSubmitHold job requestHash in
      refuse o job (lit "PROVIDER_SUBMIT_FAILED") ProviderSubmitFailed
  | Ok (Some (name, outputRef)) =>
      if bool_decide (TrimSpace name = []) then
        try _ := releaseFailedSubmitHold job requestHash in
        refuse o job (lit "PROVIDER_SUBMIT_FAILED") ProviderSubmitFailed
      else
        or_else (write (provider_submit b name outputRef))
          (λ e, let! _ := abortOrphanProviderJob job name outputRef in Ret (Err e))
          (λ _,
             let! queued := if sv_HasQueue sv then enqueue b else Ret (Ok tt) in
             match queued with
             | Err _ =>
                 let! _ := RecordBatchImageJobSubmitFailure b (lit "QUEUE_FAILED") false in
                 Ret (Err QueueFailed)
             | Ok _ => read (job_by_batch_id b)
             end)
  end.

(** From the created row on. *)
Definition submit_created (o : Owner) (req : BatchImageSubmitRequest) (requestHash : bytes) (job : BatchImageJob)
    : prg (res BatchImageJob) :=
  let b := BatchID (j_Params job) in
  or_else (reserveBatchImageBalanceHold job requestHash)
    (λ e, refuse o job (if bool_decide (e = InsufficientBalance) then lit "INSUFFICIENT_BALANCE"
                        else lit "BILLING_HOLD_FAILED") e)
    (λ _,
       or_else (createPendingItems b (Items req))
         (λ e,
            try _ := releaseFailedSubmitHold job requestHash in
            refuse o job (lit "ITEM_CREATE_FAILED") QueueFailed)
         (λ _,
            or_else (write (transition b Uploading None "upload_started"))
              (λ e,
                 try _ := releaseFailedSubmitHold job requestHash in
                 if bool_decide (e = InvalidTransition) then Ret (Err e)
                 else refuse o job (lit "UPLOAD_TRANSITION_FAILED") e)
              (λ _,
                 let job := set_status Uploading job in
                 let! answer := ask (QProviderSubmit job) in
                 submit_answered o job requestHash answer))).

Definition submit_new (o : Owner) (req : BatchImageSubmitRequest) (requestHash key : bytes) : prg (res BatchImageJob) :=
  try sel := ask (QSelect o (Provider req) (Model req)) in
  try snapshot := price o req sel in
  try parent := resolve_parent o (ParentBatchID req) in
  try random := ask QRandom in
  let params := mkParams (NewBatchImageID random) (ow_UserID o) (Some (ow_APIKeyID o)) (Some (sel_AccountID sel))
                  (sel_RoutedGroupID sel) (sel_Provider sel) (Model req) parent (lenZ (Items req))
                  (EstimatedCost snapshot) (Some (HoldAmount snapshot)) (BillableUnitPrice snapshot) 1
                  (batchImageOptionalStringPtr key) (Some requestHash) in
  try job := write (create_job params) in
  submit_created o req requestHash job.

Definition Submit (o : Owner) (req : BatchImageSubmitRequest) (idempotencyKey : bytes) : prg (res BatchImageJob) :=
  if negb (sv_Enabled sv) then Ret (Err Disabled)
  else
    let! name := ask QTaskName in
    match validateSubmitRequest (sv_Limits sv) name req with
    | Err e => Ret (Err e)
    | Ok req =>
        try _ := ensureGroupAllowsBatchImage (ow_GroupID o) in
        let requestHash := HashBatchImageSubmitRequest req in
        let key := TrimSpace idempotencyKey in
        if bool_decide (key = []) then submit_new o req requestHash key
        else
          let! existing := read (job_by_idempotency_key (ow_UserID o) (ow_APIKeyID o) key) in
          match existing with
          | Ok job =>
              if negb (bool_decide (request_hash_of job = requestHash)) then Ret (Err IdempotencyConflict)
              else if bool_decide (j_Status job = Submitted) && sv_HasQueue sv then
                or_else (enqueue (BatchID (j_Params job)))
                  (λ _, let! _ := RecordBatchImageJobSubmitFailure (BatchID (j_Params job)) (lit "QUEUE_FAILED") false in
                        Ret (Err QueueFailed))
                  (λ _, Ret (Ok job))
              else Ret (Ok job)
          | Err JobNotFound => submit_new o req requestHash key
          | Err e => Ret (Err e)
          end
    end.

(** ** Cancelling and deleting *)

Definition isBatchImageProcessorDoneStatus (st : JobStatus) : bool :=
  bool_decide (st = Settling) || IsTerminalBatchImageJobStatus st.

Definition Cancel (o : Owner) (b : bytes) : prg (res BatchImageJob) :=
  let reload := read (job_for_owner (ow_UserID o) (ow_APIKeyID o) b) in
  try job := reload in
  let b := BatchID (j_Params job) in
  let release k := or_else (releaseBatchImageBalanceHold job (request_hash_of job))
                     (λ _, let! _ := enqueueBillingRetry b in Ret (Err CancelFailed)) (λ _, k) in
  if isBatchImageProcessorDoneStatus (j_Status job) then
    if bool_decide (j_Status job ∈ [Failed; Cancelled]) then release (Ret (Ok job)) else Ret (Ok job)
  else if match j_ProviderJobName job with Some n => negb (bool_decide (TrimSpace n = [])) | None => false end then
    if negb (IsSupportedBatchImageProvider (p_Provider (j_Params job))) then Ret (Err UnsupportedProvider)
    else
      match AccountID (j_Params job) with
      | None => Ret (Err CancelFailed)
      | Some id =>
          or_else (ask (QAccount id)) (λ _, Ret (Err CancelFailed)) (λ _,
          or_else (ask (QProviderCancel job)) (λ _, Ret (Err CancelFailed)) (λ _,
          let! _ := write (append_event b "job_cancel_requested") in
          or_else (if sv_HasQueue sv then enqueue b else Ret (Ok tt)) (λ _, Ret (Err CancelFailed)) (λ _, reload)))
      end
  else
    try _ := write (transition b Cancelled None "job_cancelled") in
    release reload.

Definition DeleteRecord (o : Owner) (b : bytes) : prg (res unit) :=
  try job := read (job_for_owner (ow_UserID o) (ow_APIKeyID o) b) in
  if negb (isBatchImageProcessorDoneStatus (j_Status job)) then Ret (Err RecordDeleteNotReady)
  else
    let! now := clock in
    let b := BatchID (j_Params job) in
    mark_and_log (mark_user_deleted (ow_UserID o) (ow_APIKeyID o) b now) b "user_record_deleted".

(** ** Recovery of submissions that died *)

Definition recover_one (cutoff : time) (acc : Z * option berror) (job : BatchImageJob) : prg (Z * option berror) :=
  let b := BatchID (j_Params job) in
  let '(released, lastErr) := acc in
  let! r := FailStaleUnsubmittedBatchImageJob b cutoff (lit "SUBMIT_STALE_BEFORE_PROVIDER") in
  match r with
  | (false, Err e) => Ret (released, Some e)
  | (false, Ok _) => Ret (released, lastErr)
  | (true, _) =>
      let job := set_status Failed job in
      let! r := releaseBatchImageBalanceHold job (request_hash_of job) in
      match r with
      | Ok _ => Ret (released + 1, lastErr)
      | Err e =>
          let! _ := if sv_HasQueue sv then enqueue b else Ret (Ok tt) in
          Ret (released, Some e)
      end
  end.

Definition ReleaseStaleUnsubmittedOnce : prg (res (Z * option berror)) :=
  let staleAfter := if sv_StaleAfter sv <=? 0 then 10 * minute else sv_StaleAfter sv in
  let limit := if sv_RecoveryLimit sv <=? 0 then 100 else sv_RecoveryLimit sv in
  let! now := clock in
  let cutoff := now - staleAfter in
  try jobs := read (list_stale cutoff limit) in
  let! r := for_each jobs (0, None) (recover_one cutoff) in
  Ret (Ok r).

(** ** Processing *)

Inductive BatchImageProcessResult := Terminal | RequeueAfter (d : duration).

Definition requeueDelay (suggested : duration) : duration :=
  if 0 <? suggested then suggested
  else if 0 <? sv_DefaultRequeue sv then sv_DefaultRequeue sv else 30 * second.

Definition releaseTerminalHold (job : BatchImageJob) : prg (res unit) :=
  if bool_decide (j_Status job ∈ [Failed; Cancelled]) then releaseBatchImageBalanceHold job (request_hash_of job)
  else Ret (Ok tt).

(** Move to a failed or cancelled state, then give the hold back. *)
Definition finish (job : BatchImageJob) (to : JobStatus) (code : option bytes) (event : string)
    : prg (res BatchImageProcessResult) :=
  try _ := write (transition (BatchID (j_Params job)) to code event) in
  try _ := releaseTerminalHold (set_status to job) in
  Ret (Ok Terminal).

(** [listExpectedCustomIDs]: pages of 500 rows, at most [pages] of them. *)
Fixpoint expected_pages (b : bytes) (pages : nat) (offset : Z) (acc : list bytes) : prg (res (list bytes)) :=
  match pages with
  | O => Ret (Err Lost)
  | S pages =>
      try page := read (list_items b 500 offset) in
      let acc := acc ++ filter (λ id, id ∉ acc) (i_CustomID <$> page) in
      if lenZ page <? 500 then Ret (Ok acc) else expected_pages b pages (offset + lenZ page) acc
  end.

(** Enough pages for the items the job was created with. *)
Definition listExpectedCustomIDs (job : BatchImageJob) : prg (res (list bytes)) :=
  expected_pages (BatchID (j_Params job)) (S (Z.to_nat (ItemCount (j_Params job) / 500))) 0 [].

Definition Index (job : BatchImageJob) : prg (res IndexResult) :=
  let b := BatchID (j_Params job) in
  try expected := listExpectedCustomIDs job in
  or_else (ask (QOpenResult job)) (λ _, Ret (Err IndexOutputMissing)) (λ o,
  match index_output expected o with
  | Err e => Ret (Err e)
  | Ok r =>
      let! _ := if (0 <? ix_unknown r) || (0 <? lenZ (filter (λ id, id ∉ ix_seen r) expected))
                then write (append_event b "index_reconciled") else Ret (Ok tt) in
      try _ := write (replace_items b (ix_items r) (ix_success r) (ix_fail r)) in
      Ret (Ok r)
  end).

Definition indexAndSettle (job : BatchImageJob) : prg (res BatchImageProcessResult) :=
  or_else (Index job)
    (λ e,
       if bool_decide (e = IndexOutputMissing) then Ret (Err e)
       else if bool_decide (e = IndexStateConflict) then Ret (Ok (RequeueAfter millisecond))
       else finish job Failed
              (Some (if bool_decide (e = DuplicateCustomID) then lit "DUPLICATE_CUSTOM_ID_IN_OUTPUT"
                     else lit "INDEX_PARSE_FAILED")) "indexing_failed")
    (λ _,
       try _ := write (transition (BatchID (j_Params job)) Settling None "indexing_completed") in
       Ret (Ok (RequeueAfter millisecond))).

Definition persistProviderOutputRef (job : BatchImageJob) (ref : bytes) : prg (res BatchImageJob) :=
  let ref := TrimSpace ref in
  if bool_decide (ref = []) || bool_decide (batchImageDerefString (j_ProviderOutputRef job) = ref) then Ret (Ok job)
  else
    try _ := write (update_output_ref (BatchID (j_Params job)) ref) in
    Ret (Ok (set_provider (j_ProviderJobName job) (Some ref) job)).

(** Move the job to the state the provider reports, unless it is there. *)
Definition advance_to (job : BatchImageJob) (to : JobStatus) (event : string) : prg (res BatchImageJob) :=
  if bool_decide (j_Status job = to) then Ret (Ok job)
  else
    try _ := write (transition (BatchID (j_Params job)) to None event) in
    Ret (Ok (set_status to job)).

Definition process_status (job : BatchImageJob) (st : BatchProviderStatus) : prg (res BatchImageProcessResult) :=
  try job := persistProviderOutputRef job (bs_ProviderOutputRef st) in
  match bs_InternalState st with
  | StateQueued | StateOther => Ret (Ok (RequeueAfter (requeueDelay (bs_SuggestedRequeueAfter st))))
  | StateRunning =>
      try _ := advance_to job Running "provider_status_checked" in
      Ret (Ok (RequeueAfter (requeueDelay (bs_SuggestedRequeueAfter st))))
  | StateSucceeded =>
      try job := advance_to job Indexing "indexing_started" in
      indexAndSettle job
  | StateFailed | StateExpired =>
      let code := TrimSpace (bs_ErrorCode st) in
      let code := if negb (bool_decide (code = [])) then code
                  else if bool_decide (bs_InternalState st = StateExpired) then lit "PROVIDER_BATCH_EXPIRED"
                  else lit "PROVIDER_BATCH_FAILED" in
      finish job Failed (Some code) "job_failed"
  | StateCancelled => finish job Cancelled None "job_failed"
  end.

Definition Process (b : bytes) : prg (res BatchImageProcessResult) :=
  try job := read (job_by_batch_id b) in
  if isBatchImageProcessorDoneStatus (j_Status job) then
    try _ := releaseTerminalHold job in Ret (Ok Terminal)
  else if negb (IsSupportedBatchImageProvider (p_Provider (j_Params job))) then Ret (Err UnsupportedProvider)
  else
    match AccountID (j_Params job) with
    | None => Ret (Err MissingAccountID)
    | Some id =>
        if id <=? 0 then Ret (Err MissingAccountID)
        else
          try supported := ask (QAccount id) in
          if negb supported then Ret (Err UnsupportedAccount)
          else if bool_decide (batchImageDerefString (j_ProviderJobName job) = []) then Ret (Err MissingProviderJobName)
          else if bool_decide (j_Status job = Indexing) then indexAndSettle job
          else
            or_else (ask (QProviderGet job)) (λ _, Ret (Ok (RequeueAfter minute))) (λ st,
            match st with
            | None => Ret (Ok (RequeueAfter (requeueDelay 0)))
            | Some st => process_status job st
            end)
    end.

(** ** Settlement *)

Definition batchImageSettlementMaxRetries : Z := 5.
Definition batchImageCostEpsilon : float64 := Float.decimal 1 8.

Definition BuildBatchImageSettlementManifestHash (job : BatchImageJob) : bytes :=
  let p := j_Params job in
  sha256_hex (Join NUL [TrimSpace (BatchID p); TrimSpace (p_Provider p); TrimSpace (p_Model p);
    batchImageDerefString (j_ProviderJobName job); batchImageDerefString (j_ProviderOutputRef job);
    FormatInt (j_SuccessCount job); FormatInt (j_FailCount job); FormatInt (ItemCount p)]).

Definition isBatchImageSettlementRetryExhausted (job : BatchImageJob) : bool :=
  bool_decide (j_Status job = Settling) && (batchImageSettlementMaxRetries <=? j_RetryCount job)
  && HasPrefix (batchImageDerefString (j_LastErrorCode job)) (lit "SETTLEMENT_").

Definition failExhaustedSettlement (job : BatchImageJob) : prg (res unit) :=
  let b := BatchID (j_Params job) in
  or_else (releaseBatchImageBalanceHold job (request_hash_of job))
    (λ _, let! _ := SetBatchImageJobSettlementFailed b (lit "SETTLEMENT_RELEASE_FAILED") in
          Ret (Err SettlementBillingFailed))
    (λ _,
       try _ := write (transition b Failed (Some (lit "SETTLEMENT_BILLING_RETRY_EXHAUSTED")) "settlement_retry_exhausted") in
       Ret (Err SettlementBillingFailed)).

(** [Ok]: the caller reports its own error. *)
Definition recordSettlementFailure (job : BatchImageJob) (code : bytes) : prg (res unit) :=
  or_else (SetBatchImageJobSettlementFailed (BatchID (j_Params job)) code) (λ _, Ret (Ok tt)) (λ retryCount,
  if batchImageSettlementMaxRetries <=? retryCount
  then failExhaustedSettlement (set_error retryCount (Some code) job)
  else Ret (Ok tt)).

Definition settlement_error {A} (job : BatchImageJob) (code : bytes) (e : berror) : prg (res A) :=
  try _ := recordSettlementFailure job code in Ret (Err e).

Definition settlementUnitPrice (job : BatchImageJob) : prg (res float64) :=
  let p := j_Params job in
  if 1 <=? PricingSnapshotVersion p then
    Ret (if Float.lt (p_BillableUnitPrice p) Float.zero then Err SettlementPricingMissing else Ok (p_BillableUnitPrice p))
  else ask (QUnitPrice (p_Provider p) (p_Model p)).

(** The charge: successes at the unit price. *)
Definition settle_at (job : BatchImageJob) (unitPrice : float64) : prg (res bool) :=
  let b := BatchID (j_Params job) in
  let manifest := BuildBatchImageSettlementManifestHash job in
  let actualCost := Float.mul (Float.of_Z (j_SuccessCount job)) unitPrice in
  if Float.lt batchImageCostEpsilon (Float.sub actualCost (hold_of (j_Params job)))
  then settlement_error job (lit "SETTLEMENT_COST_EXCEEDS_HOLD") SettlementCostExceedsHold
  else
    or_else (captureBatchImageBalanceHold job actualCost manifest)
      (λ e, settlement_error job (lit "SETTLEMENT_BILLING_FAILED") e)
      (λ _,
         let! now := clock in
         try _ := write (mark_settled b actualCost manifest now) in
         Ret (Ok false)).

(** [Ok true]: settled before. *)
Definition Settle (b : bytes) : prg (res bool) :=
  try job := read (job_by_batch_id b) in
  let p := j_Params job in
  let manifest := BuildBatchImageSettlementManifestHash job in
  if bool_decide (j_Status job = Completed) then Ret (Ok true)
  else if negb (bool_decide (j_Status job = Settling)) then Ret (Err SettlementInvalidStatus)
  else if match APIKeyID p with Some k => k <=? 0 | None => true end then Ret (Err SettlementMissingAPIKeyID)
  else if match AccountID p with Some k => k <=? 0 | None => true end then Ret (Err SettlementMissingAccountID)
  else if isBatchImageSettlementRetryExhausted job then
    try _ := failExhaustedSettlement job in Ret (Ok false)
  else if (j_SuccessCount job <? 0) || (j_FailCount job <? 0) || (ItemCount p <? 0)
          || (ItemCount p <? j_SuccessCount job + j_FailCount job)
  then settlement_error job (lit "SETTLEMENT_INVALID_COUNTS") SettlementInvalidCounts
  else if negb (bool_decide (batchImageDerefString (j_ManifestHash job) = []))
          && negb (bool_decide (batchImageDerefString (j_ManifestHash job) = manifest))
  then settlement_error job (lit "SETTLEMENT_MANIFEST_CONFLICT") SettlementManifestConflict
  else
    let! price := settlementUnitPrice job in
    match price with
    | Err e => settlement_error job (lit "SETTLEMENT_PRICING_MISSING") e
    | Ok unitPrice =>
        if Float.lt unitPrice Float.zero
        then settlement_error job (lit "SETTLEMENT_PRICING_MISSING") SettlementPricingMissing
        else settle_at job unitPrice
    end.

(** [BatchImagePipelineProcessor.Process] *)
Definition Pipeline (b : bytes) : prg (res BatchImageProcessResult) :=
  try job := read (job_by_batch_id b) in
  if negb (bool_decide (j_Status job = Settling)) then Process b
  else
    or_else (Settle b)
      (λ e,
         if negb (bool_decide (e = SettlementBillingFailed)) then Ret (Err e)
         else
           let! updated := read (job_by_batch_id b) in
           let delay := if sv_SettlementRetryDelay sv <=? 0 then minute else sv_SettlementRetryDelay sv in
           Ret (Ok match updated with
                   | Ok u => if IsTerminalBatchImageJobStatus (j_Status u) then Terminal else RequeueAfter delay
                   | Err _ => RequeueAfter delay
                   end))
      (λ _, Ret (Ok Terminal)).

(** ** Cleanup *)

Definition cleanup_failed {A} (b code : bytes) (event : string) (e : berror) : prg (res A) :=
  let! r := write (cleanup_failure b code) in
  let! _ := match r with Ok _ => write (append_event b "output_cleanup_failed") | Err _ => Ret (Ok tt) end in
  let! _ := write (append_event b event) in
  Ret (Err e).

(** An answer "not found" of the provider counts as success. *)
Definition callProviderCleanup (job : BatchImageJob) (t : CleanupTarget) : prg (res unit) :=
  if negb (IsSupportedBatchImageProvider (p_Provider (j_Params job))) then Ret (Err UnsupportedProvider)
  else
    match AccountID (j_Params job) with
    | None => Ret (Err MissingAccountID)
    | Some id =>
        if id <=? 0 then Ret (Err MissingAccountID)
        else try _ := ask (QAccount id) in ask (QProviderCleanup job t)
    end.

(** The provider reports an unsafe path with an error of its own. *)
Definition cleanupFailureCode (e : berror) : bytes :=
  if bool_decide (e = CleanupUnsafePath) then lit "BATCH_IMAGE_CLEANUP_UNSAFE_PATH"
  else
    let reason := TrimSpace (Reason e) in
    if bool_decide (reason = []) then lit "BATCH_IMAGE_PROVIDER_CLEANUP_FAILED" else reason.

Definition run_cleanup (job : BatchImageJob) (t : CleanupTarget) (started failed done : string) : prg (res unit) :=
  let b := BatchID (j_Params job) in
  let! _ := write (append_event b started) in
  or_else (callProviderCleanup job t)
    (λ e, cleanup_failed b (cleanupFailureCode e) failed
            (if bool_decide (e = CleanupUnsafePath) then CleanupUnsafePath else ProviderCleanupFailed))
    (λ _,
       let! now := clock in
       mark_and_log (match t with
                     | CleanupTargetInput => mark_input_deleted b now
                     | CleanupTargetOutput => mark_output_deleted b now
                     end) b done).

Definition cleanupJob (job : BatchImageJob) (t : CleanupTarget) : prg (res unit) :=
  match t with
  | CleanupTargetInput =>
      if bool_decide (is_Some (j_InputDeletedAt job)) then Ret (Ok tt)
      else if negb (IsTerminalBatchImageJobStatus (j_Status job)) then Ret (Err CleanupFailed)
      else run_cleanup job t "input_cleanup_started" "input_cleanup_failed" "input_cleanup_completed"
  | CleanupTargetOutput =>
      if bool_decide (is_Some (j_OutputDeletedAt job)) || bool_decide (j_Status job = OutputDeleted) then Ret (Ok tt)
      else if negb (bool_decide (j_Status job ∈ [Completed; Failed; Cancelled])) then Ret (Err OutputDeleteNotReady)
      else run_cleanup job t "output_cleanup_started" "output_cleanup_failed" "output_cleanup_completed"
  end.

(** [CleanupInput] and [CleanupOutput] *)
Definition Cleanup (b : bytes) (t : CleanupTarget) : prg (res unit) :=
  try job := read (job_by_batch_id b) in cleanupJob job t.

Definition DeleteOutputsForOwner (o : Owner) (b : bytes) : prg (res BatchImageJob) :=
  let load := read (job_for_owner (ow_UserID o) (ow_APIKeyID o) b) in
  try job := load in
  if bool_decide (j_Status job = OutputDeleted) || bool_decide (is_Some (j_OutputDeletedAt job)) then Ret (Ok job)
  else if negb (bool_decide (j_Status job = Completed)) then Ret (Err OutputDeleteNotReady)
  else
    let! _ := write (append_event (BatchID (j_Params job)) "manual_output_delete_requested") in
    try _ := cleanupJob job CleanupTargetOutput in
    load.

(** ** Requests *)

(** [RBalance]: another service changes what a user has available; [RDeleteUser]: the
    user is deleted.  The heartbeat of a slow submission is a request of its own. *)
Inductive request :=
  | RSubmit (o : Owner) (req : BatchImageSubmitRequest) (idempotencyKey : bytes)
  | RCancel (o : Owner) (b : bytes)
  | RDelete (o : Owner) (b : bytes)
  | RWork (b : bytes)
  | RRecover
  | RCleanup (b : bytes) (t : CleanupTarget)
  | RDeleteOutputs (o : Owner) (b : bytes)
  | RHeartbeat (b : bytes)
  | RArchive (old : bytes * Z → bool)
  | RBalance (user delta : Z)
  | RDeleteUser (user : Z).

Definition change_balance (user delta : Z) (s : Store) : res unit * Store :=
  (Ok tt, with_users (alter (λ w, mkWallet (balance w + delta) (frozen w)) user) s).
Definition delete_user (user : Z) (s : Store) : res unit * Store := (Ok tt, with_users (delete user) s).

Definition handle (r : request) : prg unit :=
  match r with
  | RSubmit o req k => let! _ := Submit o req k in Ret tt
  | RCancel o b => let! _ := Cancel o b in Ret tt
  | RDelete o b => let! _ := DeleteRecord o b in Ret tt
  | RWork b => let! _ := Pipeline b in Ret tt
  | RRecover => let! _ := ReleaseStaleUnsubmittedOnce in Ret tt
  | RCleanup b t => let! _ := Cleanup b t in Ret tt
  | RDeleteOutputs o b => let! _ := DeleteOutputsForOwner o b in Ret tt
  | RHeartbeat b => let! _ := write (touch_submitting b) in Ret tt
  | RArchive old => let! _ := write (archive_claims old) in Ret tt
  | RBalance u d => let! _ := write (change_balance u d) in Ret tt
  | RDeleteUser u => let! _ := write (delete_user u) in Ret tt
  end.
End service.
End BatchImage.
