(* ===== verification/BatchIndex.v ===== *)
(** * Indexing accounts for every submitted image exactly once

    The reconciliation of [BatchImageResultIndexer.Index]: whatever lines the
    provider's output holds, the new items are the submitted identifiers, each once,
    and the counters are the numbers of their states. *)

From S2P Require Import Prelude Float64 GoStrings PaymentOrder BatchRequest Database Interleaving BatchStore BatchImage.

Module BatchIndex.
Import GoStrings BatchRequest BatchStore BatchImage.

Definition in_item_state (st : ItemStatus) (l : list BatchImageItem) : Z := lenZ (filter (λ i, i_Status i = st) l).

Lemma in_item_state_app st l k : in_item_state st (l ++ k) = in_item_state st l + in_item_state st k.
Proof. unfold in_item_state, lenZ. rewrite filter_app, length_app. lia. Qed.

Lemma in_item_state_one st i : in_item_state st [i] = if decide (i_Status i = st) then 1 else 0.
Proof. unfold in_item_state, lenZ. rewrite filter_cons. by case_decide. Qed.

Lemma item_of_id p : i_CustomID (item_of p) = pr_CustomID p.
Proof. unfold item_of. by destruct (pr_Succeeded p). Qed.
Lemma item_of_state p : i_Status (item_of p) = if pr_Succeeded p then ItemSuccess else ItemFailed.
Proof. unfold item_of. by destruct (pr_Succeeded p). Qed.

Section index.
Context (expected : list bytes).

(** The scan's variables between two lines. *)
Record scanned (r : IndexResult) : Prop := {
  sc_ids : i_CustomID <$> ix_items r ≡ₚ ix_seen r;
  sc_unique : NoDup (ix_seen r);
  sc_expected : expected ≠ [] → ∀ id, id ∈ ix_seen r → id ∈ expected;
  sc_success : ix_success r = in_item_state ItemSuccess (ix_items r);
  sc_fail : ix_fail r = in_item_state ItemFailed (ix_items r);
  sc_total : ix_total r = lenZ (ix_items r) ∧ ix_total r = ix_success r + ix_fail r
}.

Lemma index_line_ok line r r' : index_line expected line r = Ok r' → scanned r → scanned r'.
Proof.
  intros Hl [J1 J2 J3 J4 J5 [J6 J7]]. apply rbind_ok in Hl as (p & -> & Hl).
  destruct (negb _ && _) eqn:He; [by injection Hl as <-|]. case_bool_decide as Hs; [done|]. injection Hl as <-. split; simpl.
  - rewrite fmap_app, J1. simpl. rewrite item_of_id. apply Permutation_app_comm.
  - by constructor.
  - intros Hne id [->|Hid]%elem_of_cons; [|by apply J3]. apply andb_false_iff in He as [He|He]; by bool_hyp.
  - rewrite in_item_state_app, in_item_state_one, item_of_state, J4. destruct (pr_Succeeded p); case_decide; done || lia.
  - rewrite in_item_state_app, in_item_state_one, item_of_state, J5. destruct (pr_Succeeded p); case_decide; done || lia.
  - unfold lenZ in *. rewrite length_app. simpl. destruct (pr_Succeeded p); lia.
Qed.

Lemma index_lines_ok lines : ∀ r r', index_lines expected lines r = Ok r' → scanned r → scanned r'.
Proof.
  induction lines as [|l lines IH]; intros r r' Hl Hr; simpl in Hl; [by injection Hl as <-|].
  apply rbind_ok in Hl as (r1 & H1 & Hl). eapply IH; [done|]. by eapply index_line_ok.
Qed.

Lemma missing_states l : in_item_state ItemSuccess (missing_item <$> l) = 0 ∧ in_item_state ItemFailed (missing_item <$> l) = lenZ l.
Proof.
  unfold in_item_state. split.
  - rewrite filter_all_false; [done|]. by intros i (id & -> & _)%list_elem_of_fmap.
  - rewrite filter_all_true; [unfold lenZ; by rewrite length_fmap|]. by intros i (id & -> & _)%list_elem_of_fmap.
Qed.

Lemma split_expected seen : NoDup expected → NoDup seen → (∀ id, id ∈ seen → id ∈ expected) →
  seen ++ filter (λ id, id ∉ seen) expected ≡ₚ expected.
Proof.
  intros He Hs Hin. apply NoDup_Permutation; [|done|].
  - apply NoDup_app. split_and!; [done| |by apply NoDup_filter].
    intros x Hx [Hn _]%list_elem_of_filter. done.
  - intros x. rewrite elem_of_app, list_elem_of_filter. split; [naive_solver|].
    intros Hx. destruct (decide (x ∈ seen)); naive_solver.
Qed.

(** Every submitted identifier, once; successes and failures counted. *)
Lemma index_output_ok o r : NoDup expected → expected ≠ [] → index_output expected o = Ok r →
  i_CustomID <$> ix_items r ≡ₚ expected ∧
  ix_success r = in_item_state ItemSuccess (ix_items r) ∧ ix_fail r = in_item_state ItemFailed (ix_items r) ∧
  ix_success r + ix_fail r = lenZ expected ∧ ix_total r = lenZ expected ∧ 0 ≤ ix_success r ∧ 0 ≤ ix_fail r.
Proof.
  intros Hu Hne Ho. apply rbind_ok in Ho as (r1 & Hl & Ho). destruct (out_error o); [done|].
  cbv zeta in Ho. destruct (ix_total (index_missing expected r1) =? 0); [done|]. injection Ho as <-.
  assert (Hr : scanned r1) by (eapply index_lines_ok; [done|]; split; simpl; [done|constructor|set_solver|done|done|done]).
  destruct Hr as [J1 J2 J3 J4 J5 [J6 J7]]. specialize (J3 Hne). unfold index_missing. cbn [ix_items ix_success ix_fail ix_total].
  set (missing := merge_sort _ _). destruct (missing_states missing) as [M1 M2].
  assert (Hm : missing ≡ₚ filter (λ id, id ∉ ix_seen r1) expected) by apply merge_sort_Permutation.
  pose proof (split_expected _ Hu J2 J3) as Hsplit.
  assert (Hlen : lenZ (ix_items r1) + lenZ missing = lenZ expected).
  { unfold lenZ. rewrite <- Hsplit, length_app, Hm, <- J1, length_fmap. lia. }
  assert (0 ≤ ix_success r1) by (rewrite J4; unfold in_item_state, lenZ; lia).
  assert (0 ≤ ix_fail r1) by (rewrite J5; unfold in_item_state, lenZ; lia).
  assert (0 ≤ lenZ missing) by (unfold lenZ; lia).
  rewrite !in_item_state_app, M1, M2. split_and!; [|lia|lia|lia|lia|lia|lia].
  rewrite fmap_app, <- list_fmap_compose. change ((i_CustomID ∘ missing_item) <$> missing) with (id <$> missing).
  by rewrite list_fmap_id, J1, Hm.
Qed.

(** The lines become items: none is read wrongly or left out. *)
Lemma index_lines_items lines : ∀ r r', expected ≠ [] → index_lines expected lines r = Ok r' →
  ∃ ps, lines = Ok <$> ps ∧ ix_items r ⊆ ix_items r' ∧
    (∀ p, p ∈ ps → pr_CustomID p ∈ expected → item_of p ∈ ix_items r') ∧
    (∀ id, id ∈ ix_seen r' → id ∈ ix_seen r ∨ id ∈ pr_CustomID <$> ps).
Proof.
  induction lines as [|l lines IH]; intros r r' Hne Hl; simpl in Hl.
  - injection Hl as <-. exists []. split_and!; [done|done|by intros p ?%not_elem_of_nil|by left].
  - apply rbind_ok in Hl as (r1 & H1 & Hl). destruct (IH _ _ Hne Hl) as (ps & -> & Hsub & Hps & Hseen).
    unfold index_line in H1. apply rbind_ok in H1 as (p & -> & H1). rewrite (bool_decide_eq_false_2 _ Hne) in H1. cbn [negb andb] in H1.
    exists (p :: ps). split; [done|]. case_bool_decide as He; cbn [negb] in H1.
    + case_bool_decide as Hs; [done|]. injection H1 as <-. cbn [ix_items ix_seen] in *. split_and!.
      * intros i Hi. apply Hsub, elem_of_app. by left.
      * intros q [->|Hq]%elem_of_cons Hqe; [|by apply Hps]. apply Hsub, elem_of_app. right. by apply list_elem_of_singleton.
      * intros id Hid. rewrite fmap_cons, elem_of_cons. destruct (Hseen id Hid) as [[->|?]%elem_of_cons|?]; auto.
    + injection H1 as <-. cbn [ix_items ix_seen] in *. split_and!; [done| |].
      * intros q [->|Hq]%elem_of_cons Hqe; [done|by apply Hps].
      * intros id Hid. rewrite fmap_cons, elem_of_cons. destruct (Hseen id Hid); auto.
Qed.

Lemma index_output_items o r : expected ≠ [] → index_output expected o = Ok r →
  ∃ ps, out_lines o = Ok <$> ps ∧
    (∀ p, p ∈ ps → pr_CustomID p ∈ expected → item_of p ∈ ix_items r) ∧
    (∀ id, id ∈ expected → id ∉ pr_CustomID <$> ps → missing_item id ∈ ix_items r).
Proof.
  intros Hne Ho. apply rbind_ok in Ho as (r1 & Hl & Ho). destruct (out_error o); [done|].
  cbv zeta in Ho. destruct (ix_total (index_missing expected r1) =? 0); [done|]. injection Ho as <-.
  destruct (index_lines_items _ _ _ Hne Hl) as (ps & Hps & _ & Hitems & Hseen). exists ps.
  unfold index_missing. cbn [ix_items]. split_and!; [done| |].
  - intros p Hp He. apply elem_of_app. left. by apply Hitems.
  - intros id Hid Hno. apply elem_of_app. right. apply list_elem_of_fmap. exists id. split; [done|].
    rewrite merge_sort_Permutation. apply list_elem_of_filter. split; [|done].
    intros Hs. destruct (Hseen id Hs) as [?%not_elem_of_nil|?]; done.
Qed.
End index.
End BatchIndex.
