(* ===== verification/BatchInvariant.v ===== *)
(** * What every step on the batch tables preserves

    The order of a job's states, what an applied billing command did, the invariant
    of the tables, and the lemmas that each statement of [BatchStore] keeps it. *)

From Stdlib Require Import QArith Lqa.
From S2P Require Import Prelude Float64 GoStrings PaymentOrder BatchRequest Database Interleaving BatchStore BatchImage.

Module BatchInvariant.
Import GoStrings BatchRequest BatchStore BatchImage.

(** ** States *)

Definition pre (st : JobStatus) : bool := match st with Created | Uploading => true | _ => false end.
Definition live (st : JobStatus) : bool := match st with Submitted | Running | Indexing => true | _ => false end.
(** The provider took the job, and it did not fail. *)
Definition sent (st : JobStatus) : bool :=
  match st with Submitted | Running | Indexing | Settling | Completed | OutputDeleted => true | _ => false end.
(** The provider may never have seen the job. *)
Definition early (st : JobStatus) : bool :=
  match st with Created | Uploading | Failed | Cancelled => true | _ => false end.
(** Nothing is running for the job any more. *)
Definition past (st : JobStatus) : bool := negb (pre st) && negb (live st).
Definition settled (st : JobStatus) : bool := match st with Completed | OutputDeleted => true | _ => false end.

Definition rank (st : JobStatus) : Z :=
  match st with
  | Created => 0 | Uploading => 1 | Submitted => 2 | Running => 3 | Indexing => 4 | Settling => 5
  | Completed => 6 | OutputDeleted => 7 | Cancelled => 8 | Failed => 9
  end.

(** The states a job in [a] can reach. *)
Definition may_become (a b : JobStatus) : bool :=
  match a, b with
  | Failed, _ => bool_decide (b = Failed)
  | Cancelled, _ => bool_decide (b ∈ [Cancelled; Failed])
  | _, Failed => rank a <=? 5
  | _, Cancelled => rank a <=? 3
  | _, _ => rank a <=? rank b
  end.

Lemma may_become_refl a : may_become a a = true.
Proof. by destruct a. Qed.
Lemma may_become_trans a b c : may_become a b = true → may_become b c = true → may_become a c = true.
Proof. destruct a, b; try done; by destruct c. Qed.

Lemma transition_may_become a b :
  CanTransitionBatchImageJob a b = true → b ≠ OutputDeleted → may_become a b = true.
Proof. by destruct a, b. Qed.

Lemma past_stays a b : may_become a b = true → past a = true → past b = true.
Proof. by destruct a, b. Qed.
Lemma pre_back a b : may_become a b = true → pre b = true → pre a = true.
Proof. by destruct a, b. Qed.
Lemma sent_back a b : may_become a b = true → sent b = true → pre a = true ∨ sent a = true.
Proof. destruct a, b; simpl; intros; try done; auto. Qed.
#[export] Hint Resolve may_become_refl past_stays pre_back : go.

(** ** Applied commands *)

Definition concerns (op : hold_op) (b : bytes) (e : entry) : Prop := en_op e = op ∧ c_BatchID (en_cmd e) = b.
Definition applied (op : hold_op) (b : bytes) (L : list entry) : Prop := ∃ e, e ∈ L ∧ concerns op b e.

Definition key_of (e : entry) : bytes * Z := (c_RequestID (en_cmd e), c_APIKeyID (en_cmd e)).

Lemma applied_cons op b e L : applied op b (e :: L) ↔ concerns op b e ∨ applied op b L.
Proof.
  unfold applied. split.
  - intros (x & [->|Hx]%elem_of_cons & Hc); [by left|right; by exists x].
  - intros [Hc|(x & Hx & Hc)]; [exists e|exists x]; (split; [|done]); [apply list_elem_of_here|by apply list_elem_of_further].
Qed.

#[export] Instance concerns_dec op b e : Decision (concerns op b e).
Proof. unfold concerns. apply _. Defined.

Lemma applied_Exists op b L : applied op b L ↔ Exists (concerns op b) L.
Proof. by rewrite Exists_exists. Qed.

#[export] Instance applied_dec op b L : Decision (applied op b L).
Proof.
  refine (match decide (Exists (concerns op b) L) with left Hx => left _ | right Hx => right _ end);
    by rewrite applied_Exists.
Defined.

Definition held (p : CreateBatchImageJobParams) : bool := positive (clamp0 (hold_of p)).

(** Request identifiers determine the operation and the batch. *)
Lemma request_id_inj op op' b b' : Forall visible b → Forall visible b' →
  request_id op b = request_id op' b' → op = op' ∧ b = b'.
Proof.
  unfold request_id. intros Hb Hb'. rewrite !TrimSpace_visible by done.
  destruct op, op'; simpl; intros Heq; simplify_eq; done.
Qed.

Lemma request_id_visible op b : Forall visible b → Forall visible (request_id op b).
Proof.
  intros Hb. unfold request_id. rewrite TrimSpace_visible by done. apply Forall_app. split; [|done].
  destruct op; repeat constructor; by vm_compute.
Qed.

Section invariant.
Context `{Database} `{Numeric} `{Hashing}.

(** What the statement of an applied command did to the user's wallet. *)
Definition moved (op : hold_op) (c : HoldCommand) (w w' : Wallet) : Prop :=
  let h := numeric (c_HoldAmount c) in
  let a := numeric (c_ActualAmount c) in
  match op with
  | Reserve =>
      at_least (balance w) (c_HoldAmount c) = true ∧
      w' = mkWallet (add (balance w) (- h)) (add (frozen w) h)
  | Capture =>
      at_least (frozen w) (c_HoldAmount c) = true ∧
      Float.lt (Float.decimal 1 8) (Float.sub (c_ActualAmount c) (c_HoldAmount c)) = false ∧
      Float.finite (c_ActualAmount c) = true ∧
      w' = mkWallet (add (balance w) ((if Qle_bool h a then 0 else h - a) - (if Qle_bool a h then 0 else a - h)))
                    (add (frozen w) (- h))
  | Release =>
      at_least (frozen w) (c_HoldAmount c) = true ∧
      w' = mkWallet (add (balance w) h) (add (frozen w) (- h))
  end.

(** An applied command, given those applied before it. *)
Record entry_ok (e : entry) (L : list entry) : Prop := {
  eo_request : c_RequestID (en_cmd e) = request_id (en_op e) (c_BatchID (en_cmd e));
  eo_new : key_of e ∉ key_of <$> L;
  eo_hold : Float.lt (c_HoldAmount (en_cmd e)) Float.zero = false;
  eo_moved : ∀ w w', en_move e = Some (w, w') → moved (en_op e) (en_cmd e) w w';
  eo_reserve : en_op e = Reserve → positive (c_HoldAmount (en_cmd e)) = true → is_Some (en_move e);
  eo_capture : en_op e = Capture → en_move e = None →
    positive (c_HoldAmount (en_cmd e)) = false ∧ positive (c_ActualAmount (en_cmd e)) = false;
  eo_backed : en_op e ≠ Reserve → positive (c_HoldAmount (en_cmd e)) = true → is_Some (en_move e) →
    applied Reserve (c_BatchID (en_cmd e)) L
}.

Fixpoint journal_ok (L : list entry) : Prop :=
  match L with [] => True | e :: L => entry_ok e L ∧ journal_ok L end.

Lemma journal_ok_elem L e : journal_ok L → e ∈ L → ∃ L1 L2, L = L1 ++ e :: L2 ∧ entry_ok e L2.
Proof.
  induction L as [|x L IH]; intros HL He; [by apply not_elem_of_nil in He|]. destruct HL as [Hx HL].
  apply elem_of_cons in He as [->|He]; [by exists [], L|].
  destruct (IH HL He) as (L1 & L2 & -> & Hok). by exists (x :: L1), L2.
Qed.

Lemma journal_keys_unique L : journal_ok L → NoDup (key_of <$> L).
Proof. induction L as [|e L IH]; simpl; [by constructor|]. intros [[] ?]. constructor; [done|by apply IH]. Qed.

Definition dfrozen (user : Z) (e : entry) : Z :=
  if c_UserID (en_cmd e) =? user
  then match en_move e with Some (w, w') => frozen w' - frozen w | None => 0 end else 0.

(** ** The invariant *)

Section fixed.
Context (small : Prop).

Definition ids_ok (p : CreateBatchImageJobParams) (items : list BatchImageItem) : Prop :=
  NoDup (i_CustomID <$> items) ∧ lenZ items = ItemCount p ∧ 0 < ItemCount p < 500.

Definition counted (j : BatchImageJob) : Prop :=
  0 ≤ j_SuccessCount j ∧ 0 ≤ j_FailCount j ∧ j_SuccessCount j + j_FailCount j = ItemCount (j_Params j).

Record job_ok (L : list entry) (items : list BatchImageItem) (b : bytes) (j : BatchImageJob) : Prop := {
  jo_id : BatchID (j_Params j) = b;
  jo_visible : Forall visible b;
  jo_backed : sent (j_Status j) = true → held (j_Params j) = true → applied Reserve b L;
  jo_uncaptured : past (j_Status j) = false → ¬ applied Capture b L;
  jo_unreleased : live (j_Status j) = true → ¬ applied Release b L;
  jo_captured : settled (j_Status j) = true → applied Capture b L;
  jo_items : small → sent (j_Status j) = true → ids_ok (j_Params j) items;
  jo_counted : small → sent (j_Status j) = true → live (j_Status j) = false → counted j
}.

(** The job a command is for. *)
Definition for_job (p : CreateBatchImageJobParams) (c : HoldCommand) : Prop :=
  APIKeyID p = Some (c_APIKeyID c) ∧ UserID p = c_UserID c ∧ BatchID p = c_BatchID c ∧
  clamp0 (hold_of p) = c_HoldAmount c.

Definition items_of (s : Store) (b : bytes) : list BatchImageItem := default [] (st_items s !! b).

Definition is_claimed (k : bytes * Z) (s : Store) : Prop := is_Some (st_dedup s !! k) ∨ is_Some (st_archive s !! k).

Record inv (s : Store) : Prop := {
  inv_journal : journal_ok (st_journal s);
  inv_entries : ∀ e, e ∈ st_journal s →
    ∃ j, st_jobs s !! c_BatchID (en_cmd e) = Some j ∧ for_job (j_Params j) (en_cmd e);
  inv_claims : ∀ k, is_claimed k s ↔ k ∈ key_of <$> st_journal s;
  inv_wallets : ∀ u w, st_users s !! u = Some w →
    frozen w = sumZ (dfrozen u) (st_journal s) ∧ 0 ≤ frozen w;
  inv_jobs : ∀ b j, st_jobs s !! b = Some j → job_ok (st_journal s) (items_of s b) b j;
  inv_orphans : ∀ b, st_jobs s !! b = None → items_of s b = []
}.

(** ** What every step respects *)

Record row_later (j j' : BatchImageJob) : Prop := {
  rl_params : j_Params j' = j_Params j;
  rl_id : j_ID j' = j_ID j;
  rl_status : may_become (j_Status j) (j_Status j') = true;
  rl_counted : small → counted j → counted j'
}.

Record later (s s' : Store) : Prop := {
  lt_jobs : ∀ b j, st_jobs s !! b = Some j → ∃ j', st_jobs s' !! b = Some j' ∧ row_later j j';
  lt_journal : ∃ L, st_journal s' = L ++ st_journal s;
  lt_items : small → ∀ b j j', st_jobs s !! b = Some j → st_jobs s' !! b = Some j' →
    sent (j_Status j) = true → sent (j_Status j') = true →
    i_CustomID <$> items_of s' b ≡ₚ i_CustomID <$> items_of s b
}.

#[export] Instance row_later_preorder : PreOrder row_later.
Proof.
  split; [intros j; split; [done|done|by auto with go|done]|].
  intros j1 j2 j3 [] []. split; [congruence|congruence| |auto]. by eapply may_become_trans.
Qed.

Lemma sent_between a b c : may_become a b = true → may_become b c = true → sent a = true → sent c = true → sent b = true.
Proof. destruct a, b; try done; by destruct c. Qed.

#[export] Instance later_preorder : PreOrder later.
Proof.
  split.
  - intros s. split; [intros b j Hj; exists j; by split|by exists []|done].
  - intros s1 s2 s3 [J1 [L1 HL1] I1] [J2 [L2 HL2] I2]. split.
    + intros b j Hj. destruct (J1 b j Hj) as (j2 & Hj2 & R1). destruct (J2 b j2 Hj2) as (j3 & Hj3 & R2).
      exists j3. split; [done|by etrans].
    + exists (L2 ++ L1). by rewrite HL2, HL1, app_assoc.
    + intros Hsm b j j3 Hj Hj3 Hs Hs3. destruct (J1 b j Hj) as (j2 & Hj2 & R1). destruct (J2 b j2 Hj2) as (j3' & Hj3' & R2).
      simplify_eq. assert (Hs2 : sent (j_Status j2) = true) by (eapply sent_between; [apply R1|apply R2|done|done]).
      etrans; [by eapply I2|by eapply I1].
Qed.

(** What the steps of a worker that did not create the batch [b] respect. *)
Definition released (b : bytes) (s : Store) : Prop := applied Release b (st_journal s).

Record spares (b : bytes) (s s' : Store) : Prop := {
  sp_later : later s s';
  sp_early : ∀ j j', st_jobs s !! b = Some j → st_jobs s' !! b = Some j' →
    early (j_Status j) = true → early (j_Status j') = true;
  sp_waits : ∀ j j', st_jobs s !! b = Some j → st_jobs s' !! b = Some j' → pre (j_Status j') = true →
    (released b s' → released b s) ∧ items_of s' b = items_of s b
}.

#[export] Instance spares_preorder b : PreOrder (spares b).
Proof.
  split.
  - intros s. split; [reflexivity|by intros; simplify_eq|by intros; simplify_eq].
  - intros s1 s2 s3 [L1 E1 W1] [L2 E2 W2]. split; [by etrans| |].
    + intros j j3 Hj Hj3 He. destruct (lt_jobs _ _ L1 _ _ Hj) as (j2 & Hj2 & _). by eapply E2, E1.
    + intros j j3 Hj Hj3 Hp. destruct (lt_jobs _ _ L1 _ _ Hj) as (j2 & Hj2 & _).
      destruct (lt_jobs _ _ L2 _ _ Hj2) as (j3' & Hj3' & R2). simplify_eq.
      destruct (W2 j2 j3 Hj2 Hj3 Hp) as [R23 I23].
      destruct (W1 j j2 Hj Hj2) as [R12 I12]; [by eapply pre_back; [apply R2|]|]. split; [auto|congruence].
Qed.

Definition fresh (b : bytes) (s : Store) : Prop := st_jobs s !! b = None.

Lemma fresh_stays b s s' : later s s' → fresh b s' → fresh b s.
Proof.
  unfold fresh. intros HL Hf. destruct (st_jobs s !! b) as [j|] eqn:Hj; [|done].
  destruct (lt_jobs _ _ HL _ _ Hj) as (j' & Hj' & _). congruence.
Qed.

(** *** Facts about a job that later stores keep *)

Lemma job_later b j s s' : later s s' → st_jobs s !! b = Some j →
  ∃ j', st_jobs s' !! b = Some j' ∧ j_Params j' = j_Params j ∧ may_become (j_Status j) (j_Status j') = true.
Proof. intros HL Hj. destruct (lt_jobs _ _ HL _ _ Hj) as (j' & Hj' & []). by exists j'. Qed.

Lemma applied_later op b s s' : later s s' → applied op b (st_journal s) → applied op b (st_journal s').
Proof.
  intros [_ [L ->] _] (e & He & Hc). exists e. split; [|done]. apply elem_of_app. by right.
Qed.

(** ** Billing commands *)

Lemma moved_nonneg op c w w' : Float.lt (c_HoldAmount c) Float.zero = false → 0 ≤ frozen w →
  moved op c w w' → 0 ≤ frozen w'.
Proof.
  intros Hc Hw Hm.
  assert (Hsub : ∀ b, at_least b (c_HoldAmount c) = true → 0 ≤ add b (- numeric (c_HoldAmount c))).
  { intros b [_ Hle%Qle_bool_iff]%andb_true_iff. apply round_scale_nonneg. lra. }
  destruct op.
  - destruct Hm as [Hg ->]. simpl. apply round_scale_nonneg. apply andb_true_iff in Hg as [Hf _].
    pose proof (numeric_nonneg _ Hf Hc). assert (0 <= inject_Z (frozen w))%Q by (unfold Qle; simpl; lia). lra.
  - destruct Hm as (Hg & _ & _ & ->). by apply Hsub.
  - destruct Hm as [Hg ->]. by apply Hsub.
Qed.

Lemma update_wallet_spec c e g f s move s' : update_wallet c e g f s = Ok (move, s') →
  ∃ w, st_users s !! c_UserID c = Some w ∧ g w = true ∧ move = Some (w, f w) ∧
       s' = with_users (insert (c_UserID c) (f w)) s.
Proof. unfold update_wallet. intros Hu. step_all. by eexists. Qed.

(** A statement that succeeds: nothing to move, or the wallet moves. *)
Lemma hold_statement_spec op c s move s' : hold_statement op c s = Ok (move, s') →
  (move = None ∧ s' = s ∧ op ≠ Reserve ∨ move = None ∧ s' = s ∧ positive (c_HoldAmount c) = false) ∧
    (op = Capture → positive (c_HoldAmount c) = false ∧ positive (c_ActualAmount c) = false) ∨
  (∃ w w', st_users s !! c_UserID c = Some w ∧ move = Some (w, w') ∧ moved op c w w' ∧
     s' = with_users (insert (c_UserID c) w') s ∧
     (op = Release → claimed (request_id Reserve (c_BatchID c)) (c_APIKeyID c) s = true)).
Proof.
  destruct op; simpl; intros Hs.
  - unfold reserveUsageBillingBatchImageBalance in Hs. destruct (positive _) eqn:Hp; simpl in Hs.
    + right. apply update_wallet_spec in Hs as (w & Hw & Hg & -> & ->). eexists w, _. by split_and!.
    + left. injection Hs as <- <-. split; [by right|done].
  - unfold captureUsageBillingBatchImageBalance in Hs. destruct (negb (positive _) && _) eqn:Hp.
    + left. injection Hs as <- <-. bool_hyp. split; [by left|done].
    + right. destruct (Float.lt _ _) eqn:Hc; [done|]. destruct (Float.finite _) eqn:Hf; [|done].
      apply update_wallet_spec in Hs as (w & Hw & Hg & -> & ->). eexists w, _. by split_and!.
  - unfold releaseUsageBillingBatchImageBalance in Hs. destruct (positive _) eqn:Hp; simpl in Hs.
    + destruct (claimed _ _ s) eqn:Hcl; simpl in Hs.
      * right. apply update_wallet_spec in Hs as (w & Hw & Hg & -> & ->). eexists w, _. by split_and!.
      * left. injection Hs as <- <-. split; [by left|done].
    + left. injection Hs as <- <-. split; [by left|done].
Qed.

Lemma claimed_spec rid key s : claimed rid key s = true ↔ is_claimed (rid, key) s.
Proof. unfold claimed, is_claimed. rewrite orb_true_iff, !bool_decide_eq_true. done. Qed.

(** The transaction: not applied, or applied with its claim and its entry. *)
Lemma apply_spec op c s r s' : applyBatchImageBalanceHold op c s = (r, s') →
  let n := Normalize c in let k := (c_RequestID n, c_APIKeyID n) in
  (s' = s ∧ ∀ v, r = Ok v → is_claimed k s) ∨
  (∃ move s1 s2, ¬ is_claimed k s ∧ r = Ok true ∧
     s1 = with_claims (<[k := c_Fingerprint n]> (st_dedup s)) (st_archive s) s ∧
     hold_statement op n s1 = Ok (move, s2) ∧ s' = with_entry (mkEntry op n move) s2).
Proof.
  unfold applyBatchImageBalanceHold. simpl. intros Ha. case_bool_decide; [left; by simplify_eq|].
  unfold claim in Ha. destruct (st_dedup s !! _) as [old|] eqn:Hd.
  { left. case_bool_decide; simplify_eq; (split; [done|]); intros; [by left|done]. }
  destruct (st_archive s !! _) as [old|] eqn:Har.
  { left. case_bool_decide; simplify_eq; (split; [done|]); intros; [by right|done]. }
  destruct (hold_statement op _ _) as [[move s2]|e] eqn:Hs; [|left; by simplify_eq].
  right. injection Ha as <- <-. eexists move, _, s2. split_and!; [|done|done|done|done].
  intros [Hx|Hx]; rewrite ?Hd, ?Har in Hx; by destruct Hx.
Qed.

Lemma build_spec op job actual ph c : Forall visible (BatchID (j_Params job)) →
  buildBatchImageHoldCommand job (request_id op (BatchID (j_Params job))) actual ph = Ok c →
  for_job (j_Params job) (Normalize c) ∧ c_RequestID (Normalize c) = request_id op (BatchID (j_Params job)) ∧
  c_ActualAmount (Normalize c) = clamp0 actual ∧ c_HoldAmount c = clamp0 (hold_of (j_Params job)).
Proof.
  intros Hv. unfold buildBatchImageHoldCommand. destruct (APIKeyID (j_Params job)) as [key|] eqn:Hk; [|done].
  destruct (key <=? 0); [done|]. intros [= <-]. unfold Normalize. simpl.
  rewrite (TrimSpace_visible _ Hv), (TrimSpace_visible _ (request_id_visible op _ Hv)).
  split_and!; [|done|done|done]. by split_and!.
Qed.

Definition may_apply (op : hold_op) (b : bytes) (j : BatchImageJob) (s : Store) : Prop :=
  (op = Capture → past (j_Status j) = true ∧ (held (j_Params j) = true → applied Reserve b (st_journal s))) ∧
  (op = Release → live (j_Status j) = false).

Lemma claim_applied op b key s : inv s → Forall visible b → is_claimed (request_id op b, key) s →
  applied op b (st_journal s).
Proof.
  intros Hinv Hb Hc. apply (inv_claims _ Hinv) in Hc. apply list_elem_of_fmap in Hc as (e & Hk & He). exists e. split; [done|].
  destruct (inv_entries _ Hinv e He) as (j & Hj & _). pose proof (jo_visible _ _ _ _ (inv_jobs _ Hinv _ _ Hj)) as Hv.
  destruct (journal_ok_elem _ _ (inv_journal _ Hinv) He) as (L1 & L2 & _ & Hok).
  unfold key_of in Hk. rewrite (eo_request _ _ Hok) in Hk. injection Hk as Hk _.
  by destruct (request_id_inj _ _ _ _ Hb Hv Hk) as [-> ->].
Qed.

(** The entry the journal gets. *)
Lemma new_entry_ok op c j s move s1 s2 : inv s → st_jobs s !! c_BatchID c = Some j → for_job (j_Params j) c →
  c_RequestID c = request_id op (c_BatchID c) → may_apply op (c_BatchID c) j s →
  ¬ is_claimed (c_RequestID c, c_APIKeyID c) s →
  s1 = with_claims (<[(c_RequestID c, c_APIKeyID c) := c_Fingerprint c]> (st_dedup s)) (st_archive s) s →
  hold_statement op c s1 = Ok (move, s2) → entry_ok (mkEntry op c move) (st_journal s).
Proof.
  intros Hinv Hj Hfor Hrid [Hcap Hrel] Hnew -> Hs.
  pose proof (jo_visible _ _ _ _ (inv_jobs _ Hinv _ _ Hj)) as Hv. destruct Hfor as (_ & _ & _ & Hhold).
  apply hold_statement_spec in Hs. split; simpl; [done| | | | | |].
  - intros Hin. apply Hnew. by apply (inv_claims _ Hinv).
  - rewrite <- Hhold. apply clamp0_nonneg.
  - intros w w' ->. destruct Hs as [[[(? & _)|(? & _)] _]|(x & x' & _ & [= -> ->] & Hm & _)]; done.
  - intros -> Hp. destruct Hs as [[[(_ & _ & ?)|(_ & _ & ?)] _]|(x & x' & _ & -> & _)]; [done|congruence|by eexists].
  - intros -> ->. destruct Hs as [[_ Hc]|(x & x' & _ & [=] & _)]. by apply Hc.
  - intros Hop Hp [[w w'] ->]. destruct Hs as [[[(? & _)|(? & _)] _]|(x & x' & _ & _ & _ & _ & Hcl)]; [done..|].
    destruct op; [done| |].
    + apply Hcap; [done|]. unfold held. by rewrite Hhold.
    + specialize (Hcl eq_refl). apply claimed_spec in Hcl. eapply claim_applied; [done..|].
      destruct Hcl as [Hcl|Hcl]; [|by right]. simpl in Hcl. rewrite lookup_insert_ne in Hcl; [by left|].
      intros [= Hk]. rewrite Hrid in Hk. by apply (request_id_inj Release Reserve) in Hk as [? _].
Qed.

(** A user's frozen balance moves by what the entry records. *)
Lemma wallets_moved op c s move s2 u w : (∀ w0, st_users s !! u = Some w0 → frozen w0 = sumZ (dfrozen u) (st_journal s) ∧ 0 ≤ frozen w0) →
  entry_ok (mkEntry op c move) (st_journal s) → hold_statement op c s = Ok (move, s2) → st_users s2 !! u = Some w →
  frozen w = sumZ (dfrozen u) (mkEntry op c move :: st_journal s) ∧ 0 ≤ frozen w.
Proof.
  intros Hw Hok Hs Hu. simpl. unfold dfrozen at 1. simpl.
  apply hold_statement_spec in Hs as [[Hn _]|(w0 & w' & Hw0 & -> & Hm & -> & _)].
  - assert (move = None ∧ s2 = s) as [-> ->] by (by destruct Hn as [(? & ? & _)|(? & ? & _)]).
    destruct (Hw w Hu). destruct (_ =? u); lia.
  - simpl in Hu. destruct (Z.eqb_spec (c_UserID c) u) as [<-|Hne].
    + rewrite lookup_insert_eq in Hu. injection Hu as <-. destruct (Hw w0 Hw0). split; [lia|].
      eapply moved_nonneg; [apply (eo_hold _ _ Hok)|done|done].
    + rewrite lookup_insert_ne in Hu by done. destruct (Hw w Hu). lia.
Qed.

(** What a job needs of the journal survives an entry that may be applied. *)
Lemma job_ok_entry e L items b j :
  (concerns Capture b e → past (j_Status j) = true) → (concerns Release b e → live (j_Status j) = false) →
  job_ok L items b j → job_ok (e :: L) items b j.
Proof.
  intros Hc Hr [? ? J3 J4 J5 J6 ? ?]. split; [done|done| | | | |done|done]; intros.
  - apply applied_cons. right. by apply J3.
  - intros [Hx|Hx]%applied_cons; [|by apply J4]. apply Hc in Hx. congruence.
  - intros [Hx|Hx]%applied_cons; [|by apply J5]. apply Hr in Hx. congruence.
  - apply applied_cons. right. by apply J6.
Qed.

(** A statement changes wallets only. *)
Lemma hold_statement_rest op c s move s' : hold_statement op c s = Ok (move, s') →
  ∃ f, s' = with_users f s.
Proof.
  intros [[[(_ & -> & _)|(_ & -> & _)] _]|(w & w' & _ & _ & _ & -> & _)]%hold_statement_spec;
    [exists id; by destruct s|exists id; by destruct s|by eexists].
Qed.

Lemma entry_added_inv op c j s move s1 s2 : inv s → st_jobs s !! c_BatchID c = Some j → for_job (j_Params j) c →
  c_RequestID c = request_id op (c_BatchID c) → may_apply op (c_BatchID c) j s →
  ¬ is_claimed (c_RequestID c, c_APIKeyID c) s →
  s1 = with_claims (<[(c_RequestID c, c_APIKeyID c) := c_Fingerprint c]> (st_dedup s)) (st_archive s) s →
  hold_statement op c s1 = Ok (move, s2) → inv (with_entry (mkEntry op c move) s2).
Proof.
  intros Hinv Hj Hfor Hrid Hmay Hnew Hs1 Hs.
  pose proof (new_entry_ok _ _ _ _ _ _ _ Hinv Hj Hfor Hrid Hmay Hnew Hs1 Hs) as Hok.
  destruct (hold_statement_rest _ _ _ _ _ Hs) as [f Hs2].
  assert (Hw : ∀ u w, st_users s2 !! u = Some w →
    frozen w = sumZ (dfrozen u) (mkEntry op c move :: st_journal s) ∧ 0 ≤ frozen w).
  { intros u w. replace (st_journal s) with (st_journal s1) by (by subst). eapply wallets_moved; [|by subst|done].
    intros w0 Hw0. subst s1. by apply (inv_wallets _ Hinv). }
  subst s2 s1. split; simpl.
  - split; [done|apply Hinv].
  - intros e [->|He]%elem_of_cons; [by exists j|by apply (inv_entries _ Hinv)].
  - intros k. rewrite elem_of_cons, <- (inv_claims _ Hinv). unfold is_claimed, key_of at 1. simpl.
    destruct (decide (k = (c_RequestID c, c_APIKeyID c))) as [->|Hk].
    + split; [by left|]. intros _. left. rewrite lookup_insert_eq. by eexists.
    + rewrite lookup_insert_ne by done. tauto.
  - exact Hw.
  - intros b' j' Hj'. apply job_ok_entry; [| |by apply (inv_jobs _ Hinv)].
    + intros [Hop Hb]. simpl in *. subst. rewrite Hj in Hj'. injection Hj' as ->. by apply Hmay.
    + intros [Hop Hb]. simpl in *. subst. rewrite Hj in Hj'. injection Hj' as ->. by apply Hmay.
  - apply (inv_orphans _ Hinv).
Qed.

Lemma entry_added_later e f s d a : later s (with_entry e (with_users f (with_claims d a s))).
Proof. split; simpl; [intros b j Hj; exists j; by split|by exists [e]|]. intros. by simplify_eq. Qed.

Lemma entry_added_spares e f s d a b :
  (concerns Release b e → ∀ j, st_jobs s !! b = Some j → pre (j_Status j) = false) →
  spares b s (with_entry e (with_users f (with_claims d a s))).
Proof.
  intros Hr. split; [apply entry_added_later|simpl; intros; by simplify_eq|]. simpl. intros j j' Hj Hj' Hp. simplify_eq.
  split; [|done]. intros [Hx|Hx]%applied_cons; [|done]. specialize (Hr Hx _ Hj). congruence.
Qed.

(** A worker's step: the invariant, and what the others may rely on. *)
Definition good_step (o : option bytes) (s s' : Store) : Prop :=
  inv s' ∧ later s s' ∧ ∀ b, o ≠ Some b → is_Some (st_jobs s !! b) → spares b s s'.

Lemma good_step_all s s' : good_step None s s' → inv s' ∧ later s s' ∧ ∀ b, spares b s s'.
Proof.
  intros (Hinv & HL & Hsp). split_and!; [done|done|]. intros b. destruct (st_jobs s !! b) as [j|] eqn:Hj.
  - apply Hsp; [done|by eexists].
  - split; [done|intros ?? Hx; congruence|intros ?? Hx; congruence].
Qed.

Lemma good_step_refl o s : inv s → good_step o s s.
Proof. intros Hinv. split_and!; [done|reflexivity|intros; reflexivity]. Qed.

Lemma apply_ok o op c j b s : inv s → st_jobs s !! b = Some j → for_job (j_Params j) (Normalize c) →
  c_RequestID (Normalize c) = request_id op b → may_apply op b j s →
  (op = Release → o = Some b ∨ pre (j_Status j) = false) →
  good_step o s (snd (applyBatchImageBalanceHold op c s)) ∧
  ∀ v, fst (applyBatchImageBalanceHold op c s) = Ok v →
       applied op b (st_journal (snd (applyBatchImageBalanceHold op c s))).
Proof.
  intros Hinv Hj Hfor Hrid Hmay Hrel. pose proof (jo_id _ _ _ _ (inv_jobs _ Hinv _ _ Hj)) as Hid.
  assert (Hb : c_BatchID (Normalize c) = b) by (destruct Hfor as (_ & _ & <- & _); done).
  destruct (applyBatchImageBalanceHold op c s) as [r s'] eqn:Ha. simpl.
  destruct (apply_spec _ _ _ _ _ Ha) as [[-> Hok]|(move & s1 & s2 & Hnew & -> & Hs1 & Hs & ->)].
  - split; [by apply good_step_refl|]. intros v Hv. specialize (Hok v Hv). rewrite Hrid in Hok.
    eapply claim_applied; [done| |done]. apply (jo_visible _ _ _ _ (inv_jobs _ Hinv _ _ Hj)).
  - split.
    + split; [eapply entry_added_inv; rewrite ?Hb; done|].
      destruct (hold_statement_rest _ _ _ _ _ Hs) as [f ->]. rewrite Hs1. split; [apply entry_added_later|].
      intros b' Ho _. apply entry_added_spares. intros [Hop Hb'] j' Hj'. simpl in *.
      assert (b' = b) as -> by congruence. destruct (Hrel Hop) as [?|?]; [done|]. congruence.
    + intros _ _. destruct (hold_statement_rest _ _ _ _ _ Hs) as [f ->]. rewrite Hs1. simpl. apply applied_cons. left. by split.
Qed.

(** ** Statements on jobs *)

Lemma good_event o e s s' : good_step o s s' → good_step o s (with_event e s').
Proof.
  intros ([I1 I2 I3 I4 I5 I6] & [L1 L2 L3] & Hsp). split_and!; [by split|by split|].
  intros b Hb Hs. destruct (Hsp b Hb Hs) as [[M1 M2 M3] E W]. by split; [split| |].
Qed.

Lemma row_later_updated t j : row_later j (set_updated t j).
Proof. split; [done|done|apply may_become_refl|done]. Qed.

Lemma job_ok_updated L items b j t : job_ok L items b j → job_ok L items b (set_updated t j).
Proof. intros []. by split. Qed.

(** One row changes, and possibly its items. *)
Lemma row_changed o at_ b j j' f s : inv s → st_jobs s !! b = Some j → row_later j j' →
  let s' := put_at at_ b j' (with_items f s) in
  (∀ b', b' ≠ b → items_of s' b' = items_of s b') →
  job_ok (st_journal s) (items_of s' b) b j' →
  (small → sent (j_Status j) = true → sent (j_Status j') = true →
     i_CustomID <$> items_of s' b ≡ₚ i_CustomID <$> items_of s b) →
  (o = Some b ∨ (early (j_Status j) = true → early (j_Status j') = true) ∧
                (pre (j_Status j') = true → items_of s' b = items_of s b)) →
  good_step o s s'.
Proof.
  intros Hinv Hj Hrow s' Hother Hok Hperm Ho.
  assert (Hlater : later s s').
  { split.
    - intros b1 j1 Hj1. simpl. destruct (decide (b1 = b)) as [->|Hne].
      + rewrite lookup_insert_eq. eexists. split; [done|]. rewrite Hj in Hj1. injection Hj1 as <-.
        etrans; [exact Hrow|apply row_later_updated].
      + rewrite lookup_insert_ne by done. by exists j1.
    - by exists [].
    - intros Hsm b1 j1 j2 Hj1 Hj2. simpl in Hj2. destruct (decide (b1 = b)) as [->|Hne].
      + rewrite lookup_insert_eq in Hj2. rewrite Hj in Hj1. simplify_eq. by apply Hperm.
      + by rewrite Hother. }
  split_and!; [|done|].
  - destruct Hinv as [I1 I2 I3 I4 I5 I6]. split; [done| |done|done| |].
    + intros e He. destruct (I2 e He) as (j1 & Hj1 & Hfor). simpl. destruct (decide (c_BatchID (en_cmd e) = b)) as [Hb|Hne].
      * rewrite Hb, lookup_insert_eq. eexists. split; [done|]. rewrite Hb, Hj in Hj1. injection Hj1 as <-.
        simpl. by rewrite (rl_params _ _ Hrow).
      * rewrite lookup_insert_ne by done. by exists j1.
    + intros b1 j1 Hj1. simpl in Hj1. destruct (decide (b1 = b)) as [->|Hne].
      * rewrite lookup_insert_eq in Hj1. injection Hj1 as <-. by apply job_ok_updated.
      * rewrite lookup_insert_ne in Hj1 by done. rewrite Hother by done. by apply I5.
    + intros b1 Hb1. simpl in Hb1. apply lookup_insert_None in Hb1 as [Hb1 Hne]. rewrite Hother by done. by apply I6.
  - intros b1 Hb1 _. split; [done| |].
    + intros j1 j2 Hj1 Hj2 He. simpl in Hj2. destruct (decide (b1 = b)) as [->|Hne].
      * rewrite lookup_insert_eq in Hj2. rewrite Hj in Hj1. simplify_eq. destruct Ho as [?|[Ho _]]; [done|]. by apply Ho.
      * rewrite lookup_insert_ne in Hj2 by done. congruence.
    + intros j1 j2 Hj1 Hj2 Hp. split; [done|]. simpl in Hj2. destruct (decide (b1 = b)) as [->|Hne]; [|by apply Hother].
      rewrite lookup_insert_eq in Hj2. simplify_eq. destruct Ho as [?|[_ Ho]]; [done|]. by apply Ho.
Qed.

Lemma put_good o at_ b j j' s : inv s → st_jobs s !! b = Some j → row_later j j' →
  job_ok (st_journal s) (items_of s b) b j' →
  (o = Some b ∨ (early (j_Status j) = true → early (j_Status j') = true)) →
  good_step o s (put_at at_ b j' s).
Proof.
  intros Hinv Hj Hrow Hok Ho. replace s with (with_items id s) at 2 by (by destruct s).
  eapply row_changed; [done|done|done|done|done|done|]. destruct Ho as [->|Ho]; [by left|by right].
Qed.

(** What a row must satisfy when the state moves. *)
Lemma job_ok_moves L items b j j' : job_ok L items b j → j_Params j' = j_Params j →
  (sent (j_Status j') = true → sent (j_Status j) = true) →
  (past (j_Status j) = true → past (j_Status j') = true) →
  (live (j_Status j') = true → live (j_Status j) = true) →
  (settled (j_Status j') = true → settled (j_Status j) = true) →
  (small → sent (j_Status j') = true → live (j_Status j') = false → counted j') →
  job_ok L items b j'.
Proof.
  intros [J1 J2 J3 J4 J5 J6 J7 J8] Hp Hsent Hpast Hlive Hset Hcnt. split; rewrite ?Hp; auto.
  intros Hx. apply J4. destruct (past (j_Status j)); [by rewrite Hpast in Hx|done].
Qed.

(** A change that leaves the state alone. *)
Lemma same_status_good o at_ b j j' s : inv s → st_jobs s !! b = Some j →
  j_Params j' = j_Params j → j_ID j' = j_ID j → j_Status j' = j_Status j →
  j_SuccessCount j' = j_SuccessCount j → j_FailCount j' = j_FailCount j → good_step o s (put_at at_ b j' s).
Proof.
  intros Hinv Hj Hp Hid Hst Hs Hf.
  assert (Hcnt : counted j → counted j') by (unfold counted; by rewrite Hs, Hf, Hp).
  pose proof (inv_jobs _ Hinv _ _ Hj) as Hok. eapply put_good; [done|done| | |].
  - split; [done|done|rewrite Hst; apply may_become_refl|done].
  - eapply job_ok_moves; [exact Hok|done|by rewrite Hst..|]. rewrite Hst. intros Hsm Hse Hl. by apply Hcnt, Hok.
  - right. by rewrite Hst.
Qed.

(** The job's row at [b], if there is one, is in a state [P]. *)
Definition in_state (P : JobStatus → bool) (b : bytes) (s : Store) : Prop :=
  ∃ j, st_jobs s !! b = Some j ∧ P (j_Status j) = true.

Lemma past_later b s s' : later s s' → in_state past b s → in_state past b s'.
Proof.
  intros HL (j & Hj & Hp). destruct (job_later _ _ _ _ HL Hj) as (j' & Hj' & _ & Hm). exists j'.
  split; [done|]. by eapply past_stays.
Qed.

Lemma transition_ok o b to code ev s : inv s → to ∈ [Uploading; Running; Indexing; Settling; Failed; Cancelled] →
  (small → to = Settling → ∀ j, st_jobs s !! b = Some j → counted j) →
  good_step o s (snd (transition b to code ev s)) ∧
  (fst (transition b to code ev s) = Ok tt → in_state (λ st, bool_decide (st = to)) b (snd (transition b to code ev s))).
Proof.
  intros Hinv Hto Hcnt. unfold transition. destruct (st_jobs s !! b) as [j|] eqn:Hj; [|by split; [apply good_step_refl|]].
  destruct (CanTransitionBatchImageJob (j_Status j) to) eqn:Hc; simpl; [|by split; [apply good_step_refl|]].
  rewrite (bool_decide_eq_false_2 (to = OutputDeleted)) by (intros ->; set_solver).
  split.
  - apply good_event. eapply put_good; [done|done| | |].
    + split; [done|done|simpl; apply transition_may_become; [done|intros ->; set_solver]|done].
    + eapply job_ok_moves; [by apply (inv_jobs _ Hinv)|done|..]; simpl.
      1-4: clear Hcnt; destruct (j_Status j), to; try done; exfalso; set_solver.
      intros Hsm Hs Hl. assert (to = Settling) as -> by (destruct to; try done; exfalso; set_solver).
      exact (Hcnt Hsm eq_refl j eq_refl).
    + right. simpl. clear Hcnt. destruct (j_Status j), to; try done; exfalso; set_solver.
  - intros _. eexists. simpl. rewrite lookup_insert_eq. split; [done|]. by apply bool_decide_eq_true.
Qed.

Lemma touch_ok o b s : inv s → good_step o s (snd (touch_submitting b s)).
Proof.
  intros Hinv. unfold touch_submitting. destruct (st_jobs s !! b) as [j|] eqn:Hj; [|by apply good_step_refl].
  destruct (unsubmitted j); [by eapply same_status_good|by apply good_step_refl].
Qed.

Lemma output_ref_ok o b ref s : inv s → good_step o s (snd (update_output_ref b ref s)).
Proof.
  intros Hinv. unfold update_output_ref. destruct (st_jobs s !! b) as [j|] eqn:Hj; [|by apply good_step_refl].
  by eapply same_status_good.
Qed.

Lemma settlement_failed_ok o b code s : inv s → good_step o s (snd (settlement_failed b code s)).
Proof.
  intros Hinv. unfold settlement_failed. destruct (st_jobs s !! b) as [j|] eqn:Hj; [|by apply good_step_refl].
  by eapply same_status_good.
Qed.

Lemma cleanup_failure_ok o b code s : inv s → good_step o s (snd (cleanup_failure b code s)).
Proof.
  intros Hinv. unfold cleanup_failure. destruct (st_jobs s !! b) as [j|] eqn:Hj; [|by apply good_step_refl].
  by eapply same_status_good.
Qed.

Lemma append_event_ok o b e s : inv s → good_step o s (snd (append_event b e s)).
Proof.
  intros Hinv. unfold append_event. case_match; [|by apply good_step_refl]. by apply good_event, good_step_refl.
Qed.

Lemma input_deleted_ok o b t s : inv s → good_step o s (snd (mark_input_deleted b t s)).
Proof.
  intros Hinv. unfold mark_input_deleted. destruct (st_jobs s !! b) as [j|] eqn:Hj; [|by apply good_step_refl].
  by eapply same_status_good.
Qed.

Lemma user_deleted_ok o u k b t s : inv s → good_step o s (snd (mark_user_deleted u k b t s)).
Proof.
  intros Hinv. unfold mark_user_deleted. destruct (st_jobs s !! b) as [j|] eqn:Hj; [|by apply good_step_refl].
  case_match; [by eapply same_status_good|by apply good_step_refl].
Qed.

Lemma output_deleted_ok o b t s : inv s → good_step o s (snd (mark_output_deleted b t s)).
Proof.
  intros Hinv. unfold mark_output_deleted. destruct (st_jobs s !! b) as [j|] eqn:Hj; [|by apply good_step_refl].
  case_bool_decide as Hst; [|by eapply same_status_good]. pose proof (inv_jobs _ Hinv _ _ Hj) as Hok.
  eapply put_good; [done|done| | |].
  - split; [done|done|simpl; by rewrite Hst|done].
  - eapply job_ok_moves; [exact Hok|done|by rewrite Hst..|]. intros Hsm _ _.
    apply (jo_counted _ _ _ _ Hok); [done|by rewrite Hst..].
  - right. by rewrite Hst.
Qed.

(** Failing a job that has not been sent, or was given up. *)
Lemma job_failed_ok L items b j j' : job_ok L items b j → j_Params j' = j_Params j → j_Status j' = Failed → job_ok L items b j'.
Proof. intros Hok Hp Hst. eapply job_ok_moves; [exact Hok|done|..]; by rewrite Hst. Qed.

Lemma fail_stale_ok o b cutoff code s : inv s →
  good_step o s (snd (fail_stale b cutoff code s)) ∧
  (fst (fail_stale b cutoff code s) = Ok true → in_state past b (snd (fail_stale b cutoff code s))).
Proof.
  intros Hinv. unfold fail_stale. destruct (st_jobs s !! b) as [j|] eqn:Hj; [|by split; [apply good_step_refl|]].
  destruct (stale cutoff j) eqn:Hst; [|by split; [apply good_step_refl|]]. split.
  - eapply put_good; [done|done| |by eapply job_failed_ok; [apply (inv_jobs _ Hinv)| |]|by right].
    split; [done|done| |done]. unfold stale, unsubmitted in Hst. bool_hyp. simpl.
    destruct (j_Status j); try done; exfalso; set_solver.
  - intros _. eexists. simpl. by rewrite lookup_insert_eq.
Qed.

(** [RecordBatchImageJobSubmitFailure]: marking as failed is safe while the provider
    cannot have the job. *)
Lemma submit_failure_ok o b code mark s : inv s →
  (mark = true → ∀ j, st_jobs s !! b = Some j → early (j_Status j) = true) →
  good_step o s (snd (submit_failure b code mark s)).
Proof.
  intros Hinv He. unfold submit_failure. destruct (st_jobs s !! b) as [j|] eqn:Hj; [|by apply good_step_refl].
  destruct mark; [|by eapply same_status_good].
  eapply put_good; [done|done| |by eapply job_failed_ok; [apply (inv_jobs _ Hinv)| |]|by right].
  split; [done|done| |done]. specialize (He eq_refl j eq_refl). simpl. by destruct (j_Status j).
Qed.

(** The submission reaches the provider: the hold is there, and so are the items. *)
Lemma provider_submit_ok o b name ref s : inv s → o = Some b →
  (∀ j, st_jobs s !! b = Some j → pre (j_Status j) = true →
     (held (j_Params j) = true → applied Reserve b (st_journal s)) ∧ ¬ released b s ∧
     (small → ids_ok (j_Params j) (items_of s b))) →
  good_step o s (snd (provider_submit b name ref s)).
Proof.
  intros Hinv -> Hready. unfold provider_submit. destruct (st_jobs s !! b) as [j|] eqn:Hj; [|by apply good_step_refl].
  destruct (CanTransitionBatchImageJob (j_Status j) Submitted) eqn:Hc; simpl; [|by apply good_step_refl].
  assert (Hpre : pre (j_Status j) = true) by (by destruct (j_Status j)).
  destruct (Hready j eq_refl Hpre) as (Hres & Hrel & Hids). pose proof (inv_jobs _ Hinv _ _ Hj) as [J1 J2 J3 J4 J5 J6 J7 J8].
  apply good_event. eapply put_good; [done|done| | |by left].
  - split; [done|done|simpl; by apply transition_may_become|done].
  - split; simpl; try done; [|intros; by apply Hids]. intros _. apply J4. by destruct (j_Status j).
Qed.

Lemma mark_settled_ok o b cost manifest at_ s : inv s → applied Capture b (st_journal s) →
  good_step o s (snd (mark_settled b cost manifest at_ s)).
Proof.
  intros Hinv Hcap. unfold mark_settled. destruct (st_jobs s !! b) as [j|] eqn:Hj; [|by apply good_step_refl].
  destruct (bool_decide (j_Status j = Settling) && _) eqn:Hst; [|repeat case_match; by apply good_step_refl].
  case_match; [by apply good_step_refl|]. bool_hyp. pose proof (inv_jobs _ Hinv _ _ Hj) as [J1 J2 J3 J4 J5 J6 J7 J8].
  apply good_event. rename select (j_Status j = Settling) into Hs. rewrite Hs in *. eapply put_good; [done|done| | |].
  - split; [done|done|simpl; by rewrite Hs|done].
  - by split.
  - right. by rewrite Hs.
Qed.

Lemma bulk_create_ok o b l s : inv s → o = Some b → (∀ j, st_jobs s !! b = Some j → early (j_Status j) = true) →
  good_step o s (snd (bulk_create_items b l s)).
Proof.
  intros Hinv -> He. unfold bulk_create_items. repeat (case_bool_decide; [by apply good_step_refl|]).
  case_bool_decide; [|by apply good_step_refl]. simpl. destruct Hinv as [I1 I2 I3 I4 I5 I6].
  assert (Hother : ∀ b', b' ≠ b → items_of (with_items (insert b (default [] (st_items s !! b) ++ l)) s) b' = items_of s b')
    by (intros b' Hb; unfold items_of; simpl; by rewrite lookup_insert_ne).
  assert (Hlater : later s (with_items (insert b (default [] (st_items s !! b) ++ l)) s)).
  { split; simpl; [intros b' j Hj; exists j; by split|by exists []|]. intros _ b' j j' Hj Hj' Hs _.
    destruct (decide (b' = b)) as [->|Hb]; [|by rewrite Hother]. specialize (He _ Hj). by destruct (j_Status j). }
  split_and!; [|done|].
  - split; [done|done|done|done| |]; simpl.
    + intros b' j Hj. destruct (decide (b' = b)) as [->|Hb]; [|rewrite Hother by done; by apply I5].
      specialize (He _ Hj). destruct (I5 _ _ Hj) as [J1 J2 J3 J4 J5 J6 J7 J8]. split; [done..| |]; intros; by destruct (j_Status j).
    + intros b' Hb'. rewrite Hother; [by apply I6|]. by intros ->.
  - intros b' Hb _. split; [done|simpl; intros; by simplify_eq|]. simpl. intros j j' Hj Hj' _. split; [done|].
    apply Hother. congruence.
Qed.

(** Indexing replaces the items by results for the same identifiers. *)
Lemma replace_items_ok o b l success fail s : inv s →
  (small → ∀ j, st_jobs s !! b = Some j → j_Status j = Indexing →
     i_CustomID <$> l ≡ₚ i_CustomID <$> items_of s b ∧ 0 ≤ success ∧ 0 ≤ fail ∧ success + fail = ItemCount (j_Params j)) →
  good_step o s (snd (replace_items b l success fail s)) ∧
  (small → fst (replace_items b l success fail s) = Ok tt →
     ∃ j, st_jobs (snd (replace_items b l success fail s)) !! b = Some j ∧ counted j).
Proof.
  intros Hinv Hl. unfold replace_items. destruct (st_jobs s !! b) as [j|] eqn:Hj; [|by split; [apply good_step_refl|]].
  case_bool_decide as Hst; simpl; [|by split; [apply good_step_refl|]].
  case_bool_decide; simpl; [|by split; [apply good_step_refl|]].
  pose proof (inv_jobs _ Hinv _ _ Hj) as [J1 J2 J3 J4 J5 J6 J7 J8].
  assert (Hits : items_of (with_items (insert b l) s) b = l) by (unfold items_of; simpl; by rewrite lookup_insert_eq).
  assert (Hcnt : small → counted (set_counts success fail j)).
  { intros Hsm. destruct (Hl Hsm j eq_refl Hst) as (_ & ? & ? & ?). by split_and!. }
  split.
  - apply (row_changed o (st_now s) b j (set_counts success fail j) (insert b l)); try done.
    + split; [done|done|apply may_become_refl|]. intros Hsm _. by apply Hcnt.
    + intros b' Hb. unfold items_of. simpl. by rewrite lookup_insert_ne.
    + unfold items_of. simpl. rewrite lookup_insert_eq. simpl. split; try done; simpl; [|intros; by apply Hcnt].
      intros Hsm Hs. destruct (J7 Hsm Hs) as (Hu & Hn & Hc). destruct (Hl Hsm j eq_refl Hst) as (Hp & _).
      split_and!; [by rewrite Hp|unfold lenZ in *; rewrite <- Hn; f_equal|lia|lia].
      rewrite <- (length_fmap i_CustomID l), <- (length_fmap i_CustomID (items_of s b)). by rewrite Hp.
    + intros Hsm _ _. unfold items_of at 1. simpl. rewrite lookup_insert_eq. by apply (Hl Hsm j eq_refl Hst).
    + right. simpl. by rewrite Hst.
  - intros Hsm _. eexists. rewrite lookup_insert_eq. split; [done|]. exact (Hcnt Hsm).
Qed.

Lemma archive_ok o old s : inv s → good_step o s (snd (archive_claims old s)).
Proof.
  intros [I1 I2 I3 I4 I5 I6]. simpl. split_and!.
  - split; [done|done| |done|done|done]. intros k. rewrite <- I3. unfold is_claimed. simpl.
    destruct (st_dedup s !! k) as [fp|] eqn:Hd, (st_archive s !! k) as [fa|] eqn:Ha.
    all: rewrite map_lookup_filter, lookup_union, map_lookup_filter, Hd, Ha; simpl.
    all: repeat (case_guard; simpl); split; intros [Hx|Hx]; try (by destruct Hx); try (left; by eexists); try (right; by eexists).
    all: exfalso; by destruct (old k).
  - split; simpl; [intros b j Hj; exists j; by split|by exists []|intros; by simplify_eq].
  - intros b _ _. split; [|simpl; intros; by simplify_eq|simpl; intros; by simplify_eq].
    split; simpl; [intros b' j Hj; exists j; by split|by exists []|intros; by simplify_eq].
Qed.

Lemma users_good o f s : inv s →
  (∀ u w, f (st_users s) !! u = Some w → ∃ w0, st_users s !! u = Some w0 ∧ frozen w = frozen w0) →
  good_step o s (with_users f s).
Proof.
  intros [I1 I2 I3 I4 I5 I6] Hf.
  assert (Hlater : later s (with_users f s)) by (split; simpl; [intros b j Hj; exists j; by split|by exists []|intros; by simplify_eq]).
  split_and!; [|done|intros b _ _; split; [done|simpl; intros; by simplify_eq|simpl; intros; by simplify_eq]].
  split; [done|done|done| |done|done]. simpl. intros u w Hu. destruct (Hf u w Hu) as (w0 & Hw0 & ->). by apply I4.
Qed.

Lemma balance_ok o u d s : inv s → good_step o s (snd (change_balance u d s)).
Proof.
  intros Hinv. apply users_good; [done|]. intros u' w Hw. apply lookup_alter_Some in Hw as [(-> & w0 & Hw0 & ->)|[_ Hw]]; by eexists.
Qed.

Lemma delete_user_ok o u s : inv s → good_step o s (snd (delete_user u s)).
Proof. intros Hinv. apply users_good; [done|]. intros u' w [_ Hw]%lookup_delete_Some. by eexists. Qed.

(** A new job: nothing was ever billed for it. *)
Lemma create_job_ok p s : inv s → Forall visible (BatchID p) →
  good_step None s (snd (create_job p s)) ∧
  ∀ j, fst (create_job p s) = Ok j →
    fresh (BatchID p) s ∧ st_jobs (snd (create_job p s)) !! BatchID p = Some j ∧ j_Params j = stored_params p ∧
    j_Status j = Created ∧ ¬ released (BatchID p) (snd (create_job p s)) ∧ items_of (snd (create_job p s)) (BatchID p) = [].
Proof.
  intros Hinv Hv. unfold create_job. destruct (negb _); [by split; [apply good_step_refl|]|].
  destruct (st_jobs s !! BatchID p) as [j0|] eqn:Hj0; [by split; [apply good_step_refl|]|]. simpl.
  set (j := mkJob _ _ _ _ _ _ _ _ _ _ _ _ _ _ _). set (s' := with_jobs _ _ s).
  assert (Hno : ∀ op, ¬ applied op (BatchID p) (st_journal s)).
  { intros op (e & He & _ & Hb). destruct (inv_entries _ Hinv e He) as (j1 & Hj1 & _). congruence. }
  assert (Hlater : later s s').
  { split; simpl; [|by exists []|].
    - intros b j1 Hj1. exists j1. split; [|done]. rewrite lookup_insert_ne; [done|]. congruence.
    - intros _ b j1 j2 Hj1 Hj2. rewrite lookup_insert_ne in Hj2 by congruence. by simplify_eq. }
  split; [split_and!|].
  - destruct Hinv as [I1 I2 I3 I4 I5 I6]. split; [done| |done|done| |]; simpl.
    + intros e He. destruct (I2 e He) as (j1 & Hj1 & Hfor). exists j1. rewrite lookup_insert_ne; [done|]. congruence.
    + intros b j1 Hj1. apply lookup_insert_Some in Hj1 as [[<- <-]|[_ Hj1]]; [|by apply I5]. by split; simpl.
    + intros b [Hb _]%lookup_insert_None. by apply I6.
  - done.
  - intros b _ [j1 Hj1]. split; [done|simpl; intros|simpl; intros].
    + rename select (<[_ := _]> _ !! _ = _) into Hx. rewrite lookup_insert_ne in Hx by congruence. by simplify_eq.
    + done.
  - intros j1 [= <-]. split_and!; [done|by rewrite lookup_insert_eq|done|done|apply Hno|].
    by apply (inv_orphans _ Hinv).
Qed.

Lemma clock_ok d s : inv s → inv (advance d s) ∧ later s (advance d s) ∧ ∀ b, spares b s (advance d s).
Proof.
  intros [I1 I2 I3 I4 I5 I6].
  assert (Hlater : later s (advance d s)) by (split; simpl; [intros b j Hj; exists j; by split|by exists []|intros; by simplify_eq]).
  split_and!; [by split|done|]. intros b. split; [done|simpl; intros; by simplify_eq|simpl; intros; by simplify_eq].
Qed.
End fixed.
End invariant.
End BatchInvariant.
