(* ===== verification/BatchSafety.v ===== *)
(** * Every batch program keeps the invariant, under any interleaving

    [Submit] owns the batch it creates: only it hands the batch to a provider, and
    only it gives the hold back while the batch waits.  All other programs touch no
    token ([calm]).  Together: the invariant of [BatchInvariant] in all runs, with any
    number of workers, failing calls, crashes, and workers that lost their lock. *)

From S2P Require Import Prelude Float64 GoStrings PaymentOrder BatchRequest Database Interleaving Ownership BatchStore BatchImage BatchIndex BatchInvariant.

Module BatchSafety.
Import GoStrings BatchRequest BatchStore BatchImage BatchIndex BatchInvariant.

Section programs.
Context `{Database} `{Numeric} `{Hashing} `{Unicode} `{UnicodeFold} (sv : Service).

(** The items of a job fit a page. *)
Definition small : Prop := maxOutputImagesPerJob (sv_Limits sv) < 500.

Abbreviation inv := (BatchInvariant.inv small).
Abbreviation later := (BatchInvariant.later small).
Abbreviation spares := (BatchInvariant.spares small).
Abbreviation rely := (Ownership.rely later spares).
Abbreviation calm := (Ownership.calm (Q := question) Lost st_now inv later spares).
Abbreviation osafe := (Ownership.osafe (Q := question) Lost st_now inv later spares fresh).
Abbreviation good_step := (BatchInvariant.good_step small).

Definition any {A} (_ : A) (_ : Store) : Prop := True.
Definition ok_post {A} (P : A → Store → Prop) (r : res A) (s : Store) : Prop :=
  match r with Ok a => P a s | Err _ => True end.
Definition finished {A} (_ : option bytes) (_ : A) (_ : Store) : Prop := True.

Lemma rely_later o s s' : rely o s s' → later s s'.
Proof. by intros [? _]. Qed.

(** ** Rules *)

Lemma c_any {A} o (a : A) s : calm o (Ret a) any s.
Proof. by intros s' _ _. Qed.
Lemma c_ok {A} o (a : A) s : calm o (Ret (Ok a)) (ok_post any) s.
Proof. by intros s' _ _. Qed.
Lemma c_err {A} o e (P : A → Store → Prop) s : calm o (Ret (Err e)) (ok_post P) s.
Proof. by intros s' _ _. Qed.

Lemma c_weaken {A} o (p : prg A) P s : calm o p P s → calm o p any s.
Proof. intros Hp. by eapply calm_weaken. Qed.
Lemma c_bind {A B} o (p : prg A) (k : A → prg B) P Q s : inv s → calm o p P s →
  (∀ a s', rely o s s' → inv s' → P a s' → calm o (k a) Q s') → calm o (bind p k) Q s.
Proof. intros. by eapply (calm_bind Lost st_now inv later spares). Qed.

Lemma c_skip {A B} o (p : prg A) (k : A → prg B) Q s : inv s → calm o p any s →
  (∀ a s', rely o s s' → inv s' → calm o (k a) Q s') → calm o (bind p k) Q s.
Proof. intros Hinv Hp Hk. eapply c_bind; [done|exact Hp|]. intros. by apply Hk. Qed.

Lemma c_try {A B} o (p : prg (res A)) (k : A → prg (res B)) P Q s : inv s → calm o p (ok_post P) s →
  (∀ a s', rely o s s' → inv s' → P a s' → calm o (k a) (ok_post Q) s') → calm o (on_ok p k) (ok_post Q) s.
Proof. intros Hinv Hp Hk. eapply c_bind; [done|exact Hp|]. intros [a|e] s' HR Hi HP; [by apply Hk|apply c_err]. Qed.

Lemma c_else {A B} o (p : prg (res A)) (e : berror → prg B) (k : A → prg B) P Q s : inv s → calm o p (ok_post P) s →
  (∀ x s', rely o s s' → inv s' → calm o (e x) Q s') →
  (∀ a s', rely o s s' → inv s' → P a s' → calm o (k a) Q s') → calm o (or_else p e k) Q s.
Proof. intros Hinv Hp He Hk. eapply c_bind; [done|exact Hp|]. intros [a|x] s' HR Hi HP; [by apply Hk|by apply He]. Qed.

Lemma c_read {A B} o (q : Store → res A) (k : res A → prg B) Q s :
  (∀ s', rely o s s' → inv s' → calm o (k (q s')) Q s') →
  (∀ s', rely o s s' → inv s' → calm o (k (Err Lost)) Q s') → calm o (bind (read q) k) Q s.
Proof. intros. by apply (calm_read Lost st_now inv later spares). Qed.

Lemma good_quiet s s' : good_step None s s' → inv s' ∧ quiet later spares s s'.
Proof. intros Hg. destruct (good_step_all _ _ _ Hg) as (? & ? & ?). by split_and!. Qed.

Lemma c_write {A B} o (w : Store → res A * Store) (k : res A → prg B) Q s :
  (∀ s', rely o s s' → inv s' → good_step None s' (snd (w s')) ∧
     (rely o s' (snd (w s')) → inv (snd (w s')) → calm o (k (fst (w s'))) Q (snd (w s')))) →
  (∀ s', rely o s s' → inv s' → calm o (k (Err Lost)) Q s') → calm o (bind (write w) k) Q s.
Proof.
  intros Hw He. apply (calm_write Lost st_now inv later spares); [|exact He]. intros s' HR Hi. destruct (Hw s' HR Hi) as [Hg Hk].
  apply good_quiet in Hg as [Hinv Hq]. split_and!; [done|done|]. apply Hk; [|done].
  apply (quiet_rely later spares). exact Hq.
Qed.

Lemma c_clock {B} o (k : time → prg B) Q s :
  (∀ s', rely o s s' → inv s' → calm o (k (st_now s')) Q s') → calm o (bind clock k) Q s.
Proof. intros. by apply (calm_now Lost st_now inv later spares). Qed.

Lemma c_ask {A B} o (q : question A) (k : A → prg B) Q s :
  (∀ x s', rely o s s' → inv s' → calm o (k x) Q s') → calm o (bind (ask q) k) Q s.
Proof. intros. by apply (calm_ask Lost st_now inv later spares). Qed.

Lemma c_lift_read {A} o (q : Store → res A) (P : A → Store → Prop) s :
  (∀ s' a s'', rely o s s' → inv s' → q s' = Ok a → later s' s'' → inv s'' → P a s'') →
  calm o (read q) (ok_post P) s.
Proof.
  intros Hq. apply (calm_read Lost st_now inv later spares); [|].
  - intros s' HR Hi s'' HR' Hi'. destruct (q s') as [a|e] eqn:E; [|done]. simpl.
    by apply (Hq s' a s''); [| | |eapply rely_later|].
  - by intros s' _ _ s'' _ _.
Qed.

Lemma c_lift_write {A} o (w : Store → res A * Store) (P : A → Store → Prop) s :
  (∀ s', rely o s s' → inv s' → good_step None s' (snd (w s')) ∧
     ∀ a s'', fst (w s') = Ok a → later (snd (w s')) s'' → inv s'' → P a s'') →
  calm o (write w) (ok_post P) s.
Proof.
  intros Hw. apply (calm_write Lost st_now inv later spares); [|].
  - intros s' HR Hi. destruct (Hw s' HR Hi) as [Hg HP]. apply good_quiet in Hg as [Hinv Hq].
    split_and!; [done|done|]. intros s'' HR' Hi'. destruct (fst (w s')) as [a|e] eqn:E; [|done].
    simpl. by apply HP; [|eapply rely_later|].
  - by intros s' _ _ s'' _ _.
Qed.

(** A write whose effect nobody uses. *)
Lemma c_any_write {A} o (w : Store → res A * Store) s : (∀ s', inv s' → good_step None s' (snd (w s'))) →
  calm o (write w) (ok_post any) s.
Proof. intros Hw. apply c_lift_write. intros s' _ Hi. split; [by apply Hw|done]. Qed.

Lemma c_lift_ask {A} o (q : question (res A)) s : calm o (ask q) (ok_post any) s.
Proof. apply (calm_ask Lost st_now inv later spares). intros [x|e] s' _ _ s'' _ _; done. Qed.

(** ** Facts *)

(** The worker's copy of a row: its fixed columns. *)
Definition known (job : BatchImageJob) (s : Store) : Prop :=
  ∃ j, st_jobs s !! BatchID (j_Params job) = Some j ∧ j_Params j = j_Params job.

Lemma known_later job s s' : later s s' → known job s → known job s'.
Proof. intros HL (j & Hj & Hp). destruct (job_later _ _ _ _ _ HL Hj) as (j' & Hj' & Hp' & _). exists j'. split; [done|congruence]. Qed.

Lemma in_state_later (P : JobStatus → bool) b s s' :
  (∀ x y, may_become x y = true → P x = true → P y = true) → later s s' → in_state P b s → in_state P b s'.
Proof. intros HP HL (j & Hj & Hs). destruct (job_later _ _ _ _ _ HL Hj) as (j' & Hj' & _ & Hm). exists j'. split; [done|by eapply HP]. Qed.

Lemma known_row j b s : inv s → st_jobs s !! b = Some j → BatchID (j_Params j) = b ∧ known j s.
Proof. intros Hinv Hj. pose proof (jo_id _ _ _ _ _ (inv_jobs _ _ Hinv _ _ Hj)) as Hid. split; [done|]. exists j. by rewrite Hid. Qed.

Lemma known_visible job s : inv s → known job s → Forall visible (BatchID (j_Params job)).
Proof. intros Hinv (j & Hj & _). apply (jo_visible _ _ _ _ _ (inv_jobs _ _ Hinv _ _ Hj)). Qed.

(** ** Balance holds *)

(** Applying a command for a known job; [pre]: what the operation requires. *)
Lemma apply_calm o op job c ph actual (k : res bool → prg (res unit)) Q s :
  inv s → known job s →
  buildBatchImageHoldCommand job (request_id op (BatchID (j_Params job))) actual ph = Ok c →
  (op ≠ Reserve → in_state past (BatchID (j_Params job)) s) →
  (op = Capture → held (j_Params job) = true → applied Reserve (BatchID (j_Params job)) (st_journal s)) →
  (∀ r s', rely o s s' → inv s' → (∀ v, r = Ok v → applied op (BatchID (j_Params job)) (st_journal s')) →
     calm o (k r) Q s') →
  calm o (bind (write (applyBatchImageBalanceHold op c)) k) Q s.
Proof.
  intros Hinv Hk Hb Hpast Hres Hnext. destruct (build_spec op job actual ph c (known_visible _ _ Hinv Hk) Hb) as (Hfor & Hrid & _).
  apply c_write; [|intros s' HR Hi; by apply Hnext].
  intros s' HR Hi. apply rely_later in HR as HL. destruct (known_later _ _ _ HL Hk) as (j & Hj & Hp).
  destruct (apply_ok small None op c j (BatchID (j_Params job)) s' Hi Hj) as [Hg Hok].
  - by rewrite Hp.
  - done.
  - split.
    + intros ->. destruct (past_later _ _ _ _ HL (Hpast ltac:(done))) as (j' & Hj' & Hpj). simplify_eq. split; [done|].
      rewrite Hp. intros Hh. eapply applied_later; [done|by apply Hres].
    + intros ->. destruct (past_later _ _ _ _ HL (Hpast ltac:(done))) as (j' & Hj' & Hpj). simplify_eq.
      unfold past in Hpj. by bool_hyp.
  - intros ->. right. destruct (past_later _ _ _ _ HL (Hpast ltac:(done))) as (j' & Hj' & Hpj). simplify_eq.
    unfold past in Hpj. by bool_hyp.
  - split; [done|]. intros HR' Hi'. apply Hnext; [by etrans|done|]. intros v Hv. by eapply Hok.
Qed.

Lemma not_held job c rid actual ph : buildBatchImageHoldCommand job rid actual ph = Ok c →
  Float.le (c_HoldAmount c) Float.zero = true → held (j_Params job) = false.
Proof.
  unfold buildBatchImageHoldCommand. intros Hb. step_all. intros Hle. unfold held, positive. by rewrite Hle.
Qed.

Lemma reserve_calm o job ph s : inv s → known job s →
  calm o (reserveBatchImageBalanceHold job ph)
    (ok_post (λ _ s', held (j_Params job) = true → applied Reserve (BatchID (j_Params job)) (st_journal s'))) s.
Proof.
  intros Hinv Hk. unfold reserveBatchImageBalanceHold. destruct (buildBatchImageHoldCommand _ _ _ _) as [c|e] eqn:Hb; [|apply c_err].
  destruct (Float.le _ _) eqn:Hle.
  { intros s' _ _. simpl. rewrite (not_held _ _ _ _ _ Hb Hle). done. }
  eapply apply_calm; [done|done|exact Hb|done|done|]. intros [v|e] s' HR Hi Hok; [|by case_bool_decide; apply c_err].
  intros s'' HR' _ Hh. eapply applied_later; [by eapply rely_later|by eapply Hok].
Qed.

Lemma capture_calm o job actual ph s : inv s → known job s → in_state past (BatchID (j_Params job)) s →
  (held (j_Params job) = true → applied Reserve (BatchID (j_Params job)) (st_journal s)) →
  calm o (captureBatchImageBalanceHold job actual ph)
    (ok_post (λ _ s', applied Capture (BatchID (j_Params job)) (st_journal s'))) s.
Proof.
  intros Hinv Hk Hp Hr. unfold captureBatchImageBalanceHold. destruct (buildBatchImageHoldCommand _ _ _ _) as [c|e] eqn:Hb; [|apply c_err].
  eapply apply_calm; [done|done|exact Hb|done|done|]. intros [v|e] s' HR Hi Hok; [|apply c_err].
  intros s'' HR' _. eapply applied_later; [by eapply rely_later|by eapply Hok].
Qed.

Lemma release_calm o job ph s : inv s → known job s → in_state past (BatchID (j_Params job)) s →
  calm o (releaseBatchImageBalanceHold job ph) (ok_post any) s.
Proof.
  intros Hinv Hk Hp. unfold releaseBatchImageBalanceHold. destruct (buildBatchImageHoldCommand _ _ _ _) as [c|e] eqn:Hb; [|apply c_err].
  destruct (Float.le _ _); [apply c_ok|]. eapply apply_calm; [done|done|exact Hb|done|done|].
  intros [v|e] s' HR Hi Hok; [apply c_ok|]. case_bool_decide; [apply c_ok|apply c_err].
Qed.

(** ** Small programs *)

Lemma event_calm o b e s : calm o (write (append_event b e)) (ok_post any) s.
Proof. apply c_any_write. intros s' Hi. by apply append_event_ok. Qed.

Lemma submit_failure_calm o b code mark s : inv s →
  (mark = true → ∀ s', rely o s s' → inv s' → ∀ j, st_jobs s' !! b = Some j → early (j_Status j) = true) →
  calm o (RecordBatchImageJobSubmitFailure b code mark) (ok_post any) s.
Proof.
  intros Hinv Hm. eapply c_try; [done| |intros; apply event_calm].
  apply (c_lift_write o _ any). intros s' HR Hi. split; [|done]. apply submit_failure_ok; [done|]. intros Hmark. by apply Hm.
Qed.

Lemma settlement_failed_calm o b code s : inv s → calm o (SetBatchImageJobSettlementFailed b code) (ok_post any) s.
Proof.
  intros Hinv. eapply (c_try _ _ _ any); [done|apply c_any_write; intros; by apply settlement_failed_ok|]. intros n s1 _ I1 _.
  eapply (c_try _ _ _ any); [done|apply event_calm|]. intros; apply c_ok.
Qed.

Lemma mark_and_log_calm o w b e s : inv s → (∀ s', inv s' → good_step None s' (snd (w s'))) →
  calm o (mark_and_log w b e) (ok_post any) s.
Proof. intros Hinv Hw. eapply (c_try _ _ _ any); [done|by apply c_any_write|]. intros; apply event_calm. Qed.

Lemma fail_stale_calm o b cutoff code s : inv s →
  calm o (FailStaleUnsubmittedBatchImageJob b cutoff code) (λ r s', fst r = true → in_state past b s') s.
Proof.
  intros Hinv. apply c_write; [|by intros s' _ _ s'' _ _]. intros s' HR Hi.
  destruct (fail_stale_ok small None b cutoff code s' Hi) as [Hg Hp]. split; [done|]. intros HR' Hi'.
  destruct (fst (fail_stale b cutoff code s')) as [[|]|e]; [|by intros s'' _ _|by intros s'' _ _].
  specialize (Hp eq_refl). eapply c_bind; [done|apply event_calm|]. intros r s2 HR2 Hi2 _ s3 HR3 _ _.
  eapply past_later; [by eapply rely_later|]. by eapply past_later; [eapply rely_later|].
Qed.

Lemma enqueue_calm o b s : calm o (enqueue b) (ok_post any) s.
Proof. apply c_ask. intros [x|e] s' _ _; [apply c_ok|apply c_err]. Qed.

Lemma retry_calm o b s : inv s → calm o (enqueueBillingRetry sv b) any s.
Proof.
  intros Hinv. unfold enqueueBillingRetry. case_match; [apply c_any|].
  eapply c_skip; [done|eapply c_weaken, enqueue_calm|]. intros [x|e] s' _ Hi; [apply c_any|].
  eapply c_skip; [done|eapply c_weaken, event_calm|]. intros; apply c_any.
Qed.

Lemma queue_or_not_calm o b s : calm o (if sv_HasQueue sv then enqueue b else Ret (Ok tt)) (ok_post any) s.
Proof. case_match; [apply enqueue_calm|apply c_ok]. Qed.

Lemma ensure_group_calm o g s : calm o (ensureGroupAllowsBatchImage g) (ok_post any) s.
Proof.
  unfold ensureGroupAllowsBatchImage. case_match; [|apply c_ok]. case_match; [apply c_ok|].
  apply c_ask. intros x s' _ _. repeat case_match; first [apply c_ok|apply c_err].
Qed.

Lemma price_calm o ow req sel s : inv s → calm o (price sv ow req sel) (ok_post any) s.
Proof.
  intros Hinv. unfold price. eapply c_skip; [done| |].
  { case_match; [|apply c_any]. case_match; [apply c_any|]. apply c_ask. intros; apply c_any. }
  intros g s1 _ I1. eapply c_skip; [done| |].
  { case_match; [|apply c_any]. case_match; [|apply c_any]. apply c_ask. intros; apply c_any. }
  intros r s2 _ I2. apply c_ask. intros u s3 _ _ s4 _ _. by destruct (resolvePricingSnapshot _ _ _ _ _).
Qed.

Lemma parent_calm o ow p s : inv s → calm o (resolve_parent ow p) (ok_post any) s.
Proof.
  intros Hinv. unfold resolve_parent. case_match; [|apply c_ok].
  eapply (c_try _ _ _ any); [done|by apply c_lift_read|]. intros; apply c_ok.
Qed.

Lemma hide_calm o ow job s : inv s → calm o (hidePreUpstreamSubmitFailure ow job) any s.
Proof.
  intros Hinv. unfold hidePreUpstreamSubmitFailure. case_match; [apply c_any|]. apply c_clock. intros s1 _ I1.
  eapply c_skip; [done|eapply c_weaken, mark_and_log_calm; [done|]|intros; apply c_any].
  intros s' Hi. by apply user_deleted_ok.
Qed.

Lemma abort_calm o job n r s : calm o (abortOrphanProviderJob job n r) any s.
Proof.
  apply c_ask. intros _ s1 _ I1. apply c_ask. intros _ s2 _ I2.
  eapply c_skip; [done|eapply c_weaken, event_calm|]. intros; apply c_any.
Qed.

(** ** Cancelling, deleting, recovering *)

Lemma transition_calm o b to code ev s : to ∈ [Uploading; Running; Indexing; Failed; Cancelled] →
  calm o (write (transition b to code ev)) (ok_post (λ _ s', in_state (λ st, may_become to st) b s')) s.
Proof.
  intros Hto. apply c_lift_write. intros s' _ Hi.
  destruct (transition_ok small None b to code ev s' Hi) as [Hg Hp]; [set_solver|intros _ ->; set_solver|].
  split; [done|]. intros [] s'' Hok HL _. destruct (Hp Hok) as (j & Hj & Hst). bool_hyp.
  destruct (job_later _ _ _ _ _ HL Hj) as (j' & Hj' & _ & Hm). exists j'. by rewrite <- Hst.
Qed.

Lemma ended_past st : st ∈ [Failed; Cancelled] → past st = true.
Proof. by intros [->|[->|?%elem_of_nil]%elem_of_cons]%elem_of_cons. Qed.

Lemma ended_is_past (to : JobStatus) b s : to ∈ [Failed; Cancelled] → in_state (λ st, may_become to st) b s → in_state past b s.
Proof. intros Hto (j & Hj & Hm). exists j. split; [done|]. eapply past_stays; [exact Hm|by apply ended_past]. Qed.

Lemma owner_row u k b j s : inv s → job_for_owner u k b s = Ok j → st_jobs s !! b = Some j ∧ BatchID (j_Params j) = b ∧ known j s.
Proof.
  unfold job_for_owner. intros Hinv Hq. step_all. rename select (st_jobs s !! b = Some _) into Hj.
  split; [done|]. by apply known_row.
Qed.

Lemma reload_calm o u k b s : calm o (read (job_for_owner u k b)) (ok_post any) s.
Proof. by apply c_lift_read. Qed.

Lemma Cancel_calm o ow b s : inv s → calm o (Cancel sv ow b) any s.
Proof.
  intros Hinv. unfold Cancel. eapply c_weaken, (c_try _ _ _ _ any); [done| |].
  { apply c_lift_read with (P := λ j s', known j s' ∧ ∃ st, j_Status j = st ∧ in_state (λ x, may_become st x) (BatchID (j_Params j)) s').
    intros s' j s'' _ Hi Hq HL _. destruct (owner_row _ _ _ _ _ Hi Hq) as (Hj & Hid & Hk). split; [by eapply known_later|].
    eexists. split; [done|]. rewrite Hid. destruct (job_later _ _ _ _ _ HL Hj) as (j' & Hj' & _ & Hm). by exists j'. }
  intros job s1 _ I1 (Hk & st & <- & Hst).
  assert (Hrelease : ∀ k s2, inv s2 → known job s2 → in_state past (BatchID (j_Params job)) s2 →
    (∀ s3, inv s3 → calm o k (ok_post any) s3) →
    calm o (or_else (releaseBatchImageBalanceHold job (request_hash_of job))
              (λ _, let! _ := enqueueBillingRetry sv (BatchID (j_Params job)) in (Ret (Err CancelFailed) : prg (res BatchImageJob))) (λ _, k))
      (ok_post any) s2).
  { intros k s2 I2 Hk2 Hp2 Hnext. eapply c_else; [done|by apply release_calm| |intros; by apply Hnext].
    intros x s3 _ I3. eapply c_skip; [done|by apply retry_calm|]. intros; apply c_err. }
  case_match.
  { case_bool_decide as He; [|apply c_ok]. apply Hrelease; [done|done| |intros; apply c_ok]. by eapply ended_is_past. }
  destruct (match j_ProviderJobName job with Some _ => _ | None => _ end).
  - destruct (negb _); [apply c_err|]. destruct (AccountID _); [|apply c_err].
    eapply c_else; [done|apply c_lift_ask|intros; apply c_err|]. intros _ s2 _ I2 _.
    eapply c_else; [done|apply c_lift_ask|intros; apply c_err|]. intros _ s3 _ I3 _.
    eapply c_skip; [done|eapply c_weaken, event_calm|]. intros _ s4 _ I4.
    eapply c_else; [done|apply queue_or_not_calm|intros; apply c_err|]. intros; apply reload_calm.
  - eapply c_try; [done|apply (transition_calm _ _ Cancelled); set_solver|]. intros [] s2 HR2 I2 Hp.
    apply Hrelease; [done|exact (known_later _ _ _ (rely_later _ _ _ HR2) Hk)| |intros; apply reload_calm].
    apply (ended_is_past Cancelled); [set_solver|done].
Qed.

Lemma DeleteRecord_calm o ow b s : inv s → calm o (DeleteRecord ow b) any s.
Proof.
  intros Hinv. unfold DeleteRecord. eapply c_weaken, (c_try _ _ _ any any); [done|apply reload_calm|]. intros job s1 _ I1 _.
  case_match; [apply c_err|]. apply c_clock. intros s2 _ I2. apply mark_and_log_calm; [done|]. intros; by apply user_deleted_ok.
Qed.

Lemma jobs_elem j s : inv s → j ∈ jobs s → ∃ b, st_jobs s !! b = Some j.
Proof. intros _ ([b j'] & -> & Hj%elem_of_map_to_list)%list_elem_of_fmap. by exists b. Qed.

Lemma recover_calm o s : inv s → calm o (ReleaseStaleUnsubmittedOnce sv) any s.
Proof.
  intros Hinv. apply c_clock. intros s1 _ I1. eapply c_weaken, (c_try _ _ _ (λ l s', ∀ j, j ∈ l → known j s') any); [done| |].
  { apply c_lift_read. intros s' l s'' _ Hi [= <-] HL _ j Hj. apply elem_of_take in Hj as (i & Hj & _).
    apply list_elem_of_lookup_2 in Hj. rewrite merge_sort_Permutation in Hj. apply list_elem_of_filter in Hj as [_ Hj].
    apply (jobs_elem _ _ Hi) in Hj as (b & Hj). eapply known_later; [done|]. by eapply known_row. }
  intros l s2 _ I2 Hl. eapply c_skip; [done| |intros; apply c_ok].
  apply (calm_for_each Lost st_now inv later spares _ _ _ _ any); [done|done|]. intros [released lastErr] job s3 Hjob HR3 I3 _.
  specialize (Hl _ Hjob). apply (known_later _ _ _ (rely_later _ _ _ HR3)) in Hl.
  eapply c_bind; [done|by apply fail_stale_calm|]. intros [[|] [x|x]] s4 HR4 I4 Hp; try apply c_any.
  all: specialize (Hp eq_refl); apply (known_later _ _ _ (rely_later _ _ _ HR4)) in Hl.
  all: eapply c_skip; [done|eapply c_weaken, release_calm; [done| |]; [exact Hl|exact Hp]|].
  all: intros [y|y] s5 _ I5; [apply c_any|].
  all: eapply c_skip; [done|eapply c_weaken, queue_or_not_calm|]; intros; apply c_any.
Qed.

(** ** Processing *)

Lemma terminal_hold_calm o job s : inv s → known job s →
  (j_Status job ∈ [Failed; Cancelled] → in_state past (BatchID (j_Params job)) s) →
  calm o (releaseTerminalHold job) (ok_post any) s.
Proof.
  intros Hinv Hk Hp. unfold releaseTerminalHold. case_bool_decide; [|apply c_ok]. apply release_calm; auto.
Qed.

Lemma finish_calm o job to code ev s : inv s → known job s → to ∈ [Failed; Cancelled] →
  calm o (finish job to code ev) (ok_post any) s.
Proof.
  intros Hinv Hk Hto. eapply c_try; [done|apply (transition_calm _ _ to); set_solver|]. intros [] s1 HR1 I1 Hp.
  eapply (c_try _ _ _ any); [done| |intros; apply c_ok].
  apply terminal_hold_calm; [done|exact (known_later _ _ _ (rely_later _ _ _ HR1) Hk)|]. intros _. by eapply ended_is_past.
Qed.

(** What a page of the items tells about a job that was handed on. *)
Definition expects (job : BatchImageJob) (expected : list bytes) (s : Store) : Prop :=
  ∃ j, st_jobs s !! BatchID (j_Params job) = Some j ∧ j_Params j = j_Params job ∧ pre (j_Status j) = false ∧
    (small → sent (j_Status j) = true →
       NoDup expected ∧ lenZ expected = ItemCount (j_Params job) ∧ 0 < ItemCount (j_Params job) ∧
       i_CustomID <$> items_of s (BatchID (j_Params job)) ≡ₚ expected).

Lemma expects_later job l s s' : later s s' → expects job l s → expects job l s'.
Proof.
  intros HL (j & Hj & Hp & Hpre & He). destruct (job_later _ _ _ _ _ HL Hj) as (j' & Hj' & Hp' & Hm). exists j'.
  split_and!; [done|congruence| |].
  - destruct (pre (j_Status j')) eqn:E; [|done]. by rewrite (pre_back _ _ Hm E) in Hpre.
  - intros Hsm Hs'. destruct (sent_back _ _ Hm Hs') as [?|Hs]; [congruence|].
    destruct (He Hsm Hs) as (? & ? & ? & Hids). split_and!; [done..|]. rewrite <- Hids. by eapply (lt_items _ _ _ HL).
Qed.

(** A job whose row is not waiting for its submission any more. *)
Definition handed (job : BatchImageJob) (s : Store) : Prop :=
  known job s ∧ in_state (λ st, negb (pre st)) (BatchID (j_Params job)) s.

Lemma handed_later job s s' : later s s' → handed job s → handed job s'.
Proof.
  intros HL [Hk Hs]. split; [by eapply known_later|]. eapply in_state_later; [|done|done].
  intros x y Hm Hx. destruct (pre y) eqn:E; [|done]. by rewrite (pre_back _ _ Hm E) in Hx.
Qed.

(** Nothing is expected of a job that failed, or when a job may span pages. *)
Definition unexpecting (job : BatchImageJob) (s : Store) : Prop := ∀ l, expects job l s.

(** The first page of a job that was handed on: all of its items. *)
Lemma first_page job s : inv s → handed job s →
  let page := take 500 (items_of s (BatchID (j_Params job))) in
  expects job (i_CustomID <$> page) s ∧ (lenZ page < 500 ∨ unexpecting job s).
Proof.
  intros Hinv [(j & Hj & Hp) (j' & Hj' & Hpre)]. simplify_eq. bool_hyp. pose proof (inv_jobs _ _ Hinv _ _ Hj) as Hok.
  destruct (decide (maxOutputImagesPerJob (sv_Limits sv) < 500)) as [Hsm|Hsm]; [destruct (sent (j_Status j)) eqn:Hs|].
  - destruct (jo_items _ _ _ _ _ Hok Hsm Hs) as (Hu & Hn & Hc). rewrite Hp in Hn, Hc.
    rewrite take_ge by (unfold lenZ in Hn; lia). split; [|left; lia]. exists j. split_and!; [done..|]. intros _ _.
    split_and!; [done|unfold lenZ in *; by rewrite length_fmap|lia|done].
  - assert (unexpecting job s) by (intros l; exists j; split_and!; [done..|]; intros _ ?; congruence). by split; [|right].
  - assert (unexpecting job s) by (intros l; exists j; by split_and!). by split; [|right].
Qed.

Lemma expected_calm o job pages : ∀ offset acc s, inv s → handed job s →
  (offset = 0 ∧ acc = [] ∨ unexpecting job s) →
  calm o (expected_pages (BatchID (j_Params job)) pages offset acc) (ok_post (λ l s', expects job l s')) s.
Proof.
  induction pages as [|pages IH]; intros offset acc s Hinv Hh Hacc; cbn [expected_pages]; [apply c_err|].
  eapply (c_try _ _ _ (λ page s', handed job s' ∧
    (offset = 0 ∧ acc = [] → expects job (i_CustomID <$> page) s' ∧ (lenZ page < 500 ∨ unexpecting job s')))); [done| |].
  - apply c_lift_read. intros s' page s'' HR Hi Hq HL _. apply (handed_later _ _ _ (rely_later _ _ _ HR)) in Hh.
    split; [by eapply handed_later|]. intros [-> _]. unfold list_items in Hq. simpl in Hq. injection Hq as <-.
    destruct (first_page job s' Hi Hh) as [He Hu]. split; [by eapply expects_later|].
    destruct Hu as [?|Hu]; [by left|right]. intros l. eapply expects_later; [done|apply Hu].
  - intros page s' HR Hi [Hh' Hpage].
    assert (Hun : unexpecting job s → unexpecting job s').
    { intros Hu l. eapply expects_later; [by eapply rely_later|apply Hu]. }
    case_match eqn:Hlen; bool_hyp.
    + intros s'' HR' _. eapply expects_later; [by eapply rely_later|]. destruct Hacc as [[Hoff ->]|Hu].
      * simpl. rewrite filter_all_true by set_solver. by apply Hpage.
      * by apply Hun.
    + apply IH; [done|done|]. right. destruct Hacc as [Hacc|Hu]; [|by apply Hun].
      destruct (Hpage Hacc) as [_ [?|?]]; [lia|done].
Qed.

(** Indexing: the items become results, and the counters account for them. *)
Lemma Index_calm o job s : inv s → handed job s →
  calm o (Index job) (ok_post (λ _ s', small → ∃ j, st_jobs s' !! BatchID (j_Params job) = Some j ∧ counted j)) s.
Proof.
  intros Hinv Hh. unfold Index. eapply c_try; [done|apply expected_calm; [done|done|by left]|].
  intros expected s1 HR1 I1 He. eapply c_else; [done|apply c_lift_ask|intros; apply c_err|].
  intros out s2 HR2 I2 _. apply (expects_later _ _ _ _ (rely_later _ _ _ HR2)) in He.
  destruct (index_output expected out) as [r|e] eqn:Hr; [|apply c_err].
  eapply (c_bind _ _ _ any); [done| |].
  { case_match; [eapply c_weaken, event_calm|apply c_any]. }
  intros _ s3 HR3 I3 _. apply (expects_later _ _ _ _ (rely_later _ _ _ HR3)) in He.
  eapply c_try; [done| |].
  - apply c_lift_write with (P := λ _ s', small → ∃ j, st_jobs s' !! BatchID (j_Params job) = Some j ∧ counted j).
    intros s4 HR4 I4. apply (expects_later _ _ _ _ (rely_later _ _ _ HR4)) in He. destruct He as (j & Hj & Hp & _ & He).
    destruct (replace_items_ok small None (BatchID (j_Params job)) (ix_items r) (ix_success r) (ix_fail r) s4 I4) as [Hg Hc].
    + intros Hsm j' Hj' Hst. simplify_eq. destruct (He Hsm) as (Hu & Hn & Hpos & Hids); [by rewrite Hst|].
      destruct (index_output_ok expected out r Hu) as (Hix & _ & _ & Hsum & _ & ? & ?); [intros ->; unfold lenZ in Hn; simpl in Hn; lia|done|].
      rewrite Hp. split_and!; [by rewrite Hix, Hids|done|done|lia].
    + split; [done|]. intros [] s5 Hok HL _ Hsm. destruct (Hc Hsm Hok) as (j' & Hj' & Hcnt).
      destruct (lt_jobs _ _ _ HL _ _ Hj') as (j2 & Hj2 & Hrow). exists j2. split; [done|]. by apply (rl_counted _ _ _ Hrow).
  - intros [] s4 HR4 I4 HP s5 HR5 _ Hsm. destruct (HP Hsm) as (j' & Hj' & Hcnt).
    destruct (lt_jobs _ _ _ (rely_later _ _ _ HR5) _ _ Hj') as (j2 & Hj2 & Hrow). exists j2. split; [done|]. by apply (rl_counted _ _ _ Hrow).
Qed.

Lemma settling_calm o job s : inv s →
  (small → ∃ j, st_jobs s !! BatchID (j_Params job) = Some j ∧ counted j) →
  calm o (write (transition (BatchID (j_Params job)) Settling None "indexing_completed")) (ok_post any) s.
Proof.
  intros Hinv Hc. apply c_lift_write. intros s' HR Hi. split; [|done]. apply transition_ok; [done|set_solver|].
  intros Hsm _ j' Hj'. destruct (Hc Hsm) as (j & Hj & Hcnt).
  destruct (lt_jobs _ _ _ (rely_later _ _ _ HR) _ _ Hj) as (j2 & Hj2 & Hrow). simplify_eq. by apply (rl_counted _ _ _ Hrow).
Qed.

Lemma indexAndSettle_calm o job s : inv s → handed job s → calm o (indexAndSettle job) (ok_post any) s.
Proof.
  intros Hinv Hh. unfold indexAndSettle. eapply c_else; [done|by apply Index_calm| |].
  - intros x s1 HR1 I1. case_bool_decide; [apply c_err|]. case_bool_decide; [apply c_ok|].
    apply finish_calm; [done| |set_solver]. exact (known_later _ _ _ (rely_later _ _ _ HR1) (proj1 Hh)).
  - intros r s1 HR1 I1 Hc. eapply (c_try _ _ _ any any); [done|by apply settling_calm|]. intros; apply c_ok.
Qed.

Lemma persist_calm o job ref s : inv s →
  calm o (persistProviderOutputRef job ref) (ok_post (λ j _, j_Params j = j_Params job ∧ j_Status j = j_Status job)) s.
Proof.
  intros Hinv. unfold persistProviderOutputRef. case_match; [by intros s' _ _|].
  eapply (c_try _ _ _ any); [done| |by intros ? ? _ _ _ s' _ _].
  apply c_any_write. intros; by apply output_ref_ok.
Qed.

Lemma advance_to_calm o job to ev s : inv s → to ∈ [Running; Indexing] →
  calm o (advance_to job to ev) (ok_post (λ j s', j_Params j = j_Params job ∧ j_Status j = to ∧
    (j_Status job ≠ to → in_state (λ st, may_become to st) (BatchID (j_Params job)) s'))) s.
Proof.
  intros Hinv Hto. unfold advance_to. case_bool_decide; [by intros s' _ _|].
  eapply c_try; [done|apply (transition_calm _ _ to); set_solver|]. intros [] s1 HR1 I1 Hp s' HR' _.
  split_and!; [done|done|]. intros _. eapply in_state_later; [|by eapply rely_later|exact Hp].
  intros x y Hxy Hx. by eapply may_become_trans.
Qed.

Lemma reached_handed job to s : to ∈ [Running; Indexing] → known job s →
  in_state (λ st, may_become to st) (BatchID (j_Params job)) s → handed job s.
Proof.
  intros Hto Hk (j & Hj & Hm). split; [done|]. exists j. split; [done|].
  apply elem_of_cons in Hto as [->|Hto%list_elem_of_singleton]; [|subst to]; by destruct (j_Status j).
Qed.

Lemma known_params job job' s : j_Params job' = j_Params job → known job s → known job' s.
Proof. unfold known. by intros ->. Qed.

Lemma process_status_calm o job st s : inv s → known job s → j_Status job ≠ Indexing →
  calm o (process_status sv job st) (ok_post any) s.
Proof.
  intros Hinv Hk Hst. unfold process_status. eapply c_try; [done|by apply persist_calm|].
  intros job1 s1 HR1 I1 [Hp1 Hs1]. apply (known_later _ _ _ (rely_later _ _ _ HR1)) in Hk. apply (known_params _ _ _ Hp1) in Hk.
  destruct (bs_InternalState st); [apply c_ok| | | | | |apply c_ok].
  - eapply c_try; [done|apply advance_to_calm; [done|set_solver]|]. intros; apply c_ok.
  - eapply c_try; [done|apply advance_to_calm; [done|set_solver]|]. intros job2 s2 HR2 I2 (Hp2 & _ & Hin).
    apply indexAndSettle_calm; [done|]. eapply (reached_handed _ Indexing); [set_solver| |].
    + eapply known_params; [exact Hp2|]. exact (known_later _ _ _ (rely_later _ _ _ HR2) Hk).
    + rewrite Hp2. apply Hin. congruence.
  - apply finish_calm; [done|done|set_solver].
  - apply finish_calm; [done|done|set_solver].
  - apply finish_calm; [done|done|set_solver].
Qed.

(** A row read by its identifier. *)
Lemma read_row_calm o b s : inv s →
  calm o (read (job_by_batch_id b)) (ok_post (λ j s', BatchID (j_Params j) = b ∧ known j s' ∧
    (∃ st, j_Status j = st ∧ in_state (λ x, may_become st x) b s') ∧
    (sent (j_Status j) = true → held (j_Params j) = true → applied Reserve b (st_journal s')))) s.
Proof.
  intros Hinv. apply c_lift_read. intros s' j s'' HR Hi Hq HL _. unfold job_by_batch_id in Hq.
  destruct (st_jobs s' !! b) as [j'|] eqn:Hj; simplify_eq. destruct (known_row _ _ _ Hi Hj) as [Hid Hk]. split_and!; [done|by eapply known_later| |].
  - eexists. split; [done|]. destruct (job_later _ _ _ _ _ HL Hj) as (j' & Hj' & _ & Hm). by exists j'.
  - intros Hs Hh. eapply applied_later; [done|]. by apply (jo_backed _ _ _ _ _ (inv_jobs _ _ Hi _ _ Hj)).
Qed.

Lemma Process_calm o b s : inv s → calm o (Process sv b) (ok_post any) s.
Proof.
  intros Hinv. unfold Process. eapply c_try; [done|by apply read_row_calm|].
  intros job s1 HR1 I1 (Hid & Hk & (st & <- & Hin) & _). subst b. case_match.
  { eapply (c_try _ _ _ any); [done|apply terminal_hold_calm; [done|done|]|intros; apply c_ok].
    intros Hst. by eapply ended_is_past. }
  destruct (negb _); [apply c_err|]. destruct (AccountID _) as [id|]; [|apply c_err]. destruct (id <=? 0); [apply c_err|].
  eapply c_try; [done|apply c_lift_ask|]. intros supported s2 HR2 I2 _.
  apply (known_later _ _ _ (rely_later _ _ _ HR2)) in Hk.
  destruct (negb supported); [apply c_err|]. case_bool_decide; [apply c_err|]. case_bool_decide as Hi.
  - apply indexAndSettle_calm; [done|]. eapply (reached_handed _ Indexing); [set_solver|done|]. rewrite <- Hi.
    eapply in_state_later; [|by eapply rely_later|exact Hin]. intros x y Hxy Hx. by eapply may_become_trans.
  - eapply c_else; [done|apply c_lift_ask|intros; apply c_ok|]. intros [pst|] s3 HR3 I3 _; [|apply c_ok].
    apply process_status_calm; [done|exact (known_later _ _ _ (rely_later _ _ _ HR3) Hk)|done].
Qed.

(** ** Settlement *)

Lemma exhausted_calm o job s : inv s → known job s → in_state past (BatchID (j_Params job)) s →
  calm o (failExhaustedSettlement job) (ok_post any) s.
Proof.
  intros Hinv Hk Hp. unfold failExhaustedSettlement. eapply c_else; [done|by apply release_calm| |].
  - intros x s1 _ I1. eapply c_skip; [done|eapply c_weaken, settlement_failed_calm; done|]. intros; apply c_err.
  - intros [] s1 HR1 I1 _. eapply c_try; [done|apply (transition_calm _ _ Failed); set_solver|]. intros; apply c_err.
Qed.

Lemma record_settlement_calm o job code s : inv s → known job s → in_state past (BatchID (j_Params job)) s →
  calm o (recordSettlementFailure job code) (ok_post any) s.
Proof.
  intros Hinv Hk Hp. unfold recordSettlementFailure. eapply c_else; [done|by apply settlement_failed_calm|intros; apply c_ok|].
  intros n s1 HR1 I1 _. case_match; [|apply c_ok]. apply exhausted_calm; [done| |].
  - eapply (known_params job); [done|]. exact (known_later _ _ _ (rely_later _ _ _ HR1) Hk).
  - eapply past_later; [by eapply rely_later|done].
Qed.

Lemma settlement_error_calm {A} o job code e (P : A → Store → Prop) s : inv s → known job s →
  in_state past (BatchID (j_Params job)) s → calm o (settlement_error job code e) (ok_post P) s.
Proof.
  intros Hinv Hk Hp. eapply (c_try _ _ _ any P); [done|by apply record_settlement_calm|]. intros; apply c_err.
Qed.

Lemma settle_at_calm o job unit s : inv s → known job s → in_state past (BatchID (j_Params job)) s →
  (held (j_Params job) = true → applied Reserve (BatchID (j_Params job)) (st_journal s)) →
  calm o (settle_at job unit) (ok_post any) s.
Proof.
  intros Hinv Hk Hp Hr. unfold settle_at. case_match; [by apply settlement_error_calm|].
  eapply c_else; [done|by apply capture_calm| |].
  - intros x s1 HR1 I1. apply settlement_error_calm; [done|exact (known_later _ _ _ (rely_later _ _ _ HR1) Hk)|].
    eapply past_later; [by eapply rely_later|done].
  - intros [] s1 HR1 I1 Hc. apply c_clock. intros s2 HR2 I2. eapply (c_try _ _ _ any any); [done| |intros; apply c_ok].
    apply c_lift_write. intros s3 HR3 I3. split; [|done]. apply mark_settled_ok; [done|].
    do 2 (eapply applied_later; [by eapply rely_later|]). done.
Qed.

Lemma Settle_calm o b s : inv s → calm o (Settle b) (ok_post any) s.
Proof.
  intros Hinv. unfold Settle. eapply c_try; [done|by apply read_row_calm|].
  intros job s1 HR1 I1 (Hid & Hk & (st & <- & Hin) & Hres). subst b.
  case_bool_decide; [apply c_ok|]. case_bool_decide as Hst; [simpl (negb true)|apply c_err]. cbn match.
  assert (Hp : in_state past (BatchID (j_Params job)) s1).
  { destruct Hin as (j & Hj & Hm). exists j. split; [done|]. rewrite Hst in Hm. by destruct (j_Status j). }
  specialize (Hres ltac:(by rewrite Hst)).
  do 2 (destruct (match _ with Some _ => _ | None => _ end); [apply c_err|]).
  destruct (isBatchImageSettlementRetryExhausted job).
  { eapply (c_try _ _ _ any any); [done|by apply exhausted_calm|]. intros; apply c_ok. }
  destruct (_ || _); [by apply settlement_error_calm|]. destruct (_ && _); [by apply settlement_error_calm|].
  eapply (c_bind _ _ _ any); [done| |].
  { unfold settlementUnitPrice. case_match; [apply c_any|]. eapply c_weaken, c_lift_ask. }
  intros [u|e] s2 HR2 I2 _; apply (known_later _ _ _ (rely_later _ _ _ HR2)) in Hk;
    apply (past_later _ _ _ _ (rely_later _ _ _ HR2)) in Hp.
  - case_match; [by apply settlement_error_calm|]. apply settle_at_calm; [done|done|done|].
    intros Hh. eapply applied_later; [by eapply rely_later|by apply Hres].
  - by apply settlement_error_calm.
Qed.

Lemma Pipeline_calm o b s : inv s → calm o (Pipeline sv b) (ok_post any) s.
Proof.
  intros Hinv. unfold Pipeline. eapply c_try; [done|by apply read_row_calm|]. intros job s1 _ I1 _.
  case_match; [by apply Process_calm|]. eapply c_else; [done|by apply Settle_calm| |intros; apply c_ok].
  intros x s2 _ I2. case_match; [apply c_err|]. apply c_read; intros; apply c_ok.
Qed.

(** ** Cleanup *)

Lemma cleanup_call_calm o job t s : inv s → calm o (callProviderCleanup job t) (ok_post any) s.
Proof.
  intros Hinv. unfold callProviderCleanup. destruct (negb _); [apply c_err|]. destruct (AccountID _) as [id|]; [|apply c_err].
  destruct (id <=? 0); [apply c_err|]. eapply c_try; [done|apply c_lift_ask|]. intros; apply c_lift_ask.
Qed.

Lemma run_cleanup_calm o job t e1 e2 e3 s : inv s → calm o (run_cleanup job t e1 e2 e3) (ok_post any) s.
Proof.
  intros Hinv. unfold run_cleanup. eapply c_skip; [done|eapply c_weaken, event_calm|]. intros _ s1 _ I1.
  eapply c_else; [done|by apply cleanup_call_calm| |].
  - intros x s2 _ I2. unfold cleanup_failed. eapply (c_bind _ _ _ any); [done| |].
    { eapply c_weaken, c_any_write. intros; by apply cleanup_failure_ok. }
    intros r s3 _ I3 _. eapply (c_bind _ _ _ any); [done|destruct r; [eapply c_weaken, event_calm|apply c_any]|].
    intros _ s4 _ I4 _. eapply c_skip; [done|eapply c_weaken, event_calm|]. intros; apply c_err.
  - intros _ s2 _ I2 _. apply c_clock. intros s3 _ I3. apply mark_and_log_calm; [done|]. intros s' Hi.
    destruct t; [by apply input_deleted_ok|by apply output_deleted_ok].
Qed.

Lemma cleanupJob_calm o job t s : inv s → calm o (cleanupJob job t) (ok_post any) s.
Proof. intros Hinv. unfold cleanupJob. destruct t; repeat (case_match; try apply c_ok; try apply c_err); by apply run_cleanup_calm. Qed.

Lemma Cleanup_calm o b t s : inv s → calm o (Cleanup b t) (ok_post any) s.
Proof.
  intros Hinv. unfold Cleanup. eapply c_try; [done|by apply read_row_calm|]. intros job s1 _ I1 _. by apply cleanupJob_calm.
Qed.

Lemma DeleteOutputs_calm o ow b s : inv s → calm o (DeleteOutputsForOwner ow b) (ok_post any) s.
Proof.
  intros Hinv. unfold DeleteOutputsForOwner. eapply (c_try _ _ _ any); [done|apply reload_calm|]. intros job s1 _ I1 _.
  case_match; [apply c_ok|]. case_match; [apply c_err|]. eapply c_skip; [done|eapply c_weaken, event_calm|]. intros _ s2 _ I2.
  eapply (c_try _ _ _ any); [done|by apply cleanupJob_calm|]. intros; apply reload_calm.
Qed.

(** ** Submission *)

(** What the submission that made the batch knows: the provider has not got it. *)
Definition mine (p : CreateBatchImageJobParams) (s : Store) : Prop :=
  ∃ j, st_jobs s !! BatchID p = Some j ∧ j_Params j = p ∧ early (j_Status j) = true.

(** And while the row waits, its hold was not given back, and its items are [its]. *)
Definition owned (p : CreateBatchImageJobParams) (its : list BatchImageItem) (s : Store) : Prop :=
  mine p s ∧ ∀ j, st_jobs s !! BatchID p = Some j → pre (j_Status j) = true →
    ¬ released (BatchID p) s ∧ items_of s (BatchID p) = its.

Lemma mine_later p s s' : rely (Some (BatchID p)) s s' → mine p s → mine p s'.
Proof.
  intros [HL Hsp] (j & Hj & Hp & He). destruct (job_later _ _ _ _ _ HL Hj) as (j' & Hj' & Hp' & _).
  exists j'. split_and!; [done|congruence|]. by eapply sp_early.
Qed.

Lemma owned_later p its s s' : rely (Some (BatchID p)) s s' → owned p its s → owned p its s'.
Proof.
  intros HR [Hm Hw]. split; [by eapply mine_later|]. destruct HR as [HL Hsp]. destruct Hm as (j & Hj & _).
  intros j' Hj' Hpre. destruct (sp_waits _ _ _ _ Hsp j j' Hj Hj' Hpre) as [Hrel Hits].
  destruct (job_later _ _ _ _ _ HL Hj) as (j2 & Hj2 & _ & Hm). simplify_eq.
  destruct (Hw j Hj (pre_back _ _ Hm Hpre)) as [Hn Hi]. split; [auto|congruence].
Qed.

Lemma mine_known job s : mine (j_Params job) s → known job s.
Proof. intros (j & Hj & Hp & _). by exists j. Qed.

Lemma good_guar o s s' : good_step o s s' → inv s' ∧ guar later spares fresh o s s'.
Proof.
  intros (Hinv & HL & Hsp). split; [done|]. split; [done|]. intros t Ht Hf. apply Hsp; [done|].
  unfold fresh in Hf. by destruct (st_jobs s !! t).
Qed.

Lemma s_calm {A B} o (p : prg A) (k : A → prg B) P Q s : inv s → calm o p P s →
  (∀ a s', rely o s s' → inv s' → P a s' → osafe o (k a) Q s') → osafe o (bind p k) Q s.
Proof. intros. by eapply (osafe_calm Lost st_now inv later spares fresh). Qed.

Lemma s_finished {A} o (p : prg A) P s : calm o p P s → osafe o p finished s.
Proof. intros Hp. by eapply (calm_osafe Lost st_now inv later spares fresh). Qed.

Lemma o_write {A B} o (w : Store → res A * Store) (k : res A → prg B) Q s :
  (∀ s', rely o s s' → inv s' → good_step o s' (snd (w s')) ∧
     (inv (snd (w s')) → osafe o (k (Err Lost)) Q (snd (w s')) ∧ osafe o (k (fst (w s'))) Q (snd (w s')))) →
  (∀ s', rely o s s' → inv s' → osafe o (k (Err Lost)) Q s') → osafe o (bind (write w) k) Q s.
Proof.
  intros Hw He. apply (osafe_write Lost st_now inv later spares fresh); [|exact He]. intros s' HR Hi.
  destruct (Hw s' HR Hi) as [Hg Hk]. apply good_guar in Hg as [Hinv Hg]. destruct (Hk Hinv). by split_and!.
Qed.

(** The owner records a failure and hides the row. *)
Lemma refuse_calm {A} ow job code e s : inv s → mine (j_Params job) s →
  calm (Some (BatchID (j_Params job))) (refuse (A := A) ow job code e) any s.
Proof.
  intros Hinv Hm. unfold refuse. eapply (c_skip _ _ _ any); [done| |].
  - eapply c_weaken, submit_failure_calm; [done|]. intros _ s' HR _ j Hj.
    destruct (mine_later _ _ _ HR Hm) as (j' & Hj' & _ & He). by simplify_eq.
  - intros _ s1 _ I1. eapply c_skip; [done|by apply hide_calm|]. intros; apply c_any.
Qed.

(** The owner gives the hold back; it still knows that the provider has nothing. *)
Lemma release_owner {A} job rh (k : prg (res A)) s : inv s → mine (j_Params job) s →
  (∀ s', inv s' → mine (j_Params job) s' → osafe (Some (BatchID (j_Params job))) k finished s') →
  osafe (Some (BatchID (j_Params job))) (on_ok (releaseFailedSubmitHold sv job rh) (λ _, k)) finished s.
Proof.
  intros Hinv Hm Hok. set (b := BatchID (j_Params job)).
  assert (Hbad : ∀ (x : berror) s', inv s' → mine (j_Params job) s' →
    osafe (Some b) (let! r := (let! _ := RecordBatchImageJobSubmitFailure b (lit "BILLING_RELEASE_FAILED") true in
                               let! _ := enqueueBillingRetry sv b in Ret (Err (A := unit) BillingHoldFailed)) in
                    match r with Ok _ => k | Err y => Ret (Err y) end) finished s').
  { intros x s' Hi Hm'. eapply (s_calm _ _ _ (λ (r : res unit) _, ∃ y, r = Err y)); [done| |].
    - eapply (c_skip _ _ _ _); [done| |].
      + eapply c_weaken, submit_failure_calm; [done|]. intros _ s1 HR _ j Hj.
        destruct (mine_later _ _ _ HR Hm') as (j' & Hj' & _ & He). unfold b in Hj. by simplify_eq.
      + intros _ s1 _ I1. eapply c_skip; [done|by apply retry_calm|]. intros _ s2 _ _ s3 _ _. by eexists.
    - intros r s1 _ I1 [y ->] s2 _ _. done. }
  unfold on_ok, releaseFailedSubmitHold, releaseBatchImageBalanceHold. fold b.
  destruct (buildBatchImageHoldCommand _ _ _ _) as [c|x] eqn:Hb; [|by apply Hbad].
  destruct (Float.le _ _); [by apply Hok|]. cbn [bind].
  destruct (build_spec Release job Float.zero rh c (known_visible _ _ Hinv (mine_known _ _ Hm)) Hb) as (Hfor & Hrid & _).
  apply o_write; [|intros s' HR Hi; apply (Hbad Lost); [done|by eapply mine_later]].
  intros s' HR Hi. pose proof (mine_later _ _ _ HR Hm) as Hm'. destruct Hm' as (j & Hj & Hp & He).
  destruct (apply_ok small (Some b) Release c j b s' Hi Hj) as [Hg _]; [by rewrite Hp|done| |by left|].
  { split; [done|]. intros _. by destruct (j_Status j). }
  split; [done|]. intros Hi'.
  assert (Hm' : mine (j_Params job) (snd (applyBatchImageBalanceHold Release c s'))).
  { exists j. split_and!; [|done|done]. destruct (applyBatchImageBalanceHold Release c s') as [r s''] eqn:Ha. simpl.
    destruct (apply_spec _ _ _ _ _ Ha) as [[-> _]|(mv & s1 & s2 & _ & _ & -> & Hs & ->)]; [done|].
    by destruct (hold_statement_rest _ _ _ _ _ Hs) as [f ->]. }
  split; [by apply (Hbad Lost)|]. destruct (fst _) as [v|x]; [by apply Hok|].
  cbn match. case_bool_decide; [by apply Hok|by apply (Hbad Lost)].
Qed.

Lemma release_refuse {A} ow job rh code e s : inv s → mine (j_Params job) s →
  osafe (Some (BatchID (j_Params job)))
    (on_ok (releaseFailedSubmitHold sv job rh) (λ _, refuse (A := A) ow job code e)) finished s.
Proof. intros Hinv Hm. apply release_owner; [done|done|]. intros. by eapply s_finished, refuse_calm. Qed.

(** Ready for the provider: the hold is there, and the items are those asked for. *)
Definition ready (p : CreateBatchImageJobParams) (s : Store) : Prop :=
  (held p = true → applied Reserve (BatchID p) (st_journal s)) ∧
  ∃ its, owned p its s ∧ (small → ids_ok p its).

Lemma ready_later p s s' : rely (Some (BatchID p)) s s' → ready p s → ready p s'.
Proof.
  intros HR [Hres (its & Ho & Hi)]. split; [|exists its; split; [by eapply owned_later|done]].
  intros Hh. eapply applied_later; [by eapply rely_later|by apply Hres].
Qed.

Lemma submit_answered_safe ow job rh answer s : inv s → ready (j_Params job) s →
  osafe (Some (BatchID (j_Params job))) (submit_answered sv ow job rh answer) finished s.
Proof.
  intros Hinv Hr. assert (Hm : mine (j_Params job) s) by (by destruct Hr as [_ (its & [? _] & _)]).
  unfold submit_answered. destruct answer as [[[name ref]|]|x]; [|by apply release_refuse..].
  case_bool_decide; [by apply release_refuse|]. unfold or_else.
  assert (Habort : ∀ (e : berror) s', inv s' →
    osafe (Some (BatchID (j_Params job))) (let! _ := abortOrphanProviderJob job name ref in Ret (Err e) : prg (res BatchImageJob)) finished s').
  { intros e s' Hi. eapply s_finished, c_skip; [done|apply abort_calm|]. intros; apply c_any. }
  apply o_write; [|intros s' HR Hi; by apply (Habort Lost)]. intros s' HR Hi.
  destruct (ready_later _ _ _ HR Hr) as [Hres (its & [(j & Hj & Hp & He) Hw] & Hids)]. split.
  - apply provider_submit_ok; [done|done|]. intros j' Hj' Hpre. simplify_eq. destruct (Hw _ Hj Hpre) as [Hrel Hit].
    rewrite Hp, Hit. split_and!; [done|done|done].
  - intros Hi'. split; [by apply (Habort Lost)|]. destruct (fst _) as [[]|e]; [|by apply (Habort e)].
    eapply s_calm; [done|apply queue_or_not_calm|]. intros [[]|e] s2 _ I2 _.
    + eapply s_finished, (read_row_calm _ _ _ I2).
    + eapply s_finished, c_skip; [done|eapply c_weaken, submit_failure_calm; done|]. intros; apply c_any.
Qed.

Lemma submit_created_safe ow req rh job s : inv s → owned (j_Params job) [] s →
  Items req ≠ [] → NoDup (CustomID <$> Items req) → lenZ (Items req) = ItemCount (j_Params job) →
  (small → ItemCount (j_Params job) < 500) →
  osafe (Some (BatchID (j_Params job))) (submit_created sv ow req rh job) finished s.
Proof.
  intros Hinv Ho Hne Hu Hlen Hcount. unfold submit_created.
  assert (Hmine : ∀ its s', owned (j_Params job) its s' → mine (j_Params job) s') by (by intros ? ? [? _]).
  eapply s_calm; [done|apply reserve_calm; [done|by eapply mine_known, Hmine]|]. intros [[]|e] s1 HR1 I1 Hres.
  2: { eapply s_finished, refuse_calm; [done|]. by eapply Hmine, owned_later. }
  pose proof (owned_later _ _ _ _ HR1 Ho) as O1. unfold or_else, createPendingItems.
  destruct (Items req) as [|i0 il] eqn:Hits; [done|]. rewrite <- Hits in *. clear i0 il Hits.
  set (l := (λ i, mkBatchItem (CustomID i) ItemPending 0 None) <$> Items req).
  assert (Hl : i_CustomID <$> l = CustomID <$> Items req) by (unfold l; by rewrite <- list_fmap_compose).
  assert (Hfail : ∀ s', inv s' → mine (j_Params job) s' →
    osafe (Some (BatchID (j_Params job))) (on_ok (releaseFailedSubmitHold sv job rh)
      (λ _, refuse (A := BatchImageJob) ow job (lit "ITEM_CREATE_FAILED") QueueFailed)) finished s').
  { intros s' Hi Hm. by apply release_refuse. }
  apply o_write; [|intros s' HR Hi; apply Hfail; [done|by eapply Hmine, owned_later]]. intros s2 HR2 I2.
  destruct (owned_later _ _ _ _ HR2 O1) as [(j & Hj & Hp & He) Hw].
  split; [apply bulk_create_ok; [done|done|intros; by simplify_eq]|]. intros I2'.
  assert (Hjobs : st_jobs (snd (bulk_create_items (BatchID (j_Params job)) l s2)) = st_jobs s2 ∧
                  st_journal (snd (bulk_create_items (BatchID (j_Params job)) l s2)) = st_journal s2).
  { unfold bulk_create_items. by repeat case_bool_decide. }
  destruct Hjobs as [Hjobs Hjournal].
  assert (Hm2 : mine (j_Params job) (snd (bulk_create_items (BatchID (j_Params job)) l s2))) by (exists j; by rewrite Hjobs).
  split; [by apply Hfail|].
  destruct (fst (bulk_create_items (BatchID (j_Params job)) l s2)) as [[]|e] eqn:Hok; [|by apply Hfail].
  assert (Hready : ready (j_Params job) (snd (bulk_create_items (BatchID (j_Params job)) l s2))).
  { split; [rewrite Hjournal; intros Hh; eapply applied_later; [by eapply rely_later|by apply Hres]|].
    exists l. split; [split; [done|]|].
    - intros j' Hj' Hpre. rewrite Hjobs in Hj'. destruct (Hw j' Hj' Hpre) as [Hrel Hit]. split; [unfold released; by rewrite Hjournal|].
      revert Hok. unfold items_of in *. unfold bulk_create_items. rewrite Hit. rewrite bool_decide_eq_false_2.
      2: { unfold l. intros Hn%fmap_nil_inv. done. }
      repeat case_bool_decide; simpl; [done| |done]. by rewrite lookup_insert_eq.
    - intros Hsm. split_and!; [by rewrite Hl|unfold lenZ in *; unfold l; by rewrite length_fmap|rewrite <- Hlen; destruct (Items req); [done|unfold lenZ; simpl; lia]|by apply Hcount]. }
  clear Hok Hjobs Hjournal. revert I2' Hready. generalize (snd (bulk_create_items (BatchID (j_Params job)) l s2)). intros s3 I3 Hr3.
  eapply s_calm; [done|apply (transition_calm _ _ Uploading); set_solver|]. intros [[]|e] s4 HR4 I4 _; apply (ready_later _ _ _ HR4) in Hr3.
  - eapply (s_calm _ _ _ any); [done|by apply (calm_ask Lost st_now inv later spares)|].
    intros answer s5 HR5 I5 _. apply (submit_answered_safe ow (set_status Uploading job)); [done|]. simpl. by eapply ready_later.
  - assert (Hm4 : mine (j_Params job) s4) by (by destruct Hr3 as [_ (its & [? _] & _)]).
    apply release_owner; [done|done|]. intros s5 I5 Hm5. case_bool_decide; [by intros s6 _ _|].
    by eapply s_finished, refuse_calm.
Qed.

(** ** New batches *)

Lemma hex_visible n : (n < 16)%nat → visible (hex_digit n).
Proof. intros Hn. do 16 (destruct n as [|n]; [by vm_compute|]). lia. Qed.

Lemma new_id_visible r : Forall visible (NewBatchImageID r).
Proof.
  unfold NewBatchImageID. apply Forall_app. split; [repeat constructor; by vm_compute|].
  induction (Vector.to_list r) as [|c l IH]; [constructor|].
  change (Forall visible (hex_digit (nat_of_ascii c / 16) :: hex_digit (nat_of_ascii c mod 16) :: hex_encode l)).
  assert (Hc : (nat_of_ascii c < 256)%nat) by apply nat_ascii_bounded.
  constructor; [apply hex_visible, Nat.Div0.div_lt_upper_bound; lia|].
  constructor; [apply hex_visible, Nat.mod_upper_bound; lia|exact IH].
Qed.

Lemma o_try {A B} o (p : prg (res A)) (k : A → prg (res B)) P s : inv s → calm o p (ok_post P) s →
  (∀ a s', rely o s s' → inv s' → P a s' → osafe o (k a) finished s') → osafe o (on_ok p k) finished s.
Proof. intros Hinv Hp Hk. eapply s_calm; [done|exact Hp|]. intros [a|e] s' HR Hi HP; [by apply Hk|done]. Qed.

Lemma s_create {A} p (k : BatchImageJob → prg (res A)) s : inv s → Forall visible (BatchID p) →
  (∀ j s', inv s' → j_Params j = stored_params p → owned (j_Params j) [] s' → osafe (Some (BatchID p)) (k j) finished s') →
  osafe None (on_ok (write (create_job p)) k) finished s.
Proof.
  intros Hinv Hv Hk. apply (osafe_acquire Lost st_now inv later spares fresh); [|done].
  intros s' HR Hi. destruct (create_job_ok small p s' Hi Hv) as [Hg Hok]. apply good_guar in Hg as [Hinv' Hg].
  split_and!; [done|done|done|]. destruct (fst (create_job p s')) as [j|e]; [|by left]. right. exists (BatchID p).
  destruct (Hok j eq_refl) as (Hfr & Hj & Hp & Hst & Hrel & Hits). split_and!; [done|by unfold fresh; rewrite Hj|].
  assert (Hb : BatchID (j_Params j) = BatchID p) by (by rewrite Hp).
  apply Hk; [done|done|]. split.
  - exists j. rewrite Hb. by rewrite Hst.
  - intros j' Hj' _. by rewrite Hb.
Qed.

Lemma submit_new_safe ow req rh key s : inv s → Items req ≠ [] → NoDup (CustomID <$> Items req) →
  lenZ (Items req) ≤ maxOutputImagesPerJob (sv_Limits sv) →
  osafe None (submit_new sv ow req rh key) finished s.
Proof.
  intros Hinv Hne Hu Hmax. unfold submit_new. eapply (o_try _ _ _ any); [done|apply c_lift_ask|]. intros sel s1 _ I1 _.
  eapply o_try; [done|by apply price_calm|]. intros snap s2 _ I2 _.
  eapply o_try; [done|by apply parent_calm|]. intros parent s3 _ I3 _.
  eapply (o_try _ _ _ any); [done|apply c_lift_ask|]. intros random s4 _ I4 _.
  apply s_create; [done|apply new_id_visible|]. intros j s5 I5 Hp Ho.
  replace (NewBatchImageID random) with (BatchID (j_Params j)) by (by rewrite Hp).
  apply submit_created_safe; [done|done|done|done|by rewrite Hp|]. intros Hs. rewrite Hp. simpl. unfold small in Hs. lia.
Qed.

Lemma Submit_safe ow req key s : inv s → osafe None (Submit sv ow req key) finished s.
Proof.
  intros Hinv. unfold Submit. destruct (negb _); [done|].
  eapply (s_calm _ _ _ any); [done|by apply (calm_ask Lost st_now inv later spares)|]. intros name s1 _ I1 _.
  destruct (validateSubmitRequest _ name req) as [r|e] eqn:Hv; [|done].
  destruct (validated_items_ok _ _ _ _ Hv) as (Hu & _ & [Hpos Hle] & Hmax & _).
  assert (Hne : Items r ≠ []) by (intros Hnil; rewrite Hnil in Hle; unfold lenZ in *; simpl in *; lia).
  eapply o_try; [done|apply ensure_group_calm|]. intros _ s2 _ I2 _. cbv zeta.
  case_bool_decide; [by apply submit_new_safe|].
  eapply (s_calm _ _ _ (ok_post any)); [done|by apply c_lift_read|]. intros [job|e] s3 _ I3 _.
  - case_match; [done|]. case_match; [|done]. eapply s_finished, c_else; [done|apply enqueue_calm| |intros; apply c_ok].
    intros x s4 _ I4. eapply c_skip; [done|eapply c_weaken, submit_failure_calm; done|]. intros; apply c_err.
  - destruct e; first [by apply submit_new_safe|done].
Qed.

(** ** All requests *)

Lemma s_unit {A} o (p : prg A) s : inv s → osafe o p finished s → osafe o (let! _ := p in Ret tt) finished s.
Proof. intros Hinv Hp. by eapply (osafe_bind Lost st_now inv later spares fresh). Qed.

Lemma s_request o w s : inv s → (∀ s', inv s' → good_step None s' (snd (w s'))) →
  osafe o (let! _ := (write w : prg (res unit)) in Ret tt) finished s.
Proof. intros Hinv Hw. apply s_unit; [done|]. by eapply s_finished, c_any_write. Qed.

Lemma handle_safe r s : inv s → osafe None (handle sv r) finished s.
Proof.
  intros Hinv. destruct r; unfold handle.
  - by apply s_unit, Submit_safe.
  - apply s_unit; [done|]. by eapply s_finished, Cancel_calm.
  - apply s_unit; [done|]. by eapply s_finished, DeleteRecord_calm.
  - apply s_unit; [done|]. by eapply s_finished, Pipeline_calm.
  - apply s_unit; [done|]. by eapply s_finished, recover_calm.
  - apply s_unit; [done|]. by eapply s_finished, Cleanup_calm.
  - apply s_unit; [done|]. by eapply s_finished, DeleteOutputs_calm.
  - apply s_request; [done|]. intros. by apply touch_ok.
  - apply s_request; [done|]. intros. by apply archive_ok.
  - apply s_request; [done|]. intros. by apply balance_ok.
  - apply s_request; [done|]. intros. by apply delete_user_ok.
Qed.
End programs.
End BatchSafety.
