(* ===== verification/BatchTheorems.v ===== *)
(** * What holds of batch images in every run

    The theorems about all runs of the programs of [BatchImage]: whatever requests
    arrive, however their calls interleave, fail or stop half-way, and whatever the
    systems outside the database answer. *)

From Stdlib Require Import QArith Qabs Lqa.
From S2P Require Import Prelude Float64 GoStrings PaymentOrder BatchRequest Database Interleaving Ownership BatchStore BatchImage BatchIndex BatchInvariant BatchSafety.

Module BatchTheorems.
Import GoStrings BatchRequest BatchStore BatchImage BatchIndex BatchInvariant BatchSafety.

(** Nothing was submitted or billed yet, and no balance is frozen. *)
Record initial (s : Store) : Prop := {
  in_claims : st_dedup s = ∅ ∧ st_archive s = ∅;
  in_jobs : st_jobs s = ∅ ∧ st_items s = ∅;
  in_journal : st_journal s = [];
  in_frozen : ∀ u w, st_users s !! u = Some w → frozen w = 0
}.

Section theorems.
Context `{Database} `{Numeric} `{Hashing} `{Unicode} `{UnicodeFold} (sv : Service).

Abbreviation event := (Interleaving.event (Q := question) (Req := request)).

(** The workers and the tables after the events [es]. *)
Definition run_from (s : Store) (es : list event) := run_events Lost st_now advance (handle sv) (mkConfig s []) es.
Definition reach (es : list event) (s : Store) : Store := cf_store (run_from s es).

Lemma initial_inv s : initial s → inv (small sv) s.
Proof.
  intros [[Hd Ha] [Hj Hi] HL Hf]. split.
  - by rewrite HL.
  - rewrite HL. intros e He. by apply not_elem_of_nil in He.
  - intros k. unfold is_claimed. rewrite Hd, Ha, HL, !lookup_empty. simpl. rewrite elem_of_nil.
    split; [by intros [[? ?]|[? ?]]|done].
  - intros u w Hu. rewrite HL, (Hf u w Hu). simpl. lia.
  - intros b j. by rewrite Hj, lookup_empty.
  - intros b _. unfold items_of. by rewrite Hi, lookup_empty.
Qed.

Abbreviation pool_ok := (opool_ok (Q := question) (A := unit) Lost st_now (inv (small sv)) (later (small sv)) (spares (small sv)) fresh).

Lemma run_ok s0 s es : inv (small sv) s → later (small sv) s0 s → pool_ok s0 (mkConfig s []) → pool_ok s0 (run_from s es).
Proof.
  intros Hinv HL Hp. apply (owned_run_ok Lost st_now advance (inv (small sv)) (later (small sv)) (spares (small sv)) fresh
    (fresh_stays (small sv)) (handle sv) (λ _, True) s0); [|by apply clock_ok|done|by apply Forall_true; intros []].
  intros r s' _ _ Hi. by apply handle_safe.
Qed.

Lemma batches_ok es s : initial s → inv (small sv) (reach es s) ∧ later (small sv) s (reach es s).
Proof.
  intros Hs. apply initial_inv in Hs. destruct (run_ok s s es) as (? & ? & _); [done|done| |done].
  split_and!; [done|simpl; reflexivity|]. exists []. by split.
Qed.

(** Two moments of one run. *)
Lemma reach_later es es' s : initial s → later (small sv) (reach es s) (reach (es ++ es') s).
Proof.
  intros Hs. destruct (run_ok s s es) as (Hinv & HL & Hos); [by apply initial_inv|done| |].
  { split_and!; [by apply initial_inv|simpl; reflexivity|]. exists []. by split. }
  unfold reach, run_from, run_events. rewrite foldl_app.
  apply (owned_run_ok Lost st_now advance (inv (small sv)) (later (small sv)) (spares (small sv)) fresh
    (fresh_stays (small sv)) (handle sv) (λ _, True) (reach es s)).
  - intros r s' _ _ Hi. by apply handle_safe.
  - by apply clock_ok.
  - by split_and!.
  - by apply Forall_true; intros [].
Qed.

(** ** Money *)

Definition op_of (e : entry) : hold_op * bytes := (en_op e, c_BatchID (en_cmd e)).

Lemma journal_at L b e s : inv (small sv) s → st_journal s = L → e ∈ L → c_BatchID (en_cmd e) = b →
  ∃ L2, entry_ok e L2 ∧ (∀ x, x ∈ L2 → x ∈ L) ∧ ∃ j, st_jobs s !! b = Some j ∧ for_job (j_Params j) (en_cmd e).
Proof.
  intros Hinv <- He <-. destruct (journal_ok_elem _ _ (inv_journal _ _ Hinv) He) as (L1 & L2 & HL & Hok).
  exists L2. split_and!; [done| |by apply (inv_entries _ _ Hinv)].
  intros x Hx. rewrite HL. apply elem_of_app. right. by apply list_elem_of_further.
Qed.

Lemma journal_once s e e' : inv (small sv) s → e ∈ st_journal s → e' ∈ st_journal s → op_of e = op_of e' → e = e'.
Proof.
  intros Hinv He He' [= Hop Hb].
  destruct (journal_at _ _ e s Hinv eq_refl He eq_refl) as (_ & [Hr _ _ _ _ _ _] & _ & j & Hj & Hk & _).
  destruct (journal_at _ _ e' s Hinv eq_refl He' eq_refl) as (_ & [Hr' _ _ _ _ _ _] & _ & j' & Hj' & Hk' & _).
  rewrite <- Hb in Hj'. simplify_eq. apply (NoDup_fmap_elem key_of (st_journal s)); [|done|done|].
  - by apply journal_keys_unique, (inv_journal _ _ Hinv).
  - unfold key_of. rewrite Hr, Hr', Hop, Hb. congruence.
Qed.

(** C14: in every run, a billing operation is applied at most once for a batch: the
    journal holds at most one reservation, one capture and one release of it, each
    with the user, the API key and the amount the batch was created with. *)
Theorem hold_moves_once es s : initial s →
  NoDup (op_of <$> st_journal (reach es s)) ∧
  ∀ e, e ∈ st_journal (reach es s) →
    ∃ j, st_jobs (reach es s) !! c_BatchID (en_cmd e) = Some j ∧ for_job (j_Params j) (en_cmd e).
Proof.
  intros Hs. destruct (batches_ok es s Hs) as [Hinv _]. split; [|apply (inv_entries _ _ Hinv)].
  apply NoDup_fmap_2_strong; [intros; by eapply journal_once|].
  eapply NoDup_fmap_1, journal_keys_unique, (inv_journal _ _ Hinv).
Qed.

(** The reservation behind a job: applied to the user's wallet, for the job's hold. *)
Definition backed (b : bytes) (j : BatchImageJob) (s : Store) : Prop :=
  ∃ e w w', e ∈ st_journal s ∧ concerns Reserve b e ∧ for_job (j_Params j) (en_cmd e) ∧
            en_move e = Some (w, w') ∧ moved Reserve (en_cmd e) w w'.

Lemma held_positive p c : for_job p c → held p = true → positive (c_HoldAmount c) = true.
Proof. intros (_ & _ & _ & <-). done. Qed.

Lemma reserve_backs b j s : inv (small sv) s → st_jobs s !! b = Some j → held (j_Params j) = true →
  applied Reserve b (st_journal s) → backed b j s.
Proof.
  intros Hinv Hj Hh (e & He & Hop & Hb).
  destruct (journal_at _ b e s Hinv eq_refl He Hb) as (L2 & Hok & _ & j' & Hj' & Hfor). simplify_eq.
  destruct (eo_reserve _ _ Hok Hop (held_positive _ _ Hfor Hh)) as [[w w'] Hm]. exists e, w, w'. split_and!; [done|done|done|done|].
  rewrite <- Hop. by apply (eo_moved _ _ Hok).
Qed.

(** C15: in every run, a job the provider is working on is covered: its hold was
    taken from its user's balance and was neither captured nor released. *)
Theorem live_job_backed es s b j : initial s → st_jobs (reach es s) !! b = Some j → live (j_Status j) = true →
  ¬ applied Capture b (st_journal (reach es s)) ∧ ¬ applied Release b (st_journal (reach es s)) ∧
  (held (j_Params j) = true → backed b j (reach es s)).
Proof.
  intros Hs Hj Hl. destruct (batches_ok es s Hs) as [Hinv _]. pose proof (inv_jobs _ _ Hinv _ _ Hj) as Hok. split_and!.
  - apply (jo_uncaptured _ _ _ _ _ Hok). by destruct (j_Status j).
  - by apply (jo_unreleased _ _ _ _ _ Hok).
  - intros Hh. apply reserve_backs; [done|done|done|]. apply (jo_backed _ _ _ _ _ Hok); [|done]. by destruct (j_Status j).
Qed.

Lemma add_near b q : (Qabs (inject_Z (add b q - b) - q) <= 1 # 2)%Q.
Proof.
  unfold add. pose proof (round_scale_near (inject_Z b + q)) as Hr. revert Hr. generalize (round_scale (inject_Z b + q)). intros z Hz.
  unfold Z.sub. rewrite inject_Z_plus, inject_Z_opp. eapply Qle_trans; [|exact Hz]. apply Qle_lteq. right.
  apply Qabs_wd. ring.
Qed.

(** What an applied command added to its user's available balance. *)
Definition credited (e : entry) : Z :=
  match en_move e with Some (w, w') => balance w' - balance w | None => 0 end.

Definition within (z : Z) (q eps : Q) : Prop := (Qabs (inject_Z z - q) <= eps)%Q.

Lemma within_sum z1 z2 q1 q2 e1 e2 : within z1 q1 e1 → within z2 q2 e2 → within (z1 + z2) (q1 + q2) (e1 + e2).
Proof.
  unfold within. intros H1' H2'. rewrite inject_Z_plus. eapply Qle_trans; [|by apply Qplus_le_compat].
  eapply Qle_trans; [|apply Qabs_triangle]. apply Qle_lteq. right. apply Qabs_wd. ring.
Qed.

Lemma within_wd z q q' e e' : (q == q')%Q → within z q e → (e <= e')%Q → within z q' e'.
Proof. unfold within. intros E. rewrite E. apply Qle_trans. Qed.

Lemma moved_credit op e w w' : en_move e = Some (w, w') → moved op (en_cmd e) w w' →
  within (credited e) (match op with
                       | Reserve => - numeric (c_HoldAmount (en_cmd e))
                       | Capture => numeric (c_HoldAmount (en_cmd e)) - numeric (c_ActualAmount (en_cmd e))
                       | Release => numeric (c_HoldAmount (en_cmd e))
                       end) (1 # 2).
Proof.
  unfold credited. intros -> Hm. destruct op; [destruct Hm as [_ ->]|destruct Hm as (_ & _ & _ & ->)|destruct Hm as [_ ->]]; cbn [balance].
  - apply add_near.
  - eapply within_wd; [|apply add_near|apply Qle_refl]. set (h := numeric _). set (a := numeric _).
    destruct (Qle_bool h a) eqn:E1, (Qle_bool a h) eqn:E2; rewrite ?Qle_bool_iff in *; try lra.
    exfalso. destruct (Qlt_le_dec h a) as [Hlt|Hle].
    + apply Qlt_le_weak, Qle_bool_iff in Hlt. congruence.
    + apply Qle_bool_iff in Hle. congruence.
  - apply add_near.
Qed.

(** C16: in every run, a job that is completed was charged once: its hold was
    captured, for an amount that exceeds the hold by 10^-8 dollars at most; and if
    there was something to hold, the reservation and the capture together took that
    amount from the user's balance, up to the rounding of two stored values. *)
Theorem completed_job_charged es s b j : initial s → st_jobs (reach es s) !! b = Some j → settled (j_Status j) = true →
  ∃ e, e ∈ st_journal (reach es s) ∧ concerns Capture b e ∧ for_job (j_Params j) (en_cmd e) ∧
    (held (j_Params j) = true →
       Float.lt (Float.decimal 1 8) (Float.sub (c_ActualAmount (en_cmd e)) (c_HoldAmount (en_cmd e))) = false ∧
       ∃ e0, e0 ∈ st_journal (reach es s) ∧ concerns Reserve b e0 ∧ for_job (j_Params j) (en_cmd e0) ∧
             within (credited e0 + credited e) (- numeric (c_ActualAmount (en_cmd e))) 1).
Proof.
  intros Hs Hj Hst. destruct (batches_ok es s Hs) as [Hinv _]. pose proof (inv_jobs _ _ Hinv _ _ Hj) as Hok.
  destruct (jo_captured _ _ _ _ _ Hok Hst) as (e & He & Hop & Hb). exists e.
  destruct (journal_at _ b e _ Hinv eq_refl He Hb) as (L2 & Hent & _ & j' & Hj' & Hfor). simplify_eq.
  split_and!; [done|by split|done|]. intros Hh. pose proof (held_positive _ _ Hfor Hh) as Hpos.
  destruct (en_move e) as [[w w']|] eqn:Hm; [|by destruct (eo_capture _ _ Hent Hop Hm); congruence].
  pose proof (eo_moved _ _ Hent _ _ Hm) as Hmv. rewrite Hop in Hmv. split; [by destruct Hmv as (_ & ? & _)|].
  destruct (reserve_backs _ j _ Hinv Hj Hh) as (e0 & w0 & w0' & He0 & Hc0 & Hf0 & Hm0 & Hmv0).
  { apply (jo_backed _ _ _ _ _ Hok); [|done]. by destruct (j_Status j). }
  exists e0. split_and!; [done|done|done|].
  eapply within_wd; [|by apply within_sum; [eapply (moved_credit Reserve)|eapply (moved_credit Capture)]|by vm_compute].
  destruct Hfor as (_ & _ & _ & <-), Hf0 as (_ & _ & _ & <-). ring.
Qed.

(** What an applied command is to do to the frozen balance. *)
Definition froze (e : entry) : Q :=
  match en_move e, en_op e with
  | None, _ => 0
  | Some _, Reserve => numeric (c_HoldAmount (en_cmd e))
  | Some _, _ => - numeric (c_HoldAmount (en_cmd e))
  end.

(** C17: in every run, a user's frozen balance is never negative and is what the
    applied commands of that user put there: each reservation added its hold and each
    capture or release took it out, up to the rounding of a stored value; and a hold
    is taken out only when it was reserved before. *)
Theorem frozen_accounts es s u w : initial s → st_users (reach es s) !! u = Some w →
  0 ≤ frozen w ∧ frozen w = sumZ (dfrozen u) (st_journal (reach es s)) ∧
  ∀ e, e ∈ st_journal (reach es s) → c_UserID (en_cmd e) = u →
    within (dfrozen u e) (froze e) (1 # 2) ∧
    (en_op e ≠ Reserve → positive (c_HoldAmount (en_cmd e)) = true → is_Some (en_move e) →
     applied Reserve (c_BatchID (en_cmd e)) (st_journal (reach es s))).
Proof.
  intros Hs Hu. destruct (batches_ok es s Hs) as [Hinv _]. destruct (inv_wallets _ _ Hinv u w Hu) as [Hsum Hpos].
  split_and!; [done|done|]. intros e He Hue.
  destruct (journal_at _ _ e _ Hinv eq_refl He eq_refl) as (L2 & Hent & Hsub & _). split.
  - unfold dfrozen, froze. rewrite Hue, Z.eqb_refl. destruct (en_move e) as [[w0 w1]|] eqn:Hm; [|by vm_compute].
    pose proof (eo_moved _ _ Hent _ _ Hm) as Hmv.
    destruct (en_op e); [destruct Hmv as [_ ->]|destruct Hmv as (_ & _ & _ & ->)|destruct Hmv as [_ ->]]; apply add_near.
  - intros Hop Hp Hm. destruct (eo_backed _ _ Hent Hop Hp Hm) as (x & Hx & Hc). exists x. split; [by apply Hsub|done].
Qed.

(** ** Jobs *)

(** Between two moments of a run a job keeps what it was created with and only
    moves forward: a completed job stays completed (or its output is deleted), a
    failed one stays failed, nothing leaves the settlement but into these, and what
    was billed stays billed.  The identifiers of a job that the provider took are
    the same at both moments. *)
Theorem job_moves_forward es es' s b j : initial s → st_jobs (reach es s) !! b = Some j →
  ∃ j', st_jobs (reach (es ++ es') s) !! b = Some j' ∧ j_Params j' = j_Params j ∧ j_ID j' = j_ID j ∧
    (settled (j_Status j) = true → settled (j_Status j') = true) ∧
    (j_Status j = Failed → j_Status j' = Failed) ∧
    (j_Status j = Settling → j_Status j' ∈ [Settling; Completed; OutputDeleted; Failed]) ∧
    (pre (j_Status j) = false → pre (j_Status j') = false) ∧
    (past (j_Status j) = true → past (j_Status j') = true) ∧
    (∀ op, applied op b (st_journal (reach es s)) → applied op b (st_journal (reach (es ++ es') s))) ∧
    (small sv → sent (j_Status j) = true → sent (j_Status j') = true →
       i_CustomID <$> items_of (reach (es ++ es') s) b ≡ₚ i_CustomID <$> items_of (reach es s) b).
Proof.
  intros Hs Hj. pose proof (reach_later es es' s Hs) as HL. destruct (lt_jobs _ _ _ HL _ _ Hj) as (j' & Hj' & [Hp Hid Hm _]).
  exists j'. split_and!; [done|done|done| | | | | | |].
  - intros Hx. by destruct (j_Status j), (j_Status j').
  - intros Hx. rewrite Hx in Hm. by apply bool_decide_eq_true in Hm.
  - intros Hx. rewrite Hx in Hm. destruct (j_Status j'); try done; set_solver.
  - intros Hx. destruct (pre (j_Status j')) eqn:E; [|done]. rewrite (pre_back _ _ Hm E) in Hx. done.
  - by apply past_stays.
  - intros op. intros Ha. by eapply applied_later.
  - intros Hsm Hs1 Hs2. by eapply (lt_items _ _ _ HL).
Qed.

(** In every run, when at most 499 images a job are allowed, a job the provider
    took has the items it was created with, each identifier once, and once it is
    indexed its successes and failures add up to them: the settlement never finds
    invalid counts. *)
Theorem indexed_job_counted es s b j : initial s → small sv → st_jobs (reach es s) !! b = Some j →
  sent (j_Status j) = true →
  NoDup (i_CustomID <$> items_of (reach es s) b) ∧ lenZ (items_of (reach es s) b) = ItemCount (j_Params j) ∧
  (live (j_Status j) = false →
   0 ≤ j_SuccessCount j ∧ 0 ≤ j_FailCount j ∧ j_SuccessCount j + j_FailCount j = ItemCount (j_Params j)).
Proof.
  intros Hs Hsm Hj Hst. destruct (batches_ok es s Hs) as [Hinv _]. pose proof (inv_jobs _ _ Hinv _ _ Hj) as Hok.
  destruct (jo_items _ _ _ _ _ Hok Hsm Hst) as (? & ? & _). split_and!; [done|done|].
  intros Hl. exact (jo_counted _ _ _ _ _ Hok Hsm Hst Hl).
Qed.
End theorems.
End BatchTheorems.
