(* ===== verification/BatchLiveness.v ===== *)
(** * What a worker whose calls succeed achieves

    After any run, from the tables it left: a settlement charges the job and
    completes it, the hold of a job that failed is given back, and the provider's
    output becomes the job's items. *)

From Stdlib Require Import QArith.
From S2P Require Import Prelude Float64 GoStrings PaymentOrder BatchRequest Database Interleaving Ownership BatchStore BatchImage BatchIndex BatchInvariant BatchSafety BatchTheorems.

Module BatchLiveness.
Import GoStrings BatchRequest BatchStore BatchImage BatchIndex BatchInvariant BatchSafety BatchTheorems.

Section liveness.
Context `{Database} `{Numeric} `{Hashing} `{Unicode} `{UnicodeFold} (sv : Service).

(** ** Rules *)

Section rules.
Context (B : choice → Prop) (no_fault : ∀ c : choice (Q := question), B c → ch_fault c = NoFault).
Abbreviation wp := (Interleaving.wp Lost st_now B).

Lemma l_read {A X} (q : Store → res A) (k : res A → prg X) Q s : wp (k (q s)) Q s → wp (bind (read q) k) Q s.
Proof using no_fault. intros Hk c Hc. simpl. by rewrite no_fault. Qed.

Lemma l_write {A X} (w : Store → res A * Store) (k : res A → prg X) Q s :
  wp (k (fst (w s))) Q (snd (w s)) → wp (bind (write w) k) Q s.
Proof using no_fault. intros Hk c Hc. simpl. rewrite no_fault by done. by destruct (w s). Qed.

Lemma l_ask {A X} (q : question A) (k : A → prg X) Q s :
  (∀ c, B c → wp (k (ch_answer c _ q)) Q s) → wp (bind (ask q) k) Q s.
Proof using. intros Hk c Hc. by apply Hk. Qed.

Lemma l_clock {X} (k : time → prg X) Q s : wp (k (st_now s)) Q s → wp (bind clock k) Q s.
Proof using. intros Hk c _. done. Qed.

Lemma l_try_read {A X} (q : Store → res A) (k : A → prg (res X)) a Q s :
  q s = Ok a → wp (k a) Q s → wp (on_ok (read q) k) Q s.
Proof using no_fault. intros Hq Hk. apply l_read. by rewrite Hq. Qed.

Lemma l_try_write {A X} (w : Store → res A * Store) (k : A → prg (res X)) a s' Q s :
  w s = (Ok a, s') → wp (k a) Q s' → wp (on_ok (write w) k) Q s.
Proof using no_fault. intros Hw Hk. apply l_write. by rewrite Hw. Qed.

Lemma l_bind {A X} (p : prg A) (k : A → prg X) P Q s :
  wp p P s → (∀ a s', P a s' → wp (k a) Q s') → wp (bind p k) Q s.
Proof using. intros Hp Hk. apply wp_bind. by eapply wp_mono. Qed.
End rules.

(** ** Billing commands that are applied *)

(** The store after an applied command. *)
Definition after_hold (op : hold_op) (c : HoldCommand) (move : option (Wallet * Wallet)) (s s' : Store) : Prop :=
  st_jobs s' = st_jobs s ∧ st_items s' = st_items s ∧ st_now s' = st_now s ∧
  st_journal s' = mkEntry op (Normalize c) move :: st_journal s ∧
  st_users s' = match move with
                | Some (_, w') => <[c_UserID c := w']> (st_users s)
                | None => st_users s
                end.

Lemma build_ok job rid actual ph key : APIKeyID (j_Params job) = Some key → 0 < key →
  ∃ c, buildBatchImageHoldCommand job rid actual ph = Ok c ∧ c_UserID c = UserID (j_Params job) ∧
       c_HoldAmount c = clamp0 (hold_of (j_Params job)) ∧ c_ActualAmount c = clamp0 actual.
Proof.
  intros Hk Hpos. unfold buildBatchImageHoldCommand. rewrite Hk. destruct (Z.leb_spec key 0); [lia|]. by eexists.
Qed.

Lemma normalize_spec c : c_UserID (Normalize c) = c_UserID c ∧ c_HoldAmount (Normalize c) = c_HoldAmount c ∧
  c_ActualAmount (Normalize c) = c_ActualAmount c ∧ c_APIKeyID (Normalize c) = c_APIKeyID c.
Proof. unfold Normalize. by case_bool_decide. Qed.

Lemma hold_of_batch op job actual ph c : Forall visible (BatchID (j_Params job)) →
  buildBatchImageHoldCommand job (request_id op (BatchID (j_Params job))) actual ph = Ok c →
  c_BatchID (Normalize c) = BatchID (j_Params job).
Proof. intros Hv Hb. by destruct (build_spec op job actual ph c Hv Hb) as ((_ & _ & <- & _) & _). Qed.

(** A command whose request was not claimed, and whose statement succeeds. *)
Lemma apply_succeeds op job actual ph c j s : inv (small sv) s → st_jobs s !! BatchID (j_Params job) = Some j →
  j_Params j = j_Params job → ¬ applied op (BatchID (j_Params job)) (st_journal s) →
  buildBatchImageHoldCommand job (request_id op (BatchID (j_Params job))) actual ph = Ok c →
  ∀ move f, (let k := (c_RequestID (Normalize c), c_APIKeyID (Normalize c)) in
     let s1 := with_claims (<[k := c_Fingerprint (Normalize c)]> (st_dedup s)) (st_archive s) s in
     hold_statement op (Normalize c) s1 = Ok (move, with_users f s1)) →
  f (st_users s) = match move with Some (_, w') => <[c_UserID c := w']> (st_users s) | None => st_users s end →
  ∃ s', applyBatchImageBalanceHold op c s = (Ok true, s') ∧ after_hold op c move s s'.
Proof.
  intros Hinv Hj Hp Hna Hb move f Hst Hf.
  pose proof (jo_visible _ _ _ _ _ (inv_jobs _ _ Hinv _ _ Hj)) as Hv.
  destruct (build_spec op job actual ph c Hv Hb) as (Hfor & Hrid & _).
  assert (Hno : ¬ is_claimed (c_RequestID (Normalize c), c_APIKeyID (Normalize c)) s).
  { rewrite Hrid. intros Hcl. by eapply Hna, claim_applied. }
  unfold applyBatchImageBalanceHold. cbv zeta. rewrite bool_decide_eq_false_2.
  2: { rewrite Hrid. unfold request_id. by destruct op. }
  unfold claim. destruct (st_dedup s !! _) as [x|] eqn:Hd; [by destruct Hno; left|].
  destruct (st_archive s !! _) as [x|] eqn:Ha; [by destruct Hno; right|]. cbv zeta in Hst. rewrite Hst.
  eexists. split; [done|]. by split_and!.
Qed.

(** ** Settlement *)

Definition calls_succeed (c : choice (Q := question)) : Prop := ch_fault c = NoFault.
Abbreviation wp := (Interleaving.wp Lost st_now calls_succeed).

Definition actual_cost (j : BatchImageJob) : float64 :=
  Float.mul (Float.of_Z (j_SuccessCount j)) (p_BillableUnitPrice (j_Params j)).

(** What a settlement needs of the row, of the user's wallet and of the other rows. *)
Record settleable (s : Store) (b : bytes) (j : BatchImageJob) (w : Wallet) : Prop := {
  se_status : j_Status j = Settling;
  se_key : ∃ k, APIKeyID (j_Params j) = Some k ∧ 0 < k;
  se_account : ∃ a, AccountID (j_Params j) = Some a ∧ 0 < a;
  se_tries : j_RetryCount j < batchImageSettlementMaxRetries;
  se_manifest : j_ManifestHash j = None ∧ manifest_taken b (BuildBatchImageSettlementManifestHash j) s = false;
  se_price : 1 ≤ PricingSnapshotVersion (j_Params j) ∧ Float.lt (p_BillableUnitPrice (j_Params j)) Float.zero = false;
  se_cost : Float.lt (actual_cost j) Float.zero = false ∧ Float.finite (actual_cost j) = true;
  se_within : Float.lt (Float.decimal 1 8) (Float.sub (actual_cost j) (hold_of (j_Params j))) = false;
  se_uncaptured : ¬ applied Capture b (st_journal s);
  se_wallet : st_users s !! UserID (j_Params j) = Some w;
  se_hold : held (j_Params j) = true ∧ at_least (frozen w) (hold_of (j_Params j)) = true
}.

Lemma held_clamp p : held p = true → clamp0 (hold_of p) = hold_of p.
Proof. unfold held, positive, clamp0. destruct (Float.lt _ _); [by intros|done]. Qed.

Lemma not_exhausted j : j_RetryCount j < batchImageSettlementMaxRetries → isBatchImageSettlementRetryExhausted j = false.
Proof.
  unfold isBatchImageSettlementRetryExhausted. intros Hr. destruct (Z.leb_spec batchImageSettlementMaxRetries (j_RetryCount j)); [lia|].
  by destruct (bool_decide (j_Status j = Settling)).
Qed.

(** The capture of a settleable job. *)
Lemma capture_succeeds s b j w ph : inv (small sv) s → st_jobs s !! b = Some j → settleable s b j w →
  wp (captureBatchImageBalanceHold j (actual_cost j) ph)
     (λ r s', r = Ok tt ∧ ∃ e w', st_journal s' = e :: st_journal s ∧ concerns Capture b e ∧ en_move e = Some (w, w') ∧
        moved Capture (en_cmd e) w w' ∧ c_ActualAmount (en_cmd e) = actual_cost j ∧
        st_users s' = <[UserID (j_Params j) := w']> (st_users s) ∧ st_jobs s' = st_jobs s) s.
Proof.
  intros Hinv Hj [_ (k & Hk & Hkp) _ _ _ _ [Hc0 Hfin] Hwithin Hunc Hw [Hheld Hfr]].
  pose proof (jo_id _ _ _ _ _ (inv_jobs _ _ Hinv _ _ Hj)) as Hid.
  pose proof (held_clamp _ Hheld) as Hclamp. assert (Hca : clamp0 (actual_cost j) = actual_cost j) by (unfold clamp0; by rewrite Hc0).
  unfold captureBatchImageBalanceHold.
  destruct (build_ok j (request_id Capture (BatchID (j_Params j))) (actual_cost j) ph k Hk Hkp) as (c & Hb & Hu & Hh & Ha).
  rewrite Hb. apply l_write; [done|]. rewrite Hclamp in Hh. rewrite Hca in Ha.
  set (h := numeric (hold_of (j_Params j))). set (a := numeric (actual_cost j)).
  set (w' := mkWallet (add (balance w) ((if Qle_bool h a then 0 else h - a) - (if Qle_bool a h then 0 else a - h))) (add (frozen w) (- h))).
  assert (Hpos : positive (hold_of (j_Params j)) = true) by (unfold held in Hheld; by rewrite Hclamp in Hheld).
  destruct (apply_succeeds Capture j (actual_cost j) ph c j s Hinv) with (move := Some (w, w')) (f := λ m : gmap Z Wallet, <[c_UserID c := w']> m)
    as (s' & Hap & HJ & HI & HN & HL & HU); [by rewrite Hid|done|by rewrite Hid|done| |done|].
  - cbn [hold_statement]. unfold captureUsageBillingBatchImageBalance, update_wallet.
    destruct (normalize_spec c) as (-> & -> & -> & _). cbv zeta. rewrite Hh, Ha, Hpos, Hwithin, Hfin. simpl.
    by rewrite Hu, Hw, Hfr.
  - rewrite Hap. cbn [fst snd]. split; [done|]. eexists _, w'. split; [exact HL|]. split; [split; [done|]|split; [done|split; [|split; [|by split; [rewrite HU, Hu|]]]]].
    + rewrite <- Hid. eapply hold_of_batch; [|exact Hb]. rewrite Hid. apply (jo_visible _ _ _ _ _ (inv_jobs _ _ Hinv _ _ Hj)).
    + unfold moved. simpl. destruct (normalize_spec c) as (_ & -> & -> & _). rewrite Hh, Ha. by split_and!.
    + simpl. by destruct (normalize_spec c) as (_ & _ & -> & _).
Qed.

(** The job completed with its charge, by one capture from [w]. *)
Definition charged (s : Store) (b : bytes) (j : BatchImageJob) (w : Wallet) (s' : Store) : Prop :=
  (∃ j', st_jobs s' !! b = Some j' ∧ j_Status j' = Completed ∧ j_Params j' = j_Params j ∧
     j_ActualCost j' = Some (decimal10 (actual_cost j))) ∧
  ∃ e w', st_journal s' = e :: st_journal s ∧ concerns Capture b e ∧ en_move e = Some (w, w') ∧
     moved Capture (en_cmd e) w w' ∧ c_ActualAmount (en_cmd e) = actual_cost j ∧
     st_users s' = <[UserID (j_Params j) := w']> (st_users s).

Lemma manifest_taken_jobs b m s s' : st_jobs s' = st_jobs s → manifest_taken b m s' = manifest_taken b m s.
Proof. unfold manifest_taken, jobs. by intros ->. Qed.

Lemma settle_at_completes s b j w : inv (small sv) s → st_jobs s !! b = Some j → settleable s b j w →
  wp (settle_at j (p_BillableUnitPrice (j_Params j))) (λ r s', r = Ok false ∧ charged s b j w s') s.
Proof.
  intros Hinv Hj Hse. pose proof Hse as [Hst _ _ _ [Hm Hmt] _ _ Hwi _ _ _].
  pose proof (jo_id _ _ _ _ _ (inv_jobs _ _ Hinv _ _ Hj)) as Hid. unfold settle_at. cbv zeta. fold (actual_cost j). unfold batchImageCostEpsilon. rewrite Hwi.
  eapply l_bind; [eapply capture_succeeds; [exact Hinv|exact Hj|exact Hse]|]. intros r s1 (-> & e & w' & HL & Hc & Hmv & Hmoved & Ha & HU & HJ).
  apply l_clock. eapply (l_try_write _ (λ c Hc, Hc)).
  - unfold mark_settled. rewrite Hid, HJ, Hj, Hst, Hm. cbn [andb orb bool_decide].
    rewrite (manifest_taken_jobs _ _ _ _ HJ), Hmt.
    reflexivity.
  - split; [reflexivity|]. split; [eexists; split; [apply lookup_insert_eq|split; [reflexivity|split; reflexivity]]|].
    exists e, w'. exact (conj HL (conj Hc (conj Hmv (conj Hmoved (conj Ha HU))))).
Qed.

Lemma Settle_completes s b j w : inv (small sv) s → small sv → st_jobs s !! b = Some j → settleable s b j w →
  wp (Settle b) (λ r s', r = Ok false ∧ charged s b j w s') s.
Proof.
  intros Hinv Hsm Hj Hse. pose proof Hse as [Hst (k & Hk & Hkp) (a & Ha & Hap) Htr [Hm _] [Hv Hpr] _ _ _ _ _].
  destruct (jo_counted _ _ _ _ _ (inv_jobs _ _ Hinv _ _ Hj) Hsm) as (Hs & Hf & Hn); [by rewrite Hst..|].
  unfold Settle. eapply (l_try_read _ (λ c Hc, Hc)); [unfold job_by_batch_id; by rewrite Hj|]. cbv zeta.
  rewrite Hst, Hk, Ha, Hm, (not_exhausted _ Htr). cbn [negb bool_decide].
  destruct (Z.leb_spec k 0); [lia|]. destruct (Z.leb_spec a 0); [lia|].
  destruct (Z.ltb_spec (j_SuccessCount j) 0), (Z.ltb_spec (j_FailCount j) 0), (Z.ltb_spec (ItemCount (j_Params j)) 0),
    (Z.ltb_spec (ItemCount (j_Params j)) (j_SuccessCount j + j_FailCount j)); try lia. cbn.
  unfold settlementUnitPrice. destruct (Z.leb_spec 1 (PricingSnapshotVersion (j_Params j))); [|lia].
  cbn [bind]. rewrite Hpr. cbn match. rewrite Hpr. by apply settle_at_completes.
Qed.

(** C18: after any run, one settlement whose calls succeed charges a job that is
    ready for it and completes it: the pipeline ends, the row carries the charge, and
    exactly one capture of the hold was applied to the user's wallet. *)
Theorem settlement_completes es s b j w ch : initial s → small sv →
  st_jobs (reach sv es s) !! b = Some j → settleable (reach sv es s) b j w → (∀ i, calls_succeed (ch i)) →
  fst (run Lost st_now (Pipeline sv b) ch (reach sv es s)) = Ok Terminal ∧
  charged (reach sv es s) b j w (snd (run Lost st_now (Pipeline sv b) ch (reach sv es s))).
Proof.
  intros Hs Hsm Hj Hse Hch. destruct (batches_ok sv es s Hs) as [Hinv _].
  apply (wp_run Lost st_now calls_succeed _ (λ r s', r = Ok Terminal ∧ charged (reach sv es s) b j w s')); [done|].
  unfold Pipeline. eapply (l_try_read _ (λ c Hc, Hc)); [unfold job_by_batch_id; by rewrite Hj|].
  rewrite (se_status _ _ _ _ Hse). cbn [negb bool_decide].
  eapply l_bind; [by apply Settle_completes|]. by intros r s1 [-> Hch1].
Qed.

(** ** The hold of a job that failed *)

Record releasable (s : Store) (b : bytes) (j : BatchImageJob) (w : Wallet) : Prop := {
  re_status : j_Status j ∈ [Failed; Cancelled];
  re_key : ∃ k, APIKeyID (j_Params j) = Some k ∧ 0 < k;
  re_reserved : applied Reserve b (st_journal s);
  re_open : ¬ applied Release b (st_journal s);
  re_wallet : st_users s !! UserID (j_Params j) = Some w;
  re_hold : held (j_Params j) = true ∧ at_least (frozen w) (hold_of (j_Params j)) = true
}.

Definition given_back (s : Store) (b : bytes) (j : BatchImageJob) (w : Wallet) (s' : Store) : Prop :=
  ∃ e w', st_journal s' = e :: st_journal s ∧ concerns Release b e ∧ en_move e = Some (w, w') ∧
     w' = mkWallet (add (balance w) (numeric (hold_of (j_Params j)))) (add (frozen w) (- numeric (hold_of (j_Params j)))) ∧
     st_users s' = <[UserID (j_Params j) := w']> (st_users s) ∧ st_jobs s' = st_jobs s.

(** A reservation that was applied is found among the claims. *)
Lemma reserve_claimed s b j k : inv (small sv) s → st_jobs s !! b = Some j → APIKeyID (j_Params j) = Some k →
  applied Reserve b (st_journal s) → is_claimed (request_id Reserve b, k) s.
Proof.
  intros Hinv Hj Hk (e & He & Hop & Hb). apply (inv_claims _ _ Hinv). apply list_elem_of_fmap. exists e. split; [|done].
  destruct (journal_at sv _ b e s Hinv eq_refl He Hb) as (L2 & [Hr _ _ _ _ _ _] & _ & j' & Hj' & Hk' & _). simplify_eq.
  unfold key_of. rewrite Hr, Hop. congruence.
Qed.

Lemma release_succeeds s b j w ph : inv (small sv) s → st_jobs s !! b = Some j → releasable s b j w →
  wp (releaseBatchImageBalanceHold j ph) (λ r s', r = Ok tt ∧ given_back s b j w s') s.
Proof.
  intros Hinv Hj [_ (k & Hk & Hkp) Hres Hopen Hw [Hheld Hfr]].
  pose proof (jo_id _ _ _ _ _ (inv_jobs _ _ Hinv _ _ Hj)) as Hid. pose proof (held_clamp _ Hheld) as Hclamp.
  assert (Hv : Forall visible (BatchID (j_Params j))) by (rewrite Hid; apply (jo_visible _ _ _ _ _ (inv_jobs _ _ Hinv _ _ Hj))).
  unfold releaseBatchImageBalanceHold.
  destruct (build_ok j (request_id Release (BatchID (j_Params j))) Float.zero ph k Hk Hkp) as (c & Hb & Hu & Hh & _).
  rewrite Hb. rewrite Hclamp in Hh.
  assert (Hpos : positive (c_HoldAmount c) = true) by (unfold held in Hheld; by rewrite Hclamp, <- Hh in Hheld).
  assert (Hle : Float.le (c_HoldAmount c) Float.zero = false) by (unfold positive in Hpos; by apply negb_true_iff in Hpos).
  rewrite Hle. apply l_write; [done|]. set (h := numeric (hold_of (j_Params j))).
  set (w' := mkWallet (add (balance w) h) (add (frozen w) (- h))).
  pose proof (hold_of_batch Release j _ _ c Hv Hb) as Hcb.
  destruct (apply_succeeds Release j Float.zero ph c j s Hinv) with (move := Some (w, w')) (f := λ m : gmap Z Wallet, <[c_UserID c := w']> m)
    as (s' & Hap & HJ & HI & HN & HL & HU); [by rewrite Hid|done|by rewrite Hid|done| |done|].
  - cbn [hold_statement]. unfold releaseUsageBillingBatchImageBalance, update_wallet. rewrite Hcb, Hid.
    destruct (build_spec Release j Float.zero ph c Hv Hb) as ((HK & _) & _).
    destruct (normalize_spec c) as (-> & -> & _ & _). cbv zeta. rewrite Hpos, Hh.
    assert (Hcl : claimed (request_id Reserve b) (c_APIKeyID (Normalize c))
      (with_claims (<[(c_RequestID (Normalize c), c_APIKeyID (Normalize c)) := c_Fingerprint (Normalize c)]> (st_dedup s)) (st_archive s) s) = true).
    { apply claimed_spec. rewrite Hk in HK. injection HK as <-.
      destruct (reserve_claimed s b j k Hinv Hj Hk Hres) as [Hc|Hc]; [left|by right]. simpl.
      destruct (decide ((c_RequestID (Normalize c), k) = (request_id Reserve b, k))) as [->|Hne].
      - rewrite lookup_insert_eq. by eexists.
      - by rewrite lookup_insert_ne. }
    rewrite Hcl. simpl. by rewrite Hu, Hw, Hfr.
  - rewrite Hap. cbn [fst snd]. split; [done|]. exists (mkEntry Release (Normalize c) (Some (w, w'))), w'. split; [exact HL|].
    split; [split; [done|simpl; by rewrite Hcb]|]. split; [done|]. split; [done|]. split; [by rewrite HU, Hu|done].
Qed.

(** After any run, when a job failed or was cancelled and its hold is still
    reserved, one visit of a worker whose calls succeed gives the hold back to its
    user and leaves the job alone. *)
Theorem failed_hold_released es s b j w ch : initial s →
  st_jobs (reach sv es s) !! b = Some j → releasable (reach sv es s) b j w → (∀ i, calls_succeed (ch i)) →
  fst (run Lost st_now (Pipeline sv b) ch (reach sv es s)) = Ok Terminal ∧
  given_back (reach sv es s) b j w (snd (run Lost st_now (Pipeline sv b) ch (reach sv es s))).
Proof.
  intros Hs Hj Hre Hch. destruct (batches_ok sv es s Hs) as [Hinv _]. pose proof (re_status _ _ _ _ Hre) as Hst.
  apply (wp_run Lost st_now calls_succeed _ (λ r s', r = Ok Terminal ∧ given_back (reach sv es s) b j w s')); [done|].
  assert (Hdone : bool_decide (j_Status j = Settling) = false ∧ isBatchImageProcessorDoneStatus (j_Status j) = true)
    by (destruct (j_Status j); try done; set_solver).
  unfold Pipeline. eapply (l_try_read _ (λ c Hc, Hc)); [unfold job_by_batch_id; by rewrite Hj|].
  rewrite (proj1 Hdone). cbn [negb]. unfold Process. eapply (l_try_read _ (λ c Hc, Hc)); [unfold job_by_batch_id; by rewrite Hj|].
  rewrite (proj2 Hdone). unfold releaseTerminalHold. rewrite bool_decide_eq_true_2 by done.
  eapply l_bind; [eapply release_succeeds; [exact Hinv|exact Hj|exact Hre]|]. by intros r s1 [-> Hgb].
Qed.

(** ** Indexing *)

(** The calls succeed, the provider's account serves batches, and the output is [o]. *)
Definition delivers (o : ProviderOutput) (c : choice) : Prop :=
  ch_fault c = NoFault ∧ (∀ id, ch_answer c _ (QAccount id) = Ok true) ∧ ∀ job, ch_answer c _ (QOpenResult job) = Ok o.

Lemma delivers_calls o c : delivers o c → ch_fault c = NoFault.
Proof. by intros [? _]. Qed.

Abbreviation wpo o := (Interleaving.wp Lost st_now (delivers o)).

(** The job in settlement, with the items and the counters of the output. *)
Definition indexed (b : bytes) (j : BatchImageJob) (r : IndexResult) (s : Store) : Prop :=
  items_of s b = ix_items r ∧
  ∃ j', st_jobs s !! b = Some j' ∧ j_Status j' = Settling ∧ j_Params j' = j_Params j ∧
        j_SuccessCount j' = ix_success r ∧ j_FailCount j' = ix_fail r.

Lemma expected_read o j s Q k : ids_ok (j_Params j) (items_of s (BatchID (j_Params j))) →
  wpo o (k (i_CustomID <$> items_of s (BatchID (j_Params j)))) Q s →
  wpo o (on_ok (listExpectedCustomIDs j) k : prg (res IndexResult)) Q s.
Proof.
  intros (_ & Hlen & Hc) Hk. unfold listExpectedCustomIDs. rewrite Z.div_small by lia. simpl expected_pages.
  apply (l_read _ (delivers_calls o)). cbn [list_items].
  assert (Htake : take (Z.to_nat 500) (drop (Z.to_nat 0) (default [] (st_items s !! BatchID (j_Params j)))) =
                  items_of s (BatchID (j_Params j))).
  { unfold items_of in *. simpl drop. apply take_ge. unfold lenZ in Hlen. lia. }
  change (500 <=? 0) with false. change (500 <? 500) with false. cbn [orb]. rewrite Htake, Hlen.
  destruct (Z.ltb_spec (ItemCount (j_Params j)) 500); [|lia]. rewrite filter_all_true; [done|].
  intros x _. apply not_elem_of_nil.
Qed.

Lemma index_succeeds o j r s : let b := BatchID (j_Params j) in
  ids_ok (j_Params j) (items_of s b) → st_jobs s !! b = Some j → j_Status j = Indexing →
  index_output (i_CustomID <$> items_of s b) o = Ok r →
  wpo o (Index j) (λ x s', x = Ok r ∧ items_of s' b = ix_items r ∧
    ∃ t, st_jobs s' !! b = Some (set_updated t (set_counts (ix_success r) (ix_fail r) j))) s.
Proof.
  intros b Hids Hj Hst Hr. pose proof Hids as (Hu & Hlen & Hc).
  assert (Hne : i_CustomID <$> items_of s b ≠ []).
  { intros Hnil%fmap_nil_inv. unfold lenZ in Hlen. fold b in Hlen. rewrite Hnil in Hlen. simpl in Hlen. lia. }
  destruct (index_output_ok _ o r Hu Hne Hr) as (Hperm & _).
  unfold Index. apply expected_read; [done|]. fold b. unfold or_else. apply l_ask. intros c (_ & _ & ->). rewrite Hr.
  assert (Hreplace : ∀ s1, st_jobs s1 = st_jobs s →
    wpo o (on_ok (write (replace_items b (ix_items r) (ix_success r) (ix_fail r))) (λ _, Ret (Ok r)))
      (λ x s', x = Ok r ∧ items_of s' b = ix_items r ∧
         ∃ t, st_jobs s' !! b = Some (set_updated t (set_counts (ix_success r) (ix_fail r) j))) s1).
  { intros s1 HJ. eapply (l_try_write _ (delivers_calls o)).
    - unfold replace_items. rewrite HJ, Hj, Hst. rewrite (bool_decide_eq_true_2 (NoDup _)) by (by rewrite Hperm). reflexivity.
    - split; [done|]. split; [unfold items_of; simpl; by rewrite lookup_insert_eq|]. eexists. simpl. by rewrite lookup_insert_eq. }
  case_match.
  - apply (l_write _ (delivers_calls o)). apply Hreplace. unfold append_event. rewrite Hj. done.
  - by apply Hreplace.
Qed.

Lemma indexAndSettle_succeeds o j r s : let b := BatchID (j_Params j) in
  ids_ok (j_Params j) (items_of s b) → st_jobs s !! b = Some j → j_Status j = Indexing →
  index_output (i_CustomID <$> items_of s b) o = Ok r →
  wpo o (indexAndSettle j) (λ x s', x = Ok (RequeueAfter millisecond) ∧ indexed b j r s') s.
Proof.
  intros b Hids Hj Hst Hr. unfold indexAndSettle, or_else. eapply l_bind; [by apply index_succeeds|].
  intros x s1 (-> & Hits & t & Hj1). eapply (l_try_write _ (delivers_calls o)).
  - unfold transition. fold b in Hj1. fold b. rewrite Hj1. simpl j_Status. rewrite Hst. simpl. reflexivity.
  - split; [done|]. split; [done|]. eexists. simpl. by rewrite lookup_insert_eq.
Qed.

(** C19: after any run (at most 499 images a job), when the provider's output of a
    job in indexing can be read, one visit of a worker whose calls succeed replaces
    the items by the output's: every submitted identifier once, the line of each
    identifier that has one, a failure for each that has none; the counters are the
    numbers of successes and failures, and the job goes into settlement. *)
Theorem indexing_accounts_for_output es s b j a o r ch : initial s → small sv →
  st_jobs (reach sv es s) !! b = Some j → j_Status j = Indexing →
  IsSupportedBatchImageProvider (p_Provider (j_Params j)) = true → AccountID (j_Params j) = Some a → 0 < a →
  batchImageDerefString (j_ProviderJobName j) ≠ [] →
  index_output (i_CustomID <$> items_of (reach sv es s) b) o = Ok r → (∀ i, delivers o (ch i)) →
  let s' := snd (run Lost st_now (Pipeline sv b) ch (reach sv es s)) in
  fst (run Lost st_now (Pipeline sv b) ch (reach sv es s)) = Ok (RequeueAfter millisecond) ∧
  i_CustomID <$> items_of s' b ≡ₚ i_CustomID <$> items_of (reach sv es s) b ∧
  (∃ ps, out_lines o = Ok <$> ps ∧
     (∀ p, p ∈ ps → pr_CustomID p ∈ i_CustomID <$> items_of (reach sv es s) b → item_of p ∈ items_of s' b) ∧
     (∀ id, id ∈ i_CustomID <$> items_of (reach sv es s) b → id ∉ pr_CustomID <$> ps → missing_item id ∈ items_of s' b)) ∧
  ∃ j', st_jobs s' !! b = Some j' ∧ j_Status j' = Settling ∧ j_Params j' = j_Params j ∧
    j_SuccessCount j' = in_item_state ItemSuccess (items_of s' b) ∧ j_FailCount j' = in_item_state ItemFailed (items_of s' b).
Proof.
  intros Hs Hsm Hj Hst Hprov Ha Hap Hname Hr Hch s'. destruct (batches_ok sv es s Hs) as [Hinv _].
  pose proof (inv_jobs _ _ Hinv _ _ Hj) as Hok. pose proof (jo_id _ _ _ _ _ Hok) as Hid.
  assert (Hids : ids_ok (j_Params j) (items_of (reach sv es s) b)) by (apply (jo_items _ _ _ _ _ Hok); by rewrite ?Hst).
  assert (Hne : i_CustomID <$> items_of (reach sv es s) b ≠ []).
  { destruct Hids as (_ & Hlen & Hc). intros Hnil%fmap_nil_inv. rewrite Hnil in Hlen. unfold lenZ in Hlen. simpl in Hlen. lia. }
  assert (Hrun : fst (run Lost st_now (Pipeline sv b) ch (reach sv es s)) = Ok (RequeueAfter millisecond) ∧ indexed b j r s').
  { apply (wp_run Lost st_now (delivers o) _ (λ x s', x = Ok (RequeueAfter millisecond) ∧ indexed b j r s')); [done|].
    unfold Pipeline. eapply (l_try_read _ (delivers_calls o)); [unfold job_by_batch_id; by rewrite Hj|].
    rewrite Hst. cbn [negb bool_decide]. unfold Process.
    eapply (l_try_read _ (delivers_calls o)); [unfold job_by_batch_id; by rewrite Hj|].
    rewrite Hst, Hprov, Ha. cbn [isBatchImageProcessorDoneStatus IsTerminalBatchImageJobStatus negb orb bool_decide].
    destruct (Z.leb_spec a 0); [lia|]. apply l_ask. intros c (_ & -> & _). cbn [negb].
    rewrite (bool_decide_eq_false_2 _ Hname). rewrite <- Hid. apply indexAndSettle_succeeds; by rewrite ?Hid. }
  destruct Hrun as [Hres [Hits (j' & Hj' & Hst' & Hp' & Hsc & Hfc)]]. rewrite Hits.
  destruct (index_output_ok _ o r (proj1 Hids) Hne Hr) as (Hperm & Hsucc & Hfail & _).
  split_and!; [done|done|by apply index_output_items|]. exists j'. split_and!; [done|done|done|congruence|congruence].
Qed.
End liveness.
End BatchLiveness.
