(* ===== verification/BatchExamples.v ===== *)
(** * Runs of the batch image services at concrete inputs

    One user with ten dollars, batches of two images at five cents: what the theorems
    of [BatchTheorems] and [BatchLiveness] say of runs that can be computed, and the
    schedules that show what they leave out. *)

From Stdlib Require Import QArith.
From S2P Require Import Prelude Float64 GoStrings PaymentOrder BatchRequest Database Interleaving Ownership BatchStore BatchImage BatchIndex BatchInvariant BatchSafety BatchTheorems BatchLiveness.

Module BatchExamples.
Import GoStrings BatchRequest BatchStore BatchImage BatchIndex BatchInvariant BatchSafety BatchTheorems BatchLiveness.

#[local] Instance microseconds : Database.
Proof.
  refine {| timestamptz := λ t, t / 1000 * 1000 |}. intros t.
  pose proof (Z.div_mod t 1000 ltac:(lia)). pose proof (Z.mod_pos_bound t 1000 ltac:(lia)). lia.
Defined.
#[local] Instance decimals : Numeric := ten_decimals.
#[local] Instance no_hash : Hashing := {| sha256_hex := id; HashBatchImageSubmitRequest := λ r, Model r ++ (Items r ≫= CustomID) |}.
#[local] Instance ascii_case : Unicode := id.
#[local] Instance bytewise_fold : UnicodeFold.
Proof. refine {| EqualFold := λ a b, bool_decide (a = b); ToUpper := id |}. intros s. by apply bool_decide_eq_true_2. Defined.

Definition service : Service := mkService true (mkLimits 0 0 0 0 0 0 [] []) true false 0 0 0 0.

Definition owner : Owner := mkOwner 7 70 None.
Definition request_of (n : nat) : BatchImageSubmitRequest :=
  mkRequest (lit "gemini-flash-image") [] [] [] (repeat (mkItem [] (lit "a cat") 0 []) n) [] [] [].

Definition store0 : Store :=
  mkStore (1700000000 * second) {[7 := mkWallet (10 * 10 ^ 8) 0]} ∅ ∅ ∅ 1 ∅ [] [].

Lemma store0_initial : initial store0.
Proof.
  split; [done|done|done|]. intros u w Hu. change (st_users store0) with ({[7 := mkWallet (10 * 10 ^ 8) 0]} : gmap Z Wallet) in Hu.
  by apply lookup_singleton_Some in Hu as [_ <-].
Qed.

Definition line (id : bytes) : res ParsedBatchImageResult := Ok (mkParsed id true 1 [] 1).

(** The provider delivers the first image and leaves the second out. *)
Definition output : ProviderOutput := mkOutput [line (lit "item_000001")] None.

Definition answers (seed : ascii) (price : float64) (st : BatchProviderInternalState) (X : Type) (q : question X) : X :=
  match q in question X return X with
  | QTaskName => lit "task"
  | QGroup _ => Ok None
  | QUserRate _ _ => Ok None
  | QUnitPrice _ _ => Ok price
  | QSelect _ _ _ => Ok (mkSelection BatchImageProviderGeminiAPI 3 None None)
  | QRandom => Ok (Vector.const seed 16)
  | QProviderSubmit _ => Ok (Some (lit "batches/1", []))
  | QProviderGet _ => Ok (Some (mkStatus st (lit "files/out") [] 0))
  | QOpenResult _ => Ok output
  | QProviderCancel _ => Ok tt
  | QProviderCleanup _ _ => Ok tt
  | QAccount _ => Ok true
  | QEnqueue _ => Ok true
  end.

Definition cents5 : float64 := Float.decimal 5 2.
Definition act (f : fault) (seed : ascii) : choice := mkChoice f (answers seed cents5 StateSucceeded).
Definition fine : choice := act NoFault "a".
Definition batch (seed : ascii) : bytes := NewBatchImageID (Vector.const seed 16).

Abbreviation event := (Interleaving.event (Q := question) (Req := request)).
Definition steps (i n : nat) (c : choice) : list event := repeat (Step i c) n.

(** ** A batch from its submission to its charge *)

Definition submitted : list event := Spawn (RSubmit owner (request_of 2) []) :: steps 0 20 fine.
Definition polled : list event := submitted ++ Spawn (RWork (batch "a")) :: steps 1 6 fine.
Definition settling : list event := submitted ++ Spawn (RWork (batch "a")) :: steps 1 20 fine.
Definition paid : list event := settling ++ Spawn (RWork (batch "a")) :: steps 2 20 fine.

Definition job_after (es : list event) (b : bytes) : option BatchImageJob := st_jobs (reach service es store0) !! b.
Definition status_after (es : list event) (b : bytes) : option JobStatus := j_Status <$> job_after es b.

Example statuses : status_after submitted (batch "a") = Some Submitted ∧ status_after polled (batch "a") = Some Indexing ∧
  status_after settling (batch "a") = Some Settling ∧ status_after paid (batch "a") = Some Completed.
Proof. by vm_compute. Qed.

Definition blank : BatchImageJob :=
  mkJob 0 (mkParams [] 0 None None None [] [] None 0 Float.zero None Float.zero 0 None None) Created None None 0 0 None None 0
    None 0 None None None.
Definition job_submitted : BatchImageJob := Eval vm_compute in default blank (job_after submitted (batch "a")).
Definition job_polled : BatchImageJob := Eval vm_compute in default blank (job_after polled (batch "a")).
Definition job_settling : BatchImageJob := Eval vm_compute in default blank (job_after settling (batch "a")).
Definition job_paid : BatchImageJob := Eval vm_compute in default blank (job_after paid (batch "a")).
Definition wallet_of (es : list event) : Wallet := default (mkWallet 0 0) (st_users (reach service es store0) !! 7).
Definition wallet_settling : Wallet := Eval vm_compute in wallet_of settling.

Lemma small_service : small service.
Proof. by vm_compute. Qed.

Example hold_moves_once_witness : NoDup (op_of <$> st_journal (reach service paid store0)).
Proof. apply (hold_moves_once service paid store0 store0_initial). Defined.

Example live_job_backed_witness : backed (batch "a") job_polled (reach service polled store0).
Proof.
  apply (live_job_backed service polled store0 (batch "a") job_polled store0_initial); by vm_compute.
Defined.

Example completed_job_charged_witness :
  ∃ e, e ∈ st_journal (reach service paid store0) ∧ concerns Capture (batch "a") e ∧ for_job (j_Params job_paid) (en_cmd e) ∧
    (held (j_Params job_paid) = true →
       Float.lt (Float.decimal 1 8) (Float.sub (c_ActualAmount (en_cmd e)) (c_HoldAmount (en_cmd e))) = false ∧
       ∃ e0, e0 ∈ st_journal (reach service paid store0) ∧ concerns Reserve (batch "a") e0 ∧ for_job (j_Params job_paid) (en_cmd e0) ∧
             within (credited e0 + credited e) (- numeric (c_ActualAmount (en_cmd e))) 1).
Proof. apply (completed_job_charged service paid store0 (batch "a") job_paid store0_initial); by vm_compute. Defined.

(** One image of two was delivered: five cents at a discount of one half. *)
Example charge : wallet_of paid = mkWallet (10 * 10 ^ 8 - 2500000) 0 ∧ wallet_of settling = mkWallet (10 * 10 ^ 8 - 6000000) 6000000.
Proof. by vm_compute. Qed.

Example frozen_accounts_witness : 0 ≤ frozen wallet_settling ∧
  frozen wallet_settling = sumZ (dfrozen 7) (st_journal (reach service settling store0)).
Proof.
  destruct (frozen_accounts service settling store0 7 wallet_settling store0_initial) as (Hpos & Hsum & _); [by vm_compute|].
  by split.
Defined.

Example job_moves_forward_witness :
  ∃ j', st_jobs (reach service (submitted ++ drop (length submitted) paid) store0) !! batch "a" = Some j' ∧ j_ID j' = j_ID job_submitted.
Proof.
  destruct (job_moves_forward service submitted (drop (length submitted) paid) store0 (batch "a") job_submitted store0_initial)
    as (j' & Hj' & _ & Hid & _); [by vm_compute|]. exists j'. split; [exact Hj'|exact Hid].
Defined.

Example indexed_job_counted_witness : lenZ (items_of (reach service settling store0) (batch "a")) = 2 ∧
  j_SuccessCount job_settling + j_FailCount job_settling = 2.
Proof.
  destruct (indexed_job_counted service settling store0 (batch "a") job_settling store0_initial small_service)
    as (_ & Hlen & Hcnt); [by vm_compute|by vm_compute|]. split; [exact Hlen|]. by apply Hcnt.
Defined.

Example indexing_accounts_for_output_witness :
  fst (run Lost st_now (Pipeline service (batch "a")) (λ _, fine) (reach service polled store0)) = Ok (RequeueAfter millisecond) ∧
  ∃ r, ix_success r = 1 ∧ ix_fail r = 1.
Proof.
  destruct (index_output (i_CustomID <$> items_of (reach service polled store0) (batch "a")) output) as [r|] eqn:Hr; [|by vm_compute in Hr].
  split; [|exists r; vm_compute in Hr; by injection Hr as <-].
  apply (indexing_accounts_for_output service polled store0 (batch "a") job_polled 3 output r (λ _, fine) store0_initial small_service);
    [by vm_compute..|exact Hr|intros i; split; [done|by split]].
Defined.

Lemma settling_ready : settleable (reach service settling store0) (batch "a") job_settling wallet_settling.
Proof.
  split; [by vm_compute|by exists 70|by exists 3|by vm_compute|by split; vm_compute|by split; vm_compute|by split; vm_compute
         |by vm_compute|apply (bool_decide_eq_false_1 _); by vm_compute|by vm_compute|by split; vm_compute].
Qed.

Example settlement_completes_witness :
  fst (run Lost st_now (Pipeline service (batch "a")) (λ _, fine) (reach service settling store0)) = Ok Terminal ∧
  charged (reach service settling store0) (batch "a") job_settling wallet_settling
    (snd (run Lost st_now (Pipeline service (batch "a")) (λ _, fine) (reach service settling store0))).
Proof.
  apply (settlement_completes service settling store0 (batch "a") job_settling wallet_settling (λ _, fine) store0_initial small_service);
    [by vm_compute|apply settling_ready|done].
Defined.

(** ** A batch that failed at the provider *)

Definition refusing : choice := mkChoice NoFault (answers "a" cents5 StateFailed).
(** The worker stops between the transition and the release. *)
Definition failed : list event := submitted ++ Spawn (RWork (batch "a")) :: steps 1 6 refusing.
Definition job_failed : BatchImageJob := Eval vm_compute in default blank (job_after failed (batch "a")).

Lemma failed_ready : releasable (reach service failed store0) (batch "a") job_failed wallet_settling.
Proof.
  split; [by apply (bool_decide_eq_true_1 _); vm_compute|by exists 70|apply (bool_decide_eq_true_1 _); by vm_compute
         |apply (bool_decide_eq_false_1 _); by vm_compute|by vm_compute|by split; vm_compute].
Qed.

Example failed_hold_released_witness :
  fst (run Lost st_now (Pipeline service (batch "a")) (λ _, fine) (reach service failed store0)) = Ok Terminal ∧
  given_back (reach service failed store0) (batch "a") job_failed wallet_settling
    (snd (run Lost st_now (Pipeline service (batch "a")) (λ _, fine) (reach service failed store0))).
Proof.
  apply (failed_hold_released service failed store0 (batch "a") job_failed wallet_settling (λ _, fine) store0_initial);
    [by vm_compute|apply failed_ready|done].
Defined.

(** ** What the services leave open *)

Definition lost_before : choice := act FailBefore "a".
Definition lost_after : choice := act FailAfter "a".

(** Everything the workers do afterwards: [n] visits of the batch, a recovery an hour
    later, and its owner's [Cancel]. *)
Definition aftermath (from : nat) : list event :=
  Spawn (RWork (batch "a")) :: steps from 20 fine ++ Tick (Z.to_N hour) :: Spawn RRecover :: steps (S from) 20 fine ++
  Spawn (RCancel owner (batch "a")) :: steps (S (S from)) 20 fine.

(** A [Cancel] between the creation of a batch and the reservation of its hold
    releases nothing, but uses up the identifier of the release: the hold reserved
    next stays frozen, and no worker, recovery or cancellation gives it back. *)
Definition cancelled_early : list event :=
  Spawn (RSubmit owner (request_of 2) []) :: steps 0 5 fine ++
  Spawn (RCancel owner (batch "a")) :: steps 1 20 fine ++ steps 0 20 fine.

Example cancelled_hold_leaks :
  status_after cancelled_early (batch "a") = Some Cancelled ∧
  wallet_of cancelled_early = mkWallet (10 * 10 ^ 8 - 6000000) 6000000 ∧
  wallet_of (cancelled_early ++ aftermath 2) = wallet_of cancelled_early.
Proof. by vm_compute. Qed.

(** A reservation that is committed but reported as failed is never given back: the
    job is marked as failed and hidden without a release, and neither the recovery
    (which looks for rows that were not submitted) nor the owner reaches it. *)
Definition unacknowledged : list event :=
  Spawn (RSubmit owner (request_of 2) []) :: steps 0 5 fine ++ Step 0 lost_after :: steps 0 20 fine.

Definition late_recovery : list event :=
  Tick (Z.to_N hour) :: Spawn RRecover :: steps 1 20 fine ++ Spawn (RCancel owner (batch "a")) :: steps 2 20 fine.

Example unacknowledged_hold_leaks :
  status_after unacknowledged (batch "a") = Some Failed ∧
  wallet_of unacknowledged = mkWallet (10 * 10 ^ 8 - 6000000) 6000000 ∧
  wallet_of (unacknowledged ++ late_recovery) = wallet_of unacknowledged.
Proof. by vm_compute. Qed.

(** Four captures fail, the fifth is committed but reported as failed: the exhausted
    settlement then releases the hold it has captured.  The user pays nothing, and
    the release is paid from the hold of another batch. *)
Definition second_batch : list event := Spawn (RSubmit owner (request_of 2) []) :: steps 2 20 (act NoFault "b").
Definition failed_capture (i : nat) (c : choice) : list event :=
  Spawn (RWork (batch "a")) :: steps i 2 fine ++ Step i c :: steps i 20 fine.
Definition exhausted : list event :=
  settling ++ second_batch ++ failed_capture 3 lost_before ++ failed_capture 4 lost_before ++
  failed_capture 5 lost_before ++ failed_capture 6 lost_before ++ failed_capture 7 lost_after.

Example charged_and_released :
  status_after exhausted (batch "a") = Some Failed ∧ status_after exhausted (batch "b") = Some Submitted ∧
  applied Capture (batch "a") (st_journal (reach service exhausted store0)) ∧
  applied Release (batch "a") (st_journal (reach service exhausted store0)) ∧
  frozen (wallet_of exhausted) = 0.
Proof.
  split_and!; [by vm_compute|by vm_compute|apply (bool_decide_eq_true_1 _); by vm_compute
              |apply (bool_decide_eq_true_1 _); by vm_compute|by vm_compute].
Qed.

(** A hold is stored with ten decimals and a balance with eight.  Freezing 3000002.4
    units freezes 3000002, which does not cover the hold: it can be neither captured
    nor released. *)
Definition fractional : choice := mkChoice NoFault (answers "a" (Float.decimal 5000004 8) StateSucceeded).
Definition visits (from n : nat) : list event :=
  flat_map (λ i, Spawn (RWork (batch "a")) :: steps i 20 fine) (seq from n).
Definition stuck : list event :=
  Spawn (RSubmit owner (request_of 1) []) :: steps 0 20 fractional ++ visits 1 10.

Example fractional_hold_stuck :
  status_after stuck (batch "a") = Some Settling ∧ j_RetryCount (default blank (job_after stuck (batch "a"))) = 10 ∧
  frozen (wallet_of stuck) = 3000002 ∧ ¬ applied Capture (batch "a") (st_journal (reach service stuck store0)) ∧
  ¬ applied Release (batch "a") (st_journal (reach service stuck store0)).
Proof.
  split_and!; [by vm_compute|by vm_compute|by vm_compute|apply (bool_decide_eq_false_1 _); by vm_compute
              |apply (bool_decide_eq_false_1 _); by vm_compute].
Qed.

(** The index on the idempotency key is not unique: two requests with one key that
    look it up before either has created its row are both carried out. *)
Definition same_key : list event :=
  [Spawn (RSubmit owner (request_of 2) (lit "once")); Spawn (RSubmit owner (request_of 2) (lit "once"))] ++
  steps 0 2 fine ++ steps 1 2 fine ++ steps 0 20 fine ++ steps 1 20 (act NoFault "b").

Example same_key_runs_twice :
  status_after same_key (batch "a") = Some Submitted ∧ status_after same_key (batch "b") = Some Submitted ∧
  IdempotencyKey ∘ j_Params <$> job_after same_key (batch "a") = IdempotencyKey ∘ j_Params <$> job_after same_key (batch "b") ∧
  frozen (wallet_of same_key) = 12000000.
Proof. by vm_compute. Qed.

(** A read of the items that fails once, a fault of the database, ends a job whose
    images the provider has delivered as if its output could not be parsed. *)
Definition index_fault : list event :=
  polled ++ Step 1 lost_before :: steps 1 20 fine.

Example database_fault_fails_job :
  status_after index_fault (batch "a") = Some Failed ∧
  j_LastErrorCode (default blank (job_after index_fault (batch "a"))) = Some (lit "INDEX_PARSE_FAILED") ∧
  wallet_of index_fault = mkWallet (10 * 10 ^ 8) 0.
Proof. by vm_compute. Qed.
End BatchExamples.
