(* ===== verification/Platforms.v ===== *)
(** * The platform registry

    Models [domain/platforms.go]: the list every "all platforms" list derives
    from, its index, and the lookup order of composite groups. *)

From S2P Require Import Prelude.

Module Platforms.

Inductive PlatformGateway :=
  | PlatformGatewayAnthropic | PlatformGatewayOpenAI
  | PlatformGatewayGemini | PlatformGatewayAntigravity.
#[export] Instance PlatformGateway_eq_dec : EqDecision PlatformGateway.
Proof. solve_decision. Defined.

Record PlatformSpec := mkSpec {
  ID : string;
  DisplayName : string;
  Gateway : PlatformGateway;
  CNProvider : bool;
  LiteLLMProvider : string
}.

Definition PlatformComposite : string := "composite".

(** The order is the display order. *)
Definition platformList : list PlatformSpec :=
  [mkSpec "anthropic" "Anthropic" PlatformGatewayAnthropic false "anthropic";
   mkSpec "openai" "OpenAI" PlatformGatewayOpenAI false "openai";
   mkSpec "gemini" "Gemini" PlatformGatewayGemini false "gemini";
   mkSpec "antigravity" "Antigravity" PlatformGatewayAntigravity false "anthropic";
   mkSpec "grok" "Grok" PlatformGatewayOpenAI false "xai";
   mkSpec "kimi" "Kimi" PlatformGatewayOpenAI true "moonshot";
   mkSpec "zhipu" "Zhipu GLM" PlatformGatewayOpenAI true "zhipu";
   mkSpec "deepseek" "DeepSeek" PlatformGatewayOpenAI true "deepseek";
   mkSpec "minimax" "MiniMax" PlatformGatewayOpenAI true "minimax";
   mkSpec "opencode_go" "OpenCode" PlatformGatewayOpenAI false "opencode-go";
   mkSpec "typesafe" "TypeSafe / Jev" PlatformGatewayAnthropic false "typesafe";
   mkSpec "command_code" "Command Code" PlatformGatewayOpenAI false "";
   mkSpec "cline" "Cline" PlatformGatewayOpenAI false ""].

(** [platformIndex]: each id with its position. *)
Definition platformIndex : gmap string nat :=
  foldl (λ m '(i, spec), <[ID spec := i]> m) ∅ (imap pair platformList).

Definition Platforms : list PlatformSpec := platformList.

Definition LookupPlatform (id : string) : option PlatformSpec :=
  match platformIndex !! id with
  | Some i => platformList !! i
  | None => None
  end.

Definition IsConcretePlatform (id : string) : bool := bool_decide (is_Some (platformIndex !! id)).

Definition IsGroupPlatform (id : string) : bool :=
  bool_decide (id = PlatformComposite) || IsConcretePlatform id.

Definition PlatformIDsWhere (select : PlatformSpec → bool) : list string :=
  ID <$> filter (λ spec, select spec = true) platformList.

Definition ConcretePlatformIDs : list string := PlatformIDsWhere (λ _, true).

Definition compositePrecedenceHead : list string := ["anthropic"; "gemini"; "openai"].

(** The head first, then the list without what the head contributed. *)
Definition CompositePrecedencePlatformIDs : list string :=
  let head := filter (λ id, IsConcretePlatform id = true) compositePrecedenceHead in
  let seen : gset string := list_to_set head in
  head ++ (ID <$> filter (λ spec, ID spec ∉ seen) platformList).

Definition UsesOpenAIGateway (id : string) : bool :=
  match LookupPlatform id with
  | Some spec => bool_decide (Gateway spec = PlatformGatewayOpenAI)
  | None => false
  end.

Definition IsCNProviderPlatform (id : string) : bool :=
  match LookupPlatform id with Some spec => CNProvider spec | None => false end.

(** ** Lemmas *)

Lemma platform_ids_NoDup : NoDup (ID <$> platformList).
Proof. refine (bool_decide_eq_true_1 _ _). vm_compute. reflexivity. Qed.

Lemma platformIndex_spec id i :
  platformIndex !! id = Some i ↔ ∃ spec, platformList !! i = Some spec ∧ ID spec = id.
Proof.
  assert (Hgen : ∀ (l : list PlatformSpec) (k : nat) (m : gmap string nat), NoDup (ID <$> l) →
    foldl (λ m '(i, spec), <[ID spec := i]> m) m (imap (λ i, pair (k + i)%nat) l) !! id
    = match list_find (λ spec, ID spec = id) l with
      | Some (j, _) => Some (k + j)%nat | None => m !! id end).
  { induction l as [|s l IH]; intros k m HN; [done|].
    rewrite fmap_cons in HN. apply NoDup_cons in HN as [Hs HN]. simpl. rewrite Nat.add_0_r.
    assert (imap ((λ i, pair (k + i)%nat) ∘ S) l = imap (λ i, pair (S k + i)%nat) l) as ->
      by (apply imap_ext; intros; simpl; f_equal; lia).
    rewrite IH by done. case_decide as Hid.
    - assert (list_find (λ spec, ID spec = id) l = None) as ->.
      { apply list_find_None, Forall_forall. intros x Hx Hxid. apply Hs.
        rewrite Hid, <- Hxid. by apply list_elem_of_fmap_2. }
      by rewrite Hid, lookup_insert_eq, Nat.add_0_r.
    - rewrite lookup_insert_ne by done.
      destruct (list_find _ l) as [[j x]|]; simpl; [f_equal; lia|done]. }
  unfold platformIndex. rewrite (Hgen platformList O ∅ platform_ids_NoDup).
  destruct (list_find _ platformList) as [[j x]|] eqn:Hf.
  - apply list_find_Some in Hf as (Hj & Hid & _). simpl. split.
    + intros [= <-]. eauto.
    + intros (spec & Hi & Hspec). f_equal. eapply NoDup_lookup; [apply platform_ids_NoDup| |].
      * rewrite list_lookup_fmap, Hj. simpl. by rewrite Hid.
      * by rewrite list_lookup_fmap, Hi; simpl; rewrite Hspec.
  - apply list_find_None in Hf. rewrite Forall_forall in Hf. split; [done|].
    intros (spec & Hi & Hspec). apply list_elem_of_lookup_2 in Hi. by apply Hf in Hi.
Qed.

(** ** Properties *)

(** A lookup finds exactly the registered platforms, each under its own id,
    and the composite pseudo-platform is never concrete. *)
Theorem LookupPlatform_spec id spec :
  (LookupPlatform id = Some spec ↔ spec ∈ platformList ∧ ID spec = id) ∧
  (IsConcretePlatform id = true ↔ id ∈ ConcretePlatformIDs) ∧
  IsConcretePlatform PlatformComposite = false.
Proof.
  assert (Hlook : ∀ s, LookupPlatform id = Some s ↔ s ∈ platformList ∧ ID s = id).
  { intros s. unfold LookupPlatform. destruct (platformIndex !! id) as [i|] eqn:Hi.
    - apply platformIndex_spec in Hi as (s' & Hs' & Hid). rewrite Hs'. split.
      + intros [= <-]. split; [by eapply list_elem_of_lookup_2|done].
      + intros [(j & Hj)%list_elem_of_lookup_1 Hsid].
        assert (i = j) as ->.
        { eapply NoDup_lookup; [apply platform_ids_NoDup| |].
          - by rewrite list_lookup_fmap, Hs'; simpl; rewrite Hid.
          - by rewrite list_lookup_fmap, Hj; simpl; rewrite Hsid. }
        congruence.
    - split; [done|]. intros [(j & Hj)%list_elem_of_lookup_1 Hsid].
      assert (platformIndex !! id = Some j) by (apply platformIndex_spec; eauto). congruence. }
  split_and!; [done| |reflexivity].
  unfold IsConcretePlatform, ConcretePlatformIDs, PlatformIDsWhere.
  rewrite bool_decide_eq_true, list_elem_of_fmap. split.
  - intros [i (s & Hs & <-)%platformIndex_spec]. exists s. split; [done|].
    apply list_elem_of_filter. split; [done|]. by eapply list_elem_of_lookup_2.
  - intros (s & -> & (_ & (i & Hi)%list_elem_of_lookup_1)%list_elem_of_filter).
    exists i. apply platformIndex_spec. eauto.
Qed.

(** The precedence order of composite groups visits every concrete platform
    exactly once, and starts with anthropic, gemini, openai. *)
Theorem CompositePrecedence_permutation :
  CompositePrecedencePlatformIDs ≡ₚ ConcretePlatformIDs ∧
  NoDup CompositePrecedencePlatformIDs ∧
  compositePrecedenceHead `prefix_of` CompositePrecedencePlatformIDs.
Proof.
  assert (Hp : CompositePrecedencePlatformIDs ≡ₚ ConcretePlatformIDs).
  { apply NoDup_Permutation.
    - refine (bool_decide_eq_true_1 _ _). vm_compute. reflexivity.
    - refine (bool_decide_eq_true_1 _ _). vm_compute. reflexivity.
    - intros x.
      assert (H1 : CompositePrecedencePlatformIDs ⊆ ConcretePlatformIDs)
        by (refine (bool_decide_eq_true_1 _ _); vm_compute; reflexivity).
      assert (H2 : ConcretePlatformIDs ⊆ CompositePrecedencePlatformIDs)
        by (refine (bool_decide_eq_true_1 _ _); vm_compute; reflexivity).
      split; [apply H1|apply H2]. }
  split_and!; [done| |].
  - refine (bool_decide_eq_true_1 _ _). vm_compute. reflexivity.
  - refine (bool_decide_eq_true_1 _ _). vm_compute. reflexivity.
Qed.

End Platforms.
