(* ===== verification/CompositeRoute.v ===== *)
(** * Composite groups: which provider serves a model

    Models [service/composite_model_route.go], [service/composite_route_resolver.go],
    [service/composite_platform.go], the ownership of models by accounts of
    [service/gateway_service.go], the administration of routes of
    [service/admin_group.go] over [repository/composite_model_route_repo.go], and the
    middleware of [server/routes/gateway.go].  A group of platform "composite" has no
    accounts of one provider: each request is routed by its model, first by the
    administrator's routes, then by the accounts that map the model, then by its name. *)

From S2P Require Import Prelude GoStrings Platforms Interleaving.

Module CompositeRoute.
Import GoStrings.

(** ** Names *)

Definition CompositeRouteMatchExact : bytes := lit "exact".
Definition CompositeRouteMatchPrefix : bytes := lit "prefix".

Definition CompositeRouteEndpointAny : bytes := lit "any".
Definition CompositeRouteEndpointMessages : bytes := lit "messages".
Definition CompositeRouteEndpointCountTokens : bytes := lit "count_tokens".
Definition CompositeRouteEndpointResponses : bytes := lit "responses".
Definition CompositeRouteEndpointChatCompletions : bytes := lit "chat_completions".
Definition CompositeRouteEndpointEmbeddings : bytes := lit "embeddings".
Definition CompositeRouteEndpointImages : bytes := lit "images".
Definition CompositeRouteEndpointGemini : bytes := lit "gemini".

Definition endpoints : list bytes :=
  [CompositeRouteEndpointMessages; CompositeRouteEndpointCountTokens; CompositeRouteEndpointResponses;
   CompositeRouteEndpointChatCompletions; CompositeRouteEndpointEmbeddings; CompositeRouteEndpointImages;
   CompositeRouteEndpointGemini].

Inductive route_source := CompositeRouteSourceExplicit | CompositeRouteSourceDetector | CompositeRouteSourceAccount.
#[export] Instance route_source_eq_dec : EqDecision route_source.
Proof. solve_decision. Defined.

(** [isConcreteRequestPlatform] *)
Definition isConcreteRequestPlatform (p : bytes) : bool := Platforms.IsConcretePlatform (String.string_of_list_ascii p).
Definition PlatformComposite : bytes := lit Platforms.PlatformComposite.

(** ** Data *)

Record CompositeModelRoute := mkRoute {
  rt_ID : Z;
  rt_GroupID : Z;
  rt_PublicModel : bytes;
  rt_MatchType : bytes;
  rt_TargetPlatform : bytes;
  rt_UpstreamModel : bytes;
  rt_Endpoint : bytes;
  rt_Priority : Z;
  rt_Enabled : bool;
  rt_Notes : bytes
}.

Record CompositeRouteInput := mkInput {
  in_PublicModel : bytes;
  in_MatchType : bytes;
  in_TargetPlatform : bytes;
  in_UpstreamModel : bytes;
  in_Endpoint : bytes;
  in_Priority : Z;
  in_Enabled : bool;
  in_Notes : bytes
}.

Record CompositeRouteDecision := mkDecision {
  d_Matched : bool;
  d_Source : option route_source;
  d_GroupID : Z;
  d_PublicModel : bytes;
  d_TargetPlatform : bytes;
  d_UpstreamModel : bytes;
  d_Endpoint : bytes;
  d_Route : option CompositeModelRoute;
  d_Reason : string
}.

Record CompositeModelOwnership := mkOwnership {
  ow_TargetPlatform : bytes;
  ow_Matched : bool;
  ow_Ambiguous : bool;
  ow_OpenAIGatewayOAuthClaimed : bool
}.

(** An account as ownership reads it: [ma_mapping] is its [model_mapping], as
    [stringMappingFromRaw] reads it. *)
Record ModelAccount := mkModelAccount {
  ma_Platform : bytes;
  ma_IsOAuth : bool;
  ma_mapping : gmap bytes bytes
}.

Definition CompositeRouteReasonAmbiguous : string := "model is exposed by multiple provider platforms".
Definition CompositeRouteReasonOAuthAmbiguous : string :=
  "model is exposed by multiple provider platforms including OAuth accounts".

Definition OAuthAmbiguous (d : CompositeRouteDecision) : bool :=
  negb (d_Matched d) && bool_decide (d_Reason d = CompositeRouteReasonOAuthAmbiguous).

Definition set_target (e m : bytes) (r : CompositeModelRoute) : CompositeModelRoute :=
  mkRoute (rt_ID r) (rt_GroupID r) (rt_PublicModel r) m (rt_TargetPlatform r) (rt_UpstreamModel r) e
    (rt_Priority r) (rt_Enabled r) (rt_Notes r).

Section strings.
Context `{Unicode}.

(** ** Normal forms *)

Definition normalizeCompositeRouteEndpoint (endpoint : bytes) : bytes :=
  let endpoint := Lower (TrimSpace endpoint) in
  if bool_decide (endpoint = []) then CompositeRouteEndpointAny
  else if bool_decide (endpoint ∈ endpoints) then endpoint else CompositeRouteEndpointAny.

Definition normalizeCompositeRouteMatchType (matchType : bytes) : bytes :=
  if bool_decide (Lower (TrimSpace matchType) = CompositeRouteMatchPrefix) then CompositeRouteMatchPrefix
  else CompositeRouteMatchExact.

(** Only an exact route has its empty upstream model filled in. *)
Definition normalizeCompositeRouteInput (i : CompositeRouteInput) : CompositeRouteInput :=
  let publicModel := TrimSpace (in_PublicModel i) in
  let matchType := normalizeCompositeRouteMatchType (in_MatchType i) in
  let upstreamModel := TrimSpace (in_UpstreamModel i) in
  mkInput publicModel matchType (TrimSpace (in_TargetPlatform i))
    (if bool_decide (upstreamModel = []) && bool_decide (matchType = CompositeRouteMatchExact) then publicModel
     else upstreamModel)
    (normalizeCompositeRouteEndpoint (in_Endpoint i)) (in_Priority i) (in_Enabled i) (TrimSpace (in_Notes i)).

Definition compositeRouteFromInput (groupID : Z) (i : CompositeRouteInput) : result string CompositeModelRoute :=
  let i := normalizeCompositeRouteInput i in
  if bool_decide (in_PublicModel i = []) then Err "public_model is required"
  else if negb (isConcreteRequestPlatform (in_TargetPlatform i)) then Err "target_platform must be a concrete provider"
  else Ok (mkRoute 0 groupID (in_PublicModel i) (in_MatchType i) (in_TargetPlatform i) (in_UpstreamModel i)
             (in_Endpoint i) (if in_Priority i =? 0 then 100 else in_Priority i) (in_Enabled i) (in_Notes i)).

(** ** The provider a model's name gives away *)

Definition has_prefix_of (s : bytes) (l : list string) : bool := existsb (λ p, HasPrefix s (lit p)) l.
Definition is_one_of (s : bytes) (l : list string) : bool := existsb (λ p, bool_decide (s = lit p)) l.

Definition provider_platform (provider : bytes) : option string :=
  if is_one_of provider ["anthropic"; "claude"] then Some "anthropic"
  else if is_one_of provider ["openai"; "chatgpt"] then Some "openai"
  else if is_one_of provider ["google"; "google-ai-studio"; "gemini"] then Some "gemini"
  else if is_one_of provider ["xai"; "x-ai"; "grok"] then Some "grok"
  else if is_one_of provider ["kimi"; "moonshot"] then Some "kimi"
  else if is_one_of provider ["zhipu"; "glm"; "bigmodel"] then Some "zhipu"
  else if is_one_of provider ["deepseek"] then Some "deepseek"
  else if is_one_of provider ["minimax"] then Some "minimax"
  else if is_one_of provider ["typesafe"; "jev"] then Some "typesafe"
  else None.

Definition hasOpenAISeriesPrefix (model : bytes) : bool :=
  existsb (λ p, bool_decide (model = lit p) || HasPrefix model (lit p ++ lit "-")) ["o1"; "o3"; "o4"; "o5"].

Definition name_platform (s : bytes) : option string :=
  if has_prefix_of s ["anthropic.claude-"; "claude-"] then Some "anthropic"
  else if has_prefix_of s ["gpt-"; "chatgpt-"; "codex-"; "text-embedding-"; "text-moderation-"; "omni-moderation-";
                           "dall-e-"; "gpt-image-"; "tts-"; "whisper-"] || hasOpenAISeriesPrefix s then Some "openai"
  else if has_prefix_of s ["gemini-"; "learnlm-"] then Some "gemini"
  else if is_one_of s ["grok"] || has_prefix_of s ["grok-"] then Some "grok"
  else if is_one_of s ["k3"; "k3-256k"] || has_prefix_of s ["kimi-"; "moonshot-"] then Some "kimi"
  else if has_prefix_of s ["glm-"] then Some "zhipu"
  else if has_prefix_of s ["deepseek-"] then Some "deepseek"
  else if has_prefix_of s ["minimax-"; "abab5"; "abab6"; "abab7"] then Some "minimax"
  else if is_one_of s ["jev-latest"] || has_prefix_of s ["jev-"] then Some "typesafe"
  else None.

Definition DetectModelPlatform (model : bytes) : option string :=
  let normalized := Lower (TrimSpace model) in
  if bool_decide (normalized = []) then None
  else
    let normalized := TrimPrefix normalized (lit "models/") in
    match Cut "/" normalized with
    | Some ((_ :: _) as before, after_) =>
        match provider_platform (TrimSpace before) with
        | Some p => Some p
        | None =>
            let rest := TrimSpace after_ in
            name_platform (if bool_decide (rest = []) then normalized else TrimPrefix rest (lit "models/"))
        end
    | _ => name_platform normalized
    end.

(** ** The best route *)

Record candidate := mkCandidate {
  cd_route : CompositeModelRoute;
  cd_matchStrength : Z;
  cd_endpointWeight : Z;
  cd_prefixLen : Z
}.

(** The body of the loop: [None] for [continue]. *)
Definition candidate_of (model endpoint : bytes) (route : CompositeModelRoute) : option candidate :=
  let e := normalizeCompositeRouteEndpoint (rt_Endpoint route) in
  if negb (bool_decide (e = endpoint)) && negb (bool_decide (e = CompositeRouteEndpointAny)) then None
  else
    let m := normalizeCompositeRouteMatchType (rt_MatchType route) in
    let route := set_target e m route in
    let publicModel := TrimSpace (rt_PublicModel route) in
    let endpointWeight := if bool_decide (e = endpoint) then 1 else 0 in
    let prefixLen := Z.of_nat (length publicModel) in
    if bool_decide (publicModel = []) then None
    else if bool_decide (m = CompositeRouteMatchExact) then
      if bool_decide (publicModel = model) then Some (mkCandidate route 2 endpointWeight prefixLen) else None
    else if bool_decide (m = CompositeRouteMatchPrefix) then
      if HasPrefix model publicModel then Some (mkCandidate route 1 endpointWeight prefixLen) else None
    else None.

Definition better (a b : candidate) : bool :=
  if negb (cd_matchStrength a =? cd_matchStrength b) then cd_matchStrength b <? cd_matchStrength a
  else if negb (cd_endpointWeight a =? cd_endpointWeight b) then cd_endpointWeight b <? cd_endpointWeight a
  else if negb (cd_prefixLen a =? cd_prefixLen b) then cd_prefixLen b <? cd_prefixLen a
  else if negb (rt_Priority (cd_route a) =? rt_Priority (cd_route b))
  then rt_Priority (cd_route a) <? rt_Priority (cd_route b)
  else rt_ID (cd_route a) <? rt_ID (cd_route b).

(** [sort.SliceStable]: elements that are not less than each other keep their order. *)
Fixpoint insert_stable {A} (less : A → A → bool) (x : A) (l : list A) : list A :=
  match l with
  | [] => [x]
  | y :: l => if less y x then y :: insert_stable less x l else x :: y :: l
  end.
Definition SliceStable {A} (less : A → A → bool) (l : list A) : list A := foldr (insert_stable less) [] l.

Definition matchCompositeRoute (routes : list CompositeModelRoute) (model endpoint : bytes) : option CompositeModelRoute :=
  cd_route <$> head (SliceStable better (omap (candidate_of model endpoint) routes)).


(** The models a catalogue lists. *)
Definition filterSystemOneRouteModels (routes : list CompositeModelRoute) (models : list bytes) (endpoint : bytes)
    : list bytes :=
  filter (λ model, match matchCompositeRoute routes model (normalizeCompositeRouteEndpoint endpoint) with
                   | Some r => negb (bool_decide (rt_TargetPlatform r = lit "typesafe"))
                   | None => true
                   end = true) models.

Definition exact_models (routes : list CompositeModelRoute) (endpoint : bytes) (includeSystemOne : bool) : list bytes :=
  let models := filter (λ m, m ≠ []) (TrimSpace ∘ rt_PublicModel <$> filter (λ r,
    rt_Enabled r = true ∧ rt_MatchType r = CompositeRouteMatchExact ∧
    (endpoint = [] ∨ normalizeCompositeRouteEndpoint (rt_Endpoint r) = CompositeRouteEndpointAny
     ∨ normalizeCompositeRouteEndpoint (rt_Endpoint r) = endpoint)) routes) in
  if includeSystemOne then models else filterSystemOneRouteModels routes models endpoint.

(** ** Ownership by accounts *)

Definition explicitModelMappingClaims (a : ModelAccount) (model : bytes) : bool :=
  negb (bool_decide (model = []))
  && match ma_mapping a !! model with Some mapped => negb (bool_decide (TrimSpace mapped = [])) | None => false end.

Definition UsesOpenAIGateway (p : bytes) : bool := Platforms.UsesOpenAIGateway (String.string_of_list_ascii p).

Definition ownership_of (accounts : list ModelAccount) (model : bytes) : CompositeModelOwnership :=
  let claiming := filter (λ a, explicitModelMappingClaims a model = true) accounts in
  let oauth := existsb (λ a, ma_IsOAuth a && UsesOpenAIGateway (ma_Platform a)) claiming in
  match elements (list_to_set (ma_Platform <$> claiming) : gset bytes) with
  | [] => mkOwnership [] false false oauth
  | [p] => mkOwnership p true false oauth
  | _ => mkOwnership [] false true oauth
  end.

End strings.

(** ** The endpoint of a path *)

(** [strings.TrimRight(path, "/")] *)
Fixpoint drop_slashes (s : bytes) : bytes :=
  match s with c :: s' => if decide (c = "/"%char) then drop_slashes s' else s | [] => [] end.
Definition trim_slashes (path : bytes) : bytes :=
  reverse (drop_slashes (reverse path)).
Definition compositeRouteEndpointForPath (path : bytes) : bytes :=
  if Contains path (lit "/messages/count_tokens") then CompositeRouteEndpointCountTokens
  else if Contains path (lit "/messages") then CompositeRouteEndpointMessages
  else if Contains path (lit "/responses") || Contains path (lit "/alpha/search") || Contains path (lit "/realtime/calls")
          || bool_decide (lit "/live" `suffix_of` trim_slashes path) then CompositeRouteEndpointResponses
  else if Contains path (lit "/chat/completions") then CompositeRouteEndpointChatCompletions
  else if Contains path (lit "/embeddings") then CompositeRouteEndpointEmbeddings
  else if Contains path (lit "/images/") then CompositeRouteEndpointImages
  else if Contains path (lit "/v1beta/") then CompositeRouteEndpointGemini
  else CompositeRouteEndpointAny.

End CompositeRoute.
