(* ===== verification/CompositeRouting.v ===== *)
(** * Routing a request of a composite group, and administrating its routes

    The programs of [service/admin_group.go], [service/composite_route_resolver.go] and
    the middleware over the table [composite_model_routes].  Routes are marked deleted,
    not removed, and reads leave marked rows out. *)

From S2P Require Import Prelude GoStrings Platforms Interleaving CompositeRoute.

Module CompositeRouting.
Import GoStrings CompositeRoute.

(** ** The table *)

Record Row := mkRow { row_route : CompositeModelRoute; row_deleted : bool }.

(** What became of one request. *)
Inductive outcome :=
  | Rejected (status : Z)
  | NoAvailableAccounts
  | Scheduled (platform model : bytes).

(** The handlers behind the middleware, by the platforms they let through. *)
Inductive handler :=
  | GatewayHandler       (* [GatewayHandler]: messages, count_tokens, chat completions, responses *)
  | OpenAITextHandler    (* [OpenAIGatewayHandler]: the same over the OpenAI gateway *)
  | EmbeddingsHandler
  | AlphaSearchHandler
  | SystemOneHandler.

(** The way a request comes in: through [compositeTargetPlatformMiddleware], with a
    path, or through the one of the Gemini endpoint. *)
Inductive entrance := Text (path : bytes) (h : handler) | Gemini.

Record served := mkServed {
  sv_GroupID : Z;
  sv_entrance : entrance;
  sv_model : bytes;                              (* the client's *)
  sv_decision : option CompositeRouteDecision;   (* of the middleware *)
  sv_requested : bytes;                          (* the model the handler reads *)
  sv_outcome : outcome
}.

Record Store := mkStore {
  rs_now : time;
  rs_rows : gmap Z Row;
  rs_next : Z;
  rs_groups : gmap Z bytes;       (* the platform of each group *)
  rs_served : list served         (* the journal of requests; not a table *)
}.

Definition with_rows f n s := mkStore (rs_now s) (f (rs_rows s)) n (rs_groups s) (rs_served s).
Definition with_groups f s := mkStore (rs_now s) (rs_rows s) (rs_next s) (f (rs_groups s)) (rs_served s).
Definition with_served v s := mkStore (rs_now s) (rs_rows s) (rs_next s) (rs_groups s) (v :: rs_served s).
Definition advance (d : N) s := mkStore (rs_now s + Z.of_N d) (rs_rows s) (rs_next s) (rs_groups s) (rs_served s).

Inductive dberr := NotFound | Lost | UniqueViolation | Invalid.

Definition same_target (a b : CompositeModelRoute) : bool :=
  (rt_GroupID a =? rt_GroupID b) && bool_decide (rt_Endpoint a = rt_Endpoint b)
  && bool_decide (rt_MatchType a = rt_MatchType b) && bool_decide (rt_PublicModel a = rt_PublicModel b).

(** The validators of the schema and the checks of the table. *)
Definition valid_route (r : CompositeModelRoute) : bool :=
  negb (bool_decide (rt_PublicModel r = [])) && (Z.of_nat (length (rt_PublicModel r)) <=? 200)
  && (Z.of_nat (length (rt_MatchType r)) <=? 20)
  && (Z.of_nat (length (rt_TargetPlatform r)) <=? 50) && isConcreteRequestPlatform (rt_TargetPlatform r)
  && (Z.of_nat (length (rt_UpstreamModel r)) <=? 200) && (Z.of_nat (length (rt_Endpoint r)) <=? 50)
  && bool_decide (rt_MatchType r ∈ [CompositeRouteMatchExact; CompositeRouteMatchPrefix])
  && bool_decide (rt_Endpoint r ∈ CompositeRouteEndpointAny :: endpoints).

Definition active (row : Row) : bool := negb (row_deleted row).

(** The unique index of the rows that are not deleted, but for the row [id]. *)
Definition taken (id : Z) (r : CompositeModelRoute) (s : Store) : bool :=
  existsb (λ '(i, row), negb (i =? id) && active row && same_target (row_route row) r) (map_to_list (rs_rows s)).

Definition by_priority (a b : CompositeModelRoute) : bool :=
  if negb (rt_Priority a =? rt_Priority b) then rt_Priority a <? rt_Priority b else rt_ID a <? rt_ID b.

Definition group_routes (gid : Z) (includeDisabled : bool) (s : Store) : list CompositeModelRoute :=
  filter (λ r, rt_GroupID r = gid ∧ (includeDisabled = true ∨ rt_Enabled r = true))
    (row_route <$> filter (λ row, active row = true) (snd <$> map_to_list (rs_rows s))).

(** [ListByGroup] *)
Definition list_by_group (gid : Z) (includeDisabled : bool) (s : Store) : result dberr (list CompositeModelRoute) :=
  Ok (SliceStable by_priority (group_routes gid includeDisabled s)).

Definition with_id (id gid : Z) (r : CompositeModelRoute) : CompositeModelRoute :=
  mkRoute id gid (rt_PublicModel r) (rt_MatchType r) (rt_TargetPlatform r) (rt_UpstreamModel r) (rt_Endpoint r)
    (rt_Priority r) (rt_Enabled r) (rt_Notes r).

(** [Create] *)
Definition create_route (r : CompositeModelRoute) (s : Store) : result dberr CompositeModelRoute * Store :=
  let id := rs_next s in
  let r := with_id id (rt_GroupID r) r in
  if negb (valid_route r) then (Err Invalid, s)
  else if taken id r s then (Err UniqueViolation, s)
  else (Ok r, with_rows (insert id (mkRow r false)) (id + 1) s).

(** [Update]: the row keeps its group; a deleted row is updated like any other. *)
Definition update_route (r : CompositeModelRoute) (s : Store) : result dberr CompositeModelRoute * Store :=
  match rs_rows s !! rt_ID r with
  | None => (Err NotFound, s)
  | Some old =>
      let r := with_id (rt_ID r) (rt_GroupID (row_route old)) r in
      if negb (valid_route r) then (Err Invalid, s)
      else if active old && taken (rt_ID r) r s then (Err UniqueViolation, s)
      else (Ok r, with_rows (insert (rt_ID r) (mkRow r (row_deleted old))) (rs_next s) s)
  end.

(** [Delete], through the hook that marks the row. *)
Definition delete_route (id : Z) (s : Store) : result dberr unit * Store :=
  match rs_rows s !! id with
  | Some old => if active old then (Ok tt, with_rows (insert id (mkRow (row_route old) true)) (rs_next s) s)
                else (Err NotFound, s)
  | None => (Err NotFound, s)
  end.

Definition get_group (gid : Z) (s : Store) : result dberr bytes :=
  match rs_groups s !! gid with Some p => Ok p | None => Err NotFound end.

(** ** Calls *)

Inductive question : Type → Type :=
  | QCached (gid : Z) (model : bytes) : question (option CompositeModelOwnership)   (* the models list cache *)
  | QCache (gid : Z) (model : bytes) (o : CompositeModelOwnership) : question unit
  | QCandidates (gid : Z) : question (result dberr (list ModelAccount))  (* [ListModelAvailabilityCandidates] *)
  | QRewrite : question bool.     (* the body is JSON whose model field can be set *)

Abbreviation prg := (prog (@db Store dberr question)).
Definition read {X} (q : Store → result dberr X) : prg (result dberr X) := call (Read q).
Definition write {X} (w : Store → result dberr X * Store) : prg (result dberr X) := call (Write w).
Definition ask {X} (q : question X) : prg X := call (Ask q).
Definition log (v : served) : prg unit := call (Log (with_served v)).

Inductive error :=
  | ErrCompositeRouteNotFound
  | ErrCompositeRouteExists
  | ErrSimpleMode
  | EDB (e : dberr)
  | EMsg (msg : string).

Definition persistence_error (e : dberr) : error :=
  match e with NotFound => ErrCompositeRouteNotFound | UniqueViolation => ErrCompositeRouteExists | e => EDB e end.

Definition go_on {A B} (p : prg (result error A)) (k : A → prg (result error B)) : prg (result error B) :=
  let! r := p in match r with Ok a => k a | Err e => Ret (Err e) end.
Notation "'try' x ':=' p 'in' k" := (go_on p (λ x, k))
  (at level 10, x pattern, p at level 100, k at level 200) : go_scope.
Definition lift {X} (wrap : dberr → error) (p : prg (result dberr X)) : prg (result error X) :=
  let! r := p in Ret match r with Ok x => Ok x | Err e => Err (wrap e) end.

(** How the deployment is configured. *)
Record Deployment := mkDeployment {
  dp_simple : bool;         (* the simple run mode *)
  dp_repo : bool;           (* the repository of routes is wired *)
  dp_ownership : bool;      (* [SetModelOwnershipResolver] *)
  dp_cache : bool           (* the models list cache is wired *)
}.

Section service.
Context `{Unicode} (dp : Deployment).

(** ** Administration *)

Definition ValidateSimpleModeGroupOperation : prg (result error unit) :=
  Ret (if dp_simple dp then Err ErrSimpleMode else Ok tt).

Definition requireCompositeGroup (gid : Z) : prg (result error unit) :=
  try platform := lift EDB (read (get_group gid)) in
  Ret (if negb (bool_decide (platform = PlatformComposite)) then Err (EMsg "not a composite group") else Ok tt).

Definition compositeRouteBelongsToGroup (gid id : Z) : prg (result error bool) :=
  try routes := lift EDB (read (list_by_group gid true)) in
  Ret (Ok (existsb (λ r, rt_ID r =? id) routes)).

(** What every operation on the routes of a group begins with. *)
Definition of_group (gid : Z) {A} (k : prg (result error A)) : prg (result error A) :=
  try _ := ValidateSimpleModeGroupOperation in
  try _ := requireCompositeGroup gid in
  if negb (dp_repo dp) then Ret (Err (EMsg "composite route repository is not configured")) else k.

Definition ListCompositeRoutes (gid : Z) : prg (result error (list CompositeModelRoute)) :=
  of_group gid (lift EDB (read (list_by_group gid true))).

Definition CreateCompositeRoute (gid : Z) (i : CompositeRouteInput) : prg (result error CompositeModelRoute) :=
  of_group gid
    match compositeRouteFromInput gid i with
    | Err m => Ret (Err (EMsg m))
    | Ok r => lift persistence_error (write (create_route r))
    end.

Definition UpdateCompositeRoute (gid id : Z) (i : CompositeRouteInput) : prg (result error CompositeModelRoute) :=
  of_group gid
    (try ok := compositeRouteBelongsToGroup gid id in
     if negb ok then Ret (Err ErrCompositeRouteNotFound)
     else match compositeRouteFromInput gid i with
          | Err m => Ret (Err (EMsg m))
          | Ok r => lift persistence_error (write (update_route (with_id id gid r)))
          end).

Definition DeleteCompositeRoute (gid id : Z) : prg (result error unit) :=
  of_group gid
    (try ok := compositeRouteBelongsToGroup gid id in
     if negb ok then Ret (Err ErrCompositeRouteNotFound)
     else lift persistence_error (write (delete_route id))).

(** ** Resolving a model *)

Definition resolveCompositeModelOwnership (gid : Z) (model : bytes) : prg (result error CompositeModelOwnership) :=
  let model := TrimSpace model in
  if (gid <=? 0) || bool_decide (model = []) then Ret (Ok (mkOwnership [] false false false))
  else
    let! cached := (if dp_cache dp then ask (QCached gid model) else Ret None) in
    match cached with
    | Some o => Ret (Ok o)
    | None =>
        let! r := ask (QCandidates gid) in
        match r with
        | Err e => Ret (Err (EDB e))
        | Ok accounts =>
            let o := ownership_of accounts model in
            let! _ := (if dp_cache dp then ask (QCache gid model o) else Ret tt) in
            Ret (Ok o)
        end
    end.

Section decisions.
Context (gid : Z) (model endpoint : bytes).

Definition unresolved (reason : string) : CompositeRouteDecision :=
  mkDecision false None gid model [] [] endpoint None reason.

Definition explicit_decision (route : CompositeModelRoute) : CompositeRouteDecision :=
  let upstreamModel := TrimSpace (rt_UpstreamModel route) in
  mkDecision true (Some CompositeRouteSourceExplicit) gid model (rt_TargetPlatform route)
    (if bool_decide (upstreamModel = []) then model else upstreamModel) endpoint (Some route) "".

Definition detector_decision : CompositeRouteDecision :=
  match DetectModelPlatform model with
  | Some platform =>
      mkDecision true (Some CompositeRouteSourceDetector) gid model (lit platform) model endpoint None ""
  | None => unresolved "no explicit route or built-in detector match"
  end.

(** [None]: the accounts do not decide, and the name is looked at. *)
Definition ownership_decision (r : result error CompositeModelOwnership)
    : result error (option CompositeRouteDecision) :=
  match r with
  | Err e =>
      match DetectModelPlatform model with
      | Some _ => Ok None
      | None => Err (EMsg "resolve account model ownership")
      end
  | Ok o =>
      if ow_Ambiguous o then
        Ok (Some (unresolved match DetectModelPlatform model with
                             | Some guessed => if ow_OpenAIGatewayOAuthClaimed o && Platforms.UsesOpenAIGateway guessed
                                               then CompositeRouteReasonOAuthAmbiguous
                                               else CompositeRouteReasonAmbiguous
                             | None => CompositeRouteReasonAmbiguous
                             end))
      else if ow_Matched o then
        let platform := TrimSpace (ow_TargetPlatform o) in
        Ok (Some (if negb (isConcreteRequestPlatform platform)
                  then unresolved "account model ownership has no concrete target platform"
                  else mkDecision true (Some CompositeRouteSourceAccount) gid model platform model endpoint None ""))
      else Ok None
  end.
End decisions.

Definition Resolve (gid : Z) (model endpoint : bytes) : prg (result error CompositeRouteDecision) :=
  let model := TrimSpace model in
  let endpoint := normalizeCompositeRouteEndpoint endpoint in
  if bool_decide (model = []) then Ret (Ok (unresolved gid model endpoint "model is required"))
  else
    try explicit := (if dp_repo dp && (0 <? gid) then
                       try routes := lift (λ _, EMsg "list composite routes") (read (list_by_group gid false)) in
                       Ret (Ok (matchCompositeRoute routes model endpoint))
                     else Ret (Ok None)) in
    match explicit with
    | Some route => Ret (Ok (explicit_decision gid model endpoint route))
    | None =>
        try owned := (if dp_ownership dp && (0 <? gid) then
                        let! r := resolveCompositeModelOwnership gid model in
                        Ret (ownership_decision gid model endpoint r)
                      else Ret (Ok None)) in
        Ret (Ok match owned with Some d => d | None => detector_decision gid model endpoint end)
    end.

Definition PreviewCompositeRoute (gid : Z) (model endpoint : bytes) : prg (result error CompositeRouteDecision) :=
  try _ := ValidateSimpleModeGroupOperation in
  try _ := requireCompositeGroup gid in
  Resolve gid model endpoint.

Definition ListExactPublicModels (gid : Z) (endpoint : bytes) (includeSystemOne : bool) : prg (result error (list bytes)) :=
  if negb (dp_repo dp) || (gid <=? 0) then Ret (Ok [])
  else try routes := lift EDB (read (list_by_group gid false)) in
       Ret (Ok (exact_models routes endpoint includeSystemOne)).

Definition FilterCodexModels (gid : Z) (models : list bytes) : prg (result error (list bytes)) :=
  if negb (dp_repo dp) || (gid <=? 0) then Ret (Ok models)
  else try routes := lift EDB (read (list_by_group gid false)) in
       Ret (Ok (filterSystemOneRouteModels routes models CompositeRouteEndpointResponses)).

(** ** A request *)

(** What the context of a request carries. *)
Record Context := mkContext {
  cx_ResolvedTargetPlatform : option bytes;
  cx_ResolvedUpstreamModel : option bytes;
  cx_RequestedPublicModel : option bytes;
  cx_CompositeRouteSource : option route_source
}.
Definition background : Context := mkContext None None None None.

(** The value trimmed, when something is left. *)
Definition trimmed_value (v : option bytes) : option bytes :=
  v ← v; let v := TrimSpace v in if bool_decide (v = []) then None else Some v.
Definition kept (v : bytes) (old : option bytes) : option bytes :=
  match trimmed_value (Some v) with Some v => Some v | None => old end.

Definition ResolvedTargetPlatformFromContext (ctx : Context) : option bytes := trimmed_value (cx_ResolvedTargetPlatform ctx).
Definition ResolvedUpstreamModelFromContext (ctx : Context) : option bytes := trimmed_value (cx_ResolvedUpstreamModel ctx).

Definition WithCompositeRouteDecision (ctx : Context) (d : CompositeRouteDecision) : Context :=
  if negb (d_Matched d) then ctx
  else mkContext (kept (d_TargetPlatform d) (cx_ResolvedTargetPlatform ctx))
         (kept (d_UpstreamModel d) (cx_ResolvedUpstreamModel ctx))
         (kept (d_PublicModel d) (cx_RequestedPublicModel ctx))
         (match d_Source d with Some s => Some s | None => cx_CompositeRouteSource ctx end).

(** [None] beside no error: not matched. *)
Definition resolveCompositeRouteDecision (ctx : Context) (gid : Z) (platform requestedModel endpoint : bytes)
    : prg (result error (option CompositeRouteDecision)) :=
  if negb (bool_decide (platform = PlatformComposite)) then Ret (Ok None)
  else
    match ResolvedTargetPlatformFromContext ctx with
    | Some target =>
        Ret (Ok (Some (mkDecision true (Some (default CompositeRouteSourceDetector (cx_CompositeRouteSource ctx))) gid
          requestedModel target (default requestedModel (ResolvedUpstreamModelFromContext ctx))
          (normalizeCompositeRouteEndpoint endpoint) None "")))
    | None =>
        try d := Resolve gid requestedModel endpoint in
        Ret (Ok (if d_Matched d then Some d else None))
    end.

(** [compositeTargetPlatformMiddleware]: the context and the model the handlers see,
    or the response. *)
Definition compositeTargetPlatformMiddleware (gid : Z) (model path : bytes)
    : prg (result Z (option CompositeRouteDecision * Context * bytes)) :=
  if bool_decide (model = []) then Ret (Ok (None, background, model))
  else
    let! r := Resolve gid model (compositeRouteEndpointForPath path) in
    match r with
    | Err _ => Ret (Err 500)
    | Ok d =>
        if OAuthAmbiguous d then Ret (Err 400)
        else if d_Matched d then
          let upstreamModel := TrimSpace (d_UpstreamModel d) in
          let! rewritten := (if negb (bool_decide (upstreamModel = [])) && negb (bool_decide (upstreamModel = model))
                             then ask QRewrite else Ret false) in
          Ret (Ok (Some d, WithCompositeRouteDecision background d, if rewritten : bool then upstreamModel else model))
        else Ret (Ok (Some d, background, model))
    end.

(** The selection of an account, as far as it resolves the platform. *)
Definition scheduling_target (ctx : Context) (gid : Z) (requestedModel : bytes) : prg outcome :=
  let! r := resolveCompositeRouteDecision ctx gid PlatformComposite requestedModel CompositeRouteEndpointAny in
  Ret match r with
      | Err _ => Rejected 500
      | Ok None => NoAvailableAccounts
      | Ok (Some d) => Scheduled (d_TargetPlatform d) (d_UpstreamModel d)
      end.

(** ** The handlers *)

Definition WithResolvedTargetPlatform (ctx : Context) (platform : bytes) : Context :=
  mkContext (kept platform (cx_ResolvedTargetPlatform ctx)) (cx_ResolvedUpstreamModel ctx) (cx_RequestedPublicModel ctx)
    (cx_CompositeRouteSource ctx).

(** A model that the middleware left undecided is given the platform of its name. *)
Definition ensureCompositeTargetPlatform (ctx : Context) (model : bytes) : Context :=
  match ResolvedTargetPlatformFromContext ctx with
  | Some _ => ctx
  | None =>
      match DetectModelPlatform model with
      | Some platform => WithResolvedTargetPlatform ctx (lit platform)
      | None => ctx
      end
  end.

Definition compositeTargetPlatformAllowed (ctx : Context) (model : bytes) (allowed : list string) : Context * bool :=
  let ctx := ensureCompositeTargetPlatform ctx model in
  (ctx, match ResolvedTargetPlatformFromContext ctx with
        | Some platform => bool_decide (platform ∈ lit <$> allowed)
        | None => false
        end).

Definition compositeTargetPlatformResolved (ctx : Context) (model : bytes) : Context * bool :=
  let ctx := ensureCompositeTargetPlatform ctx model in
  (ctx, bool_decide (is_Some (ResolvedTargetPlatformFromContext ctx))).

Definition effectiveAPIKeyPlatform (ctx : Context) : bytes := default PlatformComposite (ResolvedTargetPlatformFromContext ctx).

#[local] Existing Instance Platforms.PlatformGateway_eq_dec.
Definition openAICompatibleTextTargetAllowed (ctx : Context) (model : bytes) : Context * bool :=
  compositeTargetPlatformAllowed ctx model (Platforms.PlatformIDsWhere (λ spec, bool_decide (Platforms.Gateway spec = Platforms.PlatformGatewayOpenAI))).

Definition rejectSystemOneOnlyPlatform (ctx : Context) : bool := bool_decide (effectiveAPIKeyPlatform ctx = lit "typesafe").

(** The one model of [ValidateSystemOneRequest]. *)
Definition JevLatestModel : bytes := lit "jev-latest".

(** The model as the handler reads it from the body. *)
Definition handler_model (h : handler) (model : bytes) : bytes :=
  match h with AlphaSearchHandler => TrimSpace model | _ => model end.

(** What a handler does before it looks for an account, on a well-formed body: the
    context, or the status of its refusal.  The handlers that take a blank model for
    one find no platform for it, and refuse it alike. *)
Definition pass_guards (h : handler) (ctx : Context) (model : bytes) : result Z Context :=
  let passes (r : Context * bool) (status : Z) : result Z Context := if snd r then Ok (fst r) else Err status in
  if bool_decide (TrimSpace model = []) then Err 400
  else
    let ctx := ensureCompositeTargetPlatform ctx model in
    match h with
    | GatewayHandler =>
        match passes (compositeTargetPlatformResolved ctx model) 400 with
        | Err status => Err status
        | Ok ctx => if rejectSystemOneOnlyPlatform ctx then Err 404 else Ok ctx
        end
    | OpenAITextHandler => passes (openAICompatibleTextTargetAllowed ctx model) 400
    | EmbeddingsHandler => passes (compositeTargetPlatformAllowed ctx model ["openai"]) 400
    | AlphaSearchHandler => passes (compositeTargetPlatformAllowed ctx model ["openai"]) 404
    | SystemOneHandler =>
        if negb (bool_decide (model = JevLatestModel)) then Err 400
        else passes (compositeTargetPlatformAllowed ctx model ["typesafe"]) 404
    end.

(** A request to a composite group, up to the choice of its provider. *)
Definition serve (gid : Z) (model path : bytes) (h : handler) : prg unit :=
  let! r := compositeTargetPlatformMiddleware gid model path in
  match r with
  | Err status => log (mkServed gid (Text path h) model None model (Rejected status))
  | Ok (d, ctx, bodyModel) =>
      let requestedModel := handler_model h bodyModel in
      match pass_guards h ctx requestedModel with
      | Err status => log (mkServed gid (Text path h) model d requestedModel (Rejected status))
      | Ok ctx =>
          let! o := scheduling_target ctx gid requestedModel in
          log (mkServed gid (Text path h) model d requestedModel o)
      end
  end.

(** ** The Gemini endpoint *)

(** At the last separator. *)
Definition CutLast (sep : ascii) (s : bytes) : option (bytes * bytes) :=
  match Cut sep (rev s) with Some (after_, before) => Some (rev before, rev after_) | None => None end.

(** The parameter [model] is not bound on this route. *)
Definition compositeGeminiModelFromParams (param : bytes) : bytes :=
  let modelAction := TrimPrefix (TrimSpace param) (lit "/") in
  if bool_decide (modelAction = []) then []
  else match CutLast ":" modelAction with Some (before, _) => TrimSpace before | None => modelAction end.

(** Ambiguity among OAuth accounts is not looked at here. *)
Definition compositeGeminiTargetPlatformMiddleware (gid : Z) (param : bytes) : prg (result Z (option CompositeRouteDecision * Context)) :=
  let or_gemini (ctx : Context) : Context :=
    match ResolvedTargetPlatformFromContext ctx with Some _ => ctx | None => WithResolvedTargetPlatform ctx (lit "gemini") end in
  let model := compositeGeminiModelFromParams param in
  if bool_decide (model = []) then Ret (Ok (None, or_gemini background))
  else
    let! r := Resolve gid model CompositeRouteEndpointGemini in
    Ret match r with
        | Err _ => Err 500
        | Ok d => Ok (Some d, or_gemini (WithCompositeRouteDecision background d))
        end.

Definition two_parts (o : option (bytes * bytes)) : option bytes :=
  match o with Some ((_ :: _) as before, _ :: _) => Some before | _ => None end.
Definition parseGeminiModelAction (rest : bytes) : option bytes :=
  let rest := TrimSpace rest in
  match two_parts (Cut ":" rest) with
  | Some model => Some model
  | None => two_parts (Cut "/" rest)
  end.

Definition isSafeUpstreamPathSegmentByte (b : ascii) : bool :=
  within 97 122 b || within 65 90 b || within 48 57 b || bool_decide (b ∈ lit "_-.").
Definition isSafeUpstreamPathSegment (segment : bytes) : bool :=
  negb (bool_decide (segment = [])) && (Z.of_nat (length segment) <=? 128) && forallb isSafeUpstreamPathSegmentByte segment
  && existsb (λ b, negb (bool_decide (b = "."%char))) segment.
Definition IsSafeGeminiModelPathSegment (model : bytes) : bool := isSafeUpstreamPathSegment (TrimSpace model).

Definition isAntigravityGeminiModel (model : bytes) : bool :=
  let trimmed := Lower (TrimSpace (TrimPrefix model (lit "models/"))) in
  if bool_decide (trimmed = []) || HasPrefix trimmed (lit "claude-") then false
  else bool_decide (DetectModelPlatform trimmed = Some "gemini"%string).

(** [GeminiV1BetaModels] up to the choice of its provider; the model, or a refusal. *)
Definition GeminiV1BetaModels (ctx : Context) (param : bytes) : result Z bytes :=
  let effectivePlatform := effectiveAPIKeyPlatform ctx in
  let antigravity := bool_decide (effectivePlatform = lit "antigravity") in
  if negb (bool_decide (effectivePlatform = lit "gemini")) && negb antigravity then Err 400
  else match parseGeminiModelAction (TrimPrefix param (lit "/")) with
  | None => Err 404
  | Some urlModel =>
      if negb (IsSafeGeminiModelPathSegment urlModel) then Err 400
      else
        let modelName := default urlModel (ResolvedUpstreamModelFromContext ctx) in
        if antigravity && negb (isAntigravityGeminiModel modelName) then Err 400 else Ok modelName
  end.

Definition serve_gemini (gid : Z) (param : bytes) : prg unit :=
  let! r := compositeGeminiTargetPlatformMiddleware gid param in
  match r with
  | Err status => log (mkServed gid Gemini param None [] (Rejected status))
  | Ok (d, ctx) =>
      match GeminiV1BetaModels ctx param with
      | Err status => log (mkServed gid Gemini param d [] (Rejected status))
      | Ok modelName =>
          let! o := scheduling_target ctx gid modelName in
          log (mkServed gid Gemini param d modelName o)
      end
  end.

(** ** The system *)

Inductive request :=
  | RCreate (gid : Z) (i : CompositeRouteInput)
  | RUpdate (gid id : Z) (i : CompositeRouteInput)
  | RDelete (gid id : Z)
  | RServe (gid : Z) (model path : bytes) (h : handler)
  | RGemini (gid : Z) (param : bytes)              (* [/v1beta/models/*modelAction] *)
  | RGroups (f : gmap Z bytes → gmap Z bytes).     (* another service changes the groups *)

Definition ignore {A} (p : prg A) : prg unit := let! _ := p in Ret tt.

Definition entry (r : request) : prg unit :=
  match r with
  | RCreate gid i => ignore (CreateCompositeRoute gid i)
  | RUpdate gid id i => ignore (UpdateCompositeRoute gid id i)
  | RDelete gid id => ignore (DeleteCompositeRoute gid id)
  | RServe gid model path h => serve gid model path h
  | RGemini gid param => serve_gemini gid param
  | RGroups f => ignore (write (λ s, (Ok tt, with_groups f s)))
  end.

Abbreviation event := (event (Q := question) (Req := request)).
Definition reach (es : list event) (s : Store) : Store :=
  cf_store (run_events Lost rs_now advance entry (mkConfig s []) es).

End service.
End CompositeRouting.
