(* ===== verification/CompositeBest.v ===== *)
(** * The best route, by looking up what a route can be

    The resolver collects the routes that match and sorts them.  On a table whose rows
    are in normal form and whose targets are distinct, that finds what four look-ups
    would find: the exact route of the endpoint, the exact route of any endpoint, the
    longest prefix of the endpoint, the longest prefix of any endpoint. *)

From S2P Require Import Prelude GoStrings Platforms Interleaving CompositeRoute.

Module CompositeBest.
Import GoStrings CompositeRoute.

(** ** Sorting *)

Section sorting.
Context {A} (less : A → A → bool).
Hypothesis less_asym : ∀ x y, less x y = true → less y x = false.
Hypothesis less_cotrans : ∀ x y z, less x y = false → less y z = false → less x z = false.

Lemma insert_stable_Permutation x l : insert_stable less x l ≡ₚ x :: l.
Proof. induction l as [|y l IH]; simpl; [done|]. case_match; [|done]. rewrite IH. apply perm_swap. Qed.

Lemma SliceStable_Permutation l : SliceStable less l ≡ₚ l.
Proof. induction l as [|x l IH]; simpl; [done|]. by rewrite insert_stable_Permutation, IH. Qed.

(** Nothing is less than the first element. *)
Definition first_best (l : list A) : Prop := ∀ x, head l = Some x → ∀ y, y ∈ l → less y x = false.

Lemma less_irrefl x : less x x = false.
Proof using less_asym. destruct (less x x) eqn:E; [|done]. by rewrite (less_asym x x E) in E. Qed.

Lemma insert_stable_first x l : first_best l → first_best (insert_stable less x l).
Proof using less_asym less_cotrans.
  destruct l as [|y l]; intros Hl; simpl.
  - intros z [= <-] w ->%list_elem_of_singleton. apply less_irrefl.
  - destruct (less y x) eqn:E.
    + intros z [= <-] w Hw. rewrite insert_stable_Permutation, !elem_of_cons in Hw.
      destruct Hw as [->|[->|Hw]]; [apply less_irrefl|by apply less_asym|]. apply (Hl y eq_refl). by right.
    + intros z [= <-] w Hw. apply elem_of_cons in Hw as [->|Hw]; [apply less_irrefl|].
      apply (less_cotrans w y x); [|done]. by apply (Hl y eq_refl).
Qed.

Lemma SliceStable_first l : first_best (SliceStable less l).
Proof using less_asym less_cotrans.
  induction l as [|x l IH]; simpl; [intros ? [=]|]. by apply insert_stable_first.
Qed.

Lemma SliceStable_head l : match head (SliceStable less l) with
                           | Some x => x ∈ l ∧ ∀ y, y ∈ l → less y x = false
                           | None => l = []
                           end.
Proof using less_asym less_cotrans.
  pose proof (SliceStable_first l) as Hf. pose proof (SliceStable_Permutation l) as Hp. unfold first_best in Hf.
  destruct (SliceStable less l) as [|x l']; simpl in *; [by apply Permutation_nil in Hp|].
  split; [rewrite <- Hp; by left|]. intros y Hy. rewrite <- Hp in Hy. by apply Hf.
Qed.

End sorting.

Lemma better_asym a b : better a b = true → better b a = false.
Proof. unfold better. intros. repeat case_match; lia. Qed.

Lemma better_cotrans a b c : better a b = false → better b c = false → better a c = false.
Proof. unfold better. intros. repeat case_match; lia. Qed.

(** ** Routes in normal form *)

Record normal (r : CompositeModelRoute) : Prop := {
  nf_model : TrimSpace (rt_PublicModel r) = rt_PublicModel r;
  nf_nonempty : rt_PublicModel r ≠ [];
  nf_match : rt_MatchType r ∈ [CompositeRouteMatchExact; CompositeRouteMatchPrefix];
  nf_endpoint : rt_Endpoint r ∈ CompositeRouteEndpointAny :: endpoints
}.

Definition target (r : CompositeModelRoute) : bytes * bytes * bytes := (rt_Endpoint r, rt_MatchType r, rt_PublicModel r).

(** A group's routes: in normal form, with distinct targets. *)
Definition well_formed (routes : list CompositeModelRoute) : Prop :=
  Forall normal routes ∧ ∀ r r', r ∈ routes → r' ∈ routes → target r = target r' → r = r'.

Section best.
Context `{Unicode}.

Lemma normal_endpoint e : e ∈ CompositeRouteEndpointAny :: endpoints → normalizeCompositeRouteEndpoint e = e.
Proof.
  intros He. unfold endpoints in He. set_unfold in He. unfold normalizeCompositeRouteEndpoint.
  destruct_or! He; try subst e; by vm_compute.
Qed.

Lemma normal_match m : m ∈ [CompositeRouteMatchExact; CompositeRouteMatchPrefix] → normalizeCompositeRouteMatchType m = m.
Proof. intros Hm. set_unfold in Hm. destruct_or! Hm; try subst m; by vm_compute. Qed.

Lemma set_target_same r : set_target (rt_Endpoint r) (rt_MatchType r) r = r.
Proof. by destruct r. Qed.

(** ** The look-ups *)

Definition at_target (routes : list CompositeModelRoute) (e t m : bytes) : option CompositeModelRoute :=
  snd <$> list_find (λ r, target r = (e, t, m)) routes.

Fixpoint longest_prefix (routes : list CompositeModelRoute) (e model : bytes) (n : nat) : option CompositeModelRoute :=
  match n with
  | O => None
  | S n' => match at_target routes e CompositeRouteMatchPrefix (take n model) with
            | Some r => Some r
            | None => longest_prefix routes e model n'
            end
  end.

Definition first_some {A} (o o' : option A) : option A := match o with Some a => Some a | None => o' end.

Definition reference (routes : list CompositeModelRoute) (model endpoint : bytes) : option CompositeModelRoute :=
  first_some (at_target routes endpoint CompositeRouteMatchExact model)
    (first_some (at_target routes CompositeRouteEndpointAny CompositeRouteMatchExact model)
      (first_some (longest_prefix routes endpoint model (length model))
        (longest_prefix routes CompositeRouteEndpointAny model (length model)))).


Section routes.
Context (routes : list CompositeModelRoute) (Hwf : well_formed routes) (model endpoint : bytes).
#[local] Abbreviation any := CompositeRouteEndpointAny.
#[local] Abbreviation exact := CompositeRouteMatchExact.
#[local] Abbreviation prefix := CompositeRouteMatchPrefix.

Lemma at_target_Some e t m r : at_target routes e t m = Some r ↔ r ∈ routes ∧ target r = (e, t, m).
Proof using Hwf.
  unfold at_target. destruct Hwf as [_ Hu]. destruct (list_find _ routes) as [[i r']|] eqn:E; simpl.
  - apply list_find_Some in E as (Hi & Hr' & _). apply list_elem_of_lookup_2 in Hi. split; [by intros [= <-]|].
    intros [Hr Ht]. f_equal. apply Hu; [done|done|by rewrite Ht].
  - apply list_find_None in E. split; [done|]. intros [Hr Ht]. rewrite Forall_forall in E. by destruct (E r Hr).
Qed.

Lemma at_target_None e t m : at_target routes e t m = None ↔ ∀ r, r ∈ routes → target r ≠ (e, t, m).
Proof using Hwf.
  split; intros Hn.
  - intros r Hr Ht. assert (at_target routes e t m = Some r) by (by apply at_target_Some). congruence.
  - destruct (at_target routes e t m) as [r|] eqn:E; [|done]. apply at_target_Some in E as [Hr Ht]. by destruct (Hn r Hr).
Qed.

(** The candidates, as what makes them so. *)
Definition candidate_spec (c : candidate) : Prop :=
  let r := cd_route c in
  r ∈ routes ∧ (rt_Endpoint r = endpoint ∧ cd_endpointWeight c = 1 ∨ rt_Endpoint r = any ∧ endpoint ≠ any ∧ cd_endpointWeight c = 0) ∧
  cd_prefixLen c = Z.of_nat (length (rt_PublicModel r)) ∧
  (rt_MatchType r = exact ∧ rt_PublicModel r = model ∧ cd_matchStrength c = 2 ∨
   rt_MatchType r = prefix ∧ rt_PublicModel r `prefix_of` model ∧ cd_matchStrength c = 1).

Lemma candidate_of_spec r c : r ∈ routes → candidate_of model endpoint r = Some c → candidate_spec c ∧ cd_route c = r.
Proof using Hwf.
  intros Hr. destruct Hwf as [Hn _]. rewrite Forall_forall in Hn. destruct (Hn r Hr) as [Hm Hne Ht He].
  unfold candidate_of. rewrite normal_endpoint, normal_match, set_target_same, Hm by done.
  unfold HasPrefix, is_prefix. rewrite (bool_decide_eq_false_2 (rt_PublicModel r = [])) by done. intros Hc.
  repeat case_bool_decide; simpl in Hc; try discriminate Hc; injection Hc as <-; (split; [|done]); unfold candidate_spec; simpl;
    split_and!; try done; first [left; split_and!; congruence|left; by split_and!|right; split_and!; congruence|right; by split_and!].
Qed.

Lemma candidate_exists c : candidate_spec c → c ∈ omap (candidate_of model endpoint) routes.
Proof using Hwf.
  intros (Hr & He & Hl & Ht). apply list_elem_of_omap. exists (cd_route c). split; [done|].
  destruct Hwf as [Hn _]. rewrite Forall_forall in Hn. destruct (Hn _ Hr) as [Hm Hne Htm Hem].
  unfold candidate_of. rewrite normal_endpoint, normal_match, set_target_same, Hm by done.
  unfold HasPrefix, is_prefix. destruct c as [r st w n]; simpl in *. rewrite (bool_decide_eq_false_2 (rt_PublicModel r = [])) by done.
  assert (prefix ≠ exact) by done.
  destruct He as [[He ->]|(He & Hany & ->)], Ht as [(Ht & Hpm & ->)|(Ht & Hp & ->)]; subst n;
    repeat case_bool_decide; simpl; congruence.
Qed.

Lemma longest_prefix_spec e n : match longest_prefix routes e model n with
  | Some r => ∃ k, (k ≤ n)%nat ∧ at_target routes e prefix (take k model) = Some r ∧
                   ∀ j, (k < j ≤ n)%nat → at_target routes e prefix (take j model) = None
  | None => ∀ j, (0 < j ≤ n)%nat → at_target routes e prefix (take j model) = None
  end.
Proof.
  induction n as [|n IH]; simpl; [intros; lia|]. destruct (at_target routes e prefix (take (S n) model)) as [r|] eqn:E.
  - exists (S n). split_and!; [done|done|intros; lia].
  - destruct (longest_prefix routes e model n) as [r|].
    + destruct IH as (k & Hk & Hr & Hj). exists k. split_and!; [lia|done|]. intros j Hj'.
      destruct (decide (j = S n)) as [->|]; [done|]. apply Hj. lia.
    + intros j Hj. destruct (decide (j = S n)) as [->|]; [done|]. apply IH. lia.
Qed.

(** A prefix of the model among the routes, and the longest one. *)
Lemma prefix_target e r : r ∈ routes → rt_Endpoint r = e → rt_MatchType r = prefix → rt_PublicModel r `prefix_of` model →
  at_target routes e prefix (take (length (rt_PublicModel r)) model) = Some r ∧
  (0 < length (rt_PublicModel r) ≤ length model)%nat.
Proof using Hwf.
  intros Hr He Ht Hp. pose proof (prefix_length _ _ Hp). destruct Hp as [k Hk]. split.
  - apply at_target_Some. split; [done|]. unfold target. rewrite He, Ht, Hk at 1. by rewrite take_app_length.
  - destruct Hwf as [Hn _]. rewrite Forall_forall in Hn. destruct (Hn r Hr) as [_ Hne _ _].
    split; [|done]. destruct (rt_PublicModel r); [done|simpl; lia].
Qed.

Lemma longest_prefix_best e r : r ∈ routes → rt_Endpoint r = e → rt_MatchType r = prefix → rt_PublicModel r `prefix_of` model →
  (∀ r', r' ∈ routes → rt_Endpoint r' = e → rt_MatchType r' = prefix → rt_PublicModel r' `prefix_of` model →
         (length (rt_PublicModel r') ≤ length (rt_PublicModel r))%nat) →
  longest_prefix routes e model (length model) = Some r.
Proof using Hwf.
  intros Hr He Ht Hp Hmax. destruct (prefix_target e r Hr He Ht Hp) as [Hat Hlen].
  pose proof (longest_prefix_spec e (length model)) as Hspec. destruct (longest_prefix routes e model (length model)) as [r'|].
  - destruct Hspec as (k & Hk & Hr' & Hj). apply at_target_Some in Hr' as [Hin' Ht'].
    injection Ht' as He' Hm' Hp'.
    assert (k = length (rt_PublicModel r)) as ->; [|].
    { assert (length (rt_PublicModel r') = k) as Hk' by (rewrite Hp', length_take; lia).
      pose proof (Hmax r' Hin' He' Hm' ltac:(rewrite Hp'; apply prefix_take)).
      destruct (decide (k = length (rt_PublicModel r))) as [|Hne]; [done|]. rewrite Hj in Hat by lia. done. }
    rewrite <- Hat. symmetry. apply at_target_Some. split; [done|]. unfold target. congruence.
  - rewrite Hspec in Hat by lia. done.
Qed.

Lemma no_longest_prefix e :
  (∀ r, r ∈ routes → rt_Endpoint r = e → rt_MatchType r = prefix → ¬ rt_PublicModel r `prefix_of` model) →
  longest_prefix routes e model (length model) = None.
Proof using Hwf.
  intros Hno. pose proof (longest_prefix_spec e (length model)) as Hspec.
  destruct (longest_prefix routes e model (length model)) as [r|]; [|done].
  destruct Hspec as (k & Hk & (Hr & Ht)%at_target_Some & _). injection Ht as He Ht Hp.
  destruct (Hno r Hr He Ht). rewrite Hp. apply prefix_take.
Qed.

(** The candidates the routes give. *)
Lemma exact_candidate r e : r ∈ routes → target r = (e, exact, model) → e = endpoint ∨ e = any →
  ∃ c, candidate_spec c ∧ cd_matchStrength c = 2 ∧ cd_endpointWeight c = (if decide (e = endpoint) then 1 else 0).
Proof.
  intros Hr [= He Ht Hp] Hor. exists (mkCandidate r 2 (if decide (e = endpoint) then 1 else 0) (Z.of_nat (length (rt_PublicModel r)))).
  unfold candidate_spec. simpl. split_and!; [done| |done|by left|done|done].
  destruct (decide (e = endpoint)) as [->|]; [by left|right]. destruct Hor as [->| ->]; [done|]. split_and!; congruence.
Qed.

Lemma prefix_candidate r : r ∈ routes → rt_Endpoint r = endpoint ∨ rt_Endpoint r = any → rt_MatchType r = prefix →
  rt_PublicModel r `prefix_of` model →
  ∃ c, candidate_spec c ∧ cd_matchStrength c = 1 ∧ cd_prefixLen c = Z.of_nat (length (rt_PublicModel r)) ∧
       cd_endpointWeight c = (if decide (rt_Endpoint r = endpoint) then 1 else 0).
Proof.
  intros Hr Hor Ht Hp.
  exists (mkCandidate r 1 (if decide (rt_Endpoint r = endpoint) then 1 else 0) (Z.of_nat (length (rt_PublicModel r)))).
  unfold candidate_spec. simpl. split_and!; [done| |done|by right|done|done|done].
  destruct (decide (rt_Endpoint r = endpoint)); [by left|right]. destruct Hor as [?|Hany]; [done|]. split_and!; congruence.
Qed.

Lemma not_better a b : better a b = false → cd_matchStrength a <= cd_matchStrength b ∧
  (cd_matchStrength a = cd_matchStrength b → cd_endpointWeight a <= cd_endpointWeight b ∧
   (cd_endpointWeight a = cd_endpointWeight b → cd_prefixLen a <= cd_prefixLen b)).
Proof. unfold better. intros. repeat case_match; lia. Qed.

Section chosen.
Context (c : candidate) (Hc : candidate_spec c) (Hbest : ∀ c', candidate_spec c' → better c' c = false).

Lemma no_better_exact e : cd_matchStrength c = 1 → e = endpoint ∨ e = any → at_target routes e exact model = None.
Proof using Hwf Hbest.
  intros Hs He. apply at_target_None. intros r Hr Ht. destruct (exact_candidate r e Hr Ht He) as (c' & Hc' & Hs' & _).
  apply Hbest, not_better in Hc'. lia.
Qed.

Lemma no_better_endpoint : cd_endpointWeight c = 0 → cd_matchStrength c = 2 → at_target routes endpoint exact model = None.
Proof using Hwf Hbest.
  intros Hw Hs. apply at_target_None. intros r Hr Ht.
  destruct (exact_candidate r endpoint Hr Ht ltac:(by left)) as (c' & Hc' & Hs' & Hw').
  rewrite decide_True in Hw' by done. apply Hbest, not_better in Hc'. lia.
Qed.

Lemma no_better_prefix r : cd_matchStrength c = 1 → r ∈ routes → rt_Endpoint r = endpoint ∨ rt_Endpoint r = any →
  rt_MatchType r = prefix → rt_PublicModel r `prefix_of` model →
  (if decide (rt_Endpoint r = endpoint) then 1 else 0) <= cd_endpointWeight c ∧
  (cd_endpointWeight c = (if decide (rt_Endpoint r = endpoint) then 1 else 0) → Z.of_nat (length (rt_PublicModel r)) <= cd_prefixLen c).
Proof using Hwf Hbest.
  intros Hs Hr He Ht Hp. destruct (prefix_candidate r Hr He Ht Hp) as (c' & Hc' & Hs' & Hl' & Hw').
  apply Hbest, not_better in Hc'. rewrite <- Hw', <- Hl'. lia.
Qed.

(** The best of the candidates is what the look-ups find. *)
Lemma best_is_reference : reference routes model endpoint = Some (cd_route c).
Proof using Hwf Hc Hbest.
  pose proof Hc as (Hr & He & Hl & Ht). unfold reference.
  destruct Ht as [(Ht & Hp & Hs)|(Ht & Hp & Hs)].
  - assert (Hat : at_target routes (rt_Endpoint (cd_route c)) exact model = Some (cd_route c)).
    { apply at_target_Some. split; [done|]. unfold target. congruence. }
    destruct He as [[He Hw]|(He & Hany & Hw)]; rewrite He in Hat; [by rewrite Hat|].
    by rewrite no_better_endpoint, Hat by done.
  - rewrite !no_better_exact by auto. cbn [first_some].
    destruct He as [[He Hw]|(He & Hany & Hw)].
    + rewrite (longest_prefix_best endpoint (cd_route c)); try done. intros r' Hr' He' Ht' Hp'.
      destruct (no_better_prefix r' Hs Hr' ltac:(by left) Ht' Hp') as [_ Hlen].
      rewrite decide_True in Hlen by done. specialize (Hlen Hw). lia.
    + rewrite no_longest_prefix; cbn [first_some].
      * apply longest_prefix_best; [done..|]. intros r' Hr' He' Ht' Hp'.
        destruct (no_better_prefix r' Hs Hr' ltac:(by right) Ht' Hp') as [_ Hlen].
        rewrite decide_False in Hlen by congruence. specialize (Hlen Hw). lia.
      * intros r' Hr' He' Ht' Hp'. destruct (no_better_prefix r' Hs Hr' ltac:(by left) Ht' Hp') as [Hw' _].
        rewrite decide_True in Hw' by done. lia.
Qed.

End chosen.

Lemma no_candidate : (∀ c, ¬ candidate_spec c) → reference routes model endpoint = None.
Proof using Hwf.
  intros Hno. unfold reference.
  assert (Hex : ∀ e, e = endpoint ∨ e = any → at_target routes e exact model = None).
  { intros e He. apply at_target_None. intros r Hr Ht. destruct (exact_candidate r e Hr Ht He) as (c & Hc & _). by destruct (Hno c). }
  assert (Hpre : ∀ e, e = endpoint ∨ e = any → longest_prefix routes e model (length model) = None).
  { intros e He. apply no_longest_prefix. intros r Hr He' Ht Hp. subst e. destruct (prefix_candidate r Hr He Ht Hp) as (c & Hc & _).
    by destruct (Hno c). }
  by rewrite !Hex, !Hpre by auto.
Qed.

Lemma matchCompositeRoute_reference : matchCompositeRoute routes model endpoint = reference routes model endpoint.
Proof using Hwf.
  unfold matchCompositeRoute. pose proof (SliceStable_head better better_asym better_cotrans
    (omap (candidate_of model endpoint) routes)) as Hh.
  destruct (head _) as [c|]; simpl.
  - destruct Hh as [(r & Hr & Hc)%list_elem_of_omap Hb]. destruct (candidate_of_spec r c Hr Hc) as [Hspec <-].
    symmetry. apply best_is_reference; [done|]. intros c' Hc'. apply Hb. by apply candidate_exists.
  - symmetry. apply no_candidate. intros c Hc%candidate_exists. rewrite Hh in Hc. by apply not_elem_of_nil in Hc.
Qed.

End routes.

(** ** What does not matter *)

Definition set_priority (f : CompositeModelRoute → Z) (r : CompositeModelRoute) : CompositeModelRoute :=
  mkRoute (rt_ID r) (rt_GroupID r) (rt_PublicModel r) (rt_MatchType r) (rt_TargetPlatform r) (rt_UpstreamModel r)
    (rt_Endpoint r) (f r) (rt_Enabled r) (rt_Notes r).

Lemma first_some_fmap {A B} (g : A → B) o o' : first_some (g <$> o) (g <$> o') = g <$> first_some o o'.
Proof. by destruct o. Qed.

Lemma well_formed_priority f routes routes' : well_formed routes → routes' ≡ₚ set_priority f <$> routes → well_formed routes'.
Proof.
  intros [Hn Hu] Hp. split.
  - rewrite Hp. apply Forall_fmap. eapply Forall_impl; [exact Hn|]. by intros r [].
  - intros r r'. rewrite Hp, !list_elem_of_fmap. intros (q & -> & Hq) (q' & -> & Hq') Ht. f_equal. by apply Hu.
Qed.

Lemma at_target_priority f routes routes' e t m : well_formed routes → routes' ≡ₚ set_priority f <$> routes →
  at_target routes' e t m = set_priority f <$> at_target routes e t m.
Proof.
  intros Hwf Hp. pose proof (well_formed_priority f routes routes' Hwf Hp) as Hwf'.
  destruct (at_target routes e t m) as [r|] eqn:E; simpl.
  - apply at_target_Some in E as [Hr Ht]; [|done]. apply at_target_Some; [done|]. split; [|done].
    rewrite Hp. by apply list_elem_of_fmap_2.
  - apply at_target_None; [done|]. intros r. rewrite Hp, list_elem_of_fmap. intros (q & -> & Hq) Ht.
    by apply (proj1 (at_target_None routes Hwf e t m) E q Hq).
Qed.

(** Neither the order of the routes nor their priorities change the choice. *)
Lemma reference_priority f routes routes' model endpoint : well_formed routes → routes' ≡ₚ set_priority f <$> routes →
  reference routes' model endpoint = set_priority f <$> reference routes model endpoint.
Proof.
  intros Hwf Hp.
  assert (Ha : ∀ e t m, at_target routes' e t m = set_priority f <$> at_target routes e t m) by by intros; apply at_target_priority.
  assert (Hl : ∀ e n, longest_prefix routes' e model n = set_priority f <$> longest_prefix routes e model n).
  { intros e. induction n as [|n IH]; simpl; [done|]. rewrite Ha. by destruct (at_target routes e _ _). }
  unfold reference. by rewrite !Ha, !Hl, !first_some_fmap.
Qed.

End best.
End CompositeBest.
