(* ===== verification/CompositeInvariant.v ===== *)
(** * What every run keeps of composite routes

    The table stays in normal form with one live route per target, rows keep their
    group, and no request changes the routes of a group it does not name. *)

From S2P Require Import Prelude GoStrings Platforms Interleaving CompositeRoute CompositeRouting CompositeBest.

Module CompositeInvariant.
Import GoStrings CompositeRoute CompositeRouting CompositeBest.

(** ** Platforms *)

Lemma concrete_platform p : isConcreteRequestPlatform p = true → TrimSpace p = p ∧ p ≠ [].
Proof.
  unfold isConcreteRequestPlatform. intros Hp.
  apply (proj1 (proj1 (proj2 (Platforms.LookupPlatform_spec _ (Platforms.mkSpec "" "" Platforms.PlatformGatewayGemini false ""))))) in Hp.
  assert (Forall (λ id, TrimSpace (lit id) = lit id ∧ lit id ≠ []) Platforms.ConcretePlatformIDs) as Hall.
  { apply (bool_decide_eq_true_1 _). by vm_compute. }
  rewrite Forall_forall in Hall. apply Hall in Hp. unfold lit in Hp. by rewrite String.list_ascii_of_string_of_list_ascii in Hp.
Qed.

Lemma provider_platform_concrete b p : provider_platform b = Some p → isConcreteRequestPlatform (lit p) = true.
Proof. unfold provider_platform. intros Hp. repeat (case_match; simplify_eq); by vm_compute. Qed.

Lemma name_platform_concrete b p : name_platform b = Some p → isConcreteRequestPlatform (lit p) = true.
Proof. unfold name_platform. intros Hp. repeat (case_match; simplify_eq); by vm_compute. Qed.

Section platforms.
Context `{Unicode}.

Lemma DetectModelPlatform_concrete m p : DetectModelPlatform m = Some p → isConcreteRequestPlatform (lit p) = true.
Proof.
  unfold DetectModelPlatform. intros Hp. repeat (case_match; try done); simplify_eq;
    first [by eapply provider_platform_concrete|by eapply name_platform_concrete].
Qed.

End platforms.

(** ** The table *)

Record row_ok (id : Z) (row : Row) : Prop := {
  ro_normal : normal (row_route row);
  ro_id : rt_ID (row_route row) = id;
  ro_concrete : isConcreteRequestPlatform (rt_TargetPlatform (row_route row)) = true
}.

Record tables_ok (s : Store) : Prop := {
  to_rows : ∀ id row, rs_rows s !! id = Some row → row_ok id row ∧ id < rs_next s;
  to_unique : ∀ id id' row row', rs_rows s !! id = Some row → rs_rows s !! id' = Some row' →
    active row = true → active row' = true → same_target (row_route row) (row_route row') = true → id = id'
}.

Definition group_of (row : Row) : Z := rt_GroupID (row_route row).
Definition rows_of (gid : Z) (s : Store) : gmap Z Row := filter (λ p, group_of p.2 = gid) (rs_rows s).

Section table.
Context (guarded : Z → Prop).

(** Rows keep their group; the rows of guarded groups stay as they are. *)
Record later (s s' : Store) : Prop := {
  la_rows : ∀ id row, rs_rows s !! id = Some row → ∃ row', rs_rows s' !! id = Some row' ∧ group_of row' = group_of row;
  la_guarded : ∀ gid, guarded gid → rows_of gid s' = rows_of gid s
}.

#[export] Instance later_preorder : PreOrder later.
Proof.
  split.
  - intros s. split; [eauto|done].
  - intros s1 s2 s3 [H1 G1] [H2 G2]. split.
    + intros id row Hr. destruct (H1 id row Hr) as (r2 & Hr2 & <-). destruct (H2 id r2 Hr2) as (r3 & Hr3 & <-). eauto.
    + intros g Hg. by rewrite G2, G1.
Qed.

Lemma later_same s s' : rs_rows s' = rs_rows s → later s s'.
Proof. intros E. split; unfold rows_of; rewrite E; eauto. Qed.

Lemma rows_of_insert s id row f n : ¬ guarded (group_of row) →
  (∀ old, rs_rows s !! id = Some old → group_of old = group_of row) →
  f = insert id row → later s (with_rows f n s).
Proof.
  intros Hg Hold ->. split; simpl.
  - intros i r Hr. destruct (decide (i = id)) as [->|]; [|rewrite lookup_insert_ne by done; eauto].
    exists row. rewrite lookup_insert_eq. by rewrite (Hold r Hr).
  - intros g Hgg. unfold rows_of. simpl. apply map_eq. intros i. apply option_eq. intros r.
    rewrite !map_lookup_filter_Some. simpl. destruct (decide (i = id)) as [->|]; [|by rewrite lookup_insert_ne].
    rewrite lookup_insert_eq. split.
    + intros [[= <-] <-]. done.
    + intros [Hr <-]. destruct Hg. by rewrite <- (Hold r Hr).
Qed.

Lemma same_target_sym a b : same_target a b = same_target b a.
Proof.
  unfold same_target. rewrite (Z.eqb_sym (rt_GroupID a)).
  by rewrite (bool_decide_ext (rt_Endpoint a = _) (rt_Endpoint b = rt_Endpoint a)),
    (bool_decide_ext (rt_MatchType a = _) (rt_MatchType b = rt_MatchType a)),
    (bool_decide_ext (rt_PublicModel a = _) (rt_PublicModel b = rt_PublicModel a)) by done.
Qed.

Lemma taken_false id r s id' row : taken id r s = false → rs_rows s !! id' = Some row → id' ≠ id → active row = true →
  same_target (row_route row) r = false.
Proof.
  unfold taken. intros Ht Hr Hne Ha. destruct (same_target (row_route row) r) eqn:E; [|done].
  assert (existsb (λ '(i, row), negb (i =? id) && active row && same_target (row_route row) r) (map_to_list (rs_rows s)) = true); [|congruence].
  apply existsb_exists. exists (id', row). split; [by apply list_elem_of_In, elem_of_map_to_list|].
  rewrite Ha, E. apply Z.eqb_neq in Hne. by rewrite Hne.
Qed.

(** Writing a row whose target no other live row has. *)
Lemma tables_insert id row s n : tables_ok s → row_ok id row → id < n → rs_next s ≤ n →
  (active row = true → taken id (row_route row) s = false) → tables_ok (with_rows (insert id row) n s).
Proof.
  intros [Hr Hu] Hok Hid Hn Ht. split; simpl.
  - intros i r Hi. apply lookup_insert_Some in Hi as [[<- <-]|[_ Hi]]; [done|]. destruct (Hr i r Hi). split; [done|lia].
  - intros i i' r r' Hi Hi' Ha Ha' Hs. apply lookup_insert_Some in Hi as [[<- <-]|[Hne Hi]], Hi' as [[<- <-]|[Hne' Hi']]; try done.
    + rewrite same_target_sym, (taken_false id (row_route row) s i' r') in Hs by auto. done.
    + rewrite (taken_false id (row_route row) s i r) in Hs by auto. done.
    + by eapply Hu.
Qed.

Lemma valid_row id r : valid_route r = true → TrimSpace (rt_PublicModel r) = rt_PublicModel r → rt_ID r = id →
  ∀ d, row_ok id (mkRow r d).
Proof. unfold valid_route. intros Hv Hm Hi d. bool_hyp. by split; [split|..]. Qed.

Lemma create_route_ok r s : tables_ok s → TrimSpace (rt_PublicModel r) = rt_PublicModel r → ¬ guarded (rt_GroupID r) →
  tables_ok (snd (create_route r s)) ∧ later s (snd (create_route r s)).
Proof.
  intros Hok Hm Hg. unfold create_route. destruct (negb _) eqn:Hv; [split; [done|reflexivity]|].
  destruct (taken _ _ _) eqn:Ht; [split; [done|reflexivity]|]. apply negb_false_iff in Hv. simpl. split.
  - apply tables_insert; [done|by apply valid_row|lia|lia|done].
  - refine (rows_of_insert s _ _ _ _ _ _ eq_refl); [done|]. intros old Ho. destruct Hok as [Hr _].
    destruct (Hr _ _ Ho). lia.
Qed.

Lemma update_route_ok r s : tables_ok s → TrimSpace (rt_PublicModel r) = rt_PublicModel r →
  (∀ old, rs_rows s !! rt_ID r = Some old → ¬ guarded (group_of old)) →
  tables_ok (snd (update_route r s)) ∧ later s (snd (update_route r s)).
Proof.
  intros Hok Hm Hg. unfold update_route. destruct (rs_rows s !! rt_ID r) as [old|] eqn:Ho; [|split; [done|reflexivity]].
  destruct (negb _) eqn:Hv; [split; [done|reflexivity]|]. destruct (active old && _) eqn:Ht; [split; [done|reflexivity]|].
  apply negb_false_iff in Hv. pose proof (to_rows s Hok _ _ Ho) as [_ Hlt]. simpl. split.
  - apply tables_insert; [done|by apply valid_row|done|lia|]. unfold active in *. simpl in *. intros Ha. by rewrite Ha in Ht.
  - refine (rows_of_insert s _ _ _ _ _ _ eq_refl); [by apply (Hg old)|]. intros old' Ho'. rewrite Ho in Ho'. by injection Ho' as <-.
Qed.

Lemma delete_route_ok id s : tables_ok s → (∀ old, rs_rows s !! id = Some old → ¬ guarded (group_of old)) →
  tables_ok (snd (delete_route id s)) ∧ later s (snd (delete_route id s)).
Proof.
  intros Hok Hg. unfold delete_route. destruct (rs_rows s !! id) as [old|] eqn:Ho; [|split; [done|reflexivity]].
  destruct (active old); [|split; [done|reflexivity]]. pose proof (to_rows s Hok _ _ Ho) as [[Hn Hi Hc] Hlt]. simpl. split.
  - apply tables_insert; [done|by split|done|lia|done].
  - refine (rows_of_insert s _ _ _ _ _ _ eq_refl); [by apply (Hg old)|]. intros old' Ho'. rewrite Ho in Ho'. by injection Ho' as <-.
Qed.

End table.

(** ** The routes of a group *)

Lemma group_routes_spec gid b s r : r ∈ group_routes gid b s ↔
  ∃ id row, rs_rows s !! id = Some row ∧ active row = true ∧ row_route row = r ∧ rt_GroupID r = gid ∧ (b = true ∨ rt_Enabled r = true).
Proof.
  unfold group_routes. rewrite list_elem_of_filter, list_elem_of_fmap. split.
  - intros [[Hg Hb] (row & -> & (Ha & ([id row'] & -> & Hr)%list_elem_of_fmap)%list_elem_of_filter)].
    apply elem_of_map_to_list in Hr. eauto 10.
  - intros (id & row & Hr & Ha & <- & Hg & Hb). split; [done|]. exists row. split; [done|]. apply list_elem_of_filter.
    split; [done|]. apply list_elem_of_fmap. exists (id, row). split; [done|]. by apply elem_of_map_to_list.
Qed.

Lemma group_routes_well_formed gid b s : tables_ok s → well_formed (SliceStable by_priority (group_routes gid b s)).
Proof.
  intros [Hr Hu]. split.
  - apply Forall_forall. intros r. rewrite SliceStable_Permutation, group_routes_spec. intros (id & row & Hi & _ & <- & _).
    by destruct (Hr id row Hi) as [[Hn _ _] _].
  - intros r r'. rewrite SliceStable_Permutation, !group_routes_spec.
    intros (id & row & Hi & Ha & <- & Hg & _) (id' & row' & Hi' & Ha' & <- & Hg' & _) Ht.
    assert (id = id') as <-; [|by rewrite Hi in Hi'; injection Hi' as <-].
    eapply Hu; [exact Hi|exact Hi'|done|done|]. unfold target in Ht. injection Ht as He Hm Hp. unfold same_target.
    rewrite Hg, Hg', Z.eqb_refl, !bool_decide_eq_true_2 by done. done.
Qed.

End CompositeInvariant.
