(* ===== verification/CompositeTheorems.v ===== *)
(** * What holds of composite groups in every run

    Any number of administrators and requests, failing calls, crashes, and any answers
    of the accounts' table and of the cache. *)

From S2P Require Import Prelude GoStrings Platforms Interleaving CompositeRoute CompositeRouting CompositeBest CompositeInvariant.

Module CompositeTheorems.
Import GoStrings CompositeRoute CompositeRouting CompositeBest CompositeInvariant.

(** A decision that can be acted on: a concrete platform, a model, and an enabled route
    of this very group when it comes from one. *)
Definition usable (gid : Z) (d : CompositeRouteDecision) : Prop :=
  d_Matched d = true → isConcreteRequestPlatform (d_TargetPlatform d) = true ∧
    d_UpstreamModel d ≠ [] ∧ TrimSpace (d_UpstreamModel d) = d_UpstreamModel d ∧
    (d_Source d = Some CompositeRouteSourceExplicit ↔ is_Some (d_Route d)) ∧
    ∀ r, d_Route d = Some r → rt_GroupID r = gid ∧ rt_Enabled r = true ∧ rt_TargetPlatform r = d_TargetPlatform d.

(** The platforms a handler has a provider for, when it reads the model [m]. *)
Definition may_serve (h : handler) (m p : bytes) : Prop :=
  match h with
  | GatewayHandler => p ≠ lit "typesafe"
  | OpenAITextHandler => ∃ spec, spec ∈ Platforms.platformList ∧ Platforms.Gateway spec = Platforms.PlatformGatewayOpenAI ∧ p = lit (Platforms.ID spec)
  | EmbeddingsHandler | AlphaSearchHandler => p = lit "openai"
  | SystemOneHandler => m = JevLatestModel ∧ p = lit "typesafe"
  end.

Section served.
Context `{Unicode}.

(** Where a request belongs: as the middleware decided; or, when it did not, with the
    platform that the name of the model suggests, unless accounts with OAuth are
    among those that claim it. *)
Definition belongs_to (v : served) : option (bytes * bytes) :=
  d ← sv_decision v;
  if d_Matched d then Some (d_TargetPlatform d, d_UpstreamModel d)
  else if OAuthAmbiguous d then None
  else (λ q, (lit q, sv_requested v)) <$> DetectModelPlatform (sv_requested v).

Definition served_well (v : served) : Prop :=
  (∀ d, sv_decision v = Some d → usable (sv_GroupID v) d) ∧
  match sv_entrance v with
  | Text _ h => ∀ p m, sv_outcome v = Scheduled p m ↔ belongs_to v = Some (p, m) ∧ may_serve h (sv_requested v) p
  | Gemini => ∀ p m, sv_outcome v = Scheduled p m →
      (p = lit "gemini" ∨ p = lit "antigravity" ∧ isAntigravityGeminiModel m = true) ∧
      match sv_decision v with
      | Some d => if d_Matched d then p = d_TargetPlatform d ∧ m = d_UpstreamModel d else p = lit "gemini" ∧ m = sv_requested v
      | None => p = lit "gemini" ∧ m = sv_requested v
      end
  end ∧
  ∀ p m, sv_outcome v = Scheduled p m → isConcreteRequestPlatform p = true ∧ m ≠ [].

Definition inv (s : Store) : Prop := tables_ok s ∧ Forall served_well (rs_served s).
End served.

Section runs.
Context `{Unicode} (dp : Deployment) (guarded : Z → Prop).
#[local] Abbreviation later := (later guarded).
#[local] Abbreviation safe := (Interleaving.safe (DE := dberr) (Q := question) Lost rs_now inv later).

Definition okp {A} (P : A → Store → Prop) (r : result error A) (s : Store) : Prop :=
  match r with Ok a => P a s | Err _ => True end.
Definition any {A} (_ : A) (_ : Store) : Prop := True.
Definition pure {A} (P : A → Prop) (a : A) (_ : Store) : Prop := P a.

Lemma s_ret {A} (a : A) (Q : A → Store → Prop) s : (∀ s', later s s' → inv s' → Q a s') → safe (Ret a) Q s.
Proof. done. Qed.

Lemma routes_err {A} e (P : A → Store → Prop) s : safe (Ret (Err e)) (okp P) s.
Proof. by intros s'. Qed.

Lemma routes_bind {A B} (p : prg A) (k : A → prg B) P Q s : inv s → safe p P s →
  (∀ a s', later s s' → inv s' → P a s' → safe (k a) Q s') → safe (bind p k) Q s.
Proof. intros HI Hp Hk. by eapply safe_bind; [apply _|done|exact Hp|]. Qed.

Lemma routes_try {A B} (p : prg (result error A)) (k : A → prg (result error B)) P Q s : inv s →
  safe p (okp P) s → (∀ a s', later s s' → inv s' → P a s' → safe (k a) (okp Q) s') → safe (go_on p k) (okp Q) s.
Proof. intros HI Hp Hk. eapply routes_bind; [done|exact Hp|]. intros [a|e] s' HR HI' HP; [by apply Hk|apply routes_err]. Qed.

Lemma routes_read {X} w (q : Store → result dberr X) (P : X → Store → Prop) s :
  (∀ x s' s'', later s s' → inv s' → q s' = Ok x → later s' s'' → inv s'' → P x s'') → safe (lift w (read q)) (okp P) s.
Proof.
  intros HP. apply safe_read; [apply _| |]; intros s1 HR1 HI1 s2 HR2 HI2; simpl; [|done].
  destruct (q s1) as [x|e] eqn:E; simpl; [|done]. by eapply HP.
Qed.

Lemma routes_write {X} w (f : Store → result dberr X * Store) s :
  (∀ s', later s s' → inv s' → inv (snd (f s')) ∧ later s' (snd (f s'))) → safe (lift w (write f)) (okp any) s.
Proof.
  intros Hf. apply safe_write; [apply _| |]; intros s1 HR1 HI1.
  - destruct (Hf s1 HR1 HI1) as [HI2 HR2]. split_and!; [done|done|]. intros s2 _ _. simpl. by destruct (fst (f s1)).
  - by intros s2 _ _.
Qed.

Lemma routes_ask {X B} (q : question X) (k : X → prg B) Q s :
  (∀ x s', later s s' → inv s' → safe (k x) Q s') → safe (bind (ask q) k) Q s.
Proof. intros Hk. by apply safe_ask; [apply _|]. Qed.

(** ** Administration *)

Lemma inv_tables s n f : inv s → tables_ok (with_rows f n s) → inv (with_rows f n s).
Proof. intros [_ Hs] Ht. by split. Qed.

Lemma compositeRouteFromInput_trimmed gid i r : compositeRouteFromInput gid i = Ok r →
  TrimSpace (rt_PublicModel r) = rt_PublicModel r ∧ rt_GroupID r = gid.
Proof.
  unfold compositeRouteFromInput. intros Hr. case_match; [done|]. case_match; [done|]. injection Hr as <-. simpl. split; [|done].
  apply TrimSpace_id, TrimSpace_trimmed.
Qed.

Lemma of_group_safe {A} gid (k : prg (result error A)) s : inv s →
  (∀ s', later s s' → inv s' → safe k (okp any) s') → safe (of_group dp gid k) (okp any) s.
Proof.
  intros HI Hk. unfold of_group. eapply (routes_try _ _ any); [done|by apply s_ret; intros; case_match|]. intros _ s1 HR1 HI1 _.
  eapply (routes_try _ _ any); [done| |].
  - unfold requireCompositeGroup. eapply (routes_try _ _ any); [done|by apply routes_read|]. intros p s2 _ _ _. apply s_ret.
    by intros; case_match.
  - intros _ s2 HR2 HI2 _. case_match; [apply routes_err|]. apply Hk; [by etrans|done].
Qed.

Definition belongs (gid id : Z) (s : Store) : Prop := ∃ row, rs_rows s !! id = Some row ∧ group_of row = gid.

Lemma belongs_later gid id s s' : belongs gid id s → later s s' → belongs gid id s'.
Proof. intros (row & Hr & Hg) [Hl _]. destruct (Hl id row Hr) as (row' & Hr' & Hg'). exists row'. by rewrite Hg'. Qed.

Lemma compositeRouteBelongsToGroup_safe gid id s : inv s →
  safe (compositeRouteBelongsToGroup gid id) (okp (λ ok s', ok = true → belongs gid id s')) s.
Proof.
  intros HI. unfold compositeRouteBelongsToGroup.
  eapply (routes_try _ _ (λ routes s', existsb (λ r, rt_ID r =? id) routes = true → belongs gid id s')); [done| |].
  - apply routes_read. intros routes s1 s2 HR1 [HI1 _] [= <-] HR2 _ (r & Hr%list_elem_of_In & Hid%Z.eqb_eq)%existsb_exists.
    rewrite SliceStable_Permutation in Hr. apply group_routes_spec in Hr as (i & row & Hi & _ & <- & Hg & _).
    destruct (to_rows _ HI1 i row Hi) as [[_ Hri _] _]. rewrite Hri in Hid. subst i.
    eapply belongs_later; [|exact HR2]. by exists row.
  - intros routes s1 HR1 HI1 Hb. apply s_ret. intros s2 HR2 _ Hex. eapply belongs_later; [by apply Hb|done].
Qed.

Lemma on_row_safe {A} gid id (k : prg (result error A)) s : inv s → ¬ guarded gid →
  (∀ s', inv s' → (∀ s'' old, later s' s'' → rs_rows s'' !! id = Some old → ¬ guarded (group_of old)) → safe k (okp any) s') →
  safe (try ok := compositeRouteBelongsToGroup gid id in if negb ok then Ret (Err ErrCompositeRouteNotFound) else k) (okp any) s.
Proof.
  intros HI Hg Hk. eapply routes_try; [done|by apply compositeRouteBelongsToGroup_safe|]. intros [] s1 HR1 HI1 Hb; cbn [negb]; [|apply routes_err].
  apply Hk; [done|]. intros s2 old HR2 Ho. destruct (belongs_later _ _ _ _ (Hb eq_refl) HR2) as (row & Hr & Hgr).
  rewrite Hr in Ho. injection Ho as <-. by rewrite Hgr.
Qed.

Lemma CreateCompositeRoute_safe gid i s : inv s → ¬ guarded gid → safe (CreateCompositeRoute dp gid i) (okp any) s.
Proof.
  intros HI Hg. apply of_group_safe; [done|]. intros s1 _ HI1. destruct (compositeRouteFromInput gid i) as [r|m] eqn:E; [|apply routes_err].
  apply compositeRouteFromInput_trimmed in E as [Hm Hr]. apply routes_write. intros s2 _ HI2.
  destruct (create_route_ok guarded r s2) as [Ht HR]; [apply HI2|done|by rewrite Hr|]. split; [|done].
  split; [done|]. unfold create_route. by repeat case_match; apply HI2.
Qed.

Lemma UpdateCompositeRoute_safe gid id i s : inv s → ¬ guarded gid → safe (UpdateCompositeRoute dp gid id i) (okp any) s.
Proof.
  intros HI Hg. apply of_group_safe; [done|]. intros s1 _ HI1. apply on_row_safe; [done|done|]. intros s2 HI2 Hid.
  destruct (compositeRouteFromInput gid i) as [r|m] eqn:E; [|apply routes_err].
  apply compositeRouteFromInput_trimmed in E as [Hm Hr]. apply routes_write. intros s3 HR3 HI3.
  destruct (update_route_ok guarded (with_id id gid r) s3) as [Ht HR]; [apply HI3|done|by intros; eapply Hid|]. split; [|done].
  split; [done|]. unfold update_route. by repeat case_match; apply HI3.
Qed.

Lemma DeleteCompositeRoute_safe gid id s : inv s → ¬ guarded gid → safe (DeleteCompositeRoute dp gid id) (okp any) s.
Proof.
  intros HI Hg. apply of_group_safe; [done|]. intros s1 _ HI1. apply on_row_safe; [done|done|]. intros s2 HI2 Hid.
  apply routes_write. intros s3 HR3 HI3.
  destruct (delete_route_ok guarded id s3) as [Ht HR]; [apply HI3|by intros; eapply Hid|]. split; [|done].
  split; [done|]. unfold delete_route. by repeat case_match; apply HI3.
Qed.

(** ** Resolving *)

Lemma matched_route routes model endpoint r : matchCompositeRoute routes model endpoint = Some r → well_formed routes → r ∈ routes.
Proof.
  intros Hm Hwf. unfold matchCompositeRoute in Hm.
  pose proof (SliceStable_head better better_asym better_cotrans (omap (candidate_of model endpoint) routes)) as Hh.
  destruct (head _) as [c|]; [|done]. injection Hm as <-. destruct Hh as [(q & Hq & Hc)%list_elem_of_omap _].
  by destruct (candidate_of_spec routes Hwf model endpoint q c Hq Hc) as [_ ->].
Qed.

Lemma trimmed_twice s : TrimSpace (TrimSpace s) = TrimSpace s.
Proof. apply TrimSpace_id, TrimSpace_trimmed. Qed.

Section decision.
Context (gid : Z) (model endpoint : bytes) (Hne : model ≠ []) (Htrim : TrimSpace model = model).

Lemma explicit_usable r : rt_GroupID r = gid → rt_Enabled r = true → isConcreteRequestPlatform (rt_TargetPlatform r) = true →
  usable gid (explicit_decision gid model endpoint r).
Proof using Hne Htrim.
  intros Hg He Hc _. unfold explicit_decision. simpl. split_and!; [done|by case_bool_decide|by case_bool_decide; [|apply trimmed_twice]|done|].
  by intros ? [= <-].
Qed.

Lemma detector_usable : usable gid (detector_decision gid model endpoint).
Proof using Hne Htrim.
  unfold detector_decision. destruct (DetectModelPlatform model) as [p|] eqn:E; [|done]. intros _. simpl.
  split_and!; [by eapply DetectModelPlatform_concrete|done|done|by split; intros [? ?] || done|done].
Qed.

Lemma ownership_usable r d : ownership_decision gid model endpoint r = Ok (Some d) → usable gid d.
Proof using Hne Htrim.
  unfold ownership_decision. destruct r as [o|e]; [|by case_match]. destruct (ow_Ambiguous o); [by intros [= <-]|].
  destruct (ow_Matched o); [|done]. destruct (isConcreteRequestPlatform _) eqn:E; simpl; intros [= <-]; [|done].
  intros _. simpl. split_and!; [done..|by split; intros [? ?] || done|done].
Qed.
End decision.

Lemma Resolve_safe gid model endpoint s : inv s → safe (Resolve dp gid model endpoint) (okp (pure (usable gid))) s.
Proof.
  intros HI. unfold Resolve. case_bool_decide as Hne; [by apply s_ret|].
  pose proof (trimmed_twice model) as Htrim. revert Hne Htrim. generalize (TrimSpace model) as m. intros m Hne Htrim.
  generalize (normalizeCompositeRouteEndpoint endpoint) as e. intros e.
  eapply (routes_try _ _ (pure (λ o, ∀ r, o = Some r → usable gid (explicit_decision gid m e r)))); [done| |].
  - case_match; [|by apply s_ret].
    eapply (routes_try _ _ (pure (λ routes, ∀ r, matchCompositeRoute routes m e = Some r → usable gid (explicit_decision gid m e r)))); [done| |].
    + apply routes_read. intros routes s1 s2 _ [HI1 _] [= <-] _ _ r Hr.
      apply matched_route in Hr; [|by apply group_routes_well_formed]. rewrite SliceStable_Permutation in Hr.
      apply group_routes_spec in Hr as (i & row & Hi & _ & <- & Hg & Hen). destruct (to_rows _ HI1 i row Hi) as [[_ _ Hc] _].
      apply explicit_usable; try done. by destruct Hen.
    + intros routes s1 _ _ Hr. by apply s_ret.
  - intros [r|] s1 HR1 HI1 Hr; [apply s_ret; intros; by apply Hr|].
    eapply (routes_try _ _ (pure (λ o, ∀ d, o = Some d → usable gid d))); [done| |].
    + case_match; [|by apply s_ret]. eapply (routes_bind _ _ any); [done| |].
      * unfold resolveCompositeModelOwnership. case_match; [by apply s_ret|].
        eapply (routes_bind _ _ any); [done|case_match; [by apply routes_ask|by apply s_ret]|].
        intros [o|] s2 _ HI2 _; [by apply s_ret|]. apply routes_ask. intros [l|er] s3 _ HI3; [|by apply s_ret].
        eapply (routes_bind _ _ any); [done|case_match; [by apply routes_ask|by apply s_ret]|]. intros; by apply s_ret.
      * intros r s2 _ HI2 _. apply s_ret. intros s3 _ _. destruct (ownership_decision gid m e r) as [o|] eqn:E; [|done].
        simpl. unfold pure. intros d ->. by eapply ownership_usable.
    + intros o s2 _ _ Ho. apply s_ret. intros s3 _ _. simpl. unfold pure in *. destruct o as [d|]; [by apply Ho|by apply detector_usable].
Qed.


(** ** A request *)

Lemma decided_context gid d : usable gid d → d_Matched d = true →
  ResolvedTargetPlatformFromContext (WithCompositeRouteDecision background d) = Some (d_TargetPlatform d) ∧
  ResolvedUpstreamModelFromContext (WithCompositeRouteDecision background d) = Some (d_UpstreamModel d).
Proof.
  intros Hu Hm. destruct (Hu Hm) as (Hc & Hne & Ht & _). destruct (concrete_platform _ Hc) as [Htp Hpe].
  unfold WithCompositeRouteDecision, ResolvedTargetPlatformFromContext, ResolvedUpstreamModelFromContext. rewrite Hm. simpl.
  unfold kept, trimmed_value. simpl. rewrite Htp, Ht, !bool_decide_eq_false_2 by done. simpl.
  by rewrite Htp, Ht, !bool_decide_eq_false_2.
Qed.

Lemma scheduling_resolved ctx gid p m s : ResolvedTargetPlatformFromContext ctx = Some p →
  safe (scheduling_target dp ctx gid m) (pure (λ o, o = Scheduled p (default m (ResolvedUpstreamModelFromContext ctx)))) s.
Proof.
  intros Hp. unfold scheduling_target, resolveCompositeRouteDecision. rewrite bool_decide_eq_true_2 by done. cbn [negb].
  rewrite Hp. by apply s_ret.
Qed.

Lemma log_safe v s : inv s → served_well v → safe (log v) any s.
Proof.
  intros HI Hv. apply safe_log. intros s1 _ [Ht Hs]. split_and!; [|by apply later_same|done].
  split; [|by constructor]. destruct Ht as [Hr Hu]. by split.
Qed.

(** A platform of the table, as a value of the context. *)
Lemma platform_value p ctx : isConcreteRequestPlatform p = true →
  ResolvedTargetPlatformFromContext (WithResolvedTargetPlatform ctx p) = Some p.
Proof.
  intros Hc. destruct (concrete_platform _ Hc) as [Ht Hne]. unfold ResolvedTargetPlatformFromContext, WithResolvedTargetPlatform, kept, trimmed_value.
  simpl. rewrite Ht, bool_decide_eq_false_2 by done. simpl. by rewrite Ht, bool_decide_eq_false_2.
Qed.

Lemma ensure_idempotent ctx m : ensureCompositeTargetPlatform (ensureCompositeTargetPlatform ctx m) m = ensureCompositeTargetPlatform ctx m.
Proof.
  unfold ensureCompositeTargetPlatform at 2 3. destruct (ResolvedTargetPlatformFromContext ctx) eqn:Hr.
  - unfold ensureCompositeTargetPlatform. by rewrite Hr.
  - destruct (DetectModelPlatform m) as [q|] eqn:Hq.
    + unfold ensureCompositeTargetPlatform. by rewrite (platform_value _ ctx (DetectModelPlatform_concrete _ _ Hq)).
    + unfold ensureCompositeTargetPlatform. by rewrite Hr, Hq.
Qed.

(** A handler lets a request through exactly when it has a platform it may serve. *)
Lemma admit_spec h ctx m : TrimSpace m ≠ [] →
  let ctx' := ensureCompositeTargetPlatform ctx m in
  match pass_guards h ctx m with
  | Ok c => c = ctx' ∧ ∃ p, ResolvedTargetPlatformFromContext ctx' = Some p ∧ may_serve h m p
  | Err _ => ∀ p, ResolvedTargetPlatformFromContext ctx' = Some p → ¬ may_serve h m p
  end.
Proof.
  intros Hm ctx'. unfold pass_guards. rewrite bool_decide_eq_false_2 by done. fold ctx'.
  assert (ensureCompositeTargetPlatform ctx' m = ctx') as He by apply ensure_idempotent.
  destruct h; unfold compositeTargetPlatformResolved, openAICompatibleTextTargetAllowed, compositeTargetPlatformAllowed; cbv zeta; rewrite He; cbn [fst snd].
  - destruct (ResolvedTargetPlatformFromContext ctx') as [p|] eqn:Hp; [|by rewrite bool_decide_eq_false_2 by (by intros [])].
    rewrite bool_decide_eq_true_2 by done. unfold rejectSystemOneOnlyPlatform, effectiveAPIKeyPlatform. rewrite Hp. simpl default.
    case_bool_decide; [by intros ? [= <-] ?|]. split; [done|]. by exists p.
  - destruct (ResolvedTargetPlatformFromContext ctx') as [p|] eqn:Hp; [|done]. case_bool_decide as Hin.
    + split; [done|]. exists p. split; [done|]. apply list_elem_of_fmap in Hin as (x & -> & Hx). unfold Platforms.PlatformIDsWhere in Hx.
      apply list_elem_of_fmap in Hx as (spec & -> & Hs). apply list_elem_of_filter in Hs as [Hg%bool_decide_eq_true Hs]. by exists spec.
    + intros ? [= <-] (spec & Hs & Hg & ->). apply Hin. apply list_elem_of_fmap. eexists. split; [done|]. apply list_elem_of_fmap. exists spec.
      split; [done|]. apply list_elem_of_filter. by rewrite bool_decide_eq_true_2.
  - destruct (ResolvedTargetPlatformFromContext ctx') as [p|] eqn:Hp; [|done]. case_bool_decide as Hin; simpl in Hin; rewrite list_elem_of_singleton in Hin;
      [split; [done|]; by exists p|by intros ? [= <-] ?].
  - destruct (ResolvedTargetPlatformFromContext ctx') as [p|] eqn:Hp; [|done]. case_bool_decide as Hin; simpl in Hin; rewrite list_elem_of_singleton in Hin;
      [split; [done|]; by exists p|by intros ? [= <-] ?].
  - case_bool_decide as Hjev; simpl; [|by intros ? _ [? _]].
    destruct (ResolvedTargetPlatformFromContext ctx') as [p|] eqn:Hp; [|done]. case_bool_decide as Hin; simpl in Hin; rewrite list_elem_of_singleton in Hin;
      [split; [done|]; by exists p|by intros ? [= <-] [_ ?]].
Qed.

(** What the middleware hands on. *)
Definition handed_on (gid : Z) (r : result Z (option CompositeRouteDecision * Context * bytes)) : Prop :=
  match r with
  | Err _ => True
  | Ok (None, ctx, m) => ctx = background ∧ m = []
  | Ok (Some d, ctx, m) => usable gid d ∧ OAuthAmbiguous d = false ∧ ctx = WithCompositeRouteDecision background d ∧
      (d_Matched d = true → TrimSpace m ≠ [])
  end.

Lemma middleware_safe gid model path s : inv s →
  safe (compositeTargetPlatformMiddleware dp gid model path) (pure (handed_on gid)) s.
Proof.
  intros HI. unfold compositeTargetPlatformMiddleware. case_bool_decide; [by apply s_ret|].
  eapply (routes_bind _ _ (okp (pure (λ d, usable gid d ∧ (d_Matched d = true → TrimSpace model ≠ [])))));
    [done| |intros [d|e] s1 _ HI1 Hd; [|by apply s_ret]].
  - destruct (decide (TrimSpace model = [])) as [Hb|Hb].
    + unfold Resolve. rewrite bool_decide_eq_true_2 by done. by apply s_ret.
    + eapply safe_weaken; [by apply Resolve_safe|]. intros [d|e] s1; [|done]. by split.
  - unfold okp, pure in Hd. destruct Hd as [Hu Hb]. destruct (OAuthAmbiguous d) eqn:Ha; [by apply s_ret|]. destruct (d_Matched d) eqn:Hm.
    + eapply (routes_bind _ _ any); [done|case_match; [by apply routes_ask|by apply s_ret]|]. intros b s2 _ _ _.
      apply s_ret. intros s3 ? ?. split_and!; [done|done|done|]. intros _. destruct b; [|by apply Hb].
      destruct (Hu Hm) as (_ & Hne & Ht & _). by rewrite Ht, Ht.
    + apply s_ret. intros s2 _ _. split_and!; [done|done| |by rewrite Hm]. unfold WithCompositeRouteDecision. by rewrite Hm.
Qed.

Lemma background_unresolved : ResolvedTargetPlatformFromContext background = None.
Proof. done. Qed.

(** After the handler's look at the model, the context says where the request belongs. *)
Lemma decided_target gid d e model m o : usable gid d → OAuthAmbiguous d = false →
  let v := mkServed gid e model (Some d) m o in
  let ctx := ensureCompositeTargetPlatform (WithCompositeRouteDecision background d) m in
  match belongs_to v with
  | Some (p, m') => ResolvedTargetPlatformFromContext ctx = Some p ∧ default m (ResolvedUpstreamModelFromContext ctx) = m'
  | None => ResolvedTargetPlatformFromContext ctx = None
  end.
Proof.
  intros Hu Ha. cbv zeta. unfold belongs_to. simpl. rewrite Ha. destruct (d_Matched d) eqn:Hm.
  - destruct (decided_context gid d Hu Hm) as [Hp Hup]. unfold ensureCompositeTargetPlatform. rewrite Hp. by rewrite Hup.
  - assert (WithCompositeRouteDecision background d = background) as -> by (unfold WithCompositeRouteDecision; by rewrite Hm).
    unfold ensureCompositeTargetPlatform. rewrite background_unresolved.
    destruct (DetectModelPlatform m) as [q|] eqn:Hq; simpl; [|done].
    split; [by apply platform_value, DetectModelPlatform_concrete with m|done].
Qed.

Lemma blank_belongs gid e model d m o : TrimSpace m = [] → (d_Matched d = true → TrimSpace m ≠ []) →
  belongs_to (mkServed gid e model (Some d) m o) = None.
Proof.
  intros Hb Hm. unfold belongs_to. simpl. destruct (d_Matched d); [by destruct Hm|]. destruct (OAuthAmbiguous d); [done|].
  unfold DetectModelPlatform. by rewrite Hb.
Qed.

Lemma handler_blank h m (P : Prop) : (P → TrimSpace m ≠ []) → (P → TrimSpace (handler_model h m) ≠ []).
Proof. intros Hm HP. destruct h; try by apply Hm. simpl. rewrite trimmed_twice. by apply Hm. Qed.

Lemma serve_safe gid model path h s : inv s → safe (serve dp gid model path h) any s.
Proof.
  intros HI. unfold serve. eapply (routes_bind _ _ (pure (handed_on gid))); [done|by apply middleware_safe|].
  intros [[[[d|] ctx] m]|st] s1 _ HI1 Hd; unfold pure, handed_on in Hd.
  - destruct Hd as (Hu & Ha & -> & Hb). pose proof (handler_blank h m _ Hb) as Hb'. clear Hb. revert Hb'. cbv zeta. generalize (handler_model h m) as m'. clear m. intros m Hb.
    destruct (decide (TrimSpace m = [])) as [Hblank|Hnb].
    + unfold pass_guards. rewrite bool_decide_eq_true_2 by done. apply log_safe; [done|]. split_and!; [by intros ? [= <-]| |done].
      intros p m'. rewrite blank_belongs by done. naive_solver.
    + pose proof (admit_spec h (WithCompositeRouteDecision background d) m Hnb) as Hadm. cbv zeta in Hadm.
      pose proof (λ o, decided_target gid d (Text path h) model m o Hu Ha) as Ht. cbv zeta in Ht.
      destruct (pass_guards _ _ m) as [c|st] eqn:He.
      * destruct Hadm as (-> & p & Hp & Hmay). eapply routes_bind; [done|by apply scheduling_resolved|]. intros o s2 _ HI2 ->.
        apply log_safe; [done|]. specialize (Ht (Scheduled p (default m (ResolvedUpstreamModelFromContext (ensureCompositeTargetPlatform (WithCompositeRouteDecision background d) m))))).
        destruct (belongs_to _) as [[p' m']|] eqn:Hbel; [|congruence]. destruct Ht as [Hp' Hm']. assert (p' = p) as -> by congruence.
        split_and!; [by intros ? [= <-]| |].
        -- intros p0 m0. simpl sv_outcome. rewrite Hbel, Hm'. split; [by intros [= <- <-]|by intros [[= <- <-] _]].
        -- intros p0 m0 [= <- <-]. unfold belongs_to in Hbel. simpl in Hbel. rewrite Ha in Hbel. destruct (d_Matched d) eqn:Hm.
           ++ injection Hbel as <- <-. rewrite Hm'. by destruct (Hu Hm) as (? & ? & _).
           ++ destruct (DetectModelPlatform m) as [q|] eqn:Hq; [|done]. simpl in Hbel. injection Hbel as <- <-. rewrite Hm'.
              split; [by eapply DetectModelPlatform_concrete|]. intros ->. by apply Hnb.
      * apply log_safe; [done|]. specialize (Ht (Rejected st)). split_and!; [by intros ? [= <-]| |done]. intros p0 m0. split; [done|].
        intros [Hbel Hmay]. rewrite Hbel in Ht. destruct Ht as [Hp _]. by destruct (Hadm p0 Hp).
  - destruct Hd as [-> ->]. assert (handler_model h [] = []) as -> by by destruct h. cbv zeta. unfold pass_guards. simpl.
    apply log_safe; [done|]. split_and!; [done| |done]. intros p m. unfold belongs_to. naive_solver.
  - apply log_safe; [done|]. split_and!; [done| |done]. intros p m. unfold belongs_to. naive_solver.
Qed.

(** *** The Gemini endpoint *)

Definition gemini_handed_on (gid : Z) (r : result Z (option CompositeRouteDecision * Context)) : Prop :=
  match r with
  | Err _ => True
  | Ok (d, ctx) =>
      (∀ x, d = Some x → usable gid x) ∧
      if match d with Some x => d_Matched x | None => false end
      then ∃ x, d = Some x ∧ ResolvedTargetPlatformFromContext ctx = Some (d_TargetPlatform x) ∧
             ResolvedUpstreamModelFromContext ctx = Some (d_UpstreamModel x)
      else ResolvedTargetPlatformFromContext ctx = Some (lit "gemini") ∧ ResolvedUpstreamModelFromContext ctx = None
  end.

Lemma gemini_middleware_safe gid param s : inv s →
  safe (compositeGeminiTargetPlatformMiddleware dp gid param) (pure (gemini_handed_on gid)) s.
Proof.
  intros HI. unfold compositeGeminiTargetPlatformMiddleware. case_bool_decide; [by apply s_ret|].
  eapply routes_bind; [done|by apply Resolve_safe|]. intros [d|e] s1 _ HI1 Hd; apply s_ret; intros s2 _ _; [|done].
  unfold okp, pure in *. split; [by intros ? [= <-]|]. destruct (d_Matched d) eqn:Hm.
  - destruct (decided_context gid d Hd Hm) as [Hp Hup]. rewrite Hp. by exists d.
  - assert (WithCompositeRouteDecision background d = background) as -> by (unfold WithCompositeRouteDecision; by rewrite Hm). done.
Qed.

Lemma upstream_nonempty ctx m : ResolvedUpstreamModelFromContext ctx = Some m → m ≠ [].
Proof.
  unfold ResolvedUpstreamModelFromContext, trimmed_value. destruct (cx_ResolvedUpstreamModel ctx) as [u|]; simpl; [|done].
  case_bool_decide; [done|]. by intros [= <-].
Qed.

Lemma two_parts_nonempty o m : two_parts o = Some m → m ≠ [].
Proof. destruct o as [[[|x b] [|y a]]|]; simpl; try discriminate. intros E. injection E as <-. discriminate. Qed.

Lemma parsed_nonempty rest m : parseGeminiModelAction rest = Some m → m ≠ [].
Proof.
  unfold parseGeminiModelAction. cbv zeta. destruct (two_parts (Cut ":" _)) eqn:Hc; [intros [= <-]|]; by eapply two_parts_nonempty.
Qed.

Lemma gemini_admits ctx param p name : ResolvedTargetPlatformFromContext ctx = Some p → GeminiV1BetaModels ctx param = Ok name →
  (p = lit "gemini" ∨ p = lit "antigravity" ∧ isAntigravityGeminiModel name = true) ∧
  ∃ url, url ≠ [] ∧ default url (ResolvedUpstreamModelFromContext ctx) = name.
Proof.
  intros Hp. unfold GeminiV1BetaModels, effectiveAPIKeyPlatform. rewrite Hp. cbv zeta. change (default PlatformComposite (Some p)) with p.
  destruct (bool_decide (p = lit "gemini")) eqn:Eg, (bool_decide (p = lit "antigravity")) eqn:Ea; simpl; [| | |done];
    (destruct (parseGeminiModelAction _) as [url|] eqn:Hurl; [|done]); (case_match; [done|]); try (case_match eqn:Hv; [done|]); intros [= <-].
  all: assert (∃ url0, url0 ≠ [] ∧ default url0 (ResolvedUpstreamModelFromContext ctx) = default url (ResolvedUpstreamModelFromContext ctx)) as Hex
    by (exists url; split; [by eapply parsed_nonempty|done]).
  all: split; [|exact Hex].
  1, 2: left; by apply bool_decide_eq_true in Eg.
  right. split; [by apply bool_decide_eq_true in Ea|]. by apply negb_false_iff in Hv.
Qed.

Lemma serve_gemini_safe gid param s : inv s → safe (serve_gemini dp gid param) any s.
Proof.
  intros HI. unfold serve_gemini. eapply (routes_bind _ _ (pure (gemini_handed_on gid))); [done|by apply gemini_middleware_safe|].
  intros [[d ctx]|st] s1 _ HI1 Hd; [|apply log_safe; [done|]; by split_and!]. unfold pure, gemini_handed_on in Hd. destruct Hd as [Hu Hd].
  destruct (GeminiV1BetaModels ctx param) as [name|st] eqn:Hg; [|apply log_safe; [done|]; by split_and!].
  assert (∃ p, ResolvedTargetPlatformFromContext ctx = Some p) as [p Hp] by (destruct d as [x|]; [destruct (d_Matched x)|]; naive_solver).
  destruct (gemini_admits _ _ _ _ Hp Hg) as (Hserves & url & Hurl & Hname).
  assert (default name (ResolvedUpstreamModelFromContext ctx) = name) as E by (rewrite <- Hname; by destruct (ResolvedUpstreamModelFromContext ctx)).
  eapply routes_bind; [done|by apply scheduling_resolved|]. intros o s2 _ HI2 ->. rewrite E. apply log_safe; [done|]. split_and!; [done| |].
  - intros p0 m0 [= <- <-]. split; [done|]. simpl sv_decision. simpl sv_requested. destruct d as [x|]; [destruct (d_Matched x) eqn:Hm|].
    + destruct Hd as (? & [= <-] & Hp' & Hup). split; [congruence|]. rewrite <- Hname, Hup. done.
    + split; [|done]. destruct Hd as [Hp' _]. congruence.
    + split; [|done]. destruct Hd as [Hp' _]. congruence.
  - intros p0 m0 [= <- <-]. split; [destruct Hserves as [->|[-> _]]; by vm_compute|].
    destruct (ResolvedUpstreamModelFromContext ctx) as [u|] eqn:Hup; simpl in Hname; [subst; by eapply upstream_nonempty|by subst].
Qed.

(** ** The system *)

(** The group a request may change the routes of. *)
Definition names (r : request) : option Z :=
  match r with RCreate gid _ | RUpdate gid _ _ | RDelete gid _ => Some gid | _ => None end.
Definition spares (r : request) : Prop := ∀ gid, names r = Some gid → ¬ guarded gid.

Lemma routes_ignore_safe {A} (p : prg (result error A)) s : inv s → safe p (okp any) s → safe (ignore p) (λ _ _, True) s.
Proof. intros HI Hp. by eapply routes_bind; [done|exact Hp|]. Qed.

Lemma routes_entry_safe s0 r s : spares r → later s0 s → inv s → safe (entry dp r) (λ _ _, True) s.
Proof.
  intros Hr _ HI. destruct r as [gid i|gid id i|gid id|gid model path h|gid param|f]; simpl entry.
  - apply routes_ignore_safe; [done|]. by apply CreateCompositeRoute_safe, Hr.
  - apply routes_ignore_safe; [done|]. by apply UpdateCompositeRoute_safe, Hr.
  - apply routes_ignore_safe; [done|]. by apply DeleteCompositeRoute_safe, Hr.
  - by apply serve_safe.
  - by apply serve_gemini_safe.
  - apply safe_write; [apply _| |].
    + intros s1 _ [[H1 H2] Hs]. split_and!; [by split; [split|]|by apply later_same|done].
    + done.
Qed.

Lemma routes_reach_ok es s : inv s → Forall (allowed (Q := question) spares) es → inv (reach dp es s) ∧ later s (reach dp es s).
Proof.
  intros HI Hes. refine (reachable_ok Lost rs_now advance inv later (entry dp) spares s _ _ es HI Hes).
  - intros r s1 Hr HR HI1. by eapply routes_entry_safe.
  - intros d s1 [[H1 H2] Hs]. split; [by split; [split|]|by apply later_same].
Qed.

End runs.

Section theorems.
Context `{Unicode} (dp : Deployment).

Lemma reach_inv es s : tables_ok s → rs_served s = [] → inv (reach dp es s).
Proof.
  intros Ht Hs. eapply (routes_reach_ok dp (λ _, False)); [split; [done|by rewrite Hs]|].
  apply Forall_forall. intros [r|i c|d] _; [by intros ? ? []|done|done].
Qed.

(** C21: after any run of administrators' requests, the route chosen for a model at an
    endpoint - by collecting all that match, weighing and sorting them - is the one
    four look-ups find: the exact route of the endpoint, else the exact route of any
    endpoint, else the longest prefix among the routes of the endpoint, else the
    longest prefix among the routes of any endpoint.  So the choice does not depend on
    the order the table is read in, and the priority an administrator gives a route
    has no effect on it. *)
Theorem chosen_route_by_lookups es s gid model endpoint f routes' :
  tables_ok s → rs_served s = [] →
  let routes := SliceStable by_priority (group_routes gid false (reach dp es s)) in
  matchCompositeRoute routes model endpoint = reference routes model endpoint ∧
  (routes' ≡ₚ set_priority f <$> routes →
     matchCompositeRoute routes' model endpoint = set_priority f <$> matchCompositeRoute routes model endpoint).
Proof.
  intros Ht Hs routes. assert (Hwf : well_formed routes) by by apply group_routes_well_formed, reach_inv.
  split; [by apply matchCompositeRoute_reference|]. intros Hp.
  rewrite (matchCompositeRoute_reference routes') by by eapply well_formed_priority.
  rewrite (matchCompositeRoute_reference routes) by done. by apply reference_priority.
Qed.


(** C23: in every run, the routes of a group, deleted ones included, stay exactly as they
    are as long as no request names that group: an administrator of one group who asks
    to change or delete a route of another is refused, even when rows are created and
    deleted between the check and the write. *)
Theorem routes_of_others_untouched es s gid :
  tables_ok s → rs_served s = [] → (∀ r, Spawn r ∈ es → names r ≠ Some gid) →
  rows_of gid (reach dp es s) = rows_of gid s ∧ tables_ok (reach dp es s).
Proof.
  intros Ht Hs Hes. destruct (routes_reach_ok dp (λ g, g = gid) es s) as [[Ht' _] [_ Hg]].
  - split; [done|by rewrite Hs].
  - apply Forall_forall. intros [r|i c|d] He; [|done..]. intros g Hn ->. by apply (Hes r).
  - by split; [apply Hg|].
Qed.

End theorems.
End CompositeTheorems.
