(* ===== verification/CompositeExamples.v ===== *)
(** * Composite groups at concrete inputs *)

From S2P Require Import Prelude GoStrings Platforms Interleaving CompositeRoute CompositeRouting CompositeBest CompositeInvariant CompositeTheorems.

Module CompositeExamples.
Import GoStrings CompositeRoute CompositeRouting CompositeBest CompositeInvariant CompositeTheorems.

(** Nothing but ASCII is asked for. *)
#[local] Instance ascii_only : Unicode := id.

Definition deployment : Deployment := mkDeployment false true true true.
Definition store : Store := mkStore 0 ∅ 1 {[5 := PlatformComposite; 6 := PlatformComposite]} [].

Definition account (p : string) (oauth : bool) (model : string) : ModelAccount :=
  mkModelAccount (lit p) oauth {[lit model := lit model]}.

Definition answers (accounts : list ModelAccount) (X : Type) (q : question X) : X :=
  match q with
  | QCached _ _ => None
  | QCache _ _ _ => tt
  | QCandidates _ => Ok accounts
  | QRewrite => true
  end.
Definition quiet (accounts : list ModelAccount) : choice := mkChoice NoFault (answers accounts).

Abbreviation event := (event (Q := question) (Req := request)).
Definition steps (i n : nat) : list event := repeat (Step i (quiet [account "openai" true "gpt-house"; account "gemini" false "gpt-house"])) n.

Definition route (model kind platform upstream endpoint : string) (priority : Z) : CompositeRouteInput :=
  mkInput (lit model) (lit kind) (lit platform) (lit upstream) (lit endpoint) priority true [].

(** A route for all models of a family, and one for its fast model; two requests; an
    administrator of another group who tries to change a route of this one. *)
Definition administration : list event :=
  Spawn (RCreate 5 (route " deepseek-v4" "prefix" "deepseek" "" "" 1)) :: steps 0 9 ++
  Spawn (RCreate 5 (route "deepseek-v4-flash" "Exact" "openai" "gpt-mini" "messages" 900)) :: steps 1 9.
Definition traffic : list event :=
  administration ++
  Spawn (RServe 5 (lit "deepseek-v4-pro") (lit "/v1/messages") GatewayHandler) :: steps 2 9 ++
  Spawn (RServe 5 (lit "deepseek-v4-flash") (lit "/v1/messages") GatewayHandler) :: steps 3 9 ++
  Spawn (RServe 5 (lit "gpt-house") (lit "/v1/messages") GatewayHandler) :: steps 4 9 ++
  Spawn (RUpdate 6 1 (route "deepseek-v4" "prefix" "cline" "" "" 1)) :: steps 5 9 ++
  Spawn (RGemini 5 (lit "/gemini-house:generateContent")) :: steps 6 9.

Definition outcomes : list (bytes * outcome) :=
  (λ v, (sv_model v, sv_outcome v)) <$> rs_served (reach deployment traffic store).

Example routed : outcomes =
  [(lit "/gemini-house:generateContent", Scheduled (lit "gemini") (lit "gemini-house"));
   (lit "gpt-house", Rejected 400);
   (lit "deepseek-v4-flash", Scheduled (lit "openai") (lit "gpt-mini"));
   (lit "deepseek-v4-pro", Scheduled (lit "deepseek") (lit "deepseek-v4-pro"))].
Proof. by vm_compute. Qed.

(** The prefix of the provider decides. *)
Example provider_prefix : DetectModelPlatform (lit "deepseek/foo") = Some "deepseek"%string.
Proof. by vm_compute. Qed.

(** Accounts of two platforms claim the model; its name suggests one of them. *)
Definition ambiguous : list event :=
  Spawn (RServe 5 (lit "gpt-house") (lit "/v1/messages") GatewayHandler) ::
  repeat (Step 0 (quiet [account "openai" false "gpt-house"; account "gemini" false "gpt-house"])) 9.
Example ambiguous_model_scheduled_by_name :
  sv_outcome <$> rs_served (reach deployment ambiguous store) = [Scheduled (lit "openai") (lit "gpt-house")].
Proof. by vm_compute. Qed.

Lemma store_ok : tables_ok store.
Proof. split; by intros ? ? H || (intros ? ? ? ? H; done). Qed.

Definition chosen (p : Z) : list CompositeModelRoute :=
  set_priority (λ r, p) <$> SliceStable by_priority (group_routes 5 false (reach deployment administration store)).

(** The same choice with all priorities equal. *)
Example chosen_route_by_lookups_witness :
  rt_PublicModel <$> matchCompositeRoute (chosen 7) (lit "deepseek-v4-flash") (lit "messages") = Some (lit "deepseek-v4-flash").
Proof.
  destruct (chosen_route_by_lookups deployment administration store 5 (lit "deepseek-v4-flash") (lit "messages") (λ _, 7) (chosen 7)
    store_ok eq_refl) as [Href Hmatch].
  unfold chosen in *. rewrite (Hmatch (Permutation_refl _)), Href. by vm_compute.
Defined.

Definition first_served : served := Eval vm_compute in
  default (mkServed 0 Gemini [] None [] NoAvailableAccounts) (last (rs_served (reach deployment traffic store))).


(** Requests to group 6 leave group 5 alone. *)
Definition others : list event := Spawn (RDelete 6 1) :: steps 0 9 ++ Spawn (RUpdate 6 1 (route "m" "exact" "openai" "" "" 0)) :: steps 1 9.

Lemma administered_ok : tables_ok (reach deployment administration store).
Proof. by apply reach_inv; [apply store_ok|]. Qed.

Example routes_of_others_untouched_witness :
  let s := reach deployment administration store in
  rows_of 5 (reach deployment others s) = rows_of 5 s ∧ tables_ok (reach deployment others s).
Proof.
  apply (routes_of_others_untouched deployment others (reach deployment administration store) 5);
    [apply administered_ok|by vm_compute|].
  intros r Hr. unfold others in Hr. simpl in Hr. set_unfold in Hr. naive_solver.
Defined.

End CompositeExamples.
