(* ===== verification/ProxyFallback.v ===== *)
(** * Expired proxies: fallback resolution and the expiry sweep

    Models [service/proxy.go] (the two predicates), [service/proxy_fallback.go]
    and the sweep of [repository/proxy_repo.go].  A proxy table, an account
    table and the scheduler outbox form the store; every SQL statement of the
    sweep is a function on it, with the statement's own [WHERE] clause. *)

From S2P Require Import Prelude.

Module ProxyFallback.

(** ** Data *)

Definition StatusActive : string := "active".
Definition StatusExpired : string := "expired".

Definition FallbackModeNone : string := "none".
Definition FallbackModeProxy : string := "proxy".
Definition FallbackModeDirect : string := "direct".

Lemma modes_distinct : FallbackModeProxy ≠ FallbackModeDirect.
Proof. done. Qed.

(** The fields of [Proxy] the expiry logic reads or writes. *)
Record Proxy := mkProxy {
  ID : Z;
  Status : string;
  ExpiresAt : option time;
  FallbackMode : string;
  BackupProxyID : option Z
}.

Definition IsActive (p : Proxy) : bool := bool_decide (Status p = StatusActive).

Definition IsExpired (p : Proxy) (now : time) : bool :=
  match ExpiresAt p with
  | Some e => negb (after e now)
  | None => false
  end.

Definition usable (now : time) (p : Proxy) : bool := IsActive p && negb (IsExpired p now).

(** ** Resolution of the fallback chain

    The result is the pair [(targetID, change)] of the code.  [None] stands for
    a loop that has not returned within the fuel. *)

Section Resolve.
Context (byID : gmap Z Proxy) (now : time).

Fixpoint resolve_loop (fuel : nat) (visited : gset Z) (curID : option Z)
    : option (option Z * bool) :=
  match fuel with
  | O => None
  | S fuel =>
      match curID with
      | None => Some (None, false)
      | Some id =>
          if bool_decide (id ∈ visited) then Some (None, false)
          else match byID !! id with
               | None => Some (None, false)
               | Some p =>
                   if IsActive p && negb (IsExpired p now) then Some (Some (ID p), true)
                   else if bool_decide (FallbackMode p = FallbackModeDirect)
                   then Some (None, true)
                   else if bool_decide (FallbackMode p = FallbackModeProxy)
                   then resolve_loop fuel ({[id]} ∪ visited) (BackupProxyID p)
                   else Some (None, false)
               end
      end
  end.

(** One iteration per proxy of the snapshot, and one to notice the repeat. *)
Definition resolve_fuel : nat := S (S (size byID)).

Definition ResolveProxyFallbackTarget (start : Proxy) : option (option Z * bool) :=
  if bool_decide (FallbackMode start = FallbackModeDirect) then Some (None, true)
  else if bool_decide (FallbackMode start = FallbackModeProxy)
  then resolve_loop resolve_fuel {[ID start]} (BackupProxyID start)
  else Some (None, false).

(** *** Specification: following the chain without remembering anything.

    [leads n c r]: the chain that starts at [c] ends after [n] hops with
    result [r].  A cyclic chain leads nowhere. *)
Inductive leads : nat → option Z → option Z * bool → Prop :=
  | leads_nil : leads 0 None (None, false)
  | leads_missing id : byID !! id = None → leads 0 (Some id) (None, false)
  | leads_target id p :
      byID !! id = Some p → usable now p = true → leads 0 (Some id) (Some (ID p), true)
  | leads_direct id p :
      byID !! id = Some p → usable now p = false →
      FallbackMode p = FallbackModeDirect → leads 0 (Some id) (None, true)
  | leads_stop id p :
      byID !! id = Some p → usable now p = false →
      FallbackMode p ≠ FallbackModeDirect → FallbackMode p ≠ FallbackModeProxy →
      leads 0 (Some id) (None, false)
  | leads_hop n id p r :
      byID !! id = Some p → usable now p = false →
      FallbackMode p = FallbackModeProxy → leads n (BackupProxyID p) r →
      leads (S n) (Some id) r.

Lemma leads_det n c r : leads n c r → ∀ m r', leads m c r' → n = m ∧ r = r'.
Proof.
  pose proof modes_distinct.
  induction 1 as [| | | | |n id p r Hp Hu Hm _ IH]; intros m r' H'; inversion H'; simplify_eq;
    try congruence; try done.
  match goal with H : leads _ (BackupProxyID _) _ |- _ => apply IH in H as [-> ->] end.
  done.
Qed.

(** The visited set never cuts a chain that ends. *)
Lemma resolve_loop_leads fuel : ∀ visited n c r,
  leads n c r →
  (∀ v m r', v ∈ visited → leads m (Some v) r' → (n < m)%nat) →
  (n < fuel)%nat →
  resolve_loop fuel visited c = Some r.
Proof.
  induction fuel as [|fuel IH]; intros visited n c r HL HV Hf; [lia|]; simpl.
  destruct c as [id|]; [|by inversion HL].
  rewrite bool_decide_false; [|intros Hin; specialize (HV _ _ _ Hin HL); lia].
  pose proof HL as HL'.
  inversion HL as [|? Hn|? p Hp Hu|? p Hp Hu Hm|? p Hp Hu Hm1 Hm2|k ? p ? Hp Hu Hm Hb]; subst;
    try (rewrite Hn; done); rewrite Hp; fold (usable now p); rewrite Hu; try done.
  - by rewrite Hm.
  - by rewrite !bool_decide_false.
  - rewrite Hm. rewrite bool_decide_false by done. rewrite bool_decide_true by done.
    apply (IH _ k); [done| |lia].
    intros v m r' [->%elem_of_singleton|Hv]%elem_of_union Hl.
    + destruct (leads_det _ _ _ HL' _ _ Hl). lia.
    + pose proof (HV _ _ _ Hv Hl). lia.
Qed.

Lemma resolve_loop_fuel_det f1 : ∀ f2 visited c r1 r2,
  resolve_loop f1 visited c = Some r1 → resolve_loop f2 visited c = Some r2 → r1 = r2.
Proof.
  induction f1 as [|f1 IH]; intros [|f2] visited c r1 r2; simpl; try done.
  destruct c as [id|]; [|congruence].
  case_bool_decide; [congruence|]. destruct (byID !! id) as [p|]; [|congruence].
  fold (usable now p). destruct (usable now p); [congruence|].
  repeat case_bool_decide; try congruence. apply IH.
Qed.

(** Every hop leaves the map's unvisited part smaller. *)
Lemma resolve_loop_total fuel : ∀ visited c,
  (size (dom byID ∖ visited) < fuel)%nat → is_Some (resolve_loop fuel visited c).
Proof.
  induction fuel as [|fuel IH]; intros visited c Hf; [lia|]; simpl.
  destruct c as [id|]; [|by eauto].
  case_bool_decide; [by eauto|].
  destruct (byID !! id) as [p|] eqn:Hp; [|by eauto].
  fold (usable now p). destruct (usable now p); [by eauto|].
  repeat case_bool_decide; eauto.
  apply IH.
  assert (id ∈ dom byID ∖ visited) by (apply elem_of_difference; split; [by apply elem_of_dom|done]).
  replace (dom byID ∖ ({[id]} ∪ visited)) with ((dom byID ∖ visited) ∖ {[id]}) by set_solver.
  assert (size (dom byID ∖ visited) ≠ 0)%nat by (intros ?%size_empty_inv; set_solver).
  rewrite size_difference by set_solver. rewrite size_singleton. lia.
Qed.

(** What the loop answers either ends a chain or reports a cycle. *)
Lemma resolve_loop_sound fuel : ∀ visited c r,
  resolve_loop fuel visited c = Some r → (∃ n, leads n c r) ∨ r = (None, false).
Proof.
  induction fuel as [|fuel IH]; intros visited c r; simpl; [done|].
  destruct c as [id|]; [|by intros; simplify_eq; eauto using leads].
  case_bool_decide; [by intros; simplify_eq; eauto|].
  destruct (byID !! id) as [p|] eqn:Hp; [|by intros; simplify_eq; eauto].
  fold (usable now p). destruct (usable now p) eqn:Hu.
  { intros; simplify_eq. left. eauto using leads. }
  repeat case_bool_decide; intros Hr; simplify_eq; eauto using leads.
  apply IH in Hr as [[n Hn]| ->]; eauto using leads.
Qed.

Lemma resolve_total start : is_Some (ResolveProxyFallbackTarget start).
Proof.
  unfold ResolveProxyFallbackTarget. repeat case_bool_decide; eauto.
  apply resolve_loop_total. unfold resolve_fuel.
  assert (size (dom byID ∖ {[ID start]}) ≤ size (dom byID))%nat by (apply subseteq_size; set_solver).
  rewrite size_dom in *. lia.
Qed.

Lemma leads_length start n c r :
  byID !! ID start = Some start → usable now start = false →
  FallbackMode start = FallbackModeProxy → BackupProxyID start = c →
  leads n c r → resolve_loop resolve_fuel {[ID start]} c = Some r.
Proof.
  intros Hs Hu Hm <- HL.
  destruct (resolve_total start) as [r0 Hr0]. revert Hr0.
  unfold ResolveProxyFallbackTarget.
  rewrite bool_decide_false by (rewrite Hm; done). rewrite bool_decide_true by done.
  intros Hr0. rewrite Hr0.
  assert (Hbig : resolve_loop (S n) {[ID start]} (BackupProxyID start) = Some r).
  { apply (resolve_loop_leads _ _ n); [done| |lia].
    intros v m r' ->%elem_of_singleton Hv.
    destruct (leads_det _ _ _ (leads_hop _ _ _ _ Hs Hu Hm HL) _ _ Hv). lia. }
  f_equal. by eapply resolve_loop_fuel_det.
Qed.

End Resolve.

(** ** The store and the sweep *)

(** A JSON value as far as the sweep looks at it: the literal [null], or else. *)
Inductive json := JNull | JValue (text : string).

Record proxy_row := mkProxyRow { pr_proxy : Proxy; pr_deleted : bool }.

Record account_row := mkAccountRow {
  ac_type : string;
  ac_platform : string;
  ac_proxy_id : option Z;
  ac_fallback_origin : option Z;
  ac_extra : option (gmap string json);
  ac_deleted : bool;
  ac_pool : bool          (** the account has rows in [account_proxies] *)
}.

(** An [account_bulk_changed] event with its [account_ids]. *)
Record store := mkStore {
  st_proxies : gmap Z proxy_row;
  st_accounts : gmap Z account_row;
  st_outbox : list (list Z)
}.

Definition upstream_billing_probe : string := "upstream_billing_probe".
Definition ollama_snapshot : string := "ollama_cloud_usage_snapshot".
Definition opencode_snapshot : string := "opencode_go_usage_snapshot".

Definition ollamaCloudUsagePlatforms : list string :=
  ["openai"; "anthropic"; "kimi"; "zhipu"; "deepseek"; "minimax"].
Definition opencodeGoUsageMountPlatforms : list string :=
  ["openai"; "anthropic"; "kimi"; "zhipu"; "deepseek"; "minimax"].

(** [extra ? k] and [extra -> k <> 'null'::jsonb]; both are unknown, hence not
    true, on a NULL column. *)
Definition has_key (e : option (gmap string json)) (k : string) : bool :=
  match e with Some m => bool_decide (is_Some (m !! k)) | None => false end.
Definition has_value (e : option (gmap string json)) (k : string) : bool :=
  match e with
  | Some m => match m !! k with Some (JValue _) => true | _ => false end
  | None => false
  end.

(** *** [sortedUniqueAccountIDs]: sort, then compact equal neighbours. *)

Fixpoint compact_ids (prev : Z) (l : list Z) : list Z :=
  match l with
  | [] => []
  | x :: l => if x =? prev then compact_ids prev l else x :: compact_ids x l
  end.

Definition sortedUniqueAccountIDs (ids : list Z) : list Z :=
  match ids with
  | [] | [_] => ids
  | _ => match merge_sort Z.le ids with
         | [] => []
         | x :: l => x :: compact_ids x l
         end
  end.

(** *** The statements *)

Definition snapshot_matches (row : proxy_row) (snapshot : Proxy) (now : time) : bool :=
  let p := pr_proxy row in
  negb (pr_deleted row)
  && bool_decide (Status p = StatusActive)
  && match ExpiresAt p, ExpiresAt snapshot with
     | Some e, Some e' => (e <=? now) && (e =? e')
     | _, _ => false
     end
  && bool_decide (FallbackMode p = FallbackMode snapshot)
  && bool_decide (BackupProxyID p = BackupProxyID snapshot).

Definition mark_expired (row : proxy_row) : proxy_row :=
  let p := pr_proxy row in
  mkProxyRow (mkProxy (ID p) StatusExpired (ExpiresAt p) (FallbackMode p) (BackupProxyID p))
             (pr_deleted row).

(** The [WHERE] clause of the two re-routing updates. *)
Definition rerouted (proxyID : Z) (a : account_row) : bool :=
  bool_decide (ac_proxy_id a = Some proxyID) && negb (ac_deleted a) && negb (ac_pool a).

Definition reroute (proxyID : Z) (target : option Z) (a : account_row) : account_row :=
  {| ac_type := ac_type a;
     ac_platform := ac_platform a;
     ac_proxy_id := target;
     ac_fallback_origin :=
       match ac_fallback_origin a with Some o => Some o | None => Some proxyID end;
     ac_extra :=
       if bool_decide (ac_type a = "apikey") && has_key (ac_extra a) upstream_billing_probe
       then delete upstream_billing_probe <$> ac_extra a else ac_extra a;
     ac_deleted := ac_deleted a;
     ac_pool := ac_pool a |}.

Definition probe_stale (proxyID : Z) (a : account_row) : bool :=
  bool_decide (ac_proxy_id a = Some proxyID)
  && bool_decide (ac_type a = "apikey")
  && ((has_key (ac_extra a) upstream_billing_probe
         && has_value (ac_extra a) upstream_billing_probe)
      || (bool_decide (ac_platform a ∈ ollamaCloudUsagePlatforms)
          && has_key (ac_extra a) ollama_snapshot && has_value (ac_extra a) ollama_snapshot)
      || ((bool_decide (ac_platform a = "opencode_go")
           || bool_decide (ac_platform a ∈ opencodeGoUsageMountPlatforms))
          && has_key (ac_extra a) opencode_snapshot && has_value (ac_extra a) opencode_snapshot))
  && negb (ac_deleted a).

Definition drop_probe (a : account_row) : account_row :=
  {| ac_type := ac_type a; ac_platform := ac_platform a; ac_proxy_id := ac_proxy_id a;
     ac_fallback_origin := ac_fallback_origin a;
     ac_extra := Some (delete opencode_snapshot (delete ollama_snapshot
                   (delete upstream_billing_probe (default ∅ (ac_extra a)))));
     ac_deleted := ac_deleted a; ac_pool := ac_pool a |}.

(** [UPDATE accounts SET f WHERE sel RETURNING id]. *)
Definition update_accounts (sel : account_row → bool) (f : account_row → account_row)
    (st : store) : list Z * store :=
  ((map_to_list (filter (λ kv, sel kv.2 = true) (st_accounts st))).*1,
   mkStore (st_proxies st) ((λ a, if sel a then f a else a) <$> st_accounts st) (st_outbox st)).

Definition invalidateProxyProbeSnapshots (proxyID : Z) (st : store) : list Z * store :=
  update_accounts (probe_stale proxyID) drop_probe st.

Fixpoint chunks (fuel : nat) (size : nat) (ids : list Z) : list (list Z) :=
  match fuel, ids with
  | S fuel, _ :: _ => take size ids :: chunks fuel size (drop size ids)
  | _, _ => []
  end.

Definition proxyProbeOutboxAccountChunkSize : nat := 500.

Definition enqueueProxyProbeAccountChanges (ids : list Z) (st : store) : store :=
  let ids := sortedUniqueAccountIDs ids in
  mkStore (st_proxies st) (st_accounts st)
    (st_outbox st ++ chunks (length ids) proxyProbeOutboxAccountChunkSize ids).

(** One transaction of the sweep; a statement of it that fails rolls all of it
    back, which leaves the store as it was. *)
Definition sweepOneExpiredProxyOnExec (snapshot : Proxy) (now : time) (target : option Z)
    (change : bool) (st : store) : list Z * store :=
  let proxyID := ID snapshot in
  match st_proxies st !! proxyID with
  | Some row =>
      if snapshot_matches row snapshot now then
        let st := mkStore (<[proxyID := mark_expired row]> (st_proxies st))
                          (st_accounts st) (st_outbox st) in
        if negb change then
          let '(ids, st) := invalidateProxyProbeSnapshots proxyID st in
          ([], enqueueProxyProbeAccountChanges ids st)
        else update_accounts (rerouted proxyID) (reroute proxyID target) st
      else ([], st)
  | None => ([], st)
  end.

Definition ListAllForFallback (st : store) : list Proxy :=
  omap (λ kv : Z * proxy_row, if pr_deleted kv.2 then None else Some (pr_proxy kv.2))
       (map_to_list (st_proxies st)).

Definition snapshot_map (all : list Proxy) : gmap Z Proxy :=
  foldl (λ m p, <[ID p := p]> m) ∅ all.

Section Sweep.
(** Whether the transaction of a proxy commits, and whether the final outbox
    insertion (logged only) succeeds. *)
Context (commits : Z → bool) (announced : bool).

(** [SweepExpiredProxies]: the changed total, whether an error stopped it, and
    the store.  The accounts moved so far are announced only at the end. *)
Fixpoint sweep_loop (byID : gmap Z Proxy) (now : time) (todo : list Proxy)
    (changed : list Z) (st : store) : result Z (list Z) * store :=
  match todo with
  | [] => (Ok changed, st)
  | p :: todo =>
      if negb (IsActive p) || negb (IsExpired p now) then sweep_loop byID now todo changed st
      else
        let '(target, change) := default (None, false) (ResolveProxyFallbackTarget byID now p) in
        if commits (ID p) then
          let '(ids, st) := sweepOneExpiredProxyOnExec p now target change st in
          sweep_loop byID now todo (changed ++ ids) st
        else (Err (Z.of_nat (length changed)), st)
  end.

Definition SweepExpiredProxies (now : time) (st : store) : result Z Z * store :=
  let all := ListAllForFallback st in
  match sweep_loop (snapshot_map all) now all [] st with
  | (Ok changed, st) =>
      let ids := sortedUniqueAccountIDs changed in
      (Ok (Z.of_nat (length changed)),
       if bool_decide (ids = []) || negb announced then st
       else mkStore (st_proxies st) (st_accounts st) (st_outbox st ++ [ids]))
  | (Err n, st) => (Err n, st)
  end.
End Sweep.

(** ** Lemmas of the sweep *)

Definition wf_store (st : store) : Prop :=
  ∀ k row, st_proxies st !! k = Some row → ID (pr_proxy row) = k.

Lemma elem_of_list_all st p :
  p ∈ ListAllForFallback st ↔ ∃ k, st_proxies st !! k = Some (mkProxyRow p false).
Proof.
  unfold ListAllForFallback. rewrite list_elem_of_omap. split.
  - intros ([k [q d]] & Hin & Hp). simpl in *. destruct d; simplify_eq.
    exists k. by apply elem_of_map_to_list.
  - intros [k Hk]. exists (k, mkProxyRow p false). split; [|done].
    by apply elem_of_map_to_list.
Qed.

Lemma list_all_NoDup st : wf_store st → NoDup (ID <$> ListAllForFallback st).
Proof.
  intros Hwf. unfold ListAllForFallback.
  assert (Hall : ∀ k row, (k, row) ∈ map_to_list (st_proxies st) → ID (pr_proxy row) = k)
    by (intros k row ?%elem_of_map_to_list; eauto).
  pose proof (NoDup_fst_map_to_list (st_proxies st)) as HN. revert HN Hall.
  induction (map_to_list (st_proxies st)) as [|[k [q d]] l IH]; intros HN Hall; [by constructor|].
  apply NoDup_cons in HN as [Hk HN]. simpl.
  assert (IH' : NoDup (ID <$> omap (λ kv : Z * proxy_row,
    if pr_deleted kv.2 then None else Some (pr_proxy kv.2)) l)).
  { apply IH; [done|]. intros; apply Hall. by apply list_elem_of_further. }
  destruct d; simpl; [done|]. apply NoDup_cons. split; [|done].
  intros (p & Hp & ([k' [q' d']] & Hin & Hq)%list_elem_of_omap)%list_elem_of_fmap.
  simpl in Hq. destruct d'; simplify_eq.
  pose proof (Hall k _ (list_elem_of_here _ _)) as H1.
  pose proof (Hall k' _ (list_elem_of_further _ _ _ Hin)) as H2.
  simpl in *. apply Hk. rewrite <- H1, Hp, H2. apply list_elem_of_fmap. by exists (k', mkProxyRow p false).
Qed.

Lemma snapshot_map_lookup all k p :
  NoDup (ID <$> all) → snapshot_map all !! k = Some p ↔ p ∈ all ∧ ID p = k.
Proof.
  intros HN. unfold snapshot_map.
  assert (foldl (λ m p, <[ID p:=p]> m) (∅ : gmap Z Proxy) all
          = list_to_map (reverse ((λ p, (ID p, p)) <$> all))) as ->.
  { clear HN. induction all as [|q all IH] using rev_ind; [done|].
    rewrite foldl_app, fmap_app, reverse_app. simpl. by rewrite IH. }
  rewrite <- elem_of_list_to_map.
  - rewrite elem_of_reverse, list_elem_of_fmap. naive_solver.
  - rewrite fmap_reverse, <- list_fmap_compose. by rewrite reverse_Permutation.
Qed.

Lemma leads_usable byID now n c t b :
  leads byID now n c (Some t, b) →
  ∃ k p, byID !! k = Some p ∧ ID p = t ∧ usable now p = true.
Proof. remember (Some t, b) as r eqn:Hr. induction 1; naive_solver. Qed.

(** What the sweep decides for one proxy of its snapshot. *)
Definition plan (byID : gmap Z Proxy) (now : time) (p : Proxy) : option (option Z) :=
  if IsActive p && IsExpired p now then
    match ResolveProxyFallbackTarget byID now p with
    | Some (t, true) => Some t
    | _ => None
    end
  else None.

Lemma plan_usable byID now p t :
  plan byID now p = Some (Some t) →
  ∃ k q, byID !! k = Some q ∧ ID q = t ∧ usable now q = true.
Proof.
  unfold plan, ResolveProxyFallbackTarget. intros Hp.
  destruct (IsActive p && IsExpired p now); [|done].
  case_bool_decide; [done|]. case_bool_decide; [|done].
  destruct (resolve_loop _ _ _ _ _) as [[c [|]]|] eqn:Hr; simplify_eq.
  apply resolve_loop_sound in Hr as [[n Hn]|]; [|done]. by eapply leads_usable.
Qed.

(** An account follows the fallback of a proxy of [todo]. *)
Definition moves (byID : gmap Z Proxy) (now : time) (todo : list Proxy)
    (a : account_row) (k : Z) (t : option Z) : Prop :=
  ac_proxy_id a = Some k ∧ ac_deleted a = false ∧ ac_pool a = false ∧
  ∃ p, p ∈ todo ∧ ID p = k ∧ plan byID now p = Some t.

Definition moved (byID : gmap Z Proxy) (now : time) (todo : list Proxy)
    (a a' : account_row) : Prop :=
  (ac_deleted a' = ac_deleted a ∧ ac_pool a' = ac_pool a) ∧
  ((∃ k t, moves byID now todo a k t ∧ ac_proxy_id a' = t ∧
           ac_fallback_origin a' = Some (default k (ac_fallback_origin a))) ∨
   ((∀ k t, ¬ moves byID now todo a k t) ∧
    ac_proxy_id a' = ac_proxy_id a ∧ ac_fallback_origin a' = ac_fallback_origin a)).

(** The fields of an account the sweep may change, beside the probe data. *)
Definition core (a : account_row) : option Z * option Z * bool * bool :=
  (ac_proxy_id a, ac_fallback_origin a, ac_deleted a, ac_pool a).

Definition step_account (k : Z) (target : option Z) (change : bool) (a : account_row) : account_row :=
  if change then if rerouted k a then reroute k target a else a
  else if probe_stale k a then drop_probe a else a.

Lemma snapshot_matches_self p now :
  IsActive p = true → IsExpired p now = true → snapshot_matches (mkProxyRow p false) p now = true.
Proof.
  unfold IsActive, IsExpired, snapshot_matches. simpl. intros ->.
  destruct (ExpiresAt p) as [e|]; [|done]. unfold after. intros He. bool_hyp.
  rewrite !bool_decide_true by done. rewrite Z.eqb_refl.
  rewrite (proj2 (Z.leb_le e now)) by done. done.
Qed.

Lemma sweep_one_effect p now target change st :
  st_proxies st !! ID p = Some (mkProxyRow p false) →
  IsActive p = true → IsExpired p now = true →
  let st' := (sweepOneExpiredProxyOnExec p now target change st).2 in
  st_proxies st' = <[ID p := mark_expired (mkProxyRow p false)]> (st_proxies st) ∧
  st_accounts st' = step_account (ID p) target change <$> st_accounts st.
Proof.
  intros Hp Ha He. unfold sweepOneExpiredProxyOnExec. rewrite Hp, snapshot_matches_self by done.
  by destruct change.
Qed.

Lemma moved_cons byID now p todo target change a a' :
  (∀ q, q ∈ p :: todo → byID !! ID q = Some q) →
  (∀ k q, byID !! k = Some q → ID q = k) →
  IsActive p = true → IsExpired p now = true →
  ResolveProxyFallbackTarget byID now p = Some (target, change) →
  moved byID now todo (step_account (ID p) target change a) a' →
  moved byID now (p :: todo) a a'.
Proof.
  intros Hby Hid Ha He Hr.
  assert (Hplan : plan byID now p = if change then Some target else None).
  { unfold plan. rewrite Ha, He, Hr. by destruct change. }
  destruct (change && rerouted (ID p) a) eqn:Hmv.
  - bool_hyp. subst change. unfold step_account.
    match goal with H : rerouted _ _ = true |- _ => rename H into Hre end.
    rewrite Hre. unfold rerouted in Hre. bool_hyp.
    intros [[? ?] Hm]. simpl in *. split; [done|]. left. exists (ID p), target.
    assert (moves byID now (p :: todo) a (ID p) target).
    { repeat split; try done. exists p. split_and!; try done. apply list_elem_of_here. }
    destruct Hm as [(k & t & Hmoves & _)|(_ & -> & ->)].
    + exfalso. destruct Hmoves as (Hk & _ & _ & q & Hq & Hqk & Hqp). simpl in Hk. subst target.
      apply plan_usable in Hplan as (k' & q' & Hk' & Hkk & Hu).
      rewrite (Hid _ _ Hk') in Hkk. subst k' k.
      rewrite (Hby q) in Hk' by (by apply list_elem_of_further). simplify_eq.
      unfold plan, usable in *. destruct (IsActive q'), (IsExpired q' now); simplify_eq/=.
    + split_and!; try done. simpl. by destruct (ac_fallback_origin a).
  - assert (Hcore : core (step_account (ID p) target change a) = core a).
    { unfold step_account. destruct change; simpl in Hmv; [by rewrite Hmv|].
      by destruct (probe_stale (ID p) a). }
    set (a1 := step_account (ID p) target change a) in *. clearbody a1.
    unfold core in Hcore. injection Hcore as E1 E2 E3 E4.
    assert (Hiff : ∀ k t, moves byID now (p :: todo) a k t ↔ moves byID now todo a1 k t).
    { intros k t. unfold moves. rewrite E1, E3, E4.
      split; intros (Hk & Hd & Hpl & q & Hq & Hqk & Hqp); (split_and!; [done..|]).
      - apply elem_of_cons in Hq as [->|Hq]; [|by eauto]. exfalso.
        rewrite Hplan in Hqp. destruct change; [|done]. simpl in Hmv. unfold rerouted in Hmv.
        rewrite Hd, Hpl, Hk, Hqk, bool_decide_true in Hmv; done.
      - exists q. split_and!; try done. by apply list_elem_of_further. }
    unfold moved. rewrite E1, E2, E3, E4. intros [? Hm]. split; [done|].
    destruct Hm as [(k & t & ? & ?)|[Hn ?]]; [left|right].
    + exists k, t. by rewrite Hiff.
    + split; [|done]. intros k t ?%Hiff. by eapply Hn.
Qed.

Definition due (now : time) (p : Proxy) : bool := IsActive p && IsExpired p now.

(** The loop, when every transaction commits: it finishes, moves the accounts
    as planned and leaves only usable or expired rows behind. *)
Lemma sweep_loop_effect byID now todo : ∀ changed st,
  NoDup (ID <$> todo) →
  (∀ q, q ∈ todo → byID !! ID q = Some q) →
  (∀ k q, byID !! k = Some q → ID q = k) →
  (∀ q, q ∈ todo → st_proxies st !! ID q = Some (mkProxyRow q false)) →
  ∃ ids st', sweep_loop (λ _, true) byID now todo changed st = (Ok ids, st') ∧
    (∀ q, q ∈ todo → due now q = true →
       st_proxies st' !! ID q = Some (mark_expired (mkProxyRow q false))) ∧
    (∀ k, (∀ q, q ∈ todo → due now q = true → ID q ≠ k) →
       st_proxies st' !! k = st_proxies st !! k) ∧
    (∀ k a, st_accounts st !! k = Some a →
       ∃ a', st_accounts st' !! k = Some a' ∧ moved byID now todo a a').
Proof.
  induction todo as [|p todo IH]; intros changed st HN Hby Hid Hst; simpl.
  { exists changed, st. split_and!; try done; [by intros ? ?%not_elem_of_nil|].
    intros k a Ha. exists a. split; [done|]. split; [done|]. right. split; [|done].
    intros ? ? (? & ? & ? & ? & []%not_elem_of_nil & _). }
  rewrite fmap_cons in HN. apply NoDup_cons in HN as [Hp HN].
  assert (Hother : ∀ q, q ∈ todo → ID q ≠ ID p).
  { intros q Hq Heq. apply Hp. rewrite <- Heq. by apply list_elem_of_fmap_2. }
  assert (Htl : ∀ q, q ∈ todo → q ∈ p :: todo) by (intros; by apply list_elem_of_further).
  destruct (due now p) eqn:Hdue; unfold due in Hdue.
  - bool_hyp.
    match goal with H : IsActive p = true |- _ => rename H into Ha end.
    match goal with H : IsExpired p now = true |- _ => rename H into He end.
    rewrite Ha, He. simpl. destruct (resolve_total byID now p) as [[target change] Hr].
    rewrite Hr. simpl.
    assert (Hrow : st_proxies st !! ID p = Some (mkProxyRow p false))
      by (apply Hst, list_elem_of_here).
    pose proof (sweep_one_effect p now target change st Hrow Ha He) as Heff. simpl in Heff.
    destruct (sweepOneExpiredProxyOnExec p now target change st) as [ids st1].
    destruct Heff as [Hpr Hac]. simpl in Hpr, Hac.
    destruct (IH (changed ++ ids) st1 HN) as (ids' & st' & Hrun & HA & HB & HC); [by eauto|done| |].
    { intros q Hq. rewrite Hpr, lookup_insert_ne by (apply not_eq_sym; auto). auto. }
    exists ids', st'. split; [done|]. split_and!.
    + intros q [->|Hq]%elem_of_cons Hdq; [|by auto].
      rewrite HB by auto. by rewrite Hpr, lookup_insert_eq.
    + intros k Hk. rewrite HB by (intros q Hq; apply Hk; auto).
      rewrite Hpr, lookup_insert_ne; [done|]. apply (Hk p); [apply list_elem_of_here|by unfold due; rewrite Ha, He].
    + intros k a Hka. destruct (HC k (step_account (ID p) target change a)) as (a' & Ha' & Hmv).
      { by rewrite Hac, lookup_fmap, Hka. }
      exists a'. split; [done|]. eapply moved_cons; eauto.
  - assert (negb (IsActive p) || negb (IsExpired p now) = true) as -> by
      (destruct (IsActive p), (IsExpired p now); done).
    destruct (IH changed st HN) as (ids' & st' & Hrun & HA & HB & HC); [by eauto|done|by eauto|].
    exists ids', st'. split; [done|]. split_and!.
    + intros q [->|Hq]%elem_of_cons Hdq; [|by auto]. unfold due in Hdq. congruence.
    + intros k Hk. apply HB. intros q Hq. apply Hk; auto.
    + intros k a Hka. destruct (HC k a Hka) as (a' & Ha' & Hc & Hmv).
      exists a'. split; [done|]. split; [done|].
      assert (Hiff : ∀ k t, moves byID now (p :: todo) a k t ↔ moves byID now todo a k t).
      { intros k' t. unfold moves. split; intros (? & ? & ? & q & Hq & Hqk & Hqp);
          (split_and!; [done..|]); exists q; split_and!; try done; [|by auto].
        apply elem_of_cons in Hq as [->|]; [|done]. unfold plan in Hqp. by rewrite Hdue in Hqp. }
      destruct Hmv as [(k' & t & ? & ?)|[Hn ?]]; [left|right].
      * exists k', t. by rewrite Hiff.
      * split; [|done]. intros k' t ?%Hiff. by eapply Hn.
Qed.

Lemma compact_ids_spec l : ∀ x,
  StronglySorted Z.le (x :: l) →
  StronglySorted Z.lt (x :: compact_ids x l) ∧ ∀ y, y ∈ x :: compact_ids x l ↔ y ∈ x :: l.
Proof.
  induction l as [|z l IH]; intros x Hs; [split; [repeat constructor|done]|].
  apply StronglySorted_inv in Hs as [Hs Hx]. simpl.
  inversion Hx as [|? ? Hxz Hxl]; subst. destruct (Z.eqb_spec z x) as [->|Hne].
  - destruct (IH x Hs) as [? Hel]. split; [done|]. intros y. rewrite Hel. set_solver.
  - destruct (IH z Hs) as [Hs' Hel]. split; [|set_solver]. constructor; [done|].
    apply Forall_forall. intros y [->|Hy]%Hel%elem_of_cons; [lia|].
    rewrite Forall_forall in Hxl. specialize (Hxl _ Hy).
    apply StronglySorted_inv in Hs as [_ Hs]. rewrite Forall_forall in Hs.
    specialize (Hs _ Hy). lia.
Qed.

(** ** Properties *)

(** C20: following the fallback of a proxy that can no longer serve terminates
    and returns exactly what the chain of backups leads to; a cyclic chain leads
    nowhere and leaves the accounts unchanged. *)
Theorem resolve_refines_chain byID now start :
  byID !! ID start = Some start → usable now start = false →
  FallbackMode start = FallbackModeProxy →
  ∃ r, ResolveProxyFallbackTarget byID now start = Some r ∧
    (∀ n r', leads byID now n (BackupProxyID start) r' → r = r') ∧
    ((∀ n r', ¬ leads byID now n (BackupProxyID start) r') → r = (None, false)).
Proof.
  intros Hs Hu Hm. destruct (resolve_total byID now start) as [r Hr]. exists r. split; [done|].
  assert (Hl : resolve_loop byID now (resolve_fuel byID) {[ID start]} (BackupProxyID start) = Some r).
  { revert Hr. unfold ResolveProxyFallbackTarget. by rewrite Hm. }
  split.
  - intros n r' HL. pose proof (leads_length _ _ _ _ _ _ Hs Hu Hm eq_refl HL). congruence.
  - intros Hno. apply resolve_loop_sound in Hl as [[n Hn]|]; [|done]. by apply Hno in Hn.
Qed.

(** C25: a sweep whose transactions commit leaves no live row that is active and
    past its expiry; every account of such a proxy, unless it is deleted or
    pooled, is moved to what the chain leads to, keeping its first origin; no
    other account changes its proxy; and a proxy accounts were moved to is
    still active and unexpired afterwards. *)
Theorem sweep_moves_accounts now announced st :
  wf_store st →
  let all := ListAllForFallback st in
  let byID := snapshot_map all in
  ∃ n st', SweepExpiredProxies (λ _, true) announced now st = (Ok n, st') ∧
    (∀ k p, st_proxies st' !! k = Some (mkProxyRow p false) → due now p = false) ∧
    (∀ k a, st_accounts st !! k = Some a →
       ∃ a', st_accounts st' !! k = Some a' ∧ moved byID now all a a') ∧
    (∀ p t, p ∈ all → plan byID now p = Some (Some t) →
       ∃ q, st_proxies st' !! t = Some (mkProxyRow q false) ∧ usable now q = true).
Proof.
  intros Hwf all byID.
  pose proof (list_all_NoDup st Hwf) as HN.
  assert (Hlook : ∀ k p, byID !! k = Some p ↔ p ∈ all ∧ ID p = k)
    by (intros; by apply snapshot_map_lookup).
  assert (Hrow : ∀ q, q ∈ all → st_proxies st !! ID q = Some (mkProxyRow q false)).
  { intros q [k Hk]%elem_of_list_all. pose proof (Hwf _ _ Hk) as E. simpl in E. by rewrite E. }
  destruct (sweep_loop_effect byID now all [] st) as (ids & st' & Hrun & HA & HB & HC);
    [done|intros; by apply Hlook|intros; by apply Hlook|done|].
  unfold SweepExpiredProxies. fold all. fold byID. rewrite Hrun.
  eexists _, _. split; [done|].
  assert (Hsame : ∀ b : bool, let s := (if b then st'
    else mkStore (st_proxies st') (st_accounts st') (st_outbox st' ++ [sortedUniqueAccountIDs ids]))
    in st_proxies s = st_proxies st' ∧ st_accounts s = st_accounts st') by (by intros []).
  destruct (Hsame (bool_decide (sortedUniqueAccountIDs ids = []) || negb announced)) as [-> ->].
  split_and!; [|done|].
  - intros k p Hk. destruct (due now p) eqn:Hd; [|done].
    destruct (decide (Exists (λ q, due now q = true ∧ ID q = k) all))
      as [(q & Hq & Hdq & <-)%Exists_exists|Hno]; [|rewrite Exists_exists in Hno].
    + rewrite (HA q Hq Hdq) in Hk. injection Hk as <-. unfold due, IsActive in Hd. bool_hyp. done.
    + rewrite HB in Hk by (intros q ? ? ?; apply Hno; eauto).
      exfalso. apply Hno. exists p. split_and!; [apply elem_of_list_all; eauto|done|].
      by apply (Hwf _ _) in Hk.
  - intros p t Hp Hplan. apply plan_usable in Hplan as (k & q & Hq & Hqt & Hu).
    apply Hlook in Hq as [Hq <-]. exists q. subst t. split; [|done].
    rewrite HB; [by apply Hrow|]. intros q' Hq' Hd' Heq.
    assert (q' = q) as ->.
    { pose proof (Hrow _ Hq) as E1. pose proof (Hrow _ Hq') as E2. rewrite Heq in E2. congruence. }
    unfold due, usable in *. by destruct (IsActive q), (IsExpired q now).
Qed.

(** The transaction of one proxy acts only on a row that is still as the
    snapshot saw it (renewed, disabled, reconfigured and deleted proxies are
    left alone), and touches no account bound to another proxy. *)
Theorem sweep_one_rechecks snapshot now target change st :
  let '(ids, st') := sweepOneExpiredProxyOnExec snapshot now target change st in
  (ids, st') = ([], st) ∨
  (∃ row, st_proxies st !! ID snapshot = Some row ∧ pr_deleted row = false ∧
     Status (pr_proxy row) = StatusActive ∧
     IsExpired (pr_proxy row) now = true ∧
     ExpiresAt (pr_proxy row) = ExpiresAt snapshot ∧
     FallbackMode (pr_proxy row) = FallbackMode snapshot ∧
     BackupProxyID (pr_proxy row) = BackupProxyID snapshot ∧
     st_proxies st' = <[ID snapshot := mark_expired row]> (st_proxies st) ∧
     ∀ k a, st_accounts st !! k = Some a → ac_proxy_id a ≠ Some (ID snapshot) →
       st_accounts st' !! k = Some a).
Proof.
  unfold sweepOneExpiredProxyOnExec.
  destruct (st_proxies st !! ID snapshot) as [row|] eqn:Hrow; [|by left].
  destruct (snapshot_matches row snapshot now) eqn:Hm; [|by left].
  assert (Hacc : ∀ sel f k a, (∀ b, sel b = true → ac_proxy_id b = Some (ID snapshot)) →
    st_accounts st !! k = Some a → ac_proxy_id a ≠ Some (ID snapshot) →
    ((λ b, if sel b then f b else b) <$> st_accounts st) !! k = Some a).
  { intros sel f k a Hsel Hk Hne. rewrite lookup_fmap, Hk. simpl.
    destruct (sel a) eqn:E; [by apply Hsel in E|done]. }
  unfold snapshot_matches in Hm. bool_hyp.
  destruct (ExpiresAt (pr_proxy row)) as [e|] eqn:He; [|done].
  destruct (ExpiresAt snapshot) as [e'|] eqn:He'; [|done]. bool_hyp. subst e'.
  assert (IsExpired (pr_proxy row) now = true).
  { unfold IsExpired. rewrite He. apply negb_true_iff, after_false. done. }
  destruct change; simpl; right; exists row; split_and!; try done; intros k a Hk Hne;
    apply Hacc; try done; unfold rerouted, probe_stale; intros b Hb; bool_hyp; done.
Qed.

(** The outbox payload lists each changed account once, in increasing order. *)
Theorem sortedUniqueAccountIDs_spec ids :
  StronglySorted Z.lt (sortedUniqueAccountIDs ids) ∧
  ∀ x, x ∈ sortedUniqueAccountIDs ids ↔ x ∈ ids.
Proof.
  assert (Hgen : let l := match merge_sort Z.le ids with [] => [] | x :: l => x :: compact_ids x l end
    in StronglySorted Z.lt l ∧ ∀ x, x ∈ l ↔ x ∈ ids).
  { assert (Hp : ∀ x, x ∈ merge_sort Z.le ids ↔ x ∈ ids)
      by (intros x; by rewrite (merge_sort_Permutation Z.le ids)).
    pose proof (StronglySorted_merge_sort Z.le ids) as Hs.
    destruct (merge_sort Z.le ids) as [|x l]; simpl; [split; [constructor|done]|].
    destruct (compact_ids_spec l x Hs) as [? Hel]. split; [done|]. intros y. by rewrite Hel. }
  destruct ids as [|a [|b l]]; simpl; [by split; [repeat constructor|]..|]. exact Hgen.
Qed.

(** ** Concrete runs *)

Definition px (id : Z) (mode : string) (backup : option Z) (exp : Z) : proxy_row :=
  mkProxyRow (mkProxy id StatusActive (Some exp) mode backup) false.
Definition acc (proxy : option Z) : account_row :=
  mkAccountRow "apikey" "openai" proxy None None false false.

(** 1 -> 2 -> 3, of which 3 is live; 4 -> 5 -> 4 is a cycle. *)
Definition demo : store := mkStore
  (list_to_map [(1, px 1 "proxy" (Some 2) 10); (2, px 2 "proxy" (Some 3) 10);
                (3, px 3 "none" None 99); (4, px 4 "proxy" (Some 5) 10); (5, px 5 "proxy" (Some 4) 10)])
  (list_to_map [(70, acc (Some 1)); (71, acc (Some 2)); (72, acc (Some 4)); (73, acc (Some 3))]) [].

Lemma demo_wf : wf_store demo.
Proof.
  assert (H : map_Forall (λ k row, ID (pr_proxy row) = k) (st_proxies demo)).
  { refine (bool_decide_eq_true_1 _ _). vm_compute. reflexivity. }
  exact H.
Qed.

Lemma resolve_refines_chain_witness :
  let byID := snapshot_map (ListAllForFallback demo) in
  let p := pr_proxy (px 1 "proxy" (Some 2) 10) in
  ResolveProxyFallbackTarget byID 20 p = Some (Some 3, true) ∧
  ∃ r, ResolveProxyFallbackTarget byID 20 p = Some r ∧
    (∀ n r', leads byID 20 n (BackupProxyID p) r' → r = r') ∧
    ((∀ n r', ¬ leads byID 20 n (BackupProxyID p) r') → r = (None, false)).
Proof.
  split; [vm_compute; reflexivity|].
  apply (resolve_refines_chain _ 20); vm_compute; reflexivity.
Defined.

Lemma sweep_moves_accounts_witness :
  (let '(r, st') := SweepExpiredProxies (λ _, true) true 20 demo in
   r = Ok 2 ∧ ac_proxy_id <$> (st_accounts st' !! 70) = Some (Some 3) ∧
   ac_proxy_id <$> (st_accounts st' !! 72) = Some (Some 4) ∧ st_outbox st' = [[70; 71]]) ∧
  ∃ n st', SweepExpiredProxies (λ _, true) true 20 demo = (Ok n, st') ∧
    (∀ k p, st_proxies st' !! k = Some (mkProxyRow p false) → due 20 p = false).
Proof.
  split; [vm_compute; done|].
  destruct (sweep_moves_accounts 20 true demo demo_wf) as (n & st' & ? & ? & _). eauto.
Defined.

(** A transaction that fails after another committed: the accounts already
    moved are not announced, although they have changed proxy. *)
Lemma sweep_failure_not_announced :
  let st := mkStore (list_to_map [(1, px 1 "direct" None 10); (2, px 2 "direct" None 10)])
                    (list_to_map [(70, acc (Some 2))]) [] in
  let '(r, st') := SweepExpiredProxies (λ k, k =? 2) true 20 st in
  r = Err 1 ∧ ac_proxy_id <$> (st_accounts st' !! 70) = Some None ∧ st_outbox st' = [].
Proof. vm_compute. done. Qed.

End ProxyFallback.
