(* ===== verification/UpstreamError.v ===== *)
(** * Upstream failures and their billing classification

    Models [UpstreamFailoverError] with its predicates
    ([service/gateway_service.go]) and the classifier of
    [service/upstream_billing_error.go].  The JSON reader ([gjson])
    is an interface, as is the Unicode lower-casing. *)

From S2P Require Import Prelude GoStrings.

(** [gjson.ValidBytes] and [gjson.GetBytes], with what callers read of a result. *)
Inductive gtype := GNull | GFalse | GNumber | GString | GTrue | GJSON.
#[export] Instance gtype_eq_dec : EqDecision gtype.
Proof. solve_decision. Defined.

Record gvalue := mkG { g_type : gtype; g_string : bytes; g_int : Z; g_is_object : bool }.

Class Gjson := {
  ValidBytes : bytes → bool;
  GetBytes : bytes → string → gvalue
}.

Definition absent : gvalue := mkG GNull [] 0 false.

Module UpstreamError.
Import GoStrings.

(** ** The error value *)

Inductive NextAccountAction := NextAccountLegacyRetry | NextAccountRetry | NextAccountStop.
#[export] Instance NextAccountAction_eq_dec : EqDecision NextAccountAction.
Proof. solve_decision. Defined.

Definition GatewayFailureStageAccountAuth : string := "account_auth".
Definition GatewayFailureScopeAccount : string := "account".
Definition UpstreamBillingExhaustedReason : string := "upstream_billing_exhausted".

Definition StatusPaymentRequired : Z := 402.
Definition StatusTooManyRequests : Z := 429.
Definition StatusServiceUnavailable : Z := 503.

Record UpstreamFailoverError := mkErr {
  strictFailoverReason : string;
  ObservedUpstreamStatus : Z;
  StatusCode : Z;
  ResponseBody : bytes;
  ForceCacheBilling : bool;
  RetryableOnSameAccount : bool;
  SameAccountRetryDelay : duration;
  SameAccountRetryDeadline : time;
  SameAccountRetryMax : Z;
  RequestScopedTransient : bool;
  ConfiguredRetryUnsafe : bool;
  ConfiguredRetry : bool;
  Stage : string;
  Scope : string;
  Reason : string;
  Action : NextAccountAction
}.

(** The composite literal that sets only the status and the body. *)
Definition plainError (status : Z) (body : bytes) : UpstreamFailoverError :=
  mkErr "" 0 status body false false 0 zero_time 0 false false false "" "" "" NextAccountLegacyRetry.

Definition ShouldRetryNextAccount (e : option UpstreamFailoverError) : bool :=
  match e with Some e => bool_decide (Action e ≠ NextAccountStop) | None => false end.

Definition IsCredentialFailure (e : option UpstreamFailoverError) : bool :=
  match e with Some e => bool_decide (Stage e = GatewayFailureStageAccountAuth) | None => false end.

Definition ShouldReportAccountScheduleFailure (e : option UpstreamFailoverError) : bool :=
  match e with
  | Some f => negb (IsCredentialFailure e) || bool_decide (Scope f = GatewayFailureScopeAccount)
  | None => false
  end.

(** ** Billing classification *)

Definition upstreamBillingErrorCodePaths : list string :=
  ["error.code"; "response.error.code"; "detail.code"; "code"].
Definition upstreamBillingErrorMessagePaths : list string :=
  ["error.message"; "response.error.message"; "detail.message"; "message"].
Definition upstreamBillingErrorTypePaths : list string :=
  ["error.type"; "response.error.type"; "detail.type"; "type"].
Definition upstreamBillingErrorStatusPaths : list string :=
  ["error.status"; "response.error.status"; "detail.status"; "status"].

Record Classification := mkCls { Matched : bool; Code : bytes; Message : bytes }.

Definition unmatched : Classification := mkCls false [] [].

Definition replace_byte (x y : ascii) (s : bytes) : bytes :=
  (λ c, if decide (c = x) then y else c) <$> s.

Definition HasSuffix (s p : bytes) : bool := bool_decide (p `suffix_of` s).

Definition is_lit (s : bytes) (l : list string) : bool := existsb (λ x, bool_decide (s = lit x)) l.

Definition billingCodes : list string :=
  ["insufficient_quota"; "insufficient_balance"; "balance_insufficient"; "insufficient_credits";
   "credit_exhausted"; "credits_exhausted"; "credit_depleted"; "credits_depleted";
   "out_of_credits"; "no_credits"; "billing_hard_limit_reached"; "billing_limit_reached";
   "spending_limit_reached"; "payment_required"; "billing_required"; "billing_not_active";
   "payment_failed"; "billing_failed"].

Definition billingCodeSuffixes : list string :=
  ["_insufficient_quota"; "_insufficient_balance"; "_insufficient_credits"; "_credit_exhausted";
   "_credits_exhausted"; "_payment_required"; "_billing_hard_limit_reached";
   "_spending_limit_reached"].

Definition billingPhrases : list string :=
  ["insufficient_balance"; "insufficient balance"; "balance is insufficient";
   "balance was insufficient"; "not enough balance"; "no remaining balance"; "balance is too low";
   "insufficient funds"; "余额不足"; "余额不够"; "余额已用尽"; "欠费"; "payment required";
   "payment is required"; "billing required"; "billing hard limit"; "billing limit reached";
   "check your plan and billing details"; "spending limit reached"; "spending limit exceeded";
   "credit balance is insufficient"; "insufficient credits"; "not enough credits";
   "requires more credits"; "credit exhausted"; "credits exhausted"; "credit balance is too low";
   "credit balance too low"; "out of credits"; "no credits remaining"; "payment failed";
   "billing failed"].

Definition nonBillingCodes : list string :=
  ["cyber_policy"; "content_policy"; "content_policy_violation"; "safety_violation";
   "invalid_request"; "invalid_request_error"; "bad_request"; "validation_error"].

Section Classify.
Context `{Unicode} `{Gjson}.

Definition normalizeUpstreamBillingToken (value : bytes) : bytes :=
  replace_byte " "%char "_"%char (replace_byte "-"%char "_"%char (ToLower (TrimSpace value))).

Definition isUpstreamBillingErrorCode (value : bytes) : bool :=
  let normalized := normalizeUpstreamBillingToken value in
  if bool_decide (normalized = []) then false
  else is_lit normalized billingCodes
       || existsb (λ suffix, HasSuffix normalized (lit suffix)) billingCodeSuffixes.

Definition isUpstreamBillingErrorMessage (value : bytes) : bool :=
  let message := ToLower (TrimSpace value) in
  if bool_decide (message = []) then false
  else existsb (λ phrase, Contains message (lit phrase)) billingPhrases.

Definition isNonBillingUpstreamErrorCode (value : bytes) : bool :=
  is_lit (normalizeUpstreamBillingToken value) nonBillingCodes.

Definition hasNonBillingUpstreamErrorCode (body : bytes) : bool :=
  existsb (λ path, isNonBillingUpstreamErrorCode (g_string (GetBytes body path)))
          upstreamBillingErrorCodePaths
  || existsb (λ path,
       let value := normalizeUpstreamBillingToken (g_string (GetBytes body path)) in
       bool_decide (value ≠ lit "invalid_request_error") && isNonBillingUpstreamErrorCode value)
     upstreamBillingErrorTypePaths.

(** The first string field among [paths] whose trimmed text is not empty. *)
Fixpoint first_text (body : bytes) (paths : list string) : option bytes :=
  match paths with
  | [] => None
  | path :: paths =>
      let value := GetBytes body path in
      if bool_decide (g_type value = GString) && bool_decide (TrimSpace (g_string value) ≠ [])
      then Some (TrimSpace (g_string value)) else first_text body paths
  end.

Definition firstStructuredUpstreamBillingCode (body : bytes) : bytes :=
  match first_text body upstreamBillingErrorCodePaths with
  | Some code => code
  | None => default [] (first_text body upstreamBillingErrorTypePaths)
  end.

Definition firstStructuredUpstreamBillingMessage (body : bytes) : bytes :=
  default [] (first_text body upstreamBillingErrorMessagePaths).

(** The first string field among [paths] that [accept]s; its text as [view] reads it. *)
Fixpoint find_field (body : bytes) (view : bytes → bytes) (accept : bytes → bool)
    (paths : list string) : option bytes :=
  match paths with
  | [] => None
  | path :: paths =>
      let value := GetBytes body path in
      if bool_decide (g_type value = GString) && accept (view (g_string value))
      then Some (view (g_string value)) else find_field body view accept paths
  end.

Definition ClassifyUpstreamBillingError (statusCode : Z) (body : bytes) : Classification :=
  if statusCode =? StatusPaymentRequired then mkCls true (lit "payment_required") []
  else if bool_decide (body = []) || negb (ValidBytes body) then
    if (400 <=? statusCode) && (0 <? Z.of_nat (length body)) && (Z.of_nat (length body) <=? 4096)
       && isUpstreamBillingErrorMessage body
    then mkCls true [] (TrimSpace body)
    else unmatched
  else if (statusCode <? 400) && negb (g_is_object (GetBytes body "error"))
          && negb (g_is_object (GetBytes body "response.error")) then unmatched
  else
    let found code := mkCls true code (firstStructuredUpstreamBillingMessage body) in
    match find_field body TrimSpace isUpstreamBillingErrorCode upstreamBillingErrorCodePaths with
    | Some code => found code
    | None =>
    match find_field body TrimSpace isUpstreamBillingErrorCode upstreamBillingErrorTypePaths with
    | Some code => found code
    | None =>
    match find_field body (λ s, s) isUpstreamBillingErrorCode upstreamBillingErrorStatusPaths with
    | Some code => found code
    | None =>
      if hasNonBillingUpstreamErrorCode body then unmatched
      else match find_field body TrimSpace isUpstreamBillingErrorMessage
                   upstreamBillingErrorMessagePaths with
           | Some message => mkCls true (firstStructuredUpstreamBillingCode body) message
           | None => unmatched
           end
    end end end.

Definition IsUpstreamBillingError (statusCode : Z) (body : bytes) : bool :=
  Matched (ClassifyUpstreamBillingError statusCode body).

Definition IsUpstreamBillingExhausted (e : option UpstreamFailoverError) : bool :=
  match e with
  | Some e => bool_decide (Reason e = UpstreamBillingExhaustedReason)
              || IsUpstreamBillingError (StatusCode e) (ResponseBody e)
  | None => false
  end.

Fixpoint numeric_status (body : bytes) (paths : list string) : option Z :=
  match paths with
  | [] => None
  | path :: paths =>
      let value := GetBytes body path in
      if bool_decide (g_type value = GNumber) && (400 <=? g_int value) && (g_int value <=? 599)
      then Some (g_int value) else numeric_status body paths
  end.

Fixpoint named_status (body : bytes) (paths : list string) : option Z :=
  match paths with
  | [] => None
  | path :: paths =>
      let status := normalizeUpstreamBillingToken (g_string (GetBytes body path)) in
      if is_lit status ["resource_exhausted"; "quota_exceeded"; "quota_exhausted"; "quota_depleted"]
      then Some StatusTooManyRequests
      else if is_lit status ["payment_required"; "billing_required"]
      then Some StatusPaymentRequired
      else named_status body paths
  end.

Definition upstreamBillingStatusCode (statusCode : Z) (body : bytes) : Z :=
  if negb (IsUpstreamBillingError statusCode body) then 0
  else if (400 <=? statusCode) && (statusCode <=? 599) then statusCode
  else match numeric_status body upstreamBillingErrorCodePaths with
       | Some code => code
       | None => default StatusPaymentRequired (named_status body upstreamBillingErrorStatusPaths)
       end.

Definition newUpstreamBillingFailoverError (statusCode : Z) (body : bytes)
    (retryableOnSameAccount : bool) : UpstreamFailoverError :=
  mkErr "" 0 statusCode body false retryableOnSameAccount 0 zero_time 0 false false false
    "" GatewayFailureScopeAccount UpstreamBillingExhaustedReason NextAccountRetry.

(** ** Lemmas *)

Definition inspected : list string :=
  ["error"; "response.error"] ++ upstreamBillingErrorCodePaths ++ upstreamBillingErrorTypePaths
  ++ upstreamBillingErrorStatusPaths ++ upstreamBillingErrorMessagePaths.

Definition same_fields (b1 b2 : bytes) (paths : list string) : Prop :=
  ∀ p, p ∈ paths → GetBytes b1 p = GetBytes b2 p.

Lemma same_fields_sub b1 b2 l l' : l' ⊆ l → same_fields b1 b2 l → same_fields b1 b2 l'.
Proof. intros Hs Hf p Hp. by apply Hf, Hs. Qed.

Lemma find_field_same b1 b2 view accept paths :
  same_fields b1 b2 paths → find_field b1 view accept paths = find_field b2 view accept paths.
Proof.
  induction paths as [|p paths IH]; intros Hs; simpl; [done|].
  rewrite (Hs p) by apply list_elem_of_here. rewrite IH; [done|].
  intros q Hq. by apply Hs, list_elem_of_further.
Qed.

Lemma first_text_same b1 b2 paths :
  same_fields b1 b2 paths → first_text b1 paths = first_text b2 paths.
Proof.
  induction paths as [|p paths IH]; intros Hs; simpl; [done|].
  rewrite (Hs p) by apply list_elem_of_here. rewrite IH; [done|].
  intros q Hq. by apply Hs, list_elem_of_further.
Qed.

Lemma existsb_same {A} (f g : A → bool) l :
  (∀ x, x ∈ l → f x = g x) → existsb f l = existsb g l.
Proof.
  induction l as [|x l IH]; intros Hs; simpl; [done|].
  rewrite (Hs x) by apply list_elem_of_here. rewrite IH; [done|].
  intros y Hy. by apply Hs, list_elem_of_further.
Qed.

Lemma hasNonBilling_same b1 b2 :
  same_fields b1 b2 (upstreamBillingErrorCodePaths ++ upstreamBillingErrorTypePaths) →
  hasNonBillingUpstreamErrorCode b1 = hasNonBillingUpstreamErrorCode b2.
Proof.
  intros Hs. unfold hasNonBillingUpstreamErrorCode.
  f_equal; apply existsb_same; intros p Hp; rewrite (Hs p); (done || rewrite elem_of_app; tauto).
Qed.

Lemma inspected_sub :
  upstreamBillingErrorCodePaths ⊆ inspected ∧ upstreamBillingErrorTypePaths ⊆ inspected ∧
  upstreamBillingErrorStatusPaths ⊆ inspected ∧ upstreamBillingErrorMessagePaths ⊆ inspected ∧
  upstreamBillingErrorCodePaths ++ upstreamBillingErrorTypePaths ⊆ inspected ∧
  "error" ∈ inspected ∧ "response.error" ∈ inspected.
Proof.
  unfold inspected. split_and!; try intros p; rewrite ?elem_of_app; try tauto;
    left; rewrite ?elem_of_cons; tauto.
Qed.

Lemma find_field_some body view accept paths s :
  find_field body view accept paths = Some s → accept s = true.
Proof.
  induction paths as [|p paths IH]; simpl; [done|].
  destruct (bool_decide _ && accept (view _)) eqn:E; [|done].
  intros [= <-]. by bool_hyp.
Qed.

(** ** Properties *)

(** on a JSON body the classifier depends on nothing but the explicit
    error fields: two valid bodies that agree on them (and differ in prompts,
    metadata or output) are classified alike. *)
Theorem classify_reads_only_error_fields status b1 b2 :
  ValidBytes b1 = true → ValidBytes b2 = true → b1 ≠ [] → b2 ≠ [] →
  same_fields b1 b2 inspected →
  ClassifyUpstreamBillingError status b1 = ClassifyUpstreamBillingError status b2.
Proof.
  intros Hv1 Hv2 Hn1 Hn2 Hs. unfold ClassifyUpstreamBillingError.
  rewrite Hv1, Hv2, !bool_decide_false by done. cbn [negb orb].
  assert (Hsub : ∀ l, l ⊆ inspected → same_fields b1 b2 l) by eauto using same_fields_sub.
  destruct inspected_sub as (Hc & Ht & Hst & Hm & Hct & He1 & He2).
  rewrite (Hs "error"), (Hs "response.error") by done.
  rewrite !(find_field_same b1 b2) by auto.
  unfold firstStructuredUpstreamBillingMessage, firstStructuredUpstreamBillingCode.
  rewrite !(first_text_same b1 b2) by auto.
  rewrite (hasNonBilling_same b1 b2) by auto. done.
Qed.

(** A JSON error that carries a request or safety code is never taken for an
    account billing failure on the strength of its message, so only an explicit
    billing code, type or status, or HTTP 402, can match it. *)
Theorem request_error_needs_billing_code status body :
  ValidBytes body = true → body ≠ [] → status ≠ StatusPaymentRequired →
  hasNonBillingUpstreamErrorCode body = true →
  IsUpstreamBillingError status body = true →
  ∃ p, p ∈ upstreamBillingErrorCodePaths ++ upstreamBillingErrorTypePaths
           ++ upstreamBillingErrorStatusPaths ∧
       g_type (GetBytes body p) = GString ∧
       (isUpstreamBillingErrorCode (g_string (GetBytes body p)) = true ∨
        isUpstreamBillingErrorCode (TrimSpace (g_string (GetBytes body p))) = true).
Proof.
  intros Hv Hne Hst Hnb. unfold IsUpstreamBillingError, ClassifyUpstreamBillingError.
  rewrite (proj2 (Z.eqb_neq _ _) Hst), Hv, Hnb, bool_decide_false by done. cbn [negb orb].
  destruct (_ && _ && _); [done|].
  assert (Hff : ∀ view paths s, find_field body view isUpstreamBillingErrorCode paths = Some s →
    ∃ p, p ∈ paths ∧ g_type (GetBytes body p) = GString ∧
         isUpstreamBillingErrorCode (view (g_string (GetBytes body p))) = true).
  { intros view paths s. induction paths as [|p paths IH]; simpl; [done|].
    destruct (bool_decide _ && _) eqn:E; bool_hyp; [intros _; exists p; set_solver|].
    intros (q & ? & ?)%IH. exists q. set_solver. }
  destruct (find_field body TrimSpace isUpstreamBillingErrorCode upstreamBillingErrorCodePaths) eqn:E1.
  { intros _. apply Hff in E1 as (p & ? & ? & ?). exists p. rewrite !elem_of_app. auto. }
  destruct (find_field body TrimSpace isUpstreamBillingErrorCode upstreamBillingErrorTypePaths) eqn:E2.
  { intros _. apply Hff in E2 as (p & ? & ? & ?). exists p. rewrite !elem_of_app. auto. }
  destruct (find_field body (λ s, s) isUpstreamBillingErrorCode upstreamBillingErrorStatusPaths) eqn:E3.
  { intros _. apply Hff in E3 as (p & ? & ? & ?). exists p. rewrite !elem_of_app. auto. }
  done.
Qed.

End Classify.

(** ** Concrete runs *)

Definition ascii_lower (s : bytes) : bytes :=
  (λ c, let n := nat_of_ascii c in
        if (65 <=? n)%nat && (n <=? 90)%nat then ascii_of_nat (n + 32) else c) <$> s.

(** A reader for the test bodies: every body is an error with this code and message. *)
Definition demo_gjson (code msg : string) : Gjson := {|
  ValidBytes := λ _, true;
  GetBytes := λ _ p, if bool_decide (p = "error.code") then mkG GString (lit code) 0 false
                     else if bool_decide (p = "error.message") then mkG GString (lit msg) 0 false
                     else if bool_decide (p = "error") then mkG GJSON [] 0 true
                     else absent |}.

Lemma classify_reads_only_error_fields_witness :
  let G := demo_gjson "Insufficient-Quota " "no" in
  (@IsUpstreamBillingError ascii_lower G 429 (lit "a") = true) ∧
  @ClassifyUpstreamBillingError ascii_lower G 429 (lit "a")
  = @ClassifyUpstreamBillingError ascii_lower G 429 (lit "b").
Proof.
  split; [vm_compute; reflexivity|].
  apply (@classify_reads_only_error_fields ascii_lower (demo_gjson "Insufficient-Quota " "no"));
    done.
Defined.

Lemma request_error_needs_billing_code_witness :
  let G := demo_gjson "content_policy" "insufficient balance" in
  @IsUpstreamBillingError ascii_lower G 400 (lit "a") = false ∧
  let G' := {| ValidBytes := λ _, true;
               GetBytes := λ _ p, if bool_decide (p = "code") then mkG GString (lit "bad_request") 0 false
                                  else if bool_decide (p = "status") then mkG GString (lit "payment_required") 0 false
                                  else absent |} in
  ∃ p, p ∈ upstreamBillingErrorCodePaths ++ upstreamBillingErrorTypePaths
           ++ upstreamBillingErrorStatusPaths ∧
       g_type (@GetBytes G' (lit "a") p) = GString ∧
       (@isUpstreamBillingErrorCode ascii_lower (g_string (@GetBytes G' (lit "a") p)) = true ∨
        @isUpstreamBillingErrorCode ascii_lower (TrimSpace (g_string (@GetBytes G' (lit "a") p))) = true).
Proof.
  split; [vm_compute; reflexivity|]. cbv zeta.
  apply (@request_error_needs_billing_code ascii_lower _ 400 (lit "a")); try done;
    vm_compute; reflexivity.
Defined.

End UpstreamError.
