(* ===== verification/Interfaces.v ===== *)
(** * What the components promise each other

    [RequestRetry] is what the failover loop needs of the administrator's retry
    policy: asking for a retry either claims one, which uses up a finite budget
    of the request, or leaves the request to the built-in failover rules.
    [Unicode] and [Gjson], the interfaces to lower-casing and to the JSON
    reader, are declared with the error value in [UpstreamError.v]. *)

From S2P Require Import Prelude UpstreamError.

(** [M] is what the surroundings decide at one call, [S] the request's budget. *)
Class RequestRetry (M S : Type) := {
  try_retry : M → option UpstreamError.UpstreamFailoverError → S → bool * bool * S;
  retry_ok : M → Prop;
  budget_ok : S → Prop;
  retries_left : S → Z;
  retries_left_bound : ∀ s, budget_ok s → 0 ≤ retries_left s ≤ 10;
  try_retry_claimed : ∀ m f s err s',
    retry_ok m → budget_ok s → try_retry m f s = (true, err, s') →
    budget_ok s' ∧ retries_left s' < retries_left s;
  try_retry_unclaimed : ∀ m f s err s',
    retry_ok m → budget_ok s → try_retry m f s = (false, err, s') →
    budget_ok s' ∧ retries_left s' ≤ retries_left s
}.
