(* ===== verification/UpstreamRetry.v ===== *)
(** * The administrator's upstream retry policy and its per-request budget

    Models [service/upstream_error_retry.go]: validation and normalisation of
    the stored settings, the compiled policy and its matching, the cached
    policy of the settings service, and the budget all retries of one client
    request share. *)

From S2P Require Import Prelude GoStrings UpstreamError Interfaces.

Module UpstreamRetry.
Import GoStrings UpstreamError.

Record UpstreamErrorRetrySettings := mkSettings {
  Enabled : bool;
  MaxRetries : Z;
  DelayMS : Z;
  Errors : bytes
}.

Definition defaultUpstreamErrorRetrySettings : UpstreamErrorRetrySettings :=
  mkSettings false 3 1000 [].

(** The reasons [normalizeUpstreamErrorRetrySettings] rejects a policy with. *)
Inductive invalid :=
  | BadMaxRetries | BadDelay | ErrorsTooLong | BadLine | BadStatus | TooManyRules | NoRules.

Record upstreamErrorRetryPolicy := mkPolicy {
  settings : UpstreamErrorRetrySettings;
  statuses : gset Z;
  keywords : list bytes
}.

Definition retryable_status (status : Z) : bool :=
  (400 <=? status) && (status <=? 599) && negb (status =? StatusTooManyRequests).

Definition usagePaths : list string :=
  ["usage.input_tokens"; "usage.output_tokens"; "usage.prompt_tokens"; "usage.completion_tokens";
   "usage.total_tokens"; "response.usage.input_tokens"; "response.usage.output_tokens";
   "response.output.#"; "usageMetadata.totalTokenCount"].

Definition errorFieldPaths : list string :=
  ["error.code"; "error.type"; "error.message"; "response.error.code"; "response.error.type";
   "response.error.message"; "detail.code"; "detail.message"; "code"; "type"; "message"]
  ++ ["error"; "detail"].

Section Retry.
Context `{Unicode} `{Gjson}.

(** ** Settings *)

(** The body of the loop over the lines, with the lower-cased lines [seen]. *)
Fixpoint normalize_lines (lines : list bytes) (seen : gset bytes) : result invalid (list bytes) :=
  match lines with
  | [] => Ok []
  | line :: lines =>
      let line := TrimSpace line in
      if bool_decide (line = []) || bool_decide (ToLower line ∈ seen)
      then normalize_lines lines seen
      else if (512 <? Z.of_nat (length line)) || bool_decide (CR ∈ line) || bool_decide (NUL ∈ line)
      then Err BadLine
      else if match Atoi line with Some code => negb (retryable_status code) | None => false end
      then Err BadStatus
      else let* rest := normalize_lines lines ({[ToLower line]} ∪ seen) in Ok (line :: rest)
  end.

Definition normalizeUpstreamErrorRetrySettings (v : UpstreamErrorRetrySettings)
    : result invalid UpstreamErrorRetrySettings :=
  if (MaxRetries v <? 1) || (10 <? MaxRetries v) then Err BadMaxRetries
  else if (DelayMS v <? 100) || (10000 <? DelayMS v) then Err BadDelay
  else if 32 * 1024 <? Z.of_nat (length (Errors v)) then Err ErrorsTooLong
  else let* lines := normalize_lines (Split LF (crlf_to_lf (Errors v))) ∅ in
    if 100 <? Z.of_nat (length lines) then Err TooManyRules
    else if Enabled v && bool_decide (lines = []) then Err NoRules
    else Ok (mkSettings (Enabled v) (MaxRetries v) (DelayMS v) (Join LF lines)).

(** [unmarshal raw v] is [json.Unmarshal] into [v], [None] on an error. *)
Definition parseUpstreamErrorRetrySettings
    (unmarshal : bytes → UpstreamErrorRetrySettings → option UpstreamErrorRetrySettings)
    (raw : bytes) : UpstreamErrorRetrySettings :=
  let v := defaultUpstreamErrorRetrySettings in
  if bool_decide (TrimSpace raw = []) then v
  else match unmarshal raw v with
       | None => defaultUpstreamErrorRetrySettings
       | Some v => match normalizeUpstreamErrorRetrySettings v with
                   | Ok normalized => normalized
                   | Err _ => defaultUpstreamErrorRetrySettings
                   end
       end.

(** The text stored, with the settings as the caller sees them afterwards. *)
Definition marshalUpstreamErrorRetrySettings {A}
    (marshal : UpstreamErrorRetrySettings → option A) (v : UpstreamErrorRetrySettings)
    : option A * UpstreamErrorRetrySettings :=
  match normalizeUpstreamErrorRetrySettings v with
  | Err _ => (None, v)
  | Ok normalized => (marshal normalized, normalized)
  end.

Definition compileUpstreamErrorRetryPolicy (v : UpstreamErrorRetrySettings)
    : upstreamErrorRetryPolicy :=
  let lines := (λ line, ToLower (TrimSpace line)) <$> Split LF (Errors v) in
  mkPolicy v (list_to_set (omap Atoi lines))
    (filter (λ line, Atoi line = None ∧ line ≠ []) lines).

(** ** Matching *)

Definition upstreamErrorRetryHasUsage (body : bytes) : bool :=
  existsb (λ path, 0 <? g_int (GetBytes body path)) usagePaths.

Definition error_texts (body : bytes) : list bytes :=
  if ValidBytes body then
    omap (λ path, let v := GetBytes body path in
                  if bool_decide (g_type v = GString) then Some (ToLower (g_string v)) else None)
         errorFieldPaths
  else [ToLower body].

Definition matches (p : option upstreamErrorRetryPolicy) (status : Z) (body : bytes) : bool :=
  match p with
  | None => false
  | Some p =>
      if negb (Enabled (settings p)) || negb (retryable_status status) then false
      else if upstreamErrorRetryHasUsage body then false
      else if bool_decide (status ∈ statuses p) then true
      else if bool_decide (keywords p = []) then false
      else existsb (λ text, existsb (λ keyword, Contains text keyword) (keywords p))
                   (error_texts body)
  end.

Arguments matches : simpl never.

(** ** The cached policy of the settings service *)

Definition policy_cache : Type := option (upstreamErrorRetryPolicy * time).

(** What the repository answers: a value, not found, or a failure. *)
Inductive setting_read := Value (raw : bytes) | NotFound | ReadFailed.

Definition upstreamErrorRetryPolicy_of
    (unmarshal : bytes → UpstreamErrorRetrySettings → option UpstreamErrorRetrySettings)
    (read : setting_read) (now : time) (cache : policy_cache)
    : upstreamErrorRetryPolicy * policy_cache :=
  match cache with
  | Some (policy, expiresAt) =>
      if before now expiresAt then (policy, cache)
      else let '(raw, ttl) := match read with
             | Value raw => (raw, 60 * second) | NotFound => ([], 60 * second)
             | ReadFailed => ([], 5 * second) end in
           let p := compileUpstreamErrorRetryPolicy (parseUpstreamErrorRetrySettings unmarshal raw) in
           (p, Some (p, now + ttl))
  | None =>
      let '(raw, ttl) := match read with
        | Value raw => (raw, 60 * second) | NotFound => ([], 60 * second)
        | ReadFailed => ([], 5 * second) end in
      let p := compileUpstreamErrorRetryPolicy (parseUpstreamErrorRetrySettings unmarshal raw) in
      (p, Some (p, now + ttl))
  end.

Definition publishUpstreamErrorRetrySettings (v : option UpstreamErrorRetrySettings) (now : time)
    (cache : policy_cache) : policy_cache :=
  match v with
  | None => cache
  | Some v => Some (compileUpstreamErrorRetryPolicy v, now + 60 * second)
  end.

(** ** The budget of one request *)

(** [policy] is filled once, by the first [getPolicy]. *)
Record upstreamErrorRetryState := mkState {
  policy : option upstreamErrorRetryPolicy;
  used : Z
}.

Definition newState : upstreamErrorRetryState := mkState None 0.

(** [current] is what the settings service would answer now. *)
Definition getPolicy (current : upstreamErrorRetryPolicy) (s : upstreamErrorRetryState)
    : upstreamErrorRetryPolicy * upstreamErrorRetryState :=
  match policy s with
  | Some p => (p, s)
  | None => (current, mkState (Some current) (used s))
  end.

(** [None] for no claim, else the delay. *)
Definition claim (client_gone : bool) (current : upstreamErrorRetryPolicy) (status : Z)
    (body : bytes) (s : upstreamErrorRetryState) : option duration * upstreamErrorRetryState :=
  if client_gone then (None, s)
  else let '(p, s) := getPolicy current s in
       if negb (matches (Some p) status body) then (None, s)
       else if MaxRetries (settings p) <=? used s then (None, s)
       else (Some (DelayMS (settings p) * millisecond), mkState (policy s) (used s + 1)).

(** What ends the wait, and the two contexts once it has. *)
Inductive wake := CtxDone | ClientDone | TimerFired.

(** Whether [wait] returns an error. *)
Definition wait (ctx_gone client_gone : bool) (w : wake) (ctx_gone' client_gone' : bool) : bool :=
  if ctx_gone then true
  else if client_gone then true
  else match w with
       | CtxDone | ClientDone => true
       | TimerFired => if ctx_gone' then true else client_gone'
       end.

(** What the surroundings of one call decide: the contexts and the wait. *)
Record moment := mkMoment {
  m_ctx_gone : bool;
  m_client_gone : bool;
  m_current : upstreamErrorRetryPolicy;
  m_wake : wake;
  m_ctx_gone' : bool;
  m_client_gone' : bool
}.

(** [(claimed, err != nil)], and the state; a request without a budget in its
    context has [None]. *)
Definition TryConfiguredUpstreamErrorRetry (m : moment) (failure : option UpstreamFailoverError)
    (s : option upstreamErrorRetryState) : bool * bool * option upstreamErrorRetryState :=
  match failure with
  | None => (false, false, s)
  | Some f =>
      if negb (ShouldRetryNextAccount failure) || IsCredentialFailure failure
         || IsUpstreamBillingExhausted failure || ConfiguredRetryUnsafe f
         || (StatusCode f =? StatusTooManyRequests) || m_ctx_gone m
      then (false, false, s)
      else match s with
           | None => (false, false, None)
           | Some st =>
               match claim (m_client_gone m) (m_current m) (StatusCode f) (ResponseBody f) st with
               | (Some _, st) =>
                   (true, wait (m_ctx_gone m) (m_client_gone m) (m_wake m)
                            (m_ctx_gone' m) (m_client_gone' m), Some st)
               | (None, st) => (false, false, Some st)
               end
           end
  end.

(** ** Lemmas *)

Definition rule_ok (line : bytes) : Prop :=
  trimmed line ∧ line ≠ [] ∧ Z.of_nat (length line) ≤ 512 ∧ CR ∉ line ∧ LF ∉ line ∧ NUL ∉ line ∧
  (∀ code, Atoi line = Some code → retryable_status code = true).

Lemma normalize_lines_spec lines : ∀ seen out,
  Forall (λ l, LF ∉ l) lines →
  normalize_lines lines seen = Ok out →
  Forall rule_ok out ∧ NoDup (ToLower <$> out) ∧ (∀ l, l ∈ out → ToLower l ∉ seen) ∧
  (sizes out ≤ sizes lines)%nat.
Proof.
  induction lines as [|l lines IH]; intros seen out HL; simpl.
  { intros [= <-]. split_and!; [constructor|constructor|by intros ? ?%not_elem_of_nil|done]. }
  apply Forall_cons in HL as [Hl HL].
  destruct (bool_decide (TrimSpace l = []) || bool_decide (ToLower (TrimSpace l) ∈ seen)) eqn:E1.
  { intros (? & ? & ? & ?)%IH; [|done]. split_and!; try done. lia. }
  bool_hyp.
  destruct (_ || bool_decide (CR ∈ _) || _) eqn:E2; [done|]. bool_hyp.
  destruct (match Atoi _ with Some _ => _ | None => _ end) eqn:E3; [done|].
  intros (rest & Hrest & [= <-])%rbind_ok.
  apply IH in Hrest as (Hok & HN & Hseen & Hsz); [|done].
  pose proof (TrimSpace_trimmed l). pose proof (TrimSpace_length l).
  split_and!.
  - constructor; [|done]. split_and!; try done.
    + intros ?%TrimSpace_elem. done.
    + intros code Hc. rewrite Hc in E3. by bool_hyp.
  - rewrite fmap_cons. constructor; [|done].
    intros (k & Hk & Hin)%list_elem_of_fmap. apply Hseen in Hin. apply Hin. rewrite <- Hk. set_solver +.
  - intros k [->|Hk]%elem_of_cons; [done|]. apply Hseen in Hk. clear -Hk. set_solver.
  - simpl. lia.
Qed.

Lemma normalize_lines_fix out : ∀ seen,
  Forall rule_ok out → NoDup (ToLower <$> out) → (∀ l, l ∈ out → ToLower l ∉ seen) →
  normalize_lines out seen = Ok out.
Proof.
  induction out as [|l out IH]; intros seen Hok HN Hseen; [done|]. simpl.
  apply Forall_cons in Hok as [(Ht & Hne & Hlen & Hcr & Hlf & Hnul & Hcode) Hok].
  rewrite fmap_cons in HN. apply NoDup_cons in HN as [Hl HN].
  rewrite TrimSpace_id by done.
  rewrite !bool_decide_false by (try done; apply Hseen, list_elem_of_here).
  rewrite (proj2 (Z.ltb_ge _ _)) by done. cbn [orb].
  destruct (Atoi l) as [code|] eqn:Hc.
  - rewrite (Hcode code) by done. simpl. rewrite IH; try done.
    intros k Hk. apply not_elem_of_union. split.
    + intros Heq%elem_of_singleton. apply Hl. rewrite <- Heq. by apply list_elem_of_fmap_2.
    + by apply Hseen, list_elem_of_further.
  - rewrite IH; try done.
    intros k Hk. apply not_elem_of_union. split.
    + intros Heq%elem_of_singleton. apply Hl. rewrite <- Heq. by apply list_elem_of_fmap_2.
    + by apply Hseen, list_elem_of_further.
Qed.

(** What a validated policy guarantees. *)
Definition valid_settings (v : UpstreamErrorRetrySettings) : Prop :=
  1 ≤ MaxRetries v ≤ 10 ∧ 100 ≤ DelayMS v ≤ 10000 ∧
  ∃ rules, Errors v = Join LF rules ∧ Forall rule_ok rules ∧ NoDup (ToLower <$> rules) ∧
    (length rules ≤ 100)%nat ∧ (Enabled v = true → rules ≠ []).

Lemma normalize_valid v v' :
  normalizeUpstreamErrorRetrySettings v = Ok v' →
  valid_settings v' ∧ (length (Errors v') ≤ length (Errors v))%nat ∧
  Z.of_nat (length (Errors v)) ≤ 32 * 1024.
Proof.
  unfold normalizeUpstreamErrorRetrySettings.
  destruct ((MaxRetries v <? 1) || _) eqn:E1; [done|].
  destruct ((DelayMS v <? 100) || _) eqn:E2; [done|].
  destruct (32 * 1024 <? _) eqn:E3; [done|].
  intros (rules & Hrules & Hn)%rbind_ok. revert Hn.
  destruct (100 <? _) eqn:E4; [done|]. destruct (Enabled v && _) eqn:E5; [done|].
  intros [= <-]. bool_hyp. simpl.
  apply normalize_lines_spec in Hrules as (? & ? & ? & Hsz); [|apply Split_no_sep].
  rewrite Split_sizes in Hsz. pose proof (crlf_to_lf_length (Errors v)).
  assert (length (Join LF rules) ≤ length (Errors v))%nat.
  { destruct (decide (rules = [])) as [->|Hne]; [simpl; lia|].
    pose proof (Join_sizes LF rules Hne). lia. }
  unfold valid_settings. split_and!; simpl; try lia. exists rules. split_and!; try done; [lia|].
  intros He ->. by rewrite He in E5.
Qed.

Lemma valid_normalize v :
  valid_settings v → Z.of_nat (length (Errors v)) ≤ 32 * 1024 →
  normalizeUpstreamErrorRetrySettings v = Ok v.
Proof.
  intros (HM & HD & rules & HE & Hok & HN & Hlen & Hen) Hsz.
  unfold normalizeUpstreamErrorRetrySettings.
  rewrite (proj2 (Z.ltb_ge (MaxRetries v) _)), (proj2 (Z.ltb_ge _ (MaxRetries v))),
    (proj2 (Z.ltb_ge (DelayMS v) _)), (proj2 (Z.ltb_ge _ (DelayMS v))),
    (proj2 (Z.ltb_ge _ (Z.of_nat (length (Errors v))))) by lia. simpl.
  assert (Hcr : CR ∉ Errors v).
  { rewrite HE. intros [Heq|(l & Hl & Hin)]%Join_elem; [done|].
    rewrite Forall_forall in Hok. by apply Hok in Hl as (_ & _ & _ & ? & _). }
  rewrite crlf_to_lf_id by done.
  assert (Hrun : normalize_lines (Split LF (Errors v)) ∅ = Ok rules).
  { rewrite HE. destruct (decide (rules = [])) as [->|Hne]; [done|].
    rewrite Split_Join; [apply normalize_lines_fix; set_solver|done|].
    eapply Forall_impl; [exact Hok|]. by intros l (_ & _ & _ & _ & ? & _). }
  rewrite Hrun. simpl. rewrite (proj2 (Z.ltb_ge _ _)) by lia.
  destruct (Enabled v && bool_decide (rules = [])) eqn:E.
  { bool_hyp. exfalso. by apply Hen. }
  rewrite <- HE. by destruct v.
Qed.

Lemma default_valid : valid_settings defaultUpstreamErrorRetrySettings.
Proof.
  unfold valid_settings. split_and!; simpl; try lia. exists []. split_and!; try done; try constructor. simpl. lia.
Qed.

Lemma parse_valid unmarshal raw : valid_settings (parseUpstreamErrorRetrySettings unmarshal raw).
Proof.
  unfold parseUpstreamErrorRetrySettings. pose proof default_valid.
  case_bool_decide; [done|]. destruct (unmarshal _ _) as [v|]; [|done].
  destruct (normalizeUpstreamErrorRetrySettings v) as [v'|] eqn:E; [|done].
  by apply normalize_valid in E as [? _].
Qed.

(** One claim raises [used] by one when it is granted, and keeps the policy
    once there is one. *)
Lemma claim_step gone current status body s d s' :
  claim gone current status body s = (d, s') →
  (∀ p, policy s = Some p → policy s' = Some p) ∧
  match d with
  | Some d => ∃ p, policy s' = Some p ∧ d = DelayMS (settings p) * millisecond ∧
                used s < MaxRetries (settings p) ∧ used s' = used s + 1 ∧
                matches (Some p) status body = true
  | None => used s' = used s
  end.
Proof.
  unfold claim, getPolicy. destruct gone; [by intros [= <- <-]|].
  destruct (policy s) as [p|] eqn:Hp; simpl.
  all: match goal with |- context [matches ?p ?x ?b] => destruct (matches p x b) eqn:Hm end;
    simpl; [|intros [= <- <-]; simpl; split; [intros; congruence|done]].
  all: match goal with |- context [?x <=? ?y] => destruct (x <=? y) eqn:E end;
    intros [= <- <-]; bool_hyp; simpl; (split; [intros; congruence|]); eauto 10.
Qed.

(** A sequence of claims on one request, in the order the mutex serves them. *)
Fixpoint claims (reqs : list (bool * upstreamErrorRetryPolicy * Z * bytes))
    (s : upstreamErrorRetryState) : list (option duration) * upstreamErrorRetryState :=
  match reqs with
  | [] => ([], s)
  | (gone, current, status, body) :: reqs =>
      let '(d, s) := claim gone current status body s in
      let '(ds, s) := claims reqs s in (d :: ds, s)
  end.

Definition granted (ds : list (option duration)) : Z :=
  foldr (λ d n, match d with Some _ => n + 1 | None => n end) 0 ds.

Lemma claims_used reqs : ∀ s ds s',
  claims reqs s = (ds, s') →
  used s' = used s + granted ds ∧
  (∀ p, policy s = Some p → policy s' = Some p) ∧
  (used s' = used s ∨ ∃ p, policy s' = Some p ∧ used s' ≤ MaxRetries (settings p)).
Proof.
  induction reqs as [|[[[gone current] status] body] reqs IH]; intros s ds s'; simpl.
  { intros [= <- <-]. unfold granted. simpl. split_and!; [lia|done|by left]. }
  destruct (claim gone current status body s) as [d s1] eqn:Hc.
  destruct (claims reqs s1) as [ds1 s2] eqn:Hr. intros [= <- <-].
  apply claim_step in Hc as [Hkeep Hd]. apply IH in Hr as (Hu & Hk & Hb).
  assert (Hg : granted (d :: ds1) = granted ds1 + match d with Some _ => 1 | None => 0 end).
  { destruct d; simpl; lia. }
  rewrite Hg. destruct d as [d|].
  - destruct Hd as (p & Hp & _ & Hlt & Hu1 & _). split_and!; [lia|by eauto|].
    right. destruct Hb as [Hb|Hb]; [|done]. exists p. split; [by apply Hk|]. lia.
  - split_and!; [lia|by eauto|]. destruct Hb; [left; lia|by right].
Qed.

Lemma claims_policy_bound rs : ∀ st ds st', claims rs st = (ds, st') →
  (∀ g c x b, (g, c, x, b) ∈ rs → 1 ≤ MaxRetries (settings c) ≤ 10) →
  (∀ p, policy st = Some p → 1 ≤ MaxRetries (settings p) ≤ 10) →
  ∀ p, policy st' = Some p → 1 ≤ MaxRetries (settings p) ≤ 10.
Proof.
  induction rs as [|[[[g c] x] b] rs IH]; intros st ds st'; simpl; [by intros [= <- <-]|].
  destruct (claim g c x b st) as [d s1] eqn:Hcl.
  destruct (claims rs s1) as [ds1 s2] eqn:Hr. intros [= <- <-] Hrs Hst.
  eapply IH; [exact Hr|intros; eapply Hrs; by apply list_elem_of_further|].
  specialize (Hrs g c x b (list_elem_of_here _ _)). revert Hcl. unfold claim, getPolicy.
  destruct g; [by intros [= <- <-]|]. destruct (policy st) as [q|] eqn:Hq; simpl.
  all: repeat case_match; intros [= <- <-]; simpl; rewrite ?Hq; intros p [= <-]; auto.
Qed.

(** ** Properties *)

(** Normalisation is a projection onto the valid policies: what it accepts
    satisfies every documented bound and is accepted again unchanged. *)
Theorem normalize_idempotent v v' :
  normalizeUpstreamErrorRetrySettings v = Ok v' →
  valid_settings v' ∧ normalizeUpstreamErrorRetrySettings v' = Ok v'.
Proof.
  intros (Hv & Hlen & Hsz)%normalize_valid. split; [done|]. apply valid_normalize; [done|]. lia.
Qed.

(** C38: however the retries of one request interleave, and whatever happens to
    the stored policy meanwhile, at most [MaxRetries] of the policy the request
    first saw are granted: ten at most for a policy read from the store. *)
Theorem retry_budget unmarshal reqs ds s :
  (∀ gone current status body, (gone, current, status, body) ∈ reqs →
     ∃ raw, current = compileUpstreamErrorRetryPolicy (parseUpstreamErrorRetrySettings unmarshal raw)) →
  claims reqs newState = (ds, s) →
  granted ds ≤ 10 ∧ (∀ p, policy s = Some p → granted ds ≤ MaxRetries (settings p)).
Proof.
  intros Hreq Hc. pose proof (claims_used _ _ _ _ Hc) as (Hu & _ & Hb). simpl in Hu, Hb.
  assert (Hpol : ∀ p, policy s = Some p → 1 ≤ MaxRetries (settings p) ≤ 10).
  { eapply (claims_policy_bound _ _ _ _ Hc); [|done].
    intros g c x b (raw & ->)%Hreq. simpl. by destruct (parse_valid unmarshal raw). }
  split.
  - destruct Hb as [Hb|(p & Hp & Hb)]; [lia|]. apply Hpol in Hp. lia.
  - intros p Hp. destruct Hb as [Hb|(q & Hq & Hb)]; [apply Hpol in Hp; lia|].
    simplify_eq. lia.
Qed.

(** The policy never replays a failure the built-in rules own: a claimed
    retry has a live client, an enabled policy and a status in 400..599 other
    than 429; the failure allows another account, is no credential or billing
    failure and reports no usage; and it matches a rule of the policy, by its
    status or by a keyword in an explicit error field (in the text of a body
    that is not JSON). *)
Theorem configured_retry_guarded m f st err st' :
  TryConfiguredUpstreamErrorRetry m (Some f) (Some st) = (true, err, Some st') →
  m_ctx_gone m = false ∧ m_client_gone m = false ∧
  ShouldRetryNextAccount (Some f) = true ∧ IsCredentialFailure (Some f) = false ∧
  IsUpstreamBillingExhausted (Some f) = false ∧ ConfiguredRetryUnsafe f = false ∧
  400 ≤ StatusCode f ≤ 599 ∧ StatusCode f ≠ StatusTooManyRequests ∧
  upstreamErrorRetryHasUsage (ResponseBody f) = false ∧
  used st' = used st + 1 ∧
  ∃ p, policy st' = Some p ∧ Enabled (settings p) = true ∧ used st' ≤ MaxRetries (settings p) ∧
    (StatusCode f ∈ statuses p ∨
     ∃ text keyword, text ∈ error_texts (ResponseBody f) ∧ keyword ∈ keywords p ∧
       ∃ k1 k2, text = k1 ++ keyword ++ k2).
Proof.
  unfold TryConfiguredUpstreamErrorRetry.
  match goal with |- context [if ?b then _ else _] => destruct b eqn:E; [done|] end. bool_hyp.
  destruct (claim _ _ _ _ _) as [[d|] s1] eqn:Hc; [|done]. intros [= _ <-].
  assert (Hgone : m_client_gone m = false).
  { destruct (m_client_gone m); [done|done]. }
  apply claim_step in Hc as [_ (p & Hp & _ & Hlt & Hu & Hm)].
  unfold matches in Hm.
  destruct (negb (Enabled _) || _) eqn:E1; [done|].
  destruct (upstreamErrorRetryHasUsage _) eqn:E2; [done|]. unfold retryable_status in E1. bool_hyp.
  split_and!; try done.
  exists p. split_and!; try done; [lia|].
  case_bool_decide; [by left|]. right.
  destruct (bool_decide (keywords p = [])); [done|].
  apply existsb_exists in Hm as (text & Ht & (kw & Hkw & Hc)%existsb_exists).
  apply Contains_spec in Hc. exists text, kw. by rewrite !list_elem_of_In.
Qed.

(** ** The budget as the failover loop sees it *)

Definition valid_policy (p : upstreamErrorRetryPolicy) : Prop :=
  1 ≤ MaxRetries (settings p) ≤ 10.

Definition left_of (s : option upstreamErrorRetryState) : Z :=
  match s with
  | None => 0
  | Some st => match policy st with
               | Some p => Z.max 0 (MaxRetries (settings p) - used st)
               | None => 10 - used st
               end
  end.

Definition state_ok (s : option upstreamErrorRetryState) : Prop :=
  match s with
  | None => True
  | Some st => 0 ≤ used st ∧ match policy st with
                             | Some p => valid_policy p | None => used st = 0 end
  end.

Lemma claim_left gone current status body st d st' :
  valid_policy current → state_ok (Some st) → claim gone current status body st = (d, st') →
  state_ok (Some st') ∧
  match d with Some _ => left_of (Some st') < left_of (Some st)
             | None => left_of (Some st') ≤ left_of (Some st) end.
Proof.
  unfold claim, getPolicy, state_ok, left_of, valid_policy. intros Hv [Hu Hok].
  destruct gone; [intros [= <- <-]; split; [done|lia]|].
  destruct (policy st) as [p|] eqn:Hp; simpl.
  all: match goal with |- context [matches ?p ?x ?b] => destruct (matches p x b) end; simpl;
    [|intros [= <- <-]; simpl; rewrite ?Hp; split; [done|lia]].
  all: match goal with |- context [?x <=? ?y] => destruct (x <=? y) eqn:E end;
    intros [= <- <-]; bool_hyp; simpl; rewrite ?Hp; split_and!; try done; lia.
Qed.

#[export] Instance upstream_request_retry : RequestRetry moment (option upstreamErrorRetryState).
Proof.
  refine {| try_retry := TryConfiguredUpstreamErrorRetry;
            retry_ok := λ m, valid_policy (m_current m);
            budget_ok := state_ok;
            retries_left := left_of |}.
  - intros [st|]; [|simpl; lia]. simpl. unfold valid_policy. destruct (policy st); lia.
  - intros m [f|] [st|] err s' Hm Hs; unfold TryConfiguredUpstreamErrorRetry; try done;
      case_match; try done.
    destruct (claim _ _ _ _ _) as [[d|] s1] eqn:Hc; [|done]. intros [= <- <-].
    by eapply claim_left in Hc.
  - intros m [f|] [st|] err s' Hm Hs; unfold TryConfiguredUpstreamErrorRetry;
      try (intros [= <- <-]; split; [done|lia]);
      case_match; try (intros [= <- <-]; split; [done|simpl; lia]).
    destruct (claim _ _ _ _ _) as [[d|] s1] eqn:Hc; [done|]. intros [= <- <-].
    by eapply claim_left in Hc.
Defined.

End Retry.

(** ** Concrete runs *)

Definition demo_settings : UpstreamErrorRetrySettings :=
  mkSettings true 2 500 (lit " 503" ++ [CR; LF] ++ lit "overloaded " ++ [LF; LF] ++ lit "Overloaded").

Definition demo_normalized : UpstreamErrorRetrySettings :=
  mkSettings true 2 500 (lit "503" ++ [LF] ++ lit "overloaded").

Definition no_json : Gjson := {| ValidBytes := λ _, false; GetBytes := λ _ _, absent |}.

Lemma normalize_idempotent_witness :
  @normalizeUpstreamErrorRetrySettings ascii_lower demo_settings = Ok demo_normalized ∧
  @normalizeUpstreamErrorRetrySettings ascii_lower demo_normalized = Ok demo_normalized.
Proof.
  assert (H : @normalizeUpstreamErrorRetrySettings ascii_lower demo_settings = Ok demo_normalized)
    by (vm_compute; reflexivity).
  split; [exact H|]. exact (proj2 (@normalize_idempotent ascii_lower _ _ H)).
Defined.

Definition demo_unmarshal (raw : bytes) (_ : UpstreamErrorRetrySettings)
    : option UpstreamErrorRetrySettings :=
  if bool_decide (raw = lit "stored") then Some demo_settings else None.

Definition demo_policy : upstreamErrorRetryPolicy :=
  @compileUpstreamErrorRetryPolicy ascii_lower
    (@parseUpstreamErrorRetrySettings ascii_lower demo_unmarshal (lit "stored")).

Definition demo_requests : list (bool * upstreamErrorRetryPolicy * Z * bytes) :=
  [(false, demo_policy, 503, []); (false, demo_policy, 429, []); (true, demo_policy, 503, []);
   (false, demo_policy, 500, lit "Server OVERLOADED"); (false, demo_policy, 503, [])].

Lemma retry_budget_witness :
  (@claims ascii_lower no_json demo_requests newState).1
    = [Some (500 * millisecond); None; None; Some (500 * millisecond); None] ∧
  granted (@claims ascii_lower no_json demo_requests newState).1 ≤ 10.
Proof.
  split; [vm_compute; reflexivity|].
  assert (Hreq : ∀ gone current status body, (gone, current, status, body) ∈ demo_requests →
    ∃ raw, current = @compileUpstreamErrorRetryPolicy ascii_lower
      (@parseUpstreamErrorRetrySettings ascii_lower demo_unmarshal raw)).
  { intros g c s b Hin. exists (lit "stored"). unfold demo_requests in Hin.
    repeat (apply elem_of_cons in Hin as [[= _ -> _ _]|Hin]; [reflexivity|]).
    by apply not_elem_of_nil in Hin. }
  destruct (@claims ascii_lower no_json demo_requests newState) as [ds s] eqn:E.
  exact (proj1 (@retry_budget ascii_lower no_json demo_unmarshal _ _ _ Hreq E)).
Defined.

Definition demo_failure : UpstreamFailoverError := plainError 500 (lit "Server OVERLOADED").
Definition demo_moment : moment := mkMoment false false demo_policy TimerFired false true.

Lemma configured_retry_guarded_witness :
  @TryConfiguredUpstreamErrorRetry ascii_lower no_json demo_moment (Some demo_failure) (Some newState)
    = (true, true, Some (mkState (Some demo_policy) 1)) ∧
  @upstreamErrorRetryHasUsage no_json (ResponseBody demo_failure) = false.
Proof.
  assert (H : @TryConfiguredUpstreamErrorRetry ascii_lower no_json demo_moment (Some demo_failure)
                (Some newState) = (true, true, Some (mkState (Some demo_policy) 1)))
    by (vm_compute; reflexivity).
  split; [exact H|].
  apply (@configured_retry_guarded ascii_lower no_json _ _ _ _ _ H).
Defined.

End UpstreamRetry.
