(* ===== verification/Account.v ===== *)
(** * Accounts: when an account may be scheduled

    Models the scheduling predicates of [service/account.go], the model-level
    predicate of [service/antigravity_quota_scope.go], the capability holds of
    [service/scheduled_test_pass_rate_routing.go], the model cooldowns of
    [service/model_rate_limit.go], and the unavailability reason and group
    membership the strict failover uses. *)

From S2P Require Import Prelude GoStrings.

Module Account.
Import GoStrings.

(** A value of an untyped [map[string]any] of holds, as the code inspects it. *)
Inductive hold :=
  | HoldBool (b : bool)
  | HoldEntry (blocked : option bool)
  | HoldOther.

Record Account := mkAccount {
  ID : Z;
  Platform : string;
  Status : string;
  Schedulable : bool;
  PerformancePaused : bool;
  AutoPauseOnExpired : bool;
  ExpiresAt : option time;
  OverloadUntil : option time;
  RateLimitResetAt : option time;
  TempUnschedulableUntil : option time;
  GroupIDs : list Z;
  AccountGroups : list Z;          (** the [GroupID] of each *)
  active_test_all_models_paused : bool;
  active_test_model_holds : gmap bytes hold;
  active_pass_rate_holds : gmap bytes hold;
  model_rate_limits : gmap bytes time;  (** the parsed [rate_limit_reset_at] of each scope *)
  LoadFactor : option Z;
  Concurrency : Z
}.

Definition StatusActive : string := "active".

Definition IsActive (a : Account) : bool := bool_decide (Status a = StatusActive).

(** [x != nil && now.Before(x)]. *)
Definition pending (now : time) (x : option time) : bool :=
  match x with Some x => before now x | None => false end.

(** [x != nil && !now.Before(x)]. *)
Definition reached (now : time) (x : option time) : bool :=
  match x with Some x => negb (before now x) | None => false end.

Definition activeTestProjectionBlocks (holds : gmap bytes hold) (model : bytes) : bool :=
  let model := TrimSpace model in
  existsb (λ '(held, value),
    match value with
    | HoldBool false => false
    | HoldEntry (Some false) => false
    | _ => bool_decide (model = []) || bool_decide (held = []) || bool_decide (held = model)
    end) (map_to_list holds).

Definition ActiveTestAllModelsPaused (a : Account) : bool := active_test_all_models_paused a.

Definition ActivePassRateBlocked (a : Account) (model : bytes) : bool :=
  activeTestProjectionBlocks (active_pass_rate_holds a) model.

Definition ActiveTestModelBlocked (a : Account) (model : bytes) : bool :=
  if ActiveTestAllModelsPaused a then true
  else activeTestProjectionBlocks (active_test_model_holds a) model
       || ActivePassRateBlocked a model.

Definition EffectiveLoadFactor (a : option Account) : Z :=
  match a with
  | None => 1
  | Some a =>
      match LoadFactor a with
      | Some f => if 0 <? f then f else if 0 <? Concurrency a then Concurrency a else 1
      | None => if 0 <? Concurrency a then Concurrency a else 1
      end
  end.

(** ** Model cooldowns *)

Definition modelRateLimitResetAt (a : Account) (scope : bytes) : option time :=
  if bool_decide (scope = []) then None else model_rate_limits a !! scope.

Definition isRateLimitActiveForKey (now : time) (a : Account) (key : bytes) : bool :=
  pending now (modelRateLimitResetAt a key).

Definition getRateLimitRemainingForKey (now : time) (a : Account) (key : bytes) : duration :=
  match modelRateLimitResetAt a key with
  | None => 0
  | Some resetAt => let remaining := time_sub resetAt now in
                    if 0 <? remaining then remaining else 0
  end.

(** One step of the loop that keeps the longest remaining time. *)
Definition longer_cooldown (now : time) (a : Account) (remaining : duration) (key : bytes)
    : duration :=
  let keyRemaining := getRateLimitRemainingForKey now a key in
  if remaining <? keyRemaining then keyRemaining else remaining.

Section Scheduling.
(** The parts of an account other files compute: whether a quota it supports is
    exceeded ([SupportsAccountQuota() && IsQuotaExceeded()]), the cooldown keys
    of a request, and whether credits let an Antigravity account through. *)
Context (quota_exhausted : Account → bool)
        (modelRateLimitKeysForRequest : Account → bytes → list bytes)
        (overages_available : Account → bool).

Definition isModelRateLimitedWithContext (now : time) (a : Account) (model : bytes) : bool :=
  existsb (isRateLimitActiveForKey now a) (modelRateLimitKeysForRequest a model).

Definition GetModelRateLimitRemainingTime (now : time) (a : Account) (model : bytes) : duration :=
  foldl (longer_cooldown now a) 0 (modelRateLimitKeysForRequest a model).

Definition IsSchedulable (now : time) (a : Account) : bool :=
  if negb (IsActive a) || negb (Schedulable a) || PerformancePaused a then false
  else if AutoPauseOnExpired a && reached now (ExpiresAt a) then false
  else if pending now (OverloadUntil a) then false
  else if pending now (RateLimitResetAt a) then false
  else if pending now (TempUnschedulableUntil a) then false
  else negb (quota_exhausted a).

Definition IsCredentialUsableForShadow (now : time) (a : option Account) : bool :=
  match a with
  | None => false
  | Some a =>
      if negb (IsActive a) then false
      else if AutoPauseOnExpired a && reached now (ExpiresAt a) then false
      else negb (pending now (TempUnschedulableUntil a))
  end.

(** [public] is the request's public model, empty when the context has none. *)
Definition activePassRateRoutingModel (public requestedModel : bytes) : bytes :=
  if bool_decide (public = []) then TrimSpace requestedModel else public.

Definition IsSchedulableForModelWithContext (now : time) (public : bytes) (a : option Account)
    (requestedModel : bytes) : bool :=
  match a with
  | None => false
  | Some a =>
      if negb (IsSchedulable now a)
         || ActiveTestModelBlocked a (activePassRateRoutingModel public requestedModel) then false
      else if isModelRateLimitedWithContext now a requestedModel then
        bool_decide (Platform a = "antigravity") && overages_available a
      else true
  end.

Definition strictAccountUnavailableReason (now : time) (public : bytes) (a : Account)
    (model : bytes) : string :=
  if negb (IsActive a) then "account_inactive"
  else if negb (Schedulable a) then "scheduling_disabled"
  else if AutoPauseOnExpired a && reached now (ExpiresAt a) then "account_expired"
  else if pending now (OverloadUntil a) then "upstream_overload_cooldown"
  else if pending now (RateLimitResetAt a) then "account_rate_limited"
  else if pending now (TempUnschedulableUntil a) then "account_cooldown"
  else if quota_exhausted a then "account_quota_exhausted"
  else if ActiveTestModelBlocked a (activePassRateRoutingModel public model)
  then "active_test_model_blocked"
  else "model_rate_limited".

(** ** Lemmas *)

Lemma pending_remaining now a key :
  isRateLimitActiveForKey now a key = true ↔ 0 < getRateLimitRemainingForKey now a key.
Proof.
  unfold isRateLimitActiveForKey, getRateLimitRemainingForKey, pending.
  destruct (modelRateLimitResetAt a key) as [r|]; [|split; [done|lia]].
  rewrite before_spec. unfold time_sub, int64_min, int64_max.
  case_match; bool_hyp; lia.
Qed.

(** The loop computes the longest remaining cooldown. *)
Lemma remaining_fold now a keys : ∀ acc,
  let r := foldl (longer_cooldown now a) acc keys in
  acc ≤ r ∧ (∀ k, k ∈ keys → getRateLimitRemainingForKey now a k ≤ r) ∧
  (r = acc ∨ ∃ k, k ∈ keys ∧ r = getRateLimitRemainingForKey now a k).
Proof.
  induction keys as [|k keys IH]; intros acc; cbn [foldl].
  { split_and!; [simpl; lia|by intros ? ?%not_elem_of_nil|by left]. }
  assert (Hstep : longer_cooldown now a acc k = Z.max acc (getRateLimitRemainingForKey now a k)).
  { unfold longer_cooldown. destruct (Z.ltb_spec acc (getRateLimitRemainingForKey now a k)); lia. }
  cbv zeta. rewrite Hstep.
  destruct (IH (Z.max acc (getRateLimitRemainingForKey now a k))) as (H1 & H2 & H3).
  split_and!; [lia| |].
  - intros k' [->|Hk]%elem_of_cons; [lia|auto].
  - destruct H3 as [->|(k' & ? & ->)].
    + destruct (Z.max_spec acc (getRateLimitRemainingForKey now a k)) as [[? ->]|[? ->]];
        [right; exists k; set_solver|by left].
    + right; exists k'; set_solver.
Qed.

(** ** Properties *)

(** When an account is refused for a model, the reason the strict failover
    reports names a condition that does hold, except that a pause for
    performance is reported as a model cooldown. *)
Theorem strict_reason_names_the_cause now public a model :
  IsSchedulableForModelWithContext now public (Some a) model = false →
  let r := strictAccountUnavailableReason now public a model in
  (r = "account_inactive" ∧ Status a ≠ StatusActive) ∨
  (r = "scheduling_disabled" ∧ Schedulable a = false) ∨
  (r = "account_expired" ∧ AutoPauseOnExpired a = true ∧ ∃ t, ExpiresAt a = Some t ∧ t ≤ now) ∨
  (r = "upstream_overload_cooldown" ∧ ∃ t, OverloadUntil a = Some t ∧ now < t) ∨
  (r = "account_rate_limited" ∧ ∃ t, RateLimitResetAt a = Some t ∧ now < t) ∨
  (r = "account_cooldown" ∧ ∃ t, TempUnschedulableUntil a = Some t ∧ now < t) ∨
  (r = "account_quota_exhausted" ∧ quota_exhausted a = true) ∨
  (r = "active_test_model_blocked" ∧
     ActiveTestModelBlocked a (activePassRateRoutingModel public model) = true) ∨
  (r = "model_rate_limited" ∧
     (PerformancePaused a = true ∨
      ∃ key, key ∈ modelRateLimitKeysForRequest a model ∧
             0 < getRateLimitRemainingForKey now a key)).
Proof.
  assert (Hpend : ∀ x, pending now x = true → ∃ t, x = Some t ∧ now < t).
  { intros [t|] Ht; [|done]. exists t. by rewrite <- before_spec. }
  unfold strictAccountUnavailableReason. intros Hs. cbv zeta.
  destruct (IsActive a) eqn:E1; cbn [negb]; [|unfold IsActive in E1; bool_hyp; by left]. right.
  destruct (Schedulable a) eqn:E2; cbn [negb]; [|by left]. right.
  destruct (AutoPauseOnExpired a && reached now (ExpiresAt a)) eqn:E3.
  { left. bool_hyp. split_and!; [done..|]. unfold reached in *.
    destruct (ExpiresAt a) as [t|]; [|done].
    exists t. split; [done|]. bool_hyp. by apply before_false. }
  right. destruct (pending now (OverloadUntil a)) eqn:E4; [left; auto|].
  right. destruct (pending now (RateLimitResetAt a)) eqn:E5; [left; auto|].
  right. destruct (pending now (TempUnschedulableUntil a)) eqn:E6; [left; auto|].
  right. destruct (quota_exhausted a) eqn:E7; [by left|].
  right. destruct (ActiveTestModelBlocked a _) eqn:E8; [by left|].
  right. split; [done|]. destruct (PerformancePaused a) eqn:E9; [by left|right].
  revert Hs. unfold IsSchedulableForModelWithContext, IsSchedulable.
  rewrite E1, E2, E3, E4, E5, E6, E7, E8, E9. cbn [negb orb].
  destruct (isModelRateLimitedWithContext now a model) eqn:E10; [|done]. intros _.
  apply existsb_exists in E10 as (key & Hk & Hact).
  exists key. rewrite list_elem_of_In. by rewrite <- pending_remaining.
Qed.

Lemma strict_reason_nonempty now public a model : strictAccountUnavailableReason now public a model ≠ "".
Proof. unfold strictAccountUnavailableReason. by repeat case_match. Qed.

(** The remaining cooldown of a request is the longest one among its keys,
    and it is positive exactly while the account counts as rate limited for it. *)
Theorem remaining_cooldown_spec now a model :
  let r := GetModelRateLimitRemainingTime now a model in
  (∀ k, k ∈ modelRateLimitKeysForRequest a model → getRateLimitRemainingForKey now a k ≤ r) ∧
  (0 < r ↔ isModelRateLimitedWithContext now a model = true).
Proof.
  destruct (remaining_fold now a (modelRateLimitKeysForRequest a model) 0) as (H1 & H2 & H3).
  split; [exact H2|]. fold (GetModelRateLimitRemainingTime now a model) in H1, H2, H3.
  unfold isModelRateLimitedWithContext. rewrite existsb_exists. split.
  - intros Hr. destruct H3 as [H3|(k & Hk & H3)]; [lia|]. exists k.
    rewrite <- list_elem_of_In, pending_remaining. split; [done|lia].
  - intros (k & Hk & Hact). rewrite <- list_elem_of_In in Hk. apply H2 in Hk.
    apply pending_remaining in Hact. lia.
Qed.

End Scheduling.

(** ** Membership *)

Definition openAIStickyAccountMatchesGroup (account : option Account) (groupID : option Z) : bool :=
  match account with
  | None => false
  | Some a =>
      match groupID with
      | None => bool_decide (AccountGroups a = []) && bool_decide (GroupIDs a = [])
      | Some g => bool_decide (g ∈ GroupIDs a) || bool_decide (g ∈ AccountGroups a)
      end
  end.

(** ** Concrete runs *)

Definition demo_account (paused : bool) : Account :=
  mkAccount 7 "openai" StatusActive true paused false None None None None [1] [] false ∅ ∅
    {[lit "gpt" := 50]} None 0.

Lemma strict_reason_names_the_cause_witness :
  IsSchedulableForModelWithContext (λ _, false) (λ _ m, [m]) (λ _, false) 10 []
    (Some (demo_account true)) (lit "o3") = false ∧
  strictAccountUnavailableReason (λ _, false) 10 [] (demo_account true) (lit "o3")
    = "model_rate_limited" ∧
  Status (demo_account true) = StatusActive.
Proof.
  assert (H : IsSchedulableForModelWithContext (λ _, false) (λ _ m, [m]) (λ _, false) 10 []
    (Some (demo_account true)) (lit "o3") = false) by (vm_compute; reflexivity).
  split_and!; [exact H|vm_compute; reflexivity|].
  destruct (strict_reason_names_the_cause (λ _, false) (λ _ m, [m]) (λ _, false) 10 []
    (demo_account true) (lit "o3") H) as [[Hr _]|_]; [discriminate Hr|reflexivity].
Defined.

End Account.
