(* ===== verification/StrictFailover.v ===== *)
(** * Strict failover: tiers that are left only on evidence

    Models [service/strict_failover.go]: validation of the tier configuration,
    the failures a request has proved, the choice of the active tier, pinning an
    owner, and the errors the selection reports. *)

From stdpp Require Import pretty.
From S2P Require Import Prelude GoStrings UpstreamError Account.

Module StrictFailover.
Import UpstreamError.

Abbreviation Account := Account.Account.
Abbreviation AID := Account.ID.

(** ** Configuration *)

Record StrictFailoverConfig := mkConfig { Enabled : bool; Tiers : list (list Z) }.

Definition CloneStrictFailoverConfig (cfg : StrictFailoverConfig) : StrictFailoverConfig :=
  mkConfig (Enabled cfg) ((λ tier, tier) <$> Tiers cfg).

Inductive shape_error := NoTier | TooManyTiers | EmptyTier | BadAccountID | TooManyAccounts.

(** The loop over one tier: the ids seen so far, [None] on a bad id. *)
Fixpoint shape_tier (tier : list Z) (seen : gset Z) : option (gset Z) :=
  match tier with
  | [] => Some seen
  | id :: tier =>
      if (id <=? 0) || bool_decide (id ∈ seen) then None else shape_tier tier ({[id]} ∪ seen)
  end.

Fixpoint shape_tiers (tiers : list (list Z)) (seen : gset Z) : result shape_error (gset Z) :=
  match tiers with
  | [] => Ok seen
  | tier :: tiers =>
      if bool_decide (tier = []) then Err EmptyTier
      else match shape_tier tier seen with
           | None => Err BadAccountID
           | Some seen => shape_tiers tiers seen
           end
  end.

Definition validateStrictFailoverShape (cfg : StrictFailoverConfig) : result shape_error unit :=
  if Enabled cfg && bool_decide (Tiers cfg = []) then Err NoTier
  else if (10 <? length (Tiers cfg))%nat then Err TooManyTiers
  else let* seen := shape_tiers (Tiers cfg) ∅ in
       if (1000 <? size seen)%nat then Err TooManyAccounts else Ok tt.

Inductive membership_error :=
  | Shape (e : shape_error) | RepositoryUnavailable | LoadFailed | NotMember (id : Z).

(** [repo] is [nil] or answers [GetByIDs]. *)
Definition validateStrictFailover (groupID : Z) (cfg : StrictFailoverConfig)
    (repo : option (list Z → option (list (option Account)))) : result membership_error unit :=
  match validateStrictFailoverShape cfg with
  | Err e => Err (Shape e)
  | Ok _ =>
      if negb (Enabled cfg) then Ok tt
      else
        let ids := concat (Tiers cfg) in
        match repo with
        | None => Err RepositoryUnavailable
        | Some GetByIDs =>
            match GetByIDs ids with
            | None => Err LoadFailed
            | Some accounts =>
                let members : gset Z := list_to_set (omap (λ a,
                  if Account.openAIStickyAccountMatchesGroup a (Some groupID)
                  then AID <$> a else None) accounts) in
                match list_find (λ id, id ∉ members) ids with
                | Some (_, id) => Err (NotMember id)
                | None => Ok tt
                end
            end
        end
  end.

(** ** The failures of a request *)

Record strictFailoverFailures := mkFailures { reasons : gmap Z string; active : bool }.

(** [None] is a context without the shared state. *)
Definition StrictFailoverRequestActive (fl : option strictFailoverFailures) : bool :=
  match fl with Some f => active f | None => false end.

(** [http_reason n] is [fmt.Sprintf("upstream_http_%d", n)]. *)
Definition http_reason (n : Z) : string := "upstream_http_" +:+ pretty n.

Definition failure_reason (f : UpstreamFailoverError) : string :=
  let reason := strictFailoverReason f in
  let reason := if (400 <=? ObservedUpstreamStatus f) && (ObservedUpstreamStatus f <? 600)
                then http_reason (ObservedUpstreamStatus f) else reason in
  let reason := if bool_decide (Reason f = UpstreamBillingExhaustedReason)
                   && bool_decide (Scope f = GatewayFailureScopeAccount)
                then "upstream_billing_exhausted" else reason in
  if IsCredentialFailure (Some f) && bool_decide (Scope f = GatewayFailureScopeAccount)
  then "credential_failure" else reason.

Definition RecordStrictFailoverFailure (ctx_gone : bool) (accountID : Z)
    (failure : option UpstreamFailoverError) (fl : option strictFailoverFailures)
    : option strictFailoverFailures :=
  match failure with
  | None => fl
  | Some f =>
      if ctx_gone || negb (ShouldRetryNextAccount failure) then fl
      else if bool_decide (failure_reason f = "") then fl
      else (λ st, mkFailures (<[accountID := failure_reason f]> (reasons st)) (active st)) <$> fl
  end.

Definition strictFailureReason (fl : option strictFailoverFailures) (id : Z) : string :=
  match fl with Some f => default "" (reasons f !! id) | None => "" end.

(** ** The active tier *)

Record strictFailoverState := mkState {
  groupID : Z;
  tier : Z;
  accounts : list Account;
  allowed : gset Z
}.

Definition strictFailoverAllows (st : option strictFailoverState) (id : Z) : bool :=
  match st with None => true | Some s => bool_decide (id ∈ allowed s) end.

(** [derefGroupID]: zero for [nil]. *)
Definition strictFailoverAccounts (st : option strictFailoverState) (group : option Z)
    : option (list Account) :=
  match st with
  | Some s => if groupID s =? default 0 group then Some (accounts s) else None
  | None => None
  end.

Inductive sf_error :=
  | Unconfirmed_config | Unconfirmed_repo | Unconfirmed_load | Unconfirmed_members
  | Unconfirmed_probe (id : Z) | Unconfirmed_tier (n : Z)
  | ContextDone | AllUnavailable | OwnerBound.

(** [errors.Is(err, ErrNoAvailableAccounts)], [errors.Is(err, ErrStrictFailoverUnconfirmed)]. *)
Definition is_no_available (e : sf_error) : bool :=
  match e with AllUnavailable => true | _ => false end.
Definition is_unconfirmed (e : sf_error) : bool :=
  match e with
  | Unconfirmed_config | Unconfirmed_repo | Unconfirmed_load | Unconfirmed_members
  | Unconfirmed_probe _ | Unconfirmed_tier _ => true
  | _ => false
  end.

Definition pinStrictFailoverOwner (st : option strictFailoverState) (owner : Z)
    : result sf_error (option strictFailoverState) :=
  match st with
  | None => Ok None
  | Some s =>
      if (owner <=? 0) || negb (strictFailoverAllows st owner) then Err OwnerBound
      else Ok (Some (mkState (groupID s) (tier s)
                       (filter (λ a, AID a = owner) (accounts s)) {[owner]}))
  end.

(** The errors of a selection that the strict failover re-classifies. *)
Inductive selection_error :=
  | NoAvailableAccounts | NoAvailableCompactAccounts | AccountQualityHeld
  | StrictUnconfirmed (cause : selection_error) | OtherError (n : Z).

Definition strictFailoverSelectionError (st : option strictFailoverState)
    (err : option selection_error) : option selection_error :=
  match err, st with
  | Some ((NoAvailableAccounts | NoAvailableCompactAccounts | AccountQualityHeld) as e), Some _ =>
      Some (StrictUnconfirmed e)
  | _, _ => err
  end.

Record group := mkGroup { g_id : Z; g_strict : StrictFailoverConfig }.

Section Prepare.
(** The repository, the request (its exclusions and proved failures), and the
    predicates of other files: schedulability with the reason to report
    otherwise, the profit gate, and the callback that decides whether the
    account can serve the request ([None] for an error). *)
Context (GetByIDs : list Z → option (list (option Account)))
        (ListByGroup : Z → option (list Account))
        (excluded : gset Z)
        (failureOf : Z → string)
        (schedulable : Account → bool)
        (unavailableReason : Account → string)
        (vetoReason : Account → string)
        (unavailable : Account → option string)
        (ctx_gone : nat → bool).

Definition in_group (g : Z) (a : Account) : bool :=
  Account.openAIStickyAccountMatchesGroup (Some a) (Some g).

Inductive verdict := Available (a : Account) | Evidence (reason : string) | Uncertain | ProbeFailed.

(** The end of the loop body: the profit gate speaks when no reason was found. *)
Definition settle (a : Account) (reason : string) : verdict :=
  let reason := if bool_decide (reason = "") then vetoReason a else reason in
  if bool_decide (reason = "") then Available a else Evidence reason.

(** The body of the loop over a tier, for one id. *)
Definition judge (g : Z) (byID : gmap Z Account) (id : Z) : verdict :=
  let a := byID !! id in
  if bool_decide (id ∈ excluded) then
    let reason := failureOf id in
    let reason := match a with
                  | Some a => if bool_decide (reason = "") && in_group g a
                              then vetoReason a else reason
                  | None => reason
                  end in
    if bool_decide (reason = "") then Uncertain else Evidence reason
  else
    match a with
    | None => Evidence "deleted"
    | Some a =>
        if negb (in_group g a) then settle a "removed_from_group"
        else if negb (schedulable a) then settle a (unavailableReason a)
        else match unavailable a with
             | None => ProbeFailed
             | Some reason => settle a reason
             end
    end.

(** The loop over one tier: the available accounts, and whether one is uncertain. *)
Fixpoint scan (g : Z) (byID : gmap Z Account) (ids : list Z) (found : list (Z * Account))
    (uncertain : bool) : result sf_error (list (Z * Account) * bool) :=
  match ids with
  | [] => Ok (found, uncertain)
  | id :: ids =>
      match judge g byID id with
      | Available a => scan g byID ids (found ++ [(id, a)]) uncertain
      | Evidence _ => scan g byID ids found uncertain
      | Uncertain => scan g byID ids found true
      | ProbeFailed => Err (Unconfirmed_probe id)
      end
  end.

(** The implicit last tier: listed members that no tier names. *)
Fixpoint unassigned (g : Z) (members : list Account) (assigned : gset Z) (byID : gmap Z Account)
    : list Z * gmap Z Account :=
  match members with
  | [] => ([], byID)
  | a :: members =>
      if bool_decide (AID a ∈ assigned) || negb (in_group g a)
      then unassigned g members assigned byID
      else let '(ids, byID) := unassigned g members ({[AID a]} ∪ assigned) (<[AID a := a]> byID) in
           (AID a :: ids, byID)
  end.

Definition tier_state (g : Z) (i : nat) (found : list (Z * Account)) : strictFailoverState :=
  mkState g (Z.of_nat i + 1) found.*2 (list_to_set found.*1).

(** One round of the tier loop: [k] goes on with the next tier. *)
Definition try_tier (g : Z) (i : nat) (byID : gmap Z Account) (ids : list Z)
    (k : result sf_error strictFailoverState) : result sf_error strictFailoverState :=
  if ctx_gone (S i) then Err ContextDone
  else let* (found, uncertain) := scan g byID ids [] false in
       if bool_decide (found ≠ []) then Ok (tier_state g i found)
       else if uncertain : bool then Err (Unconfirmed_tier (Z.of_nat i + 1))
       else k.

Fixpoint walk (g : Z) (byID : gmap Z Account) (assigned : gset Z) (i : nat)
    (tiers : list (list Z)) : result sf_error strictFailoverState :=
  match tiers with
  | ids :: tiers => try_tier g i byID ids (walk g byID assigned (S i) tiers)
  | [] =>
      match ListByGroup g with
      | None => Err Unconfirmed_members
      | Some members =>
          let '(ids, byID) := unassigned g members assigned byID in
          try_tier g i byID ids (Err AllUnavailable)
      end
  end.

Definition index_accounts (rows : list (option Account)) : gmap Z Account :=
  foldl (λ m r, match r with Some a => <[AID a := a]> m | None => m end) ∅ rows.

(** [repo_present] is [repo != nil]; the first component is the request's
    failure record with its [active] flag set. *)
Definition prepareStrictFailover (repo_present : bool) (grp : option group)
    (fl : option strictFailoverFailures)
    : option strictFailoverFailures * result sf_error (option strictFailoverState) :=
  let enabled := match grp with Some gr => Enabled (g_strict gr) | None => false end in
  let fl := (λ st, mkFailures (reasons st) enabled) <$> fl in
  match grp with
  | None => (fl, Ok None)
  | Some gr =>
      if negb enabled then (fl, Ok None)
      else match validateStrictFailoverShape (g_strict gr) with
           | Err _ => (fl, Err Unconfirmed_config)
           | Ok _ =>
               if negb repo_present then (fl, Err Unconfirmed_repo)
               else match GetByIDs (concat (Tiers (g_strict gr))) with
                    | None => (fl, Err Unconfirmed_load)
                    | Some rows =>
                        if ctx_gone 0 then (fl, Err ContextDone)
                        else (fl, let* st := walk (g_id gr) (index_accounts rows)
                                    (list_to_set (concat (Tiers (g_strict gr)))) 0
                                    (Tiers (g_strict gr)) in Ok (Some st))
                    end
           end
  end.

(** ** Lemmas *)

Definition all_evidence (g : Z) (byID : gmap Z Account) (ids : list Z) : Prop :=
  ∀ id, id ∈ ids → ∃ r, judge g byID id = Evidence r.

Definition keyed (byID : gmap Z Account) : Prop := ∀ k a, byID !! k = Some a → AID a = k.

Lemma judge_available g byID id a :
  judge g byID id = Available a →
  id ∉ excluded ∧ byID !! id = Some a ∧ in_group g a = true ∧
  (schedulable a = true → unavailable a = Some "") ∧ vetoReason a = "".
Proof.
  assert (Hset : ∀ b r, settle b r = Available a → b = a ∧ r = "" ∧ vetoReason a = "").
  { intros b r. unfold settle. destruct (decide (r = "")) as [->|Hr].
    - rewrite (bool_decide_true ("" = "")) by done. cbv iota.
      case_bool_decide; [|done]. by intros [= ->].
    - rewrite (bool_decide_false (r = "")) by done. cbv iota. by rewrite bool_decide_false. }
  unfold judge. case_bool_decide; [by repeat case_match|].
  destruct (byID !! id) as [b|]; [|done].
  destruct (in_group g b) eqn:Hg; cbn [negb]; [|by intros (_ & ? & _)%Hset].
  destruct (schedulable b) eqn:Hs; cbn [negb].
  - destruct (unavailable b) as [r|] eqn:Hu; [|done].
    intros (-> & -> & ?)%Hset. by split_and!.
  - intros (-> & ? & ?)%Hset. split_and!; [done..| |done]. by rewrite Hs.
Qed.

Lemma judge_excluded g byID id r :
  id ∈ excluded → judge g byID id = Evidence r →
  failureOf id ≠ "" ∨ ∃ a, byID !! id = Some a ∧ in_group g a = true ∧ vetoReason a ≠ "".
Proof.
  intros Hex. unfold judge. rewrite bool_decide_true by done.
  destruct (decide (failureOf id = "")) as [He|]; [|by left]. rewrite He.
  destruct (byID !! id) as [a|]; cbv zeta; [|by rewrite bool_decide_true].
  rewrite (bool_decide_true ("" = "")) by done.
  destruct (in_group g a) eqn:Hg; cbn [andb]; [|by rewrite bool_decide_true].
  case_bool_decide; [done|]. intros _. right. eauto.
Qed.

Lemma scan_spec g byID ids : ∀ found unc found' unc',
  scan g byID ids found unc = Ok (found', unc') →
  (∀ p, p ∈ found' ↔ p ∈ found ∨ (p.1 ∈ ids ∧ judge g byID p.1 = Available p.2)) ∧
  (unc' = false → unc = false ∧ ∀ id, id ∈ ids → judge g byID id ≠ Uncertain) ∧
  (∀ id, id ∈ ids → judge g byID id ≠ ProbeFailed).
Proof.
  induction ids as [|id ids IH]; intros found unc found' unc'; simpl.
  { intros [= <- <-]. set_solver. }
  destruct (judge g byID id) as [a|r| |] eqn:Hj; [| | |done]; intros (H1 & H2 & H3)%IH.
  - split_and!.
    + intros [k b]. rewrite H1, elem_of_app, list_elem_of_singleton, elem_of_cons. simpl. split.
      * intros [[?|[= -> ->]]|[? ?]]; auto.
      * intros [?|[[->|?] Hk]]; [by auto| |by auto]. left. right. congruence.
    + intros Hu. apply H2 in Hu as [? Hu]. split; [done|].
      intros k [->|Hk]%elem_of_cons; [congruence|auto].
    + intros k [->|Hk]%elem_of_cons; [congruence|auto].
  - split_and!.
    + intros [k b]. rewrite H1, elem_of_cons. simpl. split.
      * intros [?|[? ?]]; auto.
      * intros [?|[[->|?] Hk]]; [by auto|congruence|by auto].
    + intros Hu. apply H2 in Hu as [? Hu]. split; [done|].
      intros k [->|Hk]%elem_of_cons; [congruence|auto].
    + intros k [->|Hk]%elem_of_cons; [congruence|auto].
  - split_and!.
    + intros [k b]. rewrite H1, elem_of_cons. simpl. split.
      * intros [?|[? ?]]; auto.
      * intros [?|[[->|?] Hk]]; [by auto|congruence|by auto].
    + intros Hu. by apply H2 in Hu as [? _].
    + intros k [->|Hk]%elem_of_cons; [congruence|auto].
Qed.

(** What one round of the tier loop says. *)
Definition tier_result (g : Z) (i : nat) (byID : gmap Z Account) (ids : list Z)
    (st : strictFailoverState) : Prop :=
  groupID st = g ∧ tier st = Z.of_nat i + 1 ∧ allowed st ≠ ∅ ∧
  (∀ id, id ∈ allowed st ↔ id ∈ ids ∧ ∃ a, judge g byID id = Available a) ∧
  (∀ a, a ∈ accounts st ↔ ∃ id, id ∈ ids ∧ judge g byID id = Available a).

Lemma try_tier_spec g i byID ids k r :
  try_tier g i byID ids k = r →
  match r with
  | Ok st => tier_result g i byID ids st ∨ (all_evidence g byID ids ∧ k = Ok st)
  | Err AllUnavailable => all_evidence g byID ids ∧ k = Err AllUnavailable
  | Err _ => True
  end.
Proof.
  unfold try_tier. intros <-. destruct (ctx_gone (S i)); [done|].
  destruct (scan g byID ids [] false) as [[found unc]|e] eqn:Hs; simpl.
  - apply scan_spec in Hs as (H1 & H2 & H3). case_bool_decide as Hf.
    + left. split_and!; try done; simpl.
      * destruct found as [|[id a] found]; [done|]. simpl. set_solver.
      * intros id. rewrite elem_of_list_to_set, list_elem_of_fmap. split.
        -- intros ([k' a] & -> & [?|[? ?]]%H1); [set_solver|]. eauto.
        -- intros (Hid & a & Ha). exists (id, a). split; [done|]. apply H1. by right.
      * intros a. rewrite list_elem_of_fmap. split.
        -- intros ([k' b] & -> & [?|[? ?]]%H1); [set_solver|]. eauto.
        -- intros (id & Hid & Ha). exists (id, a). split; [done|]. apply H1. by right.
    + destruct unc; [done|].
      assert (all_evidence g byID ids).
      { intros id Hid. destruct (H2 eq_refl) as [_ H2'].
        pose proof (H2' _ Hid). pose proof (H3 _ Hid).
        destruct (judge g byID id) as [a|r| |] eqn:Hj; try done; [|eauto].
        assert ((id, a) ∈ found) by (apply H1; by right).
        destruct (decide (found = [])) as [->|]; [set_solver|done]. }
      destruct k as [st|[]]; auto.
  - enough (e ≠ AllUnavailable) by (by destruct e).
    clear -Hs. revert Hs. generalize (@nil (Z * Account)) false.
    induction ids as [|id ids IH]; intros f u; simpl; [done|].
    destruct (judge g byID id); [apply IH..|by intros [= <-]].
Qed.

(** The tiers in order, the implicit one last. *)
Definition tier_at (g : Z) (byID : gmap Z Account) (assigned : gset Z) (tiers : list (list Z))
    (k : nat) (ids : list Z) (byID' : gmap Z Account) : Prop :=
  (tiers !! k = Some ids ∧ byID' = byID) ∨
  (k = length tiers ∧ ∃ members, ListByGroup g = Some members ∧
     unassigned g members assigned byID = (ids, byID')).

Lemma tier_at_S g byID assigned ids0 tiers k ids byID' :
  tier_at g byID assigned (ids0 :: tiers) (S k) ids byID' ↔
  tier_at g byID assigned tiers k ids byID'.
Proof.
  unfold tier_at. simpl. split; intros [?|[Hk ?]]; [by left|right|by left|right];
    (split; [lia|done]).
Qed.

Lemma walk_spec g byID assigned tiers : ∀ i,
  match walk g byID assigned i tiers with
  | Ok st => ∃ k ids byID', tier_at g byID assigned tiers k ids byID' ∧
      tier_result g (i + k) byID' ids st ∧
      ∀ j ids' byID'', (j < k)%nat → tier_at g byID assigned tiers j ids' byID'' →
        all_evidence g byID'' ids'
  | Err AllUnavailable => ∀ k ids byID', tier_at g byID assigned tiers k ids byID' →
      all_evidence g byID' ids
  | Err _ => True
  end.
Proof.
  induction tiers as [|ids0 tiers IH]; intros i; cbn [walk].
  - destruct (ListByGroup g) as [members|] eqn:HL; [|done].
    destruct (unassigned g members assigned byID) as [ids byID'] eqn:HU.
    pose proof (try_tier_spec g i byID' ids (Err AllUnavailable) _ eq_refl) as Ht.
    destruct (try_tier g i byID' ids (Err AllUnavailable)) as [st|[]]; try done.
    + destruct Ht as [Ht|[_ Ht]]; [|done]. exists O, ids, byID'. split_and!.
      * right. eauto.
      * by rewrite Nat.add_0_r.
      * intros j ? ? ?. lia.
    + intros k ids' b [[? _]|(_ & m & Hm & Hu)]; [done|].
      rewrite HL in Hm. injection Hm as <-. rewrite HU in Hu. injection Hu as <- <-. by destruct Ht.
  - pose proof (try_tier_spec g i byID ids0 (walk g byID assigned (S i) tiers) _ eq_refl) as Ht.
    destruct (try_tier _ _ _ _ _) as [st|[]]; try done.
    + destruct Ht as [Ht|[Hall Hw]].
      * exists O, ids0, byID. split_and!; [by left|by rewrite Nat.add_0_r|]. intros; lia.
      * specialize (IH (S i)). rewrite Hw in IH. destruct IH as (k & ids & b & H1 & H2 & H3).
        exists (S k), ids, b. split_and!; [by apply tier_at_S| |].
        -- by replace (i + S k)%nat with (S i + k)%nat by lia.
        -- intros [|j] ids' b' Hj; [|rewrite tier_at_S; apply H3; lia].
           intros [[[= <-] ->]|[? _]]; [done|done].
    + destruct Ht as [Hall Hw]. specialize (IH (S i)). rewrite Hw in IH.
      intros [|k] ids b; [|rewrite tier_at_S; apply IH].
      intros [[[= <-] ->]|[? _]]; [done|done].
Qed.

(** The tiers of a group as a request reads them. *)
Definition group_tier (gr : group) (k : nat) (ids : list Z) (byID : gmap Z Account) : Prop :=
  ∃ rows, GetByIDs (concat (Tiers (g_strict gr))) = Some rows ∧
    tier_at (g_id gr) (index_accounts rows) (list_to_set (concat (Tiers (g_strict gr))))
            (Tiers (g_strict gr)) k ids byID.

(** ** What the verdicts mean *)

(** The account can serve the request. *)
Definition can_serve (g : Z) (byID : gmap Z Account) (id : Z) (a : Account) : Prop :=
  byID !! id = Some a ∧ id ∉ excluded ∧ in_group g a = true ∧ schedulable a = true ∧
  unavailable a = Some "" ∧ vetoReason a = "".

(** The account is proved unavailable: one that was excluded earlier in the request, by
    a failure that was recorded or by the profit gate; another one, because it is gone,
    left the group, cannot be scheduled, or is refused by the callback or the gate. *)
Definition proved_down (g : Z) (byID : gmap Z Account) (id : Z) : Prop :=
  if decide (id ∈ excluded)
  then failureOf id ≠ "" ∨ ∃ a, byID !! id = Some a ∧ in_group g a = true ∧ vetoReason a ≠ ""
  else byID !! id = None ∨
       ∃ a, byID !! id = Some a ∧
         (in_group g a = false ∨ schedulable a = false ∨
          ∃ r, unavailable a = Some r ∧ (r ≠ "" ∨ vetoReason a ≠ "")).

Lemma settle_spec b r :
  (∀ a, settle b r = Available a ↔ a = b ∧ r = "" ∧ vetoReason b = "") ∧
  ((∃ e, settle b r = Evidence e) ↔ r ≠ "" ∨ vetoReason b ≠ "").
Proof.
  unfold settle. destruct (decide (r = "")) as [->|Hr].
  - rewrite (bool_decide_true ("" = "")) by done. cbv iota. case_bool_decide; split; naive_solver.
  - rewrite (bool_decide_false (r = "")) by done. cbv iota. rewrite bool_decide_false by done. split; naive_solver.
Qed.

Section reasons.
Context (Hreason : ∀ a, unavailableReason a ≠ "").

Lemma judge_can_serve g byID id a : judge g byID id = Available a ↔ can_serve g byID id a.
Proof using Hreason.
  split.
  - intros Hj. destruct (judge_available g byID id a Hj) as (H1 & H2 & H3 & H4 & H5).
    assert (schedulable a = true) as Hs; [|unfold can_serve; auto 10].
    unfold judge in Hj. rewrite bool_decide_false, H2, H3 in Hj by done. destruct (schedulable a); [done|].
    simpl in Hj. apply settle_spec in Hj as (_ & Hr & _). by apply Hreason in Hr.
  - intros (H1 & H2 & H3 & H4 & H5 & H6). unfold judge. rewrite bool_decide_false, H1, H3, H4, H5 by done. simpl. by apply settle_spec.
Qed.

Lemma judge_proved_down g byID id r : judge g byID id = Evidence r → proved_down g byID id.
Proof using Hreason.
  intros Hj. unfold proved_down. case_decide as Hex; [by eapply judge_excluded|].
  unfold judge in Hj. rewrite bool_decide_false in Hj by done. destruct (byID !! id) as [a|]; [right|by left]. exists a. split; [done|].
  destruct (in_group g a); simpl in Hj; [right|by left]. destruct (schedulable a); simpl in Hj; [right|by left].
  destruct (unavailable a) as [e|]; [|done]. exists e. split; [done|]. apply settle_spec. by exists r.
Qed.
End reasons.

Lemma chosen_tier repo_present gr fl fl' st :
  prepareStrictFailover repo_present (Some gr) fl = (fl', Ok (Some st)) →
  StrictFailoverRequestActive fl' = bool_decide (is_Some fl) ∧
  ∃ k ids byID, group_tier gr k ids byID ∧ tier_result (g_id gr) k byID ids st ∧
    ∀ j ids' byID', (j < k)%nat → group_tier gr j ids' byID' → all_evidence (g_id gr) byID' ids'.
Proof.
  unfold prepareStrictFailover.
  destruct (Enabled (g_strict gr)) eqn:He; [|done]. cbn [negb].
  destruct (validateStrictFailoverShape _); [|done].
  destruct (negb repo_present); [done|].
  destruct (GetByIDs _) as [rows|] eqn:HG; [|done].
  destruct (ctx_gone 0); [done|]. intros [= <- Hw].
  split; [destruct fl; done|].
  pose proof (walk_spec (g_id gr) (index_accounts rows) (list_to_set (concat (Tiers (g_strict gr))))
                (Tiers (g_strict gr)) 0) as Hspec.
  destruct (walk _ _ _ _ _) as [st'|]; [|done]. simpl in Hw. simplify_eq.
  destruct Hspec as (k & ids & b & H1 & H2 & H3). exists k, ids, b. split_and!.
  - by exists rows.
  - done.
  - intros j ids' b' Hj (rows' & Hr & Ht). simplify_eq. eauto.
Qed.

(** A request is told that every tier is down, which alone lets it leave the
    group, only when each account of each tier, the unassigned members
    included, is unavailable on evidence; an account excluded earlier in the
    request counts only if its failure was proved or the profit gate vetoes it. *)
Theorem strict_exhaustion_needs_evidence repo_present gr fl fl' :
  prepareStrictFailover repo_present (Some gr) fl = (fl', Err AllUnavailable) →
  ∀ k ids byID, group_tier gr k ids byID →
    all_evidence (g_id gr) byID ids ∧
    ∀ id, id ∈ ids → id ∈ excluded →
      failureOf id ≠ "" ∨
      ∃ a, byID !! id = Some a ∧ in_group (g_id gr) a = true ∧ vetoReason a ≠ "".
Proof.
  unfold prepareStrictFailover.
  destruct (Enabled (g_strict gr)) eqn:He; [|done]. cbn [negb].
  destruct (validateStrictFailoverShape _); [|done].
  destruct (negb repo_present); [done|].
  destruct (GetByIDs _) as [rows|] eqn:HG; [|done].
  destruct (ctx_gone 0); [done|]. intros [= _ Hw] k ids b (rows' & Hr & Ht).
  rewrite HG in Hr. injection Hr as <-.
  pose proof (walk_spec (g_id gr) (index_accounts rows) (list_to_set (concat (Tiers (g_strict gr))))
                (Tiers (g_strict gr)) 0) as Hspec.
  destruct (walk _ _ _ _ _) as [st'|e]; [done|]. simpl in Hw. injection Hw as ->.
  specialize (Hspec _ _ _ Ht). split; [done|].
  intros id Hid Hex. destruct (Hspec _ Hid) as [r Hj]. by eapply judge_excluded.
Qed.

End Prepare.

(** ** Properties *)

Section tiers.
Context (quota_exhausted : Account → bool) (keys : Account → bytes → list bytes) (overages : Account → bool).
Context (now now' : time) (public model : bytes).
Context (GetByIDs : list Z → option (list (option Account))) (ListByGroup : Z → option (list Account)) (excluded : gset Z)
        (failureOf : Z → string) (vetoReason : Account → string) (unavailable : Account → option string) (ctx_gone : nat → bool).

(** The predicates of [service/account.go], at the model of the request. *)
Abbreviation schedulable := (λ a, Account.IsSchedulableForModelWithContext quota_exhausted keys overages now public (Some a) model).
Abbreviation unavailableReason := (λ a, Account.strictAccountUnavailableReason quota_exhausted now' public a model).

(** C36: the tier that a strict request is given is the first that has an account that
    can serve it: it consists of exactly the accounts of that tier that are members of
    the group, not excluded, schedulable for the model, not refused by the request's
    check and not vetoed by the profit gate.  Every account of every earlier tier is
    proved unavailable: one that the request excluded before, by a recorded failure or
    the profit gate - to be excluded is no proof; any other, because it is gone, is no
    member any more, is not schedulable, or is refused or vetoed. *)
Theorem strict_selects_first_live_tier repo_present gr fl fl' st :
  prepareStrictFailover GetByIDs ListByGroup excluded failureOf schedulable unavailableReason vetoReason unavailable ctx_gone
    repo_present (Some gr) fl = (fl', Ok (Some st)) →
  StrictFailoverRequestActive fl' = bool_decide (is_Some fl) ∧
  ∃ k ids byID, group_tier GetByIDs ListByGroup gr k ids byID ∧
    groupID st = g_id gr ∧ tier st = Z.of_nat k + 1 ∧ allowed st ≠ ∅ ∧
    (∀ id, id ∈ allowed st ↔ id ∈ ids ∧ ∃ a, can_serve excluded schedulable vetoReason unavailable (g_id gr) byID id a) ∧
    (∀ a, a ∈ accounts st ↔ ∃ id, id ∈ ids ∧ can_serve excluded schedulable vetoReason unavailable (g_id gr) byID id a) ∧
    ∀ j ids' byID', (j < k)%nat → group_tier GetByIDs ListByGroup gr j ids' byID' →
      ∀ id, id ∈ ids' → proved_down excluded failureOf schedulable vetoReason unavailable (g_id gr) byID' id.
Proof.
  intros Hp. apply chosen_tier in Hp as (Hact & k & ids & byID & Htier & (Hg & Ht & Hne & Hallowed & Haccounts) & Hbefore).
  assert (∀ a, unavailableReason a ≠ "") as Hreason by (intros a; apply Account.strict_reason_nonempty).
  split; [done|]. exists k, ids, byID. split_and!; [done..| | |].
  - intros id. rewrite Hallowed. by setoid_rewrite (judge_can_serve _ _ _ _ _ _ Hreason).
  - intros a. rewrite Haccounts. by setoid_rewrite (judge_can_serve _ _ _ _ _ _ Hreason).
  - intros j ids' byID' Hj Hj' id Hid. destruct (Hbefore j ids' byID' Hj Hj' id Hid) as [r Hr]. by eapply judge_proved_down.
Qed.
End tiers.

(** ** Configuration, owners and recorded failures *)

Lemma shape_tier_spec t : ∀ seen seen',
  shape_tier t seen = Some seen' ↔
  Forall (λ id, 0 < id) t ∧ NoDup t ∧ (∀ x, x ∈ t → x ∉ seen) ∧ seen' = list_to_set t ∪ seen.
Proof.
  induction t as [|id t IH]; intros seen seen'; simpl.
  { split; [intros [= <-]|intros (_ & _ & _ & ->); f_equal; set_solver].
    split_and!; [constructor|constructor|by intros ? ?%not_elem_of_nil|set_solver]. }
  rewrite Forall_cons, NoDup_cons.
  destruct ((id <=? 0) || bool_decide (id ∈ seen)) eqn:E.
  - split; [done|]. intros ([? _] & _ & Hn & _). exfalso.
    apply orb_true_iff in E as [E|E]; bool_hyp; [lia|]. by apply (Hn id); [apply list_elem_of_here|].
  - bool_hyp. rewrite IH. split.
    + intros (? & ? & Hn & ->). split_and!; try done; [set_solver| |set_solver].
      intros x [->|Hx]%elem_of_cons; [done|]. apply Hn in Hx. set_solver.
    + intros ([? ?] & [? ?] & Hn & ->). split_and!; try done; [|set_solver].
      intros x Hx. pose proof (Hn x (list_elem_of_further _ _ _ Hx)). set_solver.
Qed.

Lemma shape_tiers_spec ts : ∀ seen seen',
  shape_tiers ts seen = Ok seen' ↔
  Forall (λ t, t ≠ []) ts ∧ Forall (λ id, 0 < id) (concat ts) ∧ NoDup (concat ts) ∧
  (∀ x, x ∈ concat ts → x ∉ seen) ∧ seen' = list_to_set (concat ts) ∪ seen.
Proof.
  induction ts as [|t ts IH]; intros seen seen'; simpl.
  { split; [intros [= <-]|intros (_ & _ & _ & _ & ->); f_equal; set_solver].
    split_and!; try constructor; [by intros ? ?%not_elem_of_nil|set_solver]. }
  rewrite Forall_cons, Forall_app, NoDup_app.
  case_bool_decide as Ht; [naive_solver|].
  destruct (shape_tier t seen) as [s1|] eqn:E.
  - apply shape_tier_spec in E as (H1 & H2 & H3 & ->). rewrite IH. split.
    + intros (? & ? & ? & Hn & ->). split_and!; try done.
      * intros x Hx Hc. apply Hn in Hc. set_solver.
      * intros x [Hx|Hx]%elem_of_app; [by apply H3|]. apply Hn in Hx. set_solver.
      * set_solver.
    + intros ([? ?] & [? ?] & (? & Hd & ?) & Hn & ->). split_and!; try done.
      * intros x Hx. pose proof (Hn x (proj2 (elem_of_app _ _ _) (or_intror Hx))).
        intros [Hx'%elem_of_list_to_set|?]%elem_of_union; [by apply (Hd x)|done].
      * set_solver.
  - split; [done|]. intros ([? ?] & [? ?] & (? & Hd & ?) & Hn & ->). exfalso.
    assert (shape_tier t seen = Some (list_to_set t ∪ seen)); [|congruence].
    apply shape_tier_spec. split_and!; try done. intros x Hx. apply Hn. set_solver.
Qed.

(** The configurations accepted are exactly those with at most ten
    non-empty tiers over at most a thousand positive ids, each in exactly one
    tier, with a tier at least when enabled. *)
Theorem validate_shape_spec cfg :
  validateStrictFailoverShape cfg = Ok tt ↔
  (Enabled cfg = true → Tiers cfg ≠ []) ∧ (length (Tiers cfg) ≤ 10)%nat ∧
  Forall (λ t, t ≠ []) (Tiers cfg) ∧ Forall (λ id, 0 < id) (concat (Tiers cfg)) ∧
  NoDup (concat (Tiers cfg)) ∧ (length (concat (Tiers cfg)) ≤ 1000)%nat.
Proof.
  unfold validateStrictFailoverShape.
  destruct (Enabled cfg && bool_decide (Tiers cfg = [])) eqn:E1.
  { bool_hyp. split; [done|]. intros [Hn _]. exfalso. by apply Hn. }
  assert (Hen : Enabled cfg = true → Tiers cfg ≠ []).
  { intros He. rewrite He in E1. simpl in E1. by bool_hyp. }
  destruct (10 <? length (Tiers cfg))%nat eqn:E2.
  { apply Nat.ltb_lt in E2. split; [done|]. intros (_ & ? & _). lia. }
  apply Nat.ltb_ge in E2.
  assert (Hsz : NoDup (concat (Tiers cfg)) →
    size (list_to_set (concat (Tiers cfg)) ∪ ∅ : gset Z) = length (concat (Tiers cfg))).
  { intros HN. rewrite union_empty_r_L. by rewrite size_list_to_set. }
  split.
  - intros (seen & (? & ? & HN & _ & ->)%shape_tiers_spec & Hs)%rbind_ok.
    rewrite Hsz in Hs by done.
    destruct (1000 <? _)%nat eqn:E3; [done|]. apply Nat.ltb_ge in E3. by split_and!.
  - intros (_ & _ & ? & ? & HN & Hle). apply rbind_ok.
    exists (list_to_set (concat (Tiers cfg)) ∪ ∅). split.
    + apply shape_tiers_spec. split_and!; try done.
    + rewrite Hsz by done. by rewrite (proj2 (Nat.ltb_ge _ _)).
Qed.

(** A continuation bound to an account keeps exactly that account: pinning
    fails unless the owner is in the active tier, and afterwards no other
    account is allowed or listed. *)
Theorem pin_keeps_owner s owner :
  match pinStrictFailoverOwner (Some s) owner with
  | Ok (Some s') =>
      owner ∈ allowed s ∧ allowed s' = {[owner]} ∧ groupID s' = groupID s ∧ tier s' = tier s ∧
      ∀ a, a ∈ accounts s' ↔ a ∈ accounts s ∧ AID a = owner
  | Ok None => False
  | Err e => e = OwnerBound ∧ (owner ≤ 0 ∨ owner ∉ allowed s)
  end.
Proof.
  unfold pinStrictFailoverOwner, strictFailoverAllows.
  destruct ((owner <=? 0) || _) eqn:E.
  - split; [done|]. apply orb_true_iff in E as [E|E]; bool_hyp; auto.
  - bool_hyp. simpl. split_and!; try done. intros a. rewrite list_elem_of_filter. tauto.
Qed.

(** Only a live request's failure that allows another account is recorded,
    only for the account that failed, and only with a reason: the upstream's
    own status 400..599, a typed stream event, or an account-scoped billing or
    credential failure. *)
Theorem record_failure_spec ctx_gone id f fl :
  let fl' := RecordStrictFailoverFailure ctx_gone id (Some f) (Some fl) in
  fl' = Some fl ∨
  (ctx_gone = false ∧ ShouldRetryNextAccount (Some f) = true ∧
   ∃ r, r ≠ "" ∧ fl' = Some (mkFailures (<[id := r]> (reasons fl)) (active fl)) ∧
     (r = strictFailoverReason f ∨
      (400 ≤ ObservedUpstreamStatus f < 600 ∧ r = http_reason (ObservedUpstreamStatus f)) ∨
      (Scope f = GatewayFailureScopeAccount ∧
       (Reason f = UpstreamBillingExhaustedReason ∨ Stage f = GatewayFailureStageAccountAuth)))).
Proof.
  unfold RecordStrictFailoverFailure.
  destruct (ctx_gone || _) eqn:E; [by left|]. bool_hyp.
  case_bool_decide as Hr; [by left|]. right. split_and!; try done.
  exists (failure_reason f). split_and!; try done. unfold failure_reason, IsCredentialFailure.
  destruct (bool_decide (Stage f = _) && _) eqn:E1; bool_hyp; [right; right; auto|].
  destruct (bool_decide (Reason f = _) && _) eqn:E2; bool_hyp; [right; right; auto|].
  destruct ((400 <=? _) && _) eqn:E3; bool_hyp; [right; left; split; [lia|done]|by left].
Qed.

(** ** Concrete runs *)

Definition acct (id g : Z) (status : string) : Account :=
  Account.mkAccount id "openai" status true false false None None None None [g] [] false ∅ ∅ ∅ None 0.

(** Group 1 with the tiers [10, 11] and [20]; 10 failed with an upstream status,
    11 is disabled, 30 is an unassigned member. *)
Definition demo_group : group := mkGroup 1 (mkConfig true [[10; 11]; [20]]).
Definition demo_rows (ids : list Z) : option (list (option Account)) :=
  Some [Some (acct 10 1 "active"); Some (acct 11 1 "disabled"); Some (acct 20 1 "active")].
Definition demo_members (g : Z) : option (list Account) := Some [acct 10 1 "active"; acct 30 1 "active"].

Definition demo_prepare (excluded : gset Z) (failureOf : Z → string) (veto : Account → string) :=
  prepareStrictFailover demo_rows demo_members excluded failureOf
    (λ a, Account.IsSchedulableForModelWithContext (λ _, false) (λ _ m, [m]) (λ _, false) 10 [] (Some a) (lit "gpt"))
    (λ a, Account.strictAccountUnavailableReason (λ _, false) 10 [] a (lit "gpt")) veto (λ _, Some "") (λ _, false)
    true (Some demo_group) (Some (mkFailures ∅ false)).

Definition failed_10 (id : Z) : string := if id =? 10 then "upstream_http_500" else "".

Lemma strict_selects_first_live_tier_witness :
  (** The second tier is chosen once 10 has failed and 11 is inactive... *)
  (match (demo_prepare {[10]} failed_10 (λ _, "")).2 with
   | Ok (Some st) => tier st = 2 ∧ elements (allowed st) = [20] | _ => False end) ∧
  (** ... but not when 10 is merely excluded. *)
  (demo_prepare {[10]} (λ _, "") (λ _, "")).2 = Err (Unconfirmed_tier 1) ∧
  ∃ fl' st, demo_prepare {[10]} failed_10 (λ _, "") = (fl', Ok (Some st)) ∧
    StrictFailoverRequestActive fl' = true.
Proof.
  split_and!; [vm_compute; done|vm_compute; done|].
  destruct (demo_prepare {[10]} failed_10 (λ _, "")) as [fl' [[st|]|]] eqn:E.
  2-3: exfalso; revert E; vm_compute; discriminate.
  exists fl', st. split; [done|].
  by destruct (strict_selects_first_live_tier (λ _, false) (λ _ m, [m]) (λ _, false) 10 10 [] (lit "gpt") demo_rows demo_members {[10]} failed_10
    (λ _, "") (λ _, Some "") (λ _, false) true demo_group (Some (mkFailures ∅ false)) fl' st E) as [-> _].
Defined.

Lemma strict_exhaustion_needs_evidence_witness :
  (demo_prepare {[10; 20; 30]} (λ _, "upstream_http_503") (λ _, "")).2 = Err AllUnavailable ∧
  ∀ k ids byID, group_tier demo_rows demo_members demo_group k ids byID →
    ∀ id, id ∈ ids → id ∈ ({[10; 20; 30]} : gset Z) →
      ("upstream_http_503" ≠ "" ∨
       ∃ a, byID !! id = Some a ∧ in_group 1 a = true ∧ "" ≠ "").
Proof.
  assert (H : (demo_prepare {[10; 20; 30]} (λ _, "upstream_http_503") (λ _, "")).2
              = Err AllUnavailable) by (vm_compute; reflexivity).
  split; [exact H|]. intros k ids b Ht.
  destruct (demo_prepare {[10; 20; 30]} (λ _, "upstream_http_503") (λ _, "")) as [fl' r] eqn:E.
  simpl in H. subst r.
  exact (proj2 (strict_exhaustion_needs_evidence _ _ _ _ _ _ _ _ _ _ _ _ _ E k ids b Ht)).
Defined.

End StrictFailover.
