(* ===== verification/Failover.v ===== *)
(** * The failover loop of a request

    Models [handler/failover_loop.go]: the state every handler threads through
    its select / forward loop, and the three decisions taken on it
    ([RecordProfitVeto], [HandleFailoverError], [HandleSelectionExhausted]).  The
    loop itself, as [handler/gateway_handler.go] runs it, is a step relation
    over these decisions. *)

From S2P Require Import Prelude GoStrings UpstreamError Interfaces UpstreamRetry Account StrictFailover.

Module Failover.
Import UpstreamError UpstreamRetry.

Inductive FailoverAction := FailoverContinue | FailoverExhausted | FailoverCanceled.

Definition maxSameAccountRetries : Z := 3.
Definition sameAccountRetryDelay : duration := 500 * millisecond.
Definition maxRequestScopedRetryDelay : duration := 8 * second.
Definition singleAccountBackoffDelay : duration := 2 * second.
Definition maxProfitVetoAttempts : Z := 10.

(** ** Delays and same-account retries *)

(** The doubling loop, with [n] rounds left. *)
Fixpoint doubling (n : nat) (delay : duration) : duration :=
  match n with
  | O => delay
  | S n => if maxRequestScopedRetryDelay / 2 <=? delay then maxRequestScopedRetryDelay
           else doubling n (delay * 2)
  end.

Definition sameAccountRetryDelayFor (f : option UpstreamFailoverError) (retryCount : Z) : duration :=
  match f with
  | None => sameAccountRetryDelay
  | Some e =>
      if 0 <? SameAccountRetryDelay e then SameAccountRetryDelay e
      else if negb (RequestScopedTransient e) || (retryCount <=? 1) then sameAccountRetryDelay
      else doubling (Z.to_nat (retryCount - 1)) sameAccountRetryDelay
  end.

Definition has_deadline (e : UpstreamFailoverError) : bool :=
  negb (SameAccountRetryDeadline e =? zero_time).

Definition sameAccountRetryDeadlineAllows (now : time) (f : option UpstreamFailoverError) : bool :=
  match f with
  | None => true
  | Some e => negb (has_deadline e) || before now (SameAccountRetryDeadline e)
  end.

Definition sameAccountRetryAllowed (now : time) (f : option UpstreamFailoverError)
    (retryCount retryLimit : Z) : bool :=
  match f with
  | None => false
  | Some e =>
      if negb (RetryableOnSameAccount e) then false
      else if negb (sameAccountRetryDeadlineAllows now f) then false
      else if 0 <? SameAccountRetryMax e then
        if retryLimit <=? 0 then false
        else retryCount <? (if SameAccountRetryMax e <? retryLimit
                            then SameAccountRetryMax e else retryLimit)
      else if has_deadline e then true
      else (0 <? retryLimit) && (retryCount <? retryLimit)
  end.

(** [limit] is [account.GetPoolModeRetryCount()], [None] without an account. *)
Definition effectiveSameAccountRetryLimit (f : option UpstreamFailoverError) (limit : option Z) : Z :=
  match limit with
  | None => 0
  | Some limit =>
      match f with
      | Some e => if (0 <? limit) && (0 <? SameAccountRetryMax e) && (SameAccountRetryMax e <? limit)
                  then SameAccountRetryMax e else limit
      | None => limit
      end
  end.

Definition needForceCacheBilling (hasBoundSession : bool) (f : option UpstreamFailoverError)
    (sameAccountRetry : bool) : bool :=
  (hasBoundSession && negb sameAccountRetry)
  || match f with Some e => ForceCacheBilling e | None => false end.

(** ** State *)

Record FailoverState := mkFS {
  SwitchCount : Z;
  MaxSwitches : Z;
  FailedAccountIDs : gset Z;
  SameAccountRetryCount : gmap Z Z;
  LastFailoverErr : option UpstreamFailoverError;
  forceCacheBilling : bool;
  hasBoundSession : bool;
  accountSwitchPinned : bool;
  profitVetoedAccountIDs : gset Z;
  profitVetoCount : Z
}.

Definition NewFailoverState (maxSwitches : Z) (bound : bool) : FailoverState :=
  mkFS 0 maxSwitches ∅ ∅ None false bound false ∅ 0.

Definition set_failed (s : FailoverState) (ids : gset Z) : FailoverState :=
  mkFS (SwitchCount s) (MaxSwitches s) ids (SameAccountRetryCount s) (LastFailoverErr s)
    (forceCacheBilling s) (hasBoundSession s) (accountSwitchPinned s)
    (profitVetoedAccountIDs s) (profitVetoCount s).
Definition set_switches (s : FailoverState) (n : Z) : FailoverState :=
  mkFS n (MaxSwitches s) (FailedAccountIDs s) (SameAccountRetryCount s) (LastFailoverErr s)
    (forceCacheBilling s) (hasBoundSession s) (accountSwitchPinned s)
    (profitVetoedAccountIDs s) (profitVetoCount s).
Definition set_retries (s : FailoverState) (m : gmap Z Z) : FailoverState :=
  mkFS (SwitchCount s) (MaxSwitches s) (FailedAccountIDs s) m (LastFailoverErr s)
    (forceCacheBilling s) (hasBoundSession s) (accountSwitchPinned s)
    (profitVetoedAccountIDs s) (profitVetoCount s).
Definition set_last (s : FailoverState) (e : option UpstreamFailoverError) : FailoverState :=
  mkFS (SwitchCount s) (MaxSwitches s) (FailedAccountIDs s) (SameAccountRetryCount s) e
    (forceCacheBilling s) (hasBoundSession s) (accountSwitchPinned s)
    (profitVetoedAccountIDs s) (profitVetoCount s).
Definition set_cache_billing (s : FailoverState) (b : bool) : FailoverState :=
  mkFS (SwitchCount s) (MaxSwitches s) (FailedAccountIDs s) (SameAccountRetryCount s)
    (LastFailoverErr s) b (hasBoundSession s) (accountSwitchPinned s)
    (profitVetoedAccountIDs s) (profitVetoCount s).
Definition set_vetoes (s : FailoverState) (ids : gset Z) (n : Z) : FailoverState :=
  mkFS (SwitchCount s) (MaxSwitches s) (FailedAccountIDs s) (SameAccountRetryCount s)
    (LastFailoverErr s) (forceCacheBilling s) (hasBoundSession s) (accountSwitchPinned s) ids n.

Definition retries_of (s : FailoverState) (id : Z) : Z := default 0 (SameAccountRetryCount s !! id).

(** ** Profit vetoes *)

(** [strict] is [strictFailoverTraversal(requestCtx...)]. *)
Definition RecordProfitVeto (strict : bool) (accountID : Z) (s : FailoverState)
    : FailoverAction * FailoverState :=
  if bool_decide (accountID ∈ FailedAccountIDs s) && strict then (FailoverExhausted, s)
  else
    let s := set_failed s ({[accountID]} ∪ FailedAccountIDs s) in
    let s := set_vetoes s ({[accountID]} ∪ profitVetoedAccountIDs s) (profitVetoCount s + 1) in
    if (maxProfitVetoAttempts <=? profitVetoCount s) && negb strict then (FailoverExhausted, s)
    else (FailoverContinue, s).

Definition accountSwitchBudgetExhausted (strict : bool) (switches maximum : Z) : bool :=
  (maximum <=? switches) && negb strict.

Definition antigravityAccountSwitchDelay (strict : bool) (switches : Z) : duration :=
  let delay := (switches - 1) * second in
  if strict && (maxRequestScopedRetryDelay <? delay) then maxRequestScopedRetryDelay else delay.

Definition allExclusionsAreProfitVetoed (s : FailoverState) : bool :=
  if bool_decide (profitVetoedAccountIDs s = ∅) || bool_decide (FailedAccountIDs s = ∅) then false
  else bool_decide (FailedAccountIDs s ⊆ profitVetoedAccountIDs s).

(** [sleepWithContext]: a wait that is not positive always succeeds. *)
Definition sleepWithContext (d : duration) (fired : bool) : bool := (d <=? 0) || fired.

Section Handler.
Context {M S : Type} `{RequestRetry M S}.

(** What one call of [HandleFailoverError] meets: the account that failed and
    its error, the clock and the contexts. *)
Record failure_event := mkEvent {
  fe_account : Z;
  fe_platform : string;
  fe_limit : Z;
  fe_err : option UpstreamFailoverError;
  fe_ctx_gone : bool;
  fe_moment : M;
  fe_now : time;
  fe_fired : bool;          (** the sleep of this call ends by its timer *)
  fe_record_gone : bool     (** the context is done when the failure is recorded *)
}.

(** A request: the loop's state, the strict failover's record, the budget of the
    retry policy, and the accounts temporarily unscheduled so far. *)
Record request := mkRequest {
  rq_state : FailoverState;
  rq_failures : option StrictFailover.strictFailoverFailures;
  rq_budget : S;
  rq_unscheduled : list Z
}.

Definition rq_strict (r : request) : bool :=
  StrictFailover.StrictFailoverRequestActive (rq_failures r).

Definition with_state (r : request) (s : FailoverState) : request :=
  mkRequest s (rq_failures r) (rq_budget r) (rq_unscheduled r).

Definition HandleFailoverError (ev : failure_event) (r : request) : FailoverAction * request :=
  let f := fe_err ev in
  let id := fe_account ev in
  if fe_ctx_gone ev then (FailoverCanceled, r)
  else
    let r := with_state r (set_last (rq_state r) f) in
    match f with
    | None => (FailoverExhausted, r)
    | Some e =>
      if negb (ShouldRetryNextAccount f) then (FailoverExhausted, r)
      else
        let '(claimed, err, budget) := try_retry (fe_moment ev) f (rq_budget r) in
        let r := mkRequest (rq_state r) (rq_failures r) budget (rq_unscheduled r) in
        if claimed : bool then (if err : bool then FailoverCanceled else FailoverContinue, r)
        else
          let s := rq_state r in
          let retryCount := retries_of s id in
          let sameAccountRetry := sameAccountRetryAllowed (fe_now ev) f retryCount (fe_limit ev) in
          let s := if needForceCacheBilling (hasBoundSession s) f sameAccountRetry
                   then set_cache_billing s true else s in
          if sameAccountRetry then
            let s := set_retries s (<[id := retryCount + 1]> (SameAccountRetryCount s)) in
            let retryDelay := sameAccountRetryDelayFor f (retries_of s id) in
            (if sleepWithContext retryDelay (fe_fired ev) then FailoverContinue
             else FailoverCanceled, with_state r s)
          else
            let unscheduled := if RetryableOnSameAccount e then rq_unscheduled r ++ [id]
                               else rq_unscheduled r in
            let failures := StrictFailover.RecordStrictFailoverFailure (fe_record_gone ev) id f
                              (rq_failures r) in
            let s := set_failed s ({[id]} ∪ FailedAccountIDs s) in
            let r := mkRequest s failures (rq_budget r) unscheduled in
            if accountSwitchPinned s
               || accountSwitchBudgetExhausted (rq_strict r) (SwitchCount s) (MaxSwitches s)
            then (FailoverExhausted, r)
            else
              let s := set_switches s (SwitchCount s + 1) in
              let r := with_state r s in
              if bool_decide (fe_platform ev = "antigravity")
                 && negb (sleepWithContext
                            (antigravityAccountSwitchDelay (rq_strict r) (SwitchCount s))
                            (fe_fired ev))
              then (FailoverCanceled, r)
              else (FailoverContinue, r)
    end.

Definition HandleSelectionExhausted (ctx_gone fired : bool) (r : request)
    : FailoverAction * request :=
  let s := rq_state r in
  if ctx_gone then (FailoverCanceled, r)
  else if rq_strict r then (FailoverExhausted, r)
  else
    match LastFailoverErr s with
    | None => (FailoverExhausted, r)
    | Some e =>
        if (StatusCode e =? StatusServiceUnavailable) && (SwitchCount s <=? MaxSwitches s) then
          if allExclusionsAreProfitVetoed s then (FailoverExhausted, r)
          else if negb (sleepWithContext singleAccountBackoffDelay fired)
          then (FailoverCanceled, r)
          else (FailoverContinue, with_state r (set_failed s (profitVetoedAccountIDs s)))
        else (FailoverExhausted, r)
    end.

(** ** The loop of the handlers

    One round that goes on, from one moment to a later one: the selection found no
    account and backs off (the caller answers at once when nothing was excluded), or it
    found one, which the profit gate then vetoes or the upstream fails.  In strict mode
    the selection offers no excluded account.  [cands] are the accounts of the group, [L]
    bounds the configured same-account retries. *)

(** An error that opens a window of time in which its account is retried however often:
    it has a deadline, and no number of its own. *)
Definition open_window (e : UpstreamFailoverError) : Prop :=
  RetryableOnSameAccount e = true ∧ has_deadline e = true ∧ SameAccountRetryMax e ≤ 0.

(** The wait before a same-account retry, which its timer has ended. *)
Definition pause (ev : failure_event) (r r' : request) : duration :=
  if bool_decide (retries_of (rq_state r') (fe_account ev) = retries_of (rq_state r) (fe_account ev) + 1)
  then sameAccountRetryDelayFor (fe_err ev) (retries_of (rq_state r') (fe_account ev)) else 0.

Section loop.
(** The window of each account ends at [closes]; [tick] is the shortest wait in it. *)
Context (cands : list Z) (L : Z) (closes : Z → time) (tick : duration).

(** An error's own wait is a tick at least, or lasts to the end of its window. *)
Definition window_ok (ev : failure_event) (e : UpstreamFailoverError) : Prop :=
  SameAccountRetryDeadline e ≤ closes (fe_account ev) ∧
  (0 < SameAccountRetryDelay e →
     tick ≤ SameAccountRetryDelay e ∨ closes (fe_account ev) ≤ fe_now ev + SameAccountRetryDelay e).

Definition event_ok (strict : bool) (s : FailoverState) (ev : failure_event) : Prop :=
  fe_account ev ∈ cands ∧ fe_limit ev ≤ L ∧ retry_ok (fe_moment ev) ∧
  (∀ e, fe_err ev = Some e → open_window e → window_ok ev e) ∧
  (strict = true → fe_account ev ∉ FailedAccountIDs s).

Inductive round : time → request → time → request → Prop :=
  | round_exhausted t r t' r' ctx_gone fired :
      t ≤ t' → FailedAccountIDs (rq_state r) ≠ ∅ →
      HandleSelectionExhausted ctx_gone fired r = (FailoverContinue, r') → round t r t' r'
  | round_veto t r t' s' id :
      t ≤ t' → id ∈ cands →
      RecordProfitVeto (rq_strict r) id (rq_state r) = (FailoverContinue, s') →
      round t r t' (with_state r s')
  | round_failure t r t' r' ev :
      t ≤ fe_now ev → fe_now ev + pause ev r r' ≤ t' → event_ok (rq_strict r) (rq_state r) ev →
      HandleFailoverError ev r = (FailoverContinue, r') → round t r t' r'.

Inductive rounds : nat → time → request → time → request → Prop :=
  | rounds_nil t r : rounds 0 t r t r
  | rounds_cons n t1 r1 t2 r2 t3 r3 :
      round t1 r1 t2 r2 → rounds n t2 r2 t3 r3 → rounds (Datatypes.S n) t1 r1 t3 r3.
End loop.

(** ** Lemmas *)

Lemma record_active ctx id f fl :
  StrictFailover.StrictFailoverRequestActive
    (StrictFailover.RecordStrictFailoverFailure ctx id f fl)
  = StrictFailover.StrictFailoverRequestActive fl.
Proof.
  unfold StrictFailover.RecordStrictFailoverFailure. destruct f; [|done].
  repeat case_match; try done. by destruct fl.
Qed.

(** The ways [HandleFailoverError] goes on. *)
Inductive went_on (ev : failure_event) (e : UpstreamFailoverError) (r r' : request) : Prop :=
  | by_policy budget :
      try_retry (fe_moment ev) (Some e) (rq_budget r) = (true, false, budget) →
      r' = mkRequest (set_last (rq_state r) (Some e)) (rq_failures r) budget (rq_unscheduled r) →
      went_on ev e r r'
  | by_same_account budget err billing :
      try_retry (fe_moment ev) (Some e) (rq_budget r) = (false, err, budget) →
      sameAccountRetryAllowed (fe_now ev) (Some e) (retries_of (rq_state r) (fe_account ev))
        (fe_limit ev) = true →
      billing = forceCacheBilling (rq_state r) || ForceCacheBilling e →
      r' = mkRequest
             (set_retries (set_cache_billing (set_last (rq_state r) (Some e)) billing)
                (<[fe_account ev := retries_of (rq_state r) (fe_account ev) + 1]>
                   (SameAccountRetryCount (rq_state r))))
             (rq_failures r) budget (rq_unscheduled r) →
      went_on ev e r r'
  | by_switch budget err billing :
      try_retry (fe_moment ev) (Some e) (rq_budget r) = (false, err, budget) →
      sameAccountRetryAllowed (fe_now ev) (Some e) (retries_of (rq_state r) (fe_account ev))
        (fe_limit ev) = false →
      accountSwitchPinned (rq_state r) = false →
      (rq_strict r = false → SwitchCount (rq_state r) < MaxSwitches (rq_state r)) →
      billing = forceCacheBilling (rq_state r) || hasBoundSession (rq_state r) || ForceCacheBilling e →
      r' = mkRequest
             (set_switches
                (set_failed (set_cache_billing (set_last (rq_state r) (Some e)) billing)
                   ({[fe_account ev]} ∪ FailedAccountIDs (rq_state r)))
                (SwitchCount (rq_state r) + 1))
             (StrictFailover.RecordStrictFailoverFailure (fe_record_gone ev) (fe_account ev)
                (Some e) (rq_failures r))
             budget
             (rq_unscheduled r ++ if RetryableOnSameAccount e then [fe_account ev] else []) →
      went_on ev e r r'.

Lemma cache_billing_if (b : bool) s :
  (if b then set_cache_billing s true else s) = set_cache_billing s (forceCacheBilling s || b).
Proof. destruct s, b; simpl; unfold set_cache_billing; simpl; by rewrite ?orb_true_r, ?orb_false_r. Qed.

Lemma handle_continue ev r r' :
  HandleFailoverError ev r = (FailoverContinue, r') →
  fe_ctx_gone ev = false ∧
  ∃ e, fe_err ev = Some e ∧ ShouldRetryNextAccount (Some e) = true ∧ went_on ev e r r'.
Proof.
  unfold HandleFailoverError. destruct (fe_ctx_gone ev) eqn:Hg; [done|].
  destruct (fe_err ev) as [e|] eqn:He; [|done].
  destruct (ShouldRetryNextAccount (Some e)) eqn:Hs; [|done]. cbn [negb].
  destruct (try_retry (fe_moment ev) (Some e) _) as [[claimed err] budget] eqn:Ht.
  cbn [with_state rq_state rq_budget rq_failures rq_unscheduled] in *.
  intros Hc. split; [done|]. exists e. split_and!; [done..|]. revert Hc.
  destruct claimed.
  { destruct err; [done|]. intros [= <-]. by eapply by_policy. }
  change (retries_of (set_last (rq_state r) (Some e)) (fe_account ev))
    with (retries_of (rq_state r) (fe_account ev)).
  rewrite cache_billing_if. unfold needForceCacheBilling.
  destruct (sameAccountRetryAllowed _ _ _ _) eqn:Ha; cbn [negb].
  - case_match; [|done]. intros [= <-]. eapply by_same_account; [done..|].
    by rewrite andb_false_r.
  - rewrite andb_true_r. unfold rq_strict, with_state, accountSwitchBudgetExhausted.
    cbn [rq_failures rq_state rq_budget rq_unscheduled]. rewrite record_active.
    match goal with |- context [if ?b then (FailoverExhausted, _) else _] => destruct b eqn:Hx end;
      [done|].
    apply orb_false_iff in Hx as [Hp Hb].
    match goal with |- context [if ?b then (FailoverCanceled, _) else _] => destruct b end; [done|].
    intros [= <-]. eapply by_switch; [done|done|done| |done|].
    + unfold rq_strict. intros Hst. rewrite Hst, andb_true_r in Hb. simpl in Hb. bool_hyp. done.
    + rewrite orb_assoc. by destruct (RetryableOnSameAccount e); rewrite ?app_nil_r.
Qed.
(** What any outcome does to the exclusions, the switches and the cooldowns. *)
Inductive effect (ev : failure_event) (r r' : request) : Prop :=
  | effect_none :
      FailedAccountIDs (rq_state r') = FailedAccountIDs (rq_state r) →
      SwitchCount (rq_state r') = SwitchCount (rq_state r) →
      rq_unscheduled r' = rq_unscheduled r → effect ev r r'
  | effect_excluded e k :
      fe_err ev = Some e →
      FailedAccountIDs (rq_state r') = {[fe_account ev]} ∪ FailedAccountIDs (rq_state r) →
      SwitchCount (rq_state r') = SwitchCount (rq_state r) + k →
      (k = 0 ∨ (k = 1 ∧ (rq_strict r = false →
                         SwitchCount (rq_state r) < MaxSwitches (rq_state r)))) →
      rq_unscheduled r' = rq_unscheduled r ++
        (if RetryableOnSameAccount e then [fe_account ev] else []) →
      effect ev r r'.

Lemma handle_effect ev r : effect ev r (HandleFailoverError ev r).2.
Proof.
  unfold HandleFailoverError. destruct (fe_ctx_gone ev); [by constructor 1|].
  destruct (fe_err ev) as [e|] eqn:He; [|by constructor 1].
  destruct (negb _); [by constructor 1|].
  destruct (try_retry _ _ _) as [[claimed err] budget]. destruct claimed; [by constructor 1|].
  rewrite cache_billing_if. destruct (sameAccountRetryAllowed _ _ _ _); [by constructor 1|].
  match goal with |- context [if ?b then (FailoverExhausted, _) else _] => destruct b eqn:Hx end.
  - apply (effect_excluded _ _ _ e 0); [done|done|simpl; lia|by left|].
    simpl. by destruct (RetryableOnSameAccount e); rewrite ?app_nil_r.
  - apply orb_false_iff in Hx as [_ Hb]. revert Hb. unfold accountSwitchBudgetExhausted, rq_strict, with_state.
    cbn [rq_failures rq_state]. rewrite record_active. intros Hb.
    destruct (_ && negb (sleepWithContext _ _)); simpl;
      (apply (effect_excluded _ _ _ e 1); [done|done|done| |
        simpl; by destruct (RetryableOnSameAccount e); rewrite ?app_nil_r]);
      right; (split; [done|]); unfold rq_strict; intros Hst;
      rewrite Hst, andb_true_r in Hb; simpl in Hb; by bool_hyp.
Qed.

Lemma retry_allowed_bound now e n limit :
  ¬ open_window e → sameAccountRetryAllowed now (Some e) n limit = true → n < limit.
Proof.
  unfold sameAccountRetryAllowed, open_window. intros Hw.
  destruct (RetryableOnSameAccount e); [|done]. simpl.
  destruct (has_deadline e); simpl; repeat case_match; intros; bool_hyp; lia || (destruct Hw; split_and!; lia || done).
Qed.

Lemma doubling_least n d : sameAccountRetryDelay ≤ d → sameAccountRetryDelay ≤ doubling n d.
Proof.
  revert d. induction n as [|n IH]; intros d Hd; simpl; [done|]. case_match; [by vm_compute|].
  apply IH. unfold sameAccountRetryDelay, millisecond in *. lia.
Qed.

Lemma delay_least e n : SameAccountRetryDelay e ≤ 0 → sameAccountRetryDelay ≤ sameAccountRetryDelayFor (Some e) n.
Proof.
  intros Hd. unfold sameAccountRetryDelayFor. rewrite (proj2 (Z.ltb_ge _ _)) by lia. case_match; [done|]. by apply doubling_least.
Qed.

(** *** The retries a window has left *)

Definition window_left (tick : duration) (t closes : time) : Z := if t <? closes then (closes - t - 1) / tick + 1 else 0.

Lemma window_left_nonneg tick t c : 0 < tick → 0 ≤ window_left tick t c.
Proof. intros Ht. unfold window_left. destruct (Z.ltb_spec t c); [|lia]. pose proof (Z.div_pos (c - t - 1) tick ltac:(lia) Ht). lia. Qed.

Lemma window_left_mono tick t t' c : 0 < tick → t ≤ t' → window_left tick t' c ≤ window_left tick t c.
Proof.
  intros Ht Hle. pose proof (window_left_nonneg tick t c Ht). unfold window_left in *. destruct (Z.ltb_spec t' c); [|lia].
  rewrite (proj2 (Z.ltb_lt _ _)) by lia. pose proof (Z.div_le_mono (c - t' - 1) (c - t - 1) tick Ht ltac:(lia)). lia.
Qed.

Lemma window_left_spent tick t now t' c : 0 < tick → t ≤ now → now < c → now + tick ≤ t' ∨ c ≤ t' →
  window_left tick t' c < window_left tick t c.
Proof.
  intros Ht Hle Hlt Ht'. unfold window_left. rewrite (proj2 (Z.ltb_lt t c)) by lia.
  pose proof (Z.div_pos (c - t - 1) tick ltac:(lia) Ht). destruct (Z.ltb_spec t' c) as [Hc|]; [|lia].
  replace ((c - t' - 1) / tick + 1) with ((c - t' - 1 + 1 * tick) / tick) by (by rewrite Z.div_add by lia).
  pose proof (Z.div_le_mono (c - t' - 1 + 1 * tick) (c - t - 1) tick Ht ltac:(lia)). lia.
Qed.

(** *** A measure of the rounds a request has left *)

Lemma delay_pos f n : 0 ≤ sameAccountRetryDelayFor f n.
Proof.
  destruct f as [e|]; [|done]. destruct (decide (0 < SameAccountRetryDelay e)) as [Hp|Hp].
  - unfold sameAccountRetryDelayFor. rewrite (proj2 (Z.ltb_lt _ _) Hp). lia.
  - pose proof (delay_least e n ltac:(lia)). assert (0 ≤ sameAccountRetryDelay) by done. lia.
Qed.

Definition account_retries_left (L : Z) (s : FailoverState) (id : Z) : Z :=
  Z.max 0 (L - retries_of s id).

Definition untried (s : FailoverState) (id : Z) : Z :=
  if decide (id ∈ FailedAccountIDs s) then 0 else 1.

(** Strict requests exclude accounts for good; ordinary ones spend switches and
    vetoes, and a back-off needs an exclusion that is not a veto. *)
Definition exclusions_left (cands : list Z) (strict : bool) (s : FailoverState) : Z :=
  if strict then sumZ (untried s) cands
  else 2 * Z.max 0 (MaxSwitches s - SwitchCount s)
       + Z.max 0 (maxProfitVetoAttempts - profitVetoCount s)
       + (if decide (FailedAccountIDs s ⊆ profitVetoedAccountIDs s) then 0 else 1).

Definition rounds_left (cands : list Z) (L : Z) (r : request) : Z :=
  retries_left (rq_budget r) + sumZ (account_retries_left L (rq_state r)) cands
  + exclusions_left cands (rq_strict r) (rq_state r).

Lemma exclude_left cands id s s' :
  id ∈ cands → id ∉ FailedAccountIDs s →
  FailedAccountIDs s' = {[id]} ∪ FailedAccountIDs s →
  exclusions_left cands true s' < exclusions_left cands true s.
Proof.
  intros Hid Hn Hs'. simpl. apply (sumZ_lt _ _ _ id); [|done|]; unfold untried.
  - intros y. rewrite Hs'. destruct (decide (y ∈ FailedAccountIDs s)) as [Hy|Hy].
    + rewrite decide_True by (apply elem_of_union; by right). lia.
    + case_decide; lia.
  - rewrite Hs'. rewrite decide_True by set_solver. rewrite decide_False by done. lia.
Qed.

Lemma veto_round_left cands L r s' id :
  id ∈ cands → RecordProfitVeto (rq_strict r) id (rq_state r) = (FailoverContinue, s') →
  rounds_left cands L (with_state r s') < rounds_left cands L r.
Proof.
  intros Hid. unfold RecordProfitVeto, rounds_left.
  change (rq_strict (with_state r s')) with (rq_strict r).
  change (rq_budget (with_state r s')) with (rq_budget r).
  change (rq_state (with_state r s')) with s'.
  destruct (bool_decide _ && rq_strict r) eqn:E; [done|]. simpl.
  case_match eqn:E2; [done|]. intros [= <-].
  assert (Hsame : sumZ (account_retries_left L (set_vetoes (set_failed (rq_state r)
      ({[id]} ∪ FailedAccountIDs (rq_state r))) ({[id]} ∪ profitVetoedAccountIDs (rq_state r))
      (profitVetoCount (rq_state r) + 1))) cands
    = sumZ (account_retries_left L (rq_state r)) cands) by done.
  rewrite Hsame. destruct (rq_strict r).
  - rewrite andb_true_r in E. bool_hyp.
    pose proof (exclude_left cands id (rq_state r) (set_vetoes (set_failed (rq_state r)
      ({[id]} ∪ FailedAccountIDs (rq_state r))) ({[id]} ∪ profitVetoedAccountIDs (rq_state r))
      (profitVetoCount (rq_state r) + 1)) Hid ltac:(done) eq_refl) as Hlt.
    by apply Z.add_lt_mono_l.
  - rewrite andb_true_r in E2. bool_hyp. simpl. unfold maxProfitVetoAttempts in *.
    clear E. case_decide as Hn; [case_decide; lia|]. case_decide as Ho; [|lia].
    exfalso. apply Hn. set_solver.
Qed.

Lemma backoff_round_left cands L r r' gone fired :
  FailedAccountIDs (rq_state r) ≠ ∅ →
  HandleSelectionExhausted gone fired r = (FailoverContinue, r') →
  rounds_left cands L r' < rounds_left cands L r ∧ rq_strict r' = rq_strict r ∧
  rq_budget r' = rq_budget r.
Proof.
  intros Hne. unfold HandleSelectionExhausted.
  destruct gone; [done|]. destruct (rq_strict r) eqn:Hst; [done|].
  destruct (LastFailoverErr _) as [e|]; [|done]. destruct (_ && _); [|done].
  destruct (allExclusionsAreProfitVetoed _) eqn:Hall; [done|].
  destruct (negb _); [done|]. intros [= <-]. split; [|done].
  unfold rounds_left.
  change (rq_strict (with_state r (set_failed (rq_state r) (profitVetoedAccountIDs (rq_state r)))))
    with (rq_strict r). rewrite Hst.
  assert (Hns : ¬ FailedAccountIDs (rq_state r) ⊆ profitVetoedAccountIDs (rq_state r)).
  { unfold allExclusionsAreProfitVetoed in Hall.
    rewrite (bool_decide_false (FailedAccountIDs _ = ∅)), orb_false_r in Hall by done.
    case_bool_decide as Hv; [|by bool_hyp]. rewrite Hv. set_solver. }
  simpl. unfold account_retries_left, retries_of. simpl.
  rewrite decide_True by done. rewrite decide_False by done. lia.
Qed.

Lemma same_account_left cands L id m s s' :
  id ∈ cands → retries_of s id < L → SameAccountRetryCount s = m →
  SameAccountRetryCount s' = <[id := retries_of s id + 1]> m →
  sumZ (account_retries_left L s') cands < sumZ (account_retries_left L s) cands.
Proof.
  intros Hid Hlt Hm Hs'. apply (sumZ_lt _ _ _ id); [|done|];
    unfold account_retries_left, retries_of in *; rewrite Hs'.
  - intros y. subst m. destruct (decide (y = id)) as [->|Hne];
      [rewrite lookup_insert_eq; simpl; lia|rewrite lookup_insert_ne by done; lia].
  - rewrite lookup_insert_eq. simpl. lia.
Qed.

Lemma more_retries_left cands L id s s' :
  SameAccountRetryCount s' = <[id := retries_of s id + 1]> (SameAccountRetryCount s) →
  sumZ (account_retries_left L s') cands ≤ sumZ (account_retries_left L s) cands.
Proof.
  intros Hs'. apply sumZ_le. intros y _. unfold account_retries_left, retries_of in *. rewrite Hs'.
  destruct (decide (y = id)) as [->|Hne]; [rewrite lookup_insert_eq; simpl; lia|by rewrite lookup_insert_ne by done].
Qed.

Section timed.
Context (cands : list Z) (L : Z) (closes : Z → time) (tick : duration) (Htick : 0 < tick ≤ sameAccountRetryDelay).

Definition windows_left (t : time) : Z := sumZ (λ id, window_left tick t (closes id)) cands.
Definition moves_left (t : time) (r : request) : Z := rounds_left cands L r + windows_left t.

Lemma windows_left_mono t t' : t ≤ t' → windows_left t' ≤ windows_left t.
Proof using Htick. intros Ht. apply sumZ_le. intros id _. apply window_left_mono; lia. Qed.

(** A retry within a window uses some of it up. *)
Lemma window_retry ev e n t t' : fe_account ev ∈ cands → window_ok closes tick ev e →
  sameAccountRetryAllowed (fe_now ev) (Some e) n (fe_limit ev) = true → open_window e →
  t ≤ fe_now ev → ∀ k, fe_now ev + sameAccountRetryDelayFor (Some e) k ≤ t' → windows_left t' < windows_left t.
Proof using Htick.
  intros Hid [Hc Hwait] Ha (Hr & Hdl & _) Ht k Ht'. unfold sameAccountRetryAllowed, sameAccountRetryDeadlineAllows in Ha.
  rewrite Hr, Hdl in Ha. simpl in Ha. destruct (before (fe_now ev) (SameAccountRetryDeadline e)) eqn:Hb; [|done]. apply before_spec in Hb.
  assert (fe_now ev + tick ≤ t' ∨ closes (fe_account ev) ≤ t') as Hw.
  { destruct (decide (0 < SameAccountRetryDelay e)) as [Hp|Hn].
    - unfold sameAccountRetryDelayFor in Ht'. rewrite (proj2 (Z.ltb_lt _ _) Hp) in Ht'. destruct (Hwait Hp); [left|right]; lia.
    - pose proof (delay_least e k ltac:(lia)). left. lia. }
  assert (t ≤ t') by (destruct Hw; lia). apply (sumZ_lt _ _ _ (fe_account ev)); [|done|].
  - intros y. apply window_left_mono; lia.
  - eapply window_left_spent; [lia|exact Ht|lia|done].
Qed.

Lemma failure_round_left t t' r r' ev :
  budget_ok (rq_budget r) → event_ok cands L closes tick (rq_strict r) (rq_state r) ev →
  t ≤ fe_now ev → fe_now ev + pause ev r r' ≤ t' →
  HandleFailoverError ev r = (FailoverContinue, r') →
  moves_left t' r' < moves_left t r ∧ t ≤ t' ∧ rq_strict r' = rq_strict r ∧
  budget_ok (rq_budget r').
Proof.
  intros Hb (Hid & HL & Hm & Hd & Hex) Hnow Hpause Hc.
  apply handle_continue in Hc as (_ & e & He & _ & Hw). specialize (Hd e He). unfold moves_left.
  destruct Hw as [budget Ht ->|budget err billing Ht Ha _ ->|budget err billing Ht _ _ Hsw _ ->].
  - assert (t ≤ t') as Htt.
    { unfold pause in Hpause. rewrite bool_decide_false in Hpause; [lia|]. unfold retries_of. simpl. lia. }
    pose proof (windows_left_mono t t' Htt). eapply try_retry_claimed in Ht as [? Hlt]; [|done|done].
    split_and!; [|done|done|done]. unfold rounds_left. simpl.
    change (rq_strict (mkRequest (set_last (rq_state r) (Some e)) (rq_failures r) budget
      (rq_unscheduled r))) with (rq_strict r).
    change (exclusions_left cands (rq_strict r) (set_last (rq_state r) (Some e)))
      with (exclusions_left cands (rq_strict r) (rq_state r)).
    change (account_retries_left L (set_last (rq_state r) (Some e)))
      with (account_retries_left L (rq_state r)). lia.
  - eapply try_retry_unclaimed in Ht as [? Hle]; [|done|done].
    match goal with |- rounds_left _ _ ?x + _ < _ ∧ _ => set (r1 := x) in * end.
    assert (retries_of (rq_state r1) (fe_account ev) = retries_of (rq_state r) (fe_account ev) + 1) as Hn
      by (unfold retries_of at 1; simpl; by rewrite lookup_insert_eq).
    unfold pause in Hpause. rewrite bool_decide_true, He in Hpause by done.
    assert (rounds_left cands L r1 - sumZ (account_retries_left L (rq_state r1)) cands
            ≤ rounds_left cands L r - sumZ (account_retries_left L (rq_state r)) cands) as Hrest.
    { unfold rounds_left. change (rq_budget r1) with budget.
      change (exclusions_left cands (rq_strict r1) (rq_state r1)) with (exclusions_left cands (rq_strict r) (rq_state r)). lia. }
    destruct (decide (open_window e)) as [Ho|Ho].
    + assert (t ≤ t') as Htt.
      { destruct (decide (0 < SameAccountRetryDelay e)) as [Hp|Hp]; [|pose proof (delay_least e (retries_of (rq_state r1) (fe_account ev)) ltac:(lia)); lia].
        unfold sameAccountRetryDelayFor in Hpause. rewrite (proj2 (Z.ltb_lt _ _) Hp) in Hpause. lia. }
      pose proof (window_retry ev e _ t t' Hid (Hd Ho) Ha Ho Hnow _ Hpause).
      pose proof (more_retries_left cands L (fe_account ev) (rq_state r) (rq_state r1) eq_refl). split_and!; [lia|done|done|done].
    + assert (t ≤ t') as Htt by (pose proof (delay_pos (Some e) (retries_of (rq_state r1) (fe_account ev))); lia).
      pose proof (windows_left_mono t t' Htt). apply retry_allowed_bound in Ha; [|done].
      assert (Hlt : sumZ (account_retries_left L (rq_state r1)) cands
                    < sumZ (account_retries_left L (rq_state r)) cands)
        by (eapply (same_account_left cands L (fe_account ev)); [done|lia|done|done]).
      split_and!; [lia|done|done|done].
  - assert (t ≤ t') as Htt.
    { unfold pause in Hpause. rewrite bool_decide_false in Hpause; [lia|]. unfold retries_of. simpl. lia. }
    pose proof (windows_left_mono t t' Htt). eapply try_retry_unclaimed in Ht as [? Hle]; [|done|done].
    match goal with |- rounds_left _ _ ?x + _ < _ ∧ _ => set (r1 := x) end.
    assert (Hst : rq_strict r1 = rq_strict r) by apply record_active.
    split_and!; [|done|done|done]. unfold rounds_left. rewrite Hst.
    change (rq_budget r1) with budget.
    change (account_retries_left L (rq_state r1)) with (account_retries_left L (rq_state r)).
    enough (exclusions_left cands (rq_strict r) (rq_state r1)
            < exclusions_left cands (rq_strict r) (rq_state r)) by lia.
    destruct (rq_strict r).
    + apply (exclude_left cands (fe_account ev)); auto.
    + specialize (Hsw eq_refl). simpl. repeat case_decide; lia.
Qed.

Lemma round_left t r t' r' :
  budget_ok (rq_budget r) → round cands L closes tick t r t' r' →
  moves_left t' r' < moves_left t r ∧ rq_strict r' = rq_strict r ∧
  budget_ok (rq_budget r').
Proof using Htick.
  intros Hb Hr. revert Hb.
  destruct Hr as [t0 r0 t1 r0' gone fired Ht Hne Hs|t0 r0 t1 s' id Ht Hid Hs|t0 r0 t1 r0' ev Ht Ht' Hev Hs]; intros Hb.
  - apply (backoff_round_left cands L) in Hs as (? & ? & Hbb); [|done]. rewrite Hbb. pose proof (windows_left_mono _ _ Ht).
    unfold moves_left. split_and!; [lia|done|done].
  - apply (veto_round_left cands L) in Hs; [|done]. pose proof (windows_left_mono _ _ Ht). unfold moves_left. split_and!; [lia|done|done].
  - eapply (failure_round_left _ _ r0 r0' ev) in Hs as (? & _ & ? & ?); [|done..]. by split_and!.
Qed.

Lemma windows_left_nonneg t : 0 ≤ windows_left t.
Proof using Htick. apply sumZ_nonneg. intros id _. apply window_left_nonneg. lia. Qed.
End timed.

Lemma rounds_left_nonneg cands L r : budget_ok (rq_budget r) → 0 ≤ rounds_left cands L r.
Proof.
  intros Hb%retries_left_bound. unfold rounds_left, exclusions_left.
  assert (0 ≤ sumZ (account_retries_left L (rq_state r)) cands)
    by (apply sumZ_nonneg; intros; unfold account_retries_left; lia).
  assert (0 ≤ sumZ (untried (rq_state r)) cands)
    by (apply sumZ_nonneg; intros; unfold untried; case_decide; lia).
  destruct (rq_strict r); [lia|]. case_decide; lia.
Qed.

(** *** Vetoed accounts *)

Definition vetoes_excluded (s : FailoverState) : Prop :=
  profitVetoedAccountIDs s ⊆ FailedAccountIDs s.

Lemma round_vetoes cands L closes tick t r t' r' :
  round cands L closes tick t r t' r' → vetoes_excluded (rq_state r) →
  vetoes_excluded (rq_state r') ∧
  profitVetoedAccountIDs (rq_state r) ⊆ profitVetoedAccountIDs (rq_state r').
Proof.
  unfold vetoes_excluded.
  intros [t0 r0 t1 r0' gone fired Ht Hne Hs|t0 r0 t1 s' id Ht Hid Hs|t0 r0 t1 r0' ev Ht Ht' Hev Hs] Hv.
  - revert Hs. unfold HandleSelectionExhausted. repeat case_match; try done.
    intros [= <-]. by simpl.
  - revert Hs. unfold RecordProfitVeto. repeat case_match; try done. intros [= <-]. simpl. set_solver.
  - apply handle_continue in Hs as (_ & e & _ & _ & Hw).
    destruct Hw as [? _ ->|? ? ? _ _ _ ->|? ? ? _ _ _ _ _ ->]; simpl; set_solver.
Qed.

(** ** Properties *)

(** C37: the failover of a request always ends, however the selection, the upstreams and
    the waits behave: the rounds that go on are bounded by the retry policy's budget,
    the same-account retries of the candidates, their windows of time, and the switches
    and vetoes (in strict mode the candidates themselves).  Retries of an error that
    opens a window are not counted: they are bounded by the time from the start of the
    loop to the end of the window of their account, [closes], over the shortest wait
    between two of them, [tick] - which is the one of 500 ms at most, and the errors' own
    waits may not be shorter than it unless they last to the end of the window. *)
Theorem failover_rounds_bounded cands L closes tick maxSwitches bound fl budget n t r' t' :
  0 < tick ≤ sameAccountRetryDelay → budget_ok budget → 0 ≤ L → 0 ≤ maxSwitches →
  rounds cands L closes tick n t (mkRequest (NewFailoverState maxSwitches bound) fl budget []) t' r' →
  Z.of_nat n ≤ 10 + L * Z.of_nat (length cands)
               + sumZ (λ id, if t <? closes id then (closes id - t - 1) / tick + 1 else 0) cands
               + if StrictFailover.StrictFailoverRequestActive fl then Z.of_nat (length cands)
                 else 2 * maxSwitches + maxProfitVetoAttempts.
Proof.
  intros Htick Hb HL Hmax Hrun.
  assert (Hgen : ∀ n t r t' r', rounds cands L closes tick n t r t' r' → budget_ok (rq_budget r) →
    Z.of_nat n ≤ moves_left cands L closes tick t r).
  { clear Hrun. intros k t1 r1 t2 r2. induction 1 as [u r|k u1 r1 u2 r2 u3 r3 Hr _ IH]; intros Hbr.
    - pose proof (rounds_left_nonneg cands L r Hbr). pose proof (windows_left_nonneg cands closes tick Htick u). unfold moves_left. lia.
    - apply round_left in Hr as (Hlt & _ & Hb2); [|done|done]. specialize (IH Hb2). lia. }
  apply Hgen in Hrun; [|done]. etrans; [exact Hrun|]. unfold moves_left, windows_left, window_left, rounds_left.
  cbn [rq_budget rq_state rq_failures].
  pose proof (retries_left_bound budget Hb).
  assert (sumZ (account_retries_left L (NewFailoverState maxSwitches bound)) cands
          ≤ Z.of_nat (length cands) * L).
  { apply sumZ_bound. intros x _. unfold account_retries_left, retries_of. simpl.
    rewrite lookup_empty. simpl. lia. }
  unfold exclusions_left, rq_strict. cbn [rq_failures].
  destruct (StrictFailover.StrictFailoverRequestActive fl).
  - assert (sumZ (untried (NewFailoverState maxSwitches bound)) cands
            ≤ Z.of_nat (length cands) * 1)
      by (apply sumZ_bound; intros; unfold untried; case_decide; lia). lia.
  - rewrite decide_True by apply empty_subseteq. simpl. unfold maxProfitVetoAttempts. lia.
Qed.

(** An account the profit gate vetoed is excluded for the rest of the
    request: no back-off, switch or retry releases it. *)
Theorem vetoed_account_stays_excluded cands L closes tick maxSwitches bound fl budget n t r t1 id s m t' r' :
  rounds cands L closes tick n t (mkRequest (NewFailoverState maxSwitches bound) fl budget []) t1 r →
  RecordProfitVeto (rq_strict r) id (rq_state r) = (FailoverContinue, s) →
  rounds cands L closes tick m t1 (with_state r s) t' r' →
  id ∈ FailedAccountIDs (rq_state r').
Proof.
  intros H1 Hv H2.
  assert (Hgen : ∀ n t r1 t' r2, rounds cands L closes tick n t r1 t' r2 → vetoes_excluded (rq_state r1) →
    vetoes_excluded (rq_state r2) ∧
    profitVetoedAccountIDs (rq_state r1) ⊆ profitVetoedAccountIDs (rq_state r2)).
  { intros k u1 r1 u2 r2. induction 1 as [u r0|k u1 r1 u2 r2 u3 r3 Hr _ IH]; intros Hve; [done|].
    apply round_vetoes in Hr as [Hve2 ?]; [|done]. destruct (IH Hve2) as [? Hsub2].
    split; [done|]. etrans; [|exact Hsub2]. done. }
  apply Hgen in H1 as [Hr _]; [|unfold vetoes_excluded; simpl; apply empty_subseteq].
  assert (Hs : vetoes_excluded s ∧ id ∈ profitVetoedAccountIDs s).
  { revert Hv Hr. unfold RecordProfitVeto, vetoes_excluded. repeat case_match; try done.
    intros [= <-]. simpl. set_solver. }
  destruct Hs as [Hs Hid]. apply Hgen in H2 as [Hr2 Hsub]; [|done].
  apply Hr2, Hsub, Hid.
Qed.

(** What one failure does to a request: it excludes at most the failed
    account and never releases one; it counts at most one switch, only for an
    excluded account and, outside strict mode, only within the budget; it
    unschedules at most the failed account, only when that is excluded and its
    error was retryable in place; and when the loop goes on, exactly one of a
    policy retry, a retry of the same account or a switch happened. *)
Theorem failure_accounting ev r act r' :
  HandleFailoverError ev r = (act, r') →
  FailedAccountIDs (rq_state r) ⊆ FailedAccountIDs (rq_state r') ∧
  FailedAccountIDs (rq_state r') ⊆ {[fe_account ev]} ∪ FailedAccountIDs (rq_state r) ∧
  (SwitchCount (rq_state r') = SwitchCount (rq_state r) ∨
   (SwitchCount (rq_state r') = SwitchCount (rq_state r) + 1 ∧
    fe_account ev ∈ FailedAccountIDs (rq_state r') ∧
    (rq_strict r = false → SwitchCount (rq_state r') ≤ MaxSwitches (rq_state r)))) ∧
  (rq_unscheduled r' = rq_unscheduled r ∨
   (rq_unscheduled r' = rq_unscheduled r ++ [fe_account ev] ∧
    fe_account ev ∈ FailedAccountIDs (rq_state r') ∧
    ∃ e, fe_err ev = Some e ∧ RetryableOnSameAccount e = true)) ∧
  (act = FailoverContinue → ∃ e, fe_err ev = Some e ∧ went_on ev e r r').
Proof.
  intros Hh. pose proof (handle_effect ev r) as He. rewrite Hh in He. simpl in He.
  assert (Hw : act = FailoverContinue → ∃ e, fe_err ev = Some e ∧ went_on ev e r r').
  { intros ->. apply handle_continue in Hh as (_ & e & ? & _ & ?). eauto. }
  destruct He as [Hf Hs Hu|e k He Hf Hs Hk Hu].
  { rewrite Hf. split_and!; [done|set_solver|by left|by left|done]. }
  assert (Hin : fe_account ev ∈ FailedAccountIDs (rq_state r')) by (rewrite Hf; set_solver).
  rewrite Hf in *. split_and!; [set_solver|done| | |done].
  - destruct Hk as [->|[-> Hk]]; [left; lia|right].
    split_and!; [done|done|]. intros Hst%Hk. lia.
  - rewrite Hu. destruct (RetryableOnSameAccount e) eqn:Hr; [right|by left; rewrite app_nil_r].
    split_and!; [done|done|eauto].
Qed.

End Handler.

(** The pause before a same-account retry of a request-scoped failure doubles
    from 500 ms up to 8 s, whatever retry count is configured. *)
Theorem request_scoped_delay_spec e n :
  RequestScopedTransient e = true → SameAccountRetryDelay e ≤ 0 → 1 ≤ n →
  sameAccountRetryDelayFor (Some e) n
  = Z.min maxRequestScopedRetryDelay (sameAccountRetryDelay * 2 ^ (n - 1)).
Proof.
  intros Hr Hd Hn. unfold sameAccountRetryDelayFor. rewrite Hr.
  rewrite (proj2 (Z.ltb_ge _ _)) by lia. simpl.
  assert (Hgen : ∀ k d, 0 < d ≤ maxRequestScopedRetryDelay →
    doubling k d = Z.min maxRequestScopedRetryDelay (d * 2 ^ Z.of_nat k)).
  { unfold maxRequestScopedRetryDelay. change (8 * second) with 8000000000.
    induction k as [|k IH]; intros d Hd'; cbn [doubling].
    - change (2 ^ Z.of_nat 0) with 1. lia.
    - rewrite Nat2Z.inj_succ, Z.pow_succ_r by lia.
      pose proof (Z.pow_pos_nonneg 2 (Z.of_nat k) ltac:(lia) ltac:(lia)).
      change (maxRequestScopedRetryDelay / 2) with 4000000000.
      destruct (Z.leb_spec 4000000000 d); unfold maxRequestScopedRetryDelay.
      + change (8 * second) with 8000000000. nia.
      + rewrite IH by lia. f_equal. lia. }
  destruct (n <=? 1) eqn:E; bool_hyp.
  - assert (n = 1) as -> by lia. reflexivity.
  - rewrite Hgen by (vm_compute; split; done). by rewrite Z2Nat.id by lia.
Qed.

(** ** Concrete runs, with the retry policy of [UpstreamRetry] and no budget *)

#[local] Instance run_unicode : Unicode := ascii_lower.
#[local] Instance run_gjson : Gjson := no_json.

Definition demo_event (now : time) (id : Z) (limit : Z) (e : UpstreamFailoverError) : failure_event (M := moment) :=
  mkEvent id "openai" limit (Some e) false demo_moment now true false.

Definition retryable (status : Z) : UpstreamFailoverError :=
  mkErr "" 0 status [] false true 0 zero_time 0 true false false "" "" "" NextAccountLegacyRetry.
(** An error that opens a window. *)
Definition until (deadline : time) : UpstreamFailoverError :=
  mkErr "" 0 503 [] false true 0 deadline 0 true false false "" "" "" NextAccountLegacyRetry.

Definition demo_start : request (S := option upstreamErrorRetryState) :=
  mkRequest (NewFailoverState 2 true) None None [].

Definition after_event (ev : failure_event (M := moment))
    (r : request (S := option upstreamErrorRetryState))
    : request (S := option upstreamErrorRetryState) := (HandleFailoverError ev r).2.

(** Account 1 is retried within a window of a second, more often than its limit, then
    given up. *)
Definition demo_now (i : Z) : time := i * sameAccountRetryDelay.
Definition demo_at (i : Z) : failure_event (M := moment) := demo_event (demo_now i) 1 1 (until second).
Definition demo_retry : request (S := option upstreamErrorRetryState) := after_event (demo_at 0) demo_start.
Definition demo_again : request (S := option upstreamErrorRetryState) := after_event (demo_at 1) demo_retry.
Definition demo_switch : request (S := option upstreamErrorRetryState) := after_event (demo_at 3) demo_again.
Definition demo_closes (id : Z) : time := if id =? 1 then second else 0.
Abbreviation demo_run := (rounds [1; 2] 1 demo_closes sameAccountRetryDelay).

Lemma demo_ok i s : event_ok [1; 2] 1 demo_closes sameAccountRetryDelay false s (demo_at i).
Proof.
  split_and!; [apply list_elem_of_here|done|vm_compute; split; discriminate| |done].
  intros e [= <-] _. by split.
Qed.

Lemma demo_rounds : demo_run 3 (demo_now 0) demo_start (demo_now 3) demo_switch.
Proof.
  apply (rounds_cons _ _ _ _ _ _ _ (demo_now 1) demo_retry);
    [apply (round_failure _ _ _ _ _ _ _ _ (demo_at 0)); [by apply Z.leb_le|by apply Z.leb_le; vm_compute|apply demo_ok|vm_compute; reflexivity]|].
  apply (rounds_cons _ _ _ _ _ _ _ (demo_now 3) demo_again);
    [apply (round_failure _ _ _ _ _ _ _ _ (demo_at 1)); [by apply Z.leb_le|by apply Z.leb_le; vm_compute|apply demo_ok|vm_compute; reflexivity]|].
  apply (rounds_cons _ _ _ _ _ _ _ (demo_now 3) demo_switch); [|apply rounds_nil].
  apply (round_failure _ _ _ _ _ _ _ _ (demo_at 3)); [by apply Z.leb_le|by apply Z.leb_le; vm_compute|apply demo_ok|vm_compute; reflexivity].
Qed.

Lemma failover_rounds_bounded_witness :
  (SwitchCount (rq_state demo_switch) = 1 ∧ rq_unscheduled demo_switch = [1] ∧ retries_of (rq_state demo_switch) 1 = 2 ∧
   forceCacheBilling (rq_state demo_again) = false ∧ forceCacheBilling (rq_state demo_switch) = true) ∧
  Z.of_nat 3 ≤ 10 + 1 * 2
    + sumZ (λ id, if demo_now 0 <? demo_closes id then (demo_closes id - demo_now 0 - 1) / sameAccountRetryDelay + 1 else 0) [1; 2]
    + (2 * 2 + maxProfitVetoAttempts).
Proof.
  split; [vm_compute; done|].
  exact (failover_rounds_bounded [1; 2] 1 demo_closes sameAccountRetryDelay 2 true None None 3 (demo_now 0) demo_switch (demo_now 3)
           (conj eq_refl (Z.le_refl _)) I ltac:(lia) ltac:(lia) demo_rounds).
Defined.

(** Account 2 is vetoed, then the 503 back-off clears the failed account only. *)
Definition demo_vetoed : FailoverState := (RecordProfitVeto false 2 (rq_state demo_switch)).2.
Definition demo_backoff : request (S := option upstreamErrorRetryState) :=
  (HandleSelectionExhausted false true (with_state demo_switch demo_vetoed)).2.

Lemma demo_backoff_round : demo_run 1 (demo_now 3) (with_state demo_switch demo_vetoed) (demo_now 7) demo_backoff.
Proof.
  apply (rounds_cons _ _ _ _ _ _ _ (demo_now 7) demo_backoff); [|apply rounds_nil].
  apply (round_exhausted _ _ _ _ _ _ _ _ false true); [vm_compute; discriminate| |vm_compute; reflexivity].
  apply (non_empty_inhabited_L 2). refine (bool_decide_eq_true_1 _ _). vm_compute. reflexivity.
Qed.

Lemma vetoed_account_stays_excluded_witness :
  elements (FailedAccountIDs (rq_state demo_backoff)) = [2] ∧
  2 ∈ FailedAccountIDs (rq_state demo_backoff).
Proof.
  split; [vm_compute; reflexivity|].
  exact (vetoed_account_stays_excluded [1; 2] 1 demo_closes sameAccountRetryDelay 2 true None None 3 _ demo_switch _ 2 demo_vetoed 1
           _ demo_backoff demo_rounds ltac:(vm_compute; reflexivity) demo_backoff_round).
Defined.

Lemma failure_accounting_witness :
  rq_unscheduled demo_switch = [1] ∧
  FailedAccountIDs (rq_state demo_again) ⊆ FailedAccountIDs (rq_state demo_switch) ∧
  ∃ e, fe_err (demo_at 3) = Some e ∧ went_on (demo_at 3) e demo_again demo_switch.
Proof.
  destruct (failure_accounting (demo_at 3) demo_again FailoverContinue
              demo_switch) as (Hf & _ & _ & _ & Hw); [vm_compute; reflexivity|].
  split_and!; [vm_compute; reflexivity|exact Hf|exact (Hw eq_refl)].
Defined.

Lemma request_scoped_delay_spec_witness :
  sameAccountRetryDelayFor (Some (retryable 503)) 4 = 4 * second ∧
  sameAccountRetryDelayFor (Some (retryable 503)) 40
  = Z.min maxRequestScopedRetryDelay (sameAccountRetryDelay * 2 ^ (40 - 1)).
Proof.
  split; [vm_compute; reflexivity|]. apply request_scoped_delay_spec; [reflexivity|simpl; lia|lia].
Defined.

End Failover.
