(* ===== verification/GroupFallback.v ===== *)
(** * Falling back to another group

    Models [service/group_unavailable_fallback.go] (validation of the fallback
    chain, and the selection that may leave its group once) and the routing of
    [service/api_key_group_fallback.go] it relies on. *)

From S2P Require Import Prelude.

Module GroupFallback.

Definition PlatformComposite : string := "composite".

Record Group := mkGroup {
  ID : Z;
  Platform : string;
  active : bool;
  FallbackGroupIDOnUnavailable : option Z;
  StrictEnabled : bool
}.

(** ** Validation of the configured chain *)

Inductive chain_error := Composite | Cycle | Missing | Unusable | TooLong.

Section Validate.
(** [GetByIDLite], [None] for an error or a missing group. *)
Context (lookup_group : Z → option Group).

Fixpoint walk_chain (depth : nat) (platform : string) (seen : gset Z) (id : Z)
    : result chain_error unit :=
  match depth with
  | O => Err TooLong
  | S depth =>
      if bool_decide (id ∈ seen) then Err Cycle
      else match lookup_group id with
           | None => Err Missing
           | Some group =>
               if bool_decide (Platform group ≠ platform) || negb (active group) then Err Unusable
               else match FallbackGroupIDOnUnavailable group with
                    | None => Ok tt
                    | Some next => if next <=? 0 then Ok tt
                                   else walk_chain depth platform ({[id]} ∪ seen) next
                    end
           end
  end.

Definition validateUnavailableFallback (sourceID : Z) (platform : string) (targetID : option Z)
    : result chain_error unit :=
  match targetID with
  | None => Ok tt
  | Some id =>
      if id <=? 0 then Ok tt
      else if bool_decide (platform = PlatformComposite) then Err Composite
      else walk_chain 32 platform {[sourceID]} id
  end.

(** *** The chain as a path *)

(** [path id ids]: following the fallbacks from [id] visits [ids] and stops. *)
Inductive path (platform : string) : Z → list Z → Prop :=
  | path_end id g :
      lookup_group id = Some g → Platform g = platform → active g = true →
      (∀ n, FallbackGroupIDOnUnavailable g = Some n → n ≤ 0) →
      path platform id [id]
  | path_step id g n ids :
      lookup_group id = Some g → Platform g = platform → active g = true →
      FallbackGroupIDOnUnavailable g = Some n → 0 < n →
      path platform n ids → path platform id (id :: ids).

Lemma walk_chain_spec platform depth : ∀ seen id,
  walk_chain depth platform seen id = Ok tt ↔
  ∃ ids, path platform id ids ∧ (length ids ≤ depth)%nat ∧ NoDup ids ∧ ∀ x, x ∈ ids → x ∉ seen.
Proof.
  induction depth as [|depth IH]; intros seen id; simpl.
  { split; [done|]. intros (ids & Hp & Hl & _). destruct Hp; simpl in Hl; lia. }
  case_bool_decide as Hin.
  { split; [done|]. intros (ids & Hp & _ & _ & Hs). exfalso.
    apply (Hs id); [|done]. destruct Hp; apply list_elem_of_here. }
  destruct (lookup_group id) as [g|] eqn:Hg.
  2: { split; [done|]. intros (ids & Hp & _). inversion Hp; congruence. }
  destruct (_ || negb (active g)) eqn:Hu.
  { split; [done|]. intros (ids & Hp & _). exfalso.
    apply orb_true_iff in Hu as [Hu|Hu]; bool_hyp; inversion Hp; congruence. }
  bool_hyp. assert (Hpl : Platform g = platform) by (by apply dec_stable).
  assert (Hone : (∀ n, FallbackGroupIDOnUnavailable g = Some n → n ≤ 0) →
    ∃ ids, path platform id ids ∧ (length ids ≤ S depth)%nat ∧ NoDup ids ∧ ∀ x, x ∈ ids → x ∉ seen).
  { intros Hn. exists [id]. split_and!; [by eapply path_end|simpl; lia|apply NoDup_singleton|].
    intros x ->%list_elem_of_singleton. done. }
  destruct (FallbackGroupIDOnUnavailable g) as [n|] eqn:Hf; [|split; [intros _; by apply Hone|done]].
  destruct (n <=? 0) eqn:Hn; bool_hyp.
  { split; [intros _; apply Hone; by intros ? [= <-]|done]. }
  rewrite IH. split.
  - intros (ids & Hp & Hl & HN & Hs). exists (id :: ids). split_and!.
    + by eapply path_step.
    + simpl. lia.
    + apply NoDup_cons. split; [|done]. intros Hid. by apply (Hs id Hid), elem_of_union_l, elem_of_singleton.
    + intros x [->|Hx]%elem_of_cons; [done|]. apply Hs in Hx. set_solver.
  - intros (ids & Hp & Hl & HN & Hs).
    inversion Hp as [? g' Hg' ? ? Hend|? g' n' ids' Hg' ? ? Hn' ? Hp']; simplify_eq.
    + specialize (Hend _ Hf). lia.
    + apply NoDup_cons in HN as [Hid HN]. exists ids'. split_and!; [done|simpl in Hl; lia|done|].
      intros x Hx [->%elem_of_singleton|Hx']%elem_of_union; [done|].
      by apply (Hs x (list_elem_of_further _ _ _ Hx)).
Qed.

(** A fallback target is accepted exactly when there is none, or when the
    group is not composite and following the fallbacks from it visits at most 32
    distinct active groups of the same platform, never the source, and stops. *)
Theorem validate_fallback_chain_spec source platform target :
  validateUnavailableFallback source platform target = Ok tt ↔
  (∀ id, target = Some id → 0 < id →
     platform ≠ PlatformComposite ∧
     ∃ ids, path platform id ids ∧ (length ids ≤ 32)%nat ∧ NoDup (source :: ids)).
Proof.
  unfold validateUnavailableFallback. destruct target as [id|]; [|done].
  destruct (id <=? 0) eqn:E; bool_hyp.
  { split; [|done]. intros _ i [= <-] ?. lia. }
  case_bool_decide as Hc.
  { split; [done|]. intros H. by destruct (H id eq_refl) as [? _]. }
  rewrite walk_chain_spec. split.
  - intros (ids & Hp & Hl & HN & Hs) i [= <-] _. split; [done|]. exists ids. split_and!; [done..|].
    apply NoDup_cons. split; [|done]. intros Hin. apply (Hs _ Hin). by apply elem_of_singleton.
  - intros H. destruct (H id eq_refl E) as [_ (ids & Hp & Hl & [Hn HN]%NoDup_cons)].
    exists ids. split_and!; try done. intros x Hx ->%elem_of_singleton. done.
Qed.

End Validate.

(** ** Selection with fallback *)

(** What [errors.Is] distinguishes: a plain "no account" (also compact-only and
    quality holds), the exhaustion of all strict tiers (which is one), and the rest. *)
Inductive sel_error := NoAccount | CompactOnly | QualityHeld | StrictExhausted | Other (n : Z).

Definition authorizes (e : sel_error) : bool :=
  match e with NoAccount | CompactOnly | QualityHeld | StrictExhausted => true | Other _ => false end.

Definition is_strict_exhausted (e : sel_error) : bool :=
  match e with StrictExhausted => true | _ => false end.

Definition unavailableForGroupFallback (ctx_gone force : bool) (group : option Group)
    (err : sel_error) : bool :=
  if ctx_gone then false
  else if force then false
  else if match group with Some g => StrictEnabled g | None => false end && negb (is_strict_exhausted err)
  then false
  else authorizes err.

(** *** Routing of the API key *)

Record routing := mkRouting {
  primaryGroupID : Z;
  fallbackGroup : Group;
  key_group : Z;                 (** [*apiKey.GroupID] *)
  key_fallback : Z               (** [*apiKey.FallbackGroupID] *)
}.

Definition apiKeyFallbackRoutingActive (rt : option routing) (groupID : Z) : bool :=
  match rt with
  | None => false
  | Some rt =>
      if groupID <=? 0 then false
      else (0 <? key_group rt) && (key_group rt =? key_fallback rt)
           && (ID (fallbackGroup rt) =? groupID)
  end.

Definition activateAPIKeyFallbackRouting (rt : option routing) (id : Z) : bool * option routing :=
  match rt with
  | Some r =>
      if (id <=? 0) || negb (ID (fallbackGroup r) =? id) then (false, rt)
      else (true, Some (mkRouting (primaryGroupID r) (fallbackGroup r) id (key_fallback r)))
  | None => (false, rt)
  end.

(** [attempted] marks a context that is already inside the API-key fallback. *)
Definition apiKeyFallbackGroupForSelection (ctx_gone force attempted : bool) (rt : option routing)
    (strict : bool) (groupID : option Z) (err : sel_error) : option Group :=
  match groupID with
  | None => None
  | Some id =>
      if ctx_gone || (id <=? 0) then None
      else if strict && negb (is_strict_exhausted err) then None
      else if negb (authorizes err) then None
      else if attempted then None
      else if force then None
      else match rt with
           | None => None
           | Some rt => if (primaryGroupID rt =? id) && active (fallbackGroup rt)
                        then Some (fallbackGroup rt) else None
           end
  end.

(** *** The selection *)

(** One attempt: the group scheduled on, and the group whose price admits it. *)
Record attempt := mkAttempt { scheduled : Z; billed : option Z }.

Inductive outcome (T : Type) :=
  | Selected (v : T) | Failed (e : sel_error) | LoadFailed | NoLoader | AdmissionRefused.
Arguments Selected {T} v.
Arguments Failed {T} e.
Arguments LoadFailed {T}.
Arguments NoLoader {T}.
Arguments AdmissionRefused {T}.

Section Select.
Context {T : Type}.
(** The request: its context, its group, what [strictGroupFromContext] finds, the
    group of the API key in the usage context, the API-key routing, and the
    repository ([None] for [nil]; an answer [None] for an error, [Some None] for
    a missing group). *)
Context (ctx_gone force attempted : bool) (groupID : option Z)
        (strict_context_group usage_group : option Group)
        (rt : option routing) (load : option (Z → option (option Group)))
        (selectInGroup : attempt → result sel_error T) (admission_ok : bool).

(** The attempts made, the marks [(group, through the API key)], and the routing. *)
Record trace := mkTrace {
  attempts : list attempt;
  marks : list (Z * bool);
  released : bool;
  routing_after : option routing
}.

(** The group the selection takes from the context. *)
Definition context_group : option Group :=
  match strict_context_group with
  | Some g => Some g
  | None => match usage_group with
            | Some g => if ID g =? default 0 groupID then Some g else None
            | None => None
            end
  end.

Definition strict_group : bool :=
  match strict_context_group with Some g => StrictEnabled g | None => false end.

(** The API-key stage, the last: [err] is what the stages before ended with. *)
Definition api_key_stage (primaryErr failed : sel_error) (tr : trace)
    : outcome T * trace :=
  match apiKeyFallbackGroupForSelection ctx_gone force attempted rt strict_group groupID primaryErr with
  | None => (Failed failed, tr)
  | Some fallback =>
      let a := mkAttempt (ID fallback) (Some (ID fallback)) in
      let tr := mkTrace (attempts tr ++ [a]) (marks tr) (released tr) (routing_after tr) in
      match selectInGroup a with
      | Err e => (Failed e, tr)
      | Ok v =>
          if admission_ok then
            (Selected v, mkTrace (attempts tr) (marks tr ++ [(ID fallback, true)]) (released tr)
                           (activateAPIKeyFallbackRouting rt (ID fallback)).2)
          else (AdmissionRefused, mkTrace (attempts tr) (marks tr) true (routing_after tr))
      end
  end.

(** The group stage: at most one attempt, on the fallback of the source group. *)
Definition group_stage (source : option Group) (primaryErr : sel_error) (tr : trace)
    : outcome T * trace :=
  match source with
  | Some src =>
      match FallbackGroupIDOnUnavailable src with
      | Some fid =>
          if (0 <? fid) && negb (fid =? ID src) then
            match load with
            | None => (NoLoader, tr)
            | Some load =>
                match load fid with
                | None => (LoadFailed, tr)
                | Some (Some target) =>
                    if active target && bool_decide (Platform target = Platform src) then
                      let a := mkAttempt (ID target) (Some (ID src)) in
                      let tr := mkTrace (attempts tr ++ [a]) (marks tr) (released tr)
                                  (routing_after tr) in
                      match selectInGroup a with
                      | Ok v => (Selected v,
                                 mkTrace (attempts tr) (marks tr ++ [(ID target, false)])
                                   (released tr) (routing_after tr))
                      | Err e =>
                          if unavailableForGroupFallback ctx_gone force (Some target) e
                          then api_key_stage primaryErr e tr
                          else (Failed e, tr)
                      end
                    else api_key_stage primaryErr primaryErr tr
                | Some None => api_key_stage primaryErr primaryErr tr
                end
            end
          else api_key_stage primaryErr primaryErr tr
      | None => api_key_stage primaryErr primaryErr tr
      end
  | None => api_key_stage primaryErr primaryErr tr
  end.

Definition selectWithGroupFallback : outcome T * trace :=
  let gid := default 0 groupID in
  let a := mkAttempt gid None in
  let tr := mkTrace [a] [] false rt in
  match selectInGroup a with
  | Ok v => (Selected v, tr)
  | Err err =>
      if bool_decide (groupID = None) || (gid <=? 0) || ctx_gone then (Failed err, tr)
      else if apiKeyFallbackRoutingActive rt gid then (Failed err, tr)
      else if negb (unavailableForGroupFallback ctx_gone force context_group err) then (Failed err, tr)
      else match context_group, load with
           | None, Some load' =>
               match load' gid with
               | None => (LoadFailed, tr)
               | Some source =>
                   if negb (unavailableForGroupFallback ctx_gone force source err) then (Failed err, tr)
                   else group_stage source err tr
               end
           | source, _ =>
               if negb (unavailableForGroupFallback ctx_gone force source err) then (Failed err, tr)
               else group_stage source err tr
           end
  end.

(** ** Lemmas *)

(** An attempt on the fallback group of the API key, billed to that group. *)
Definition via_key (a : attempt) : Prop :=
  ∃ r, rt = Some r ∧ Some (primaryGroupID r) = groupID ∧ active (fallbackGroup r) = true ∧
       a = mkAttempt (ID (fallbackGroup r)) (Some (ID (fallbackGroup r))).

(** An attempt on the fallback of the source group, billed to the source. *)
Definition via_group (source : option Group) (a : attempt) : Prop :=
  ∃ src fid l t, source = Some src ∧ FallbackGroupIDOnUnavailable src = Some fid ∧
    load = Some l ∧ l fid = Some (Some t) ∧ active t = true ∧ Platform t = Platform src ∧
    a = mkAttempt (ID t) (Some (ID src)).

Lemma api_key_stage_spec err failed tr :
  let '(o, tr') := api_key_stage err failed tr in
  (∃ k, attempts tr' = attempts tr ++ k ∧ (length k ≤ 1)%nat ∧ Forall via_key k) ∧
  (∀ v, o = Selected v → ∃ a, last (attempts tr') = Some a ∧ selectInGroup a = Ok v).
Proof.
  unfold api_key_stage.
  destruct (apiKeyFallbackGroupForSelection _ _ _ _ _ _ _) as [fb|] eqn:Hf.
  2: { split; [|done]. exists []. rewrite app_nil_r. split_and!; [done|simpl; lia|constructor]. }
  assert (Hvia : via_key (mkAttempt (ID fb) (Some (ID fb)))).
  { unfold apiKeyFallbackGroupForSelection in Hf. unfold via_key. destruct groupID as [id|]; [|done].
    repeat (case_match; try done). bool_hyp. simplify_eq. eauto. }
  assert (Hk : ∃ k, attempts tr ++ [mkAttempt (ID fb) (Some (ID fb))] = attempts tr ++ k ∧
    (length k ≤ 1)%nat ∧ Forall via_key k) by (eexists [_]; split_and!; [done|simpl; lia|by constructor]).
  destruct (selectInGroup _) as [v|e] eqn:Hs; [destruct admission_ok|]; simpl; (split; [done|]); try done.
  intros v' [= <-]. rewrite last_snoc. eauto.
Qed.

Lemma group_stage_spec source err tr :
  let '(o, tr') := group_stage source err tr in
  (∃ k1 k2, attempts tr' = attempts tr ++ k1 ++ k2 ∧ (length k1 ≤ 1)%nat ∧ (length k2 ≤ 1)%nat ∧
     Forall (via_group source) k1 ∧ Forall via_key k2) ∧
  (∀ v, o = Selected v → ∃ a, last (attempts tr') = Some a ∧ selectInGroup a = Ok v).
Proof.
  assert (Hdirect : let '(o, tr') := api_key_stage err err tr in
    (∃ k1 k2, attempts tr' = attempts tr ++ k1 ++ k2 ∧ (length k1 ≤ 1)%nat ∧ (length k2 ≤ 1)%nat ∧
       Forall (via_group source) k1 ∧ Forall via_key k2) ∧
    (∀ v, o = Selected v → ∃ a, last (attempts tr') = Some a ∧ selectInGroup a = Ok v)).
  { pose proof (api_key_stage_spec err err tr) as Hk. destruct (api_key_stage err err tr).
    destruct Hk as [(k & ? & ? & ?) ?]. split; [|done]. exists [], k. split_and!; try done; simpl; lia. }
  assert (Hstop : ∀ o, (∀ v, o ≠ Selected v) →
    (∃ k1 k2, attempts tr = attempts tr ++ k1 ++ k2 ∧ (length k1 ≤ 1)%nat ∧ (length k2 ≤ 1)%nat ∧
       Forall (via_group source) k1 ∧ Forall via_key k2) ∧
    (∀ v, o = Selected v → ∃ a, last (attempts tr) = Some a ∧ selectInGroup a = Ok v)).
  { intros o Ho. split; [|intros v Hv; by apply Ho in Hv].
    exists [], []. rewrite !app_nil_r. split_and!; try done; simpl; lia. }
  unfold group_stage. destruct source as [src|]; [|done].
  destruct (FallbackGroupIDOnUnavailable src) as [fid|] eqn:Hfid; [|done].
  destruct (_ && negb (fid =? ID src)); [|done].
  destruct load as [l|] eqn:Hl; [|by apply Hstop].
  destruct (l fid) as [[target|]|] eqn:Ht; [|done|by apply Hstop].
  destruct (active target && _) eqn:Hok; [|done]. bool_hyp.
  set (a := mkAttempt (ID target) (Some (ID src))).
  assert (Hvia : via_group (Some src) a).
  { unfold via_group. rewrite Hl. exists src, fid, l, target. by split_and!. }
  cbn zeta. destruct (selectInGroup a) as [v|e] eqn:Hs.
  - split.
    + exists [a], []. split_and!; try done; simpl; try lia. by constructor.
    + intros v' [= <-]. simpl. rewrite last_snoc. eauto.
  - destruct (unavailableForGroupFallback _ _ _ _).
    + match goal with |- context [api_key_stage err e ?t] => pose proof (api_key_stage_spec err e t) as Hk;
        destruct (api_key_stage err e t) end.
      destruct Hk as [(k & Hk & ? & ?) ?]. split; [|done]. exists [a], k. simpl in Hk.
      rewrite <- app_assoc in Hk. split_and!; try done; simpl; try lia. by constructor.
    + split; [|done]. exists [a], []. split_and!; try done; simpl; try lia. by constructor.
Qed.

(** What a selection did: its attempts, why it went beyond the first, and that
    what it returns is what the last attempt selected. *)
Definition attempts_spec (o : outcome T) (tr : trace) : Prop :=
  let primary := mkAttempt (default 0 groupID) None in
  ∃ k1 k2 source, attempts tr = primary :: k1 ++ k2 ∧
    (length k1 ≤ 1)%nat ∧ (length k2 ≤ 1)%nat ∧
    Forall (via_group source) k1 ∧ Forall via_key k2 ∧
    (context_group = source ∨
     (context_group = None ∧ ∃ l, load = Some l ∧ l (default 0 groupID) = Some source)) ∧
    (k1 ++ k2 ≠ [] → ∃ e, selectInGroup primary = Err e ∧ authorizes e = true ∧
       ctx_gone = false ∧ force = false ∧
       (∀ g, source = Some g → StrictEnabled g = true → e = StrictExhausted)) ∧
    (∀ v, o = Selected v → ∃ a, last (attempts tr) = Some a ∧ selectInGroup a = Ok v).

Lemma unavailable_authorizes source e :
  unavailableForGroupFallback ctx_gone force source e = true →
  authorizes e = true ∧ ctx_gone = false ∧ force = false ∧
  (∀ g, source = Some g → StrictEnabled g = true → e = StrictExhausted).
Proof.
  unfold unavailableForGroupFallback.
  destruct ctx_gone; [done|]. destruct force; [done|].
  destruct (_ && negb (is_strict_exhausted e)) eqn:E; [done|].
  intros He. split_and!; try done. intros g -> Hst. rewrite Hst in E. by destruct e.
Qed.

(** Stopping after the first attempt. *)
Lemma attempts_primary o :
  let primary := mkAttempt (default 0 groupID) None in
  (∀ v, o = Selected v → selectInGroup primary = Ok v) →
  attempts_spec o (mkTrace [primary] [] false rt).
Proof.
  intros primary Ho. exists [], [], context_group.
  split_and!; try done; simpl; try lia; [by left|]. intros v Hv. eauto.
Qed.

(** Going on once the source group is known. *)
Lemma attempts_further source e :
  let primary := mkAttempt (default 0 groupID) None in
  selectInGroup primary = Err e →
  (context_group = source ∨
   (context_group = None ∧ ∃ l, load = Some l ∧ l (default 0 groupID) = Some source)) →
  let '(o, tr) := if negb (unavailableForGroupFallback ctx_gone force source e)
                  then (Failed e, mkTrace [primary] [] false rt)
                  else group_stage source e (mkTrace [primary] [] false rt) in
  attempts_spec o tr.
Proof.
  intros primary Hp Hsrc.
  destruct (unavailableForGroupFallback _ _ source e) eqn:Hu; cbn [negb];
    [|by apply attempts_primary].
  pose proof (group_stage_spec source e (mkTrace [primary] [] false rt)) as Hg.
  destruct (group_stage _ _ _) as [o tr]. destruct Hg as [(k1 & k2 & ? & ? & ? & ? & ?) ?].
  exists k1, k2, source. split_and!; try done.
  intros _. apply unavailable_authorizes in Hu. eauto.
Qed.

(** ** Properties *)

(** A request makes at most three attempts: its own group; then, only when
    that failed for want of accounts (in strict mode: with every tier proved
    down), one on the source group's active same-platform fallback, still billed
    to the source; then one on the API key's own fallback group, billed to it.
    The fallback's own fallback is never followed, and what is returned is what
    the last attempt selected. *)
Theorem fallback_attempts_spec :
  let '(o, tr) := selectWithGroupFallback in attempts_spec o tr.
Proof.
  unfold selectWithGroupFallback.
  destruct (selectInGroup _) as [v|err] eqn:Hp.
  { apply attempts_primary. by intros ? [= <-]. }
  destruct (_ || ctx_gone); [by apply attempts_primary|].
  destruct (apiKeyFallbackRoutingActive _ _); [by apply attempts_primary|].
  destruct (negb (unavailableForGroupFallback _ _ context_group err)) eqn:Hu0;
    [by apply attempts_primary|].
  destruct context_group as [g|] eqn:Hcg.
  { apply (attempts_further (Some g)); [done|]. by left. }
  destruct load as [l|] eqn:Hl.
  - destruct (l (default 0 groupID)) as [source|] eqn:Hls; [|by apply attempts_primary].
    apply (attempts_further source); [done|]. right. rewrite Hl. eauto.
  - apply (attempts_further None); [done|]. by left.
Qed.

End Select.
End GroupFallback.
