(* ===== verification/Idempotency.v ===== *)
(** * Idempotent execution of write requests

    Models [service/idempotency.go] (keys, stored responses, [Execute]) over an
    interface to the record store.  Between any two repository calls of
    [Execute] other requests may change the store, and any call may fail; what a
    failed call wrote all the same is part of the next such change. *)

From S2P Require Import Prelude GoStrings.

Module Idempotency.
Import GoStrings.

Definition StatusProcessing : string := "processing".
Definition StatusSucceeded : string := "succeeded".
Definition StatusFailedRetryable : string := "failed_retryable".

Record IdempotencyRecord := mkRecord {
  ID : Z;
  Scope : bytes;
  KeyHash : bytes;
  RequestFingerprint : bytes;
  Status : string;
  ResponseStatus : option Z;
  ResponseBody : option bytes;
  ErrorReason : option string;
  LockedUntil : option time;
  ExpiresAt : time
}.

(** [locked_until IS NULL OR locked_until <= now]. *)
Definition unlocked (now : time) (l : option time) : bool :=
  match l with None => true | Some l => l <=? now end.

Definition with_claim (locked expires : time) (r : IdempotencyRecord) : IdempotencyRecord :=
  mkRecord (ID r) (Scope r) (KeyHash r) (RequestFingerprint r) StatusProcessing
    (ResponseStatus r) (ResponseBody r) None (Some locked) expires.
Definition with_lock (locked expires : time) (r : IdempotencyRecord) : IdempotencyRecord :=
  mkRecord (ID r) (Scope r) (KeyHash r) (RequestFingerprint r) (Status r)
    (ResponseStatus r) (ResponseBody r) (ErrorReason r) (Some locked) expires.
Definition with_success (status : Z) (body : bytes) (expires : time) (r : IdempotencyRecord)
    : IdempotencyRecord :=
  mkRecord (ID r) (Scope r) (KeyHash r) (RequestFingerprint r) StatusSucceeded
    (Some status) (Some body) None None expires.
Definition with_failure (reason : string) (locked expires : time) (r : IdempotencyRecord)
    : IdempotencyRecord :=
  mkRecord (ID r) (Scope r) (KeyHash r) (RequestFingerprint r) StatusFailedRetryable
    (ResponseStatus r) (ResponseBody r) (Some reason) (Some locked) expires.

(** ** The interface *)

(** [db'] shows, under the key, what [f] makes of what [db] shows, and what
    [db] shows under every other key. *)
Definition only_key {DB} (get : bytes → bytes → DB → option IdempotencyRecord) (s h : bytes)
    (f : option IdempotencyRecord → option IdempotencyRecord) (db db' : DB) : Prop :=
  get s h db' = f (get s h db) ∧ ∀ s' h', (s', h') ≠ (s, h) → get s' h' db' = get s' h' db.

Class IdempotencyRepository (DB : Type) := {
  (** the new id, unless the key exists *)
  CreateProcessing : IdempotencyRecord → DB → option Z * DB;
  GetByScopeAndKeyHash : bytes → bytes → DB → option IdempotencyRecord;
  TryReclaim : Z → string → time → time → time → DB → bool * DB;
  ExtendProcessingLock : Z → bytes → time → time → DB → bool * DB;
  MarkSucceeded : Z → Z → bytes → time → DB → DB;
  MarkFailedRetryable : Z → string → time → time → DB → DB;
  DeleteExpired : time → Z → DB → Z * DB;

  db_ok : DB → Prop;
  create_new : ∀ r db id db', db_ok db → CreateProcessing r db = (Some id, db') →
    db_ok db' ∧ id ≠ 0 ∧ GetByScopeAndKeyHash (Scope r) (KeyHash r) db = None ∧
    only_key GetByScopeAndKeyHash (Scope r) (KeyHash r)
      (λ _, Some (mkRecord id (Scope r) (KeyHash r) (RequestFingerprint r) (Status r)
                    None None None (LockedUntil r) (ExpiresAt r))) db db';
  create_existing : ∀ r db db', db_ok db → CreateProcessing r db = (None, db') →
    db_ok db' ∧ is_Some (GetByScopeAndKeyHash (Scope r) (KeyHash r) db) ∧
    only_key GetByScopeAndKeyHash (Scope r) (KeyHash r) (λ o, o) db db';
  get_ok : ∀ db s h r, db_ok db → GetByScopeAndKeyHash s h db = Some r →
    Scope r = s ∧ KeyHash r = h ∧ ID r ≠ 0;
  reclaim_ok : ∀ db s h r from now locked expires, db_ok db →
    GetByScopeAndKeyHash s h db = Some r →
    let ok := bool_decide (Status r = from) && unlocked now (LockedUntil r) in
    (TryReclaim (ID r) from now locked expires db).1 = ok ∧
    db_ok (TryReclaim (ID r) from now locked expires db).2 ∧
    only_key GetByScopeAndKeyHash s h
      (λ _, Some (if ok then with_claim locked expires r else r))
      db (TryReclaim (ID r) from now locked expires db).2;
  extend_ok : ∀ db s h r fp locked expires, db_ok db →
    GetByScopeAndKeyHash s h db = Some r →
    let ok := bool_decide (Status r = StatusProcessing) && bool_decide (RequestFingerprint r = fp) in
    (ExtendProcessingLock (ID r) fp locked expires db).1 = ok ∧
    db_ok (ExtendProcessingLock (ID r) fp locked expires db).2 ∧
    only_key GetByScopeAndKeyHash s h
      (λ _, Some (if ok then with_lock locked expires r else r))
      db (ExtendProcessingLock (ID r) fp locked expires db).2;
  succeeded_ok : ∀ db s h r status body expires, db_ok db →
    GetByScopeAndKeyHash s h db = Some r →
    db_ok (MarkSucceeded (ID r) status body expires db) ∧
    only_key GetByScopeAndKeyHash s h (λ _, Some (with_success status body expires r))
      db (MarkSucceeded (ID r) status body expires db);
  failed_ok : ∀ db s h r reason locked expires, db_ok db →
    GetByScopeAndKeyHash s h db = Some r →
    db_ok (MarkFailedRetryable (ID r) reason locked expires db) ∧
    only_key GetByScopeAndKeyHash s h (λ _, Some (with_failure reason locked expires r))
      db (MarkFailedRetryable (ID r) reason locked expires db)
}.

(** ** Keys and stored text *)

Inductive idem_error :=
  | ExecutorNil | KeyRequired | KeyInvalid | KeyConflict | InvalidPayload | ScopeRequired
  | StoreUnavail
  | InProgress (retry_after : option Z)
  | RetryBackoff (retry_after : option Z)
  | ExecFailed (reason : string).

(** A rune outside 33..126 has a byte outside it. *)
Definition NormalizeIdempotencyKey (raw : bytes) : result idem_error bytes :=
  let key := TrimSpace raw in
  if bool_decide (key = []) then Ok []
  else if 128 <? Z.of_nat (length key) then Err KeyInvalid
  else if forallb (within 33 126) key then Ok key else Err KeyInvalid.

Fixpoint truncate_loop (maxBytes : nat) (s : bytes) : bytes :=
  match maxBytes with
  | O => take 0 s
  | S m => if ValidString (take maxBytes s) then take maxBytes s else truncate_loop m s
  end.

Definition truncateUTF8 (s : bytes) (maxBytes : Z) : bytes :=
  if (maxBytes <=? 0) || (Z.of_nat (length s) <=? maxBytes) then s
  else truncate_loop (Z.to_nat maxBytes) s.

(** [int(lockedUntil.Sub(now).Seconds())], at least one; [None] is no metadata.
    The float64 of [Seconds] truncates to the whole seconds for waits of up to
    some weeks. *)
Definition conflict_retry_after (lockedUntil : option time) (now : time) : option Z :=
  match lockedUntil with
  | None => None
  | Some l => let sec := Z.quot (time_sub l now) second in
              Some (if sec <=? 0 then 1 else sec)
  end.

Definition truncated_suffix : bytes := lit "...(truncated)".

Record IdempotencyConfig := mkConfig {
  DefaultTTL : duration;
  SystemOperationTTL : duration;
  ProcessingTimeout : duration;
  FailedRetryBackoff : duration;
  MaxStoredResponseLen : Z;
  ObserveOnly : bool
}.

Definition DefaultIdempotencyConfig : IdempotencyConfig :=
  mkConfig (24 * hour) (1 * hour) (30 * second) (5 * second) (64 * 1024) true.

Definition DefaultWriteIdempotencyTTL (c : option IdempotencyConfig) : duration :=
  match c with
  | Some c => if 0 <? DefaultTTL c then DefaultTTL c else DefaultTTL DefaultIdempotencyConfig
  | None => DefaultTTL DefaultIdempotencyConfig
  end.

Definition DefaultSystemOperationIdempotencyTTL (c : option IdempotencyConfig) : duration :=
  match c with
  | Some c => if 0 <? SystemOperationTTL c then SystemOperationTTL c
              else SystemOperationTTL DefaultIdempotencyConfig
  | None => SystemOperationTTL DefaultIdempotencyConfig
  end.

Record options (P : Type) := mkOptions {
  o_scope : bytes;
  o_actor : bytes;
  o_method : bytes;
  o_route : bytes;
  o_key : bytes;
  o_payload : P;
  o_ttl : duration;
  o_require : bool;
  o_timeout : duration
}.
Arguments o_scope {P}. Arguments o_actor {P}. Arguments o_method {P}. Arguments o_route {P}.
Arguments o_key {P}. Arguments o_payload {P}. Arguments o_ttl {P}. Arguments o_require {P}.
Arguments o_timeout {P}.
Arguments mkOptions {P}.

Inductive outcome (A : Type) := Done (data : A) (replayed : bool) | Fail (e : idem_error).
Arguments Done {A} data replayed.
Arguments Fail {A} e.

Section Execute.
Context {DB A P : Type} `{IdempotencyRepository DB}.

(** Packages [crypto/sha256] (with [hex]), [encoding/json], the upper-casing of
    the method and the redaction of secrets; [stored_view] is the value a
    response shows to the store ([IdempotencyStoredResponse]). *)
Context (sha256hex ToUpper redact : bytes → bytes)
        (marshalPayload : P → option bytes)
        (marshal : A → option bytes) (unmarshal : bytes → option A) (emptyObject : A)
        (stored_view : A → A).

Definition HashIdempotencyKey (key : bytes) : bytes := sha256hex key.

Definition or_default (s : bytes) (d : string) : bytes := if bool_decide (s = []) then lit d else s.

Definition BuildIdempotencyFingerprint (method route actor : bytes) (payload : P)
    : result idem_error bytes :=
  match marshalPayload payload with
  | None => Err InvalidPayload
  | Some raw => Ok (sha256hex (ToUpper (or_default method "POST") ++ [LF] ++ or_default route "/"
                               ++ [LF] ++ or_default actor "anonymous" ++ [LF] ++ raw))
  end.

Section Config.
Context (cfg : IdempotencyConfig).

Definition marshalStoredResponse (data : A) : option bytes :=
  match marshal (stored_view data) with
  | None => None
  | Some raw =>
      let redacted := redact raw in
      Some (if (0 <? MaxStoredResponseLen cfg)
               && (MaxStoredResponseLen cfg <? Z.of_nat (length redacted))
            then truncateUTF8 redacted (MaxStoredResponseLen cfg) ++ truncated_suffix
            else redacted)
  end.

Definition decodeStoredResponse (stored : option bytes) : option A :=
  match stored with
  | None => Some emptyObject
  | Some s => if bool_decide (TrimSpace s = []) then Some emptyObject else unmarshal s
  end.

(** ** Execute

    [env i] is what other requests do to the store before the [i]-th repository
    call of this one, [fails i] whether that call fails.  [now] is the time read
    at the start, [later] when the execution has ended. *)
Context (env : nat → DB → DB) (fails : nat → bool).

Record world := mkWorld { w_db : DB; w_calls : nat; w_executed : nat }.

Definition call {X} (op : DB → X * DB) (w : world) : option X * world :=
  let db := env (w_calls w) (w_db w) in
  if fails (w_calls w) then (None, mkWorld db (S (w_calls w)) (w_executed w))
  else let '(x, db) := op db in (Some x, mkWorld db (S (w_calls w)) (w_executed w)).

Definition call_get (scope hash : bytes) : world → option (option IdempotencyRecord) * world :=
  call (λ db, (GetByScopeAndKeyHash scope hash db, db)).

(** How the claim phase ends: with the id to execute under, or with an answer. *)
Inductive claim_outcome := Claimed (id : Z) | Answer (o : outcome A).

(** [record.ID == 0] is refused whatever the claim was. *)
Definition with_id (id : Z) (w : world) : claim_outcome * world :=
  if id =? 0 then (Answer (Fail StoreUnavail), w) else (Claimed id, w).

(** The decision on a record that was not reclaimed as expired. *)
Definition existing_answer (existing : IdempotencyRecord) (now locked expires : time) (w : world)
    : claim_outcome * world :=
  if bool_decide (Status existing = StatusSucceeded) then
    match decodeStoredResponse (ResponseBody existing) with
    | None => (Answer (Fail StoreUnavail), w)
    | Some data => (Answer (Done data true), w)
    end
  else if bool_decide (Status existing = StatusProcessing) then
    (Answer (Fail (InProgress (conflict_retry_after (LockedUntil existing) now))), w)
  else if bool_decide (Status existing = StatusFailedRetryable) then
    if match LockedUntil existing with Some l => after l now | None => false end then
      (Answer (Fail (RetryBackoff (conflict_retry_after (LockedUntil existing) now))), w)
    else
      match call (TryReclaim (ID existing) StatusFailedRetryable now locked expires) w with
      | (None, w) => (Answer (Fail StoreUnavail), w)
      | (Some false, w) =>
          (Answer (Fail (InProgress (conflict_retry_after (LockedUntil existing) now))), w)
      | (Some true, w) => with_id (ID existing) w
      end
  else (Answer (Fail KeyConflict), w).

Definition claim_phase (scope hash fingerprint : bytes) (now locked expires : time) (w : world)
    : claim_outcome * world :=
  let record := mkRecord 0 scope hash fingerprint StatusProcessing None None None
                  (Some locked) expires in
  match call (CreateProcessing record) w with
  | (None, w) => (Answer (Fail StoreUnavail), w)
  | (Some (Some id), w) => with_id id w
  | (Some None, w) =>
      match call_get scope hash w with
      | (None, w) | (Some None, w) => (Answer (Fail StoreUnavail), w)
      | (Some (Some existing), w) =>
          if bool_decide (RequestFingerprint existing ≠ fingerprint)
          then (Answer (Fail KeyConflict), w)
          else if negb (after (ExpiresAt existing) now) then
            match call (TryReclaim (ID existing) (Status existing) now locked expires) w with
            | (None, w) => (Answer (Fail StoreUnavail), w)
            | (Some true, w) => with_id (ID existing) w
            | (Some false, w) =>
                match call_get scope hash w with
                | (None, w) | (Some None, w) => (Answer (Fail StoreUnavail), w)
                | (Some (Some latest), w) =>
                    if bool_decide (RequestFingerprint latest ≠ fingerprint)
                    then (Answer (Fail KeyConflict), w)
                    else existing_answer latest now locked expires w
                end
            end
          else existing_answer existing now locked expires w
      end
  end.

Definition run (execute : result string A) (w : world) : result string A * world :=
  (execute, mkWorld (w_db w) (w_calls w) (S (w_executed w))).

Definition failure_reason (reason : string) : string :=
  if bool_decide (reason = "") then "EXECUTION_FAILED" else reason.

(** The execution and the recording of its result under the claimed id. *)
Definition execute_phase (id : Z) (execute : result string A) (later expires : time) (w : world)
    : outcome A * world :=
  let '(res, w) := run execute w in
  match res with
  | Err reason =>
      let reason := failure_reason reason in
      let '(_, w) := call (λ db, (tt, MarkFailedRetryable id reason
                                        (later + FailedRetryBackoff cfg) expires db)) w in
      (Fail (ExecFailed reason), w)
  | Ok data =>
      match marshalStoredResponse data with
      | None => (Fail StoreUnavail, w)
      | Some body =>
          match call (λ db, (tt, MarkSucceeded id 200 body expires db)) w with
          | (None, w) => (Fail StoreUnavail, w)
          | (Some _, w) => (Done data false, w)
          end
      end
  end.

Definition effective_ttl (opts : options P) : duration :=
  if o_ttl opts <=? 0 then DefaultTTL cfg else o_ttl opts.

Definition result_expiry (opts : options P) (now later : time) : time :=
  if 0 <? o_timeout opts then later + effective_ttl opts else now + effective_ttl opts.

(** [repo] tells whether the coordinator has a repository. *)
Definition Execute (repo : bool) (opts : options P) (execute : option (result string A))
    (now later : time) (w : world) : outcome A * world :=
  match execute with
  | None => (Fail ExecutorNil, w)
  | Some execute =>
    match NormalizeIdempotencyKey (o_key opts) with
    | Err e => (Fail e, w)
    | Ok key =>
      if bool_decide (key = []) then
        if o_require opts && negb (ObserveOnly cfg) then (Fail KeyRequired, w)
        else match run execute w with
             | (Ok data, w) => (Done data false, w)
             | (Err reason, w) => (Fail (ExecFailed reason), w)
             end
      else if negb repo then (Fail StoreUnavail, w)
      else if bool_decide (o_scope opts = []) then (Fail ScopeRequired, w)
      else
        match BuildIdempotencyFingerprint (o_method opts) (o_route opts) (o_actor opts)
                (o_payload opts) with
        | Err e => (Fail e, w)
        | Ok fingerprint =>
            match claim_phase (o_scope opts) (HashIdempotencyKey key) fingerprint now
                    (now + ProcessingTimeout cfg) (now + effective_ttl opts) w with
            | (Answer o, w) => (o, w)
            | (Claimed id, w) =>
                execute_phase id execute later (result_expiry opts now later) w
            end
        end
    end
  end.

(** The lease renewal: one tick extends the claim unless the record is no longer
    this request's; a tick whose call fails is skipped, the first refusal ends
    the loop.  A tick is its time, whether its call fails, and what others do to
    the store before it. *)
Definition renew_tick (id : Z) (fp : bytes) (ttl : duration) (now : time) (db : DB) : bool * DB :=
  let lease := if ProcessingTimeout cfg <=? 0 then ProcessingTimeout DefaultIdempotencyConfig
               else ProcessingTimeout cfg in
  ExtendProcessingLock id fp (now + lease) (now + ttl) db.

Definition renew_interval (ttl : duration) : duration :=
  let lease := if ProcessingTimeout cfg <=? 0 then ProcessingTimeout DefaultIdempotencyConfig
               else ProcessingTimeout cfg in
  let interval := Z.min (Z.quot lease 3) (Z.quot ttl 3) in
  if interval <? millisecond then millisecond else interval.

Fixpoint renewProcessingLease (id : Z) (fp : bytes) (ttl : duration)
    (ticks : list (time * bool * (DB → DB))) (db : DB) : DB :=
  match ticks with
  | [] => db
  | (now, failed, others) :: ticks =>
      if failed : bool then renewProcessingLease id fp ttl ticks (others db)
      else match renew_tick id fp ttl now (others db) with
           | (true, db) => renewProcessingLease id fp ttl ticks db
           | (false, db) => db
           end
  end.

End Config.

(** A request that meets no other request and no failing call. *)
Definition ExecuteAlone (cfg : IdempotencyConfig) : bool → options P → option (result string A) →
    time → time → world → outcome A * world :=
  Execute cfg (λ _ db, db) (λ _, false).

(** ** Lemmas *)

Section Lemmas.
Context (cfg : IdempotencyConfig) (env : nat → DB → DB) (fails : nat → bool).

Abbreviation call := (call env fails).
Abbreviation existing_answer := (existing_answer env fails).
Abbreviation claim_phase := (claim_phase env fails).
Abbreviation execute_phase := (execute_phase cfg env fails).
Abbreviation Execute := (Execute cfg env fails).
Abbreviation marshalStoredResponse := (marshalStoredResponse cfg).

Lemma call_executed {X} (op : DB → X * DB) w r w' : call op w = (r, w') → w_executed w' = w_executed w.
Proof. unfold call. repeat case_match; by intros [= <- <-]. Qed.

Lemma with_id_executed id w c w' : with_id id w = (c, w') → w' = w ∧ ∀ d, c ≠ Answer (Done d false).
Proof. unfold with_id. by case_match; intros [= <- <-]. Qed.

Lemma existing_executed e now locked expires w c w' :
  existing_answer e now locked expires w = (c, w') →
  w_executed w' = w_executed w ∧ ∀ d r, c ≠ Answer (Fail (ExecFailed r)) ∧ c ≠ Answer (Done d false).
Proof.
  unfold existing_answer. repeat (case_match; simplify_eq/=); intros Hr; simplify_eq; try done;
    repeat match goal with
    | Hc : call _ _ = _ |- _ => apply call_executed in Hc
    | Hc : with_id _ _ = _ |- _ => unfold with_id in Hc; case_match; simplify_eq
    end; (split; [congruence|done]).
Qed.

Lemma claim_executed scope hash fp now locked expires w c w' :
  claim_phase scope hash fp now locked expires w = (c, w') →
  w_executed w' = w_executed w ∧ ∀ d r, c ≠ Answer (Fail (ExecFailed r)) ∧ c ≠ Answer (Done d false).
Proof.
  unfold claim_phase, call_get. repeat (case_match; simplify_eq/=); intros Hr; simplify_eq; try done;
    repeat match goal with
    | Hc : call _ _ = _ |- _ => apply call_executed in Hc
    | Hc : existing_answer _ _ _ _ _ = _ |- _ => apply existing_executed in Hc as [? ?]
    | Hc : with_id _ _ = _ |- _ => unfold with_id in Hc; case_match; simplify_eq
    end; (split; [congruence|done]).
Qed.

End Lemmas.

(** ** Requests that meet no other request *)

Abbreviation get := GetByScopeAndKeyHash.
Abbreviation alone_claim := (claim_phase (λ _ db, db) (λ _, false)).
Abbreviation alone_existing := (existing_answer (λ _ db, db) (λ _, false)).

(** A request with a key the coordinator acts on. *)
Definition keyed (opts : options P) (key fp : bytes) : Prop :=
  NormalizeIdempotencyKey (o_key opts) = Ok key ∧ key ≠ [] ∧ o_scope opts ≠ [] ∧
  BuildIdempotencyFingerprint (o_method opts) (o_route opts) (o_actor opts) (o_payload opts) = Ok fp.

Lemma Execute_keyed cfg env fails opts key fp ex now later w : keyed opts key fp →
  Execute cfg env fails true opts (Some ex) now later w =
  match claim_phase env fails (o_scope opts) (HashIdempotencyKey key) fp now
          (now + ProcessingTimeout cfg) (now + effective_ttl cfg opts) w with
  | (Answer o, w) => (o, w)
  | (Claimed id, w) => execute_phase cfg env fails id ex later (result_expiry cfg opts now later) w
  end.
Proof.
  intros (Hk & Hne & Hs & Hf). unfold Execute. rewrite Hk.
  rewrite !bool_decide_false by done. simpl. by rewrite Hf.
Qed.

(** The store after a keyed request: sound, and as before under other keys. *)
Definition untouched (s h : bytes) (db db' : DB) : Prop :=
  db_ok db' ∧ ∀ s' h', (s', h') ≠ (s, h) → get s' h' db' = get s' h' db.

Lemma untouched_refl s h db : db_ok db → untouched s h db db.
Proof. by split. Qed.
Lemma untouched_trans s h db1 db2 db3 :
  untouched s h db1 db2 → untouched s h db2 db3 → untouched s h db1 db3.
Proof. intros [? H1] [? H2]. split; [done|]. intros s' h' Hn. by rewrite H2, H1. Qed.
Lemma only_key_untouched s h f db db' : db_ok db' → only_key get s h f db db' → untouched s h db db'.
Proof. intros ? [_ ?]. by split. Qed.

(** The claimed record, in the store. *)
Definition claimed (s h fp : bytes) (locked expires : time) (db : DB) (id : Z) : Prop :=
  ∃ r, get s h db = Some r ∧ ID r = id ∧ RequestFingerprint r = fp ∧ Status r = StatusProcessing ∧
       LockedUntil r = Some locked ∧ ExpiresAt r = expires.

Lemma call_alone {X} (op : DB → X * DB) w :
  call (λ _ db, db) (λ _, false) op w
  = (Some (op (w_db w)).1, mkWorld (op (w_db w)).2 (S (w_calls w)) (w_executed w)).
Proof. unfold call. by destruct (op (w_db w)). Qed.

Arguments call : simpl never.
Arguments call_get : simpl never.
Arguments existing_answer : simpl never.

(** Reclaiming a record that is there. *)
Lemma reclaim_alone s h fp r from now locked expires n e c w' db :
  db_ok db → get s h db = Some r → RequestFingerprint r = fp →
  (match call (λ _ db, db) (λ _, false) (TryReclaim (ID r) from now locked expires) (mkWorld db n e) with
   | (None, w) => (Answer (Fail StoreUnavail), w)
   | (Some false, w) =>
       (Answer (Fail (InProgress (conflict_retry_after (LockedUntil r) now))), w)
   | (Some true, w) => with_id (ID r) w
   end) = (c, w') →
  untouched s h db (w_db w') ∧
  if bool_decide (Status r = from) && unlocked now (LockedUntil r)
  then c = Claimed (ID r) ∧ claimed s h fp locked expires (w_db w') (ID r)
  else c = Answer (Fail (InProgress (conflict_retry_after (LockedUntil r) now))) ∧
       get s h (w_db w') = Some r.
Proof.
  intros Hok Hg Hf. rewrite call_alone. simpl.
  destruct (reclaim_ok db s h r from now locked expires Hok Hg) as (Hb & Hok' & Hk).
  destruct (TryReclaim (ID r) from now locked expires db) as [b db']. simpl in *. subst b.
  destruct (get_ok db s h r Hok Hg) as (_ & _ & Hid).
  destruct (bool_decide (Status r = from) && _).
  - unfold with_id. rewrite (proj2 (Z.eqb_neq _ _) Hid). intros [= <- <-]. simpl.
    split; [by eapply only_key_untouched|]. split; [done|].
    exists (with_claim locked expires r). split; [apply Hk|done].
  - intros [= <- <-]. simpl. split; [by eapply only_key_untouched|]. split; [done|apply Hk].
Qed.

Lemma existing_alone s h fp r now locked expires w c w' :
  db_ok (w_db w) → get s h (w_db w) = Some r → RequestFingerprint r = fp →
  alone_existing r now locked expires w = (c, w') →
  untouched s h (w_db w) (w_db w') ∧
  match c with
  | Claimed id => claimed s h fp locked expires (w_db w') id
  | Answer _ => get s h (w_db w') = Some r
  end.
Proof.
  intros Hok Hg Hf. destruct w as [db n e]. simpl in *. unfold existing_answer.
  assert (Huntouched := untouched_refl s h db Hok).
  case_bool_decide; [by destruct (decodeStoredResponse _); intros [= <- <-]|].
  case_bool_decide; [by intros [= <- <-]|].
  case_bool_decide as Hs; [|by intros [= <- <-]].
  destruct (match LockedUntil r with Some l => after l now | None => false end);
    [by intros [= <- <-]|].
  intros Hr. eapply reclaim_alone in Hr as [Hu Hr]; [|done..]. split; [done|].
  destruct (bool_decide _ && _); destruct Hr as [-> ?]; done.
Qed.

(** The store a keyed request meets after its attempt to create the record. *)
Lemma claim_alone_existing s h fp r now locked expires w :
  db_ok (w_db w) → get s h (w_db w) = Some r →
  ∃ w1, untouched s h (w_db w) (w_db w1) ∧ get s h (w_db w1) = Some r ∧
    w_executed w1 = w_executed w ∧
    alone_claim s h fp now locked expires w =
      if bool_decide (RequestFingerprint r ≠ fp) then (Answer (Fail KeyConflict), w1)
      else if after (ExpiresAt r) now then alone_existing r now locked expires w1
      else
        match call (λ _ db, db) (λ _, false)
                (TryReclaim (ID r) (Status r) now locked expires) w1 with
        | (None, w) => (Answer (Fail StoreUnavail), w)
        | (Some true, w) => with_id (ID r) w
        | (Some false, w) =>
            match call_get (λ _ db, db) (λ _, false) s h w with
            | (None, w) | (Some None, w) => (Answer (Fail StoreUnavail), w)
            | (Some (Some latest), w) =>
                if bool_decide (RequestFingerprint latest ≠ fp)
                then (Answer (Fail KeyConflict), w)
                else alone_existing latest now locked expires w
            end
        end.
Proof.
  intros Hok Hg. destruct w as [db n e]. simpl in *.
  set (rec := mkRecord 0 s h fp StatusProcessing None None None (Some locked) expires).
  destruct (CreateProcessing rec db) as [[id|] db1] eqn:Hc.
  - apply create_new in Hc as (_ & _ & Hn & _); [|done]. simpl in Hn. by rewrite Hg in Hn.
  - pose proof (create_existing rec db db1 Hok Hc) as (Hok1 & _ & Hk). simpl in Hk.
    exists (mkWorld db1 (S (S n)) e). simpl.
    split; [by eapply only_key_untouched|]. split; [destruct Hk as [Hk _]; by rewrite Hk|].
    split; [done|]. unfold claim_phase. fold rec. rewrite call_alone. simpl. rewrite Hc. simpl.
    unfold call_get. rewrite call_alone. simpl. destruct Hk as [Hk _]. rewrite Hk, Hg.
    destruct (bool_decide _); [done|]. unfold after.
    destruct (now <? ExpiresAt r); simpl; by rewrite ?call_alone.
Qed.

Lemma claim_alone_new s h fp now locked expires w :
  db_ok (w_db w) → get s h (w_db w) = None →
  ∃ id w', alone_claim s h fp now locked expires w = (Claimed id, w') ∧
    untouched s h (w_db w) (w_db w') ∧ claimed s h fp locked expires (w_db w') id.
Proof.
  intros Hok Hg. destruct w as [db n e]. simpl in *.
  unfold claim_phase. rewrite call_alone. simpl.
  set (rec := mkRecord 0 s h fp StatusProcessing None None None (Some locked) expires).
  destruct (CreateProcessing rec db) as [[id|] db1] eqn:Hc.
  - apply create_new in Hc as (Hok1 & Hid & _ & Hk); [|done].
    exists id, (mkWorld db1 (S n) e). cbn [fst snd]. unfold with_id. rewrite (proj2 (Z.eqb_neq _ _) Hid).
    split; [done|]. split; [by eapply only_key_untouched|]. eexists. by split; [apply Hk|].
  - apply create_existing in Hc as (_ & [r Hr] & _); [|done]. simpl in Hr. by rewrite Hg in Hr.
Qed.

Lemma claim_alone s h fp now locked expires w c w' :
  db_ok (w_db w) → alone_claim s h fp now locked expires w = (c, w') →
  untouched s h (w_db w) (w_db w') ∧
  match c with
  | Claimed id => claimed s h fp locked expires (w_db w') id
  | Answer _ => get s h (w_db w') = get s h (w_db w)
  end.
Proof.
  intros Hok Hc. destruct (get s h (w_db w)) as [r|] eqn:Hg.
  2: { destruct (claim_alone_new s h fp now locked expires w Hok Hg) as (id & w2 & E & ? & ?).
       rewrite E in Hc. by simplify_eq. }
  destruct (claim_alone_existing s h fp r now locked expires w Hok Hg) as (w1 & Hu & Hg1 & _ & E).
  rewrite E in Hc. clear E. assert (db_ok (w_db w1)) as Hok1 by apply Hu.
  assert (∀ w2, untouched s h (w_db w1) (w_db w2) → untouched s h (w_db w) (w_db w2)) as Ht
    by (intros; by eapply untouched_trans).
  case_bool_decide as Hf; [by simplify_eq|].
  assert (RequestFingerprint r = fp) as Hf' by (destruct (decide (RequestFingerprint r = fp)); [done|by destruct Hf]).
  destruct (after (ExpiresAt r) now).
  { eapply existing_alone in Hc as [Hu2 ?]; [|done..]. split; [by apply Ht|done]. }
  destruct w1 as [db1 n1 e1]. simpl in *.
  destruct (reclaim_ok db1 s h r (Status r) now locked expires Hok1 Hg1) as (Hb & Hok2 & Hk).
  rewrite call_alone in Hc. simpl in Hc.
  destruct (TryReclaim (ID r) (Status r) now locked expires db1) as [b db2]. simpl in *. subst b.
  assert (untouched s h db1 db2) as Hu2 by (by eapply only_key_untouched).
  destruct Hk as [Hk _]. destruct (bool_decide _ && _).
  - unfold with_id in Hc. destruct (get_ok db1 s h r Hok1 Hg1) as (_ & _ & Hid).
    rewrite (proj2 (Z.eqb_neq _ _) Hid) in Hc. simplify_eq. simpl.
    split; [apply (Ht (mkWorld db2 0 0)), Hu2|]. by exists (with_claim locked expires r).
  - rewrite Hk in Hc.
    rewrite bool_decide_false in Hc by (intros ?; done).
    eapply existing_alone in Hc as [Hu3 ?]; [|done..]. split; [|done].
    apply Ht. by eapply untouched_trans.
Qed.

(** What an execution leaves under its key. *)
Lemma execute_phase_alone cfg s h r ex later expires w o w' :
  db_ok (w_db w) → get s h (w_db w) = Some r →
  execute_phase cfg (λ _ db, db) (λ _, false) (ID r) ex later expires w = (o, w') →
  untouched s h (w_db w) (w_db w') ∧ w_executed w' = S (w_executed w) ∧
  match ex with
  | Err reason =>
      o = Fail (ExecFailed (failure_reason reason)) ∧
      get s h (w_db w') = Some (with_failure (failure_reason reason)
                                  (later + FailedRetryBackoff cfg) expires r)
  | Ok data =>
      match marshalStoredResponse cfg data with
      | None => o = Fail StoreUnavail ∧ get s h (w_db w') = Some r
      | Some body => o = Done data false ∧ get s h (w_db w') = Some (with_success 200 body expires r)
      end
  end.
Proof.
  intros Hok Hg. unfold execute_phase, run. destruct ex as [data|reason].
  - destruct (marshalStoredResponse cfg data) as [body|].
    + rewrite call_alone. simpl. intros [= <- <-]. simpl.
      destruct (succeeded_ok (w_db w) s h r 200 body expires Hok Hg) as [? Hk].
      split; [by eapply only_key_untouched|]. by destruct Hk as [-> _].
    + intros [= <- <-]. simpl. by split; [apply untouched_refl|].
  - rewrite call_alone. simpl. intros [= <- <-]. simpl.
    destruct (failed_ok (w_db w) s h r (failure_reason reason)
                (later + FailedRetryBackoff cfg) expires Hok Hg) as [? Hk].
    split; [by eapply only_key_untouched|]. by destruct Hk as [-> _].
Qed.

(** How a keyed request that executed left its record. *)
Lemma execute_alone_ran cfg opts key fp ex now later w o w' :
  keyed opts key fp → db_ok (w_db w) →
  ExecuteAlone cfg true opts (Some ex) now later w = (o, w') →
  match o with Done _ false | Fail (ExecFailed _) => True | _ => False end →
  db_ok (w_db w') ∧ ∃ r,
    RequestFingerprint r = fp ∧ ExpiresAt r = result_expiry cfg opts now later ∧
    get (o_scope opts) (HashIdempotencyKey key) (w_db w') = Some r ∧
    match ex with
    | Err reason =>
        o = Fail (ExecFailed (failure_reason reason)) ∧ Status r = StatusFailedRetryable ∧
        LockedUntil r = Some (later + FailedRetryBackoff cfg)
    | Ok data =>
        o = Done data false ∧ Status r = StatusSucceeded ∧
        ∃ body, marshalStoredResponse cfg data = Some body ∧ ResponseBody r = Some body
    end.
Proof.
  intros Hq Hok. unfold ExecuteAlone. rewrite (Execute_keyed _ _ _ _ _ _ _ _ _ _ Hq).
  destruct (alone_claim _ _ _ _ _ _ _) as [[id|o1] w1] eqn:Hc.
  2: { intros [= <- <-] Ho. apply claim_executed in Hc as [_ Hn].
       destruct o1 as [d [|]|[]]; try done;
         [by destruct (Hn d "") as [_ []]|by destruct (Hn emptyObject reason) as [[] _]]. }
  apply claim_alone in Hc as [[Hok1 _] (r & Hg & <- & Hf & _)]; [|done].
  intros Hx Ho. eapply execute_phase_alone in Hx as [[Hok' _] [_ Hx]]; [|done..]. split; [done|].
  destruct ex as [data|reason].
  - destruct (marshalStoredResponse cfg data) as [body|] eqn:Hm; destruct Hx as [-> Hg']; [|done].
    match type of Hg' with _ = Some ?r' => exists r' end. split_and!; try done. by eexists.
  - destruct Hx as [-> Hg']. match type of Hg' with _ = Some ?r' => exists r' end.
    by split_and!.
Qed.

(** A keyed request on a key whose record has its fingerprint and has not expired. *)
Lemma execute_on_existing cfg opts key fp r ex now later w :
  keyed opts key fp → db_ok (w_db w) →
  get (o_scope opts) (HashIdempotencyKey key) (w_db w) = Some r →
  RequestFingerprint r = fp → now < ExpiresAt r →
  ∃ w1, untouched (o_scope opts) (HashIdempotencyKey key) (w_db w) (w_db w1) ∧
    get (o_scope opts) (HashIdempotencyKey key) (w_db w1) = Some r ∧
    w_executed w1 = w_executed w ∧
    ExecuteAlone cfg true opts (Some ex) now later w =
      match alone_existing r now (now + ProcessingTimeout cfg) (now + effective_ttl cfg opts) w1 with
      | (Answer o, w) => (o, w)
      | (Claimed id, w) =>
          execute_phase cfg (λ _ db, db) (λ _, false) id ex later (result_expiry cfg opts now later) w
      end.
Proof.
  intros Hq Hok Hg Hf Hlive.
  destruct (claim_alone_existing (o_scope opts) (HashIdempotencyKey key) fp r now
              (now + ProcessingTimeout cfg) (now + effective_ttl cfg opts) w Hok Hg)
    as (w1 & ? & ? & ? & E).
  exists w1. do 3 (split; [done|]). unfold ExecuteAlone.
  rewrite (Execute_keyed _ _ _ _ _ _ _ _ _ _ Hq), E.
  rewrite bool_decide_false by (by intros ?). unfold after.
  by rewrite (proj2 (Z.ltb_lt _ _) Hlive).
Qed.

(** Once a keyed request has succeeded, every later request with the same
    scope, key and payload that comes before the record expires is answered
    from the stored response, marked as a replay: its operation is not run and
    the store still shows what it showed. *)
Theorem success_is_replayed cfg opts opts' key fp data ex now later now' later' w w1 w2 o w3 :
  keyed opts key fp → keyed opts' key fp → o_scope opts' = o_scope opts → db_ok (w_db w) →
  ExecuteAlone cfg true opts (Some (Ok data)) now later w = (Done data false, w1) →
  w_db w2 = w_db w1 → now' < result_expiry cfg opts now later →
  ExecuteAlone cfg true opts' (Some ex) now' later' w2 = (o, w3) →
  w_executed w3 = w_executed w2 ∧
  (∀ s h, get s h (w_db w3) = get s h (w_db w2)) ∧
  ∃ body, marshalStoredResponse cfg data = Some body ∧
    o = match decodeStoredResponse (Some body) with
        | Some replay => Done replay true
        | None => Fail StoreUnavail
        end.
Proof.
  intros Hq Hq' Hs Hok Hx Hdb Hexp Hx'.
  eapply execute_alone_ran in Hx as [Hok1 (r & Hf & He & Hg & _ & Hst & body & Hm & Hb)]; [|done..].
  rewrite <- He in Hexp. rewrite <- Hdb in Hok1, Hg. rewrite <- Hs in Hg.
  destruct (execute_on_existing cfg opts' key fp r ex now' later' w2 Hq' Hok1 Hg Hf Hexp)
    as (w4 & [_ Hu] & Hg4 & Hn & E).
  rewrite E in Hx'. unfold existing_answer in Hx'. rewrite bool_decide_true, Hb in Hx' by done.
  assert (w3 = w4 ∧ o = match decodeStoredResponse (Some body) with
                        | Some replay => Done replay true | None => Fail StoreUnavail end) as [-> ->]
    by (by destruct (decodeStoredResponse (Some body)); simplify_eq).
  split; [done|]. split; [|by eexists]. intros s h.
  destruct (decide ((s, h) = (o_scope opts', HashIdempotencyKey key))) as [[= -> ->]|]; [congruence|].
  by apply Hu.
Qed.

(** After a keyed request whose operation failed, the same request is
    refused without running, with a wait hint of at least one second, until
    the back-off is over, and runs the operation again from then on (the
    record not having expired). *)
Theorem failure_backs_off cfg opts opts' key fp reason ex now later now' later' w e w1 w2 o w3 :
  keyed opts key fp → keyed opts' key fp → o_scope opts' = o_scope opts → db_ok (w_db w) →
  ExecuteAlone cfg true opts (Some (Err reason)) now later w = (Fail (ExecFailed e), w1) →
  w_db w2 = w_db w1 → now' < result_expiry cfg opts now later →
  ExecuteAlone cfg true opts' (Some ex) now' later' w2 = (o, w3) →
  if now' <? later + FailedRetryBackoff cfg
  then w_executed w3 = w_executed w2 ∧ ∃ sec, 1 ≤ sec ∧ o = Fail (RetryBackoff (Some sec))
  else w_executed w3 = S (w_executed w2).
Proof.
  intros Hq Hq' Hs Hok Hx Hdb Hexp Hx'.
  eapply execute_alone_ran in Hx as [Hok1 (r & Hf & He & Hg & _ & Hst & Hl)]; [|done..].
  rewrite <- He in Hexp. rewrite <- Hdb in Hok1, Hg. rewrite <- Hs in Hg.
  destruct (execute_on_existing cfg opts' key fp r ex now' later' w2 Hq' Hok1 Hg Hf Hexp)
    as (w4 & [Hok4 _] & Hg4 & Hn & E).
  rewrite E in Hx'. clear E. unfold existing_answer in Hx'. rewrite Hst, Hl in Hx'. simpl in Hx'.
  unfold after in Hx'. destruct (now' <? later + FailedRetryBackoff cfg) eqn:Hb.
  - simplify_eq. split; [done|]. eexists. split; [|done].
    case_match eqn:Hz; [lia|]. apply Z.leb_gt in Hz. lia.
  - rewrite call_alone in Hx'. simpl in Hx'.
    destruct (reclaim_ok (w_db w4) (o_scope opts') (HashIdempotencyKey key) r StatusFailedRetryable
                now' (now' + ProcessingTimeout cfg) (now' + effective_ttl cfg opts') Hok4 Hg4)
      as (Hb' & Hok5 & [Hk _]).
    rewrite Hst, Hl, bool_decide_true in Hb', Hk by done. simpl in Hb', Hk.
    rewrite (proj2 (Z.leb_le _ _)) in Hb', Hk by (apply Z.ltb_ge in Hb; lia).
    rewrite Hb' in Hx'. unfold with_id in Hx'.
    destruct (get_ok _ _ _ r Hok4 Hg4) as (_ & _ & Hid).
    rewrite (proj2 (Z.eqb_neq _ _) Hid) in Hx'.
    eapply (execute_phase_alone _ _ _ (with_claim _ _ r)) in Hx' as [_ [-> _]]; [|exact Hok5|exact Hk].
    simpl. by rewrite Hn.
Qed.

(** C40: a key that already stands for another request, expired or not, is
    refused as a conflict; the operation is not run and the store still shows
    what it showed. *)
Theorem reused_key_conflicts cfg opts key fp r ex now later w o w' :
  keyed opts key fp → db_ok (w_db w) →
  get (o_scope opts) (HashIdempotencyKey key) (w_db w) = Some r → RequestFingerprint r ≠ fp →
  ExecuteAlone cfg true opts (Some ex) now later w = (o, w') →
  o = Fail KeyConflict ∧ w_executed w' = w_executed w ∧
  ∀ s h, get s h (w_db w') = get s h (w_db w).
Proof.
  intros Hq Hok Hg Hf. unfold ExecuteAlone. rewrite (Execute_keyed _ _ _ _ _ _ _ _ _ _ Hq).
  destruct (claim_alone_existing (o_scope opts) (HashIdempotencyKey key) fp r now
              (now + ProcessingTimeout cfg) (now + effective_ttl cfg opts) w Hok Hg)
    as (w1 & [_ Hu] & Hg1 & Hn & E).
  rewrite E, bool_decide_true by done. intros [= <- <-]. do 2 (split; [done|]). intros s h.
  destruct (decide ((s, h) = (o_scope opts, HashIdempotencyKey key))) as [[= -> ->]|]; [congruence|].
  by apply Hu.
Qed.

(** A keyed request leaves the store sound and the records of all other
    keys as they were. *)
Theorem execute_touches_own_key cfg opts key fp ex now later w o w' :
  keyed opts key fp → db_ok (w_db w) →
  ExecuteAlone cfg true opts (Some ex) now later w = (o, w') →
  db_ok (w_db w') ∧
  ∀ s h, (s, h) ≠ (o_scope opts, HashIdempotencyKey key) → get s h (w_db w') = get s h (w_db w).
Proof.
  intros Hq Hok. unfold ExecuteAlone. rewrite (Execute_keyed _ _ _ _ _ _ _ _ _ _ Hq).
  destruct (alone_claim _ _ _ _ _ _ _) as [[id|o1] w1] eqn:Hc; apply claim_alone in Hc; try done.
  - destruct Hc as [Hu (r & Hg & <- & _)]. intros Hx.
    eapply execute_phase_alone in Hx as [Hu' _]; [|apply Hu|done].
    eapply untouched_trans; [exact Hu|exact Hu'].
  - intros [= <- <-]. apply Hc.
Qed.

(** ** Requests among others *)

(** The store shows, under the key, the processing record [id] of another
    request whose lease covers [now] ([by_lease]) or which has not expired. *)
Definition held (s h : bytes) (id : Z) (now : time) (by_lease : bool) (db : DB) : Prop :=
  db_ok db ∧ ∃ r, get s h db = Some r ∧ ID r = id ∧ Status r = StatusProcessing ∧
    if by_lease then unlocked now (LockedUntil r) = false else after (ExpiresAt r) now = true.

Section Held.
Context (env : nat → DB → DB) (fails : nat → bool) (s h : bytes) (id : Z) (now : time) (by_lease : bool).
Context (Henv : ∀ i db, held s h id now by_lease (env i db)).

Lemma held_create fp locked expires w o w' :
  call env fails (CreateProcessing (mkRecord 0 s h fp StatusProcessing None None None
                                      (Some locked) expires)) w = (Some o, w') → o = None.
Proof.
  unfold call. destruct (fails _); [done|].
  destruct (Henv (w_calls w) (w_db w)) as (Hok & r & Hg & _).
  destruct (CreateProcessing _ _) as [[n|] db'] eqn:Hc; intros [= <- <-]; [|done].
  apply create_new in Hc as (_ & _ & Hn & _); [|done]. simpl in Hn. congruence.
Qed.

Lemma held_get w o w' : call_get env fails s h w = (Some o, w') →
  ∃ r, o = Some r ∧ ID r = id ∧ Status r = StatusProcessing ∧
    if by_lease then unlocked now (LockedUntil r) = false else after (ExpiresAt r) now = true.
Proof.
  unfold call_get, call. destruct (fails _); [done|].
  destruct (Henv (w_calls w) (w_db w)) as (Hok & r & Hg & ?).
  rewrite Hg. intros [= <- <-]. by eexists.
Qed.

Lemma held_reclaim from locked expires w b w' : by_lease = true →
  call env fails (TryReclaim id from now locked expires) w = (Some b, w') → b = false.
Proof.
  intros Hl. unfold call. destruct (fails _); [done|].
  destruct (Henv (w_calls w) (w_db w)) as (Hok & r & Hg & <- & _ & Hh). rewrite Hl in Hh.
  destruct (reclaim_ok _ _ _ r from now locked expires Hok Hg) as (Hb & _).
  destruct (TryReclaim _ _ _ _ _ _) as [b' db']. simpl in Hb. intros [= <- <-].
  by rewrite Hb, Hh, andb_false_r.
Qed.

Lemma existing_processing r locked expires w : Status r = StatusProcessing →
  existing_answer env fails r now locked expires w
  = (Answer (Fail (InProgress (conflict_retry_after (LockedUntil r) now))), w).
Proof. intros Hs. unfold existing_answer. by rewrite Hs. Qed.

Lemma held_claim fp locked expires w c w' :
  claim_phase env fails s h fp now locked expires w = (c, w') →
  match c with
  | Answer (Fail (InProgress _ | KeyConflict | StoreUnavail)) => True
  | _ => False
  end.
Proof.
  unfold claim_phase. destruct (call _ _ (CreateProcessing _) _) as [[o|] w1] eqn:Hc;
    [|by intros [= <- <-]].
  apply held_create in Hc as ->.
  destruct (call_get _ _ _ _ w1) as [[o|] w2] eqn:Hg; [|by intros [= <- <-]].
  apply held_get in Hg as (r & -> & Hid & Hs & Hh).
  case_bool_decide; [by intros [= <- <-]|]. rewrite existing_processing by done.
  destruct (negb _) eqn:Hexp; [|by intros [= <- <-]].
  assert (by_lease = true) as Hl.
  { revert Hh. clear -Hexp. destruct by_lease; [done|]. intros Hh. by rewrite Hh in Hexp. }
  rewrite Hid.
  destruct (call _ _ (TryReclaim _ _ _ _ _) _) as [[b|] w3] eqn:Hr; [|by intros [= <- <-]].
  apply held_reclaim in Hr as ->; [|done].
  destruct (call_get _ _ _ _ w3) as [[o|] w4] eqn:Hg; [|by intros [= <- <-]].
  apply held_get in Hg as (r' & -> & _ & Hs' & _).
  case_bool_decide; [by intros [= <- <-]|].
  rewrite existing_processing by done. by intros [= <- <-].
Qed.

End Held.

(** C31: while another request's record is in processing under the key (its
    lease covering the time, or the record not having expired), a request is
    refused without running, whatever else happens to the store and whichever
    calls fail. *)
Theorem held_lease_excludes cfg env fails opts key fp id by_lease ex now later w o w' :
  keyed opts key fp →
  (∀ i db, held (o_scope opts) (HashIdempotencyKey key) id now by_lease (env i db)) →
  Execute cfg env fails true opts (Some ex) now later w = (o, w') →
  w_executed w' = w_executed w ∧
  match o with Fail (InProgress _ | KeyConflict | StoreUnavail) => True | _ => False end.
Proof.
  intros Hq Henv. rewrite (Execute_keyed _ _ _ _ _ _ _ _ _ _ Hq).
  destruct (claim_phase _ _ _ _ _ _ _ _ _) as [c w1] eqn:Hc. pose proof Hc as Hx.
  apply claim_executed in Hx as [Hx _]. eapply held_claim in Hc; [|done].
  destruct c as [?|o1]; [done|]. intros [= <- <-]. by destruct o1.
Qed.

(** ** What a request needs to run its operation *)

(** Others leave the records of the key in the table, with their fingerprints; they may
    create, claim, mark and lock them, and do anything to other keys. *)
Definition stays (s h : bytes) (env : nat → DB → DB) : Prop :=
  ∀ i db, db_ok db → db_ok (env i db) ∧
    ∀ r, get s h db = Some r → ∃ r', get s h (env i db) = Some r' ∧ ID r' = ID r ∧ RequestFingerprint r' = RequestFingerprint r.

(** Why a record bars a request with the fingerprint [fp]: it is another request's; it
    is locked; it has not expired, and did not fail. *)
Inductive bar := ByFingerprint | ByLock | ByStatus.
Definition barred (s h fp : bytes) (now : time) (why : bar) (db : DB) : Prop :=
  db_ok db ∧ ∃ r, get s h db = Some r ∧
    match why with
    | ByFingerprint => RequestFingerprint r ≠ fp
    | ByLock => now < default now (LockedUntil r)
    | ByStatus => now < ExpiresAt r ∧ Status r ≠ StatusFailedRetryable
    end.

Section Claims.
Context (env : nat → DB → DB) (fails : nat → bool) (s h fp : bytes) (now locked expires : time).
Context (Henv : stays s h env).

Abbreviation shows w r := (∃ r', get s h (w_db w) = Some r' ∧ ID r' = ID r ∧ RequestFingerprint r' = RequestFingerprint r).

Lemma get_others w r o w' : db_ok (w_db w) → shows w r → call_get env fails s h w = (Some o, w') →
  db_ok (w_db w') ∧ ∃ r', o = Some r' ∧ get s h (w_db w') = Some r' ∧ ID r' = ID r ∧ RequestFingerprint r' = RequestFingerprint r.
Proof using Henv.
  intros Hok (r1 & Hg & Hid & Hf). unfold call_get, call. destruct (Henv (w_calls w) (w_db w) Hok) as [Hok' Hst].
  destruct (Hst r1 Hg) as (r2 & Hg2 & Hid2 & Hf2). destruct (fails _); [done|]. intros [= <- <-]. simpl. split; [done|].
  exists r2. split_and!; [done|done|congruence|congruence].
Qed.

Lemma reclaim_others w r from b w' : db_ok (w_db w) → shows w r →
  call env fails (TryReclaim (ID r) from now locked expires) w = (Some b, w') →
  db_ok (w_db w') ∧ if b then claimed s h (RequestFingerprint r) locked expires (w_db w') (ID r) else shows w' r.
Proof using Henv.
  intros Hok (r1 & Hg & Hid & Hf). unfold call. destruct (Henv (w_calls w) (w_db w) Hok) as [Hok' Hst].
  destruct (Hst r1 Hg) as (r2 & Hg2 & Hid2 & Hf2). destruct (fails _); [done|].
  destruct (reclaim_ok _ s h r2 from now locked expires Hok' Hg2) as (Hb & Hok2 & Hk & _).
  rewrite Hid2, Hid in Hb, Hok2, Hk. destruct (TryReclaim _ _ _ _ _ _) as [b' db']. simpl in *. intros [= <- <-]. subst b'. simpl.
  split; [done|]. rewrite Hk. destruct (bool_decide _ && _).
  - exists (with_claim locked expires r2). split_and!; [done|simpl; congruence|simpl; congruence|done|done|done].
  - exists r2. split_and!; [done|congruence|congruence].
Qed.

Lemma existing_others r w id w' : db_ok (w_db w) → shows w r → RequestFingerprint r = fp →
  existing_answer env fails r now locked expires w = (Claimed id, w') → claimed s h fp locked expires (w_db w') id.
Proof using Henv.
  intros Hok Hr Hf. unfold existing_answer. case_bool_decide; [by destruct (decodeStoredResponse _)|].
  case_bool_decide; [done|]. case_bool_decide; [|done].
  destruct (match LockedUntil r with Some l => after l now | None => false end); [done|].
  destruct (call _ _ (TryReclaim _ _ _ _ _) w) as [[[]|] w1] eqn:Hc; [|done|done]. apply reclaim_others in Hc as [_ Hc]; [|done..].
  unfold with_id. case_match; [done|]. intros [= <- <-]. by rewrite <- Hf.
Qed.

(** Whoever is let through has its claim in the table. *)
Lemma claim_others w id w' : db_ok (w_db w) →
  claim_phase env fails s h fp now locked expires w = (Claimed id, w') → claimed s h fp locked expires (w_db w') id.
Proof using Henv.
  intros Hok. unfold claim_phase. set (rec := mkRecord 0 s h fp StatusProcessing None None None (Some locked) expires).
  destruct (call env fails (CreateProcessing rec) w) as [[[id0|]|] w1] eqn:Hc; [| |done].
  - unfold with_id. case_match; [done|]. intros [= <- <-]. unfold call in Hc. destruct (fails _); [done|].
    destruct (CreateProcessing rec _) as [o db1] eqn:Hcr. injection Hc as -> <-. simpl.
    apply create_new in Hcr as (_ & _ & _ & Hk & _); [|by apply Henv]. by eexists.
  - assert (db_ok (w_db w1) ∧ ∃ r, get s h (w_db w1) = Some r) as [Hok1 [r0 Hg0]].
    { unfold call in Hc. destruct (fails _); [done|]. destruct (CreateProcessing rec _) as [o db1] eqn:Hcr. injection Hc as -> <-. simpl.
      apply create_existing in Hcr as (Hok1 & [r Hr] & Hk & _); [|by apply Henv]. simpl in *. split; [done|]. exists r. by rewrite Hk. }
    destruct (call_get env fails s h w1) as [[o|] w2] eqn:Hg; [|done].
    apply (get_others w1 r0) in Hg as [Hok2 (r & -> & Hgr & _ & _)]; [|done|by exists r0].
    case_bool_decide as Hf; [done|]. assert (RequestFingerprint r = fp) as Hfp by (destruct (decide (RequestFingerprint r = fp)); [done|by destruct Hf]).
    destruct (negb _); [|intros Hx; eapply existing_others; [exact Hok2|by exists r|done|exact Hx]].
    destruct (call env fails (TryReclaim _ _ _ _ _) w2) as [[[]|] w3] eqn:Hr; [| |done].
    + apply reclaim_others in Hr as [_ Hr]; [|done|by exists r]. unfold with_id. case_match; [done|]. intros [= <- <-]. by rewrite <- Hfp.
    + apply reclaim_others in Hr as [Hok3 Hr]; [|done|by exists r].
      destruct (call_get env fails s h w3) as [[o|] w4] eqn:Hg'; [|done].
      apply (get_others w3 r) in Hg' as [Hok4 (r' & -> & Hgr' & _ & Hf')]; [|done|done].
      case_bool_decide; [done|]. intros Hx. eapply existing_others; [exact Hok4|by exists r'|congruence|exact Hx].
Qed.
End Claims.

Section Barred.
Context (env : nat → DB → DB) (fails : nat → bool) (s h fp : bytes) (now locked expires : time) (why : bar).
Context (Henv : stays s h env) (Hbar : ∀ i db, barred s h fp now why db → barred s h fp now why (env i db)).

Abbreviation shows w r := (∃ r', get s h (w_db w) = Some r' ∧ ID r' = ID r ∧ RequestFingerprint r' = RequestFingerprint r).
Abbreviation bw w := (barred s h fp now why (w_db w)).

Lemma barred_same db db' : barred s h fp now why db → db_ok db' → get s h db' = get s h db → barred s h fp now why db'.
Proof. intros (_ & r & Hg & Hr) Hok E. split; [done|]. exists r. by rewrite E. Qed.

Lemma barred_get w o w' : bw w → call_get env fails s h w = (Some o, w') → bw w' ∧ ∃ r, o = Some r ∧ get s h (w_db w') = Some r.
Proof using Hbar.
  intros Hb. unfold call_get, call. destruct (fails _); [done|]. pose proof (Hbar (w_calls w) _ Hb) as Hb'.
  intros [= <- <-]. simpl. split; [done|]. destruct Hb' as (_ & r & Hg & _). by exists r.
Qed.

Lemma barred_create w rec o w' : Scope rec = s → KeyHash rec = h → bw w → call env fails (CreateProcessing rec) w = (Some o, w') → o = None ∧ bw w'.
Proof using Hbar.
  intros Hs Hh Hb. unfold call. destruct (fails _); [done|]. pose proof (Hbar (w_calls w) _ Hb) as Hb'. pose proof Hb' as (Hok & r & Hg & _).
  destruct (CreateProcessing rec _) as [[id|] db1] eqn:Hc; intros [= <- <-].
  - apply create_new in Hc as (_ & _ & Hn & _); [|done]. rewrite Hs, Hh in Hn. congruence.
  - apply create_existing in Hc as (Hok1 & _ & Hk & _); [|done]. rewrite Hs, Hh in Hk. split; [done|]. by eapply barred_same.
Qed.

Lemma barred_reclaim w r from b w' : why = ByLock → bw w → shows w r →
  call env fails (TryReclaim (ID r) from now locked expires) w = (Some b, w') → b = false ∧ bw w'.
Proof using Henv Hbar.
  intros Hwhy Hb (r1 & Hg & Hid & _). unfold call. destruct (fails _); [done|]. pose proof Hb as [Hok _].
  pose proof (Hbar (w_calls w) _ Hb) as Hb'. pose proof Hb' as (Hok' & r3 & Hg3 & Hr3). rewrite Hwhy in Hr3.
  destruct (Henv (w_calls w) (w_db w) Hok) as [_ Hst]. destruct (Hst r1 Hg) as (r2 & Hg2 & Hid2 & _). assert (r3 = r2) as -> by congruence.
  destruct (reclaim_ok _ s h r2 from now locked expires Hok' Hg2) as (Hrb & Hok2 & Hk & _). rewrite Hid2, Hid in Hrb, Hok2, Hk.
  assert (unlocked now (LockedUntil r2) = false) as Hu.
  { unfold unlocked. destruct (LockedUntil r2); simpl in Hr3; [by apply Z.leb_gt|lia]. }
  rewrite Hu, andb_false_r in Hrb, Hk. destruct (TryReclaim _ _ _ _ _ _) as [b' db']. simpl in *. intros [= <- <-].
  split; [done|]. simpl. eapply barred_same; [exact Hb'|done|]. by rewrite Hk, Hg2.
Qed.

Lemma barred_existing r w c w' : why ≠ ByFingerprint → (why = ByLock → now < default now (LockedUntil r)) →
  (why = ByStatus → Status r ≠ StatusFailedRetryable) →
  existing_answer env fails r now locked expires w = (c, w') → ∃ o, c = Answer o.
Proof.
  intros H1 H2 H3. unfold existing_answer. case_bool_decide; [destruct (decodeStoredResponse _); intros [= <- <-]; by eexists|].
  case_bool_decide; [intros [= <- <-]; by eexists|]. case_bool_decide; [|intros [= <- <-]; by eexists].
  destruct why; [done| |by destruct H3]. specialize (H2 eq_refl). destruct (LockedUntil r) as [l|]; simpl in H2; [|lia].
  unfold after. rewrite (proj2 (Z.ltb_lt _ _)) by done. intros [= <- <-]. by eexists.
Qed.

Lemma barred_claim w c w' : bw w → claim_phase env fails s h fp now locked expires w = (c, w') →
  ∃ o, c = Answer o ∧ (why = ByFingerprint → o = Fail KeyConflict ∨ o = Fail StoreUnavail).
Proof using Henv Hbar.
  intros Hb. unfold claim_phase. destruct (call env fails (CreateProcessing _) w) as [[o|] w1] eqn:Hc; [|intros [= <- <-]; eexists; split; [done|by right]].
  apply barred_create in Hc as [-> Hb1]; [|done..].
  destruct (call_get env fails s h w1) as [[o|] w2] eqn:Hg; [|intros [= <- <-]; eexists; split; [done|by right]].
  apply barred_get in Hg as (Hb2 & r & -> & Hg); [|done]. case_bool_decide as Hf; [intros [= <- <-]; eexists; split; [done|by left]|].
  assert (∀ r, get s h (w_db w2) = Some r → why ≠ ByFingerprint) as Hwhy.
  { intros _ _ Hw. destruct Hb2 as (_ & r2 & Hg2 & Hr2). rewrite Hw in Hr2. assert (r2 = r) by congruence. by subst. }
  specialize (Hwhy r Hg). assert (∀ o : outcome A, why = ByFingerprint → o = Fail KeyConflict ∨ o = Fail StoreUnavail) as Hdone by done.
  assert (∀ r w w0 c0, get s h (w_db w) = Some r → bw w → existing_answer env fails r now locked expires w0 = (c0, w') →
    ∃ o, c0 = Answer o ∧ (why = ByFingerprint → o = Fail KeyConflict ∨ o = Fail StoreUnavail)) as Hex.
  { clear -Hwhy Hbar Henv. intros r w w0 c0 Hg (_ & r' & Hg' & Hr') Hx. assert (r' = r) as -> by congruence.
    apply barred_existing in Hx as [o ->]; [by exists o|done| |]; intros ->; [done|by destruct Hr']. }
  destruct (negb _) eqn:Hexp; [|intros Hx; by eapply Hex].
  assert (why = ByLock) as Hlock.
  { destruct Hb2 as (_ & r2 & Hg2 & Hr2). assert (r2 = r) as -> by congruence. destruct why; [done|done|].
    apply negb_true_iff in Hexp. unfold after in Hexp. apply Z.ltb_ge in Hexp. lia. }
  destruct (call env fails (TryReclaim _ _ _ _ _) w2) as [[b|] w3] eqn:Hr; [|intros [= <- <-]; by eexists].
  apply barred_reclaim in Hr as [-> Hb3]; [|done|done|by exists r].
  destruct (call_get env fails s h w3) as [[o|] w4] eqn:Hg4; [|intros [= <- <-]; by eexists].
  apply barred_get in Hg4 as (Hb4 & r4 & -> & Hg4); [|done]. case_bool_decide; [intros [= <- <-]; by eexists|]. intros Hx. by eapply Hex.
Qed.
End Barred.

(** C30: whatever else happens to the store during a request with a key - as long as
    the record of the key is not removed meanwhile - and whichever of its calls fail:
    either it is refused or answered with a replay, and its operation does not run; or
    the operation runs once, after a claim that the table shows - a record in
    processing with the request's own fingerprint, its lock and its expiry - and the
    answer is the fresh result or the operation's own error, or, when the result could
    not be encoded or stored, that the store is unavailable.  It does not run at all
    while the key's record carries another fingerprint (then the answer is a conflict
    or that the store is unavailable), or is locked, or has neither expired nor
    failed. *)
Theorem runs_once_under_claim cfg env fails opts key fp ex now later w o w' :
  keyed opts key fp → db_ok (w_db w) → stays (o_scope opts) (HashIdempotencyKey key) env →
  Execute cfg env fails true opts (Some ex) now later w = (o, w') →
  let s := o_scope opts in
  let h := HashIdempotencyKey key in
  let locked := now + ProcessingTimeout cfg in
  let expires := now + effective_ttl cfg opts in
  let refused := w_executed w' = w_executed w ∧ match o with Done _ false | Fail (ExecFailed _) => False | _ => True end in
  (refused ∨
   ∃ id w1, claim_phase env fails s h fp now locked expires w = (Claimed id, w1) ∧ claimed s h fp locked expires (w_db w1) id ∧
     w_executed w1 = w_executed w ∧ w_executed w' = S (w_executed w1) ∧
     match ex with
     | Err reason => o = Fail (ExecFailed (failure_reason reason))
     | Ok data => o = Done data false ∨
         o = Fail StoreUnavail ∧ (marshalStoredResponse cfg data = None ∨ fails (w_calls w1) = true)
     end) ∧
  ∀ why, barred s h fp now why (w_db w) → (∀ i db, barred s h fp now why db → barred s h fp now why (env i db)) →
    refused ∧ (why = ByFingerprint → o = Fail KeyConflict ∨ o = Fail StoreUnavail).
Proof.
  intros Hq Hok Henv. rewrite (Execute_keyed _ _ _ _ _ _ _ _ _ _ Hq). cbv zeta.
  destruct (claim_phase _ _ _ _ _ _ _ _ w) as [[id|o1] w1] eqn:Hc; pose proof Hc as Hx; apply claim_executed in Hx as [Hn Ha].
  - intros Hr. split.
    + right. exists id, w1. split; [done|]. split; [by eapply claim_others|]. split; [done|]. revert Hr. unfold execute_phase, run.
      destruct ex as [data|reason].
      * destruct (marshalStoredResponse cfg data) as [body|]; [|intros [= <- <-]; split; [done|]; right; by split; [|left]].
        unfold call. simpl. destruct (fails (w_calls w1)); intros [= <- <-]; (split; [done|]); [right; by split; [|right]|by left].
      * unfold call. simpl. by destruct (fails (w_calls w1)); intros [= <- <-].
    + intros why Hb Hk. by destruct (barred_claim _ _ _ _ _ _ _ _ _ Henv Hk w _ w1 Hb Hc) as (? & ? & _).
  - intros [= <- <-]. assert (w_executed w1 = w_executed w ∧ match o1 with Done _ false | Fail (ExecFailed _) => False | _ => True end) as Href.
    { split; [done|]. destruct o1 as [d [|]|[]]; try done; [by destruct (Ha d "") as [_ []]|by destruct (Ha emptyObject reason) as [[] _]]. }
    split; [by left|]. intros why Hb Hk. split; [done|]. by destruct (barred_claim _ _ _ _ _ _ _ _ _ Henv Hk w _ w1 Hb Hc) as (? & [= <-] & ?).
Qed.

(** After a successful renewal tick, the record is held under its lease at
    every time before three renewal intervals have passed, and does not expire
    before; so two ticks in a row can fail without losing the claim. *)
Theorem renewal_keeps_lease cfg s h r ttl now db db' t :
  db_ok db → get s h db = Some r → Status r = StatusProcessing →
  3 * millisecond ≤ ProcessingTimeout cfg → 3 * millisecond ≤ ttl →
  renew_tick cfg (ID r) (RequestFingerprint r) ttl now db = (true, db') →
  now ≤ t < now + 3 * renew_interval cfg ttl →
  held s h (ID r) t true db' ∧ held s h (ID r) t false db'.
Proof.
  intros Hok Hg Hs Hp Httl. unfold renew_tick, renew_interval.
  assert (millisecond > 0) by done. rewrite (proj2 (Z.leb_gt _ _)) by lia.
  destruct (extend_ok db s h r (RequestFingerprint r) (now + ProcessingTimeout cfg) (now + ttl) Hok Hg)
    as (_ & Hok' & [Hk _]). intros E Ht. rewrite E in Hok', Hk. simpl in Hok', Hk.
  rewrite !bool_decide_true in Hk by done. simpl in Hk.
  assert (3 * Z.quot (ProcessingTimeout cfg) 3 ≤ ProcessingTimeout cfg) by (apply Z.mul_quot_le; lia).
  assert (3 * Z.quot ttl 3 ≤ ttl) by (apply Z.mul_quot_le; lia).
  assert (t < now + ProcessingTimeout cfg ∧ t < now + ttl) as [? ?].
  { revert Ht. case_match eqn:Hi; [|lia]. apply Z.ltb_lt in Hi.
    assert (millisecond ≤ Z.quot (ProcessingTimeout cfg) 3) by (apply Z.quot_le_lower_bound; lia).
    assert (millisecond ≤ Z.quot ttl 3) by (apply Z.quot_le_lower_bound; lia). lia. }
  split; (split; [done|]; eexists; split_and!; [exact Hk|done|done|]; simpl).
  - apply Z.leb_gt. lia.
  - apply Z.ltb_lt. lia.
Qed.

(** ** Expired records *)

Lemma claim_alone_expired s h r now locked expires w :
  db_ok (w_db w) → get s h (w_db w) = Some r →
  ExpiresAt r ≤ now → unlocked now (LockedUntil r) = true →
  ∃ w', alone_claim s h (RequestFingerprint r) now locked expires w = (Claimed (ID r), w') ∧
    w_executed w' = w_executed w ∧ untouched s h (w_db w) (w_db w') ∧
    get s h (w_db w') = Some (with_claim locked expires r).
Proof.
  intros Hok Hg He Hl.
  destruct (claim_alone_existing s h (RequestFingerprint r) r now locked expires w Hok Hg)
    as (w1 & Hu & Hg1 & Hn & E).
  rewrite E, bool_decide_false by (by intros ?). unfold after.
  rewrite (proj2 (Z.ltb_ge _ _) He), call_alone. simpl. destruct Hu as [Hok1 Hu].
  destruct (reclaim_ok (w_db w1) s h r (Status r) now locked expires Hok1 Hg1) as (Hb & Hok2 & Hk).
  rewrite bool_decide_true, Hl in Hb, Hk by done. simpl in Hb, Hk. rewrite Hb. unfold with_id.
  destruct (get_ok _ _ _ r Hok1 Hg1) as (_ & _ & Hid). rewrite (proj2 (Z.eqb_neq _ _) Hid).
  eexists. split; [done|]. simpl. split; [done|]. split; [|apply Hk].
  apply (untouched_trans _ _ _ (w_db w1)); [done|]. by eapply only_key_untouched.
Qed.

(** An expired, unlocked record is taken over and the operation run. *)
Lemma execute_alone_expired cfg opts key r data body now later w :
  keyed opts key (RequestFingerprint r) → db_ok (w_db w) →
  get (o_scope opts) (HashIdempotencyKey key) (w_db w) = Some r →
  ExpiresAt r ≤ now → unlocked now (LockedUntil r) = true →
  marshalStoredResponse cfg data = Some body →
  ∃ w', ExecuteAlone cfg true opts (Some (Ok data)) now later w = (Done data false, w') ∧
    db_ok (w_db w') ∧
    get (o_scope opts) (HashIdempotencyKey key) (w_db w')
      = Some (with_success 200 body (result_expiry cfg opts now later)
                (with_claim (now + ProcessingTimeout cfg) (now + effective_ttl cfg opts) r)).
Proof.
  intros Hq Hok Hg He Hl Hm. unfold ExecuteAlone. rewrite (Execute_keyed _ _ _ _ _ _ _ _ _ _ Hq).
  destruct (claim_alone_expired (o_scope opts) (HashIdempotencyKey key) r now
              (now + ProcessingTimeout cfg) (now + effective_ttl cfg opts) w Hok Hg He Hl)
    as (w1 & E & _ & [Hok1 _] & Hg1). rewrite E.
  destruct (execute_phase _ _ _ _ _ _ _ _) as [o w'] eqn:Hx.
  eapply (execute_phase_alone cfg _ _ (with_claim _ _ r)) in Hx as [[Hok' _] [_ Hx]]; [|exact Hok1|exact Hg1].
  rewrite Hm in Hx. destruct Hx as [-> Hg']. eexists. by split_and!.
Qed.

(** When a request reads an expired record and another request takes the
    record over and succeeds before its own attempt to take it over, it takes
    the fresh success over as well and runs the operation a second time: the
    take-over re-checks the status and the lock, not the expiry. *)
Theorem expired_reclaim_runs_twice cfg opts key r a b body_a body_b now now' later later' db :
  keyed opts key (RequestFingerprint r) → db_ok db →
  get (o_scope opts) (HashIdempotencyKey key) db = Some r →
  Status r = StatusSucceeded → LockedUntil r = None → ExpiresAt r ≤ now → ExpiresAt r ≤ now' →
  marshalStoredResponse cfg a = Some body_a → marshalStoredResponse cfg b = Some body_b →
  let other db' := ExecuteAlone cfg true opts (Some (Ok a)) now' later' (mkWorld db' 0 0) in
  let env i db' := match i with 2%nat => w_db (other db').2 | _ => db' end in
  (∀ db', db_ok db' → get (o_scope opts) (HashIdempotencyKey key) db' = Some r →
    (other db').1 = Done a false) ∧
  ∃ w', Execute cfg env (λ _, false) true opts (Some (Ok b)) now later (mkWorld db 0 0)
        = (Done b false, w').
Proof.
  intros Hq Hok Hg Hs Hl He He' Ha Hb other env.
  assert (∀ db, db_ok db → get (o_scope opts) (HashIdempotencyKey key) db = Some r →
    ∃ w', other db = (Done a false, w') ∧ db_ok (w_db w') ∧
      ∃ r', get (o_scope opts) (HashIdempotencyKey key) (w_db w') = Some r' ∧ ID r' = ID r ∧
        Status r' = StatusSucceeded ∧ LockedUntil r' = None) as Hother.
  { intros db' Hok' Hg'. unfold other.
    destruct (execute_alone_expired cfg opts key r a body_a now' later' (mkWorld db' 0 0) Hq Hok' Hg'
                He') as (w' & -> & ? & Hgw); [by rewrite Hl|done|].
    eexists. do 2 (split; [done|]). eexists. by split; [exact Hgw|]. }
  split. { intros db' Hok' Hg'. by destruct (Hother db' Hok' Hg') as (w' & -> & _). }
  rewrite (Execute_keyed _ _ _ _ _ _ _ _ _ _ Hq). unfold claim_phase, call_get, call. simpl.
  destruct (CreateProcessing _ db) as [[id|] db1] eqn:Hc.
  { apply create_new in Hc as (_ & _ & Hn & _); [|done]. simpl in Hn. congruence. }
  apply create_existing in Hc as (Hok1 & _ & [Hg1 _]); [|done]. simpl in Hg1. rewrite Hg in Hg1.
  simpl. rewrite Hg1, bool_decide_false by (by intros ?). unfold after.
  rewrite (proj2 (Z.ltb_ge _ _) He). simpl.
  destruct (Hother db1 Hok1 Hg1) as (w2 & -> & Hok2 & r' & Hg2 & Hid & Hs' & Hl'). simpl.
  rewrite <- Hid, Hs.
  destruct (reclaim_ok (w_db w2) _ _ r' StatusSucceeded now (now + ProcessingTimeout cfg)
              (now + effective_ttl cfg opts) Hok2 Hg2) as (Ht & _).
  rewrite bool_decide_true, Hl' in Ht by done. simpl in Ht.
  destruct (TryReclaim _ _ _ _ _ _) as [t db3]. simpl in Ht. subst t.
  destruct (get_ok _ _ _ r' Hok2 Hg2) as (_ & _ & Hne). unfold with_id.
  rewrite (proj2 (Z.eqb_neq _ _) Hne). unfold execute_phase, run, call. rewrite Hb.
  simpl. by eexists.
Qed.

(** ** Stored responses *)

Lemma truncate_loop_spec n s : ∃ k, (k ≤ n)%nat ∧ truncate_loop n s = take k s ∧
  ValidString (take k s) = true ∧ ∀ m, (k < m ≤ n)%nat → ValidString (take m s) = false.
Proof.
  induction n as [|n (k & Hk & E & Hv & Hmax)]; simpl.
  - exists O. split_and!; [lia|done|done|lia].
  - destruct (ValidString (take (S n) s)) eqn:Hn.
    + exists (S n). split_and!; [lia|done|done|lia].
    + exists k. split_and!; [lia|done|done|]. intros m Hm.
      destruct (decide (m = S n)) as [->|]; [done|apply Hmax; lia].
Qed.

(** A text that fits, or a limit of zero or less, is left alone; a longer
    text is cut to its longest prefix within the limit that is well-formed
    UTF-8, and a well-formed text loses at most three bytes to that. *)
Theorem truncateUTF8_spec s n :
  if (n <=? 0) || (Z.of_nat (length s) <=? n) then truncateUTF8 s n = s
  else ∃ k, Z.of_nat k ≤ n ∧ truncateUTF8 s n = take k s ∧ ValidString (take k s) = true ∧
    (∀ m, (k < m)%nat → Z.of_nat m ≤ n → ValidString (take m s) = false) ∧
    (ValidString s = true → n - 3 ≤ Z.of_nat k).
Proof.
  unfold truncateUTF8. destruct (_ || _) eqn:Hb; [done|].
  apply orb_false_iff in Hb as [Hn%Z.leb_gt Hl%Z.leb_gt].
  destruct (truncate_loop_spec (Z.to_nat n) s) as (k & Hk & E & Hv & Hmax).
  exists k. split_and!; [lia|done|done| |].
  - intros m Hm Hmn. apply Hmax. lia.
  - intros Hs. destruct (valid_cut s Hs (Z.to_nat n)) as (j & Hj & Hjn & Hc); [lia|].
    destruct (decide (k < Z.to_nat n - j)%nat) as [Hkj|]; [|lia].
    rewrite Hmax in Hc by lia. done.
Qed.

(** A response longer than the limit is stored with a suffix that ends no
    JSON text, so the request succeeds but no retry can be answered from its
    record: the stored response does not decode. *)
Theorem truncated_response_undecodable cfg data raw body :
  (∀ s, unmarshal (s ++ lit ")") = None) →
  marshal (stored_view data) = Some raw →
  0 < MaxStoredResponseLen cfg < Z.of_nat (length (redact raw)) →
  marshalStoredResponse cfg data = Some body →
  decodeStoredResponse (Some body) = None.
Proof.
  intros Hjson Hm [Hpos Hlong]. unfold marshalStoredResponse.
  rewrite Hm, (proj2 (Z.ltb_lt _ _) Hpos), (proj2 (Z.ltb_lt _ _) Hlong). simpl. intros [= <-].
  change truncated_suffix with (lit "...(truncated" ++ lit ")"). rewrite app_assoc.
  unfold decodeStoredResponse. rewrite bool_decide_false; [apply Hjson|]. intros He.
  assert (")"%char ∈ TrimSpace ((truncateUTF8 (redact raw) (MaxStoredResponseLen cfg)
            ++ lit "...(truncated") ++ lit ")")) as Hin; [|rewrite He in Hin; by apply not_elem_of_nil in Hin].
  apply TrimSpace_keeps; [|apply elem_of_app; right; apply list_elem_of_here].
  refine (proj1 (Forall_forall _ _) _). refine (bool_decide_eq_true_1 _ _). vm_compute. reflexivity.
Qed.

End Execute.

End Idempotency.
