(* ===== verification/IdempotencyRepo.v ===== *)
(** * The SQL store of idempotency records

    Models [repository/idempotency_repo.go] over the table of migration 057 as a
    list of rows, shows that it is a repository in the sense of
    [Idempotency.v], and runs the coordinator on it. *)

From S2P Require Import Prelude GoStrings Idempotency.

Module IdempotencyRepo.
Import GoStrings Idempotency.

Module Table.

(** [idempotency_records]: the rows and the sequence of the ids.  A conflicting
    insert advances the sequence too. *)
Record table := mkTable { rows : list IdempotencyRecord; next_id : Z }.

Definition find_row (s h : bytes) (t : table) : option IdempotencyRecord :=
  snd <$> list_find (λ r, Scope r = s ∧ KeyHash r = h) (rows t).

Definition insert_row (record : IdempotencyRecord) (t : table) : option Z * table :=
  match find_row (Scope record) (KeyHash record) t with
  | Some _ => (None, mkTable (rows t) (next_id t + 1))
  | None =>
      (Some (next_id t),
       mkTable (rows t ++ [mkRecord (next_id t) (Scope record) (KeyHash record)
                             (RequestFingerprint record) (Status record) None None None
                             (LockedUntil record) (ExpiresAt record)])
               (next_id t + 1))
  end.

(** [UPDATE ... SET f WHERE p], with the rows affected. *)
Definition update_rows (p : IdempotencyRecord → bool) (f : IdempotencyRecord → IdempotencyRecord)
    (t : table) : Z * table :=
  (Z.of_nat (length (filter (λ r, p r = true) (rows t))),
   mkTable ((λ r, if p r then f r else r) <$> rows t) (next_id t)).

Definition reclaim_rows (id : Z) (from : string) (now locked expires : time) (t : table) : bool * table :=
  let '(affected, t) :=
    update_rows (λ r, (ID r =? id) && bool_decide (Status r = from) && unlocked now (LockedUntil r))
      (with_claim locked expires) t in
  (0 <? affected, t).

Definition extend_rows (id : Z) (fp : bytes) (locked expires : time) (t : table) : bool * table :=
  let '(affected, t) :=
    update_rows (λ r, (ID r =? id) && bool_decide (Status r = StatusProcessing)
                      && bool_decide (RequestFingerprint r = fp))
      (with_lock locked expires) t in
  (0 <? affected, t).

Definition succeed_rows (id status : Z) (body : bytes) (expires : time) (t : table) : table :=
  (update_rows (λ r, ID r =? id) (with_success status body expires) t).2.

Definition fail_rows (id : Z) (reason : string) (locked expires : time) (t : table) : table :=
  (update_rows (λ r, ID r =? id) (with_failure reason locked expires) t).2.

(** [ORDER BY expires_at ASC LIMIT limit], as an insertion sort. *)
Fixpoint insert_by_expiry (r : IdempotencyRecord) (l : list IdempotencyRecord) :=
  match l with
  | [] => [r]
  | x :: l => if ExpiresAt r <=? ExpiresAt x then r :: x :: l else x :: insert_by_expiry r l
  end.
Definition sort_by_expiry : list IdempotencyRecord → list IdempotencyRecord := foldr insert_by_expiry [].

Definition victims (now : time) (limit : Z) (t : table) : list IdempotencyRecord :=
  take (Z.to_nat limit) (sort_by_expiry (filter (λ r, ExpiresAt r <= now) (rows t))).

Definition delete_expired (now : time) (limit : Z) (t : table) : Z * table :=
  let limit := if limit <=? 0 then 500 else limit in
  let ids := ID <$> victims now limit t in
  (Z.of_nat (length (filter (λ r, ID r ∈ ids) (rows t))),
   mkTable (filter (λ r, ID r ∉ ids) (rows t)) (next_id t)).

(** ** The table is a repository *)

Record table_ok (t : table) : Prop := {
  ids_unique : NoDup (ID <$> rows t);
  ids_issued : ∀ r, r ∈ rows t → 0 < ID r < next_id t;
  keys_unique : NoDup ((λ r, (Scope r, KeyHash r)) <$> rows t);
  sequence_positive : 0 < next_id t
}.

Lemma same_id t r r' : table_ok t → r ∈ rows t → r' ∈ rows t → ID r = ID r' → r = r'.
Proof.
  intros Hok [i Hi]%list_elem_of_lookup [j Hj]%list_elem_of_lookup He.
  assert (i = j) as ->; [|congruence]. eapply (NoDup_lookup (ID <$> rows t)); [apply Hok|..];
    rewrite list_lookup_fmap.
  - by rewrite Hi.
  - rewrite Hj. simpl. by rewrite He.
Qed.

Lemma find_row_elem s h t r : find_row s h t = Some r → r ∈ rows t ∧ Scope r = s ∧ KeyHash r = h.
Proof.
  unfold find_row. intros ([i x] & Hf & ->)%fmap_Some.
  apply list_find_Some in Hf as (Hi & [? ?] & _). split; [by eapply list_elem_of_lookup_2|done].
Qed.

Lemma find_row_none s h t : find_row s h t = None ↔ ∀ r, r ∈ rows t → ¬ (Scope r = s ∧ KeyHash r = h).
Proof. unfold find_row. by rewrite fmap_None, list_find_None, Forall_forall. Qed.

(** An update of the rows that keeps ids and keys. *)
Definition keeps (f : IdempotencyRecord → IdempotencyRecord) : Prop :=
  ∀ r, ID (f r) = ID r ∧ Scope (f r) = Scope r ∧ KeyHash (f r) = KeyHash r.

Section Update.
Context (p : IdempotencyRecord → bool) (f : IdempotencyRecord → IdempotencyRecord).
Context (Hf : keeps f).

Definition updated (r : IdempotencyRecord) : IdempotencyRecord := if p r then f r else r.

Lemma updated_keeps : keeps updated.
Proof. intros r. unfold updated. destruct (p r); [apply Hf|done]. Qed.

Lemma find_row_update s h t :
  find_row s h (update_rows p f t).2 = updated <$> find_row s h t.
Proof.
  unfold find_row, update_rows. cbn [snd rows]. change (λ r, if p r then f r else r) with updated.
  rewrite list_find_fmap.
  rewrite (list_find_ext _ (λ r, Scope r = s ∧ KeyHash r = h)).
  2: { intros x. unfold compose. destruct (updated_keeps x) as (_ & -> & ->). done. }
  by destruct (list_find _ (rows t)) as [[]|].
Qed.

Lemma update_ok t : table_ok t → table_ok (update_rows p f t).2.
Proof.
  intros [H1 H2 H3 H4]. unfold update_rows. constructor; cbn [snd rows next_id]; [..|done].
  - rewrite <- list_fmap_compose. erewrite list_fmap_ext; [exact H1|].
    intros i x _. apply (updated_keeps x).
  - intros r (x & -> & Hx)%list_elem_of_fmap.
    destruct (updated_keeps x) as (E & _). unfold updated in E. rewrite E. by apply H2.
  - rewrite <- list_fmap_compose. erewrite list_fmap_ext; [exact H3|]. intros i x _.
    unfold compose. destruct (updated_keeps x) as (_ & E1 & E2). unfold updated in *.
    by rewrite E1, E2.
Qed.

(** An update by id writes the record with the id and no other. *)
Lemma update_by_id s h t r : table_ok t → find_row s h t = Some r →
  (∀ x, p x = true → ID x = ID r) →
  (0 <? (update_rows p f t).1) = p r ∧ table_ok (update_rows p f t).2 ∧
  only_key find_row s h (λ _, Some (if p r then f r else r)) t (update_rows p f t).2.
Proof.
  intros Hok Hr Hp. pose proof (find_row_elem _ _ _ _ Hr) as (Hin & Hs & Hh).
  assert (∀ x, x ∈ rows t → p x = true → x = r) as Hx by (intros; eapply same_id; eauto).
  split; [|split; [by apply update_ok|split]].
  - unfold update_rows. simpl. destruct (p r) eqn:Hpr.
    + apply Z.ltb_lt. assert (r ∈ filter (λ r, p r = true) (rows t)) as Hm by (by apply list_elem_of_filter).
      destruct (filter _ _); [by apply not_elem_of_nil in Hm|simpl; lia].
    + destruct (filter (λ r, p r = true) (rows t)) as [|x l] eqn:E; [done|].
      assert (x ∈ filter (λ r, p r = true) (rows t)) as Hm by (rewrite E; apply list_elem_of_here).
      apply list_elem_of_filter in Hm as [Hpx Hxm]. rewrite (Hx x Hxm Hpx) in Hpx. congruence.
  - rewrite find_row_update, Hr. done.
  - intros s' h' Hne. rewrite find_row_update.
    destruct (find_row s' h' t) as [x|] eqn:Hfx; [|done]. simpl. f_equal. unfold updated.
    destruct (p x) eqn:Hpx; [|done]. apply find_row_elem in Hfx as (Hxm & <- & <-).
    rewrite (Hx x Hxm Hpx) in Hne. destruct Hne. by rewrite Hs, Hh.
Qed.

End Update.

Lemma keeps_claim l e : keeps (with_claim l e). Proof. done. Qed.
Lemma keeps_lock l e : keeps (with_lock l e). Proof. done. Qed.
Lemma keeps_success st b e : keeps (with_success st b e). Proof. done. Qed.
Lemma keeps_failure m l e : keeps (with_failure m l e). Proof. done. Qed.

(** The row an insert adds. *)
Definition new_row (record : IdempotencyRecord) (id : Z) : IdempotencyRecord :=
  mkRecord id (Scope record) (KeyHash record) (RequestFingerprint record) (Status record)
    None None None (LockedUntil record) (ExpiresAt record).

Lemma find_row_app s h rs n x m : find_row s h (mkTable (rs ++ [x]) n) =
  match find_row s h (mkTable rs m) with
  | Some r => Some r
  | None => if decide (Scope x = s ∧ KeyHash x = h) then Some x else None
  end.
Proof.
  unfold find_row. simpl. destruct (list_find _ rs) as [[i r]|] eqn:E.
  - by erewrite list_find_app_l.
  - rewrite list_find_app_r by done. simpl. by destruct (decide _).
Qed.

Lemma insert_new record t id t' : table_ok t → insert_row record t = (Some id, t') →
  table_ok t' ∧ id ≠ 0 ∧ find_row (Scope record) (KeyHash record) t = None ∧
  only_key find_row (Scope record) (KeyHash record) (λ _, Some (new_row record id)) t t'.
Proof.
  intros [H1 H2 H3 H4]. unfold insert_row.
  destruct (find_row _ _ t) as [r|] eqn:Hn; intros [= <- <-].
  fold (new_row record (next_id t)). pose proof (proj1 (find_row_none _ _ _) Hn) as Hno.
  split; [|split; [lia|split; [done|split]]].
  - constructor; simpl; [| | |lia].
    + rewrite fmap_app. apply NoDup_app. split_and!; [done| |apply NoDup_singleton].
      intros n (r & -> & Hr)%list_elem_of_fmap. simpl. rewrite list_elem_of_singleton.
      apply H2 in Hr. lia.
    + intros r [Hr|Hr]%elem_of_app; [apply H2 in Hr; lia|].
      apply list_elem_of_singleton in Hr as ->. simpl. lia.
    + rewrite fmap_app. apply NoDup_app. split_and!; [done| |apply NoDup_singleton].
      intros k (r & -> & Hr)%list_elem_of_fmap. simpl. rewrite list_elem_of_singleton.
      intros [= E1 E2]. by apply (Hno r Hr).
  - rewrite (find_row_app _ _ _ _ _ (next_id t)). destruct t as [rs n]. simpl in *. rewrite Hn.
    by rewrite decide_True.
  - intros s h Hne. rewrite (find_row_app _ _ _ _ _ (next_id t)). destruct t as [rs n]. simpl in *.
    destruct (find_row s h _); [done|]. by rewrite decide_False by (intros [<- <-]; done).
Qed.

Lemma insert_existing record t t' : table_ok t → insert_row record t = (None, t') →
  table_ok t' ∧ is_Some (find_row (Scope record) (KeyHash record) t) ∧
  only_key find_row (Scope record) (KeyHash record) (λ o, o) t t'.
Proof.
  intros [H1 H2 H3 H4]. unfold insert_row.
  destruct (find_row _ _ t) as [r|] eqn:Hr; intros [= <-].
  split; [|split; [by eexists|by split]].
  constructor; simpl; [done| |done|lia]. intros x Hx. apply H2 in Hx. lia.
Qed.

#[export] Instance sql_repository : IdempotencyRepository table.
Proof.
  refine {| CreateProcessing := insert_row; GetByScopeAndKeyHash := find_row;
            TryReclaim := reclaim_rows; ExtendProcessingLock := extend_rows;
            MarkSucceeded := succeed_rows; MarkFailedRetryable := fail_rows;
            DeleteExpired := delete_expired; db_ok := table_ok;
            create_new := λ record t id t', insert_new record t id t';
            create_existing := insert_existing |}.
  - intros t s h r Hok Hr. apply find_row_elem in Hr as (Hin & ? & ?).
    split_and!; [done..|]. apply (ids_issued _ Hok) in Hin. lia.
  - intros t s h r from now locked expires Hok Hr. unfold reclaim_rows.
    set (p := λ x, (ID x =? ID r) && bool_decide (Status x = from) && unlocked now (LockedUntil x)).
    destruct (update_by_id p _ (keeps_claim locked expires) s h t r Hok Hr) as (Hb & Hok' & Hk).
    { intros x [[?%Z.eqb_eq _]%andb_true_iff _]%andb_true_iff. done. }
    destruct (update_rows p _ t) as [n t'].
    assert (p r = bool_decide (Status r = from) && unlocked now (LockedUntil r)) as E
      by (unfold p; by rewrite Z.eqb_refl). by rewrite <- E.
  - intros t s h r fp locked expires Hok Hr. unfold extend_rows.
    set (p := λ x, (ID x =? ID r) && bool_decide (Status x = StatusProcessing)
                   && bool_decide (RequestFingerprint x = fp)).
    destruct (update_by_id p _ (keeps_lock locked expires) s h t r Hok Hr) as (Hb & Hok' & Hk).
    { intros x [[?%Z.eqb_eq _]%andb_true_iff _]%andb_true_iff. done. }
    destruct (update_rows p _ t) as [n t'].
    assert (p r = bool_decide (Status r = StatusProcessing) && bool_decide (RequestFingerprint r = fp)) as E
      by (unfold p; by rewrite Z.eqb_refl). by rewrite <- E.
  - intros t s h r status body expires Hok Hr. unfold succeed_rows.
    destruct (update_by_id (λ x, ID x =? ID r) _ (keeps_success status body expires) s h t r Hok Hr)
      as (_ & Hok' & Hk); [by intros x ?%Z.eqb_eq|]. split; [done|].
    by rewrite Z.eqb_refl in Hk.
  - intros t s h r reason locked expires Hok Hr. unfold fail_rows.
    destruct (update_by_id (λ x, ID x =? ID r) _ (keeps_failure reason locked expires) s h t r Hok Hr)
      as (_ & Hok' & Hk); [by intros x ?%Z.eqb_eq|]. split; [done|].
    by rewrite Z.eqb_refl in Hk.
Defined.

(** ** The sweep of expired rows *)

Lemma insert_by_expiry_perm r l : insert_by_expiry r l ≡ₚ r :: l.
Proof.
  induction l as [|x l IH]; simpl; [done|]. case_match; [done|]. rewrite IH. apply Permutation_swap.
Qed.

Lemma sort_by_expiry_perm l : sort_by_expiry l ≡ₚ l.
Proof.
  induction l as [|x l IH]; simpl; [done|].
  change (sort_by_expiry (x :: l)) with (insert_by_expiry x (sort_by_expiry l)).
  by rewrite insert_by_expiry_perm, IH.
Qed.

Definition expiry_sorted : list IdempotencyRecord → Prop := StronglySorted (λ a b, ExpiresAt a ≤ ExpiresAt b).

Lemma insert_by_expiry_sorted r l : expiry_sorted l → expiry_sorted (insert_by_expiry r l).
Proof.
  unfold expiry_sorted. induction 1 as [|x l Hs IH Hx]; simpl; [repeat constructor|].
  destruct (ExpiresAt r <=? ExpiresAt x) eqn:Hb.
  - apply Z.leb_le in Hb. constructor; [by constructor|]. constructor; [done|].
    eapply Forall_impl; [exact Hx|]. simpl. lia.
  - apply Z.leb_gt in Hb. constructor; [done|]. apply Forall_forall. intros y Hy.
    rewrite insert_by_expiry_perm in Hy. apply elem_of_cons in Hy as [->|Hy]; [lia|].
    by apply (proj1 (Forall_forall _ _) Hx).
Qed.

Lemma sort_by_expiry_sorted l : expiry_sorted (sort_by_expiry l).
Proof. induction l as [|x l IH]; [constructor|]. by apply insert_by_expiry_sorted. Qed.

Lemma sorted_split k l a b : expiry_sorted l → a ∈ take k l → b ∈ drop k l → ExpiresAt a ≤ ExpiresAt b.
Proof.
  unfold expiry_sorted. intros Hs. revert k. induction Hs as [|x l _ IH Hx]; intros [|k] Ha Hb;
    simpl in *; try by apply not_elem_of_nil in Ha.
  apply elem_of_cons in Ha as [->|Ha]; [|by eapply IH].
  apply (proj1 (Forall_forall _ _) Hx). eapply subseteq_drop. exact Hb.
Qed.

Lemma sublist_map {X Y} (f : X → Y) l k : l `sublist_of` k → f <$> l `sublist_of` f <$> k.
Proof. induction 1; simpl; by constructor. Qed.

Lemma rows_nodup t : table_ok t → NoDup (rows t).
Proof. intros Hok. apply (NoDup_fmap_1 ID), Hok. Qed.

Lemma victims_elem now k t r : r ∈ victims now k t → r ∈ rows t ∧ ExpiresAt r ≤ now.
Proof.
  unfold victims. intros Hr%subseteq_take. rewrite sort_by_expiry_perm in Hr.
  apply list_elem_of_filter in Hr as [? ?]. done.
Qed.

Lemma victims_ids now k t r : table_ok t → r ∈ rows t → ID r ∈ ID <$> victims now k t → r ∈ victims now k t.
Proof.
  intros Hok Hr (x & He & Hx)%list_elem_of_fmap.
  assert (r = x) as ->; [|done]. apply (same_id t); [done|done| |done]. by apply victims_elem in Hx as [? _].
Qed.

Lemma victims_rows now k t : table_ok t →
  filter (λ r, ID r ∈ ID <$> victims now k t) (rows t) ≡ₚ victims now k t.
Proof.
  intros Hok. pose proof (rows_nodup t Hok) as Hnd. apply NoDup_Permutation.
  - by apply NoDup_filter.
  - unfold victims. eapply sublist_NoDup; [|apply sublist_take].
    rewrite sort_by_expiry_perm. by apply NoDup_filter.
  - intros r. rewrite list_elem_of_filter. split.
    + intros [Hi Hr]. by apply victims_ids.
    + intros Hr. split; [by apply list_elem_of_fmap_2|]. by apply victims_elem in Hr as [? _].
Qed.

(** A sweep deletes as many expired rows as the limit allows (500 for a
    limit of zero or less), the ones that expired first, no row that has not
    expired, and leaves a sound table; it returns the number of rows deleted. *)
Theorem delete_expired_oldest_first now limit t n t' : table_ok t →
  delete_expired now limit t = (n, t') →
  table_ok t' ∧ rows t' `sublist_of` rows t ∧
  n = Z.of_nat (length (rows t)) - Z.of_nat (length (rows t')) ∧
  n = Z.min (if limit <=? 0 then 500 else limit)
            (Z.of_nat (length (filter (λ r, ExpiresAt r <= now) (rows t)))) ∧
  ∀ r, r ∈ rows t → r ∉ rows t' →
    ExpiresAt r ≤ now ∧ ∀ r', r' ∈ rows t' → ExpiresAt r' ≤ now → ExpiresAt r ≤ ExpiresAt r'.
Proof.
  intros Hok. unfold delete_expired. set (k := if limit <=? 0 then 500 else limit).
  set (ids := ID <$> victims now k t). intros [= <- <-]. simpl.
  pose proof (victims_rows now k t Hok) as Hv. fold ids in Hv.
  assert (filter (λ r, ID r ∉ ids) (rows t) `sublist_of` rows t) as Hsub by apply sublist_filter.
  split_and!; [|done| | |].
  - destruct Hok as [H1 H2 H3 H4]. constructor; simpl; [| | |done].
    + eapply sublist_NoDup; [done|by apply sublist_map].
    + intros r [_ Hr]%list_elem_of_filter. by apply H2.
    + eapply sublist_NoDup; [done|by apply sublist_map].
  - rewrite <- (filter_app_complement (λ r, ID r ∈ ids) (rows t)) at 2. rewrite length_app. lia.
  - rewrite Hv. unfold victims. rewrite length_take, sort_by_expiry_perm.
    assert (0 < k) by (unfold k; case_match; lia). lia.
  - intros r Hr Hn. assert (ID r ∈ ids) as Hi.
    { destruct (decide (ID r ∈ ids)); [done|]. destruct Hn. by apply list_elem_of_filter. }
    apply victims_ids in Hi as Hrv; [|done|done]. split; [by apply victims_elem in Hrv as [_ ?]|].
    intros r' [Hi' Hr']%list_elem_of_filter He. unfold victims in Hrv.
    eapply sorted_split; [apply sort_by_expiry_sorted|exact Hrv|].
    assert (r' ∈ sort_by_expiry (filter (λ r, ExpiresAt r <= now) (rows t))) as Hs.
    { rewrite sort_by_expiry_perm. by apply list_elem_of_filter. }
    rewrite <- (take_drop (Z.to_nat k)) in Hs. apply elem_of_app in Hs as [Hs|Hs]; [|done].
    destruct Hi'. apply list_elem_of_fmap_2. exact Hs.
Qed.

End Table.
(** ** Examples *)

Module Example.
Import Table.

(** Stand-ins for the packages: the identity for digests and redaction, and a
    decoder that refuses what ends in a parenthesis. *)
Definition decoder (s : bytes) : option bytes := if bool_decide (last s = Some ")"%char) then None else Some s.

Definition cfg : IdempotencyConfig :=
  mkConfig (24 * hour) (1 * hour) (30 * second) (5 * second) 8 true.
Definition request (payload : string) : options bytes :=
  mkOptions (lit "admin.create") (lit "user:7") (lit "POST") (lit "/users") (lit "key-1")
    (lit payload) 0 true 0.
Definition fingerprint (payload : string) : bytes :=
  lit "POST" ++ [LF] ++ lit "/users" ++ [LF] ++ lit "user:7" ++ [LF] ++ lit payload.

Definition execute : IdempotencyConfig → (nat → table → table) → (nat → bool) → bool → options bytes →
    option (result string bytes) → time → time → world → outcome bytes * world :=
  Execute (λ b, b) (λ b, b) (λ b, b) Some Some decoder [] (λ b, b).
Definition alone : IdempotencyConfig → bool → options bytes →
    option (result string bytes) → time → time → world → outcome bytes * world :=
  ExecuteAlone (λ b, b) (λ b, b) (λ b, b) Some Some decoder [] (λ b, b).

Definition empty : world := mkWorld (mkTable [] 1) 0 0.
Definition ok : option (result string bytes) := Some (Ok (lit "{1}")).
Definition bad : option (result string bytes) := Some (Err "BOOM").

Lemma empty_ok : table_ok (w_db empty).
Proof. constructor; simpl; [constructor| |constructor|lia]. by intros r ?%not_elem_of_nil. Qed.

Lemma request_keyed payload :
  keyed (λ b, b) (λ b, b) Some (request payload) (lit "key-1") (fingerprint payload).
Proof. by split_and!. Qed.

Definition after_ok : world := (alone cfg true (request "a") ok 0 0 empty).2.
Definition after_bad : world := (alone cfg true (request "a") bad 0 0 empty).2.

(** The result of a request that ran could not be stored. *)
Definition unstored : outcome bytes * world :=
  execute cfg (λ _ t, t) (λ i, bool_decide (i = 1%nat)) true (request "a") ok 0 0 empty.

Lemma runs_once_under_claim_witness : fst unstored = Fail StoreUnavail ∧ w_executed (snd unstored) = 1%nat.
Proof.
  destruct (runs_once_under_claim (λ b, b) (λ b, b) (λ b, b) Some Some decoder [] (λ b, b) cfg
    (λ _ t, t) (λ i, bool_decide (i = 1%nat)) (request "a") (lit "key-1") (fingerprint "a") (Ok (lit "{1}")) 0 0 empty
    (fst unstored) (snd unstored)) as [[[Hn _]|(id & w1 & _ & _ & Hn & Hr & Ho)] _];
    [apply request_keyed|exact empty_ok|by intros i db Hdb; split; [|intros r; exists r]|reflexivity|discriminate Hn|].
  split; [destruct Ho as [Ho|[Ho _]]; [discriminate Ho|exact Ho]|]. by rewrite Hr, Hn.
Defined.

Lemma success_is_replayed_witness :
  w_executed (alone cfg true (request "a") bad second second after_ok).2 = 1%nat ∧
  ∃ body, (alone cfg true (request "a") bad second second after_ok).1 = Done body true.
Proof.
  destruct (success_is_replayed (λ b, b) (λ b, b) (λ b, b) Some Some decoder [] (λ b, b) cfg
    (request "a") (request "a") (lit "key-1") (fingerprint "a") (lit "{1}") (Err "BOOM") 0 0
    second second empty after_ok after_ok
    (alone cfg true (request "a") bad second second after_ok).1
    (alone cfg true (request "a") bad second second after_ok).2)
    as (Hn & _ & _); try reflexivity; try apply request_keyed; [exact empty_ok|].
  split; [exact Hn|]. exists (lit "{1}"). reflexivity.
Defined.

Lemma failure_backs_off_witness :
  w_executed (alone cfg true (request "a") ok (5 * second) (5 * second) after_bad).2
  = S (w_executed after_bad).
Proof.
  refine (failure_backs_off (λ b, b) (λ b, b) (λ b, b) Some Some decoder [] (λ b, b) cfg
    (request "a") (request "a") (lit "key-1") (fingerprint "a") "BOOM" (Ok (lit "{1}")) 0 0
    (5 * second) (5 * second) empty "BOOM" after_bad after_bad
    (alone cfg true (request "a") ok (5 * second) (5 * second) after_bad).1
    (alone cfg true (request "a") ok (5 * second) (5 * second) after_bad).2
    _ _ _ _ _ _ _ _); try reflexivity; try apply request_keyed. exact empty_ok.
Defined.

Lemma single_ok r n : 0 < ID r < n → table_ok (mkTable [r] n).
Proof.
  constructor; simpl; [|intros x ->%list_elem_of_singleton; lia| |lia]; apply NoDup_singleton.
Qed.

Lemma after_ok_ok : table_ok (w_db after_ok).
Proof.
  let t := eval vm_compute in (w_db after_ok) in change (table_ok t). by apply single_ok.
Qed.

Lemma reused_key_conflicts_witness :
  (alone cfg true (request "b") ok (48 * hour) 0 after_ok).1 = Fail KeyConflict.
Proof.
  refine (proj1 (reused_key_conflicts (λ b, b) (λ b, b) (λ b, b) Some Some decoder [] (λ b, b) cfg
    (request "b") (lit "key-1") (fingerprint "b") _ (Ok (lit "{1}")) (48 * hour) 0 after_ok
    (alone cfg true (request "b") ok (48 * hour) 0 after_ok).1
    (alone cfg true (request "b") ok (48 * hour) 0 after_ok).2 _ _ _ _ _));
    [apply request_keyed|exact after_ok_ok|reflexivity|discriminate|reflexivity].
Defined.

Lemma execute_touches_own_key_witness : table_ok (w_db after_ok).
Proof.
  refine (proj1 (execute_touches_own_key (λ b, b) (λ b, b) (λ b, b) Some Some decoder [] (λ b, b) cfg
    (request "a") (lit "key-1") (fingerprint "a") (Ok (lit "{1}")) 0 0 empty
    (Done (lit "{1}") false) after_ok _ _ _)); [apply request_keyed|exact empty_ok|reflexivity].
Defined.

(** A store in which another request holds the key. *)
Definition held_row : IdempotencyRecord :=
  mkRecord 1 (lit "admin.create") (lit "key-1") (fingerprint "a") StatusProcessing None None None
    (Some (30 * second)) (24 * hour).
Definition held_table : table := mkTable [held_row] 2.

Lemma held_table_ok : table_ok held_table.
Proof. by apply single_ok. Qed.

Lemma held_lease_excludes_witness :
  w_executed (execute cfg (λ _ _, held_table) (λ i, bool_decide (i = 3%nat)) true (request "a") ok
                0 0 empty).2 = 0%nat.
Proof.
  refine (proj1 (held_lease_excludes (λ b, b) (λ b, b) (λ b, b) Some Some decoder [] (λ b, b) cfg
    (λ _ _, held_table) (λ i, bool_decide (i = 3%nat)) (request "a") (lit "key-1") (fingerprint "a")
    1 true (Ok (lit "{1}")) 0 0 empty
    (execute cfg (λ _ _, held_table) (λ i, bool_decide (i = 3%nat)) true (request "a") ok 0 0 empty).1
    (execute cfg (λ _ _, held_table) (λ i, bool_decide (i = 3%nat)) true (request "a") ok 0 0 empty).2
    _ _ _)); [apply request_keyed| |reflexivity].
  intros _ _. split; [exact held_table_ok|]. exists held_row. by split_and!.
Defined.

Lemma renewal_keeps_lease_witness :
  held (lit "admin.create") (lit "key-1") 1 (39 * second) true
    (renew_tick cfg 1 (fingerprint "a") (24 * hour) (10 * second) held_table).2.
Proof.
  refine (proj1 (renewal_keeps_lease cfg (lit "admin.create") (lit "key-1") held_row (24 * hour)
    (10 * second) held_table _ (39 * second) held_table_ok _ _ _ _ _ _));
    [reflexivity|reflexivity|done|done|reflexivity|done].
Defined.

Lemma expired_reclaim_runs_twice_witness :
  ∃ w', execute cfg
    (λ i t, match i with 2%nat => w_db (alone cfg true (request "a") (Some (Ok (lit "{2}")))
                                          (25 * hour) (25 * hour) (mkWorld t 0 0)).2
            | _ => t end)
    (λ _, false) true (request "a") (Some (Ok (lit "{3}"))) (25 * hour) (25 * hour)
    (mkWorld (w_db after_ok) 0 0) = (Done (lit "{3}") false, w').
Proof.
  refine (proj2 (expired_reclaim_runs_twice (λ b, b) (λ b, b) (λ b, b) Some Some decoder [] (λ b, b)
    cfg (request "a") (lit "key-1") _ (lit "{2}") (lit "{3}") (lit "{2}") (lit "{3}")
    (25 * hour) (25 * hour) (25 * hour) (25 * hour) (w_db after_ok) _ after_ok_ok _ _ _ _ _ _ _));
    try reflexivity; [apply request_keyed|vm_compute; discriminate|vm_compute; discriminate].
Defined.

Lemma truncated_response_undecodable_witness :
  decodeStoredResponse decoder [] (marshalStoredResponse (λ b, b) Some (λ b, b) cfg (lit "{1234567}"))
  = None.
Proof.
  refine (truncated_response_undecodable (λ b, b) Some decoder [] (λ b, b) cfg (lit "{1234567}")
    (lit "{1234567}") _ _ _ _ _); try reflexivity.
  - intros s. unfold decoder. rewrite bool_decide_true; [done|]. exact (last_snoc ")"%char s).
  - by split.
Defined.

Lemma delete_expired_oldest_first_witness :
  (delete_expired (25 * hour) 0 (w_db after_ok)).1 = 1.
Proof.
  destruct (delete_expired_oldest_first (25 * hour) 0 (w_db after_ok)
    (delete_expired (25 * hour) 0 (w_db after_ok)).1
    (delete_expired (25 * hour) 0 (w_db after_ok)).2 after_ok_ok eq_refl) as (_ & _ & _ & E & _).
  exact E.
Defined.

End Example.

End IdempotencyRepo.
