(* ===== verification/AuthLimiter.v ===== *)
(** * The limiter of invalid API-key attempts

    Models [service/invalid_auth_abuse_limiter.go]: per-client failure counters
    in sixteen maps under a shared capacity, an overflow bucket for the clients
    that find no room, and the paced cleanup of one map at a time.  Each method
    is one step at the time it reads. *)

From S2P Require Import Prelude GoStrings.

Module AuthLimiter.
Import GoStrings.

Definition invalidAuthAbuseShardCount : nat := 16.

(** A client's bucket; the overflow bucket has the same fields. *)
Record invalidAuthAbuseEntry := mkEntry {
  failures : Z;
  windowStart : time;
  blockedUntil : time
}.

Record counters := mkCounters {
  recorded : Z;
  blocked : Z;
  rejected : Z;
  expired : Z;
  overflowed : Z;
  globalBlocked : Z
}.

Record invalidAuthAbuseLimiter := mkLimiter {
  shards : list (gmap bytes invalidAuthAbuseEntry);
  overflow : invalidAuthAbuseEntry;
  tracked : Z;
  counts : counters;
  cleanupNext : Z;
  cleanupCursor : Z
}.

(** The fields that never change. *)
Record params := mkParams {
  threshold : Z;
  window : duration;
  block : duration;
  capacity : Z
}.

Record InvalidAbuseConfig := mkAbuseConfig {
  Enabled : bool;
  Threshold : Z;
  WindowSeconds : Z;
  BlockSeconds : Z;
  Capacity : Z
}.

Definition zero_entry : invalidAuthAbuseEntry := mkEntry 0 zero_time zero_time.

Definition newInvalidAuthAbuseLimiter (cfg : option InvalidAbuseConfig)
    : option (params * invalidAuthAbuseLimiter) :=
  match cfg with
  | None => None
  | Some c =>
      if negb (Enabled c) then None
      else if (Threshold c <=? 0) || (WindowSeconds c <=? 0) || (BlockSeconds c <=? 0)
              || (Capacity c <=? 0) then None
      else Some (mkParams (Threshold c) (wrap64 (WindowSeconds c * second))
                   (wrap64 (BlockSeconds c * second)) (Capacity c),
                 mkLimiter (replicate invalidAuthAbuseShardCount ∅) zero_entry 0
                   (mkCounters 0 0 0 0 0 0) 0 0)
  end.

(** ** Counters *)

Definition bump (n : Z) : Z := wrapu64 (n + 1).
Definition add_recorded (c : counters) := mkCounters (bump (recorded c)) (blocked c) (rejected c)
  (expired c) (overflowed c) (globalBlocked c).
Definition add_blocked (c : counters) := mkCounters (recorded c) (bump (blocked c)) (rejected c)
  (expired c) (overflowed c) (globalBlocked c).
Definition add_rejected (c : counters) := mkCounters (recorded c) (blocked c) (bump (rejected c))
  (expired c) (overflowed c) (globalBlocked c).
Definition add_expired (c : counters) := mkCounters (recorded c) (blocked c) (rejected c)
  (bump (expired c)) (overflowed c) (globalBlocked c).
Definition add_overflowed (c : counters) := mkCounters (recorded c) (blocked c) (rejected c)
  (expired c) (bump (overflowed c)) (globalBlocked c).
Definition add_globalBlocked (c : counters) := mkCounters (recorded c) (blocked c) (rejected c)
  (expired c) (overflowed c) (bump (globalBlocked c)).

Definition count (f : counters → counters) (st : invalidAuthAbuseLimiter) : invalidAuthAbuseLimiter :=
  mkLimiter (shards st) (overflow st) (tracked st) (f (counts st)) (cleanupNext st) (cleanupCursor st).

Definition set_shard (i : nat) (m : gmap bytes invalidAuthAbuseEntry) (tr : Z)
    (st : invalidAuthAbuseLimiter) : invalidAuthAbuseLimiter :=
  mkLimiter (<[i := m]> (shards st)) (overflow st) tr (counts st) (cleanupNext st) (cleanupCursor st).

(** ** Shards *)

Definition fnv_step (hash : Z) (c : ascii) : Z := wrapu32 (Z.lxor hash (code c) * 16777619).

(** The index of a key's shard. *)
Definition shard (clientKey : bytes) : nat :=
  Z.to_nat (foldl fnv_step 2166136261 clientKey mod 16).

Definition entries (i : nat) (st : invalidAuthAbuseLimiter) : gmap bytes invalidAuthAbuseEntry :=
  default ∅ (shards st !! i).

Definition lookup_entry (key : bytes) (st : invalidAuthAbuseLimiter) : option invalidAuthAbuseEntry :=
  entries (shard key) st !! key.

Section Limiter.
Context (p : params).

Definition entryExpired (e : invalidAuthAbuseEntry) (now : time) : bool :=
  negb (after (blockedUntil e) now) && negb (after (windowStart e) now)
  && negb (before now (windowStart e + window p)).

(** ** Cleanup *)

Definition maybeCleanupAtCapacity (now : time) (st : invalidAuthAbuseLimiter)
    : invalidAuthAbuseLimiter :=
  if tracked st <? capacity p then st
  else if wrap64 now <? cleanupNext st then st
  else
    let cursor := wrapu32 (cleanupCursor st + 1) in
    let i := Z.to_nat (wrapu32 (cursor - 1) mod 16) in
    let kept := filter (λ kv, entryExpired kv.2 now = false) (entries i st) in
    let gone := (size (entries i st) - size kept)%nat in
    mkLimiter (<[i := kept]> (shards st)) (overflow st) (tracked st - Z.of_nat gone)
      (Nat.iter gone add_expired (counts st)) (wrap64 (now + 100 * millisecond)) cursor.

(** The entry of a key under its shard's lock, dropped when it has expired. *)
Definition live_entry (now : time) (key : bytes) (st : invalidAuthAbuseLimiter)
    : option invalidAuthAbuseEntry * invalidAuthAbuseLimiter :=
  match lookup_entry key st with
  | Some e =>
      if entryExpired e now then
        (None, count add_expired
                 (set_shard (shard key) (delete key (entries (shard key) st)) (tracked st - 1) st))
      else (Some e, st)
  | None => (None, st)
  end.

(** ** Checks *)

Definition checkOverflow (now : time) (st : invalidAuthAbuseLimiter) : duration * bool :=
  if after (blockedUntil (overflow st)) now
  then (time_sub (blockedUntil (overflow st)) now, true) else (0, false).

Definition check (now : time) (clientKey : bytes) (st : invalidAuthAbuseLimiter)
    : (duration * bool) * invalidAuthAbuseLimiter :=
  if bool_decide (clientKey = []) then ((0, false), st)
  else
    let '(entry, st) := live_entry now clientKey (maybeCleanupAtCapacity now st) in
    match entry with
    | Some e =>
        if after (blockedUntil e) now
        then ((time_sub (blockedUntil e) now, true), count add_rejected st)
        else ((0, false), st)
    | None =>
        if capacity p <=? tracked st then
          match checkOverflow now st with
          | (retry, true) => ((retry, true), count add_globalBlocked (count add_rejected st))
          | (_, false) => ((0, false), st)
          end
        else ((0, false), st)
    end.

(** ** Failures *)

(** A failure counted in a bucket whose window may restart, and whether it
    blocks the bucket. *)
Definition count_failure (restart : bool) (now : time) (e : invalidAuthAbuseEntry)
    : invalidAuthAbuseEntry * bool :=
  let start := if restart then now else windowStart e in
  let n := (if restart then 0 else failures e) + 1 in
  if threshold p <=? n then (mkEntry 0 (now + block p) (now + block p), true)
  else (mkEntry n start (blockedUntil e), false).

Definition recordOverflow (now : time) (st : invalidAuthAbuseLimiter) : invalidAuthAbuseLimiter :=
  let st := count add_overflowed st in
  let o := overflow st in
  if after (blockedUntil o) now then st
  else
    let '(o, b) := count_failure (bool_decide (windowStart o = zero_time)
                                  || negb (before now (windowStart o + window p))) now o in
    mkLimiter (shards st) o (tracked st) (if b then add_blocked (counts st) else counts st)
      (cleanupNext st) (cleanupCursor st).

(** The counting of a failure in a client's entry. *)
Definition record_entry (now : time) (e : invalidAuthAbuseEntry) : invalidAuthAbuseEntry * bool :=
  if after (blockedUntil e) now then (e, false)
  else count_failure (after (windowStart e) now || negb (before now (windowStart e + window p))) now e.

Definition record (now : time) (clientKey : bytes) (st : invalidAuthAbuseLimiter)
    : invalidAuthAbuseLimiter :=
  if bool_decide (clientKey = []) then st
  else
    let st := maybeCleanupAtCapacity now (count add_recorded st) in
    let '(entry, st) := live_entry now clientKey st in
    let put e tr st :=
      let '(e, b) := record_entry now e in
      count (if b : bool then add_blocked else λ c, c)
        (set_shard (shard clientKey) (<[clientKey := e]> (entries (shard clientKey) st)) tr st) in
    match entry with
    | Some e => put e (tracked st) st
    | None =>
        if capacity p <=? tracked st then recordOverflow now st
        else put (mkEntry 0 now zero_time) (tracked st + 1) st
    end.

End Limiter.

(** ** The service's entry points *)

Definition CheckInvalidAuthAbuse (l : option (params * invalidAuthAbuseLimiter)) (now : time)
    (clientKey : bytes) : (duration * bool) * option (params * invalidAuthAbuseLimiter) :=
  match l with
  | None => ((0, false), None)
  | Some (p, st) => let '(r, st) := check p now clientKey st in (r, Some (p, st))
  end.

Definition RecordInvalidAuthFailure (l : option (params * invalidAuthAbuseLimiter)) (now : time)
    (clientKey : bytes) : option (params * invalidAuthAbuseLimiter) :=
  (λ '(p, st), (p, record p now clientKey st)) <$> l.

Record InvalidAuthAbuseHealth := mkHealth {
  h_enabled : bool;
  h_tracked : Z;
  h_capacity : Z;
  h_counts : counters
}.

Definition health (l : option (params * invalidAuthAbuseLimiter)) : InvalidAuthAbuseHealth :=
  match l with
  | None => mkHealth false 0 0 (mkCounters 0 0 0 0 0 0)
  | Some (p, st) => mkHealth true (tracked st) (capacity p) (counts st)
  end.

(** ** The shards *)

Lemma shard_bound key : (shard key < invalidAuthAbuseShardCount)%nat.
Proof. unfold shard, invalidAuthAbuseShardCount. pose proof (Z.mod_pos_bound (foldl fnv_step 2166136261 key) 16). lia. Qed.

Record wf (p : params) (st : invalidAuthAbuseLimiter) : Prop := {
  wf_shards : length (shards st) = invalidAuthAbuseShardCount;
  wf_tracked : tracked st = sumZ (λ m : gmap bytes invalidAuthAbuseEntry, Z.of_nat (size m)) (shards st);
  wf_capacity : tracked st ≤ capacity p
}.

Lemma entries_lookup p st i : wf p st → (i < invalidAuthAbuseShardCount)%nat →
  shards st !! i = Some (entries i st).
Proof.
  intros Hwf Hi. unfold entries. destruct (shards st !! i) eqn:E; [done|].
  apply lookup_ge_None in E. rewrite (wf_shards _ _ Hwf) in E. lia.
Qed.

Lemma lookup_set_shard p st i m tr k : wf p st → (i < invalidAuthAbuseShardCount)%nat →
  lookup_entry k (set_shard i m tr st) = if decide (i = shard k) then m !! k else lookup_entry k st.
Proof.
  intros Hwf Hi. unfold lookup_entry, entries. simpl. rewrite list_lookup_insert.
  destruct (decide (i = shard k)) as [->|Hn].
  - by rewrite decide_True by (rewrite (wf_shards _ _ Hwf); split; [done|apply shard_bound]).
  - rewrite decide_False; [done|]. by intros [? _].
Qed.

Lemma wf_set_shard p st i m tr : wf p st → (i < invalidAuthAbuseShardCount)%nat →
  tr = tracked st - Z.of_nat (size (entries i st)) + Z.of_nat (size m) → tr ≤ capacity p →
  wf p (set_shard i m tr st).
Proof.
  intros Hwf Hi -> Hc. constructor; simpl; [| |done].
  - rewrite length_insert. apply Hwf.
  - rewrite (sumZ_insert _ _ _ _ _ (entries_lookup _ _ _ Hwf Hi)). by rewrite <- (wf_tracked _ _ Hwf).
Qed.

Lemma wf_count p f st : wf p st → wf p (count f st).
Proof. by intros [H1 H2 H3]. Qed.

Lemma lookup_count f st k : lookup_entry k (count f st) = lookup_entry k st.
Proof. done. Qed.

(** ** Clients

    What the limiter knows of one client: its entry unless it has expired, and
    the entry's updates by the client's own failures. *)
Section Client.
Context (p : params).

Definition client_live (now : time) (c : option invalidAuthAbuseEntry) : option invalidAuthAbuseEntry :=
  match c with
  | Some e => if entryExpired p e now then None else Some e
  | None => None
  end.

Definition client_record (c : option invalidAuthAbuseEntry) (now : time) : option invalidAuthAbuseEntry :=
  Some (record_entry p now (default (mkEntry 0 now zero_time) (client_live now c))).1.

(** From [now] on the two are the same client. *)
Definition same_client (now : time) (c c' : option invalidAuthAbuseEntry) : Prop :=
  ∀ t, now ≤ t → client_live t c = client_live t c'.

#[export] Instance same_client_equivalence now : Equivalence (same_client now).
Proof.
  split; [by intros ? ? ?|by intros ? ? H t ?; rewrite H|].
  intros a b c H1 H2 t Ht. by rewrite H1, H2.
Qed.

Lemma same_client_later now now' c c' : now ≤ now' → same_client now c c' → same_client now' c c'.
Proof. intros Hle H t Ht. apply H. lia. Qed.

#[export] Instance client_record_proper now :
  Proper (same_client now ==> same_client now) (λ c, client_record c now).
Proof. intros c c' H t Ht. unfold client_record. by rewrite (H now (Z.le_refl _)). Qed.

(** An expired entry stays expired. *)
Lemma expired_later e now t : now ≤ t → entryExpired p e now = true → entryExpired p e t = true.
Proof.
  unfold entryExpired, after, before. intros Ht.
  rewrite !andb_true_iff, !negb_true_iff, !Z.ltb_ge. lia.
Qed.

Lemma expired_client e now : entryExpired p e now = true → same_client now None (Some e).
Proof. intros He t Ht. simpl. by rewrite (expired_later e now t Ht He). Qed.

(** ** Each part of an operation keeps the table sound and every client *)

Lemma wf_cleanup now st : wf p st → wf p (maybeCleanupAtCapacity p now st).
Proof.
  intros Hwf. unfold maybeCleanupAtCapacity. case_match; [done|]. case_match; [done|].
  set (i := Z.to_nat _). set (kept := filter _ _).
  assert (i < invalidAuthAbuseShardCount)%nat as Hi.
  { unfold i, invalidAuthAbuseShardCount.
    pose proof (Z.mod_pos_bound (wrapu32 (wrapu32 (cleanupCursor st + 1) - 1)) 16). lia. }
  assert (size kept ≤ size (entries i st))%nat as Hk by apply map_subseteq_size, map_filter_subseteq.
  assert (wf p (set_shard i kept (tracked st - Z.of_nat (size (entries i st) - size kept)) st)) as [? ? ?].
  { apply wf_set_shard; [done|done|lia|]. pose proof (wf_capacity _ _ Hwf). lia. }
  by constructor.
Qed.

Lemma cleanup_client now st k : wf p st →
  same_client now (lookup_entry k (maybeCleanupAtCapacity p now st)) (lookup_entry k st).
Proof.
  intros Hwf. unfold maybeCleanupAtCapacity. case_match; [done|]. case_match; [done|].
  set (i := Z.to_nat _). set (kept := filter _ _).
  change (same_client now (lookup_entry k (set_shard i kept 0 st)) (lookup_entry k st)).
  assert (i < invalidAuthAbuseShardCount)%nat as Hi.
  { unfold i, invalidAuthAbuseShardCount.
    pose proof (Z.mod_pos_bound (wrapu32 (wrapu32 (cleanupCursor st + 1) - 1)) 16). lia. }
  rewrite (lookup_set_shard p) by done. destruct (decide (i = shard k)) as [E|]; [|done].
  unfold lookup_entry. rewrite <- E. unfold kept.
  destruct (entries i st !! k) as [e|] eqn:Hk.
  2: { rewrite map_lookup_filter_None_2; [done|]. by left. }
  destruct (entryExpired p e now) eqn:He.
  - rewrite map_lookup_filter_None_2; [by apply expired_client|]. right. intros x Hx.
    simplify_eq. simpl. by rewrite He.
  - by rewrite (map_lookup_filter_Some_2 _ _ _ e).
Qed.

Lemma live_entry_spec now key st o st' : wf p st → live_entry p now key st = (o, st') →
  o = client_live now (lookup_entry key st) ∧ wf p st' ∧ lookup_entry key st' = o ∧
  tracked st' ≤ tracked st ∧ ∀ k, same_client now (lookup_entry k st') (lookup_entry k st).
Proof.
  intros Hwf. unfold live_entry. destruct (lookup_entry key st) as [e|] eqn:Hl.
  2: { intros [= <- <-]. by split_and!. }
  simpl. destruct (entryExpired p e now) eqn:He; [|by intros [= <- <-]; split_and!].
  intros [= <- <-]. pose proof (shard_bound key) as Hb. rewrite !lookup_count.
  assert (∀ k, lookup_entry k (set_shard (shard key) (delete key (entries (shard key) st)) (tracked st - 1) st)
               = if decide (k = key) then None else lookup_entry k st) as Hk.
  { intros k. rewrite (lookup_set_shard p) by done. destruct (decide (k = key)) as [->|Hn].
    - by rewrite decide_True, lookup_delete_eq.
    - destruct (decide (shard key = shard k)) as [E|]; [|done].
      rewrite lookup_delete_ne by done. unfold lookup_entry. by rewrite E. }
  split_and!; [done| | |simpl; lia|].
  - apply wf_count, wf_set_shard; [done|done| |pose proof (wf_capacity _ _ Hwf); lia].
    assert (is_Some (entries (shard key) st !! key)) as Hs by by eexists.
    rewrite map_size_delete. unfold lookup_entry in Hl. rewrite Hl.
    assert (size (entries (shard key) st) ≠ 0%nat); [|simpl; lia].
    intros H0%map_size_empty_inv. rewrite H0 in Hl. done.
  - by rewrite Hk, decide_True.
  - intros k. rewrite lookup_count, Hk. destruct (decide (k = key)) as [->|]; [|done].
    rewrite Hl. by apply expired_client.
Qed.

(** Counting a failure of [key] writes its entry. *)
Lemma wf_overflow now st : wf p st → wf p (recordOverflow p now st).
Proof. intros [? ? ?]. unfold recordOverflow. case_match; [by constructor|]. case_match. by constructor. Qed.

Lemma lookup_overflow now st k : lookup_entry k (recordOverflow p now st) = lookup_entry k st.
Proof. unfold recordOverflow. case_match; [done|]. by case_match. Qed.

Lemma put_spec key e tr f st : wf p st →
  tr = tracked st + (if lookup_entry key st then 0 else 1) → tr ≤ capacity p →
  wf p (count f (set_shard (shard key) (<[key := e]> (entries (shard key) st)) tr st)) ∧
  ∀ k, lookup_entry k (count f (set_shard (shard key) (<[key := e]> (entries (shard key) st)) tr st))
       = if decide (k = key) then Some e else lookup_entry k st.
Proof.
  intros Hwf Htr Hc. pose proof (shard_bound key) as Hb. split.
  - apply wf_count, wf_set_shard; [done|done| |done]. rewrite Htr. unfold lookup_entry.
    destruct (entries (shard key) st !! key) as [e'|] eqn:E.
    + rewrite map_size_insert_Some by done. lia.
    + rewrite map_size_insert_None by done. lia.
  - intros k. rewrite lookup_count, (lookup_set_shard p) by done.
    destruct (decide (k = key)) as [->|Hn]; [by rewrite decide_True, lookup_insert_eq|].
    destruct (decide (shard key = shard k)) as [E|]; [|done].
    rewrite lookup_insert_ne by done. unfold lookup_entry. by rewrite E.
Qed.

(** The failure of [key] finds an entry or room for one. *)
Definition served (now : time) (key : bytes) (st : invalidAuthAbuseLimiter) : bool :=
  let '(entry, st) := live_entry p now key (maybeCleanupAtCapacity p now (count add_recorded st)) in
  if entry is Some _ then true else tracked st <? capacity p.

Lemma record_step now key st : wf p st →
  wf p (record p now key st) ∧
  (∀ k, k ≠ key → same_client now (lookup_entry k (record p now key st)) (lookup_entry k st)) ∧
  (key ≠ [] → served now key st = true →
   same_client now (lookup_entry key (record p now key st)) (client_record (lookup_entry key st) now)).
Proof.
  intros Hwf. unfold record, served.
  case_bool_decide; [by split_and!|].
  set (st1 := maybeCleanupAtCapacity p now (count add_recorded st)).
  assert (wf p st1) as Hwf1 by (by apply wf_cleanup, wf_count).
  assert (∀ k, same_client now (lookup_entry k st1) (lookup_entry k st)) as Hs1.
  { intros k. unfold st1. rewrite (cleanup_client now (count add_recorded st) k) by (by apply wf_count). done. }
  destruct (live_entry p now key st1) as [o st2] eqn:Hle.
  pose proof (live_entry_spec _ _ _ _ _ Hwf1 Hle) as (Ho & Hwf2 & Hl2 & _ & Hs2).
  assert (∀ k, same_client now (lookup_entry k st2) (lookup_entry k st)) as Hs.
  { intros k. by rewrite Hs2, Hs1. }
  assert (o = client_live now (lookup_entry key st)) as Hlive by (by rewrite Ho, (Hs1 key now)).
  pose proof (wf_capacity _ _ Hwf2).
  destruct o as [e|].
  - destruct (record_entry p now e) as [e' b] eqn:He.
    destruct (put_spec key e' (tracked st2) (if b then add_blocked else λ c, c) st2 Hwf2) as [Hw Hk];
      [rewrite Hl2; lia|done|].
    split; [done|]. split.
    + intros k Hn. by rewrite Hk, decide_False.
    + intros _ _. rewrite Hk, decide_True by done. unfold client_record. by rewrite <- Hlive; simpl; rewrite He.
  - destruct (capacity p <=? tracked st2) eqn:Hfull.
    + split; [by apply wf_overflow|]. split; [intros k _; by rewrite lookup_overflow|].
      intros _ Ht%Z.ltb_lt. apply Z.leb_le in Hfull. lia.
    + destruct (record_entry p now (mkEntry 0 now zero_time)) as [e' b] eqn:He.
      apply Z.leb_gt in Hfull.
      destruct (put_spec key e' (tracked st2 + 1) (if b then add_blocked else λ c, c) st2 Hwf2) as [Hw Hk];
        [rewrite Hl2; lia|lia|].
      split; [done|]. split.
      * intros k Hn. by rewrite Hk, decide_False.
      * intros _ _. rewrite Hk, decide_True by done. unfold client_record. by rewrite <- Hlive; simpl; rewrite He.
Qed.

Lemma check_step now key st : wf p st →
  wf p (check p now key st).2 ∧
  (∀ k, same_client now (lookup_entry k (check p now key st).2) (lookup_entry k st)) ∧
  (key ≠ [] → ∀ e, client_live now (lookup_entry key st) = Some e →
   (check p now key st).1 = if after (blockedUntil e) now
                            then (time_sub (blockedUntil e) now, true) else (0, false)).
Proof.
  intros Hwf. unfold check. case_bool_decide; [by split_and!|].
  set (st1 := maybeCleanupAtCapacity p now st).
  assert (wf p st1) as Hwf1 by (by apply wf_cleanup).
  assert (∀ k, same_client now (lookup_entry k st1) (lookup_entry k st)) as Hs1
    by (intros k; by apply cleanup_client).
  destruct (live_entry p now key st1) as [o st2] eqn:Hle.
  pose proof (live_entry_spec _ _ _ _ _ Hwf1 Hle) as (Ho & Hwf2 & Hl2 & _ & Hs2).
  assert (∀ k, same_client now (lookup_entry k st2) (lookup_entry k st)) as Hs.
  { intros k. by rewrite Hs2, Hs1. }
  assert (o = client_live now (lookup_entry key st)) as Hlive by (by rewrite Ho, (Hs1 key now)).
  assert (∀ f, wf p (count f st2)) as Hwc by (intros; by apply wf_count).
  destruct o as [e|].
  - destruct (after (blockedUntil e) now) eqn:Hb; (split; [by apply wf_count || done|]);
      (split; [done|]); intros _ e' He'; rewrite <- Hlive in He'; simplify_eq; by rewrite Hb.
  - assert (∀ (X : Prop), ∀ e, client_live now (lookup_entry key st) = Some e → X) as Hno
      by (intros X e He; by rewrite <- Hlive in He).
    destruct (capacity p <=? tracked st2); [|split_and!; [done|done|intros _ e; apply Hno]].
    unfold checkOverflow. destruct (after (blockedUntil (overflow st2)) now); simpl.
    + split; [by apply wf_count, wf_count|]. split; [done|]. intros _ e. apply Hno.
    + split; [done|]. split; [done|]. intros _ e. apply Hno.
Qed.

End Client.

(** ** Runs *)

Inductive event := OnCheck (key : bytes) | OnFailure (key : bytes).

Definition step (p : params) (st : invalidAuthAbuseLimiter) (ev : time * event) : invalidAuthAbuseLimiter :=
  match ev with
  | (now, OnCheck key) => (check p now key st).2
  | (now, OnFailure key) => record p now key st
  end.
Definition run (p : params) (evs : list (time * event)) (st : invalidAuthAbuseLimiter)
    : invalidAuthAbuseLimiter := foldl (step p) st evs.

(** The clock does not go back between [t] and [now]. *)
Fixpoint ordered (t : time) (evs : list (time * event)) (now : time) : Prop :=
  match evs with
  | [] => t ≤ now
  | (t', _) :: evs => t ≤ t' ∧ ordered t' evs now
  end.

(** The times of the client's failures. *)
Definition own (k : bytes) (evs : list (time * event)) : list time :=
  omap (λ ev, match ev.2 with OnFailure key => if decide (key = k) then Some ev.1 else None
              | OnCheck _ => None end) evs.

(** Each of the client's failures found an entry or room for one. *)
Fixpoint all_served (p : params) (k : bytes) (evs : list (time * event)) (st : invalidAuthAbuseLimiter)
    : bool :=
  match evs with
  | [] => true
  | ev :: evs =>
      match ev with
      | (now, OnFailure key) => if decide (key = k) then served p now key st else true
      | _ => true
      end && all_served p k evs (step p st ev)
  end.

Lemma ordered_le t evs now : ordered t evs now → t ≤ now.
Proof.
  revert t. induction evs as [|[t' ev] evs IH]; intros t; simpl; [done|]. intros [? ?%IH]. lia.
Qed.

Lemma step_wf p st ev : wf p st → wf p (step p st ev).
Proof. destruct ev as [now [key|key]]; intros Hwf; [by apply check_step|by apply record_step]. Qed.

Lemma run_wf p evs st : wf p st → wf p (run p evs st).
Proof. revert st. induction evs as [|ev evs IH]; intros st Hwf; [done|]. by apply IH, step_wf. Qed.

(** The client's entry follows from its own failures, whatever others do. *)
Lemma run_client p k evs : k ≠ [] → ∀ t st c now, wf p st → same_client p t (lookup_entry k st) c →
  ordered t evs now → all_served p k evs st = true →
  same_client p now (lookup_entry k (run p evs st)) (foldl (client_record p) c (own k evs)).
Proof.
  intros Hk. induction evs as [|[t' ev] evs IH]; intros t st c now Hwf Hs Ho Hserved.
  - by eapply same_client_later.
  - destruct Ho as [Ht Ho]. apply (same_client_later _ _ t') in Hs; [|done].
    apply andb_true_iff in Hserved as [Hev Hserved]. destruct ev as [key|key].
    + apply (IH t'); [by apply step_wf| |done|done].
      destruct (check_step p t' key st Hwf) as (_ & Hc & _). simpl. by rewrite Hc.
    + destruct (record_step p t' key st Hwf) as (_ & Hother & Hown).
      change (own k ((t', OnFailure key) :: evs)) with
        (match (if decide (key = k) then Some t' else None) with
         | Some x => x :: own k evs | None => own k evs end).
      destruct (decide (key = k)) as [->|Hn].
      * simpl foldl. apply (IH t'); [by apply step_wf| |done|done]. simpl. rewrite Hown by done.
        by apply client_record_proper.
      * apply (IH t'); [by apply step_wf| |done|done]. simpl. by rewrite Hother by done.
Qed.

(** A client's failures up to the threshold, within one window. *)
Lemma count_to_threshold p ts : ∀ start n t, 0 < window p →
  0 ≤ n → n + Z.of_nat (length ts) = threshold p → ts ≠ [] →
  zero_time ≤ start → (∀ u, u ∈ ts → start ≤ u < start + window p) →
  last ts = Some t →
  foldl (client_record p) (Some (mkEntry n start zero_time)) ts
  = Some (mkEntry 0 (t + block p) (t + block p)).
Proof.
  induction ts as [|u ts IH]; intros start n t Hw Hn Hlen Hne Hz Hu Hlast; [done|].
  destruct (Hu u) as [Hu1 Hu2]; [apply list_elem_of_here|].
  assert (client_record p (Some (mkEntry n start zero_time)) u =
          Some (count_failure p false u (mkEntry n start zero_time)).1) as E.
  { unfold client_record, client_live, entryExpired, record_entry, after, before. simpl.
    rewrite (proj2 (Z.ltb_ge u zero_time)), (proj2 (Z.ltb_ge u start)),
      (proj2 (Z.ltb_lt u (start + window p))) by lia. simpl.
    by rewrite (proj2 (Z.ltb_ge u zero_time)), (proj2 (Z.ltb_ge u start)),
      (proj2 (Z.ltb_lt u (start + window p))) by lia. }
  simpl foldl. rewrite E. unfold count_failure. simpl. simpl in Hlen.
  destruct ts as [|u' ts].
  - simpl in *. rewrite (proj2 (Z.leb_le _ _)) by lia. by simplify_eq.
  - rewrite (proj2 (Z.leb_gt _ _)) by (simpl in Hlen; lia).
    apply IH; [done|lia|simpl in *; lia|done|done| |done].
    intros v Hv. apply Hu. by apply list_elem_of_further.
Qed.

(** ** The reference

    One client by itself, from the times of its failures: nothing is held against it; it
    has failed so often since the begin of its window; or it is blocked.  A block ends
    in a new window without failures. *)

Inductive standing := Clean | Counting (since : time) (n : Z) | Blocked (until : time).

Section Reference.
Context (p : params).

Definition settled (now : time) (s : standing) : standing :=
  match s with
  | Clean => Clean
  | Counting since n => if now <? since + window p then Counting since n else Clean
  | Blocked until =>
      if now <? until then Blocked until
      else if now <? until + window p then Counting until 0 else Clean
  end.

Definition failed (s : standing) (now : time) : standing :=
  match settled now s with
  | Blocked until => Blocked until
  | Counting since n => if threshold p <=? n + 1 then Blocked (now + block p) else Counting since (n + 1)
  | Clean => if threshold p <=? 1 then Blocked (now + block p) else Counting now 1
  end.

(** Where the client stands at [now]. *)
Definition stands (now : time) (failures : list time) : standing := settled now (foldl failed Clean failures).

(** What the limiter's entry of the client says. *)
Definition view (now : time) (c : option invalidAuthAbuseEntry) : standing :=
  match client_live p now c with
  | None => Clean
  | Some e => if now <? blockedUntil e then Blocked (blockedUntil e) else Counting (windowStart e) (failures e)
  end.

Definition agrees (t : time) (c : option invalidAuthAbuseEntry) (s : standing) : Prop :=
  match s with Counting since _ => since ≤ t | _ => True end ∧ ∀ now, t ≤ now → view now c = settled now s.

#[local] Arguments agrees : simpl never.

Lemma view_entry now e : view now (Some e) =
  if now <? blockedUntil e then Blocked (blockedUntil e)
  else if now <? windowStart e then Counting (windowStart e) (failures e)
  else if now <? windowStart e + window p then Counting (windowStart e) (failures e) else Clean.
Proof.
  unfold view. simpl. unfold entryExpired, after, before.
  destruct (now <? blockedUntil e) eqn:Eb; simpl; [by rewrite Eb|].
  destruct (now <? windowStart e); simpl; [by rewrite Eb|]. destruct (now <? windowStart e + window p); simpl; [by rewrite Eb|done].
Qed.

Lemma blocked_agrees t b : agrees t (Some (mkEntry 0 b b)) (Blocked b).
Proof. split; [done|]. intros now _. rewrite view_entry. simpl. by destruct (now <? b). Qed.

Lemma counting_agrees t n since past : since ≤ t → past ≤ t → agrees t (Some (mkEntry n since past)) (Counting since n).
Proof.
  intros H1 H2. split; [done|]. intros now Hn. rewrite view_entry. simpl.
  by rewrite (proj2 (Z.ltb_ge now past)), (proj2 (Z.ltb_ge now since)) by lia.
Qed.

(** The limiter counts a client's failure as the reference does. *)
Lemma failure_agrees t now c s : zero_time ≤ t → t ≤ now → agrees t c s → agrees now (client_record p c now) (failed s now).
Proof.
  intros Hz Ht [Hb Hv]. pose proof (Hv now Ht) as Hnow. unfold client_record, failed. unfold view in Hnow.
  destruct (client_live p now c) as [e|] eqn:Hl.
  - assert (c = Some e) as -> by (unfold client_live in Hl; destruct c as [x|]; [destruct (entryExpired p x now); [done|by injection Hl as ->]|done]). simpl default. unfold record_entry, after.
    destruct (now <? blockedUntil e) eqn:Eb.
    + rewrite <- Hnow. simpl. split; [done|]. intros u Hu. rewrite (Hv u) by lia.
      assert (s = Blocked (blockedUntil e)) as -> by (destruct s; simpl in Hnow; repeat case_match; congruence). done.
    + assert (windowStart e ≤ now ∧ now < windowStart e + window p) as [Hw1 Hw2].
      { destruct s as [|since n|until]; simpl in Hnow; repeat case_match; simplify_eq; bool_hyp; lia. }
      rewrite <- Hnow. rewrite (proj2 (Z.ltb_ge _ _) Hw1). unfold before. rewrite (proj2 (Z.ltb_lt _ _) Hw2). unfold count_failure. cbn [negb orb].
      destruct (threshold p <=? failures e + 1); cbn [fst]; [by apply blocked_agrees|]. apply counting_agrees; [lia|by apply Z.ltb_ge].
  - rewrite <- Hnow. simpl default. unfold record_entry, after. simpl. rewrite (proj2 (Z.ltb_ge now zero_time)) by lia.
    unfold count_failure. destruct (_ || _); cbn [failures windowStart blockedUntil]; change (0 + 1) with 1;
      (destruct (threshold p <=? 1); cbn [fst]; [by apply blocked_agrees|apply counting_agrees; lia]).
Qed.

Lemma failures_agree k evs : ∀ t c s now, zero_time ≤ t → ordered t evs now → agrees t c s →
  agrees now (foldl (client_record p) c (own k evs)) (foldl failed s (own k evs)).
Proof.
  induction evs as [|[t' ev] evs IH]; intros t c s now Hz Ho Ha; simpl in Ho.
  - destruct Ha as [Hb Hv]. split; [destruct s; simpl; lia || done|]. intros u Hu. apply Hv. lia.
  - destruct Ho as [Ht Ho]. assert (agrees t' c s) as Ha'.
    { destruct Ha as [Hb Hv]. split; [destruct s; simpl; lia || done|]. intros u Hu. apply Hv. lia. }
    unfold own. simpl. destruct ev as [key|key]; simpl; [apply (IH t'); [lia|done|done]|].
    destruct (decide (key = k)); simpl; (apply (IH t'); [lia|done|]); [by eapply failure_agrees|done].
Qed.
End Reference.

(** What an unknown client meets. *)
Lemma check_unknown p now k st : k ≠ [] → wf p st → client_live p now (lookup_entry k st) = None →
  (check p now k st).1 = (0, false) ∨
  capacity p ≤ tracked st ∧ now < blockedUntil (overflow st) ∧ (check p now k st).1 = (time_sub (blockedUntil (overflow st)) now, true).
Proof.
  intros Hk Hwf Hn. unfold check. rewrite bool_decide_eq_false_2 by done.
  assert (overflow (maybeCleanupAtCapacity p now st) = overflow st ∧ tracked (maybeCleanupAtCapacity p now st) ≤ tracked st) as [Ho Ht]
    by (unfold maybeCleanupAtCapacity; repeat case_match; simpl; split; done || lia).
  assert (wf p (maybeCleanupAtCapacity p now st)) as Hwf1 by by apply wf_cleanup.
  destruct (live_entry p now k (maybeCleanupAtCapacity p now st)) as [o st2] eqn:Hle.
  assert (overflow st2 = overflow st) as Ho2.
  { rewrite <- Ho. revert Hle. unfold live_entry. repeat case_match; by intros [= <- <-]. }
  apply live_entry_spec in Hle as (Hlive & _ & _ & Ht2 & _); [|done].
  rewrite (cleanup_client p now st k Hwf now (Z.le_refl _)), Hn in Hlive. subst o.
  destruct (capacity p <=? tracked st2) eqn:Hc; [|by left]. apply Z.leb_le in Hc. unfold checkOverflow. rewrite Ho2.
  destruct (after (blockedUntil (overflow st)) now) eqn:Ha; [|by left]. right. apply after_spec in Ha. split_and!; [lia|done|done].
Qed.

Lemma new_limiter cfg p st : newInvalidAuthAbuseLimiter cfg = Some (p, st) → wf p st ∧ ∀ k, lookup_entry k st = None.
Proof.
  intros Hnew. unfold newInvalidAuthAbuseLimiter in Hnew. repeat case_match; simplify_eq. split.
  - constructor; simpl; [done|done|].
    repeat match goal with H : _ || _ = false |- _ => apply orb_false_iff in H as [? ?] end. lia.
  - intros k. unfold lookup_entry, entries. cbn [shards].
    rewrite (lookup_replicate_2 invalidAuthAbuseShardCount ∅ (shard k)) by apply shard_bound. done.
Qed.

(** ** Properties *)

(** From a new limiter on, whatever checks and failures arrive and whatever
    the clock does, the count of tracked clients is the number of entries in
    the sixteen maps and never exceeds the capacity. *)
Theorem tracked_within_capacity cfg p st evs :
  newInvalidAuthAbuseLimiter cfg = Some (p, st) → wf p (run p evs st).
Proof. intros [Hwf _]%new_limiter. by apply run_wf. Qed.


(** A client without a live entry that fails [threshold] times within one
    window is refused, with the remaining time as the wait, from its last
    failure until the block is over, whatever other clients do meanwhile. *)
Theorem threshold_blocks p k evs st t first last_ rest now :
  wf p st → k ≠ [] → ordered t evs now → all_served p k evs st = true →
  zero_time ≤ first → 0 < window p → client_live p first (lookup_entry k st) = None →
  own k evs = first :: rest → last (first :: rest) = Some last_ →
  Z.of_nat (length (first :: rest)) = threshold p →
  (∀ u, u ∈ first :: rest → first ≤ u < first + window p) →
  now < last_ + block p →
  (check p now k (run p evs st)).1 = (time_sub (last_ + block p) now, true).
Proof.
  intros Hwf Hk Ho Hserved Hz Hw Hnew Hown Hlast Hlen Hwin Hnow.
  assert (foldl (client_record p) (lookup_entry k st) (own k evs)
          = Some (mkEntry 0 (last_ + block p) (last_ + block p))) as Hf.
  { rewrite <- (count_to_threshold p (first :: rest) first 0 last_) by (done || lia).
    rewrite Hown. simpl. f_equal. unfold client_record. rewrite Hnew. simpl.
    unfold client_live, entryExpired, after, before. simpl.
    by rewrite (proj2 (Z.ltb_ge first zero_time)), (proj2 (Z.ltb_ge first first)),
      (proj2 (Z.ltb_lt first (first + window p))) by lia. }
  assert (after (last_ + block p) now = true) as Ha by (by apply after_spec).
  assert (client_live p now (foldl (client_record p) (lookup_entry k st) (own k evs))
          = Some (mkEntry 0 (last_ + block p) (last_ + block p))) as Hl.
  { rewrite Hf. simpl. unfold entryExpired. simpl. by rewrite Ha. }
  erewrite (proj2 (proj2 (check_step p now k (run p evs st) (run_wf p evs st Hwf))) Hk).
  2: { rewrite <- Hl. eapply run_client; [done|done| |done|done|done]. reflexivity. }
  simpl. by rewrite Ha.
Qed.

(** ** An example *)

Definition example_config : option InvalidAbuseConfig := Some (mkAbuseConfig true 2 60 300 2).
Definition example_params : params := mkParams 2 (60 * second) (300 * second) 2.
Definition example_start : invalidAuthAbuseLimiter :=
  mkLimiter (replicate 16 ∅) zero_entry 0 (mkCounters 0 0 0 0 0 0) 0 0.
Definition example_run : list (time * event) :=
  [(0, OnFailure (lit "10.0.0.1")); (1 * second, OnFailure (lit "10.0.0.2"));
   (2 * second, OnFailure (lit "10.0.0.3")); (2 * second, OnCheck (lit "10.0.0.1"));
   (3 * second, OnFailure (lit "10.0.0.1")); (4 * second, OnFailure (lit "10.0.0.2"))].

Lemma example_wf : wf example_params example_start.
Proof. by constructor. Qed.

Lemma tracked_within_capacity_witness :
  tracked (run example_params example_run example_start) = 2 ∧
  wf example_params (run example_params example_run example_start).
Proof. split; [vm_compute; reflexivity|]. apply (tracked_within_capacity example_config). reflexivity. Defined.


(** A client without a failure is refused while the table is full and the shared bucket
    is blocked. *)
Example shared_bucket_refuses :
  (check example_params (5 * second) (lit "10.0.0.9")
     (run example_params (example_run ++ [(4 * second, OnFailure (lit "10.0.0.3"))]) example_start)).1 = (299 * second, true).
Proof. vm_compute. reflexivity. Qed.

Lemma threshold_blocks_witness :
  (check example_params (10 * second) (lit "10.0.0.1") (run example_params example_run example_start)).1
  = (293 * second, true).
Proof.
  refine (threshold_blocks example_params (lit "10.0.0.1") example_run example_start 0 0 (3 * second)
    [3 * second] (10 * second) example_wf _ _ _ _ _ _ _ _ _ _ _).
  - discriminate.
  - vm_compute. repeat split; discriminate.
  - vm_compute. reflexivity.
  - vm_compute. discriminate.
  - reflexivity.
  - vm_compute. reflexivity.
  - vm_compute. reflexivity.
  - reflexivity.
  - reflexivity.
  - intros u Hu. apply elem_of_cons in Hu as [->|Hu%list_elem_of_singleton]; [done|by subst].
  - reflexivity.
Defined.

End AuthLimiter.
