(* ===== verification/SessionCache.v ===== *)
(** * The bounded session cache and the digest session store

    Models [service/session_memory_cache.go] (a map, a recency list and a hash
    index of the keys, bounded in entries and bytes) and
    [service/digest_session_store.go] on top of it; the cache is shown to
    implement a plain list of items in order of recency.  The methods run under
    the cache's mutex, so each is one step. *)

From stdpp Require Import pretty.
From S2P Require Import Prelude GoStrings.

Module SessionCache.
Import GoStrings.

Definition sessionMemoryCacheMaxEntries : Z := 16384.
Definition sessionMemoryCacheMaxBytes : Z := Z.shiftl 32 20.
Definition sessionMemoryCacheSweep : duration := minute.
Definition sessionMemoryCacheEntryCost : Z := 512.

Class sessionMemoryValue (V : Type) := {
  sessionExpiresAt : V → time;
  sessionCost : V → Z;
  cloneSessionValue : V → V;
  sessionCost_nonneg : ∀ v, 0 ≤ sessionCost v
}.

Section Cache.
Context {V : Type} `{sessionMemoryValue V}.

(** Package [hash/maphash] under the cache's seed: the hash of a string, which
    is also the sum of a [Hash] the string was written to in pieces. *)
Context (maphash : bytes → Z).

(** A [list.Element] with the [sessionMemoryEntry] it carries; [addr] is its
    address. *)
Record element := mkElement {
  addr : nat;
  e_key : bytes;
  e_hash : Z;
  e_value : V;
  e_expiresAt : time;
  e_cost : Z
}.

(** [fresh] is the next address to allocate; [entries] is [nil] before the first
    [Store] and after [Close]. *)
Record sessionMemoryCache := mkCache {
  entries : option (gmap bytes element);
  prefixes : gmap Z (list element);
  lru : list element;
  used : Z;
  maxEntries : Z;
  maxBytes : Z;
  sweep : duration;
  timer : bool;
  closed : bool;
  fresh : nat
}.

Definition zero_cache (maxEntries maxBytes : Z) (sweep : duration) : sessionMemoryCache :=
  mkCache None ∅ [] 0 maxEntries maxBytes sweep false false 0.

(** Reading a nil map. *)
Definition ents (c : sessionMemoryCache) : gmap bytes element := default ∅ (entries c).
Definition bucket (h : Z) (c : sessionMemoryCache) : list element := default [] (prefixes c !! h).

Definition positive_or (n d : Z) : Z := if n <=? 0 then d else n.

Definition initLocked (c : sessionMemoryCache) : sessionMemoryCache :=
  match entries c with
  | Some _ => c
  | None => mkCache (Some ∅) ∅ (lru c) (used c)
              (positive_or (maxEntries c) sessionMemoryCacheMaxEntries)
              (positive_or (maxBytes c) sessionMemoryCacheMaxBytes)
              (positive_or (sweep c) sessionMemoryCacheSweep) (timer c) (closed c) (fresh c)
  end.

(** The last takes the place of the [i]-th. *)
Definition swap_remove (i : nat) (l : list element) : list element :=
  match last l with
  | None => l
  | Some x => take (length l - 1) (<[i := x]> l)
  end.

Definition drop_element (el : element) (indexed : list element) : list element :=
  match list_find (λ x, addr x = addr el) indexed with
  | Some (i, _) => swap_remove i indexed
  | None => indexed
  end.

Definition removeLocked (el : element) (c : sessionMemoryCache) : sessionMemoryCache :=
  let indexed := drop_element el (bucket (e_hash el) c) in
  mkCache (delete (e_key el) <$> entries c)
    (match indexed with
     | [] => delete (e_hash el) (prefixes c)
     | _ => <[e_hash el := indexed]> (prefixes c)
     end)
    (filter (λ x, addr x ≠ addr el) (lru c)) (used c - e_cost el)
    (maxEntries c) (maxBytes c) (sweep c) (timer c) (closed c) (fresh c).

(** The eviction loop; [None] is the nil dereference of an empty list. *)
Fixpoint evict (fuel : nat) (cost : Z) (c : sessionMemoryCache) : option sessionMemoryCache :=
  if (maxEntries c <=? Z.of_nat (size (ents c))) || (maxBytes c <? used c + cost) then
    match fuel, last (lru c) with
    | S fuel, Some el => evict fuel cost (removeLocked el c)
    | _, _ => None
    end
  else Some c.

Definition remove_key (key : bytes) (c : sessionMemoryCache) : sessionMemoryCache :=
  match ents c !! key with Some el => removeLocked el c | None => c end.

Definition push_front (key : bytes) (value : V) (cost : Z) (c : sessionMemoryCache) : sessionMemoryCache :=
  let el := mkElement (fresh c) key (maphash key) (cloneSessionValue value) (sessionExpiresAt value) cost in
  mkCache (<[key := el]> <$> entries c) (<[maphash key := bucket (maphash key) c ++ [el]]> (prefixes c))
    (el :: lru c) (used c + cost) (maxEntries c) (maxBytes c) (sweep c) true (closed c) (S (fresh c)).

(** Storing; [None] is a panic. *)
Definition Store (now : time) (key : bytes) (value : V) (c : sessionMemoryCache)
    : option sessionMemoryCache :=
  if closed c then Some c
  else
    let c := remove_key key (initLocked c) in
    let cost := sessionMemoryCacheEntryCost + Z.of_nat (length key) + sessionCost value in
    if (maxBytes c <? cost) || negb (after (sessionExpiresAt value) now) then Some c
    else push_front key value cost <$> evict (length (lru c)) cost c.

Definition MoveToFront (el : element) (c : sessionMemoryCache) : sessionMemoryCache :=
  mkCache (entries c) (prefixes c) (el :: filter (λ x, addr x ≠ addr el) (lru c)) (used c)
    (maxEntries c) (maxBytes c) (sweep c) (timer c) (closed c) (fresh c).

Definition Load (now : time) (key : bytes) (c : sessionMemoryCache) : option V * sessionMemoryCache :=
  match ents c !! key with
  | None => (None, c)
  | Some el =>
      if negb (after (e_expiresAt el) now) then (None, removeLocked el c)
      else (Some (e_value el), MoveToFront el c)
  end.

Definition Delete (key : bytes) (c : sessionMemoryCache) : sessionMemoryCache := remove_key key c.

Definition set_timer (t : bool) (c : sessionMemoryCache) : sessionMemoryCache :=
  mkCache (entries c) (prefixes c) (lru c) (used c) (maxEntries c) (maxBytes c) (sweep c) t (closed c)
    (fresh c).

Definition sweepExpired (now : time) (c : sessionMemoryCache) : sessionMemoryCache :=
  let c := set_timer false c in
  if closed c then c
  else
    let c := foldl (λ c el, if negb (after (e_expiresAt el) now) then removeLocked el c else c)
               c (reverse (lru c)) in
    if (0 <? Z.of_nat (size (ents c))) then set_timer true c else c.

Definition Close (c : sessionMemoryCache) : sessionMemoryCache :=
  mkCache None ∅ [] 0 (maxEntries c) (maxBytes c) (sweep c) false true (fresh c).

Definition ItemCount (c : sessionMemoryCache) : Z := Z.of_nat (size (ents c)).

(** ** The longest stored prefix *)

Definition DASH : ascii := "-"%char.

(** The loop over the chain: [written] is what the hash has been given, [seg]
    the bytes from [start] on, [i] the position. *)
Fixpoint scan_prefixes (written seg : bytes) (i : nat) (chain : bytes) : list (Z * nat) :=
  match chain with
  | [] => [(maphash (written ++ seg), i)]
  | x :: chain =>
      if bool_decide (x = DASH)
      then (maphash (written ++ seg), i) :: scan_prefixes (written ++ seg ++ [DASH]) [] (S i) chain
      else scan_prefixes written (seg ++ [x]) (S i) chain
  end.

(** A live candidate whose key is the namespace and the prefix. *)
Definition is_match (now : time) (ns prefix : bytes) (el : element) : bool :=
  if negb (after (e_expiresAt el) now) then false
  else negb (bool_decide (length (e_key el) ≠ (length ns + length prefix)%nat)
             || negb (HasPrefix (e_key el) ns)
             || bool_decide (drop (length ns) (e_key el) ≠ prefix)).

Fixpoint find_prefix (now : time) (ns chain : bytes) (candidates : list (Z * nat)) (c : sessionMemoryCache)
    : option (element * bytes) :=
  match candidates with
  | [] => None
  | (h, n) :: candidates =>
      match list_find (λ el, is_match now ns (take n chain) el = true) (bucket h c) with
      | Some (_, el) => Some (el, take n chain)
      | None => find_prefix now ns chain candidates c
      end
  end.

(** [others] is what other calls do between the two locked sections. *)
Definition longestDigestPrefix (others : sessionMemoryCache → sessionMemoryCache) (now : time)
    (ns chain : bytes) (c : sessionMemoryCache) : option (V * bytes) * sessionMemoryCache :=
  if (size (ents c) =? 0)%nat then (None, c)
  else
    let candidates := scan_prefixes ns [] 0 chain in
    let c := others c in
    match find_prefix now ns chain (reverse candidates) c with
    | Some (el, prefix) => (Some (e_value el, prefix), MoveToFront el c)
    | None => (None, c)
    end.

End Cache.

Arguments element V : clear implicits.
Arguments sessionMemoryCache V : clear implicits.

(** ** The digest session store *)

Definition digestSessionTTL : duration := 5 * minute.

Record sessionEntry := mkSession {
  uuid : bytes;
  accountID : Z;
  expiresAt : time
}.

#[export] Instance sessionEntry_value : sessionMemoryValue sessionEntry.
Proof.
  refine {| sessionExpiresAt := expiresAt; sessionCost := λ e, Z.of_nat (length (uuid e));
            cloneSessionValue := λ e, e |}. lia.
Defined.

Record DigestSessionStore := mkStore {
  cache : sessionMemoryCache sessionEntry;
  ttl : duration
}.

Definition NewDigestSessionStore : DigestSessionStore := mkStore (zero_cache 0 0 0) digestSessionTTL.

Definition buildNS (groupID : Z) (prefixHash : bytes) : bytes :=
  lit (pretty groupID) ++ lit ":" ++ prefixHash ++ lit "|".

Definition Save (maphash : bytes → Z) (now : time) (groupID : Z) (prefixHash digestChain uuid : bytes)
    (accountID : Z) (oldDigestChain : bytes) (s : DigestSessionStore) : option DigestSessionStore :=
  if bool_decide (digestChain = []) then Some s
  else
    let ns := buildNS groupID prefixHash in
    let t := if ttl s <=? 0 then digestSessionTTL else ttl s in
    (λ c, mkStore (if bool_decide (oldDigestChain ≠ []) && bool_decide (oldDigestChain ≠ digestChain)
                   then Delete (ns ++ oldDigestChain) c else c) (ttl s))
      <$> Store maphash now (ns ++ digestChain) (mkSession uuid accountID (now + t)) (cache s).

Definition Find (maphash : bytes → Z) (now : time) (groupID : Z) (prefixHash digestChain : bytes)
    (s : DigestSessionStore) : option (bytes * Z * bytes) * DigestSessionStore :=
  if bool_decide (digestChain = []) then (None, s)
  else
    let '(r, c) := longestDigestPrefix maphash (λ c, c) now (buildNS groupID prefixHash) digestChain (cache s) in
    ((λ '(e, chain), (uuid e, accountID e, chain)) <$> r, mkStore c (ttl s)).

Definition CloseStore (s : DigestSessionStore) : DigestSessionStore := mkStore (Close (cache s)) (ttl s).

(** ** The specification: a list of items, most recent first *)

Section Spec.
Context {V : Type} `{sessionMemoryValue V}.

Record item := mkItem {
  i_key : bytes;
  i_value : V;
  i_expires : time;
  i_cost : Z
}.

Definition without (key : bytes) (l : list item) : list item := filter (λ it, i_key it ≠ key) l.

(** The most recent items that fit in [m] entries and [b] bytes. *)
Fixpoint fit (m b : Z) (l : list item) : list item :=
  match l with
  | [] => []
  | it :: l => if (1 <=? m) && (i_cost it <=? b) then it :: fit (m - 1) (b - i_cost it) l else []
  end.

Definition spec_store (maxE maxB : Z) (now : time) (key : bytes) (value : V) (l : list item) : list item :=
  let l := without key l in
  let cost := sessionMemoryCacheEntryCost + Z.of_nat (length key) + sessionCost value in
  if (maxB <? cost) || negb (after (sessionExpiresAt value) now) then l
  else mkItem key (cloneSessionValue value) (sessionExpiresAt value) cost :: fit (maxE - 1) (maxB - cost) l.

Definition find_key (key : bytes) (l : list item) : option item :=
  snd <$> list_find (λ it, i_key it = key) l.

Definition spec_load (now : time) (key : bytes) (l : list item) : option V * list item :=
  match find_key key l with
  | None => (None, l)
  | Some it =>
      if negb (after (i_expires it) now) then (None, without key l)
      else (Some (i_value it), it :: without key l)
  end.

Definition spec_sweep (now : time) (l : list item) : list item :=
  filter (λ it, after (i_expires it) now = true) l.

(** The ends of the prefixes of a chain at its message boundaries. *)
Fixpoint boundaries (i : nat) (chain : bytes) : list nat :=
  match chain with
  | [] => [i]
  | x :: chain => if bool_decide (x = DASH) then i :: boundaries (S i) chain else boundaries (S i) chain
  end.

(** The first of the candidate ends with a live item. *)
Fixpoint spec_find (now : time) (ns chain : bytes) (ends : list nat) (l : list item)
    : option (item * bytes) :=
  match ends with
  | [] => None
  | n :: ends =>
      match find_key (ns ++ take n chain) l with
      | Some it => if after (i_expires it) now then Some (it, take n chain)
                   else spec_find now ns chain ends l
      | None => spec_find now ns chain ends l
      end
  end.

End Spec.

Arguments item V : clear implicits.

(** ** The index *)

Section Index.
Context {V : Type}.
Implicit Types (l : list (element V)) (el : element V).

Lemma swap_remove_perm l i x : l !! i = Some x → x :: swap_remove i l ≡ₚ l.
Proof.
  intros Hi. unfold swap_remove. destruct l as [|y k _] using rev_ind; [done|].
  rewrite last_snoc, length_app. simpl length.
  replace (length k + 1 - 1)%nat with (length k) by lia.
  destruct (decide (i < length k)%nat) as [Hlt|Hge].
  - rewrite insert_app_l by done. rewrite take_app_le by (rewrite length_insert; lia).
    rewrite take_ge by (rewrite length_insert; lia). rewrite lookup_app_l in Hi by done.
    rewrite insert_take_drop by done. pose proof (take_drop_middle k i x Hi) as E.
    clear Hi Hlt. revert E. generalize (take i k) (drop (S i) k). intros a b <-.
    rewrite <- (Permutation_middle a b y), <- Permutation_cons_append,
      <- (Permutation_middle a b x). apply Permutation_swap.
  - apply lookup_lt_Some in Hi as Hb. rewrite length_app in Hb. simpl in Hb.
    assert (i = length k) as -> by lia. rewrite lookup_app_r in Hi by lia.
    rewrite Nat.sub_diag in Hi. simplify_eq/=.
    rewrite insert_app_r_alt, Nat.sub_diag by lia. rewrite take_app_length.
    by rewrite Permutation_cons_append.
Qed.

Lemma drop_element_perm l el : NoDup (addr <$> l) → el ∈ l → el :: drop_element el l ≡ₚ l.
Proof.
  intros Hnd [j Hj]%list_elem_of_lookup. unfold drop_element.
  destruct (list_find _ l) as [[i x]|] eqn:Hf.
  - apply list_find_Some in Hf as (Hi & Ha & _).
    assert (i = j) as ->; [|simplify_eq; by apply swap_remove_perm].
    eapply (NoDup_lookup (addr <$> l)); [done|..]; rewrite list_lookup_fmap.
    + by rewrite Hi.
    + rewrite Hj. simpl. by rewrite Ha.
  - apply list_find_None in Hf. apply list_elem_of_lookup_2 in Hj.
    by apply (proj1 (Forall_forall _ _) Hf) in Hj.
Qed.

Lemma filter_addr_perm l el : NoDup (addr <$> l) → el ∈ l →
  el :: filter (λ x, addr x ≠ addr el) l ≡ₚ l.
Proof.
  induction l as [|x l IH]; intros Hnd Hin; [by apply not_elem_of_nil in Hin|].
  simpl in Hnd. apply NoDup_cons in Hnd as [Hx Hnd].
  rewrite filter_cons. destruct (decide (addr x ≠ addr el)) as [Hne|He].
  - apply elem_of_cons in Hin as [->|Hin]; [done|].
    rewrite Permutation_swap. constructor. by apply IH.
  - apply dec_stable in He. apply elem_of_cons in Hin as [->|Hin].
    2: { destruct Hx. rewrite He. by apply list_elem_of_fmap_2. }
    constructor. assert (filter (λ y, addr y ≠ addr x) l = l) as ->; [|done].
    clear IH Hnd He. induction l as [|y l IH]; [done|]. rewrite filter_cons.
    simpl in Hx. rewrite decide_True; [f_equal; apply IH|].
    + intros Hy. apply Hx. by apply list_elem_of_further.
    + intros E. apply Hx. rewrite <- E. apply list_elem_of_here.
Qed.

End Index.

(** ** The structures agree

    [core]: the map and the hash index hold exactly the elements of the recency
    list, whose keys and addresses are distinct, and the bytes add up. *)
Section Invariant.
Context {V : Type} `{sessionMemoryValue V} (maphash : bytes → Z).
Implicit Types (c : sessionMemoryCache V) (el : element V).

Record core c : Prop := {
  core_addr : NoDup (addr <$> lru c);
  core_fresh : ∀ el, el ∈ lru c → (addr el < fresh c)%nat;
  core_ents : ∀ k el, ents c !! k = Some el ↔ el ∈ lru c ∧ e_key el = k;
  core_size : size (ents c) = length (lru c);
  core_index : ∀ h, bucket h c ≡ₚ filter (λ el, e_hash el = h) (lru c);
  core_nonempty : ∀ h, prefixes c !! h ≠ Some [];
  core_used : used c = sumZ e_cost (lru c);
  core_elem : ∀ el, el ∈ lru c → e_hash el = maphash (e_key el) ∧ 0 ≤ e_cost el
}.

Record bounded c : Prop := {
  bound_nil : entries c = None → lru c = [];
  bound_closed : closed c = true → entries c = None;
  bound_max : is_Some (entries c) → 0 < maxEntries c ∧ 0 < maxBytes c;
  bound_entries : lru c ≠ [] → Z.of_nat (length (lru c)) ≤ maxEntries c;
  bound_bytes : lru c ≠ [] → used c ≤ maxBytes c
}.

Definition cache_ok c : Prop := core c ∧ bounded c ∧ (lru c ≠ [] → timer c = true).

Lemma core_same_key c el el' : core c → el ∈ lru c → el' ∈ lru c → e_key el = e_key el' → el = el'.
Proof.
  intros Hc H1 H2 E. assert (ents c !! e_key el = Some el) as E1 by (by apply (core_ents _ Hc)).
  assert (ents c !! e_key el = Some el') as E2 by (by apply (core_ents _ Hc)). congruence.
Qed.

Lemma core_same_addr c el el' : core c → el ∈ lru c → el' ∈ lru c → addr el = addr el' → el = el'.
Proof.
  intros Hc [i Hi]%list_elem_of_lookup [j Hj]%list_elem_of_lookup E.
  assert (i = j) as ->; [|congruence].
  eapply (NoDup_lookup (addr <$> lru c)); [apply Hc|..]; rewrite list_lookup_fmap.
  - by rewrite Hi.
  - rewrite Hj. simpl. by rewrite E.
Qed.

Lemma filter_nodup_map {A B} (f : A → B) (P : A → Prop) `{∀ x, Decision (P x)} l :
  NoDup (f <$> l) → NoDup (f <$> filter P l).
Proof.
  induction l as [|x l IH]; simpl; [done|]. rewrite filter_cons. intros [Hx Hl]%NoDup_cons.
  case_decide; [|by apply IH]. simpl. apply NoDup_cons. split; [|by apply IH].
  intros (y & E & Hy)%list_elem_of_fmap. apply Hx. rewrite E. apply list_elem_of_fmap_2.
  by apply list_elem_of_filter in Hy as [_ ?].
Qed.

Lemma sumZ_perm {A} (f : A → Z) l k : l ≡ₚ k → sumZ f l = sumZ f k.
Proof. induction 1; simpl; unfold sumZ in *; simpl; lia. Qed.

Lemma bucket_remove el c h : bucket h (removeLocked el c) =
  if decide (h = e_hash el) then drop_element el (bucket (e_hash el) c) else bucket h c.
Proof.
  unfold removeLocked, bucket at 1. simpl. destruct (decide (h = e_hash el)) as [->|Hn].
  - destruct (drop_element el _); [by rewrite lookup_delete_eq|by rewrite lookup_insert_eq].
  - destruct (drop_element el _); [by rewrite lookup_delete_ne|by rewrite lookup_insert_ne].
Qed.

(** Elements removed from the three structures and the byte count. *)
Lemma core_remove el c : core c → el ∈ lru c → core (removeLocked el c).
Proof.
  intros Hc Hin. pose proof (core_elem _ Hc _ Hin) as [Hh _].
  pose proof (filter_addr_perm _ _ (core_addr _ Hc) Hin) as Hperm.
  assert (∀ x, x ∈ filter (λ x, addr x ≠ addr el) (lru c) ↔ x ∈ lru c ∧ x ≠ el) as Hm.
  { intros x. rewrite list_elem_of_filter. split.
    - intros [Ha Hx]. split; [done|]. by intros ->.
    - intros [Hx Hne]. split; [|done]. intros E. apply Hne. by apply (core_same_addr c). }
  assert (ents (removeLocked el c) = delete (e_key el) (ents c)) as He.
  { unfold ents, removeLocked. simpl. destruct (entries c); [done|]. simpl. by rewrite delete_empty. }
  constructor; simpl.
  - by apply filter_nodup_map, Hc.
  - intros x [Hx _]%Hm. by apply (core_fresh _ Hc).
  - intros k x. rewrite He, lookup_delete_Some, (core_ents _ Hc), Hm. split.
    + intros (Hne & Hx & <-). split_and!; [done| |done]. by intros ->.
    + intros [[Hx Hne] <-]. split_and!; [|done|done]. intros E. apply Hne.
      by apply (core_same_key c).
  - rewrite He, map_size_delete_Some by (eexists; by apply (core_ents _ Hc)).
    rewrite (core_size _ Hc). apply Permutation_length in Hperm. simpl in Hperm. lia.
  - intros h. rewrite bucket_remove. case_decide as Eh.
    + subst h. apply (Permutation_cons_inv (a := el)). rewrite drop_element_perm.
      * rewrite (core_index _ Hc). rewrite <- Hperm at 1. by rewrite filter_cons_True.
      * rewrite (core_index _ Hc). apply filter_nodup_map, Hc.
      * rewrite (core_index _ Hc). by apply list_elem_of_filter.
    + rewrite (core_index _ Hc). rewrite <- Hperm at 1. by rewrite filter_cons_False.
  - intros h. destruct (drop_element el _) as [|y l]; intros E.
    + apply lookup_delete_Some in E as [_ E]. by apply (core_nonempty _ Hc) in E.
    + apply lookup_insert_Some in E as [[_ ?]|[_ E]]; [done|]. by apply (core_nonempty _ Hc) in E.
  - rewrite (core_used _ Hc), <- (sumZ_perm _ _ _ Hperm). unfold sumZ. simpl. lia.
  - intros x [Hx _]%Hm. by apply (core_elem _ Hc).
Qed.

Lemma core_front el c : core c → el ∈ lru c → core (MoveToFront el c).
Proof.
  intros Hc Hin. pose proof (filter_addr_perm _ _ (core_addr _ Hc) Hin) as Hperm.
  destruct Hc as [H1 H2 H3 H4 H5 H6 H7 H8]. unfold MoveToFront, ents, bucket in *.
  constructor; simpl in *; try done.
  - change (NoDup (addr <$> el :: filter (λ x, addr x ≠ addr el) (lru c))). by rewrite Hperm.
  - intros x Hx. rewrite Hperm in Hx. by apply H2.
  - intros k x. unfold ents in *. simpl. rewrite H3. by rewrite Hperm.
  - unfold ents in *. simpl. rewrite H4. symmetry. exact (Permutation_length Hperm).
  - intros h. unfold bucket in *. simpl. rewrite H5. by rewrite Hperm.
  - rewrite H7. symmetry. exact (sumZ_perm e_cost _ _ Hperm).
  - intros x Hx. rewrite Hperm in Hx. by apply H8.
Qed.

Lemma core_push key value cost c : core c → is_Some (entries c) → ents c !! key = None → 0 ≤ cost →
  core (push_front maphash key value cost c).
Proof.
  intros Hc [m Hm] Hkey Hcost. assert (∀ x, x ∈ lru c → e_key x ≠ key) as Hnew.
  { intros x Hx E. assert (ents c !! key = Some x) as E' by (by apply (core_ents _ Hc)). congruence. }
  destruct Hc as [H1 H2 H3 H4 H5 H6 H7 H8]. unfold push_front.
  set (el := mkElement _ _ _ _ _ _).
  assert (∀ k, <[key := el]> (ents c) !! k = default ∅ (<[key:=el]> <$> entries c) !! k) as He.
  { intros k. unfold ents. by rewrite Hm. }
  constructor; simpl.
  - apply NoDup_cons. split; [|done]. intros (x & E & Hx)%list_elem_of_fmap. apply H2 in Hx. simpl in E. lia.
  - intros x [->|Hx]%elem_of_cons; simpl; [lia|]. apply H2 in Hx. lia.
  - intros k x. unfold ents at 1. simpl. rewrite <- He, lookup_insert_Some, elem_of_cons. rewrite H3. split.
    + intros [[<- <-]|(Hne & Hx & <-)]; [split; [by left|done]|split; [by right|done]].
    + intros [[->|Hx] <-]; [by left|]. right. split_and!; [|done|done]. intros E. by apply (Hnew x).
  - unfold ents in *. rewrite Hm in *. simpl in *. rewrite map_size_insert_None by done. lia.
  - intros h. unfold bucket at 1. simpl. destruct (decide (h = maphash key)) as [->|Hn].
    + rewrite lookup_insert_eq. simpl. rewrite filter_cons_True by done.
      rewrite H5. symmetry. apply Permutation_cons_append.
    + rewrite lookup_insert_ne by done. rewrite filter_cons_False by (simpl; congruence). apply H5.
  - intros h [[_ E]|[_ E]]%lookup_insert_Some; [by destruct (bucket _ c)|by apply H6 in E].
  - rewrite H7. unfold sumZ. simpl. lia.
  - intros x [->|Hx]%elem_of_cons; [by split|by apply H8].
Qed.

Lemma remove_key_cases key c : core c →
  (ents c !! key = None ∧ remove_key key c = c) ∨
  (∃ el, ents c !! key = Some el ∧ el ∈ lru c ∧ e_key el = key ∧ remove_key key c = removeLocked el c).
Proof.
  intros Hc. unfold remove_key. destruct (ents c !! key) as [el|] eqn:E; [|by left].
  right. exists el. apply (core_ents _ Hc) in E as [? ?]. by split_and!.
Qed.

Lemma core_remove_key key c : core c → core (remove_key key c).
Proof.
  intros Hc. destruct (remove_key_cases key c Hc) as [[_ ->]|(el & _ & ? & _ & ->)]; [done|].
  by apply core_remove.
Qed.

Lemma remove_key_gone key c : core c → ents (remove_key key c) !! key = None.
Proof.
  intros Hc. destruct (remove_key_cases key c Hc) as [[? ->]|(el & _ & ? & <- & ->)]; [done|].
  unfold ents, removeLocked. simpl. destruct (entries c); simpl; [apply lookup_delete_eq|done].
Qed.

Lemma core_init c : core c → (entries c = None → lru c = []) → core (initLocked c).
Proof.
  intros Hc Hn. unfold initLocked. destruct (entries c) eqn:E; [done|]. specialize (Hn eq_refl).
  destruct Hc as [H1 H2 H3 H4 H5 H6 H7 H8]. unfold ents, bucket in *. rewrite E, Hn in *.
  constructor; simpl; rewrite ?Hn; try done.
Qed.

(** ** The list the structures stand for *)

Definition to_item el : item V := mkItem (e_key el) (e_value el) (e_expiresAt el) (e_cost el).
Definition contents c : list (item V) := to_item <$> lru c.

Lemma fmap_filter {A B} (f : A → B) (P : A → Prop) (Q : B → Prop)
    `{∀ x, Decision (P x)} `{∀ x, Decision (Q x)} (l : list A) :
  (∀ x, x ∈ l → P x ↔ Q (f x)) → f <$> filter P l = filter Q (f <$> l).
Proof.
  induction l as [|x l IH]; intros Hx; [done|]. rewrite fmap_cons, !filter_cons.
  assert (f <$> filter P l = filter Q (f <$> l)) as E.
  { apply IH. intros y Hy. apply Hx. by apply list_elem_of_further. }
  pose proof (Hx x (list_elem_of_here _ _)) as Hxx.
  destruct (decide (P x)), (decide (Q (f x))); rewrite ?fmap_cons, ?E; tauto || done.
Qed.

Lemma filter_true {A} (P : A → Prop) `{∀ x, Decision (P x)} (l : list A) :
  (∀ x, x ∈ l → P x) → filter P l = l.
Proof.
  induction l as [|x l IH]; intros Hx; [done|]. rewrite filter_cons, decide_True, IH; [done| |].
  - intros y Hy. apply Hx. by apply list_elem_of_further.
  - apply Hx, list_elem_of_here.
Qed.

Lemma addr_key c el x : core c → el ∈ lru c → x ∈ lru c → addr x ≠ addr el ↔ e_key x ≠ e_key el.
Proof.
  intros Hc Hel Hx. split; intros Hn E; apply Hn.
  - by rewrite (core_same_key c x el).
  - by rewrite (core_same_addr c x el).
Qed.

Lemma contents_remove el c : core c → el ∈ lru c →
  contents (removeLocked el c) = without (e_key el) (contents c).
Proof. intros Hc Hin. apply fmap_filter. intros x Hx. by apply addr_key with c. Qed.

Lemma contents_front el c : core c → el ∈ lru c →
  contents (MoveToFront el c) = to_item el :: without (e_key el) (contents c).
Proof. intros Hc Hin. unfold contents. simpl. f_equal. by apply (contents_remove el c). Qed.

Lemma contents_remove_key key c : core c → contents (remove_key key c) = without key (contents c).
Proof.
  intros Hc. destruct (remove_key_cases key c Hc) as [[Hn ->]|(el & _ & ? & <- & ->)].
  - unfold without. rewrite filter_true; [done|]. intros it (el & -> & Hel)%list_elem_of_fmap E.
    assert (ents c !! key = Some el) by (by apply (core_ents _ Hc)). congruence.
  - by apply contents_remove.
Qed.

Lemma find_key_contents key c : core c → find_key key (contents c) = to_item <$> ents c !! key.
Proof.
  intros Hc. unfold find_key, contents. rewrite list_find_fmap.
  destruct (list_find (_ ∘ to_item) (lru c)) as [[i el]|] eqn:Hf; simpl.
  - apply list_find_Some in Hf as (Hi & Hk & _). apply list_elem_of_lookup_2 in Hi.
    by rewrite (proj2 (core_ents _ Hc key el)).
  - apply list_find_None in Hf. destruct (ents c !! key) as [el|] eqn:E; [|done].
    apply (core_ents _ Hc) in E as [Hin Hk]. by apply (proj1 (Forall_forall _ _) Hf) in Hin.
Qed.

(** Eviction from the back keeps the most recent items that fit. *)
Lemma fit_all m b (l : list (item V)) : (∀ it, it ∈ l → 0 ≤ i_cost it) →
  Z.of_nat (length l) ≤ m → sumZ i_cost l ≤ b → fit m b l = l.
Proof.
  revert m b. induction l as [|x l IH]; intros m b Hpos Hm Hb; [done|]. simpl in *.
  assert (∀ it, it ∈ l → 0 ≤ i_cost it) as Hpos' by (intros; apply Hpos; by apply list_elem_of_further).
  pose proof (sumZ_nonneg i_cost l Hpos'). unfold sumZ in *. simpl in Hb.
  rewrite (proj2 (Z.leb_le 1 m)), (proj2 (Z.leb_le (i_cost x) b)) by lia. simpl.
  f_equal. apply IH; [done|lia|lia].
Qed.

Lemma fit_snoc m b (l : list (item V)) x :
  m < Z.of_nat (length (l ++ [x])) ∨ b < sumZ i_cost (l ++ [x]) → fit m b (l ++ [x]) = fit m b l.
Proof.
  revert m b. induction l as [|y l IH]; intros m b Hno; simpl in *.
  - unfold sumZ in Hno. simpl in Hno. destruct (1 <=? m) eqn:E1, (i_cost x <=? b) eqn:E2; simpl; try done.
    apply Z.leb_le in E1, E2. lia.
  - destruct (_ && _); [|done]. f_equal. apply IH. unfold sumZ in *. simpl in Hno. lia.
Qed.

(** The parts of the cache an eviction leaves alone. *)
Definition same_frame c c' : Prop :=
  (is_Some (entries c) ↔ is_Some (entries c')) ∧ maxEntries c' = maxEntries c ∧
  maxBytes c' = maxBytes c ∧ sweep c' = sweep c ∧ timer c' = timer c ∧ closed c' = closed c.

Lemma same_frame_refl c : same_frame c c.
Proof. by split_and!. Qed.
Lemma same_frame_remove el c : same_frame c (removeLocked el c).
Proof. split_and!; try done. simpl. by rewrite fmap_is_Some. Qed.
Lemma same_frame_trans c1 c2 c3 : same_frame c1 c2 → same_frame c2 c3 → same_frame c1 c3.
Proof.
  intros (E1 & ? & ? & ? & ? & ?) (E2 & ? & ? & ? & ? & ?). split_and!; try congruence.
  by rewrite E1.
Qed.

Lemma remove_last el k c : core c → lru c = k ++ [el] → lru (removeLocked el c) = k.
Proof.
  intros Hc E. pose proof (core_addr _ Hc) as Hnd. rewrite E, fmap_app in Hnd.
  apply NoDup_app in Hnd as (_ & Hnd & _). simpl. rewrite E, filter_app, filter_true.
  - rewrite filter_cons_False by (intros Hn; by apply Hn). by rewrite app_nil_r.
  - intros x Hx Ea. apply (Hnd (addr x)); [by apply list_elem_of_fmap_2|].
    rewrite Ea. apply list_elem_of_here.
Qed.

Lemma sum_contents c : sumZ i_cost (contents c) = sumZ e_cost (lru c).
Proof. unfold contents, sumZ. induction (lru c) as [|x l IH]; [done|]. simpl. f_equal. exact IH. Qed.

Lemma evict_spec fuel cost c : core c → fuel = length (lru c) → 0 < maxEntries c → cost ≤ maxBytes c →
  ∃ c', evict fuel cost c = Some c' ∧ core c' ∧ same_frame c c' ∧
    contents c' = fit (maxEntries c - 1) (maxBytes c - cost) (contents c) ∧
    Z.of_nat (length (lru c')) < maxEntries c ∧ used c' + cost ≤ maxBytes c ∧
    ∀ k, ents c !! k = None → ents c' !! k = None.
Proof.
  revert c. induction fuel as [|fuel IH]; intros c Hc Hfuel Hmax Hcost; cbn [evict];
    pose proof (core_used _ Hc) as Hu; pose proof (core_size _ Hc) as Hsize.
  - rewrite <- Hfuel in Hsize. symmetry in Hfuel. apply nil_length_inv in Hfuel.
    rewrite Hfuel in Hu. simpl in Hu.
    rewrite Hsize, (proj2 (Z.leb_gt _ _)), (proj2 (Z.ltb_ge _ _)) by lia. simpl.
    exists c. split_and!; [done|done|apply same_frame_refl| |rewrite Hfuel; simpl; lia|lia|done].
    unfold contents. by rewrite Hfuel.
  - destruct ((_ <=? _) || (_ <? _)) eqn:Hfull.
    + destruct (last (lru c)) as [el|] eqn:Hlast.
      2: { apply last_None in Hlast. by rewrite Hlast in Hfuel. }
      apply last_Some in Hlast as [k Hk].
      assert (el ∈ lru c) as Hin by (rewrite Hk; apply elem_of_app; right; apply list_elem_of_here).
      pose proof (remove_last el k c Hc Hk) as Hrem.
      destruct (IH (removeLocked el c)) as (c' & -> & Hc' & Hf & Hcon & Hlen & Hused & Hnone);
        [by apply core_remove|rewrite Hrem; rewrite Hk, length_app in Hfuel; simpl in Hfuel; lia|done|done|].
      exists c'. split_and!; [done|done| | |done|done|].
      * eapply same_frame_trans; [apply same_frame_remove|exact Hf].
      * rewrite Hcon. simpl. assert (contents c = contents (removeLocked el c) ++ [to_item el]) as ->.
        { unfold contents. by rewrite Hrem, Hk, fmap_app. }
        symmetry. apply fit_snoc.
        assert (contents (removeLocked el c) ++ [to_item el] = contents c) as ->.
        { unfold contents. by rewrite Hrem, Hk, fmap_app. }
        rewrite sum_contents. unfold contents. rewrite length_fmap.
        apply orb_true_iff in Hfull as [Hb%Z.leb_le|Hb%Z.ltb_lt]; [left|right]; lia.
      * intros key Hkey. apply Hnone. unfold ents, removeLocked. simpl. unfold ents in Hkey.
        destruct (entries c); [|done]. simpl in *. apply lookup_delete_None. by right.
    + apply orb_false_iff in Hfull as [Hb1%Z.leb_gt Hb2%Z.ltb_ge]. rewrite Hsize in Hb1.
      exists c. split_and!; [done|done|apply same_frame_refl| |lia|lia|done].
      symmetry. apply fit_all.
      * intros it (el & -> & Hel)%list_elem_of_fmap. by apply (core_elem _ Hc).
      * unfold contents. rewrite length_fmap. lia.
      * rewrite sum_contents. lia.
Qed.

(** ** Each operation *)

Lemma ok_remove el c : cache_ok c → el ∈ lru c → cache_ok (removeLocked el c).
Proof.
  intros (Hc & Hb & Ht) Hin.
  assert (lru c ≠ []) as Hne by (intros E; rewrite E in Hin; by apply not_elem_of_nil in Hin).
  destruct Hb as [B1 B2 B3 B4 B5]. pose proof (core_elem _ Hc _ Hin) as [_ Hcost].
  pose proof (Permutation_length (filter_addr_perm _ _ (core_addr _ Hc) Hin)) as Hlen. simpl in Hlen.
  split; [by apply core_remove|]. split; [|intros _; by apply Ht]. constructor; simpl.
  - rewrite fmap_None. intros E. by rewrite B1.
  - rewrite fmap_None. done.
  - rewrite fmap_is_Some. done.
  - intros _. specialize (B4 Hne). lia.
  - intros _. specialize (B5 Hne). lia.
Qed.

Lemma ok_remove_key key c : cache_ok c → cache_ok (remove_key key c).
Proof.
  intros Hok. destruct (remove_key_cases key c (proj1 Hok)) as [[_ ->]|(el & _ & ? & _ & ->)]; [done|].
  by apply ok_remove.
Qed.

Lemma frame_remove_key key c : same_frame c (remove_key key c).
Proof. unfold remove_key. destruct (_ !! _); [apply same_frame_remove|apply same_frame_refl]. Qed.

Lemma ok_front el c : cache_ok c → el ∈ lru c → cache_ok (MoveToFront el c).
Proof.
  intros (Hc & Hb & Ht) Hin.
  assert (lru c ≠ []) as Hne by (intros E; rewrite E in Hin; by apply not_elem_of_nil in Hin).
  destruct Hb as [B1 B2 B3 B4 B5].
  pose proof (Permutation_length (filter_addr_perm _ _ (core_addr _ Hc) Hin)) as Hlen. simpl in Hlen.
  split; [by apply core_front|]. split; [|intros _; by apply Ht]. constructor; simpl; try done.
  - intros E. by rewrite B1 in Hne.
  - intros _. specialize (B4 Hne). lia.
  - intros _. by apply B5.
Qed.

Lemma positive_or_pos n d : 0 < d → 0 < positive_or n d.
Proof. intros Hd. unfold positive_or. case_match eqn:E; [done|]. by apply Z.leb_gt in E. Qed.

Lemma positive_or_id n d : 0 < n → positive_or n d = n.
Proof. intros Hn. unfold positive_or. by rewrite (proj2 (Z.leb_gt _ _)). Qed.

Lemma ok_init c : cache_ok c → closed c = false →
  cache_ok (initLocked c) ∧ contents (initLocked c) = contents c ∧ is_Some (entries (initLocked c)) ∧
  maxEntries (initLocked c) = positive_or (maxEntries c) sessionMemoryCacheMaxEntries ∧
  maxBytes (initLocked c) = positive_or (maxBytes c) sessionMemoryCacheMaxBytes ∧
  closed (initLocked c) = false.
Proof.
  intros (Hc & Hb & Ht) Hcl. unfold initLocked. destruct (entries c) as [m|] eqn:E.
  - rewrite E. destruct (bound_max _ Hb) as [? ?]; [by rewrite E|].
    rewrite !positive_or_id by done. by split_and!.
  - assert (lru c = []) as Hnil by (by apply (bound_nil _ Hb)).
    pose proof (core_init c Hc (bound_nil _ Hb)) as Hci. unfold initLocked in Hci. rewrite E in Hci.
    split_and!; simpl; try done. split; [done|]. rewrite Hnil. split; [|done].
    constructor; simpl; rewrite ?Hnil; try done; [by rewrite Hcl|].
    intros _. by split; apply positive_or_pos.
Qed.

Lemma Store_spec now key value c : cache_ok c → closed c = false →
  ∃ c', Store maphash now key value c = Some c' ∧ cache_ok c' ∧ closed c' = false ∧
    positive_or (maxEntries c') sessionMemoryCacheMaxEntries
      = positive_or (maxEntries c) sessionMemoryCacheMaxEntries ∧
    positive_or (maxBytes c') sessionMemoryCacheMaxBytes
      = positive_or (maxBytes c) sessionMemoryCacheMaxBytes ∧
    contents c' = spec_store (positive_or (maxEntries c) sessionMemoryCacheMaxEntries)
                    (positive_or (maxBytes c) sessionMemoryCacheMaxBytes) now key value (contents c).
Proof.
  intros Hok Hcl. unfold Store, spec_store. rewrite Hcl.
  destruct (ok_init c Hok Hcl) as (Hok1 & <- & [m Hm] & <- & <- & Hcl1).
  set (c1 := initLocked c) in *. clearbody c1. clear Hok Hcl c. simpl.
  set (cost := sessionMemoryCacheEntryCost + Z.of_nat (length key) + sessionCost value).
  pose proof (frame_remove_key key c1) as (Hen & Hme & Hmb & _ & _ & Hclk).
  pose proof (ok_remove_key key c1 Hok1) as Hok2. pose proof (remove_key_gone key c1 (proj1 Hok1)) as Hgone.
  rewrite <- (contents_remove_key _ _ (proj1 Hok1)). rewrite <- Hme, <- Hmb.
  assert (is_Some (entries (remove_key key c1))) as Hsome by (by rewrite <- Hen, Hm).
  rewrite Hcl1 in Hclk. set (c2 := remove_key key c1) in *. clearbody c2.
  destruct (bound_max _ (proj1 (proj2 Hok2)) Hsome) as [Hpe Hpb].
  destruct ((maxBytes c2 <? cost) || _) eqn:Hskip.
  { exists c2. rewrite !positive_or_id by done. by split_and!. }
  apply orb_false_iff in Hskip as [Hcost%Z.ltb_ge _].
  destruct (evict_spec (length (lru c2)) cost c2 (proj1 Hok2) eq_refl Hpe Hcost)
    as (c3 & -> & Hc3 & (He3 & Hme3 & Hmb3 & _ & _ & Hcl3) & Hcon & Hlen & Hused & Hnone).
  assert (is_Some (entries c3)) as Hs3 by (by rewrite <- He3).
  assert (0 ≤ cost) as Hpos.
  { pose proof (sessionCost_nonneg value). unfold cost, sessionMemoryCacheEntryCost. lia. }
  eexists. split; [done|]. simpl. rewrite Hcl3, Hme3, Hmb3, !positive_or_id by done.
  split_and!; [|done|done|done|].
  - split; [by apply core_push; [| |apply Hnone|]|]. split; [|done]. constructor; simpl.
    + rewrite fmap_None. intros E. rewrite E in Hs3. by destruct Hs3.
    + congruence.
    + intros _. by rewrite Hme3, Hmb3.
    + intros _. lia.
    + intros _. lia.
  - unfold contents. simpl. unfold to_item at 1. simpl. f_equal. exact Hcon.
Qed.

(** What every other operation does to the cache: a sound one, as open and as
    wide as before. *)
Definition steps_to c c' (l : list (item V)) : Prop :=
  cache_ok c' ∧ contents c' = l ∧ closed c' = closed c ∧ maxEntries c' = maxEntries c ∧
  maxBytes c' = maxBytes c.

Lemma steps_refl c : cache_ok c → steps_to c c (contents c).
Proof. intros Hok. unfold steps_to. by split_and!. Qed.

Lemma steps_remove el c : cache_ok c → el ∈ lru c →
  steps_to c (removeLocked el c) (without (e_key el) (contents c)).
Proof. intros Hok Hin. unfold steps_to. split_and!; try done; [by apply ok_remove|apply contents_remove; [apply Hok|done]]. Qed.

Lemma steps_front el c : cache_ok c → el ∈ lru c →
  steps_to c (MoveToFront el c) (to_item el :: without (e_key el) (contents c)).
Proof. intros Hok Hin. unfold steps_to. split_and!; try done; [by apply ok_front|apply contents_front; [apply Hok|done]]. Qed.

Lemma Load_spec now key c : cache_ok c →
  (Load now key c).1 = (spec_load now key (contents c)).1 ∧
  steps_to c (Load now key c).2 (spec_load now key (contents c)).2.
Proof.
  intros Hok. pose proof (proj1 Hok) as Hc. unfold Load, spec_load. rewrite find_key_contents by done.
  destruct (ents c !! key) as [el|] eqn:E; simpl; [|by split; [|apply steps_refl]].
  apply (core_ents _ Hc) in E as [Hin <-].
  destruct (negb _); simpl; (split; [done|]); [by apply steps_remove|by apply steps_front].
Qed.

Lemma Delete_spec key c : cache_ok c → steps_to c (Delete key c) (without key (contents c)).
Proof.
  intros Hok. pose proof (frame_remove_key key c) as (_ & ? & ? & _ & _ & ?).
  unfold steps_to. split_and!; try done; [by apply ok_remove_key|apply contents_remove_key, Hok].
Qed.

Lemma filter_in_ext {A} (P Q : A → Prop) `{∀ x, Decision (P x)} `{∀ x, Decision (Q x)} (l : list A) :
  (∀ x, x ∈ l → P x ↔ Q x) → filter P l = filter Q l.
Proof.
  intros Hx. transitivity ((λ x, x) <$> filter P l); [by rewrite list_fmap_id|].
  rewrite (fmap_filter _ P Q) by done. by rewrite list_fmap_id.
Qed.

(** The walk of a sweep over the elements [L]. *)
Lemma sweep_walk now (L : list (element V)) c : core c → NoDup L → (∀ el, el ∈ L → el ∈ lru c) →
  let c' := foldl (λ c el, if negb (after (e_expiresAt el) now) then removeLocked el c else c) c L in
  core c' ∧ same_frame c c' ∧ used c' ≤ used c ∧
  lru c' = filter (λ x, after (e_expiresAt x) now = true ∨ addr x ∉ (addr <$> L)) (lru c).
Proof.
  revert c. induction L as [|el L IH]; intros c Hc Hnd HL; cbn [foldl].
  - split_and!; [done|apply same_frame_refl|lia|]. symmetry. apply filter_true. intros x _. right.
    apply not_elem_of_nil.
  - apply NoDup_cons in Hnd as [Hel Hnd].
    assert (∀ x, x ∈ L → x ∈ lru c) as HL' by (intros; apply HL; by apply list_elem_of_further).
    assert (el ∈ lru c) as Hin by (apply HL, list_elem_of_here).
    assert (∀ x, x ∈ L → addr x ≠ addr el) as Hne.
    { intros x Hx E. apply Hel. rewrite <- (core_same_addr c x el); auto. }
    assert (∀ x : element V, addr x ∉ (addr <$> el :: L) ↔ addr x ≠ addr el ∧ addr x ∉ (addr <$> L)) as Hcons.
    { intros x. rewrite fmap_cons, not_elem_of_cons. done. }
    destruct (after (e_expiresAt el) now) eqn:Hlive; simpl.
    + destruct (IH c Hc Hnd HL') as (? & ? & ? & E). split_and!; [done..|]. rewrite E.
      apply filter_in_ext. intros x Hx. rewrite Hcons. split; [|tauto].
      intros [?|Hn]; [by left|]. destruct (decide (addr x = addr el)) as [Ea|]; [|tauto].
      left. by rewrite (core_same_addr c x el).
    + destruct (IH (removeLocked el c)) as (? & ? & ? & E).
      * by apply core_remove.
      * done.
      * intros x Hx. simpl. apply list_elem_of_filter. auto.
      * split_and!; [done| | |].
        -- eapply same_frame_trans; [apply same_frame_remove|done].
        -- pose proof (core_elem _ Hc _ Hin). simpl in *. lia.
        -- rewrite E. simpl. rewrite list_filter_filter. apply filter_in_ext. intros x Hx.
           rewrite Hcons. split; [tauto|]. intros [Hl|[? ?]]; [|tauto]. split; [by left|].
           intros Ea. rewrite (core_same_addr c x el) in Hl by done. congruence.
Qed.

Lemma sweep_spec now c : cache_ok c → steps_to c (sweepExpired now c) (spec_sweep now (contents c)).
Proof.
  intros (Hc & Hb & Ht). unfold sweepExpired. change (closed (set_timer false c)) with (closed c).
  destruct (closed c) eqn:Hcl.
  { assert (lru c = []) as Hnil by (by apply (bound_nil _ Hb), (bound_closed _ Hb)).
    unfold steps_to, contents. simpl. rewrite Hnil. split_and!; try done.
    split; [by destruct Hc|]. split; [by destruct Hb|]. simpl. by rewrite Hnil. }
  set (c0 := set_timer false c).
  assert (core c0) as Hc0 by (by destruct Hc).
  destruct (sweep_walk now (reverse (lru c0)) c0 Hc0) as (Hc1 & (F1 & F2 & F3 & _ & F5 & F6) & Hu & Hl).
  { rewrite reverse_Permutation. apply (NoDup_fmap_1 addr), Hc0. }
  { intros el. by rewrite elem_of_reverse. }
  set (c1 := foldl _ _ _) in *. clearbody c1.
  rewrite (filter_in_ext _ (λ x, after (e_expiresAt x) now = true)) in Hl.
  2: { intros x Hx. split; [|by left]. intros [?|Hn]; [done|]. destruct Hn.
       apply list_elem_of_fmap_2, elem_of_reverse, Hx. }
  assert (contents c1 = spec_sweep now (contents c)) as Hcon.
  { unfold contents. rewrite Hl. by apply fmap_filter. }
  assert (length (lru c1) ≤ length (lru c))%nat as Hlen.
  { rewrite Hl. apply length_filter. }
  destruct Hb as [B1 B2 B3 B4 B5]. change (lru c0) with (lru c) in *.
  assert (lru c1 ≠ [] → lru c ≠ []) as Hne.
  { intros H1 H2. rewrite H2 in Hlen. destruct (lru c1); [done|simpl in Hlen; lia]. }
  assert (∀ t, bounded (set_timer t c1)) as Hb1.
  { intros t. simpl in *. constructor; simpl.
    - intros E. rewrite Hl. rewrite B1; [done|]. destruct (entries c); [|done].
      destruct (proj1 F1) as [? E']; [by eexists|]. by rewrite E in E'.
    - congruence.
    - intros Hs. rewrite F2, F3. apply B3. by apply F1.
    - intros H1. rewrite F2. specialize (B4 (Hne H1)). lia.
    - intros H1. rewrite F3. specialize (B5 (Hne H1)). simpl in Hu. lia. }
  assert (∀ t, core (set_timer t c1)) as Hct by (intros; by destruct Hc1).
  destruct (0 <? Z.of_nat (size (ents c1))) eqn:Hsize.
  - unfold steps_to. simpl in *. by split_and!.
  - unfold steps_to. simpl in *. split; [|by split_and!].
    split; [done|]. split; [by destruct (Hb1 true)|]. intros H1. apply Z.ltb_ge in Hsize.
    rewrite (core_size _ Hc1) in Hsize. destruct (lru c1); [done|simpl in Hsize; lia].
Qed.

(** ** The longest prefix *)

Lemma scan_prefixes_spec ns chain : ∀ rest written seg pre,
  written ++ seg = ns ++ pre → chain = pre ++ rest →
  scan_prefixes maphash written seg (length pre) rest
  = (λ n, (maphash (ns ++ take n chain), n)) <$> boundaries (length pre) rest.
Proof.
  induction rest as [|x rest IH]; intros written seg pre Hw Hch; simpl.
  - rewrite app_nil_r in Hch. by rewrite Hw, Hch, firstn_all.
  - assert (chain = (pre ++ [x]) ++ rest) as Hch' by (by rewrite Hch, <- app_assoc).
    assert (S (length pre) = length (pre ++ [x])) as Hlen by (rewrite length_app; simpl; lia).
    case_bool_decide as Hx.
    + subst x. simpl. rewrite Hw. f_equal; [by rewrite Hch, take_app_length|].
      rewrite Hlen. apply IH; [|done]. rewrite app_nil_r, app_assoc, Hw. by rewrite <- app_assoc.
    + rewrite Hlen. apply IH; [|done]. by rewrite app_assoc, Hw, <- app_assoc.
Qed.

Lemma boundaries_le chain : ∀ i n, n ∈ boundaries i chain → (i ≤ n ≤ i + length chain)%nat.
Proof.
  induction chain as [|x chain IH]; intros i n Hn; simpl in *.
  - apply list_elem_of_singleton in Hn. lia.
  - case_bool_decide.
    + apply elem_of_cons in Hn as [->|Hn%IH]; lia.
    + apply IH in Hn. lia.
Qed.

(** The three checks on a candidate compare the whole key. *)
Lemma is_match_spec now ns prefix el :
  is_match now ns prefix el = true ↔ after (e_expiresAt el) now = true ∧ e_key el = ns ++ prefix.
Proof.
  unfold is_match. destruct (after (e_expiresAt el) now); simpl; [|by split; [|intros []]].
  rewrite negb_true_iff, !orb_false_iff, !bool_decide_eq_false, negb_false_iff. unfold HasPrefix, is_prefix.
  rewrite bool_decide_eq_true. split.
  - intros [[_ [k Hk]] Hd]. split; [done|]. rewrite Hk in *. rewrite drop_app_length in Hd.
    f_equal. by apply dec_stable.
  - intros [_ ->]. rewrite drop_app_length, length_app. split; [split|]; [intros Hn; by apply Hn| |intros Hn; by apply Hn].
    by exists prefix.
Qed.

Lemma find_prefix_spec now ns chain ends c : core c →
  match find_prefix now ns chain ((λ n, (maphash (ns ++ take n chain), n)) <$> ends) c with
  | Some (el, prefix) => el ∈ lru c ∧ spec_find now ns chain ends (contents c) = Some (to_item el, prefix)
  | None => spec_find now ns chain ends (contents c) = None
  end.
Proof.
  intros Hc. induction ends as [|n ends IH]; [done|]. rewrite fmap_cons. cbn [find_prefix spec_find].
  rewrite find_key_contents by done.
  destruct (list_find _ (bucket _ c)) as [[i el]|] eqn:Hf.
  - apply list_find_Some in Hf as (Hi & [Hl Hk]%is_match_spec & _).
    apply list_elem_of_lookup_2 in Hi. rewrite (core_index _ Hc) in Hi.
    apply list_elem_of_filter in Hi as [_ Hin]. split; [done|].
    rewrite (proj2 (core_ents _ Hc _ el)) by done. simpl. by rewrite Hl.
  - apply list_find_None in Hf. destruct (ents c !! (ns ++ take n chain)) as [el|] eqn:E; [|exact IH].
    apply (core_ents _ Hc) in E as [Hin Hk]. simpl.
    destruct (after (e_expiresAt el) now) eqn:Hl; [|exact IH].
    destruct (proj1 (Forall_forall _ _) Hf el); [|by apply is_match_spec].
    rewrite (core_index _ Hc). apply list_elem_of_filter. split; [|done].
    rewrite <- Hk. by apply (core_elem _ Hc).
Qed.

(** The answer and the next list of a search. *)
Definition spec_longest (now : time) (ns chain : bytes) (l : list (item V))
    : option (V * bytes) * list (item V) :=
  match spec_find now ns chain (reverse (boundaries 0 chain)) l with
  | Some (it, prefix) => (Some (i_value it, prefix), it :: without (i_key it) l)
  | None => (None, l)
  end.

Lemma longest_spec others now ns chain c : cache_ok (others c) → lru c ≠ [] → core c →
  (longestDigestPrefix maphash others now ns chain c).1 = (spec_longest now ns chain (contents (others c))).1 ∧
  steps_to (others c) (longestDigestPrefix maphash others now ns chain c).2
    (spec_longest now ns chain (contents (others c))).2.
Proof.
  intros Hok Hne Hc. unfold longestDigestPrefix, spec_longest.
  pose proof (scan_prefixes_spec ns chain chain ns [] [] eq_refl eq_refl) as Hs. simpl in Hs.
  pose proof (find_prefix_spec now ns chain (reverse (boundaries 0 chain)) (others c) (proj1 Hok)) as Hf.
  rewrite fmap_reverse, <- Hs in Hf. rewrite (proj2 (Nat.eqb_neq _ _)).
  2: { rewrite (core_size _ Hc). by destruct (lru c). }
  destruct (find_prefix _ _ _ _ (others c)) as [[el prefix]|]; simpl.
  - destruct Hf as [Hin ->]. simpl. by split; [|apply steps_front].
  - rewrite Hf. by split; [|apply steps_refl].
Qed.

Lemma spec_find_empty now ns chain ends : spec_find (V := V) now ns chain ends [] = None.
Proof. by induction ends. Qed.

Lemma longest_spec_alone now ns chain c : cache_ok c →
  (longestDigestPrefix maphash (λ c, c) now ns chain c).1 = (spec_longest now ns chain (contents c)).1 ∧
  steps_to c (longestDigestPrefix maphash (λ c, c) now ns chain c).2 (spec_longest now ns chain (contents c)).2.
Proof.
  intros Hok. destruct (decide (length (lru c) = 0%nat)) as [H0|Hne].
  - unfold longestDigestPrefix, spec_longest. rewrite (core_size _ (proj1 Hok)), H0. simpl.
    apply nil_length_inv in H0.
    assert (spec_find now ns chain (reverse (boundaries 0 chain)) (contents c) = None) as ->
      by (unfold contents; rewrite H0; apply spec_find_empty).
    by split; [|apply steps_refl].
  - apply (longest_spec (λ c, c)); [done| |apply Hok]. intros E. by rewrite E in Hne.
Qed.

End Invariant.

(** ** Boundaries *)

Definition is_boundary (chain : bytes) (n : nat) : Prop := n = length chain ∨ chain !! n = Some DASH.

Lemma boundaries_spec chain : ∀ i n,
  n ∈ boundaries i chain ↔ (i ≤ n)%nat ∧ is_boundary chain (n - i).
Proof.
  unfold is_boundary. induction chain as [|x chain IH]; intros i n; simpl.
  - rewrite list_elem_of_singleton. split; [intros ->; split; [lia|left; lia]|].
    intros [Hle [Hn|Hn]]; [lia|done].
  - assert (n ∈ boundaries (S i) chain ↔
            (i < n)%nat ∧ ((n - i)%nat = S (length chain) ∨ (x :: chain) !! (n - i)%nat = Some DASH)) as E.
    { rewrite IH. split; intros [Hle Hn]; (split; [lia|]);
        replace (n - i)%nat with (S (n - S i)) in * by lia; simpl in *;
        (destruct Hn as [Hn|Hn]; [left; lia|by right]). }
    case_bool_decide as Hx; rewrite ?elem_of_cons, E; split.
    + intros [->|[Hle Hn]]; [|split; [lia|done]]. split; [lia|]. right. by rewrite Nat.sub_diag, Hx.
    + intros [Hle Hn]. destruct (decide (n = i)) as [->|]; [by left|right]. split; [lia|done].
    + intros [Hle Hn]. split; [lia|done].
    + intros [Hle Hn]. destruct (decide (n = i)) as [->|]; [|split; [lia|done]].
      rewrite Nat.sub_diag in Hn. simpl in Hn. destruct Hn as [Hn|Hn]; [lia|congruence].
Qed.

Lemma boundaries_sorted chain : ∀ i, StronglySorted lt (boundaries i chain).
Proof.
  induction chain as [|x chain IH]; intros i; simpl; [repeat constructor|].
  case_bool_decide; [|apply IH]. constructor; [apply IH|]. apply Forall_forall.
  intros n [Hn _]%boundaries_spec. lia.
Qed.

Lemma reverse_sorted (l : list nat) : StronglySorted lt l → StronglySorted gt (reverse l).
Proof.
  induction 1 as [|x l _ IH Hx]; [constructor|]. rewrite reverse_cons.
  assert (∀ y, y ∈ reverse l → (y > x)%nat) as Hy.
  { intros y Hy. rewrite elem_of_reverse in Hy. exact (proj1 (Forall_forall _ _) Hx y Hy). }
  clear Hx. induction IH as [|y k _ IHk Hk]; simpl; [repeat constructor|].
  constructor; [apply IHk; intros; apply Hy; by apply list_elem_of_further|].
  apply Forall_app. split; [done|]. constructor; [apply Hy, list_elem_of_here|constructor].
Qed.

Section Longest.
Context {V : Type}.

(** The list holds a live item with the key. *)
Definition holds (now : time) (key : bytes) (it : item V) (l : list (item V)) : Prop :=
  find_key key l = Some it ∧ now < i_expires it.

Lemma spec_find_longest now ns chain ends (l : list (item V)) : StronglySorted gt ends →
  match spec_find now ns chain ends l with
  | Some (it, prefix) => ∃ n, n ∈ ends ∧ prefix = take n chain ∧ holds now (ns ++ prefix) it l ∧
      ∀ m it', m ∈ ends → (n < m)%nat → ¬ holds now (ns ++ take m chain) it' l
  | None => ∀ m it', m ∈ ends → ¬ holds now (ns ++ take m chain) it' l
  end.
Proof.
  induction 1 as [|n ends Hs IH Hn]; simpl; [by intros m it' ?%not_elem_of_nil|].
  assert ((∀ it', ¬ holds now (ns ++ take n chain) it' l) →
    match spec_find now ns chain ends l with
    | Some (it, prefix) => ∃ k, k ∈ n :: ends ∧ prefix = take k chain ∧ holds now (ns ++ prefix) it l ∧
        ∀ m it', m ∈ n :: ends → (k < m)%nat → ¬ holds now (ns ++ take m chain) it' l
    | None => ∀ m it', m ∈ n :: ends → ¬ holds now (ns ++ take m chain) it' l
    end) as Hskip.
  { intros Hno. destruct (spec_find now ns chain ends l) as [[it prefix]|].
    - destruct IH as (k & Hk & ? & ? & Hm). exists k.
      split_and!; [by apply list_elem_of_further|done|done|].
      intros m it' [->|Hin]%elem_of_cons Hkm; [apply Hno|by apply Hm].
    - intros m it' [->|Hin]%elem_of_cons; [apply Hno|by apply IH]. }
  destruct (find_key (ns ++ take n chain) l) as [it|] eqn:Hk.
  - destruct (after (i_expires it) now) eqn:Hl.
    + apply after_spec in Hl. exists n. split_and!; [apply list_elem_of_here|done|by split|].
      intros m it' [->|Hin]%elem_of_cons Hlt; [lia|].
      apply (proj1 (Forall_forall _ _) Hn) in Hin. lia.
    + apply Hskip. intros it' [Hk' Hl']. simplify_eq. apply after_false in Hl. lia.
  - apply Hskip. intros it' [Hk' _]. congruence.
Qed.

End Longest.

(** ** Runs of operations *)

Section Runs.
Context {V : Type} `{sessionMemoryValue V} (maphash : bytes → Z).

Inductive operation :=
  | OStore (key : bytes) (value : V)
  | OLoad (key : bytes)
  | ODelete (key : bytes)
  | OSweep
  | OClose
  | OFind (ns chain : bytes).

(** What a load or a search answers. *)
Definition output : Type := option (V * bytes).

Definition run_op (now : time) (op : operation) (c : sessionMemoryCache V)
    : option (output * sessionMemoryCache V) :=
  match op with
  | OStore key value => (λ c, (None, c)) <$> Store maphash now key value c
  | OLoad key => let '(v, c) := Load now key c in Some ((λ v, (v, [])) <$> v, c)
  | ODelete key => Some (None, Delete key c)
  | OSweep => Some (None, sweepExpired now c)
  | OClose => Some (None, Close c)
  | OFind ns chain => Some (longestDigestPrefix maphash (λ c, c) now ns chain c)
  end.

Fixpoint run (ops : list (time * operation)) (c : sessionMemoryCache V)
    : option (list output * sessionMemoryCache V) :=
  match ops with
  | [] => Some ([], c)
  | (now, op) :: ops =>
      match run_op now op c with
      | None => None
      | Some (out, c) => (λ '(outs, c), (out :: outs, c)) <$> run ops c
      end
  end.

(** The list machine: closed or not, and the items. *)
Definition spec_op (maxE maxB : Z) (now : time) (op : operation) (st : bool * list (item V))
    : output * (bool * list (item V)) :=
  let '(cl, l) := st in
  match op with
  | OStore key value => (None, (cl, if cl : bool then l else spec_store maxE maxB now key value l))
  | OLoad key => let '(v, l) := spec_load now key l in ((λ v, (v, [])) <$> v, (cl, l))
  | ODelete key => (None, (cl, without key l))
  | OSweep => (None, (cl, spec_sweep now l))
  | OClose => (None, (true, []))
  | OFind ns chain => let '(r, l) := spec_longest now ns chain l in (r, (cl, l))
  end.

Fixpoint spec_run (maxE maxB : Z) (ops : list (time * operation)) (st : bool * list (item V))
    : list output * (bool * list (item V)) :=
  match ops with
  | [] => ([], st)
  | (now, op) :: ops =>
      let '(out, st) := spec_op maxE maxB now op st in
      let '(outs, st) := spec_run maxE maxB ops st in (out :: outs, st)
  end.

(** The cache stands for the list machine's state. *)
Definition stands_for (maxE maxB : Z) (c : sessionMemoryCache V) (st : bool * list (item V)) : Prop :=
  cache_ok maphash c ∧ st = (closed c, contents c) ∧
  positive_or (maxEntries c) sessionMemoryCacheMaxEntries = maxE ∧
  positive_or (maxBytes c) sessionMemoryCacheMaxBytes = maxB.

Lemma steps_stand maxE maxB c c' l st : stands_for maxE maxB c st → steps_to maphash c c' l →
  stands_for maxE maxB c' (closed c, l).
Proof.
  intros (_ & _ & <- & <-) (Hok & <- & <- & E1 & E2). unfold stands_for. rewrite E1, E2. by split_and!.
Qed.

Lemma Close_ok (c : sessionMemoryCache V) : cache_ok maphash (Close c).
Proof.
  split; [|split; [|done]].
  - constructor; unfold ents, bucket; simpl; try done.
    + constructor.
    + intros el Hel. by apply not_elem_of_nil in Hel.
    + intros k el. rewrite lookup_empty. split; [done|]. intros [Hel _]. by apply not_elem_of_nil in Hel.
    + intros el Hel. by apply not_elem_of_nil in Hel.
  - by constructor; simpl.
Qed.

Lemma zero_stands m b sw :
  stands_for (positive_or m sessionMemoryCacheMaxEntries) (positive_or b sessionMemoryCacheMaxBytes)
    (zero_cache m b sw) (false, []).
Proof.
  destruct (Close_ok (zero_cache m b sw)) as (Hc & _ & _). split_and!; try done.
  split; [by destruct Hc|]. split; [|done]. by constructor; simpl.
Qed.

Lemma op_simulates maxE maxB now op c st : stands_for maxE maxB c st →
  ∃ c', run_op now op c = Some ((spec_op maxE maxB now op st).1, c') ∧
        stands_for maxE maxB c' (spec_op maxE maxB now op st).2.
Proof.
  intros Hst. pose proof Hst as (Hok & -> & HE & HB). destruct op as [key v|key|key| | |ns chain]; simpl.
  - destruct (closed c) eqn:Hcl.
    + exists c. unfold Store. rewrite Hcl. split; [done|]. split_and!; try done. by rewrite Hcl.
    + destruct (Store_spec maphash now key v c Hok Hcl) as (c' & -> & Hok' & Hcl' & E1 & E2 & Hcon).
      exists c'. split; [done|]. split_and!; [apply Hok'..| | |]; [|congruence|congruence].
      by rewrite Hcl', Hcon, HE, HB.
  - destruct (Load_spec maphash now key c Hok) as [E Hs].
    destruct (Load now key c) as [v c'], (spec_load now key (contents c)) as [v' l]. simpl in *. subst v'.
    exists c'. split; [done|]. by eapply steps_stand.
  - eexists. split; [done|]. eapply steps_stand; [done|by apply Delete_spec].
  - eexists. split; [done|]. eapply steps_stand; [done|by apply sweep_spec].
  - eexists. split; [done|]. split_and!; [apply Close_ok..|done|done|done].
  - destruct (longest_spec_alone maphash now ns chain c Hok) as [E Hs].
    destruct (longestDigestPrefix _ _ _ _ _ _) as [r c'], (spec_longest now ns chain (contents c)) as [r' l].
    simpl in *. subst r'. exists c'. split; [done|]. by eapply steps_stand.
Qed.

Lemma run_simulates maxE maxB ops : ∀ c st, stands_for maxE maxB c st →
  ∃ c', run ops c = Some ((spec_run maxE maxB ops st).1, c') ∧
        stands_for maxE maxB c' (spec_run maxE maxB ops st).2.
Proof.
  induction ops as [|[now op] ops IH]; intros c st Hst; simpl; [by exists c|].
  destruct (op_simulates maxE maxB now op c st Hst) as (c1 & -> & Hst1).
  destruct (spec_op maxE maxB now op st) as [out st1]. simpl in *.
  destruct (IH c1 st1 Hst1) as (c2 & -> & Hst2).
  destruct (spec_run maxE maxB ops st1) as [outs st2]. by exists c2.
Qed.

(** C35: whatever is stored, loaded, searched, deleted, swept and closed, in any
    order and at any times, the cache never panics, gives the answers of a
    plain list of items in order of recency that keeps the most recent ones
    within the limits, and ends holding exactly that list, with its map, hash
    index, byte count, limits and sweep timer in order; for any hash function. *)
Theorem cache_refines_list m b sw ops :
  let maxE := positive_or m sessionMemoryCacheMaxEntries in
  let maxB := positive_or b sessionMemoryCacheMaxBytes in
  let '(outs, (cl, l)) := spec_run maxE maxB ops (false, []) in
  ∃ c, run ops (zero_cache m b sw) = Some (outs, c) ∧
    cache_ok maphash c ∧ closed c = cl ∧ contents c = l.
Proof.
  intros maxE maxB.
  destruct (run_simulates maxE maxB ops (zero_cache m b sw) (false, [])) as (c & E & Hok & Hst & _).
  - apply zero_stands.
  - destruct (spec_run maxE maxB ops (false, [])) as [outs [cl l]]. simpl in *. simplify_eq.
    by exists c.
Qed.

(** A search returns the live entry stored under the namespace and the
    longest prefix of the chain that ends at a message boundary, and the
    prefix, and nothing exactly when no boundary has one, whatever the hash
    function collides on and whatever other calls do to the cache between the
    hashing and the lookup. *)
Theorem find_longest_prefix (others : sessionMemoryCache V → sessionMemoryCache V) now ns chain
    (c : sessionMemoryCache V) :
  cache_ok maphash c → cache_ok maphash (others c) → lru c ≠ [] →
  match (longestDigestPrefix maphash others now ns chain c).1 with
  | Some (v, prefix) => ∃ n it, is_boundary chain n ∧ prefix = take n chain ∧ i_value it = v ∧
      holds now (ns ++ prefix) it (contents (others c)) ∧
      ∀ m it', is_boundary chain m → (n < m)%nat →
        ¬ holds now (ns ++ take m chain) it' (contents (others c))
  | None => ∀ m it', is_boundary chain m → ¬ holds now (ns ++ take m chain) it' (contents (others c))
  end.
Proof.
  intros Hok Hok' Hne. destruct (longest_spec maphash others now ns chain c Hok' Hne (proj1 Hok)) as [-> _].
  assert (∀ m, m ∈ reverse (boundaries 0 chain) ↔ is_boundary chain m) as Hb.
  { intros m. rewrite elem_of_reverse, boundaries_spec, Nat.sub_0_r. split; [by intros [_ ?]|].
    split; [lia|done]. }
  pose proof (spec_find_longest now ns chain (reverse (boundaries 0 chain)) (contents (others c))
                (reverse_sorted _ (boundaries_sorted chain 0))) as Hf.
  unfold spec_longest. destruct (spec_find _ _ _ _ _) as [[it prefix]|]; simpl.
  - destruct Hf as (n & Hn%Hb & ? & ? & Hmax). exists n, it. split_and!; try done.
    intros m it' Hm. apply Hmax. by apply Hb.
  - intros m it' Hm. apply Hf. by apply Hb.
Qed.

End Runs.

(** ** An example

    Two saved turns of a conversation, under a hash that collides on everything;
    a search for the next turn finds the longer of the two. *)

Definition example_hash (_ : bytes) : Z := 0.

Definition example_store : DigestSessionStore :=
  default NewDigestSessionStore
    (s ← Save example_hash 0 7 (lit "ab") (lit "s:1-u:2") (lit "first") 11 [] NewDigestSessionStore;
     Save example_hash second 7 (lit "ab") (lit "s:1-u:2-a:3") (lit "second") 12 [] s).

Lemma example_find :
  (Find example_hash (2 * second) 7 (lit "ab") (lit "s:1-u:2-a:3-u:4") example_store).1
  = Some (lit "second", 12, lit "s:1-u:2-a:3").
Proof. vm_compute. reflexivity. Qed.

Definition example_ops : list (time * operation (V := sessionEntry)) :=
  [(0, OStore (lit "7:ab|s:1-u:2") (mkSession (lit "first") 11 (300 * second)));
   (second, OStore (lit "7:ab|s:1-u:2-a:3") (mkSession (lit "second") 12 (301 * second)))].

Definition example_cache : sessionMemoryCache sessionEntry :=
  default (zero_cache 0 0 0) (snd <$> run example_hash example_ops (zero_cache 0 0 0)).

Lemma example_ok : cache_ok example_hash example_cache.
Proof.
  destruct (run_simulates example_hash (positive_or 0 sessionMemoryCacheMaxEntries)
    (positive_or 0 sessionMemoryCacheMaxBytes) example_ops (zero_cache 0 0 0) (false, [])) as (c & E & Hok & _).
  - apply zero_stands.
  - unfold example_cache. by rewrite E.
Qed.

Lemma find_longest_prefix_witness :
  ∃ n it, is_boundary (lit "s:1-u:2-a:3-u:4") n ∧ lit "s:1-u:2-a:3" = take n (lit "s:1-u:2-a:3-u:4") ∧
    i_value it = mkSession (lit "second") 12 (301 * second).
Proof.
  assert (lru example_cache ≠ []) as Hne by (vm_compute; discriminate).
  pose proof (find_longest_prefix example_hash (λ c, c) (2 * second) (lit "7:ab|")
                (lit "s:1-u:2-a:3-u:4") example_cache example_ok example_ok Hne) as Hf.
  assert ((longestDigestPrefix example_hash (λ c, c) (2 * second) (lit "7:ab|")
            (lit "s:1-u:2-a:3-u:4") example_cache).1
          = Some (mkSession (lit "second") 12 (301 * second), lit "s:1-u:2-a:3")) as E
    by (vm_compute; reflexivity).
  rewrite E in Hf. destruct Hf as (n & it & ? & ? & ? & _). exists n, it. split_and!; assumption.
Defined.

End SessionCache.
