(* ===== verification/Suffixes.v ===== *)
(** * The longest suffix of a text that belongs to a set of words

    What a matching automaton computes, stated on lists: [longest W t u] says
    that [u] is the longest suffix of [t] in the prefix-closed set [W].  Reading
    one more character walks down the chain of longest proper suffixes until one
    of them can be extended; [ruled_out] is the invariant of that walk. *)

From S2P Require Import Prelude.

Lemma suffix_cons_iff {A} (x : A) t v : v `suffix_of` x :: t ↔ v = x :: t ∨ v `suffix_of` t.
Proof.
  split.
  - destruct v as [|y v]; [right; apply suffix_nil|]. apply suffix_cons_inv.
  - intros [->|Hv]; [done|by apply suffix_cons_r].
Qed.

Lemma suffix_snoc_iff {A} (c : A) t v :
  v `suffix_of` t ++ [c] ↔ v = [] ∨ ∃ v', v = v' ++ [c] ∧ v' `suffix_of` t.
Proof.
  split.
  - destruct v as [|d v' _] using rev_ind; [by left|]. intros Hs. right.
    assert (d = c) as -> by eauto using suffix_snoc_inv_1. eauto using suffix_snoc_inv_2.
  - intros [->|(v' & -> & Hs)]; [apply suffix_nil|by apply suffix_snoc].
Qed.

Section longest.
Context {A : Type} `{!EqDecision A} (W : list A → Prop).
Implicit Types (t u v w : list A) (c x : A).

Definition prefix_closed : Prop := ∀ v c, W (v ++ [c]) → W v.

Definition longest t u : Prop := W u ∧ u `suffix_of` t ∧ ∀ v, W v → v `suffix_of` t → v `suffix_of` u.

(** No suffix of [t] in [W] longer than [u] can be extended by [c]. *)
Definition ruled_out t u c : Prop :=
  ∀ v, W v → v `suffix_of` t → ¬ v `suffix_of` u → ¬ W (v ++ [c]).

Lemma longest_unique t u v : longest t u → longest t v → u = v.
Proof.
  intros (Wu & Su & Mu) (Wv & Sv & Mv). apply suffix_length_eq; [eauto|].
  apply suffix_length. eauto.
Qed.

(** A word that is a suffix of [x :: t] is [x :: t] itself or a suffix of the
    longest one of [t]. *)
Lemma longest_suffixes x t u v : longest t u → W v →
  v `suffix_of` x :: t ↔ v = x :: t ∨ v `suffix_of` u.
Proof.
  intros (Wu & Su & Mu) Wv. rewrite suffix_cons_iff. split; intros [->|Hv]; auto.
  right. by trans u.
Qed.

Lemma ruled_out_start t u c : longest t u → ruled_out t u c.
Proof. intros (_ & _ & Mu) v Wv Sv Nv. exfalso. eauto. Qed.

Lemma ruled_out_follow t x u f c :
  ruled_out t (x :: u) c → ¬ W ((x :: u) ++ [c]) → longest u f → ruled_out t f c.
Proof.
  intros Hr Hn Hf v Wv Sv Nv.
  destruct (decide (v `suffix_of` x :: u)) as [Hs|Hs]; [|by apply Hr].
  rewrite (longest_suffixes _ _ f) in Hs by done. by destruct Hs as [->|Hs].
Qed.

Lemma longest_read t u c : prefix_closed →
  ruled_out t u c → u `suffix_of` t → W (u ++ [c]) → longest (t ++ [c]) (u ++ [c]).
Proof.
  intros Hp Hr Su Wu. split; [done|]. split; [by apply suffix_snoc|].
  intros v Wv Sv. apply suffix_snoc_iff in Sv as [->|(v' & -> & Sv)]; [apply suffix_nil|].
  destruct (decide (v' `suffix_of` u)) as [Hs|Hs]; [by apply suffix_snoc|].
  by destruct (Hr v' (Hp _ _ Wv) Sv Hs).
Qed.

Lemma longest_none t c : prefix_closed → W [] →
  ruled_out t [] c → ¬ W [c] → longest (t ++ [c]) [].
Proof.
  intros Hp W0 Hr Hn. split; [done|]. split; [apply suffix_nil|].
  intros v Wv Sv. apply suffix_snoc_iff in Sv as [->|(v' & -> & Sv)]; [done|].
  destruct (decide (v' `suffix_of` [])) as [Hs|Hs].
  - apply suffix_nil_inv in Hs. by subst v'.
  - by destruct (Hr v' (Hp _ _ Wv) Sv Hs).
Qed.

End longest.
