(* ===== verification/KeywordMatcher.v ===== *)
(** * The keyword matcher of content moderation

    Models [service/content_moderation_keyword_matcher.go] and the linear search
    [matchBlockedKeyword] of [service/content_moderation.go] it replaces.  The
    matcher is an automaton in flat arrays: a trie whose children are linked
    lists of edges, failure links set in breadth-first order, then the edges laid
    out sorted so that a lookup is a binary search.  An access outside an array
    is a panic ([None]), as is running out of the fuel of a loop. *)

From S2P Require Import Prelude GoStrings.
Import GoStrings.

Module KeywordMatcher.

(** ** Data *)

Record Node := mkNode { failure : Z; bestKeyword : Z; edgeStart : Z; edgeCount : Z }.
Record Edge := mkEdge { target : Z; label : ascii }.
Record BuildEdge := mkBuildEdge { b_target : Z; b_nextSibling : Z; b_label : ascii }.

Record Matcher := mkMatcher {
  m_nodes : list Node;
  m_edges : list Edge;
  m_rootTransitions : list Z;
  m_keywords : list bytes
}.

Definition set_failure (f : Z) (n : Node) : Node := mkNode f (bestKeyword n) (edgeStart n) (edgeCount n).
Definition set_best (b : Z) (n : Node) : Node := mkNode (failure n) b (edgeStart n) (edgeCount n).
Definition set_start (s : Z) (n : Node) : Node := mkNode (failure n) (bestKeyword n) s (edgeCount n).
Definition set_count (c : Z) (n : Node) : Node := mkNode (failure n) (bestKeyword n) (edgeStart n) c.

(** Machine integers: [int32] and [uint16] conversions ([uint32] is in the prelude). *)
Definition wrap32 (z : Z) : Z := (z + 2 ^ 31) mod 2 ^ 32 - 2 ^ 31.
Definition wrapu16 (z : Z) : Z := z mod 2 ^ 16.

(** [l[i]], and [l[i]] changed in place: outside the slice both panic. *)
Definition at_ {A} (l : list A) (i : Z) : option A :=
  if i <? 0 then None else l !! Z.to_nat i.
Definition update {A} (l : list A) (i : Z) (f : A → A) : option (list A) :=
  x ← at_ l i; Some (<[Z.to_nat i := f x]> l).

(** ** Construction *)

Definition newNode : Node := mkNode 0 (-1) 0 0.

Definition BuildFirstEdge (node : Node) : Z :=
  if edgeStart node =? 0 then -1 else wrap32 (edgeStart node - 1).

(** The loops [for i := first; i >= 0; i = edges[i].nextSibling]: looking for a
    label, and running a body on every edge. *)
Fixpoint find_label (fuel : nat) (edges : list BuildEdge) (i : Z) (c : ascii) : option Z :=
  match fuel with
  | O => None
  | S fuel =>
      if i <? 0 then Some (-1)
      else e ← at_ edges i;
           if decide (b_label e = c) then Some (b_target e)
           else find_label fuel edges (b_nextSibling e) c
  end.

Fixpoint for_edges {S} (fuel : nat) (edges : list BuildEdge) (i : Z)
    (body : BuildEdge → S → option S) (s : S) : option S :=
  match fuel with
  | O => None
  | Datatypes.S fuel =>
      if i <? 0 then Some s
      else e ← at_ edges i; s ← body e s; for_edges fuel edges (b_nextSibling e) body s
  end.

Definition BuildTransition (nodes : list Node) (edges : list BuildEdge) (state : Z) (c : ascii) : option Z :=
  if (state <? 0) || (Z.of_nat (length nodes) <=? state) then Some (-1)
  else node ← at_ nodes state;
       find_label (S (length edges)) edges (BuildFirstEdge node) c.

Definition minKeywordIndex (left right : Z) : Z :=
  if left <? 0 then right
  else if (right <? 0) || (left <? right) then left
  else right.

Definition trie := (list Node * list BuildEdge)%type.

(** One keyword walks down the trie and extends it where a label is missing. *)
Fixpoint add_labels (labels : bytes) (state : Z) (t : trie) : option (Z * trie) :=
  match labels with
  | [] => Some (state, t)
  | c :: labels =>
      let '(nodes, edges) := t in
      next ← BuildTransition nodes edges state c;
      if next <? 0 then
        let next := wrap32 (Z.of_nat (length nodes)) in
        let nodes := nodes ++ [newNode] in
        node ← at_ nodes state;
        let edges := edges ++ [mkBuildEdge next (BuildFirstEdge node) c] in
        nodes ← update nodes state (set_start (wrapu32 (Z.of_nat (length edges))));
        add_labels labels next (nodes, edges)
      else add_labels labels next t
  end.

Section matcher.
Context `{Unicode}.

Fixpoint add_keywords (keywordIndex : Z) (keywords : list bytes) (t : trie) : option trie :=
  match keywords with
  | [] => Some t
  | keyword :: rest =>
      if decide (keyword = []) then add_keywords (keywordIndex + 1) rest t
      else
        r ← add_labels (ToLower keyword) 0 t;
        let '(state, (nodes, edges)) := r in
        node ← at_ nodes state;
        let current := bestKeyword node in
        nodes ← (if (current <? 0) || (wrap32 keywordIndex <? current)
                 then update nodes state (set_best (wrap32 keywordIndex)) else Some nodes);
        add_keywords (keywordIndex + 1) rest (nodes, edges)
  end.

End matcher.

(** The children of the root: their transitions, and the first of the queue. *)
Definition root_edge (e : BuildEdge) (s : list Z * list Z) : option (list Z * list Z) :=
  let '(rootTransitions, queue) := s in
  rootTransitions ← update rootTransitions (code (b_label e)) (λ _, b_target e);
  Some (rootTransitions, queue ++ [b_target e]).

(** [for fallback < 0 && failure != 0]. *)
Fixpoint find_fallback (fuel : nat) (nodes : list Node) (edges : list BuildEdge) (c : ascii)
    (failed fallback : Z) : option Z :=
  match fuel with
  | O => None
  | S fuel =>
      if (fallback <? 0) && negb (failed =? 0) then
        node ← at_ nodes failed;
        fallback ← BuildTransition nodes edges (failure node) c;
        find_fallback fuel nodes edges c (failure node) fallback
      else Some fallback
  end.

(** The failure link and the keyword of one child of [state]. *)
Definition link_child (edges : list BuildEdge) (state : Z) (e : BuildEdge)
    (s : list Node * list Z) : option (list Node * list Z) :=
  let '(nodes, queue) := s in
  node ← at_ nodes state;
  fallback ← BuildTransition nodes edges (failure node) (b_label e);
  fallback ← find_fallback (S (length nodes)) nodes edges (b_label e) (failure node) fallback;
  nodes ← (if 0 <=? fallback then update nodes (b_target e) (set_failure fallback) else Some nodes);
  child ← at_ nodes (b_target e);
  suffix ← at_ nodes (failure child);
  nodes ← update nodes (b_target e) (set_best (minKeywordIndex (bestKeyword child) (bestKeyword suffix)));
  Some (nodes, queue ++ [b_target e]).

(** [for queueIndex := 0; queueIndex < len(queue); queueIndex++]. *)
Fixpoint link_queue (fuel : nat) (edges : list BuildEdge) (queueIndex : nat) (s : list Node * list Z)
    : option (list Node) :=
  match fuel with
  | O => None
  | S fuel =>
      let '(nodes, queue) := s in
      if (queueIndex <? length queue)%nat then
        state ← queue !! queueIndex;
        node ← at_ nodes state;
        s ← for_edges (S (length edges)) edges (BuildFirstEdge node) (link_child edges state) (nodes, queue);
        link_queue fuel edges (S queueIndex) s
      else Some nodes
  end.

(** [outgoing[count] = ...; count++], an array of 256 entries. *)
Definition collect (e : BuildEdge) (outgoing : list Edge) : option (list Edge) :=
  if (length outgoing <? 256)%nat then Some (outgoing ++ [mkEdge (b_target e) (b_label e)]) else None.

(** One round of the insertion sort: entries above [current] move up by one. *)
Fixpoint shift (outgoing : list Edge) (current : Edge) (insertAt : nat) : option (list Edge) :=
  match insertAt with
  | O => Some (<[O := current]> outgoing)
  | S before =>
      previous ← outgoing !! before;
      if code (label current) <? code (label previous)
      then shift (<[insertAt := previous]> outgoing) current before
      else Some (<[insertAt := current]> outgoing)
  end.

Fixpoint sort_from (rounds : nat) (index : nat) (outgoing : list Edge) : option (list Edge) :=
  match rounds with
  | O => Some outgoing
  | S rounds =>
      current ← outgoing !! index;
      outgoing ← shift outgoing current index;
      sort_from rounds (S index) outgoing
  end.

Definition sort_edges (outgoing : list Edge) : option (list Edge) :=
  sort_from (length outgoing - 1) 1 outgoing.

(** [for nodeIndex := range buildNodes]: the edges of a node become a slice. *)
Fixpoint lay_out (rounds : nat) (buildEdges : list BuildEdge) (nodeIndex : Z)
    (nodes : list Node) (edges : list Edge) : option (list Node * list Edge) :=
  match rounds with
  | O => Some (nodes, edges)
  | S rounds =>
      node ← at_ nodes nodeIndex;
      outgoing ← for_edges (S (length buildEdges)) buildEdges (BuildFirstEdge node) collect [];
      outgoing ← sort_edges outgoing;
      nodes ← update nodes nodeIndex (λ n,
        set_count (wrapu16 (Z.of_nat (length outgoing))) (set_start (wrapu32 (Z.of_nat (length edges))) n));
      lay_out rounds buildEdges (nodeIndex + 1) nodes (edges ++ outgoing)
  end.

(** [newContentModerationKeywordMatcher]; the outer [option] is the panic, the
    inner one the pointer. *)
Definition new_matcher `{Unicode} (keywords : list bytes) : option (option Matcher) :=
  if decide (keywords = []) then Some None
  else
    t ← add_keywords 0 keywords ([newNode], []);
    let '(nodes, buildEdges) := t in
    if (length nodes =? 1)%nat then Some None
    else
      root ← at_ nodes 0;
      s ← for_edges (S (length buildEdges)) buildEdges (BuildFirstEdge root) root_edge (replicate 256 0, []);
      let '(rootTransitions, queue) := s in
      nodes ← link_queue (S (length nodes)) buildEdges 0 (nodes, queue);
      r ← lay_out (length nodes) buildEdges 0 nodes [];
      let '(nodes, edges) := r in
      Some (Some (mkMatcher nodes edges rootTransitions keywords)).

(** ** Matching *)

(** The binary search [for left < right]. *)
Fixpoint search (fuel : nat) (edges : list Edge) (c : ascii) (left right : Z) : option Z :=
  match fuel with
  | O => None
  | S fuel =>
      if left <? right then
        let middle := left + (right - left) / 2 in
        edge ← at_ edges middle;
        if code (label edge) <? code c then search fuel edges c (middle + 1) right
        else search fuel edges c left middle
      else Some left
  end.

Definition next (m : Matcher) (state : Z) (c : ascii) : option Z :=
  if state =? 0 then at_ (m_rootTransitions m) (code c)
  else if (state <? 0) || (Z.of_nat (length (m_nodes m)) <=? state) then Some 0
  else
    node ← at_ (m_nodes m) state;
    let stop := edgeStart node + edgeCount node in
    left ← search (S (Z.to_nat (edgeCount node))) (m_edges m) c (edgeStart node) stop;
    if left <? stop then
      edge ← at_ (m_edges m) left;
      Some (if decide (label edge = c) then target edge else 0)
    else Some 0.

(** The inner [for]: follow failure links until the label can be read. *)
Fixpoint advance (fuel : nat) (m : Matcher) (state : Z) (c : ascii) : option Z :=
  match fuel with
  | O => None
  | S fuel =>
      following ← next m state c;
      if negb (following =? 0) then Some following
      else if state =? 0 then Some state
      else node ← at_ (m_nodes m) state; advance fuel m (failure node) c
  end.

Definition miss : bytes * bool := ([], false).

Fixpoint scan (m : Matcher) (lower : bytes) (state best : Z) : option (bytes * bool) :=
  match lower with
  | [] =>
      if (best <? 0) || (Z.of_nat (length (m_keywords m)) <=? best) then Some miss
      else keyword ← at_ (m_keywords m) best; Some (keyword, true)
  | c :: lower =>
      state ← advance (S (length (m_nodes m))) m state c;
      node ← at_ (m_nodes m) state;
      let best := minKeywordIndex best (bestKeyword node) in
      if best =? 0 then keyword ← at_ (m_keywords m) 0; Some (keyword, true)
      else scan m lower state best
  end.

Definition Match `{Unicode} (m : option Matcher) (text : bytes) : option (bytes * bool) :=
  match m with
  | None => Some miss
  | Some m =>
      if bool_decide (text = []) || (length (m_nodes m) =? 0)%nat || (length (m_keywords m) =? 0)%nat
      then Some miss
      else scan m (ToLower text) 0 (-1)
  end.

(** The linear search of [service/content_moderation.go]. *)
Fixpoint first_contained `{Unicode} (lower : bytes) (keywords : list bytes) : bytes * bool :=
  match keywords with
  | [] => miss
  | kw :: rest =>
      if decide (kw = []) then first_contained lower rest
      else if Contains lower (ToLower kw) then (kw, true)
      else first_contained lower rest
  end.

Definition matchBlockedKeyword `{Unicode} (text : bytes) (keywords : list bytes) : bytes * bool :=
  if bool_decide (text = []) || (length keywords =? 0)%nat then miss
  else first_contained (ToLower text) keywords.

(** The snapshot of the configuration and its matcher, and the method of the
    same name that a check calls. *)
Record Snapshot := mkSnapshot { s_BlockedKeywords : option (list bytes); s_matcher : option Matcher }.

Definition snapshot_match `{Unicode} (s : option Snapshot) (text : bytes) : option (bytes * bool) :=
  match s with
  | None => Some miss
  | Some s =>
      match s_BlockedKeywords s with
      | None => Some miss
      | Some keywords =>
          match s_matcher s with
          | Some m => Match (Some m) text
          | None => Some (matchBlockedKeyword text keywords)
          end
      end
  end.

End KeywordMatcher.
