(* ===== verification/KeywordTrie.v ===== *)
(** * The trie of the keyword matcher

    The loops of the construction as folds over the children of a node, the
    shape of the trie under construction, and what adding the keywords does to
    it.  Every node stands for a word, listed in [names] beside the array of
    nodes; the children of a node are the words one character longer. *)

From S2P Require Import Prelude GoStrings Suffixes KeywordMatcher.
Import GoStrings KeywordMatcher.

Module KeywordTrie.

(** ** Slices *)

Lemma at_of_nat {A} (l : list A) (i : nat) : at_ l (Z.of_nat i) = l !! i.
Proof. unfold at_. rewrite Nat2Z.id. by destruct (Z.ltb_spec (Z.of_nat i) 0); [lia|]. Qed.

Lemma at_nat {A} (l : list A) i x : at_ l i = Some x → ∃ j, i = Z.of_nat j ∧ l !! j = Some x.
Proof.
  unfold at_. destruct (Z.ltb_spec i 0); [done|]. intros Hx. exists (Z.to_nat i). split; [lia|done].
Qed.

Lemma update_of_nat {A} (l : list A) (i : nat) f x :
  l !! i = Some x → update l (Z.of_nat i) f = Some (<[i := f x]> l).
Proof. intros Hx. unfold update. rewrite at_of_nat, Hx. simpl. by rewrite Nat2Z.id. Qed.

Lemma wrap32_id z : - 2 ^ 31 ≤ z < 2 ^ 31 → wrap32 z = z.
Proof. intros ?. unfold wrap32. rewrite Z.mod_small; lia. Qed.

Lemma wrapu32_id z : 0 ≤ z < 2 ^ 32 → wrapu32 z = z.
Proof. intros ?. unfold wrapu32. by rewrite Z.mod_small. Qed.

(** ** The least index of a keyword *)

Section first_index.
Context `{Unicode}.
Implicit Types (P Q : bytes → bool) (keywords : list bytes).

(** The index of the first keyword that is not empty and whose lower-case form
    satisfies [P], counted from [i]; -1 when there is none. *)
Fixpoint first_index P (i : Z) keywords : Z :=
  match keywords with
  | [] => -1
  | keyword :: rest =>
      if bool_decide (keyword ≠ []) && P (ToLower keyword) then i else first_index P (i + 1) rest
  end.

Lemma first_index_bound P keywords : ∀ i, 0 ≤ i →
  first_index P i keywords = -1 ∨ i ≤ first_index P i keywords < i + Z.of_nat (length keywords).
Proof.
  induction keywords as [|k ks IH]; intros i Hi; simpl; [by left|].
  destruct (_ && _); [right; lia|]. destruct (IH (i + 1)); lia.
Qed.

Lemma first_index_or P Q keywords : ∀ i, 0 ≤ i →
  minKeywordIndex (first_index P i keywords) (first_index Q i keywords)
  = first_index (λ k, P k || Q k) i keywords.
Proof.
  induction keywords as [|k ks IH]; intros i Hi; simpl; [done|].
  assert (HP := first_index_bound P ks (i + 1) ltac:(lia)).
  assert (HQ := first_index_bound Q ks (i + 1) ltac:(lia)).
  destruct (bool_decide _), (P _), (Q _); simpl;
    rewrite <-?IH by lia; unfold minKeywordIndex; repeat case_match; lia.
Qed.

Lemma first_index_ext P Q keywords : ∀ i,
  (∀ k, k ∈ keywords → k ≠ [] → P (ToLower k) = Q (ToLower k)) →
  first_index P i keywords = first_index Q i keywords.
Proof.
  induction keywords as [|k ks IH]; intros i He; simpl; [done|].
  rewrite (IH (i + 1)) by (intros; apply He; [by right|done]).
  destruct (bool_decide_reflect (k ≠ [])); [|done]. by rewrite He by (done || left).
Qed.

Lemma first_index_none P keywords i :
  (∀ k, k ∈ keywords → k ≠ [] → P (ToLower k) = false) → first_index P i keywords = -1.
Proof.
  intros He. rewrite (first_index_ext P (λ _, false)) by done. clear He.
  revert i. induction keywords as [|k ks IH]; intros i; simpl; [done|].
  by rewrite andb_false_r.
Qed.

Lemma first_index_snoc P keywords k : ∀ i, 0 ≤ i →
  first_index P i (keywords ++ [k])
  = if first_index P i keywords <? 0
    then (if bool_decide (k ≠ []) && P (ToLower k) then i + Z.of_nat (length keywords) else -1)
    else first_index P i keywords.
Proof.
  induction keywords as [|k' ks IH]; intros i Hi.
  - simpl. by rewrite Z.add_0_r.
  - simpl length. cbn [app first_index]. rewrite IH by lia. destruct (_ && P (ToLower k')).
    + by destruct (Z.ltb_spec i 0); [lia|].
    + repeat case_match; lia.
Qed.

End first_index.

(** ** The children of a node as a list of edges *)

Definition first_edge (start : Z) : Z := if start =? 0 then -1 else wrap32 (start - 1).

Lemma BuildFirstEdge_start node : BuildFirstEdge node = first_edge (edgeStart node).
Proof. done. Qed.

(** [siblings edges i l]: starting at index [i], the links visit the edges [l];
    each link goes to a smaller index. *)
Inductive siblings (edges : list BuildEdge) : Z → list BuildEdge → Prop :=
  | siblings_nil : siblings edges (-1) []
  | siblings_cons (i : nat) e l :
      edges !! i = Some e → b_nextSibling e < Z.of_nat i →
      siblings edges (b_nextSibling e) l → siblings edges (Z.of_nat i) (e :: l).

Lemma siblings_length edges i l : siblings edges i l →
  Z.of_nat (length l) ≤ i + 1 ∧ i < Z.of_nat (length edges).
Proof.
  induction 1 as [|i e l Hi Hn Hs [IH1 IH2]]; simpl; [lia|].
  apply lookup_lt_Some in Hi. lia.
Qed.

Lemma siblings_in edges i l : siblings edges i l → ∀ e, e ∈ l → e ∈ edges.
Proof.
  induction 1 as [|i e l Hi Hn Hs IH]; intros e' He; [by apply not_elem_of_nil in He|].
  apply elem_of_cons in He as [->|He]; [by apply list_elem_of_lookup_2 in Hi|auto].
Qed.

Lemma siblings_app edges i l k : siblings edges i l → siblings (edges ++ k) i l.
Proof.
  induction 1 as [|i e l Hi Hn Hs IH]; [constructor|].
  econstructor; [by apply lookup_app_l_Some|done|done].
Qed.

Fixpoint fold_edges {S} (body : BuildEdge → S → option S) (l : list BuildEdge) (s : S) : option S :=
  match l with
  | [] => Some s
  | e :: l => s ← body e s; fold_edges body l s
  end.

Lemma for_edges_fold {S} edges (body : BuildEdge → S → option S) i l :
  siblings edges i l → ∀ fuel s, (length l < fuel)%nat →
  for_edges fuel edges i body s = fold_edges body l s.
Proof.
  induction 1 as [|i e l Hi Hn Hs IH]; intros [|fuel] s Hf; simpl in *; try lia; [done|].
  destruct (Z.ltb_spec (Z.of_nat i) 0); [lia|]. rewrite at_of_nat, Hi. simpl.
  destruct (body e s); simpl; [apply IH; lia|done].
Qed.

Lemma find_label_spec edges c i l :
  siblings edges i l → ∀ fuel, (length l < fuel)%nat →
  ∃ r, find_label fuel edges i c = Some r ∧
    ((∃ e, e ∈ l ∧ b_label e = c ∧ r = b_target e) ∨ (r = -1 ∧ ∀ e, e ∈ l → b_label e ≠ c)).
Proof.
  induction 1 as [|i e l Hi Hn Hs IH]; intros [|fuel] Hf; simpl in *; try lia.
  { eexists. split; [done|]. right. split; [done|]. by intros e He%not_elem_of_nil. }
  destruct (Z.ltb_spec (Z.of_nat i) 0); [lia|]. rewrite at_of_nat, Hi. simpl.
  destruct (decide (b_label e = c)) as [Hc|Hc].
  { eexists. split; [done|]. left. exists e. split; [by left|done]. }
  destruct (IH fuel ltac:(lia)) as (r & -> & Hr). eexists. split; [done|].
  destruct Hr as [(e' & He & Hl & Ht)|[-> Hr]].
  - left. exists e'. split; [by right|done].
  - right. split; [done|]. intros e' [->|He]%elem_of_cons; auto.
Qed.

(** ** The shape of the trie *)

Record shape (names : list bytes) (starts : list Z) (edges : list BuildEdge) : Prop := {
  sh_nodes : length starts = length names;
  sh_edges : length names = S (length edges);
  sh_small : Z.of_nat (length names) < 2 ^ 31;
  sh_root : names !! O = Some [];
  sh_nodup : NoDup names;
  sh_edge : ∀ i e, edges !! i = Some e →
    b_target e = Z.of_nat (S i) ∧
    ∃ p w, (p ≤ i)%nat ∧ names !! p = Some w ∧ names !! S i = Some (w ++ [b_label e]);
  sh_children : ∀ p s w, starts !! p = Some s → names !! p = Some w →
    ∃ l, siblings edges (first_edge s) l ∧
      ∀ e, e ∈ l ↔ e ∈ edges ∧ names !! Z.to_nat (b_target e) = Some (w ++ [b_label e])
}.

Definition child (names : list bytes) (p : nat) (c : ascii) (q : nat) : Prop :=
  ∃ w, names !! p = Some w ∧ names !! q = Some (w ++ [c]).

Definition known (names : list bytes) (w : bytes) : Prop := w ∈ names.

(** The edges that leave a node, one per child. *)
Definition edges_of (names : list bytes) (p : nat) (l : list BuildEdge) : Prop :=
  (∀ e, e ∈ l → ∃ q, b_target e = Z.of_nat q ∧ (0 < q)%nat ∧ child names p (b_label e) q) ∧
  (∀ c q, child names p c q → ∃ e, e ∈ l ∧ b_label e = c ∧ b_target e = Z.of_nat q) ∧
  NoDup (b_label <$> l).

Section shape.
Context (names : list bytes) (starts : list Z) (edges : list BuildEdge) (Hsh : shape names starts edges).

Lemma name_unique p q w : names !! p = Some w → names !! q = Some w → p = q.
Proof. intros Hp Hq. by apply (NoDup_lookup _ _ _ _ (sh_nodup _ _ _ Hsh) Hp Hq). Qed.

Lemma node_exists p w : names !! p = Some w → ∃ s, starts !! p = Some s.
Proof.
  intros Hp. apply lookup_lt_is_Some. rewrite (sh_nodes _ _ _ Hsh). by eapply lookup_lt_Some.
Qed.

(** Every node but the root hangs below an older one. *)
Lemma parent q w : names !! q = Some w → q ≠ O →
  ∃ p w0 c, (p < q)%nat ∧ names !! p = Some w0 ∧ w = w0 ++ [c].
Proof.
  intros Hq Hne. destruct q as [|i]; [done|].
  destruct (edges !! i) as [e|] eqn:He.
  - apply (sh_edge _ _ _ Hsh) in He as (_ & p & w0 & Hp & H1 & H2). simplify_eq. exists p, w0, (b_label e). split; [lia|done].
  - apply lookup_lt_Some in Hq. apply lookup_ge_None in He. rewrite (sh_edges _ _ _ Hsh) in Hq. lia.
Qed.

Lemma known_prefix_closed : prefix_closed (known names).
Proof.
  intros w c (q & Hq)%list_elem_of_lookup_1.
  destruct (decide (q = O)) as [->|Hne].
  { rewrite (sh_root _ _ _ Hsh) in Hq. by destruct w. }
  destruct (parent _ _ Hq Hne) as (p & w0 & d & _ & Hp & E).
  apply app_inj_tail in E as [-> _]. by apply list_elem_of_lookup_2 in Hp.
Qed.

Lemma known_nil : known names [].
Proof. by apply (list_elem_of_lookup_2 _ O), (sh_root _ _ _ Hsh). Qed.

Lemma root_name p : names !! p = Some [] ↔ p = O.
Proof.
  split; [intros Hp; eapply name_unique; [done|apply (sh_root _ _ _ Hsh)]|].
  intros ->. apply (sh_root _ _ _ Hsh).
Qed.

Lemma child_not_root p c q : child names p c q → (0 < q)%nat.
Proof.
  intros (w & _ & Hq). destruct q; [|lia]. rewrite (sh_root _ _ _ Hsh) in Hq. by destruct w.
Qed.

Lemma child_of q w c : names !! q = Some (w ++ [c]) → ∃ p, child names p c q ∧ names !! p = Some w.
Proof.
  intros Hq. assert (Hw : known names w).
  { apply (known_prefix_closed _ c). by apply list_elem_of_lookup_2 in Hq. }
  apply list_elem_of_lookup_1 in Hw as (p & Hp). exists p. split; [by exists w|done].
Qed.

(** The depth of a node is at most its index. *)
Lemma depth_index q : ∀ w, names !! q = Some w → (length w ≤ q)%nat.
Proof.
  induction (lt_wf q) as [q _ IH]; intros w Hq.
  destruct (decide (q = O)) as [->|Hne].
  { rewrite (sh_root _ _ _ Hsh) in Hq. by simplify_eq. }
  destruct (parent _ _ Hq Hne) as (p & w0 & c & Hlt & Hp & ->).
  specialize (IH p Hlt _ Hp). rewrite length_app. simpl. lia.
Qed.

Lemma depth_bound w : known names w → (length w < length names)%nat.
Proof.
  intros (q & Hq)%list_elem_of_lookup_1. assert (Hd := depth_index _ _ Hq).
  apply lookup_lt_Some in Hq. lia.
Qed.

Lemma edge_target e : e ∈ edges →
  ∃ q w, b_target e = Z.of_nat q ∧ (0 < q)%nat ∧ names !! q = Some (w ++ [b_label e]).
Proof.
  intros (i & Hi)%list_elem_of_lookup_1.
  apply (sh_edge _ _ _ Hsh) in Hi as (Ht & p & w & _ & _ & Hq). exists (S i), w. split_and!; [done|lia|done].
Qed.

Lemma siblings_nodup i l : siblings edges i l → NoDup (b_target <$> l).
Proof.
  intros Hs. cut (NoDup (b_target <$> l) ∧ ∀ e, e ∈ l → b_target e ≤ i + 1); [tauto|].
  induction Hs as [|i e l Hi Hn Hs [IH1 IH2]].
  { split; [constructor|]. by intros e He%not_elem_of_nil. }
  assert (Ht : b_target e = Z.of_nat (S i)) by by apply (sh_edge _ _ _ Hsh) in Hi as [? _].
  split.
  - simpl. constructor; [|done]. intros (e' & E & He)%list_elem_of_fmap. apply IH2 in He. lia.
  - intros e' [->|He]%elem_of_cons; [lia|]. apply IH2 in He. lia.
Qed.

Lemma children p s w : starts !! p = Some s → names !! p = Some w →
  ∃ l, siblings edges (first_edge s) l ∧ edges_of names p l.
Proof.
  intros Hs Hp. destruct (sh_children _ _ _ Hsh _ _ _ Hs Hp) as (l & Hl & Hin). exists l. split; [done|].
  split_and!.
  - intros e He. apply Hin in He as [He Hq].
    destruct (edge_target _ He) as (q & w0 & Ht & Hpos & _). exists q. split_and!; [done..|].
    rewrite Ht, Nat2Z.id in Hq. by exists w.
  - intros c q Hc. assert (Hpos := child_not_root _ _ _ Hc). destruct Hc as (w0 & Hp0 & Hq). simplify_eq.
    destruct q as [|i]; [lia|]. destruct (edges !! i) as [e|] eqn:He.
    + destruct (sh_edge _ _ _ Hsh _ _ He) as (Ht & p0 & w1 & _ & _ & E).
      rewrite Hq in E. injection E as [-> ->]%app_inj_tail. exists e. split_and!; [|done|done].
      apply Hin. split; [by apply list_elem_of_lookup_2 in He|]. by rewrite Ht, Nat2Z.id.
    + apply lookup_lt_Some in Hq. apply lookup_ge_None in He. rewrite (sh_edges _ _ _ Hsh) in Hq. lia.
  - assert (Hnd := siblings_nodup _ _ Hl).
    apply NoDup_fmap_2_strong; [|by eapply NoDup_fmap_1].
    intros e1 e2 He1 He2 E. apply Hin in He1 as [He1 H1], He2 as [He2 H2].
    destruct (edge_target _ He1) as (q1 & _ & T1 & _), (edge_target _ He2) as (q2 & _ & T2 & _).
    rewrite T1, Nat2Z.id in H1. rewrite T2, Nat2Z.id in H2. rewrite E in H1.
    assert (q1 = q2) as <- by (by eapply name_unique).
    apply list_elem_of_lookup_1 in He1 as (i1 & Hi1), He2 as (i2 & Hi2).
    destruct (sh_edge _ _ _ Hsh _ _ Hi1) as [U1 _], (sh_edge _ _ _ Hsh _ _ Hi2) as [U2 _].
    assert (i1 = i2) by lia. by simplify_eq.
Qed.

End shape.

(** ** Following a label, and adding a node *)

Lemma nodes_shape names nodes edges p w :
  shape names (edgeStart <$> nodes) edges → names !! p = Some w → ∃ n, nodes !! p = Some n.
Proof.
  intros Hsh Hp. destruct (node_exists _ _ _ Hsh _ _ Hp) as (s & Hs).
  rewrite list_lookup_fmap in Hs. destruct (nodes !! p); [eauto|done].
Qed.

Lemma node_edges names nodes edges p n w :
  shape names (edgeStart <$> nodes) edges → nodes !! p = Some n → names !! p = Some w →
  ∃ l, siblings edges (BuildFirstEdge n) l ∧ edges_of names p l ∧ (length l < S (length edges))%nat.
Proof.
  intros Hsh Hn Hp.
  destruct (children _ _ _ Hsh p (edgeStart n) w) as (l & Hl & He).
  { by rewrite list_lookup_fmap, Hn. }
  { done. }
  exists l. split_and!; [done..|]. apply siblings_length in Hl as [? ?]. lia.
Qed.

Lemma transition_spec names nodes edges p w c :
  shape names (edgeStart <$> nodes) edges → names !! p = Some w →
  ∃ r, BuildTransition nodes edges (Z.of_nat p) c = Some r ∧
    ((∃ q, r = Z.of_nat q ∧ child names p c q) ∨ (r = -1 ∧ ¬ known names (w ++ [c]))).
Proof.
  intros Hsh Hp. destruct (nodes_shape _ _ _ _ _ Hsh Hp) as (n & Hn).
  destruct (node_edges _ _ _ _ _ _ Hsh Hn Hp) as (l & Hl & (Ho1 & Ho2 & _) & Hf).
  unfold BuildTransition. assert (Hlt := lookup_lt_Some _ _ _ Hn).
  destruct (Z.ltb_spec (Z.of_nat p) 0), (Z.leb_spec (Z.of_nat (length nodes)) (Z.of_nat p)); try lia.
  cbn [orb]. rewrite at_of_nat, Hn. cbn [mbind option_bind].
  destruct (find_label_spec edges c _ _ Hl _ Hf) as (r & -> & Hr). exists r. split; [done|].
  destruct Hr as [(e & He & <- & ->)|[-> Hno]].
  - left. destruct (Ho1 e He) as (q & -> & _ & Hc). by exists q.
  - right. split; [done|]. intros (q & Hq)%list_elem_of_lookup_1.
    destruct (Ho2 c q) as (e & He & Hlab & _); [by exists w|]. by apply (Hno e He).
Qed.

Lemma first_edge_new (i : nat) : Z.of_nat i < 2 ^ 31 → first_edge (Z.of_nat (S i)) = Z.of_nat i.
Proof.
  intros Hi. unfold first_edge. destruct (Z.eqb_spec (Z.of_nat (S i)) 0); [lia|].
  rewrite wrap32_id by lia. lia.
Qed.

Section extend.
Context (names : list bytes) (starts : list Z) (edges : list BuildEdge) (Hsh : shape names starts edges).
Context (p : nat) (s : Z) (w : bytes) (c : ascii).
Context (Hp : names !! p = Some w) (Hs : starts !! p = Some s) (Hnew : ¬ known names (w ++ [c])).
Context (Hsmall : Z.of_nat (S (length names)) < 2 ^ 31).

Definition names' := names ++ [w ++ [c]].
Definition edge' := mkBuildEdge (Z.of_nat (length names)) (first_edge s) c.
Definition edges' := edges ++ [edge'].
Definition starts' := <[p := Z.of_nat (length edges')]> (starts ++ [0]).

Lemma names'_old q v : names !! q = Some v → names' !! q = Some v.
Proof. apply lookup_app_l_Some. Qed.

Lemma names'_new : names' !! length names = Some (w ++ [c]).
Proof. unfold names'. by rewrite lookup_app_r, Nat.sub_diag. Qed.

Lemma names'_inv q v : names' !! q = Some v → names !! q = Some v ∨ q = length names ∧ v = w ++ [c].
Proof.
  unfold names'. intros [Hq|[Hge Hq]]%lookup_app_Some; [by left|]. right.
  apply list_lookup_singleton_Some in Hq as [? <-]. split; [lia|done].
Qed.

(** An old edge still belongs to the node it belonged to, the new one to [p]. *)
Lemma edge_names_old e v :
  e ∈ edges → names' !! Z.to_nat (b_target e) = Some v ↔ names !! Z.to_nat (b_target e) = Some v.
Proof.
  intros He. split; [|apply names'_old].
  destruct (edge_target _ _ _ Hsh _ He) as (q & v0 & -> & _ & Hq). rewrite Nat2Z.id.
  by rewrite (names'_old _ _ Hq), Hq.
Qed.

Lemma no_edge_below_new e d :
  e ∈ edges' → names' !! Z.to_nat (b_target e) ≠ Some ((w ++ [c]) ++ [d]).
Proof.
  intros [He| ->%list_elem_of_singleton]%elem_of_app.
  - rewrite edge_names_old by done. intros Hq. apply Hnew, (known_prefix_closed _ _ _ Hsh _ d).
    by eapply list_elem_of_lookup_2.
  - unfold edge'; simpl. rewrite Nat2Z.id, names'_new. intros [= E].
    apply (f_equal length) in E. rewrite !length_app in E. simpl in E. lia.
Qed.

Lemma siblings_same q v (l : list BuildEdge) :
  (∀ e, e ∈ l ↔ e ∈ edges ∧ names !! Z.to_nat (b_target e) = Some (v ++ [b_label e])) →
  names !! q = Some v → q ≠ p →
  ∀ e, e ∈ l ↔ e ∈ edges' ∧ names' !! Z.to_nat (b_target e) = Some (v ++ [b_label e]).
Proof.
  intros Hl Hq Hne e. rewrite Hl. unfold edges'. rewrite elem_of_app, list_elem_of_singleton. split.
  - intros [He Hn]. split; [by left|]. by apply names'_old.
  - intros [[He| ->] Hn]; [split; [done|]; by rewrite edge_names_old in Hn|].
    simpl in Hn. rewrite Nat2Z.id, names'_new in Hn. injection Hn as [-> _]%app_inj_tail.
    destruct Hne. by eapply (name_unique _ _ _ Hsh).
Qed.

Lemma siblings_added (l : list BuildEdge) :
  (∀ e, e ∈ l ↔ e ∈ edges ∧ names !! Z.to_nat (b_target e) = Some (w ++ [b_label e])) →
  ∀ e, e ∈ edge' :: l ↔ e ∈ edges' ∧ names' !! Z.to_nat (b_target e) = Some (w ++ [b_label e]).
Proof.
  intros Hl e. rewrite elem_of_cons, Hl. unfold edges'. rewrite elem_of_app, list_elem_of_singleton. split.
  - intros [->|[He Hn]]; [|split; [by left|by apply names'_old]].
    split; [by right|]. unfold edge'; simpl. by rewrite Nat2Z.id, names'_new.
  - intros [[He| ->] Hn]; [right|by left]. split; [done|]. by rewrite edge_names_old in Hn.
Qed.

Lemma extend_children q s0 v : starts' !! q = Some s0 → names' !! q = Some v →
  ∃ l, siblings edges' (first_edge s0) l ∧
    ∀ e, e ∈ l ↔ e ∈ edges' ∧ names' !! Z.to_nat (b_target e) = Some (v ++ [b_label e]).
Proof.
  intros Hs0 Hv. assert (Hle := lookup_lt_Some _ _ _ Hp). assert (Hn := sh_nodes _ _ _ Hsh).
  assert (He := sh_edges _ _ _ Hsh). unfold starts' in Hs0.
  destruct (decide (q = p)) as [->|Hne].
  - rewrite list_lookup_insert_eq in Hs0 by (rewrite length_app; simpl; lia). injection Hs0 as <-.
    rewrite (names'_old _ _ Hp) in Hv. injection Hv as <-.
    destruct (sh_children _ _ _ Hsh _ _ _ Hs Hp) as (l & Hl & Hin).
    exists (edge' :: l). split; [|by apply siblings_added].
    unfold edges'. rewrite length_app, Nat.add_1_r, first_edge_new by lia.
    constructor; [by rewrite lookup_app_r, Nat.sub_diag| |by apply siblings_app].
    simpl. by apply siblings_length in Hl as [_ ?].
  - rewrite list_lookup_insert_ne in Hs0 by done.
    destruct (names'_inv _ _ Hv) as [Hq|[-> ->]].
    + rewrite lookup_app_l in Hs0 by (rewrite Hn; by eapply lookup_lt_Some).
      destruct (sh_children _ _ _ Hsh _ _ _ Hs0 Hq) as (l & Hl & Hin).
      exists l. split; [by apply siblings_app|by eapply siblings_same].
    + rewrite lookup_app_r, Hn, Nat.sub_diag in Hs0 by lia. injection Hs0 as <-.
      exists []. split; [constructor|]. intros e. split; [by intros ?%not_elem_of_nil|].
      intros [Hin E]. by apply no_edge_below_new in E.
Qed.

Lemma extend_shape : shape names' starts' edges'.
Proof.
  assert (Hle := lookup_lt_Some _ _ _ Hp).
  split.
  - unfold starts', names'. rewrite length_insert, !length_app, (sh_nodes _ _ _ Hsh). done.
  - unfold names', edges'. rewrite !length_app, (sh_edges _ _ _ Hsh). simpl. lia.
  - unfold names'. rewrite length_app. simpl. lia.
  - apply names'_old, (sh_root _ _ _ Hsh).
  - unfold names'. apply NoDup_app. split_and!; [apply (sh_nodup _ _ _ Hsh)| |apply NoDup_singleton].
    intros v Hv ->%list_elem_of_singleton. by apply Hnew.
  - intros i e [Hi|[Hge Hi]]%lookup_app_Some.
    + destruct (sh_edge _ _ _ Hsh _ _ Hi) as (Ht & p0 & w0 & Hp0 & H1 & H2).
      split; [done|]. exists p0, w0. split_and!; [done|by apply names'_old..].
    + apply list_lookup_singleton_Some in Hi as [Hi <-]. assert (i = length edges) as -> by lia.
      rewrite <-(sh_edges _ _ _ Hsh). split; [done|].
      exists p, w. split_and!; [|by apply names'_old|apply names'_new].
      rewrite (sh_edges _ _ _ Hsh) in Hle. lia.
  - apply extend_children.
Qed.

End extend.

(** ** Adding the keywords *)

Implicit Types (names keywords : list bytes) (nodes : list Node) (edges : list BuildEdge) (p q : nat).

(** Before the links are set, a node has no failure link and its keyword is
    given by its word. *)
Definition values (names : list bytes) (nodes : list Node) (best : bytes → Z) : Prop :=
  ∀ q n w, nodes !! q = Some n → names !! q = Some w → failure n = 0 ∧ bestKeyword n = best w.

Lemma values_extend names nodes best p n start v :
  length nodes = length names → nodes !! p = Some n → values names nodes best → best v = -1 →
  values (names ++ [v]) (<[p := set_start start n]> (nodes ++ [newNode])) best.
Proof.
  intros Hlen Hn Hv Hnew q n' w' Hq Hw.
  assert (Hplus : ∃ n0, (nodes ++ [newNode]) !! q = Some n0 ∧
                        failure n' = failure n0 ∧ bestKeyword n' = bestKeyword n0).
  { destruct (decide (q = p)) as [->|Hne].
    - rewrite list_lookup_insert_eq in Hq by (rewrite length_app; apply lookup_lt_Some in Hn; lia).
      injection Hq as <-. exists n. split; [by apply lookup_app_l_Some|done].
    - rewrite list_lookup_insert_ne in Hq by done. by exists n'. }
  destruct Hplus as (n0 & Hn0 & -> & ->).
  apply lookup_app_Some in Hn0 as [Hn0|[Hge Hn0]].
  - rewrite lookup_app_l in Hw by (rewrite <-Hlen; by eapply lookup_lt_Some). by eapply Hv.
  - apply list_lookup_singleton_Some in Hn0 as [Hi <-].
    rewrite lookup_app_r in Hw by lia.
    apply list_lookup_singleton_Some in Hw as [_ <-]. done.
Qed.

Lemma add_labels_spec best labels : ∀ p w names nodes edges,
  shape names (edgeStart <$> nodes) edges → values names nodes best →
  (∀ v, ¬ known names v → best v = -1) → names !! p = Some w →
  Z.of_nat (length names + length labels) < 2 ^ 31 →
  ∃ q nodes' edges' names',
    add_labels labels (Z.of_nat p) (nodes, edges) = Some (Z.of_nat q, (nodes', edges')) ∧
    shape names' (edgeStart <$> nodes') edges' ∧ values names' nodes' best ∧
    names `prefix_of` names' ∧ names' !! q = Some (w ++ labels) ∧
    (length names' ≤ length names + length labels)%nat.
Proof.
  induction labels as [|c labels IH]; intros p w names nodes edges Hsh Hv Hno Hp Hsmall.
  { exists p, nodes, edges, names. rewrite app_nil_r. split_and!; try done. simpl. lia. }
  simpl in Hsmall. cbn [add_labels].
  destruct (transition_spec _ _ _ _ _ c Hsh Hp) as (r & -> & Hr). cbn [mbind option_bind].
  destruct Hr as [(q & -> & w' & Hw' & Hq)|[-> Hnew]].
  - destruct (Z.ltb_spec (Z.of_nat q) 0); [lia|]. simplify_eq.
    destruct (IH q (w ++ [c]) names nodes edges) as (q' & n' & e' & l' & ? & ? & ? & ? & Hq' & ?); try done; [lia|].
    exists q', n', e', l'. rewrite <-app_assoc in Hq'. split_and!; try done. simpl. lia.
  - cbn [Z.ltb Z.compare]. destruct (nodes_shape _ _ _ _ _ Hsh Hp) as (n & Hn).
    assert (Hlen : length nodes = length names) by (by rewrite <-(sh_nodes _ _ _ Hsh), length_fmap).
    rewrite at_of_nat, (lookup_app_l_Some _ _ _ _ Hn). cbn [mbind option_bind].
    rewrite (update_of_nat _ _ _ n) by by apply lookup_app_l_Some. cbn [mbind option_bind].
    rewrite wrap32_id by lia.
    set (edges1 := edges ++ _). assert (He1 : Z.of_nat (length edges1) < 2 ^ 31).
    { unfold edges1. rewrite length_app. simpl. assert (H1 := sh_edges _ _ _ Hsh). lia. }
    rewrite wrapu32_id by lia.
    destruct (IH (length names) (w ++ [c]) (names ++ [w ++ [c]])
      (<[p := set_start (Z.of_nat (length edges1)) n]> (nodes ++ [newNode])) edges1)
      as (q' & n' & e' & l' & Ha & ? & ? & Hpre & Hq' & Hl).
    + unfold edges1. rewrite list_fmap_insert, fmap_app, Hlen.
      apply (extend_shape _ _ _ Hsh p (edgeStart n) w c Hp); [by rewrite list_lookup_fmap, Hn|done|lia].
    + apply values_extend; auto.
    + intros v Hv'. apply Hno. intros Hin. apply Hv'. unfold known in *. apply elem_of_app. by left.
    + by rewrite lookup_app_r, Nat.sub_diag.
    + rewrite length_app. simpl. lia.
    + exists q', n', e', l'. rewrite <-app_assoc in Hq'. rewrite Hlen.
      split_and!; try done; [by eapply prefix_app_l|].
      rewrite length_app in Hl. simpl in *. lia.
Qed.

Section keywords.
Context `{Unicode}.

(** The first keyword spelled exactly [w]. *)
Definition best_exact (keywords : list bytes) (w : bytes) : Z :=
  first_index (λ k, bool_decide (k = w)) 0 keywords.

Definition all_known (names keywords : list bytes) : Prop :=
  ∀ k, k ∈ keywords → k ≠ [] → known names (ToLower k).

(** The nodes the keywords need at most. *)
Definition trie_size (keywords : list bytes) : Z := sumZ (λ k, Z.of_nat (length (ToLower k))) keywords.

Lemma best_exact_unknown names keywords w :
  all_known names keywords → ¬ known names w → best_exact keywords w = -1.
Proof.
  intros Hall Hw. apply first_index_none. intros k Hk Hne. apply bool_decide_eq_false. intros <-. eauto.
Qed.

Lemma best_exact_snoc keywords k w :
  best_exact (keywords ++ [k]) w
  = if bool_decide (k ≠ []) && bool_decide (ToLower k = w) && (best_exact keywords w <? 0)
    then Z.of_nat (length keywords) else best_exact keywords w.
Proof.
  unfold best_exact. rewrite first_index_snoc by done.
  destruct (first_index_bound (λ k, bool_decide (k = w)) keywords 0 ltac:(done)) as [E|E].
  - rewrite E. simpl. by rewrite andb_true_r.
  - destruct (Z.ltb_spec (first_index (λ k, bool_decide (k = w)) 0 keywords) 0); [lia|].
    by rewrite andb_false_r.
Qed.

Lemma all_known_snoc names names' keywords k :
  names `prefix_of` names' → all_known names keywords → (k ≠ [] → known names' (ToLower k)) →
  all_known names' (keywords ++ [k]).
Proof.
  intros [m ->] Hall Hk k' [Hin| ->%list_elem_of_singleton]%elem_of_app Hne; [|auto].
  apply elem_of_app. left. by apply Hall.
Qed.

(** The keyword of the node reached is the smaller index of the two. *)
Lemma values_set names nodes keywords k q n :
  NoDup names → length nodes = length names → k ≠ [] →
  Z.of_nat (length keywords) < 2 ^ 31 →
  values names nodes (best_exact keywords) → nodes !! q = Some n → names !! q = Some (ToLower k) →
  ∃ nodes',
    (if (bestKeyword n <? 0) || (wrap32 (Z.of_nat (length keywords)) <? bestKeyword n)
     then update nodes (Z.of_nat q) (set_best (wrap32 (Z.of_nat (length keywords)))) else Some nodes)
      = Some nodes' ∧
    edgeStart <$> nodes' = edgeStart <$> nodes ∧
    values names nodes' (best_exact (keywords ++ [k])).
Proof.
  intros Hnd Hlen Hne Hsmall Hv Hn Hq. rewrite wrap32_id by lia.
  destruct (Hv _ _ _ Hn Hq) as [_ Hb].
  assert (Hle : bestKeyword n = -1 ∨ 0 ≤ bestKeyword n < Z.of_nat (length keywords)).
  { rewrite Hb. by apply (first_index_bound _ keywords 0). }
  destruct (_ || _) eqn:Ec.
  - rewrite (update_of_nat _ _ _ n) by done. eexists. split; [done|]. split.
    { rewrite list_fmap_insert. apply list_insert_id. by rewrite list_lookup_fmap, Hn. }
    intros q' n' w' Hq' Hw'. rewrite best_exact_snoc. destruct (decide (q' = q)) as [->|Hd].
    + rewrite list_lookup_insert_eq in Hq' by (by eapply lookup_lt_Some). simplify_eq. simpl.
      split; [by eapply Hv|]. rewrite <-Hb, !bool_decide_eq_true_2 by done.
      destruct (Z.ltb_spec (bestKeyword n) 0); [done|]. simpl in Ec. lia.
    + rewrite list_lookup_insert_ne in Hq' by done.
      rewrite (bool_decide_eq_false_2 (ToLower k = w')), andb_false_r; [by eapply Hv|].
      intros <-. apply Hd. by eapply NoDup_lookup.
  - eexists. split; [done|]. split; [done|]. intros q' n' w' Hq' Hw'. rewrite best_exact_snoc.
    destruct (decide (q' = q)) as [->|Hd].
    + simplify_eq. rewrite <-Hb. apply orb_false_iff in Ec as [-> _]. rewrite andb_false_r.
      split; [by eapply Hv|done].
    + rewrite (bool_decide_eq_false_2 (ToLower k = w')), andb_false_r; [by eapply Hv|].
      intros <-. apply Hd. by eapply NoDup_lookup.
Qed.

Lemma add_keywords_spec rest : ∀ keywords names nodes edges,
  shape names (edgeStart <$> nodes) edges → values names nodes (best_exact keywords) →
  all_known names keywords →
  Z.of_nat (length names) + trie_size rest < 2 ^ 31 →
  Z.of_nat (length (keywords ++ rest)) < 2 ^ 31 →
  ∃ names' nodes' edges',
    add_keywords (Z.of_nat (length keywords)) rest (nodes, edges) = Some (nodes', edges') ∧
    shape names' (edgeStart <$> nodes') edges' ∧
    values names' nodes' (best_exact (keywords ++ rest)) ∧ all_known names' (keywords ++ rest).
Proof.
  induction rest as [|k rest IH]; intros keywords names nodes edges Hsh Hv Hall Hsize Hcount.
  { rewrite app_nil_r. by exists names, nodes, edges. }
  cbn [add_keywords]. unfold trie_size in Hsize. simpl in Hsize. fold (trie_size rest) in Hsize.
  assert (Hrest : 0 ≤ trie_size rest) by (apply sumZ_nonneg; lia).
  assert (Hcons : keywords ++ k :: rest = (keywords ++ [k]) ++ rest) by by rewrite <-app_assoc.
  assert (Hnext : Z.of_nat (length keywords) + 1 = Z.of_nat (length (keywords ++ [k])))
    by (rewrite length_app; simpl; lia).
  rewrite Hcons in *. rewrite Hnext.
  destruct (decide (k = [])) as [->|Hne].
  - apply (IH (keywords ++ [[]]) names); [done| |by eapply all_known_snoc|simpl in Hsize; lia|done].
    intros q n w Hn Hw. rewrite best_exact_snoc. simpl. by eapply Hv.
  - destruct (add_labels_spec (best_exact keywords) (ToLower k) O [] names nodes edges)
      as (q & nodes1 & edges1 & names1 & Hadd & Hsh1 & Hv1 & Hpre & Hq & Hlen1); try done.
    { intros v. by apply best_exact_unknown. }
    { apply (sh_root _ _ _ Hsh). }
    { lia. }
    change (Z.of_nat 0) with 0 in Hadd. rewrite Hadd.
    cbn [mbind option_bind]. destruct (nodes_shape _ _ _ _ _ Hsh1 Hq) as (n & Hn).
    rewrite at_of_nat, Hn. cbn [mbind option_bind].
    rewrite !length_app in Hcount. simpl in Hcount.
    destruct (values_set names1 nodes1 keywords k q n) as (nodes2 & -> & Hst & Hv2); try done.
    { apply (sh_nodup _ _ _ Hsh1). }
    { by rewrite <-(sh_nodes _ _ _ Hsh1), length_fmap. }
    { lia. }
    cbn [mbind option_bind]. apply IH with (names := names1); [by rewrite Hst|done| |lia|rewrite !length_app; simpl; lia].
    eapply all_known_snoc; [done..|]. intros _. by eapply list_elem_of_lookup_2.
Qed.

Lemma empty_trie_shape : shape [[]] (edgeStart <$> [newNode]) [].
Proof.
  split; simpl; try done.
  - apply NoDup_singleton.
  - intros [|p] s w Hs Hp; simplify_eq/=. exists []. split; [constructor|]. intros e. split; [by intros ?%not_elem_of_nil|].
    by intros [?%not_elem_of_nil _].
Qed.

(** The trie of all the keywords. *)
Lemma trie_built keywords :
  trie_size keywords + 1 < 2 ^ 31 → Z.of_nat (length keywords) < 2 ^ 31 →
  ∃ names nodes edges,
    add_keywords 0 keywords ([newNode], []) = Some (nodes, edges) ∧
    shape names (edgeStart <$> nodes) edges ∧
    values names nodes (best_exact keywords) ∧ all_known names keywords.
Proof.
  intros Hs Hc. apply (add_keywords_spec keywords [] [[]]); simpl; [apply empty_trie_shape| | |lia|done].
  - intros [|q] n w Hn Hw; by simplify_eq/=.
  - by intros k ?%not_elem_of_nil.
Qed.

End keywords.

End KeywordTrie.
