(* ===== verification/KeywordLinks.v ===== *)
(** * The failure links of the keyword matcher

    The breadth-first pass gives every node the longest proper suffix of its
    word that is a node, and the first keyword that ends there.  The queue holds
    the linked nodes by increasing depth, so that what a new link depends on is
    always linked already. *)

From S2P Require Import Prelude GoStrings Suffixes KeywordMatcher KeywordTrie.
Import GoStrings KeywordMatcher KeywordTrie.

Module KeywordLinks.

Section links.
Context `{Unicode} (keywords names : list bytes) (starts : list Z) (edges : list BuildEdge).
Context (Hsh : shape names starts edges) (Hall : all_known names keywords).
Context (Hlower : ∀ k, k ∈ keywords → k ≠ [] → ToLower k ≠ []).
Implicit Types (nodes : list Node) (queue : list nat) (p q f g d : nat) (t u v w : bytes) (c x : ascii).

(** The first keyword that ends a text. *)
Definition best_suffix (keywords : list bytes) (w : bytes) : Z :=
  first_index (λ k, bool_decide (k `suffix_of` w)) 0 keywords.

Definition fails_to (nodes : list Node) (q : nat) : Prop :=
  ∀ n x w, nodes !! q = Some n → names !! q = Some (x :: w) →
    ∃ f u, failure n = Z.of_nat f ∧ names !! f = Some u ∧ longest (known names) w u.

Definition fresh (nodes : list Node) (q : nat) : Prop :=
  ∀ n w, nodes !! q = Some n → names !! q = Some w →
    failure n = 0 ∧ bestKeyword n = best_exact keywords w.

Definition ends (nodes : list Node) (q : nat) : Prop :=
  ∀ n w, nodes !! q = Some n → names !! q = Some w → bestKeyword n = best_suffix keywords w.

Lemma best_link x w u : longest (known names) w u →
  minKeywordIndex (best_exact keywords (x :: w)) (best_suffix keywords u) = best_suffix keywords (x :: w).
Proof.
  intros Hl. unfold best_exact, best_suffix. rewrite first_index_or by done.
  apply first_index_ext. intros k Hk Hne. rewrite <-bool_decide_or. apply bool_decide_ext.
  symmetry. apply longest_suffixes with (1 := Hl). by apply Hall.
Qed.

Lemma root_ends nodes : fresh nodes O → ends nodes O.
Proof.
  intros Hf n w Hn Hw. destruct (Hf _ _ Hn Hw) as [_ ->].
  rewrite (sh_root _ _ _ Hsh) in Hw. injection Hw as <-. unfold best_exact, best_suffix. apply first_index_ext. intros k Hk Hne.
  assert (Hn' := Hlower k Hk Hne).
  rewrite !bool_decide_eq_false_2; [done|by intros ?%suffix_nil_inv|done].
Qed.

(** The chain of failure links finds the longest suffix that can be extended. *)
Lemma find_fallback_spec nodes t c d :
  edgeStart <$> nodes = starts →
  (∀ q w, names !! q = Some w → (length w ≤ d)%nat → fails_to nodes q) →
  ∀ fuel f u r, names !! f = Some u → (length u ≤ d)%nat → (length u < fuel)%nat →
  u `suffix_of` t → ruled_out (known names) t u c →
  BuildTransition nodes edges (Z.of_nat f) c = Some r →
  ∃ r', find_fallback fuel nodes edges c (Z.of_nat f) r = Some r' ∧
    ((∃ g v, r' = Z.of_nat g ∧ names !! g = Some v ∧ longest (known names) (t ++ [c]) v) ∨
     (r' = -1 ∧ longest (known names) (t ++ [c]) [])).
Proof.
  intros Hst Hd. assert (Hpc := known_prefix_closed _ _ _ Hsh).
  assert (Hsh' := Hsh). rewrite <-Hst in Hsh'.
  induction fuel as [|fuel IH]; intros f u r Hf Hu Hfuel Hs Hr Ht; [lia|]. cbn [find_fallback].
  destruct (transition_spec _ _ _ _ _ c Hsh' Hf) as (r1 & Ht' & Hcase). simplify_eq.
  destruct Hcase as [(q & -> & w & Hw & Hq)|[-> Hno]].
  { destruct (Z.ltb_spec (Z.of_nat q) 0); [lia|]. simplify_eq. eexists. split; [done|]. left.
    exists q, (u ++ [c]). split_and!; [done..|]. apply longest_read; try done.
    by eapply list_elem_of_lookup_2. }
  cbn [Z.ltb Z.compare andb]. destruct (Z.eqb_spec (Z.of_nat f) 0) as [E|E]; cbn [negb].
  { assert (f = O) as -> by lia. eexists. split; [done|]. right. split; [done|].
    rewrite (sh_root _ _ _ Hsh) in Hf. injection Hf as <-.
    apply longest_none; try done. apply (known_nil _ _ _ Hsh). }
  destruct u as [|x u]; [apply (root_name _ _ _ Hsh) in Hf; lia|].
  destruct (nodes_shape _ _ _ _ _ Hsh' Hf) as (n & Hn). rewrite at_of_nat, Hn. cbn [mbind option_bind].
  destruct (Hd _ _ Hf Hu _ _ _ Hn Hf) as (g & v & -> & Hg & Hlong).
  destruct (transition_spec _ _ _ _ _ c Hsh' Hg) as (r2 & Ht2 & _). rewrite Ht2. cbn [mbind option_bind].
  assert (Hvu : (length v ≤ length u)%nat) by (apply suffix_length, Hlong). simpl in *.
  apply (IH g v); try done; try lia.
  - trans u; [apply Hlong|]. by eapply suffix_cons_l.
  - by eapply ruled_out_follow.
Qed.

(** ** The queue *)

(** [seen p c]: the children of [p] under [c] are in the queue. *)
Record bfs (nodes : list Node) (queue : list nat) (seen : nat → ascii → Prop) : Prop := {
  b_starts : edgeStart <$> nodes = starts;
  b_nodup : NoDup queue;
  b_nodes : ∀ q, q ∈ queue → (0 < q < length names)%nat;
  b_in : ∀ p c q, child names p c q → q ∈ queue ↔ seen p c;
  b_sorted : ∀ i j p q v w, (i ≤ j)%nat → queue !! i = Some p → queue !! j = Some q →
    names !! p = Some v → names !! q = Some w → (length v ≤ length w)%nat;
  b_fails : ∀ q, q ∈ queue → fails_to nodes q;
  b_ends : ∀ q, q ∈ queue → ends nodes q;
  b_fresh : ∀ q, q ∉ queue → fresh nodes q
}.

(** A queue that holds the children of the root and of its own nodes above
    depth [d] holds every node down to depth [d]. *)
Lemma queue_shallow queue d :
  (∀ c q, child names O c q → q ∈ queue) →
  (∀ p c q v, p ∈ queue → names !! p = Some v → (length v < d)%nat → child names p c q → q ∈ queue) →
  ∀ n q w, length w = n → names !! q = Some w → q ≠ O → (n ≤ d)%nat → q ∈ queue.
Proof.
  intros H0 Hd n. induction (lt_wf n) as [n _ IH]. intros q w Hn Hq Hne Hle.
  destruct (parent _ _ _ Hsh _ _ Hq Hne) as (p & v & c & _ & Hp & ->).
  rewrite length_app in Hn. simpl in Hn.
  assert (Hc : child names p c q) by by exists v.
  destruct (decide (p = O)) as [->|Hp0]; [by eapply H0|].
  apply (Hd p c q v); [|done|lia|done]. apply (IH (length v) ltac:(lia) p v); [done..|lia].
Qed.

(** What processing one state relies on: its word, and that every node no
    deeper than it is linked. *)
Record ready (nodes : list Node) (queue : list nat) (d : nat) : Prop := {
  r_shallow : ∀ q w, names !! q = Some w → q ≠ O → (length w ≤ d)%nat → q ∈ queue;
  r_below : ∀ q w, q ∈ queue → names !! q = Some w → (length w ≤ S d)%nat
}.

Lemma ready_fails nodes queue seen d : bfs nodes queue seen → ready nodes queue d →
  ∀ q w, names !! q = Some w → (length w ≤ d)%nat → fails_to nodes q.
Proof.
  intros Hb Hr q w Hq Hle n x w' Hn Hw. apply (b_fails _ _ _ Hb q) with x; [|done..].
  apply (r_shallow _ _ _ Hr q w); [done| |done]. intros ->. rewrite (sh_root _ _ _ Hsh) in Hw. by simplify_eq.
Qed.

Lemma ready_ends nodes queue seen d : bfs nodes queue seen → ready nodes queue d →
  ∀ q w, names !! q = Some w → (length w ≤ d)%nat → ends nodes q.
Proof.
  intros Hb Hr q w Hq Hle. destruct (decide (q = O)) as [->|Hne].
  - apply root_ends, (b_fresh _ _ _ Hb). intros ?%(b_nodes _ _ _ Hb). lia.
  - apply (b_ends _ _ _ Hb), (r_shallow _ _ _ Hr q w); done.
Qed.

(** ** Linking the children of a state *)

Lemma edges_label_unique p l e e' :
  edges_of names p l → e ∈ l → e' ∈ l → b_label e = b_label e' → e = e'.
Proof.
  intros (_ & _ & Hnd) He He' E. apply list_elem_of_lookup_1 in He as (i & Hi), He' as (j & Hj).
  assert (i = j) as ->; [|by simplify_eq].
  apply (NoDup_lookup _ i j (b_label e) Hnd); rewrite list_lookup_fmap.
  - by rewrite Hi.
  - by rewrite Hj, E.
Qed.

Lemma child_unique p c q q' : child names p c q → child names p c q' → q = q'.
Proof. intros (w & Hw & Hq) (w' & Hw' & Hq'). simplify_eq. by eapply (name_unique _ _ _ Hsh). Qed.

Lemma child_parent p p' c c' q : child names p c q → child names p' c' q → p = p' ∧ c = c'.
Proof.
  intros (w & Hw & Hq) (w' & Hw' & Hq'). rewrite Hq in Hq'. injection Hq' as [-> ->]%app_inj_tail.
  split; [by eapply (name_unique _ _ _ Hsh)|done].
Qed.

(** The new entry of the array, and the other entries as they were. *)
Definition linked_node (nodes : list Node) (q : nat) (f b : Z) (n : Node) : list Node :=
  <[q := set_best b (set_failure f n)]> nodes.

Lemma link_child_spec nodes queue seen p e q x w n d :
  bfs nodes queue seen → ready nodes queue d → names !! p = Some (x :: w) → (length (x :: w) ≤ d)%nat →
  b_target e = Z.of_nat q → child names p (b_label e) q → q ∉ queue → nodes !! q = Some n →
  ∃ g v ng, names !! g = Some v ∧ longest (known names) (w ++ [b_label e]) v ∧ nodes !! g = Some ng ∧
    link_child edges (Z.of_nat p) e (nodes, Z.of_nat <$> queue)
    = Some (linked_node nodes q (Z.of_nat g) (minKeywordIndex (bestKeyword n) (bestKeyword ng)) n,
            Z.of_nat <$> (queue ++ [q])).
Proof.
  intros Hb Hr Hp Hd Ht Hc Hq Hn. assert (Hsh' := Hsh). rewrite <-(b_starts _ _ _ Hb) in Hsh'.
  destruct (nodes_shape _ _ _ _ _ Hsh' Hp) as (np & Hnp).
  destruct (ready_fails _ _ _ _ Hb Hr _ _ Hp Hd _ _ _ Hnp Hp) as (f & u & Hf & Hu & Hlong).
  assert (Hul : (length u ≤ length w)%nat) by (apply suffix_length, Hlong). simpl in Hd.
  destruct (transition_spec _ _ _ _ _ (b_label e) Hsh' Hu) as (r & Htr & _).
  destruct (find_fallback_spec nodes w (b_label e) d (b_starts _ _ _ Hb) (ready_fails _ _ _ _ Hb Hr)
    (S (length nodes)) f u r) as (r' & Hr' & Hcase); try done; [lia| |apply Hlong|by apply ruled_out_start|].
  { apply lookup_lt_Some in Hnp. assert (Hdep := depth_bound _ _ _ Hsh' u ltac:(by eapply list_elem_of_lookup_2)).
    assert (Hlen := sh_nodes _ _ _ Hsh'). rewrite length_fmap in Hlen. lia. }
  unfold link_child. rewrite at_of_nat, Hnp. cbn [mbind option_bind]. rewrite Hf, Htr.
  cbn [mbind option_bind]. rewrite Hr'. cbn [mbind option_bind].
  destruct Hc as (wp & Hwp & Hqn). simplify_eq. cbn [app] in Hqn.
  assert (Hfq := b_fresh _ _ _ Hb _ Hq _ _ Hn Hqn). destruct Hfq as [Hfq Hbq].
  destruct Hcase as [(g & v & -> & Hg & Hlv)|[-> Hlv]].
  - destruct (nodes_shape _ _ _ _ _ Hsh' Hg) as (ng & Hng). exists g, v, ng. split_and!; [done..|].
    assert (Hne : g ≠ q).
    { intros ->. rewrite Hqn in Hg. injection Hg as <-. destruct Hlv as (_ & Hs & _).
      apply suffix_length in Hs. simpl in Hs. lia. }
    destruct (Z.leb_spec 0 (Z.of_nat g)); [|lia].
    rewrite Ht, (update_of_nat _ _ _ n) by done. cbn [mbind option_bind]. rewrite at_of_nat.
    rewrite list_lookup_insert_eq by (by eapply lookup_lt_Some). cbn [mbind option_bind set_failure failure].
    rewrite at_of_nat, list_lookup_insert_ne, Hng by done. cbn [mbind option_bind].
    rewrite (update_of_nat _ _ _ (set_failure (Z.of_nat g) n)) by (apply list_lookup_insert_eq; by eapply lookup_lt_Some).
    cbn [mbind option_bind]. rewrite list_insert_insert_eq, fmap_app. done.
  - destruct (nodes_shape _ _ _ _ _ Hsh' (sh_root _ _ _ Hsh)) as (n0 & Hn0).
    exists O, [], n0. split_and!; [apply (sh_root _ _ _ Hsh)|done..|]. cbn [Z.leb Z.compare mbind option_bind].
    rewrite Ht, at_of_nat, Hn. cbn [mbind option_bind]. rewrite Hfq.
    assert (Hat : at_ nodes 0 = Some n0) by exact Hn0. rewrite Hat. cbn [mbind option_bind].
    rewrite (update_of_nat _ _ _ n) by done. cbn [mbind option_bind]. rewrite fmap_app.
    unfold linked_node, set_best, set_failure. simpl. by rewrite Hfq.
Qed.

Lemma linked_node_lookup nodes q q' (f b : Z) (n n' : Node) :
  nodes !! q = Some n → linked_node nodes q f b n !! q' = Some n' →
  (q' = q ∧ n' = set_best b (set_failure f n)) ∨ (q' ≠ q ∧ nodes !! q' = Some n').
Proof.
  intros Hn Hq'. unfold linked_node in Hq'. destruct (decide (q' = q)) as [->|Hne].
  - rewrite list_lookup_insert_eq in Hq' by (by eapply lookup_lt_Some). left. by simplify_eq.
  - rewrite list_lookup_insert_ne in Hq' by done. by right.
Qed.

(** Linking one node leaves the others as they were. *)
Lemma linked_node_others nodes queue seen q (f b : Z) (n : Node) :
  bfs nodes queue seen → nodes !! q = Some n →
  let nodes' := linked_node nodes q f b n in
  edgeStart <$> nodes' = starts ∧
  ∀ y, y ≠ q → (y ∈ queue → fails_to nodes' y ∧ ends nodes' y) ∧ (y ∉ queue → fresh nodes' y).
Proof.
  intros Hb Hn nodes'. split.
  { unfold nodes', linked_node. rewrite list_fmap_insert, <-(b_starts _ _ _ Hb).
    apply list_insert_id. by rewrite list_lookup_fmap, Hn. }
  intros y Hne.
  assert (Hold : ∀ n', nodes' !! y = Some n' → nodes !! y = Some n').
  { intros n' Hn'. by destruct (linked_node_lookup _ _ _ _ _ _ _ Hn Hn') as [[? _]|[_ ?]]. }
  split; [intros Hy; split|intros Hy].
  - intros n' z u Hn' Hu. by eapply (b_fails _ _ _ Hb); eauto.
  - intros n' u Hn' Hu. by eapply (b_ends _ _ _ Hb); eauto.
  - intros n' u Hn' Hu. by eapply (b_fresh _ _ _ Hb); eauto.
Qed.

(** The node just linked. *)
Lemma linked_node_new nodes queue seen q x w n g v ng d c :
  bfs nodes queue seen → ready nodes queue d → q ∉ queue → nodes !! q = Some n →
  names !! q = Some (x :: w ++ [c]) → (length v ≤ d)%nat →
  names !! g = Some v → longest (known names) (w ++ [c]) v → nodes !! g = Some ng →
  let nodes' := linked_node nodes q (Z.of_nat g) (minKeywordIndex (bestKeyword n) (bestKeyword ng)) n in
  fails_to nodes' q ∧ ends nodes' q.
Proof.
  intros Hb Hr Hq Hn Hqn Hvd Hg Hlong Hng nodes'. split.
  - intros n' y u Hn' Hu. destruct (linked_node_lookup _ _ _ _ _ _ _ Hn Hn') as [[_ ->]|[? _]]; [|done].
    rewrite Hqn in Hu. injection Hu as _ <-. by exists g, v.
  - intros n' u Hn' Hu. destruct (linked_node_lookup _ _ _ _ _ _ _ Hn Hn') as [[_ ->]|[? _]]; [|done].
    rewrite Hqn in Hu. injection Hu as <-. simpl.
    destruct (b_fresh _ _ _ Hb _ Hq _ _ Hn Hqn) as [_ ->].
    rewrite (ready_ends _ _ _ _ Hb Hr _ _ Hg Hvd _ _ Hng Hg). by apply best_link.
Qed.

(** Putting it at the end of the queue keeps the depths in order. *)
Lemma sorted_queue_snoc nodes queue seen d q u :
  bfs nodes queue seen → ready nodes queue d → names !! q = Some u → length u = S d →
  ∀ i j a b va vb, (i ≤ j)%nat → (queue ++ [q]) !! i = Some a → (queue ++ [q]) !! j = Some b →
    names !! a = Some va → names !! b = Some vb → (length va ≤ length vb)%nat.
Proof.
  intros Hb Hr Hu Hd i j a b va vb Hij Ha Hb' Hva Hvb.
  apply lookup_app_Some in Hb' as [Hb'|[Hlen Hb']].
  - rewrite lookup_app_l in Ha by (apply lookup_lt_Some in Hb'; lia). by eapply (b_sorted _ _ _ Hb i j).
  - apply list_lookup_singleton_Some in Hb' as [_ <-]. rewrite Hu in Hvb. injection Hvb as <-. rewrite Hd.
    apply lookup_app_Some in Ha as [Ha|[_ Ha]].
    + apply list_elem_of_lookup_2 in Ha. by eapply (r_below _ _ _ Hr).
    + apply list_lookup_singleton_Some in Ha as [_ <-]. rewrite Hu in Hva. injection Hva as <-. by rewrite Hd.
Qed.

Lemma bfs_link nodes queue seen p c q x w n g v ng d :
  bfs nodes queue seen → ready nodes queue d → names !! p = Some (x :: w) → length (x :: w) = d →
  child names p c q → q ∉ queue → nodes !! q = Some n →
  names !! g = Some v → longest (known names) (w ++ [c]) v → nodes !! g = Some ng →
  let nodes' := linked_node nodes q (Z.of_nat g) (minKeywordIndex (bestKeyword n) (bestKeyword ng)) n in
  bfs nodes' (queue ++ [q]) (λ p' c', seen p' c' ∨ (p' = p ∧ c' = c)) ∧ ready nodes' (queue ++ [q]) d.
Proof.
  intros Hb Hr Hp Hd Hc Hq Hn Hg Hlong Hng nodes'.
  assert (Hpos := child_not_root _ _ _ Hsh _ _ _ Hc). assert (Hc' := Hc).
  destruct Hc' as (wp & Hwp & Hqn). rewrite Hp in Hwp. injection Hwp as <-. cbn [app] in Hqn.
  assert (Hdq : length (x :: w ++ [c]) = S d) by (simpl in *; rewrite length_app; simpl; lia).
  assert (Hvd : (length v ≤ d)%nat).
  { destruct Hlong as (_ & Hs & _). apply suffix_length in Hs. rewrite length_app in Hs. simpl in *. lia. }
  destruct (linked_node_new _ _ _ q x w n g v ng d c Hb Hr Hq Hn Hqn Hvd Hg Hlong Hng) as [Hnf Hne].
  destruct (linked_node_others _ _ _ q (Z.of_nat g) (minKeywordIndex (bestKeyword n) (bestKeyword ng)) n Hb Hn)
    as [Hst Hold].
  split; [split|split].
  - done.
  - apply NoDup_app. split_and!; [apply (b_nodup _ _ _ Hb)| |apply NoDup_singleton].
    by intros y Hy ->%list_elem_of_singleton.
  - intros y [Hy| ->%list_elem_of_singleton]%elem_of_app; [by apply (b_nodes _ _ _ Hb)|].
    split; [done|by eapply lookup_lt_Some].
  - intros p' c' q' Hc'. rewrite elem_of_app, list_elem_of_singleton, (b_in _ _ _ Hb) by done.
    split; (intros [?|Heq]; [by left|right]).
    + subst q'. by eapply child_parent.
    + destruct Heq as [-> ->]. by eapply child_unique.
  - by eapply sorted_queue_snoc.
  - intros y Hy. destruct (decide (y = q)) as [->|Hy']; [done|].
    apply Hold; [done|]. by apply elem_of_app in Hy as [Hy|Hy%list_elem_of_singleton].
  - intros y Hy. destruct (decide (y = q)) as [->|Hy']; [done|].
    apply Hold; [done|]. by apply elem_of_app in Hy as [Hy|Hy%list_elem_of_singleton].
  - intros y [Hy Hy'%not_elem_of_cons]%not_elem_of_app. apply Hold; [apply Hy'|done].
  - intros y u Hy Hy' Hle. apply elem_of_app. left. by eapply (r_shallow _ _ _ Hr).
  - intros y u Hy Hu. apply elem_of_app in Hy as [Hy| ->%list_elem_of_singleton]; [by eapply (r_below _ _ _ Hr)|].
    rewrite Hqn in Hu. injection Hu as <-. lia.
Qed.

Lemma bfs_seen nodes queue seen seen' :
  (∀ p c, seen p c ↔ seen' p c) → bfs nodes queue seen → bfs nodes queue seen'.
Proof. intros He Hb. destruct Hb. split; try done. intros p c q Hc. by rewrite <-He, b_in0. Qed.

Lemma link_children p x w seen l2 : ∀ l1 nodes queue,
  names !! p = Some (x :: w) → edges_of names p (l1 ++ l2) → (∀ c, ¬ seen p c) →
  bfs nodes queue (λ p' c, seen p' c ∨ (p' = p ∧ c ∈ b_label <$> l1)) →
  ready nodes queue (length (x :: w)) →
  ∃ nodes' queue',
    fold_edges (link_child edges (Z.of_nat p)) l2 (nodes, Z.of_nat <$> queue) = Some (nodes', Z.of_nat <$> queue') ∧
    bfs nodes' queue' (λ p' c, seen p' c ∨ (p' = p ∧ c ∈ b_label <$> (l1 ++ l2))) ∧
    queue `prefix_of` queue'.
Proof.
  induction l2 as [|e l2 IH]; intros l1 nodes queue Hp He Hns Hb Hr.
  { exists nodes, queue. rewrite app_nil_r. done. }
  assert (Hin : e ∈ l1 ++ e :: l2) by (apply elem_of_app; right; by left).
  assert (He' := He). destruct He' as (He1 & _ & Hnd). destruct (He1 e Hin) as (q & Ht & Hpos & Hc).
  assert (Hq : q ∉ queue).
  { rewrite (b_in _ _ _ Hb) by done. intros [?|[_ Hl]]; [by eapply Hns|].
    rewrite fmap_app in Hnd. apply NoDup_app in Hnd as (_ & Hd & _). apply (Hd _ Hl). by left. }
  assert (Hsh' := Hsh). rewrite <-(b_starts _ _ _ Hb) in Hsh'.
  assert (Hqn : ∃ wq, names !! q = Some wq) by (destruct Hc as (? & _ & ?); eauto). destruct Hqn as (wq & Hqn).
  destruct (nodes_shape _ _ _ _ _ Hsh' Hqn) as (n & Hn).
  destruct (link_child_spec _ _ _ p e q x w n _ Hb Hr Hp ltac:(done) Ht Hc Hq Hn)
    as (g & v & ng & Hg & Hlong & Hng & Heq).
  cbn [fold_edges]. rewrite Heq. cbn [mbind option_bind].
  destruct (bfs_link _ _ _ p (b_label e) q x w n g v ng _ Hb Hr Hp eq_refl Hc Hq Hn Hg Hlong Hng) as [Hb' Hr'].
  apply (bfs_seen _ _ _ (λ p' c, seen p' c ∨ (p' = p ∧ c ∈ b_label <$> (l1 ++ [e])))) in Hb'.
  2:{ intros p' c. rewrite fmap_app, elem_of_app. cbn [fmap list_fmap]. rewrite list_elem_of_singleton. naive_solver. }
  edestruct (IH (l1 ++ [e])) as (nodes' & queue' & Hf & Hbf & Hpre); try done; [by rewrite <-app_assoc|].
  exists nodes', queue'. split; [done|]. rewrite <-app_assoc in Hbf. split; [done|]. by eapply prefix_app_l.
Qed.

(** ** The whole queue *)

Lemma queue_bound nodes queue seen : bfs nodes queue seen → (length queue ≤ length names)%nat.
Proof.
  intros Hb. rewrite <-(length_seq (length names) 0). apply submseteq_length, NoDup_submseteq; [apply Hb|].
  intros q Hq%(b_nodes _ _ _ Hb). apply elem_of_seq. lia.
Qed.

Lemma take_elem queue qi q : q ∈ take qi queue ↔ ∃ i, (i < qi)%nat ∧ queue !! i = Some q.
Proof.
  split.
  - intros (i & Hi)%list_elem_of_lookup_1. apply lookup_take_Some in Hi as [Hi Hlt]. eauto.
  - intros (i & Hlt & Hi). apply (list_elem_of_lookup_2 _ i). by rewrite lookup_take_lt.
Qed.

(** At the head of the loop: the children of the root and of the processed
    states are in the queue. *)
Definition opened (qi : nat) (queue : list nat) (p : nat) (c : ascii) : Prop :=
  p = O ∨ p ∈ take qi queue.

Lemma head_ready nodes queue qi p w :
  bfs nodes queue (opened qi queue) → queue !! qi = Some p → names !! p = Some w →
  ready nodes queue (length w).
Proof.
  intros Hb Hqi Hp. split.
  - intros q u Hq Hne Hle. apply (queue_shallow queue (length w)) with (length u) u; try done.
    + intros c q' Hc. apply (b_in _ _ _ Hb _ _ _ Hc). by left.
    + intros p' c q' v Hp' Hv Hlt Hc. apply (b_in _ _ _ Hb _ _ _ Hc). right.
      apply take_elem. apply list_elem_of_lookup_1 in Hp' as (i & Hi). exists i. split; [|done].
      destruct (decide (i < qi)%nat) as [|Hge]; [done|].
      assert (length w ≤ length v)%nat; [|lia]. by eapply (b_sorted _ _ _ Hb qi i); [lia|..].
  - intros q u Hq Hu. assert (Hne : q ≠ O) by (apply (b_nodes _ _ _ Hb) in Hq; lia).
    destruct (parent _ _ _ Hsh _ _ Hu Hne) as (p' & v & c & _ & Hp' & ->).
    assert (Hc : child names p' c q) by by exists v.
    rewrite length_app. simpl. apply (b_in _ _ _ Hb _ _ _ Hc) in Hq as [->|Hq].
    + rewrite (sh_root _ _ _ Hsh) in Hp'. injection Hp' as <-. simpl. lia.
    + apply take_elem in Hq as (i & Hlt & Hi). assert (length v ≤ length w)%nat; [|lia].
      by eapply (b_sorted _ _ _ Hb i qi); [lia|..].
Qed.

Lemma opened_step queue queue' qi p :
  queue !! qi = Some p → queue `prefix_of` queue' →
  ∀ p' c, (opened qi queue p' c ∨ p' = p) ↔ opened (S qi) queue' p' c.
Proof.
  intros Hqi [k ->] p' c. unfold opened.
  rewrite take_app_le by (apply lookup_lt_Some in Hqi; lia).
  rewrite (take_S_r _ _ _ Hqi), elem_of_app, list_elem_of_singleton. tauto.
Qed.

(** What the pass leaves behind. *)
Record linked (nodes : list Node) : Prop := {
  l_starts : edgeStart <$> nodes = starts;
  l_fails : ∀ q, fails_to nodes q;
  l_ends : ∀ q, ends nodes q
}.

Lemma queue_done nodes queue qi :
  bfs nodes queue (opened qi queue) → (length queue ≤ qi)%nat → linked nodes.
Proof.
  intros Hb Hqi.
  assert (Hq : ∀ q w, names !! q = Some w → q ≠ O → q ∈ queue).
  { intros q w Hq Hne. apply (queue_shallow queue (length w)) with (length w) w; try done.
    - intros c q' Hc. apply (b_in _ _ _ Hb _ _ _ Hc). by left.
    - intros p' c q' v Hp' _ _ Hc. apply (b_in _ _ _ Hb _ _ _ Hc). right. by rewrite take_ge. }
  split; [apply Hb| |].
  - intros q n x w Hn Hw. apply (b_fails _ _ _ Hb q) with x; [|done..]. apply (Hq _ _ Hw).
    intros ->. rewrite (sh_root _ _ _ Hsh) in Hw. by simplify_eq.
  - intros q n w Hn Hw. destruct (decide (q = O)) as [->|Hne].
    + apply (root_ends nodes); [|done..]. apply (b_fresh _ _ _ Hb). intros ?%(b_nodes _ _ _ Hb). lia.
    + apply (b_ends _ _ _ Hb q); [by eapply Hq|done..].
Qed.

Lemma link_queue_spec fuel : ∀ qi nodes queue,
  bfs nodes queue (opened qi queue) → (qi ≤ length queue)%nat → (length names < fuel + qi)%nat →
  ∃ nodes', link_queue fuel edges qi (nodes, Z.of_nat <$> queue) = Some nodes' ∧ linked nodes'.
Proof.
  induction fuel as [|fuel IH]; intros qi nodes queue Hb Hqi Hfuel.
  { assert (Hl := queue_bound _ _ _ Hb). lia. }
  cbn [link_queue]. rewrite length_fmap. destruct (Nat.ltb_spec qi (length queue)) as [Hlt|Hge].
  2:{ exists nodes. split; [done|]. by eapply queue_done. }
  destruct (lookup_lt_is_Some_2 _ _ Hlt) as (p & Hp). rewrite list_lookup_fmap, Hp. cbn [fmap option_fmap option_map mbind option_bind].
  assert (Hpn := list_elem_of_lookup_2 _ _ _ Hp). apply (b_nodes _ _ _ Hb) in Hpn as [Hpos Hpn].
  destruct (lookup_lt_is_Some_2 _ _ Hpn) as (w & Hw).
  assert (Hsh' := Hsh). rewrite <-(b_starts _ _ _ Hb) in Hsh'.
  destruct (nodes_shape _ _ _ _ _ Hsh' Hw) as (n & Hn).
  destruct (node_edges _ _ _ _ _ _ Hsh' Hn Hw) as (l & Hl & He & Hlen).
  rewrite at_of_nat, Hn. cbn [mbind option_bind]. rewrite (for_edges_fold _ _ _ _ Hl) by done.
  destruct w as [|x w]; [apply (root_name _ _ _ Hsh) in Hw; lia|].
  assert (Hns : ∀ c, ¬ opened qi queue p c).
  { intros c [->|(i & Hi & Hpi)%take_elem]; [lia|].
    assert (i = qi) by (by eapply (NoDup_lookup _ _ _ _ (b_nodup _ _ _ Hb))). lia. }
  destruct (link_children p x w (opened qi queue) l [] nodes queue) as (nodes' & queue' & -> & Hb' & Hpre); try done.
  { apply (bfs_seen _ _ (opened qi queue)); [|done]. intros p' c. cbn [fmap list_fmap].
    rewrite elem_of_nil. tauto. }
  { by eapply head_ready. }
  cbn [mbind option_bind]. apply IH; [|apply prefix_length in Hpre; lia|lia].
  destruct Hb' as [? ? ? Hin ? ? ? ?]. split; try done. intros p' c q Hc.
  rewrite Hin, <-(opened_step queue queue' qi p) by done. split; [tauto|]. intros [?|Heq]; [by left|].
  right. split; [done|]. subst p'. destruct (proj1 (proj2 He) _ _ Hc) as (e & He' & <- & _).
  by apply list_elem_of_fmap_2.
Qed.

End links.
End KeywordLinks.
