(* ===== verification/KeywordLayout.v ===== *)
(** * The flat arrays of the keyword matcher

    The table of the root, the insertion sort that orders a node's edges, the
    layout of all edges in one slice, and the binary search on it. *)

From S2P Require Import Prelude GoStrings Suffixes KeywordMatcher KeywordTrie KeywordLinks.
Import GoStrings KeywordMatcher KeywordTrie KeywordLinks.

Module KeywordLayout.

Lemma code_inj c d : code c = code d → c = d.
Proof. unfold code. intros E. apply Nat2Z.inj in E. rewrite <-(ascii_nat_embedding c), E. apply ascii_nat_embedding. Qed.

Lemma code_range c : 0 ≤ code c < 256.
Proof. unfold code. assert (H := nat_ascii_bounded c). lia. Qed.

(** Distinct naturals below a bound are at most that many. *)
Lemma NoDup_bounded (l : list nat) n : NoDup l → (∀ x, x ∈ l → (x < n)%nat) → (length l ≤ n)%nat.
Proof.
  intros Hnd Hl. rewrite <-(length_seq n 0). apply submseteq_length, NoDup_submseteq; [done|].
  intros x Hx%Hl. apply elem_of_seq. lia.
Qed.

Lemma labels_bounded (l : list ascii) : NoDup l → (length l ≤ 256)%nat.
Proof.
  intros Hnd. rewrite <-(length_fmap nat_of_ascii). apply NoDup_bounded.
  - apply NoDup_fmap_2; [|done]. intros c d E. apply code_inj. unfold code. by rewrite E.
  - intros x (c & -> & _)%list_elem_of_fmap. apply nat_ascii_bounded.
Qed.

(** ** Sorting *)

Definition label_le (e e' : Edge) : Prop := code (label e) ≤ code (label e').

#[local] Instance label_le_trans : Transitive label_le.
Proof. unfold label_le. intros ?????. lia. Qed.

Lemma sorted_snoc (l : list Edge) e :
  StronglySorted label_le l → (∀ e', e' ∈ l → label_le e' e) → StronglySorted label_le (l ++ [e]).
Proof.
  induction 1 as [|y l Hl IH Hy]; intros He; simpl; [repeat constructor|].
  constructor; [apply IH; intros; apply He; by right|].
  apply Forall_app. split; [done|]. constructor; [apply He; by left|done].
Qed.

Lemma sorted_app_inv (l : list Edge) e :
  StronglySorted label_le (l ++ [e]) → StronglySorted label_le l ∧ ∀ e', e' ∈ l → label_le e' e.
Proof.
  induction l as [|y l IH]; simpl; intros Hs; [split; [constructor|by intros ? ?%not_elem_of_nil]|].
  inversion Hs as [|? ? Hl Hy]; subst. apply IH in Hl as [Hl He]. apply Forall_app in Hy as [Hy Hye].
  split; [by constructor|]. intros e' [->|He']%elem_of_cons; [|auto]. by inversion Hye.
Qed.

Lemma shift_spec current pre : ∀ y post, StronglySorted label_le pre →
  ∃ front, shift (pre ++ y :: post) current (length pre) = Some (front ++ post) ∧
    front ≡ₚ current :: pre ∧ StronglySorted label_le front.
Proof.
  induction pre as [|prev pre IH] using rev_ind; intros y post Hs.
  { exists [current]. simpl. split_and!; [done..|repeat constructor]. }
  apply sorted_app_inv in Hs as [Hs Hprev]. rewrite length_app, Nat.add_1_r. cbn [shift].
  rewrite <-app_assoc. cbn [app]. rewrite list_lookup_middle by done. cbn [mbind option_bind].
  destruct (Z.ltb_spec (code (label current)) (code (label prev))) as [Hlt|Hge].
  - assert (E : <[S (length pre) := prev]> (pre ++ prev :: y :: post) = pre ++ prev :: prev :: post).
    { rewrite insert_app_r_alt by lia. by rewrite Nat.sub_succ_l, Nat.sub_diag by lia. }
    rewrite E. destruct (IH prev (prev :: post) Hs) as (front & -> & Hperm & Hsort).
    exists (front ++ [prev]). rewrite <-app_assoc. split_and!; [done| |].
    + by rewrite Hperm.
    + apply sorted_snoc; [done|]. intros e He. rewrite Hperm in He.
      apply elem_of_cons in He as [->|He]; [unfold label_le; lia|auto].
  - exists (pre ++ [prev] ++ [current]). split_and!.
    + rewrite insert_app_r_alt by lia. rewrite Nat.sub_succ_l, Nat.sub_diag by lia. simpl. by rewrite <-app_assoc.
    + rewrite app_assoc. by rewrite (Permutation_app_comm (pre ++ [prev]) [current]).
    + rewrite app_assoc. apply sorted_snoc; [by apply sorted_snoc|].
      intros e [He| ->%list_elem_of_singleton]%elem_of_app; [|unfold label_le; lia].
      trans prev; [by apply Hprev|unfold label_le; lia].
Qed.

Lemma sort_from_spec rest : ∀ pre, StronglySorted label_le pre →
  ∃ out, sort_from (length rest) (length pre) (pre ++ rest) = Some out ∧
    out ≡ₚ pre ++ rest ∧ StronglySorted label_le out.
Proof.
  induction rest as [|current rest IH]; intros pre Hs.
  { exists pre. rewrite app_nil_r. done. }
  cbn [length sort_from]. rewrite list_lookup_middle by done. cbn [mbind option_bind].
  destruct (shift_spec current pre current rest Hs) as (front & -> & Hperm & Hsort). cbn [mbind option_bind].
  destruct (IH front Hsort) as (out & Ho & Hp & Hout).
  rewrite (Permutation_length Hperm) in Ho. exists out. split_and!; [done| |done].
  rewrite Hp, Hperm. simpl. by rewrite Permutation_middle.
Qed.

Lemma sort_edges_spec (l : list Edge) :
  ∃ out, sort_edges l = Some out ∧ out ≡ₚ l ∧ StronglySorted label_le out.
Proof.
  destruct l as [|e l]; [exists []; split_and!; [done..|constructor]|].
  unfold sort_edges. cbn [length]. rewrite Nat.sub_succ, Nat.sub_0_r.
  apply (sort_from_spec l [e]). repeat constructor.
Qed.

(** ** Searching *)

Lemma sorted_lookup (l : list Edge) i j e e' : StronglySorted label_le l →
  (i < j)%nat → l !! i = Some e → l !! j = Some e' → label_le e e'.
Proof.
  intros Hs. revert i j. induction Hs as [|y l Hl IH Hy]; intros i j Hij Hi Hj; [done|].
  destruct j as [|j]; [lia|]. destruct i as [|i]; simpl in *.
  - injection Hi as <-. by eapply (Forall_lookup_1 _ _ _ _ Hy).
  - eapply (IH i j); [lia|done..].
Qed.

(** [s] is where the sorted slice [out] lies in [edges]. *)
Definition slice (edges : list Edge) (s : nat) (out : list Edge) : Prop :=
  ∀ i e, out !! i = Some e → edges !! (s + i)%nat = Some e.

Definition lower_bound (out : list Edge) (c : ascii) (r : nat) : Prop :=
  (r ≤ length out)%nat ∧
  (∀ i e, (i < r)%nat → out !! i = Some e → code (label e) < code c) ∧
  (∀ i e, (r ≤ i)%nat → out !! i = Some e → code c ≤ code (label e)).

Lemma search_spec edges c s out : slice edges s out → StronglySorted label_le out →
  ∀ fuel lo hi, (lo ≤ hi ≤ length out)%nat → (hi - lo < fuel)%nat →
  (∀ i e, (i < lo)%nat → out !! i = Some e → code (label e) < code c) →
  (∀ i e, (hi ≤ i)%nat → out !! i = Some e → code c ≤ code (label e)) →
  ∃ r, search fuel edges c (Z.of_nat (s + lo)) (Z.of_nat (s + hi)) = Some (Z.of_nat (s + r)) ∧
    lower_bound out c r.
Proof.
  intros Hsl Hs. induction fuel as [|fuel IH]; intros lo hi Hb Hf Hlo Hhi; [lia|]. cbn [search].
  destruct (Z.ltb_spec (Z.of_nat (s + lo)) (Z.of_nat (s + hi))) as [Hlt|Hge].
  2:{ exists lo. split; [done|]. assert (hi = lo) as -> by lia. split; [lia|done]. }
  pose (mid := (lo + (hi - lo) / 2)%nat).
  assert (Hdiv := Nat.div_lt (hi - lo) 2 ltac:(lia) ltac:(lia)).
  assert (E : Z.of_nat (s + lo) + (Z.of_nat (s + hi) - Z.of_nat (s + lo)) / 2 = Z.of_nat (s + mid)).
  { unfold mid. rewrite !Nat2Z.inj_add, Nat2Z.inj_div, Nat2Z.inj_sub by lia.
    replace (Z.of_nat s + Z.of_nat hi - (Z.of_nat s + Z.of_nat lo)) with (Z.of_nat hi - Z.of_nat lo) by lia. lia. }
  rewrite E. assert (Hmid : (lo ≤ mid < hi)%nat) by (unfold mid; lia).
  destruct (lookup_lt_is_Some_2 out mid) as (e & He); [lia|].
  rewrite at_of_nat, (Hsl _ _ He). cbn [mbind option_bind].
  destruct (Z.ltb_spec (code (label e)) (code c)) as [Hl|Hl].
  - replace (Z.of_nat (s + mid) + 1) with (Z.of_nat (s + S mid)) by lia.
    apply IH; [lia|lia| |done]. intros i e' Hi Hi'.
    destruct (decide (i = mid)) as [->|]; [by simplify_eq|].
    assert (Hle := sorted_lookup out i mid e' e Hs ltac:(lia) Hi' He). unfold label_le in Hle. lia.
  - apply IH; [lia|lia|done|]. intros i e' Hi Hi'.
    destruct (decide (i = mid)) as [->|]; [by simplify_eq|].
    assert (Hle := sorted_lookup out mid i e e' Hs ltac:(lia) He Hi'). unfold label_le in Hle. lia.
Qed.

(** The search finds an edge exactly when the slice has one. *)
Lemma lower_bound_found (out : list Edge) c r : StronglySorted label_le out → lower_bound out c r →
  (∃ e, out !! r = Some e ∧ label e = c) ∨
  ((∀ e, out !! r = Some e → label e ≠ c) ∧ ∀ e, e ∈ out → label e ≠ c).
Proof.
  intros Hs (Hr & Hlow & Hhigh).
  assert (Hno : (∀ e, out !! r = Some e → label e ≠ c) → ∀ e, e ∈ out → label e ≠ c).
  { intros Hne e (i & Hi)%list_elem_of_lookup_1 <-. destruct (decide (i < r)%nat) as [Hlt|Hge].
    { assert (H1 := Hlow i e Hlt Hi). lia. }
    destruct (lookup_lt_is_Some_2 out r) as (e' & He'); [apply lookup_lt_Some in Hi; lia|].
    assert (H1 := Hhigh r e' ltac:(lia) He').
    destruct (decide (i = r)) as [->|]; [simplify_eq; by eapply Hne|].
    assert (H2 := sorted_lookup out r i e' e Hs ltac:(lia) He' Hi). unfold label_le in H2.
    apply (Hne _ He'), code_inj. lia. }
  destruct (out !! r) as [e|] eqn:He.
  - destruct (decide (label e = c)) as [E|E]; [left; by exists e|]. right.
    split; [by intros e' [= <-]|]. apply Hno. by intros e' [= <-].
  - right. split; [done|]. by apply Hno.
Qed.

(** ** Layout *)

Section layout.
Context (names : list bytes) (starts : list Z) (buildEdges : list BuildEdge).
Context (Hsh : shape names starts buildEdges).
Implicit Types (nodes : list Node) (edges out : list Edge) (p q i s : nat).

(** The edges of node [q] are a sorted slice, one per child. *)
Record laid (nodes : list Node) (edges : list Edge) (q : nat) (n : Node) (s : nat) (out : list Edge) : Prop := {
  la_node : nodes !! q = Some n;
  la_start : edgeStart n = Z.of_nat s;
  la_count : edgeCount n = Z.of_nat (length out);
  la_end : (s + length out ≤ length edges)%nat;
  la_slice : slice edges s out;
  la_sorted : StronglySorted label_le out;
  la_child : ∀ e, e ∈ out → ∃ q', target e = Z.of_nat q' ∧ child names q (label e) q';
  la_all : ∀ c q', child names q c q' → ∃ e, e ∈ out ∧ label e = c
}.

Lemma fold_collect l : ∀ out, (length out + length l ≤ 256)%nat →
  fold_edges collect l out = Some (out ++ ((λ e, mkEdge (b_target e) (b_label e)) <$> l)).
Proof.
  induction l as [|e l IH]; intros out Hl; [by rewrite app_nil_r|]. cbn [length fold_edges] in *.
  assert (E : collect e out = Some (out ++ [mkEdge (b_target e) (b_label e)])).
  { unfold collect. by destruct (Nat.ltb_spec (length out) 256); [|lia]. }
  rewrite E. cbn [mbind option_bind]. rewrite IH by (rewrite length_app; simpl; lia). by rewrite <-app_assoc.
Qed.

Lemma laid_mono nodes nodes' edges more q n s out :
  laid nodes edges q n s out → nodes' !! q = Some n → laid nodes' (edges ++ more) q n s out.
Proof.
  intros [] Hn. split; try done; [rewrite length_app; lia|].
  intros i e Hi. apply lookup_app_l_Some. by apply la_slice0.
Qed.

(** The edges laid out so far belong to distinct children of the nodes below [i]. *)
Definition placed (edges : list Edge) (i : nat) : Prop :=
  NoDup (target <$> edges) ∧
  ∀ e, e ∈ edges → ∃ p c q, (p < i)%nat ∧ child names p c q ∧ target e = Z.of_nat q.

Lemma placed_bound edges i : placed edges i → (length edges ≤ length names)%nat.
Proof.
  intros [Hnd Hin]. rewrite <-(length_fmap target), <-(length_fmap Z.to_nat). apply NoDup_bounded.
  - apply NoDup_fmap_2_strong; [|done]. intros x y Hx Hy E.
    apply list_elem_of_fmap in Hx as (e & -> & (p & c & q & _ & _ & Hq)%Hin), Hy as (e' & -> & (p' & c' & q' & _ & _ & Hq')%Hin).
    lia.
  - intros x (z & -> & (e & -> & (p & c & q & _ & (w & _ & Hn) & ->)%Hin)%list_elem_of_fmap)%list_elem_of_fmap.
    rewrite Nat2Z.id. by eapply lookup_lt_Some.
Qed.

(** The edges of one node, in sorted order, against its children. *)
Lemma outgoing_spec l out i : edges_of names i l →
  out ≡ₚ ((λ e, mkEdge (b_target e) (b_label e)) <$> l) →
  (∀ e, e ∈ out → ∃ q, target e = Z.of_nat q ∧ child names i (label e) q) ∧
  (∀ c q, child names i c q → ∃ e, e ∈ out ∧ label e = c) ∧
  NoDup (target <$> out) ∧ (length out ≤ 256)%nat.
Proof.
  intros (H1 & H2 & Hnd) Hp.
  assert (Hc : ∀ e, e ∈ out → ∃ q, target e = Z.of_nat q ∧ child names i (label e) q).
  { intros e He. rewrite Hp in He. apply list_elem_of_fmap in He as (b & -> & Hb).
    destruct (H1 b Hb) as (q & Ht & _ & Hc). by exists q. }
  assert (Hlab : NoDup (label <$> out)).
  { rewrite Hp, <-list_fmap_compose. exact Hnd. }
  split_and!; [done| | |by rewrite <-(length_fmap label); apply labels_bounded].
  - intros c q Hcq. destruct (H2 c q Hcq) as (b & Hb & <- & _).
    exists (mkEdge (b_target b) (b_label b)). split; [|done]. rewrite Hp. apply list_elem_of_fmap. by exists b.
  - apply NoDup_fmap_2_strong; [|by eapply NoDup_fmap_1].
    intros e e' He He' E. destruct (Hc _ He) as (q & Hq & Hcq), (Hc _ He') as (q' & Hq' & Hcq').
    assert (q = q') as <- by lia. destruct (child_parent _ _ _ Hsh _ _ _ _ _ Hcq Hcq') as [_ El].
    destruct e, e'; simpl in *. by subst.
Qed.

Lemma placed_app edges out i :
  placed edges i → (∀ e, e ∈ out → ∃ q, target e = Z.of_nat q ∧ child names i (label e) q) →
  NoDup (target <$> out) → placed (edges ++ out) (S i).
Proof.
  intros [Hnd Hin] Hout Hno. split.
  - rewrite fmap_app. apply NoDup_app. split_and!; [done| |done].
    intros z (e & -> & (p & c & q & Hlt & Hc & Hq)%Hin)%list_elem_of_fmap (e' & E & He')%list_elem_of_fmap.
    destruct (Hout _ He') as (q' & Hq' & Hc'). assert (q' = q) as -> by lia.
    destruct (child_parent _ _ _ Hsh _ _ _ _ _ Hc Hc') as [-> _]. lia.
  - intros e [(p & c & q & Hlt & Hc & Hq)%Hin|He]%elem_of_app; [exists p, c, q; split_and!; [lia|done..]|].
    destruct (Hout _ He) as (q & Hq & Hc). exists i, (label e), q. split_and!; [lia|done..].
Qed.

Lemma lay_out_one nodes edges i n :
  length nodes = length names → nodes !! i = Some n → starts !! i = Some (edgeStart n) → placed edges i →
  ∃ out nodes',
    (outgoing ← for_edges (S (length buildEdges)) buildEdges (BuildFirstEdge n) collect [];
     outgoing ← sort_edges outgoing;
     nodes ← update nodes (Z.of_nat i) (λ n,
       set_count (wrapu16 (Z.of_nat (length outgoing))) (set_start (wrapu32 (Z.of_nat (length edges))) n));
     Some (nodes, edges ++ outgoing)) = Some (nodes', edges ++ out) ∧
    nodes' = <[i := set_count (Z.of_nat (length out)) (set_start (Z.of_nat (length edges)) n)]> nodes ∧
    placed (edges ++ out) (S i) ∧
    laid nodes' (edges ++ out) i (set_count (Z.of_nat (length out)) (set_start (Z.of_nat (length edges)) n))
      (length edges) out.
Proof.
  intros Hlen Hn Hs Hpl.
  destruct (lookup_lt_is_Some_2 names i) as (w & Hw); [rewrite <-Hlen; by eapply lookup_lt_Some|].
  destruct (children _ _ _ Hsh i _ w Hs Hw) as (l & Hl & He).
  assert (Hll := siblings_length _ _ _ Hl). destruct He as (He1 & He2 & Hnd).
  assert (Hl256 : (length l ≤ 256)%nat) by (rewrite <-(length_fmap b_label); by apply labels_bounded).
  rewrite BuildFirstEdge_start, (for_edges_fold _ _ _ _ Hl) by lia.
  rewrite fold_collect by done. cbn [mbind option_bind app].
  destruct (sort_edges_spec ((λ e, mkEdge (b_target e) (b_label e)) <$> l)) as (out & -> & Hperm & Hsort).
  cbn [mbind option_bind]. rewrite (update_of_nat _ _ _ n) by done. cbn [mbind option_bind].
  destruct (outgoing_spec l out i (conj He1 (conj He2 Hnd)) Hperm) as (Hc & Hall & Hno & H256).
  assert (Hb := placed_bound _ _ Hpl). assert (Hsm := sh_small _ _ _ Hsh).
  rewrite wrapu32_id by lia. unfold wrapu16. rewrite Z.mod_small by lia.
  exists out, (<[i := set_count (Z.of_nat (length out)) (set_start (Z.of_nat (length edges)) n)]> nodes).
  split_and!; [done..|by apply placed_app|]. split; try done.
  - apply list_lookup_insert_eq. by eapply lookup_lt_Some.
  - rewrite length_app. lia.
  - intros j e Hj. by rewrite lookup_app_r, Nat.add_comm, Nat.add_sub by lia.
Qed.

Lemma lay_out_spec rounds : ∀ i nodes edges,
  (i + rounds = length names)%nat → length nodes = length names →
  (∀ q n, (i ≤ q)%nat → nodes !! q = Some n → starts !! q = Some (edgeStart n)) →
  (∀ q, (q < i)%nat → ∃ n s out, laid nodes edges q n s out) → placed edges i →
  ∃ nodes' edges',
    lay_out rounds buildEdges (Z.of_nat i) nodes edges = Some (nodes', edges') ∧
    failure <$> nodes' = failure <$> nodes ∧ bestKeyword <$> nodes' = bestKeyword <$> nodes ∧
    ∀ q, (q < length names)%nat → ∃ n s out, laid nodes' edges' q n s out.
Proof.
  induction rounds as [|rounds IH]; intros i nodes edges Hi Hlen Hst Hlaid Hpl.
  { exists nodes, edges. split_and!; [done..|]. intros q Hq. apply Hlaid. lia. }
  cbn [lay_out]. destruct (lookup_lt_is_Some_2 nodes i) as (n & Hn); [lia|].
  rewrite at_of_nat, Hn. cbn [mbind option_bind].
  destruct (lay_out_one nodes edges i n) as (out & nodes' & Heq & Hn' & Hpl' & Hla); try done; [by apply Hst|].
  destruct (for_edges _ _ _ _ _) as [o1|]; [|done]. cbn [mbind option_bind] in *.
  destruct (sort_edges o1) as [o2|]; [|done]. cbn [mbind option_bind] in *.
  destruct (update _ _ _) as [nodes2|]; [|done]. cbn [mbind option_bind] in *.
  injection Heq as -> ->%app_inv_head. replace (Z.of_nat i + 1) with (Z.of_nat (S i)) by lia.
  destruct (IH (S i) nodes' (edges ++ out)) as (nodes3 & edges3 & Hl & Hf & Hb & Hall); [lia|..|done|].
  - by rewrite Hn', length_insert.
  - intros q n' Hq. rewrite Hn', list_lookup_insert_ne by lia. apply Hst. lia.
  - intros q Hq. destruct (decide (q = i)) as [->|Hne]; [by eauto|].
    destruct (Hlaid q ltac:(lia)) as (nq & s & o & Hq'). exists nq, s, o.
    eapply laid_mono; [done|]. rewrite Hn', list_lookup_insert_ne by done. apply Hq'.
  - exists nodes3, edges3. split_and!; [done|rewrite Hf|rewrite Hb|done].
    all: rewrite Hn', list_fmap_insert; apply list_insert_id; by rewrite list_lookup_fmap, Hn.
Qed.

(** ** The table of the root *)

Definition table_ok (table : list Z) : Prop :=
  ∀ c, ∃ r, at_ table (code c) = Some r ∧
    ((∃ q, r = Z.of_nat q ∧ child names O c q) ∨ (r = 0 ∧ ¬ known names [c])).

Lemma at_code (table : list Z) c : length table = 256%nat → ∃ r, at_ table (code c) = Some r.
Proof.
  intros Hl. assert (Hc := code_range c). unfold at_. destruct (Z.ltb_spec (code c) 0); [lia|].
  apply lookup_lt_is_Some. lia.
Qed.

Lemma at_update (table : list Z) c d f table' :
  update table (code c) f = Some table' →
  at_ table' (code d) = if decide (c = d) then f <$> at_ table (code d) else at_ table (code d).
Proof.
  assert (Hc := code_range c). assert (Hd := code_range d). unfold update, at_.
  destruct (Z.ltb_spec (code c) 0), (Z.ltb_spec (code d) 0); try lia.
  destruct (table !! Z.to_nat (code c)) as [x|] eqn:E; [|done]. intros [= <-].
  destruct (decide (c = d)) as [->|Hne].
  - rewrite E. apply list_lookup_insert_eq. by eapply lookup_lt_Some.
  - apply list_lookup_insert_ne. intros Eq. apply Hne, code_inj. lia.
Qed.

Lemma root_fold l : ∀ table queue, length table = 256%nat → NoDup (b_label <$> l) →
  ∃ table', fold_edges root_edge l (table, queue) = Some (table', queue ++ (b_target <$> l)) ∧
    length table' = 256%nat ∧
    (∀ e, e ∈ l → at_ table' (code (b_label e)) = Some (b_target e)) ∧
    (∀ c, c ∉ b_label <$> l → at_ table' (code c) = at_ table (code c)).
Proof.
  induction l as [|e l IH]; intros table queue Hlen Hnd.
  { exists table. cbn. rewrite app_nil_r. split_and!; try done. by intros e ?%not_elem_of_nil. }
  cbn [fold_edges root_edge]. apply NoDup_cons in Hnd as [Hnin Hnd].
  destruct (at_code table (b_label e) Hlen) as (x & Hx).
  assert (Hup : ∃ t1, update table (code (b_label e)) (λ _, b_target e) = Some t1 ∧ length t1 = 256%nat).
  { unfold update. rewrite Hx. cbn. eexists. split; [done|]. by rewrite length_insert. }
  destruct Hup as (t1 & Hup & Hl1). rewrite Hup. cbn [mbind option_bind].
  destruct (IH t1 (queue ++ [b_target e]) Hl1 Hnd) as (t2 & -> & Hl2 & Hin & Hout).
  exists t2. rewrite <-app_assoc. split_and!; [done..| |].
  - intros e' [->|He']%elem_of_cons; [|by apply Hin].
    rewrite (Hout _ Hnin), (at_update _ _ _ _ _ Hup), Hx. by rewrite decide_True.
  - intros c Hc. apply not_elem_of_cons in Hc as [Hne Hc].
    rewrite (Hout _ Hc), (at_update _ _ _ _ _ Hup). by rewrite decide_False by congruence.
Qed.

Lemma root_table l : edges_of names O l →
  ∃ table, fold_edges root_edge l (replicate 256 0, []) = Some (table, b_target <$> l) ∧ table_ok table.
Proof.
  intros (H1 & H2 & Hnd). assert (Hrep : length (replicate 256 0) = 256%nat) by apply length_replicate.
  destruct (root_fold l (replicate 256 0) [] Hrep Hnd) as (table & Hf & _ & Hin & Hout).
  exists table. split; [done|]. intros c. destruct (decide (c ∈ b_label <$> l)) as [Hc|Hc].
  - apply list_elem_of_fmap in Hc as (e & -> & He). destruct (H1 e He) as (q & Ht & _ & Hq).
    exists (b_target e). split; [by apply Hin|]. left. by exists q.
  - exists 0. split.
    + rewrite (Hout _ Hc). assert (Hr := code_range c). unfold at_.
      destruct (Z.ltb_spec (code c) 0); [lia|]. apply lookup_replicate_2. lia.
    + right. split; [done|]. intros (q & Hq)%list_elem_of_lookup_1. apply Hc.
      destruct (H2 c q) as (e & He & <- & _); [|by apply list_elem_of_fmap_2].
      exists []. split; [apply (sh_root _ _ _ Hsh)|done].
Qed.

(** ** Reading a label *)

Lemma next_spec (m : Matcher) q w c :
  table_ok (m_rootTransitions m) → length (m_nodes m) = length names →
  (∀ q, (q < length names)%nat → ∃ n s out, laid (m_nodes m) (m_edges m) q n s out) →
  names !! q = Some w →
  ∃ r, next m (Z.of_nat q) c = Some r ∧
    ((∃ q', r = Z.of_nat q' ∧ child names q c q') ∨ (r = 0 ∧ ¬ known names (w ++ [c]))).
Proof.
  intros Htab Hlen Hlaid Hq. unfold next. destruct (Z.eqb_spec (Z.of_nat q) 0) as [E|E].
  { assert (q = O) as -> by lia. rewrite (sh_root _ _ _ Hsh) in Hq. injection Hq as <-. apply Htab. }
  assert (Hlt := lookup_lt_Some _ _ _ Hq). destruct (Hlaid q Hlt) as (n & s & out & [Hn Hs Hc He Hsl Hso Hch Hall]).
  destruct (Z.ltb_spec (Z.of_nat q) 0), (Z.leb_spec (Z.of_nat (length (m_nodes m))) (Z.of_nat q)); try lia.
  cbn [orb]. rewrite at_of_nat, Hn. cbn [mbind option_bind]. rewrite Hs, Hc, Nat2Z.id, <-Nat2Z.inj_add.
  assert (Hsearch := search_spec (m_edges m) c s out Hsl Hso (S (length out)) O (length out)).
  rewrite Nat.add_0_r in Hsearch. destruct Hsearch as (r & -> & Hr); [lia|lia|intros; lia| |].
  { intros i e Hi Hi'. apply lookup_lt_Some in Hi'. lia. }
  cbn [mbind option_bind].
  assert (Hfound := lower_bound_found out c r Hso Hr). destruct Hr as (Hr & _).
  destruct (Z.ltb_spec (Z.of_nat (s + r)) (Z.of_nat (s + length out))) as [Hin|Hge].
  - destruct (lookup_lt_is_Some_2 out r) as (e & He'); [lia|].
    rewrite at_of_nat, (Hsl _ _ He'). cbn [mbind option_bind]. eexists. split; [done|].
    destruct Hfound as [(e' & He'' & <-)|[Hne Hno]].
    + simplify_eq. rewrite decide_True by done. left.
      by apply Hch, list_elem_of_lookup_2 with r.
    + rewrite decide_False by by apply Hne. right. split; [done|].
      intros (q' & Hq')%list_elem_of_lookup_1. destruct (Hall c q') as (e' & Hin' & Hl); [by exists w|].
      by apply (Hno e').
  - eexists. split; [done|]. right. split; [done|]. intros (q' & Hq')%list_elem_of_lookup_1.
    destruct (Hall c q') as (e' & Hin' & Hl); [by exists w|].
    destruct Hfound as [(e & He' & _)|[_ Hno]]; [apply lookup_lt_Some in He'; lia|by apply (Hno e')].
Qed.

End layout.

End KeywordLayout.
