(* ===== verification/KeywordCorrect.v ===== *)
(** * The keyword matcher finds what the linear search finds

    Running the automaton keeps the longest suffix of the text read that is a
    node, so that the smallest keyword seen is the first one the text contains. *)

From S2P Require Import Prelude GoStrings Suffixes KeywordMatcher KeywordTrie KeywordLinks KeywordLayout.
Import GoStrings KeywordMatcher KeywordTrie KeywordLinks KeywordLayout.

Module KeywordCorrect.

(** ** The linear search by index *)

Section search.
Context `{Unicode}.

Definition pick (keywords : list bytes) (i : Z) : option (bytes * bool) :=
  if i <? 0 then Some miss else keyword ← at_ keywords i; Some (keyword, true).

(** The first keyword a text contains. *)
Definition best_contained (keywords : list bytes) (t : bytes) : Z :=
  first_index (Contains t) 0 keywords.

Lemma pick_cons k keywords i : 0 ≤ i → pick (k :: keywords) (i + 1) = pick keywords i.
Proof.
  intros Hi. unfold pick, at_. destruct (Z.ltb_spec (i + 1) 0), (Z.ltb_spec i 0); try lia.
  by rewrite Z.add_1_r, Z2Nat.inj_succ.
Qed.

Lemma first_index_shift P keywords i : 0 ≤ i →
  first_index P (i + 1) keywords = if first_index P i keywords <? 0 then -1 else first_index P i keywords + 1.
Proof.
  revert i. induction keywords as [|k ks IH]; intros i Hi; simpl; [done|].
  destruct (_ && _); [by destruct (Z.ltb_spec i 0); [lia|]|]. by apply IH; lia.
Qed.

Lemma first_contained_pick lower keywords :
  Some (first_contained lower keywords) = pick keywords (best_contained keywords lower).
Proof.
  induction keywords as [|k ks IH]; [done|]. cbn [first_contained]. unfold best_contained in *. cbn [first_index].
  assert (Hb := first_index_bound (Contains lower) ks 0 ltac:(done)).
  assert (Hstep : Some (first_contained lower ks) = pick (k :: ks) (first_index (Contains lower) (0 + 1) ks)).
  { rewrite first_index_shift, IH by done. destruct (Z.ltb_spec (first_index (Contains lower) 0 ks) 0).
    - unfold pick. by destruct (Z.ltb_spec (first_index (Contains lower) 0 ks) 0); [|lia].
    - by rewrite pick_cons. }
  destruct (decide (k = [])) as [->|Hne]; [done|]. rewrite bool_decide_eq_true_2 by done. cbn [andb].
  by destruct (Contains lower (ToLower k)).
Qed.

Lemma contains_snoc t c v : Contains (t ++ [c]) v = Contains t v || bool_decide (v `suffix_of` t ++ [c]).
Proof.
  apply eq_true_iff_eq. rewrite orb_true_iff, bool_decide_eq_true, !Contains_spec. split.
  - intros (k1 & k2 & E). destruct k2 as [|d k2 _] using rev_ind.
    + right. exists k1. by rewrite E, app_nil_r.
    + left. exists k1, k2. rewrite !app_assoc in E. apply app_inj_tail in E as [-> _]. by rewrite app_assoc.
  - intros [(k1 & k2 & ->)|[k1 ->]].
    + exists k1, (k2 ++ [c]). by rewrite <-!app_assoc.
    + exists k1, []. by rewrite app_nil_r.
Qed.

Lemma best_contained_snoc keywords t c :
  best_contained keywords (t ++ [c]) = minKeywordIndex (best_contained keywords t) (best_suffix keywords (t ++ [c])).
Proof.
  unfold best_contained, best_suffix. rewrite first_index_or by done.
  apply first_index_ext. intros. apply contains_snoc.
Qed.

(** Once the very first keyword is found, reading on changes nothing. *)
Lemma best_contained_zero keywords t more :
  best_contained keywords t = 0 → best_contained keywords (t ++ more) = 0.
Proof.
  destruct keywords as [|k ks]; [done|]. unfold best_contained. cbn [first_index].
  assert (Hb := first_index_bound (Contains t) ks (0 + 1) ltac:(done)).
  destruct (bool_decide (k ≠ []) && Contains t (ToLower k)) eqn:E; [intros _|lia].
  apply andb_true_iff in E as [-> (k1 & k2 & ->)%Contains_spec]. cbn [andb].
  rewrite (proj2 (Contains_spec _ _)); [done|]. exists k1, (k2 ++ more). by rewrite <-!app_assoc.
Qed.

End search.

(** ** Running the automaton *)

Section run.
Context `{Unicode} (keywords names : list bytes) (starts : list Z) (edges : list BuildEdge) (m : Matcher).
Context (Hsh : shape names starts edges) (Hall : all_known names keywords).
Context (Hlower : ∀ k, k ∈ keywords → k ≠ [] → ToLower k ≠ []).
Context (Hkeywords : m_keywords m = keywords) (Hlen : length (m_nodes m) = length names).
Context (Htable : table_ok names (m_rootTransitions m)).
Context (Hlaid : ∀ q, (q < length names)%nat → ∃ n s out, laid names (m_nodes m) (m_edges m) q n s out).
Context (Hfails : ∀ q, fails_to names (m_nodes m) q) (Hends : ∀ q, ends keywords names (m_nodes m) q).

Lemma m_node q w : names !! q = Some w → ∃ n, m_nodes m !! q = Some n.
Proof. intros Hq. apply lookup_lt_is_Some. rewrite Hlen. by eapply lookup_lt_Some. Qed.

Lemma advance_spec t c fuel : ∀ f u,
  names !! f = Some u → u `suffix_of` t → ruled_out (known names) t u c → (length u < fuel)%nat →
  ∃ g v, advance fuel m (Z.of_nat f) c = Some (Z.of_nat g) ∧ names !! g = Some v ∧
    longest (known names) (t ++ [c]) v.
Proof.
  assert (Hpc := known_prefix_closed _ _ _ Hsh).
  induction fuel as [|fuel IH]; intros f u Hf Hs Hr Hfuel; [lia|]. cbn [advance].
  destruct (next_spec _ _ _ Hsh m f u c Htable Hlen Hlaid Hf) as (r & -> & Hcase). cbn [mbind option_bind].
  destruct Hcase as [(q & -> & Hc)|[-> Hno]].
  - assert (Hpos := child_not_root _ _ _ Hsh _ _ _ Hc). destruct Hc as (w & Hw & Hq). simplify_eq.
    destruct (Z.eqb_spec (Z.of_nat q) 0); [lia|]. exists q, (u ++ [c]). split_and!; [done..|].
    apply longest_read; try done. by eapply list_elem_of_lookup_2.
  - cbn [Z.eqb negb]. destruct (Z.eqb_spec (Z.of_nat f) 0) as [E|E].
    { assert (f = O) as -> by lia. exists O, []. rewrite (sh_root _ _ _ Hsh) in *. injection Hf as <-.
      split_and!; [done..|]. apply longest_none; try done. apply (known_nil _ _ _ Hsh). }
    destruct u as [|x u]; [apply (root_name _ _ _ Hsh) in Hf; lia|].
    destruct (m_node _ _ Hf) as (n & Hn). rewrite at_of_nat, Hn. cbn [mbind option_bind].
    destruct (Hfails _ _ _ _ Hn Hf) as (g & v & -> & Hg & Hlong).
    assert (Hvu : (length v ≤ length u)%nat) by (apply suffix_length, Hlong).
    apply (IH g v); [done| |by eapply ruled_out_follow|simpl in Hfuel; lia].
    trans u; [apply Hlong|]. by eapply suffix_cons_l.
Qed.

Lemma ends_suffix q n u t :
  m_nodes m !! q = Some n → names !! q = Some u → longest (known names) t u →
  bestKeyword n = best_suffix keywords t.
Proof.
  intros Hn Hu (Wu & Su & Mu). rewrite (Hends _ _ _ Hn Hu). apply first_index_ext. intros k Hk Hne.
  apply bool_decide_ext. split; intros Hs; [by trans u|]. apply Mu; [by apply Hall|done].
Qed.

Lemma keyword_scan_spec lower : ∀ t q u,
  names !! q = Some u → longest (known names) t u →
  scan m lower (Z.of_nat q) (best_contained keywords t) = pick keywords (best_contained keywords (t ++ lower)).
Proof.
  induction lower as [|c lower IH]; intros t q u Hq Hlong.
  { rewrite app_nil_r. cbn [scan]. rewrite Hkeywords. unfold pick.
    destruct (first_index_bound (Contains t) keywords 0 ltac:(done)) as [E|E]; unfold best_contained in *.
    - by rewrite E.
    - destruct (Z.ltb_spec (first_index (Contains t) 0 keywords) 0),
        (Z.leb_spec (Z.of_nat (length keywords)) (first_index (Contains t) 0 keywords)); try lia. done. }
  cbn [scan].
  destruct (advance_spec t c (S (length (m_nodes m))) q u Hq) as (g & v & -> & Hg & Hlv).
  { apply Hlong. }
  { by apply ruled_out_start. }
  { rewrite Hlen. assert (Hd := depth_bound _ _ _ Hsh u ltac:(by eapply list_elem_of_lookup_2)). lia. }
  cbn [mbind option_bind]. destruct (m_node _ _ Hg) as (n & Hn). rewrite at_of_nat, Hn. cbn [mbind option_bind].
  rewrite (ends_suffix _ _ _ _ Hn Hg Hlv), <-best_contained_snoc.
  replace (t ++ c :: lower) with ((t ++ [c]) ++ lower) by by rewrite <-app_assoc.
  destruct (Z.eqb_spec (best_contained keywords (t ++ [c])) 0) as [E|E]; [|by eapply IH].
  rewrite (best_contained_zero _ _ lower E), Hkeywords. unfold pick. done.
Qed.

Lemma match_spec text : keywords ≠ [] →
  Match (Some m) text = Some (matchBlockedKeyword text keywords).
Proof.
  intros Hne. unfold Match, matchBlockedKeyword. rewrite Hlen, Hkeywords.
  assert (Hpos := lookup_lt_Some _ _ _ (sh_root _ _ _ Hsh)).
  destruct (Nat.eqb_spec (length names) 0); [lia|].
  destruct (Nat.eqb_spec (length keywords) 0) as [E|E]; [by apply nil_length_inv in E|].
  rewrite !orb_false_r. destruct (bool_decide_reflect (text = [])); [done|].
  rewrite first_contained_pick.
  trans (scan m (ToLower text) (Z.of_nat 0) (best_contained keywords [])).
  - f_equal. symmetry. apply first_index_none. intros k Hk Hk'.
    apply not_true_iff_false. rewrite Contains_spec. intros (k1 & k2 & E').
    symmetry in E'. apply app_nil in E' as [_ E']. apply app_nil in E' as [E' _]. by eapply Hlower.
  - apply (keyword_scan_spec (ToLower text) [] O []); [apply (sh_root _ _ _ Hsh)|].
    split_and!; [apply (known_nil _ _ _ Hsh)|done|]. by intros v _ Hv.
Qed.

End run.

(** ** The matcher built from the keywords *)

Section built.
Context `{Unicode}.

(** [strings.ToLower] maps letter by letter: what is not empty stays so. *)
Definition keeps_nonempty : Prop := ∀ s, s ≠ [] → ToLower s ≠ [].

Lemma root_child_word names starts edges q c : shape names starts edges →
  child names O c q → names !! q = Some [c].
Proof. intros Hsh (w & Hw & Hq). rewrite (sh_root _ _ _ Hsh) in Hw. by injection Hw as <-. Qed.

Lemma single_link keywords names nodes starts edges q c n :
  shape names starts edges → all_known names keywords → values names nodes (best_exact keywords) →
  (∀ k, k ∈ keywords → k ≠ [] → ToLower k ≠ []) →
  names !! q = Some [c] → nodes !! q = Some n →
  fails_to names nodes q ∧ ends keywords names nodes q.
Proof.
  intros Hsh Hall Hv Hlow Hq Hn. destruct (Hv _ _ _ Hn Hq) as [Hf Hb]. split.
  - intros n' x w Hn' Hw. simplify_eq. exists O, []. split_and!; [done|apply (sh_root _ _ _ Hsh)|].
    split_and!; [apply (known_nil _ _ _ Hsh)|done|by intros].
  - intros n' w Hn' Hw. simplify_eq. rewrite Hb. apply first_index_ext. intros k Hk Hne.
    apply bool_decide_ext. rewrite suffix_cons_iff. split; [by left|].
    intros [?|Hs%suffix_nil_inv]; [done|]. by destruct (Hlow k Hk Hne).
Qed.

Lemma fresh_bfs keywords names nodes edges l :
  shape names (edgeStart <$> nodes) edges → all_known names keywords →
  values names nodes (best_exact keywords) → (∀ k, k ∈ keywords → k ≠ [] → ToLower k ≠ []) →
  edges_of names O l →
  ∃ queue, b_target <$> l = Z.of_nat <$> queue ∧
    bfs keywords names (edgeStart <$> nodes) nodes queue (opened 0 queue).
Proof.
  intros Hsh Hall Hv Hlow He. assert (He' := He). destruct He' as (H1 & H2 & Hnd).
  set (queue := Z.to_nat <$> (b_target <$> l)). exists queue.
  assert (Hin : ∀ q, q ∈ queue ↔ ∃ c, child names O c q).
  { intros q. split.
    - intros (z & -> & (e & -> & He')%list_elem_of_fmap)%list_elem_of_fmap.
      destruct (H1 e He') as (q' & -> & _ & Hc). rewrite Nat2Z.id. by exists (b_label e).
    - intros (c & Hc). destruct (H2 c q Hc) as (e & He' & _ & Ht). rewrite <-(Nat2Z.id q), <-Ht.
      by do 2 apply list_elem_of_fmap_2. }
  assert (Hword : ∀ q, q ∈ queue → ∃ c n, names !! q = Some [c] ∧ nodes !! q = Some n).
  { intros q (c & Hc)%Hin. apply (root_child_word _ _ _ _ _ Hsh) in Hc.
    destruct (nodes_shape _ _ _ _ _ Hsh Hc) as (n & Hn). by exists c, n. }
  assert (Hlen : ∀ q w, q ∈ queue → names !! q = Some w → length w = 1%nat).
  { intros q w (c & n & Hc & _)%Hword Hw. by simplify_eq. }
  split.
  { unfold queue. rewrite <-!list_fmap_compose. apply list_fmap_ext. intros i e Hi. simpl.
    destruct (H1 e) as (q & -> & _); [by eapply list_elem_of_lookup_2|]. lia. }
  split; try done.
  - unfold queue. rewrite <-list_fmap_compose. apply NoDup_fmap_2_strong; [|by eapply NoDup_fmap_1].
    intros e e' He1 He2 E. apply (edges_label_unique names O l); [done..|].
    destruct (H1 e He1) as (q & Hq & _ & Hc), (H1 e' He2) as (q' & Hq' & _ & Hc').
    simpl in E. assert (q = q') as <- by lia. by destruct (child_parent _ _ _ Hsh _ _ _ _ _ Hc Hc').
  - intros q Hq. destruct (Hword q Hq) as (c & n & Hc & _). split; [|by eapply lookup_lt_Some].
    apply Hin in Hq as (d & Hd). by eapply child_not_root.
  - intros p c q Hc. unfold opened. rewrite Hin. split.
    + intros (d & Hd). left. by destruct (child_parent _ _ _ Hsh _ _ _ _ _ Hd Hc).
    + intros [->|Hp]; [by exists c|]. by apply not_elem_of_nil in Hp.
  - intros i j p q v w _ Hi Hj Hp Hq.
    rewrite (Hlen p v), (Hlen q w); eauto using list_elem_of_lookup_2.
  - intros q Hq. destruct (Hword q Hq) as (c & n & Hc & Hn). by eapply single_link.
  - intros q Hq. destruct (Hword q Hq) as (c & n & Hc & Hn). by eapply single_link.
  - intros q _ n w Hn Hw. by eapply Hv.
Qed.

Lemma field_kept {A B} (f : A → B) (l l' : list A) i x :
  f <$> l' = f <$> l → l' !! i = Some x → ∃ y, l !! i = Some y ∧ f y = f x.
Proof.
  intros E Hx. assert (Hi : (f <$> l) !! i = Some (f x)) by by rewrite <-E, list_lookup_fmap, Hx.
  rewrite list_lookup_fmap in Hi. destruct (l !! i) as [y|]; [|done]. injection Hi as Hy. by exists y.
Qed.

(** The automaton that the construction leaves behind. *)
Lemma built_spec keywords :
  (∀ k, k ∈ keywords → k ≠ [] → ToLower k ≠ []) →
  trie_size keywords + 1 < 2 ^ 31 → Z.of_nat (length keywords) < 2 ^ 31 →
  (new_matcher keywords = Some None ∧ ∀ k, k ∈ keywords → k = []) ∨
  ∃ m, new_matcher keywords = Some (Some m) ∧ keywords ≠ [] ∧
    ∀ text, Match (Some m) text = Some (matchBlockedKeyword text keywords).
Proof.
  intros Hlow Hsize Hcount. unfold new_matcher. destruct (decide (keywords = [])) as [->|Hne].
  { left. split; [done|]. by intros k ?%not_elem_of_nil. }
  destruct (trie_built keywords Hsize Hcount) as (names & nodes & edges & -> & Hsh & Hv & Hall).
  cbn [mbind option_bind]. assert (Hlen := sh_nodes _ _ _ Hsh). rewrite length_fmap in Hlen.
  destruct (Nat.eqb_spec (length nodes) 1) as [E|E].
  { left. split; [done|]. intros k Hk. destruct (decide (k = [])) as [?|Hk']; [done|].
    destruct (Hlow k Hk Hk'). assert (Hin := depth_bound _ _ _ Hsh _ (Hall k Hk Hk')).
    apply nil_length_inv. lia. }
  right. assert (Hroot := sh_root _ _ _ Hsh).
  destruct (nodes_shape _ _ _ _ _ Hsh Hroot) as (root & Hr).
  destruct (node_edges _ _ _ _ _ _ Hsh Hr Hroot) as (l & Hl & He & Hll).
  assert (Hat : at_ nodes 0 = Some root) by exact Hr. rewrite Hat. cbn [mbind option_bind].
  rewrite (for_edges_fold _ _ _ _ Hl) by done.
  destruct (root_table _ _ _ Hsh l He) as (table & -> & Htab). cbn [mbind option_bind].
  destruct (fresh_bfs keywords names nodes edges l) as (queue & -> & Hb); try done.
  destruct (link_queue_spec keywords names _ edges Hsh Hall Hlow (S (length nodes)) 0 nodes queue Hb)
    as (nodes1 & -> & [Hst Hf Hends]); [lia|lia|]. cbn [mbind option_bind].
  assert (Hlen1 : length nodes1 = length names).
  { rewrite <-Hlen, <-(length_fmap edgeStart nodes1), Hst. apply length_fmap. }
  destruct (lay_out_spec names _ edges Hsh (length nodes1) 0 nodes1 [])
    as (nodes2 & edges2 & Hlay & Hf2 & Hb2 & Hlaid); [lia|done| |intros; lia| |].
  { intros q n _ Hn. by rewrite <-Hst, list_lookup_fmap, Hn. }
  { split; [constructor|]. by intros e ?%not_elem_of_nil. }
  change (Z.of_nat 0) with 0 in Hlay. rewrite Hlay. cbn [mbind option_bind].
  eexists. split; [done|]. split; [done|]. intros text.
  assert (Hlen2 : length nodes2 = length names).
  { rewrite <-Hlen1, <-(length_fmap failure nodes2), Hf2. apply length_fmap. }
  eapply match_spec; try done.
  - intros q n x w Hn Hw. destruct (field_kept _ _ _ _ _ Hf2 Hn) as (n1 & Hn1 & <-). by eapply Hf.
  - intros q n w Hn Hw. destruct (field_kept _ _ _ _ _ Hb2 Hn) as (n1 & Hn1 & <-). by eapply Hends.
Qed.

(** C24: [Match] of the automaton built from the keywords never panics and gives
    exactly the answer of the linear search it replaces - the first keyword of
    the configuration that the text contains, ignoring case - for every list of
    keywords and every text, and so does the snapshot that holds it.  The
    automaton's indices are [int32]: the keywords are assumed to need fewer than
    2^31 nodes. *)
Theorem matcher_finds_first_keyword keywords text :
  keeps_nonempty → trie_size keywords + 1 < 2 ^ 31 → Z.of_nat (length keywords) < 2 ^ 31 →
  ∃ m, new_matcher keywords = Some m ∧
    Match m text = Some (matchBlockedKeyword text keywords) ∧
    snapshot_match (Some (mkSnapshot (Some keywords) m)) text = Some (matchBlockedKeyword text keywords).
Proof.
  intros Hlow Hsize Hcount.
  destruct (built_spec keywords) as [[Hm Hempty]|(m & Hm & Hne & Hmatch)]; [|done..| |].
  { intros k _. apply Hlow. }
  - exists None. split_and!; [done| |done]. simpl. f_equal. unfold matchBlockedKeyword.
    destruct (_ || _); [done|]. clear Hm Hsize Hcount.
    induction keywords as [|k ks IH]; [done|]. simpl.
    rewrite decide_True by (apply Hempty; by left). apply IH. intros k' Hk'. apply Hempty. by right.
  - exists (Some m). split_and!; [done|apply Hmatch..].
Qed.

End built.

(** ** At concrete keywords *)

#[local] Instance ascii_lower_case : Unicode :=
  map (λ c, if within 65 90 c then byte_of (Z.to_nat (code c + 32)) else c).

Definition demo_keywords : list bytes := lit <$> [""; "abcd"; "bcX"; "cz"; "CZ"; "z"]%string.

Lemma matcher_finds_first_keyword_witness :
  match new_matcher demo_keywords with
  | Some m => Match m (lit "aABcZ"%string) = Some (lit "cz"%string, true) ∧ length (match m with Some m => m_nodes m | None => [] end) = 11%nat
  | None => False
  end.
Proof.
  destruct (matcher_finds_first_keyword demo_keywords (lit "aABcZ"%string)) as (m & Hm & Hmatch & _).
  - intros [|c s] Hs; [by destruct Hs|discriminate].
  - vm_compute. reflexivity.
  - vm_compute. reflexivity.
  - rewrite Hm. split.
    + rewrite Hmatch. vm_compute. reflexivity.
    + vm_compute in Hm. injection Hm as <-. reflexivity.
Defined.

End KeywordCorrect.
