(* ===== verification/WSPreempt.v ===== *)
(** * One WebSocket connection per session: the newer preempts the older

    Models [service/openai_ws_session_preemption.go] with the scripts of
    [repository/gateway_cache.go].  A client that reconnects opens a second connection
    for its session; the newer one is to replace the older.  Within a process a
    registry, guarded by a mutex, calls the older connection's [cancel]; between
    processes the connections take an owner key in Redis from each other and look
    every two seconds whether they still hold it.  The connections' goroutines are steps
    of a transition system; each step is one atomic action of one of them. *)

From S2P Require Import Prelude GoStrings Interleaving.

Module WSPreempt.
Import GoStrings.

(** ** Whether a connection takes part *)

(** [openAIWSSessionPreemptKey]: group, API key, session hash. *)
Abbreviation Key := (Z * Z * bytes)%type.

Definition newOpenAIWSSessionPreemptKey (groupID apiKeyID : Z) (sessionHash : bytes) : option Key :=
  let sessionHash := TrimSpace sessionHash in
  if (groupID <=? 0) || (apiKeyID <=? 0) || bool_decide (sessionHash = []) then None
  else Some (groupID, apiKeyID, sessionHash).

Inductive IngressMode := ModeOff | ModeShared | ModeDedicated | ModeCtxPool | ModePassthrough | ModeHTTPBridge.

Record IngressAccount := mkIngressAccount {
  ia_OpenAI : bool;               (* platform *)
  ia_OAuth : bool;                (* type *)
  ia_mode : IngressMode           (* [ResolveOpenAIResponsesWebSocketV2Mode] *)
}.

Inductive arming := Reused | NotArmed | Armed (k : Key).

(** The guards of [BeginOpenAIWSIngressSessionPreemptionWithClient] and
    [beginOpenAIWSSessionPreemptContext]: [nested] when the context carries a
    registration already; [scope] is the execution scope of the request. *)
Definition arm (nested modeRouterV2 : bool) (account : option IngressAccount) (groupID apiKeyID : Z) (scope : bytes) : arming :=
  if nested then Reused
  else
    match account with
    | None => NotArmed
    | Some a =>
        if modeRouterV2 && match ia_mode a with ModePassthrough | ModeHTTPBridge => true | _ => false end then NotArmed
        else if negb (ia_OpenAI a) || negb (ia_OAuth a) then NotArmed
        else match newOpenAIWSSessionPreemptKey groupID apiKeyID scope with Some k => Armed k | None => NotArmed end
    end.

(** ** State *)

Definition openAIWSSessionPreemptOwnerTTL : duration := 2 * hour.

(** Where a connection stands: in [Begin...], running, or in its cleanup. *)
Inductive stage :=
  | Claiming                          (* about to claim the owner key *)
  | Registering                       (* about to enter the registry *)
  | Preempting (previous : option nat)  (* about to call [previous.cancel] *)
  | Arming                            (* about to start the watch *)
  | Running
  | Unregistering                     (* the watch was told to stop *)
  | Releasing
  | Closed.

Inductive watch := NotWatching | Watching | LostOwner.  (* about to call [onLost] *)
#[export] Instance watch_eq_dec : EqDecision watch.
Proof. solve_decision. Defined.

Record Conn := mkConn {
  cn_proc : nat;
  cn_key : Key;
  cn_notify : bool;          (* there is a client connection to close first *)
  cn_stage : stage;
  cn_claimed : bool;         (* [remoteClaimed] *)
  cn_previous : bool;        (* [preemptedPrevious] *)
  cn_generation : N;
  cn_preempted : bool;       (* [state.preempted], set inside [preemptOnce] *)
  cn_cancelled : bool;       (* the context *)
  cn_watch : watch
}.

Definition at_stage (st : stage) (c : Conn) : Conn :=
  mkConn (cn_proc c) (cn_key c) (cn_notify c) st (cn_claimed c) (cn_previous c) (cn_generation c) (cn_preempted c)
    (cn_cancelled c) (cn_watch c).
Definition with_watch (w : watch) (c : Conn) : Conn :=
  mkConn (cn_proc c) (cn_key c) (cn_notify c) (cn_stage c) (cn_claimed c) (cn_previous c) (cn_generation c) (cn_preempted c)
    (cn_cancelled c) w.
Definition cancelled (c : Conn) : Conn :=
  mkConn (cn_proc c) (cn_key c) (cn_notify c) (cn_stage c) (cn_claimed c) (cn_previous c) (cn_generation c) (cn_preempted c)
    true (cn_watch c).

(** The cleanup has begun: [stopCh] is closed. *)
Definition stopped (cn : Conn) : bool :=
  match cn_stage cn with Unregistering | Releasing | Closed => true | _ => false end.

(** [openAIWSSessionPreemptRegistry] *)
Record Registry := mkRegistry { next : N; registered : gmap Key (N * nat) }.
Definition new_registry : Registry := mkRegistry 0 ∅.

(** [owners]: the owner key of each session in Redis, with its expiry; a connection's
    token is its number.  [turns]: the turn state and connection bound to a session, in
    the memory of a process. *)
Record State := mkState {
  now : time;
  owners : gmap Key (nat * time);
  procs : gmap nat Registry;
  conns : gmap nat Conn;
  turns : gset (nat * Z * bytes)
}.

Definition registry_of (p : nat) (s : State) : Registry := default new_registry (procs s !! p).

Definition with_owners (o : gmap Key (nat * time)) (s : State) : State := mkState (now s) o (procs s) (conns s) (turns s).
Definition with_registry (p : nat) (r : Registry) (s : State) : State :=
  mkState (now s) (owners s) (<[p := r]> (procs s)) (conns s) (turns s).
Definition with_conn (c : nat) (cn : Conn) (s : State) : State :=
  mkState (now s) (owners s) (procs s) (<[c := cn]> (conns s)) (turns s).
Definition with_turns (f : gset (nat * Z * bytes) → gset (nat * Z * bytes)) (s : State) : State :=
  mkState (now s) (owners s) (procs s) (conns s) (f (turns s)).

Definition session_of (cn : Conn) : nat * Z * bytes := let '(g, _, h) := cn_key cn in (cn_proc cn, g, h).

(** ** The scripts *)

Definition owner (k : Key) (s : State) : option nat :=
  match owners s !! k with Some (t, expiry) => if now s <? expiry then Some t else None | None => None end.

Definition ClaimOpenAIResponsesSessionWindow (k : Key) (t : nat) (s : State) : option nat * State :=
  (owner k s, with_owners (<[k := (t, now s + openAIWSSessionPreemptOwnerTTL)]> (owners s)) s).

Definition CompareAndRefreshOpenAIResponsesSessionWindow (k : Key) (t : nat) (s : State) : bool * State :=
  if bool_decide (owner k s = Some t)
  then (true, with_owners (<[k := (t, now s + openAIWSSessionPreemptOwnerTTL)]> (owners s)) s)
  else (false, s).

Definition CompareAndDeleteOpenAIResponsesSessionWindow (k : Key) (t : nat) (s : State) : bool * State :=
  if bool_decide (owner k s = Some t) then (true, with_owners (delete k (owners s)) s) else (false, s).

(** ** The registry *)

(** The locked part of [Begin]: the generation, and the previous connection. *)
Definition Begin (k : Key) (c : nat) (r : Registry) : N * option nat * Registry :=
  let generation := (next r + 1)%N in
  (generation, snd <$> registered r !! k, mkRegistry generation (<[k := (generation, c)]> (registered r))).

(** The cleanup [Begin] returns: only the connection's own entry is removed. *)
Definition cleanupLocal (k : Key) (generation : N) (r : Registry) : Registry :=
  match registered r !! k with
  | Some (g, _) => if bool_decide (g = generation) then mkRegistry (next r) (delete k (registered r)) else r
  | None => r
  end.

(** ** Steps *)

(** [preempt], inside its [sync.Once]: without a client to notify the context is
    cancelled at once, else when the close frame is out or a second has passed. *)
Definition preempt (c : nat) (s : State) : State :=
  match conns s !! c with
  | Some cn =>
      if cn_preempted cn then s
      else with_turns (λ ts, ts ∖ {[session_of cn]})
             (with_conn c (mkConn (cn_proc cn) (cn_key cn) (cn_notify cn) (cn_stage cn) (cn_claimed cn) (cn_previous cn)
                (cn_generation cn) true (cn_cancelled cn || negb (cn_notify cn)) (cn_watch cn)) s)
  | None => s
  end.

Inductive label :=
  | Open (c p : nat) (k : Key) (notify : bool)  (* a connection is accepted by process [p] *)
  | Claim (c : nat) (f : fault)
  | Register (c : nat)
  | CancelPrevious (c : nat)
  | StartWatch (c : nat)
  | Bind (c : nat)                    (* the turn state of the session is stored *)
  | Watch (c : nat) (f : fault)       (* the ticker fires *)
  | EndWatch (c : nat)                (* the watch sees [stopCh] or the context *)
  | Hangup (c : nat)                  (* the client goes away: the parent context *)
  | OnLost (c : nat)
  | Notified (c : nat)                (* the close frame is out, or the grace is over *)
  | Stop (c : nat)                    (* the handler returns: the cleanup begins *)
  | Unregister (c : nat)
  | Release (c : nat) (f : fault)
  | Tick (d : N)
  | Crash (p : nat).

Definition on (c : nat) (s : State) (k : Conn → State) : State :=
  match conns s !! c with Some cn => k cn | None => s end.

(** [claimOpenAIWSSessionPreemptOwner] *)
Definition claim_step (c : nat) (f : fault) (cn : Conn) (s : State) : State :=
  let '(previous, s') := ClaimOpenAIResponsesSessionWindow (cn_key cn) c s in
  let s' := match f with FailBefore => s | _ => s' end in
  let claimed := match f with NoFault => true | _ => false end in
  let preempted := claimed && match previous with Some o => negb (bool_decide (o = c)) | None => false end in
  with_conn c (mkConn (cn_proc cn) (cn_key cn) (cn_notify cn) Registering claimed preempted (cn_generation cn)
    (cn_preempted cn) (cn_cancelled cn) (cn_watch cn)) s'.

Definition register_step (c : nat) (cn : Conn) (s : State) : State :=
  let '(generation, previous, r) := Begin (cn_key cn) c (registry_of (cn_proc cn) s) in
  with_registry (cn_proc cn) r
    (with_conn c (mkConn (cn_proc cn) (cn_key cn) (cn_notify cn) (Preempting previous) (cn_claimed cn)
       (cn_previous cn || bool_decide (previous ≠ None)) generation (cn_preempted cn) (cn_cancelled cn) (cn_watch cn)) s).

(** The tail of [Begin...]: the watch, and the turn state of a preempted session. *)
Definition start_watch_step (c : nat) (cn : Conn) (s : State) : State :=
  let s := with_conn c (with_watch (if cn_claimed cn then Watching else NotWatching) (at_stage Running cn)) s in
  if cn_previous cn then with_turns (λ ts, ts ∖ {[session_of cn]}) s else s.

(** The body of the ticker's case in [watchOpenAIWSSessionPreemptOwner]. *)
Definition watch_step (c : nat) (f : fault) (cn : Conn) (s : State) : State :=
  let '(owned, s') := CompareAndRefreshOpenAIResponsesSessionWindow (cn_key cn) c s in
  match f with
  | FailBefore => s
  | FailAfter => s'
  | NoFault => if owned then s' else with_conn c (with_watch LostOwner cn) s'
  end.

Definition release_step (c : nat) (f : fault) (cn : Conn) (s : State) : State :=
  let s' := snd (CompareAndDeleteOpenAIResponsesSessionWindow (cn_key cn) c s) in
  with_conn c (cancelled (at_stage Closed cn)) match f with FailBefore => s | _ => s' end.

(** A crash ends every connection of the process; Redis keeps its keys. *)
Definition crash (p : nat) (s : State) : State :=
  mkState (now s) (owners s) (delete p (procs s))
    ((λ cn, if bool_decide (cn_proc cn = p) then with_watch NotWatching (at_stage Closed cn) else cn) <$> conns s)
    (filter (λ t, t.1.1 ≠ p) (turns s)).

(** One step; a label that is not enabled changes nothing. *)
Definition step (s : State) (l : label) : State :=
  match l with
  | Open c p k notify =>
      match conns s !! c with
      | None => with_conn c (mkConn p k notify Claiming false false 0 false false NotWatching) s
      | Some _ => s
      end
  | Claim c f => on c s (λ cn, match cn_stage cn with Claiming => claim_step c f cn s | _ => s end)
  | Register c => on c s (λ cn, match cn_stage cn with Registering => register_step c cn s | _ => s end)
  | CancelPrevious c =>
      on c s (λ cn, match cn_stage cn with
                    | Preempting previous =>
                        let s := with_conn c (at_stage Arming cn) s in
                        match previous with Some q => preempt q s | None => s end
                    | _ => s
                    end)
  | StartWatch c => on c s (λ cn, match cn_stage cn with Arming => start_watch_step c cn s | _ => s end)
  | Bind c => on c s (λ cn, match cn_stage cn with Running => with_turns (λ ts, {[session_of cn]} ∪ ts) s | _ => s end)
  | Watch c f => on c s (λ cn, match cn_watch cn with
                               | Watching => watch_step c f cn s
                               | _ => s
                               end)
  | OnLost c => on c s (λ cn, match cn_watch cn with
                              | LostOwner => preempt c (with_conn c (with_watch NotWatching cn) s)
                              | _ => s
                              end)
  | EndWatch c => on c s (λ cn, match cn_watch cn with
                                | Watching => if cn_cancelled cn || stopped cn
                                              then with_conn c (with_watch NotWatching cn) s else s
                                | _ => s
                                end)
  | Hangup c => on c s (λ cn, with_conn c (cancelled cn) s)
  | Notified c => on c s (λ cn, if cn_preempted cn then with_conn c (cancelled cn) s else s)
  | Stop c =>
      on c s (λ cn, match cn_stage cn with
                    | Running => with_conn c (at_stage Unregistering cn) s
                    | _ => s
                    end)
  | Unregister c =>
      on c s (λ cn, match cn_stage cn with
                    | Unregistering =>
                        with_registry (cn_proc cn) (cleanupLocal (cn_key cn) (cn_generation cn) (registry_of (cn_proc cn) s))
                          (with_conn c (if cn_claimed cn then at_stage Releasing cn else cancelled (at_stage Closed cn)) s)
                    | _ => s
                    end)
  | Release c f => on c s (λ cn, match cn_stage cn with Releasing => release_step c f cn s | _ => s end)
  | Tick d => mkState (now s + Z.of_N d) (owners s) (procs s) (conns s) (turns s)
  | Crash p => crash p s
  end.

Definition run (ls : list label) (s : State) : State := foldl step s ls.

Definition start (t : time) : State := mkState t ∅ ∅ ∅ ∅.

(** [isOpenAIWSSessionPreempted] *)
Definition isOpenAIWSSessionPreempted (cn : Conn) : bool := cn_preempted cn.

End WSPreempt.
