(* ===== verification/WSPreemptProofs.v ===== *)
(** * What every run of the connections keeps

    A connection in the registry of its process is the one the registry names, or has
    been preempted, or is about to be. *)

From S2P Require Import Prelude GoStrings Interleaving WSPreempt.

Module WSPreemptProofs.
Import GoStrings WSPreempt.

(** ** The invariant *)

(** Between entering the registry and leaving it. *)
Definition entered (cn : Conn) : bool :=
  match cn_stage cn with Preempting _ | Arming | Running | Unregistering => true | _ => false end.

(** [e] is about to call the [cancel] of [c]. *)
Definition preempts (e c : nat) (s : State) : Prop := ∃ en, conns s !! e = Some en ∧ cn_stage en = Preempting (Some c).

Definition about_to_preempt (c : nat) (cn : Conn) (s : State) : Prop :=
  ∃ e en, conns s !! e = Some en ∧ cn_stage en = Preempting (Some c) ∧ cn_proc en = cn_proc cn ∧ cn_key en = cn_key cn.

Definition current (c : nat) (cn : Conn) (s : State) : Prop :=
  registered (registry_of (cn_proc cn) s) !! cn_key cn = Some (cn_generation cn, c).

(** Stages only move forward. *)
Definition rank (cn : Conn) : nat :=
  match cn_stage cn with
  | Claiming => 0 | Registering => 1 | Preempting _ => 2 | Arming => 3 | Running => 4 | Unregistering => 5 | Releasing => 6 | Closed => 7
  end.
Definition begun (cn : Conn) : Prop := (4 ≤ rank cn)%nat.

(** A claimed connection that runs is watched, until something ends it; no other is. *)
Record watched (cn : Conn) : Prop := {
  w_running : cn_stage cn = Running → cn_claimed cn = true → cn_preempted cn = false → cn_cancelled cn = false → cn_watch cn ≠ NotWatching;
  w_claimed : cn_watch cn ≠ NotWatching → cn_claimed cn = true ∧ begun cn
}.

Record inv (s : State) : Prop := {
  i_entry : ∀ p k g c, registered (registry_of p s) !! k = Some (g, c) →
    ∃ cn, conns s !! c = Some cn ∧ cn_proc cn = p ∧ cn_key cn = k ∧ cn_generation cn = g ∧ entered cn = true;
  i_bound : ∀ c cn, conns s !! c = Some cn → entered cn = true → (cn_generation cn <= next (registry_of (cn_proc cn) s))%N;
  i_generation : ∀ c d cn dn, conns s !! c = Some cn → conns s !! d = Some dn → entered cn = true → entered dn = true →
    cn_proc cn = cn_proc dn → cn_generation cn = cn_generation dn → c = d;
  i_place : ∀ c cn, conns s !! c = Some cn → entered cn = true →
    current c cn s ∨ cn_preempted cn = true ∨ about_to_preempt c cn s;
  i_watched : ∀ c cn, conns s !! c = Some cn → watched cn;
  i_newest : ∀ c cn g d, conns s !! c = Some cn → entered cn = true →
    registered (registry_of (cn_proc cn) s) !! cn_key cn = Some (g, d) → (cn_generation cn <= g)%N;
  i_target : ∀ c cn q, conns s !! c = Some cn → cn_stage cn = Preempting (Some q) →
    ∃ qn, conns s !! q = Some qn ∧ cn_proc qn = cn_proc cn ∧ cn_key qn = cn_key cn
}.

Lemma start_inv t : inv (start t).
Proof. by split. Qed.

(** ** Steps that leave the registry alone *)

(** What holds of a connection at any later time. *)
Record follows (cn cn' : Conn) : Prop := {
  f_proc : cn_proc cn' = cn_proc cn;
  f_key : cn_key cn' = cn_key cn;
  f_rank : (rank cn ≤ rank cn')%nat;
  f_watching : begun cn → cn_watch cn' = Watching → cn_watch cn = Watching;
  f_claimed : begun cn → cn_claimed cn' = cn_claimed cn
}.

#[export] Instance follows_preorder : PreOrder follows.
Proof.
  split; [by split|]. intros a b c [P K R W C] [P' K' R' W' C']. unfold begun in W, W', C, C'.
  split; [congruence|congruence|lia| |]; unfold begun.
  - intros Hb Hw. apply W; [lia|]. apply W'; [lia|done].
  - intros Hb. rewrite C' by lia. auto.
Qed.

(** A change of a connection that leaves its place in the registry. *)
Record kept (cn cn' : Conn) : Prop := {
  k_follows : follows cn cn';
  k_generation : cn_generation cn' = cn_generation cn;
  k_entered : entered cn' = entered cn;
  k_preempted : cn_preempted cn = true → cn_preempted cn' = true;
  k_watched : watched cn → watched cn'
}.

#[export] Instance kept_preorder : PreOrder kept.
Proof.
  split; [by split|]. intros a b c [F G E Pr W] [F' G' E' Pr' W'].
  split; [by etrans|congruence|congruence|auto|auto].
Qed.

Record moved (s s' : State) : Prop := {
  m_procs : procs s' = procs s;
  m_conns : ∀ c, match conns s !! c, conns s' !! c with
                 | Some cn, Some cn' => kept cn cn'
                 | None, None => True
                 | _, _ => False
                 end;
  m_preempts : ∀ e c, preempts e c s →
    preempts e c s' ∨ ∀ cn, conns s' !! c = Some cn → cn_preempted cn = true;
  m_targets : ∀ e c, preempts e c s' → preempts e c s
}.

Lemma moved_to s s' c cn : moved s s' → conns s !! c = Some cn → ∃ cn', conns s' !! c = Some cn' ∧ kept cn cn'.
Proof. intros [_ Hm _] Hc. specialize (Hm c). rewrite Hc in Hm. destruct (conns s' !! c) as [cn'|]; [eauto|done]. Qed.

Lemma moved_from s s' c cn' : moved s s' → conns s' !! c = Some cn' → ∃ cn, conns s !! c = Some cn ∧ kept cn cn'.
Proof. intros [_ Hm _] Hc. specialize (Hm c). rewrite Hc in Hm. destruct (conns s !! c) as [cn|]; [eauto|done]. Qed.

#[export] Instance moved_preorder : PreOrder moved.
Proof.
  split.
  - intros s. split; [done| |by left|done]. intros c. by destruct (conns s !! c).
  - intros s1 s2 s3 H1 H2. split.
    + by rewrite (m_procs _ _ H2), (m_procs _ _ H1).
    + intros c. pose proof (m_conns _ _ H1 c) as M1. pose proof (m_conns _ _ H2 c) as M2.
      destruct (conns s1 !! c), (conns s2 !! c), (conns s3 !! c); try done. by etrans.
    + intros e c Hp. destruct (m_preempts _ _ H1 e c Hp) as [Hp2|Hp2]; [by apply (m_preempts _ _ H2)|].
      right. intros cn Hc. destruct (moved_from _ _ _ _ H2 Hc) as (cn2 & Hc2 & Hk). by apply (k_preempted _ _ Hk), Hp2.
    + intros e c Hp. by apply (m_targets _ _ H1), (m_targets _ _ H2).
Qed.

Lemma inv_moved s s' : moved s s' → inv s → inv s'.
Proof.
  intros Hm [He Hb Hg Hp Hw Hn Ht].
  assert (Er : ∀ p, registry_of p s' = registry_of p s) by (intros; unfold registry_of; by rewrite (m_procs _ _ Hm)).
  split.
  - intros p k g c. rewrite Er. intros Hr. destruct (He p k g c Hr) as (cn & Hc & <- & <- & <- & Hen).
    destruct (moved_to _ _ _ _ Hm Hc) as (cn' & Hc' & [[P K _ _ _] G E _ _]). exists cn'. by rewrite P, K, G, E.
  - intros c cn' Hc' Hen. destruct (moved_from _ _ _ _ Hm Hc') as (cn & Hc & [[P K _ _ _] G E _ _]). rewrite Er, P, G.
    apply (Hb c); [done|by rewrite <- E].
  - intros c d cn' dn' Hc' Hd' Hec Hed Hpr Hge.
    destruct (moved_from _ _ _ _ Hm Hc') as (cn & Hc & [[P K _ _ _] G E _ _]), (moved_from _ _ _ _ Hm Hd') as (dn & Hd & [[P' K' _ _ _] G' E' _ _]).
    apply (Hg c d cn dn); congruence.
  - intros c cn' Hc' Hen. destruct (moved_from _ _ _ _ Hm Hc') as (cn & Hc & [[P K _ _ _] G E Pr _]). rewrite E in Hen.
    destruct (Hp c cn Hc Hen) as [Hcur|[Hpre|(e & en & Hen' & Hst & Hep & Hek)]]; [left|right; left; auto|].
    + unfold current in *. by rewrite Er, P, K, G.
    + destruct (m_preempts _ _ Hm e c) as [(en' & Hen2 & Hst2)|Hpre]; [by exists en| |right; left; by apply Hpre].
      right. right. destruct (moved_from _ _ _ _ Hm Hen2) as (en0 & Hen0 & [[P0 K0 _ _ _] _ _ _ _]). rewrite Hen' in Hen0.
      injection Hen0 as <-. exists e, en'. split_and!; [done|done|congruence|congruence].
  - intros c cn' Hc'. destruct (moved_from _ _ _ _ Hm Hc') as (cn & Hc & Hk). by apply (k_watched _ _ Hk), (Hw c).
  - intros c cn' g d Hc' Hen. destruct (moved_from _ _ _ _ Hm Hc') as (cn & Hc & [[P K _ _ _] G E _ _]). rewrite Er, P, K, G.
    apply (Hn c); [done|by rewrite <- E].
  - intros c cn' q Hc' Hst. destruct (moved_from _ _ _ _ Hm Hc') as (cn & Hc & Hk). destruct (m_targets _ _ Hm c q) as (cn0 & Hc0 & Hst0); [by exists cn'|].
    rewrite Hc in Hc0. injection Hc0 as <-. destruct (Ht c cn q Hc Hst0) as (qn & Hq & Hqp & Hqk).
    destruct (moved_to _ _ _ _ Hm Hq) as (qn' & Hq' & Hkq). exists qn'. destruct Hk as [[P K _ _ _] _ _ _ _], Hkq as [[P' K' _ _ _] _ _ _ _].
    split_and!; [done|congruence|congruence].
Qed.

Lemma lookup_with_conn c cn s d : conns (with_conn c cn s) !! d = if decide (d = c) then Some cn else conns s !! d.
Proof. simpl. case_decide as E; [subst; apply lookup_insert_eq|by apply lookup_insert_ne]. Qed.

(** Redis, the turn states and the clock are apart. *)
Lemma moved_apart s s' : procs s' = procs s → conns s' = conns s → moved s s'.
Proof.
  intros Ep Ec. split; [done| | |].
  - intros c. rewrite Ec. by destruct (conns s !! c).
  - intros e c (en & Hen & Hst). left. exists en. by rewrite Ec.
  - intros e c (en & Hen & Hst). rewrite Ec in Hen. by exists en.
Qed.

Lemma moved_conn c cn cn' s : conns s !! c = Some cn → kept cn cn' →
  (∀ q, cn_stage cn = Preempting (Some q) ↔ cn_stage cn' = Preempting (Some q)) → moved s (with_conn c cn' s).
Proof.
  intros Hc Hk Hst. split; [done| | |].
  - intros d. rewrite lookup_with_conn. case_decide; [subst; by rewrite Hc|]. by destruct (conns s !! d).
  - intros e q (en & Hen & Hq). left. destruct (decide (e = c)) as [->|Hne].
    + exists cn'. rewrite lookup_with_conn, decide_True by done. rewrite Hc in Hen. injection Hen as <-. by split; [|apply Hst].
    + exists en. by rewrite lookup_with_conn, decide_False.
  - intros e q (en & Hen & Hq). rewrite lookup_with_conn in Hen. case_decide; [|by exists en]. subst e. injection Hen as <-.
    exists cn. split; [done|by apply Hst].
Qed.

Lemma preempt_lookup q s c : conns (preempt q s) !! c =
  if decide (c = q) then
    (λ cn, if cn_preempted cn then cn
           else mkConn (cn_proc cn) (cn_key cn) (cn_notify cn) (cn_stage cn) (cn_claimed cn) (cn_previous cn)
                  (cn_generation cn) true (cn_cancelled cn || negb (cn_notify cn)) (cn_watch cn)) <$> conns s !! q
  else conns s !! c.
Proof.
  unfold preempt. case_decide as E; [subst|]; destruct (conns s !! q) as [cn|] eqn:Hq; try done; destruct (cn_preempted cn) eqn:Hp;
    simpl; rewrite ?Hp, ?lookup_insert_eq, ?lookup_insert_ne by done; done.
Qed.

Lemma preempted_after q s cn : conns (preempt q s) !! q = Some cn → cn_preempted cn = true.
Proof.
  rewrite preempt_lookup, decide_True by done. destruct (conns s !! q) as [qn|]; simpl; [|done].
  destruct (cn_preempted qn) eqn:E; by intros [= <-].
Qed.

Lemma moved_preempt q s : moved s (preempt q s).
Proof.
  split; [unfold preempt; by repeat case_match| | |].
  - intros c. rewrite preempt_lookup. case_decide; [subst|by destruct (conns s !! c)].
    destruct (conns s !! q) as [cn|]; [|done]. simpl. destruct (cn_preempted cn) eqn:E; [reflexivity|].
    split; [by split|done|done|done|]. intros [Hwr Hwc]. by split.
  - intros e c (en & Hen & Hst). left. unfold preempts. rewrite preempt_lookup. case_decide; [subst|by exists en].
    rewrite Hen. simpl. eexists. split; [done|]. by destruct (cn_preempted en).
  - intros e c (en & Hen & Hst). rewrite preempt_lookup in Hen. case_decide; [subst|by exists en].
    destruct (conns s !! q) as [qn|] eqn:Hq; [|done]. injection Hen as <-. exists qn. split; [done|]. by destruct (cn_preempted qn).
Qed.

Ltac use_stage := repeat match goal with Hst : cn_stage ?cn = _ |- _ => rewrite Hst in * end.
Ltac kept_ok :=
  split; unfold entered; simpl; use_stage;
  [split; unfold begun, rank; simpl; use_stage; try done; try lia; try (intros; congruence); auto
  |done|done|try done; auto
  |intros [Hwr Hwc]; split; unfold begun, rank in *; simpl in *; use_stage; try done; try (intros; congruence);
     try (intros Hne; destruct (Hwc Hne); first [exfalso; lia|split; [done|lia]]); auto].
Ltac moves_conn Hc := apply (moved_conn _ _ _ _ Hc); [|intros ?; simpl; split; congruence].

(** A change of Redis, then of one connection. *)
Lemma moved_redis c cn cn' s s1 : conns s !! c = Some cn → kept cn cn' → (∀ q, cn_stage cn = Preempting (Some q) ↔ cn_stage cn' = Preempting (Some q)) →
  procs s1 = procs s → conns s1 = conns s → moved s (with_conn c cn' s1).
Proof.
  intros Hc Hk Hst Hp1 Hc1. trans s1; [by apply moved_apart|]. eapply moved_conn; [by rewrite Hc1|done|done].
Qed.

Lemma moved_claim c f cn s : conns s !! c = Some cn → cn_stage cn = Claiming → moved s (claim_step c f cn s).
Proof.
  intros Hc Hst. unfold claim_step, ClaimOpenAIResponsesSessionWindow.
  apply (moved_redis c cn); [done| |intros ?; simpl; split; congruence|by destruct f|by destruct f]. kept_ok.
Qed.

Lemma moved_start_watch c cn s : conns s !! c = Some cn → cn_stage cn = Arming → moved s (start_watch_step c cn s).
Proof.
  intros Hc Hst. unfold start_watch_step.
  assert (moved s (with_conn c (with_watch (if cn_claimed cn then Watching else NotWatching) (at_stage Running cn)) s)) as Hm.
  { moves_conn Hc. kept_ok; destruct (cn_claimed cn); try done; try (split; [done|lia]). }
  destruct (cn_previous cn); [|done]. etransitivity; [exact Hm|by apply moved_apart].
Qed.

Lemma moved_watch c f cn s : conns s !! c = Some cn → cn_watch cn = Watching → moved s (watch_step c f cn s).
Proof.
  intros Hc Hw. unfold watch_step, CompareAndRefreshOpenAIResponsesSessionWindow.
  case_bool_decide; destruct f; try reflexivity; try (by apply moved_apart).
  apply (moved_redis c cn); [done| |done|done|done]. kept_ok. intros _. apply Hwc. congruence.
Qed.

Lemma moved_release c f cn s : conns s !! c = Some cn → cn_stage cn = Releasing → moved s (release_step c f cn s).
Proof.
  intros Hc Hst. unfold release_step, CompareAndDeleteOpenAIResponsesSessionWindow.
  apply (moved_redis c cn); [done| |intros ?; simpl; split; congruence|by destruct f; simpl; repeat case_bool_decide..]. kept_ok.
Qed.

Lemma moved_cancel_previous c cn previous s : conns s !! c = Some cn → cn_stage cn = Preempting previous →
  moved s (let s := with_conn c (at_stage Arming cn) s in match previous with Some q => preempt q s | None => s end).
Proof.
  intros Hc Hst. simpl. assert (kept cn (at_stage Arming cn)) as Hk by kept_ok.
  destruct previous as [q|]; [|by moves_conn Hc]. set (s1 := with_conn c (at_stage Arming cn) s).
  pose proof (moved_preempt q s1) as Hpre. split; [by rewrite (m_procs _ _ Hpre)| | |].
  - intros d. pose proof (m_conns _ _ Hpre d) as Hd. subst s1. rewrite lookup_with_conn in Hd. case_decide as E; [subst d|done].
    rewrite Hc. destruct (conns (preempt q _) !! c); [|done]. by etrans.
  - intros e d (en & Hen & Hq). destruct (decide (e = c)) as [->|Hne].
    + rewrite Hc in Hen. injection Hen as <-. rewrite Hst in Hq. injection Hq as ->. right. by apply preempted_after.
    + apply (m_preempts _ _ Hpre). exists en. unfold s1. by rewrite lookup_with_conn, decide_False.
  - intros e d (en & Hen & Hq)%(m_targets _ _ Hpre). unfold s1 in Hen. rewrite lookup_with_conn in Hen.
    case_decide; [|by exists en]. by injection Hen as <-.
Qed.

(** ** Steps that change who is in the registry *)

Lemma registry_with_registry p r s q : registry_of q (with_registry p r s) = if decide (q = p) then r else registry_of q s.
Proof. unfold registry_of. simpl. case_decide as E; [subst; by rewrite lookup_insert_eq|by rewrite lookup_insert_ne]. Qed.

Lemma open_inv c cn' s : inv s → conns s !! c = None → cn_stage cn' = Claiming → cn_watch cn' = NotWatching →
  inv (with_conn c cn' s).
Proof.
  intros [He Hb Hg Hp Hw Hn Ht] Hc Hst Hno.
  assert (Hconn : ∀ d dn, conns s !! d = Some dn → conns (with_conn c cn' s) !! d = Some dn).
  { intros d dn Hd. rewrite lookup_with_conn, decide_False; [done|]. intros ->. congruence. }
  assert (Hin : ∀ d dn, conns (with_conn c cn' s) !! d = Some dn → cn_stage dn ≠ Claiming → conns s !! d = Some dn).
  { intros d dn. rewrite lookup_with_conn. case_decide; [intros [= <-]; congruence|done]. }
  assert (Hen : ∀ dn, entered dn = true → cn_stage dn ≠ Claiming) by (unfold entered; intros dn Hd Hs; by rewrite Hs in Hd).
  split.
  - intros p k g d Hr. destruct (He p k g d Hr) as (dn & Hd & Hrest). exists dn. by split; [apply Hconn|].
  - intros d dn Hd Hed. apply (Hb d); auto.
  - intros d e dn en Hd He' Hed Hee. apply (Hg d e dn en); auto.
  - intros d dn Hd Hed. destruct (Hp d dn) as [Hcur|[Hpre|(e & en & Hee & Hrest)]]; auto. right. right. exists e, en. auto.
  - intros d dn. rewrite lookup_with_conn. case_decide; [|apply Hw]. intros [= <-]. split; congruence.
  - intros d dn g e Hd Hed. apply (Hn d); auto.
  - intros d dn q Hd Hq. destruct (Ht d dn q) as (qn & Hqn & Hrest); [apply Hin; congruence|done|]. exists qn. auto.
Qed.

Section entering.
Context (c : nat) (cn : Conn) (s : State).
Hypothesis Hinv : inv s.
Hypothesis Hc : conns s !! c = Some cn.
Hypothesis Hst : cn_stage cn = Registering.

#[local] Abbreviation r := (registry_of (cn_proc cn) s).
#[local] Abbreviation cn1 := (mkConn (cn_proc cn) (cn_key cn) (cn_notify cn) (Preempting (snd <$> registered r !! cn_key cn)) (cn_claimed cn)
  (cn_previous cn || bool_decide (snd <$> registered r !! cn_key cn ≠ None)) (next r + 1) (cn_preempted cn) (cn_cancelled cn) (cn_watch cn)).
#[local] Abbreviation s1 := (with_registry (cn_proc cn) (mkRegistry (next r + 1) (<[cn_key cn := ((next r + 1)%N, c)]> (registered r)))
  (with_conn c cn1 s)).

Lemma entering_lookup d : conns s1 !! d = if decide (d = c) then Some cn1 else conns s !! d.
Proof using. exact (lookup_with_conn c cn1 s d). Qed.

Lemma was_outside d dn : conns s !! d = Some dn → entered dn = true → d ≠ c.
Proof using Hc Hst. intros Hd Hed ->. rewrite Hc in Hd. injection Hd as <-. unfold entered in Hed. by rewrite Hst in Hed. Qed.

Lemma register_entry p k g d : registered (registry_of p s1) !! k = Some (g, d) →
  (p = cn_proc cn ∧ k = cn_key cn ∧ g = (next r + 1)%N ∧ d = c) ∨
  (registered (registry_of p s) !! k = Some (g, d) ∧ (p = cn_proc cn → k ≠ cn_key cn)).
Proof using.
  rewrite registry_with_registry. case_decide as E; [subst p|by right]. simpl. intros Hr.
  apply lookup_insert_Some in Hr as [[<- [= <- <-]]|[Hne Hr]]; [by left|]. right. by split.
Qed.

Lemma register_inv : inv s1.
Proof using Hinv Hc Hst.
  destruct Hinv as [He Hb Hg Hp Hw Hn Ht]. split.
  - intros p k g d Hr. destruct (register_entry p k g d Hr) as [(-> & -> & -> & ->)|[Hold _]].
    + exists cn1. by rewrite entering_lookup, decide_True.
    + destruct (He _ _ _ _ Hold) as (dn & Hd & Hrest). exists dn. rewrite entering_lookup, decide_False; [done|].
      apply (was_outside d dn Hd). tauto.
  - intros d dn. rewrite entering_lookup, registry_with_registry. case_decide as E; intros Hd Hed; simplify_eq.
    + simpl. rewrite decide_True by done. simpl. lia.
    + pose proof (Hb d dn Hd Hed) as Hle. case_decide as Ep; [|done]. rewrite Ep in Hle. simpl. lia.
  - assert (Hnew : ∀ e en, conns s !! e = Some en → entered en = true → cn_proc en = cn_proc cn → cn_generation en ≠ (next r + 1)%N).
    { intros e en Hen Hee Hpr. pose proof (Hb e en Hen Hee) as Hle. rewrite Hpr in Hle. lia. }
    intros d e dn en. rewrite !entering_lookup. repeat case_decide; intros Hd He' Hed Hee Hpr Hgen; simplify_eq; [done| | |].
    + by destruct (Hnew e en He' Hee (eq_sym Hpr)).
    + by destruct (Hnew d dn Hd Hed Hpr).
    + by apply (Hg d e dn en).
  - intros d dn. rewrite entering_lookup. case_decide as E; intros Hd Hed.
    + injection Hd as <-. subst d. left. unfold current. rewrite registry_with_registry, decide_True by done. simpl.
      by rewrite lookup_insert_eq.
    + destruct (Hp d dn Hd Hed) as [Hcur|[Hpre|(e & en & Hen & Hse & Hrest)]]; [|by right; left|].
      * unfold current in *. rewrite registry_with_registry. case_decide as Ep; [|by left]. rewrite Ep in Hcur. simpl.
        destruct (decide (cn_key dn = cn_key cn)) as [Ek|Ek]; [|left; by rewrite lookup_insert_ne]. right. right.
        exists c, cn1. rewrite entering_lookup, decide_True by done. split_and!; [done| |done|done]. simpl. by rewrite <- Ek, Hcur.
      * right. right. exists e, en. rewrite entering_lookup, decide_False; [done|]. intros ->. rewrite Hc in Hen. injection Hen as <-. congruence.
  - intros d dn. rewrite entering_lookup. case_decide; [|apply Hw]. intros [= <-]. destruct (Hw c cn Hc) as [_ Hwc].
    split; simpl; [done|]. intros Hne. destruct (Hwc Hne) as [_ Hbe]. unfold begun, rank in Hbe. rewrite Hst in Hbe. lia.
  - intros d dn g e. rewrite entering_lookup. intros Hd Hed [(Hpr & _ & -> & _)|[Hr Hne]]%register_entry.
    + case_decide; simplify_eq; simpl; [lia|]. pose proof (Hb d dn Hd Hed) as Hle. rewrite Hpr in Hle. lia.
    + case_decide; simplify_eq; [by destruct (Hne eq_refl)|by apply (Hn d dn g e)].
  - assert (Hsame : ∀ q qn, conns s !! q = Some qn → ∃ qn', conns s1 !! q = Some qn' ∧ cn_proc qn' = cn_proc qn ∧ cn_key qn' = cn_key qn).
    { intros q qn Hq. rewrite entering_lookup. case_decide as E; [|eauto]. subst q. rewrite Hc in Hq. injection Hq as <-. eauto. }
    intros d dn q. rewrite entering_lookup. case_decide as E; intros Hd Hq.
    + injection Hd as <-. simpl in Hq. injection Hq as Hq. destruct (registered r !! cn_key cn) as [[g q0]|] eqn:Hr; [|done].
      injection Hq as ->. destruct (He _ _ _ _ Hr) as (qn & Hqn & Hqp & Hqk & _). destruct (Hsame q qn Hqn) as (qn' & Hqn' & Hp' & Hk').
      exists qn'. split_and!; [done|by rewrite Hp'|by rewrite Hk'].
    + destruct (Ht d dn q Hd Hq) as (qn & Hqn & Hqp & Hqk). destruct (Hsame q qn Hqn) as (qn' & Hqn' & Hp' & Hk').
      exists qn'. split_and!; [done|by rewrite Hp'|by rewrite Hk'].
Qed.

End entering.

Lemma cleanupLocal_lookup k g r k' : registered (cleanupLocal k g r) !! k' =
  match registered r !! k' with
  | Some (g', c) => if decide (k' = k ∧ g' = g) then None else Some (g', c)
  | None => None
  end.
Proof.
  unfold cleanupLocal. destruct (registered r !! k) as [[g0 c0]|] eqn:Hk.
  - case_bool_decide as Eg; simpl.
    + subst g0. destruct (decide (k' = k)) as [->|Hne].
      * rewrite lookup_delete_eq, Hk, decide_True by done. done.
      * rewrite lookup_delete_ne by done. destruct (registered r !! k') as [[g' c']|]; [|done]. by rewrite decide_False by tauto.
    + destruct (registered r !! k') as [[g' c']|] eqn:Hk'; [|done]. rewrite decide_False; [done|]. intros [-> ->]. congruence.
  - destruct (registered r !! k') as [[g' c']|] eqn:Hk'; [|done]. rewrite decide_False; [done|]. intros [-> ->]. congruence.
Qed.

Lemma cleanupLocal_next k g r : next (cleanupLocal k g r) = next r.
Proof. unfold cleanupLocal. by repeat case_match. Qed.

Lemma unregister_inv c cn cn' s : inv s → conns s !! c = Some cn → cn_stage cn = Unregistering → entered cn' = false →
  cn_proc cn' = cn_proc cn → cn_key cn' = cn_key cn → watched cn' →
  inv (with_registry (cn_proc cn) (cleanupLocal (cn_key cn) (cn_generation cn) (registry_of (cn_proc cn) s)) (with_conn c cn' s)).
Proof.
  intros [He Hb Hg Hp Hw Hn Ht] Hc Hst Hout Hproc Hkey Hwatch. set (r1 := cleanupLocal _ _ _). set (s1 := with_registry _ _ _).
  assert (Hcn : entered cn = true) by (unfold entered; by rewrite Hst).
  assert (Hin : ∀ d dn, conns s1 !! d = Some dn → entered dn = true → d ≠ c ∧ conns s !! d = Some dn).
  { intros d dn Hd. apply (eq_trans (eq_sym (lookup_with_conn c cn' s d))) in Hd. case_decide; simplify_eq; [congruence|done]. }
  assert (Hreg : ∀ p k g d, registered (registry_of p s1) !! k = Some (g, d) ↔
    registered (registry_of p s) !! k = Some (g, d) ∧ ¬ (p = cn_proc cn ∧ k = cn_key cn ∧ g = cn_generation cn)).
  { intros p k g d. unfold s1. rewrite registry_with_registry. case_decide as E; [subst p r1|naive_solver].
    rewrite cleanupLocal_lookup. change (registry_of (cn_proc cn) (with_conn c cn' s)) with (registry_of (cn_proc cn) s).
    destruct (registered _ !! k) as [[g' d']|]; [|naive_solver]. case_decide; naive_solver. }
  assert (Hconn : ∀ d dn, d ≠ c → conns s !! d = Some dn → conns s1 !! d = Some dn).
  { intros d dn Hne Hd. apply (eq_trans (lookup_with_conn c cn' s d)). by rewrite decide_False. }
  split.
  - intros p k g d [Hr Hnot]%Hreg. destruct (He p k g d Hr) as (dn & Hd & Hpr & Hk & Hge & Hed). exists dn. split; [|done].
    apply Hconn; [|done]. intros ->. rewrite Hc in Hd. injection Hd as <-. by destruct Hnot.
  - intros d dn Hd Hed. destruct (Hin d dn Hd Hed) as [Hne Hd']. pose proof (Hb d dn Hd' Hed) as Hle. unfold s1.
    rewrite registry_with_registry. case_decide as E; [|done]. unfold r1. rewrite cleanupLocal_next. by rewrite <- E.
  - intros d e dn en Hd He' Hed Hee. destruct (Hin d dn Hd Hed) as [_ Hd'], (Hin e en He' Hee) as [_ He2]. by apply (Hg d e dn en).
  - intros d dn Hd Hed. destruct (Hin d dn Hd Hed) as [Hne Hd'].
    destruct (Hp d dn Hd' Hed) as [Hcur|[Hpre|(e & en & Hen & Hse & Hrest)]]; [left|by right; left|right; right].
    + unfold current in *. apply Hreg. split; [done|]. intros (Hpr & _ & Hge). by apply Hne, (Hg d c dn cn).
    + exists e, en. split; [|done]. apply Hconn; [|done]. intros ->. rewrite Hc in Hen. injection Hen as <-. congruence.
  - intros d dn Hd. apply (eq_trans (eq_sym (lookup_with_conn c cn' s d))) in Hd. case_decide; simplify_eq; [done|by apply (Hw d)].
  - intros d dn g e Hd Hed [Hr _]%Hreg. destruct (Hin d dn Hd Hed) as [_ Hd']. by apply (Hn d dn g e).
  - assert (Hsame : ∀ q qn, conns s !! q = Some qn → ∃ qn', conns s1 !! q = Some qn' ∧ cn_proc qn' = cn_proc qn ∧ cn_key qn' = cn_key qn).
    { intros q qn Hq. destruct (decide (q = c)) as [->|Hne]; [|eauto]. exists cn'. rewrite Hc in Hq. injection Hq as <-. split; [|done].
      apply (eq_trans (lookup_with_conn c cn' s c)). by rewrite decide_True. }
    intros d dn q Hd Hq. destruct (Hin d dn Hd) as [_ Hd']; [by unfold entered; rewrite Hq|].
    destruct (Ht d dn q Hd' Hq) as (qn & Hqn & Hqp & Hqk). destruct (Hsame q qn Hqn) as (qn' & Hqn' & Hp' & Hk').
    exists qn'. split_and!; [done|by rewrite Hp'|by rewrite Hk'].
Qed.

Lemma crash_inv p s : inv s → inv (crash p s).
Proof.
  intros [He Hb Hg Hp Hw Hn Ht].
  assert (Hreg : ∀ q, q ≠ p → registry_of q (crash p s) = registry_of q s) by (intros; unfold registry_of; simpl; by rewrite lookup_delete_ne).
  assert (Hin : ∀ d dn, conns (crash p s) !! d = Some dn → entered dn = true → cn_proc dn ≠ p ∧ conns s !! d = Some dn).
  { intros d dn Hd Hed. simpl in Hd. rewrite lookup_fmap in Hd. destruct (conns s !! d) as [dn0|]; [|done].
    injection Hd as <-. case_bool_decide; [done|]. done. }
  assert (Hconn : ∀ d dn, cn_proc dn ≠ p → conns s !! d = Some dn → conns (crash p s) !! d = Some dn).
  { intros d dn Hne Hd. simpl. rewrite lookup_fmap, Hd. simpl. by rewrite bool_decide_eq_false_2. }
  split.
  - intros q k g d Hr. destruct (decide (q = p)) as [->|Hne].
    { unfold registry_of in Hr. simpl in Hr. rewrite lookup_delete_eq in Hr. simpl in Hr. by rewrite lookup_empty in Hr. }
    rewrite Hreg in Hr by done. destruct (He q k g d Hr) as (dn & Hd & Hpr & Hrest). exists dn. split; [|done]. apply Hconn; [by rewrite Hpr|done].
  - intros d dn Hd Hed. destruct (Hin d dn Hd Hed) as [Hne Hd']. rewrite Hreg by done. by apply (Hb d).
  - intros d e dn en Hd He' Hed Hee. destruct (Hin d dn Hd Hed) as [_ Hd'], (Hin e en He' Hee) as [_ He2]. by apply (Hg d e dn en).
  - intros d dn Hd Hed. destruct (Hin d dn Hd Hed) as [Hne Hd'].
    destruct (Hp d dn Hd' Hed) as [Hcur|[Hpre|(e & en & Hen & Hse & Hpr & Hk)]]; [left|by right; left|right; right].
    + unfold current in *. by rewrite Hreg.
    + exists e, en. split; [|done]. apply Hconn; [by rewrite Hpr|done].
  - intros d dn. simpl. rewrite lookup_fmap. destruct (conns s !! d) as [dn0|] eqn:Hd; [|done]. intros [= <-].
    case_bool_decide; [done|by apply (Hw d)].
  - intros d dn g e Hd Hed. destruct (Hin d dn Hd Hed) as [Hne Hd']. rewrite Hreg by done. by apply (Hn d).
  - intros d dn q Hd Hq. destruct (Hin d dn Hd) as [Hne Hd']; [by unfold entered; rewrite Hq|].
    destruct (Ht d dn q Hd' Hq) as (qn & Hqn & Hqp & Hqk). exists qn. split; [|done]. apply Hconn; [by rewrite Hqp|done].
Qed.

(** ** Every step *)

Lemma on_ind (P : State → Prop) c s k : P s → (∀ cn, conns s !! c = Some cn → P (k cn)) → P (on c s k).
Proof. intros H0 H1. unfold on. destruct (conns s !! c) as [cn|] eqn:Hc; [by apply H1|done]. Qed.

(** The labels that change who is in the registry. *)
Definition moves (l : label) : bool :=
  match l with Open _ _ _ _ | Register _ | Unregister _ | Crash _ => false | _ => true end.

Lemma step_moved l s : moves l = true → moved s (step s l).
Proof.
  intros Hl. destruct l as [c p k n|c f|c|c|c|c|c f|c|c|c|c|c|c|c f|d|p]; try done; simpl; try (apply on_ind; [done|intros cn Hc]).
  - destruct (cn_stage cn) eqn:Hst; try done. by apply moved_claim.
  - destruct (cn_stage cn) eqn:Hst; try done. by apply (moved_cancel_previous c cn).
  - destruct (cn_stage cn) eqn:Hst; try done. by apply moved_start_watch.
  - destruct (cn_stage cn) eqn:Hst; try done. by apply moved_apart.
  - destruct (cn_watch cn) eqn:Hw; try done. by apply moved_watch.
  - destruct (cn_watch cn) eqn:Hw; try done. destruct (cn_cancelled cn || stopped cn) eqn:E; [|done].
    moves_conn Hc. kept_ok. unfold stopped in E. intros Hst _ _ Hca. by rewrite Hca, Hst in E.
  - moves_conn Hc. kept_ok.
  - destruct (cn_watch cn) eqn:Hw; try done. set (s1 := with_conn c (with_watch NotWatching cn) s).
    assert (Hs1 : conns s1 !! c = Some (with_watch NotWatching cn)) by by (unfold s1; rewrite lookup_with_conn, decide_True).
    pose proof (moved_preempt c s1) as Hpre. split; [by rewrite (m_procs _ _ Hpre)| | |].
    + intros d. pose proof (m_conns _ _ Hpre d) as Hd. destruct (decide (d = c)) as [->|Hne].
      * rewrite Hc, preempt_lookup, decide_True, Hs1 by done. simpl. destruct (cn_preempted cn) eqn:E; kept_ok.
      * unfold s1 in Hd at 1. rewrite lookup_with_conn, decide_False in Hd by done. done.
    + intros e d (en & Hen & Hq). apply (m_preempts _ _ Hpre). destruct (decide (e = c)) as [->|Hne].
      * exists (with_watch NotWatching cn). rewrite Hs1. rewrite Hc in Hen. by injection Hen as <-.
      * exists en. unfold s1. by rewrite lookup_with_conn, decide_False.
    + intros e d (en & Hen & Hq)%(m_targets _ _ Hpre). unfold s1 in Hen. rewrite lookup_with_conn in Hen.
      case_decide; [subst e|by exists en]. injection Hen as <-. by exists cn.
  - destruct (cn_preempted cn) eqn:E; [|done]. moves_conn Hc. kept_ok.
  - destruct (cn_stage cn) eqn:Hst; try done. moves_conn Hc. kept_ok.
  - destruct (cn_stage cn) eqn:Hst; try done. by apply moved_release.
  - by apply moved_apart.
Qed.

Lemma step_inv l s : inv s → inv (step s l).
Proof.
  intros Hinv. destruct (moves l) eqn:Hl; [by eapply inv_moved; [apply step_moved|]|].
  destruct l as [c p k n| |c| | | | | | | | | |c| | |p]; try done; simpl.
  - destruct (conns s !! c) eqn:Hc; [done|]. by apply open_inv.
  - apply on_ind; [done|]. intros cn Hc. destruct (cn_stage cn) eqn:Hst; try done. by apply register_inv.
  - apply on_ind; [done|]. intros cn Hc. destruct (cn_stage cn) eqn:Hst; try done. pose proof (i_watched _ Hinv c cn Hc) as [_ Hwc].
    apply unregister_inv; try done; destruct (cn_claimed cn) eqn:Hcl; try done; split; try done; simpl; intros Hne;
      destruct (Hwc Hne); first [congruence|split; [done|unfold begun, rank; simpl; lia]].
  - by apply crash_inv.
Qed.

Lemma run_inv ls s : inv s → inv (run ls s).
Proof. revert s. induction ls as [|l ls IH]; intros s Hs; [done|]. simpl. apply IH. by apply step_inv. Qed.

(** ** One connection, one owner key *)

(** A change of another connection, or of this one as it goes on. *)
Lemma follows_with_conn c cn s d dn dn' : conns s !! d = Some dn → follows dn dn' → conns s !! c = Some cn →
  ∃ cn', conns (with_conn d dn' s) !! c = Some cn' ∧ follows cn cn'.
Proof.
  intros Hd Hf Hc. rewrite lookup_with_conn. case_decide as E; [subst; rewrite Hd in Hc; injection Hc as <-; by exists dn'|by exists cn].
Qed.

Lemma step_follows l s c cn : conns s !! c = Some cn → ∃ cn', conns (step s l) !! c = Some cn' ∧ follows cn cn'.
Proof.
  intros Hc. destruct (moves l) eqn:Hl.
  { destruct (moved_to _ _ _ _ (step_moved l s Hl) Hc) as (cn' & Hc' & [Hf _ _ _ _]). by exists cn'. }
  assert (∃ cn', conns s !! c = Some cn' ∧ follows cn cn') as Hsame by by exists cn.
  destruct l as [d p k n| |d| | | | | | | | | |d| | |p]; try done; simpl.
  - destruct (conns s !! d) eqn:Hd; [done|]. exists cn. rewrite lookup_with_conn, decide_False by congruence. done.
  - apply on_ind; [done|]. intros dn Hd. destruct (cn_stage dn) eqn:Hst; try done.
    eapply (follows_with_conn c cn s d dn); [done| |done]. split; unfold begun, rank; simpl; rewrite ?Hst; done || lia.
  - apply on_ind; [done|]. intros dn Hd. destruct (cn_stage dn) eqn:Hst; try done.
    eapply (follows_with_conn c cn s d dn); [done| |done].
    destruct (cn_claimed dn) eqn:E; split; unfold begun, rank; simpl; rewrite ?Hst; done || lia.
  - rewrite lookup_fmap, Hc. simpl. eexists. split; [done|]. case_bool_decide; [|done].
    split; unfold begun, rank; simpl; try done. destruct (cn_stage cn); lia.
Qed.

Lemma run_follows ls s c cn : conns s !! c = Some cn → ∃ cn', conns (run ls s) !! c = Some cn' ∧ follows cn cn'.
Proof.
  revert s cn. induction ls as [|l ls IH]; intros s cn Hc; [by exists cn|].
  destruct (step_follows l s c cn Hc) as (cn1 & Hc1 & Hf1). destruct (IH _ cn1 Hc1) as (cn2 & Hc2 & Hf2).
  exists cn2. split; [done|by etrans].
Qed.

(** Who is written down as the owner of a key, expired or not. *)
Definition held (k : Key) (s : State) : option nat := fst <$> owners s !! k.

(** The label claims the owner key [k]. *)
Definition claims (k : Key) (l : label) (s : State) : Prop :=
  ∃ c f cn, l = Claim c f ∧ conns s !! c = Some cn ∧ cn_key cn = k.

Lemma preempt_owners q s : owners (preempt q s) = owners s.
Proof. unfold preempt. by repeat case_match. Qed.

Lemma owner_held k s c : owner k s = Some c → held k s = Some c.
Proof. unfold owner, held. destruct (owners s !! k) as [[t e]|]; simpl; [|done]. case_match; [|done]. by intros [= ->]. Qed.

(** The labels that act on Redis. *)
Lemma step_owners l s :
  match l with
  | Claim _ _ | Watch _ _ | Release _ _ => True
  | _ => owners (step s l) = owners s
  end.
Proof.
  destruct l; simpl; try done; try (apply (on_ind (λ s', owners s' = owners s)); [done|intros cn Hc]); repeat case_match; try done;
    rewrite ?preempt_owners; unfold start_watch_step; repeat case_match; done.
Qed.

Lemma step_held k l s : ¬ claims k l s → held k (step s l) = held k s ∨ held k (step s l) = None.
Proof.
  intros Hno. pose proof (step_owners l s) as Ho.
  destruct l as [c p k' n|c f|c|c|c|c|c f|c|c|c|c|c|c|c f|d|p]; try (left; unfold held; by rewrite Ho); simpl;
    (apply (on_ind (λ s', held k s' = held k s ∨ held k s' = None)); [by left|intros cn Hc]).
  - destruct (cn_stage cn); try by left. left. unfold held, claim_step, ClaimOpenAIResponsesSessionWindow. simpl.
    assert (cn_key cn ≠ k) as Hne by (intros Hk; apply Hno; exists c, f, cn; done). destruct f; simpl; rewrite ?lookup_insert_ne; done.
  - destruct (cn_watch cn); try by left. left. unfold held, watch_step, CompareAndRefreshOpenAIResponsesSessionWindow.
    case_bool_decide as E; [|by destruct f]. apply owner_held in E. unfold held in E.
    destruct (decide (cn_key cn = k)) as [<-|Hne]; destruct f; simpl; rewrite ?lookup_insert_eq, ?lookup_insert_ne by done; done.
  - destruct (cn_stage cn); try by left. unfold held, release_step, CompareAndDeleteOpenAIResponsesSessionWindow.
    case_bool_decide as E; [|left; by destruct f]. destruct (decide (cn_key cn = k)) as [<-|Hne]; destruct f; simpl;
      rewrite ?lookup_delete_eq, ?lookup_delete_ne by done; first [by left|by right].
Qed.

(** A watch that stays on has found its connection to be the owner. *)
Lemma watch_finds_owner s c cn cn' : conns s !! c = Some cn → cn_watch cn = Watching →
  conns (step s (Watch c NoFault)) !! c = Some cn' → cn_watch cn' = Watching → held (cn_key cn) s = Some c.
Proof.
  intros Hc Hw. simpl. unfold on. rewrite Hc, Hw. unfold watch_step, CompareAndRefreshOpenAIResponsesSessionWindow.
  case_bool_decide as E; [intros _ _; by apply owner_held|]. rewrite lookup_with_conn, decide_True by done. by intros [= <-].
Qed.

End WSPreemptProofs.
