(* ===== verification/WSPreemptTheorems.v ===== *)
(** * Which connection of a session survives

    Any number of processes and connections, in any order of their steps, with failing
    calls to Redis, crashes, and keys that expire. *)

From S2P Require Import Prelude GoStrings Interleaving WSPreempt WSPreemptProofs.

Module WSPreemptTheorems.
Import GoStrings WSPreempt WSPreemptProofs.

(** ** Convergence *)

Lemma run_claims k l ls s : (∀ x f xn, Claim x f ∈ l :: ls → conns (run (l :: ls) s) !! x = Some xn → cn_key xn ≠ k) →
  ¬ claims k l s ∧ ∀ x f xn, Claim x f ∈ ls → conns (run ls (step s l)) !! x = Some xn → cn_key xn ≠ k.
Proof.
  intros Hno. split.
  - intros (c & f & cn & -> & Hc & Hk). destruct (run_follows (Claim c f :: ls) s c cn Hc) as (cn' & Hc' & [_ Hk' _ _ _]).
    apply (Hno c f cn'); [by left|done|congruence].
  - intros x f xn Hx. apply (Hno x f). by right.
Qed.

(** A connection whose watch looked, and that is still watched, was the owner all along. *)
Lemma watched_owner k c ls : ∀ s cn cn', conns s !! c = Some cn → begun cn → cn_key cn = k →
  (∀ x f xn, Claim x f ∈ ls → conns (run ls s) !! x = Some xn → cn_key xn ≠ k) →
  Watch c NoFault ∈ ls → conns (run ls s) !! c = Some cn' → cn_watch cn' = Watching → held k s = Some c.
Proof.
  induction ls as [|l ls IH]; intros s cn cn' Hc Hb Hk Hno Hin Hc' Hw; [by apply not_elem_of_nil in Hin|].
  destruct (run_claims k l ls s Hno) as [Hno1 Hno2]. destruct (step_follows l s c cn Hc) as (cn1 & Hc1 & Hf1).
  pose proof Hf1 as [_ Hk1 Hr1 Hw1 _]. assert (begun cn1) as Hb1 by (unfold begun in *; lia).
  apply elem_of_cons in Hin as [<-|Hin].
  - destruct (run_follows ls _ c cn1 Hc1) as (cn2 & Hc2 & [_ _ _ Hw2 _]). change (conns (run ls (step s (Watch c NoFault))) !! c = Some cn') in Hc'. rewrite Hc' in Hc2. injection Hc2 as <-.
    rewrite <- Hk. apply (watch_finds_owner s c cn cn1); auto.
  - assert (held k (step s l) = Some c) as Hheld by (eapply (IH _ cn1 cn'); try done; congruence).
    destruct (step_held k l s Hno1) as [E|E]; congruence.
Qed.

(** ** What nobody can take from the newest connection *)

Definition elapsed (ls : list label) : Z := foldr (λ l n, match l with Tick d => Z.of_N d + n | _ => n end) 0 ls.

Lemma elapsed_nonneg ls : 0 ≤ elapsed ls.
Proof. induction ls as [|[] ls IH]; simpl; lia. Qed.

Lemma step_new l s d dn : conns s !! d = None → conns (step s l) !! d = Some dn → ∃ p' n, l = Open d p' (cn_key dn) n.
Proof.
  intros Hd Hd'. destruct (moves l) eqn:Hl.
  { destruct (moved_from _ _ _ _ (step_moved l s Hl) Hd') as (dn0 & Hd0 & _). congruence. }
  destruct l as [e p' k' n| |e| | | | | | | | | |e| | |p']; try done; simpl in Hd'.
  - destruct (conns s !! e) eqn:He; [congruence|]. rewrite lookup_with_conn in Hd'. case_decide; [|congruence]. subst e.
    injection Hd' as <-. simpl. eauto.
  - unfold on in Hd'. destruct (conns s !! e) as [en|] eqn:He; [|congruence]. destruct (cn_stage en); try congruence.
    assert (d ≠ e) as Hne by congruence. simpl in Hd'. rewrite lookup_insert_ne in Hd' by done. congruence.
  - unfold on in Hd'. destruct (conns s !! e) as [en|] eqn:He; [|congruence]. destruct (cn_stage en); try congruence.
    assert (d ≠ e) as Hne by congruence. simpl in Hd'. rewrite lookup_insert_ne in Hd' by done. congruence.
  - rewrite lookup_fmap, Hd in Hd'. done.
Qed.

Section newest.
Context (c p : nat) (k : Key) (claimed : bool) (horizon : time).

Definition in_use (cn : Conn) : Prop := cn_stage cn = Running ∧ cn_preempted cn = false ∧ cn_watch cn ≠ LostOwner.

Record newest (s : State) : Prop := {
  n_conn : ∃ cn, conns s !! c = Some cn ∧ cn_proc cn = p ∧ cn_key cn = k ∧ cn_claimed cn = claimed ∧ in_use cn;
  n_others : ∀ d dn, conns s !! d = Some dn → cn_key dn = k → (3 ≤ rank dn)%nat;
  n_owner : claimed = true → ∃ e, owners s !! k = Some (c, e) ∧ horizon < e
}.

(** The labels that may act on the newest connection. *)
Definition spared (l : label) : Prop :=
  match l with
  | Open _ _ k' _ => k' ≠ k
  | Stop d => d ≠ c
  | Crash q => q ≠ p
  | _ => True
  end.

Lemma nobody_preempts s : inv s → newest s → ∀ e, ¬ preempts e c s.
Proof using.
  intros Hinv [(cn & Hc & _ & Hk & _) Ho _] e (en & He & Hst). destruct (i_target s Hinv e en c He Hst) as (cn' & Hc' & _ & Hk').
  rewrite Hc in Hc'. injection Hc' as <-. pose proof (Ho e en He ltac:(congruence)) as Hr. unfold rank in Hr. rewrite Hst in Hr. lia.
Qed.

Lemma newest_others l s : newest s → spared l → ∀ d dn, conns (step s l) !! d = Some dn → cn_key dn = k → (3 ≤ rank dn)%nat.
Proof using.
  intros [_ Ho _] Hl d dn Hd Hk. destruct (conns s !! d) as [dn0|] eqn:Hd0.
  - destruct (step_follows l s d dn0 Hd0) as (dn' & Hd' & [_ Hk' Hr _ _]). rewrite Hd in Hd'. injection Hd' as <-.
    pose proof (Ho d dn0 Hd0 ltac:(congruence)). lia.
  - destruct (step_new l s d dn Hd0 Hd) as (p' & n & ->). by destruct Hl.
Qed.

Lemma in_use_with_conn s d dn' cn' : (∀ cn, conns s !! c = Some cn → in_use cn) → (d = c → in_use dn') →
  conns (with_conn d dn' s) !! c = Some cn' → in_use cn'.
Proof using. intros Hs Hd. rewrite lookup_with_conn. case_decide; [|apply Hs]. intros [= <-]. by apply Hd. Qed.

Lemma in_use_preempt s q cn' : (∀ cn, conns s !! c = Some cn → in_use cn) → q ≠ c → conns (preempt q s) !! c = Some cn' → in_use cn'.
Proof using. intros Hs Hq. rewrite preempt_lookup, decide_False by done. apply Hs. Qed.

Lemma newest_owner s : newest s → now s ≤ horizon → claimed = true → owner k s = Some c.
Proof using.
  intros [_ _ Ho] Hnow Hcl. destruct (Ho Hcl) as (e & He & Hlt). unfold owner. rewrite He. by rewrite (proj2 (Z.ltb_lt _ _)) by lia.
Qed.

Lemma newest_in_use l s cn' : inv s → newest s → spared l → now s ≤ horizon → conns (step s l) !! c = Some cn' → in_use cn'.
Proof using.
  intros Hinv Hn Hl Hnow. pose proof (nobody_preempts s Hinv Hn) as Hnobody. pose proof (newest_owner s Hn Hnow) as Howner.
  destruct Hn as [(cn & Hc & Hp & Hk & Hcl & Huse) _ _]. pose proof Huse as (Hst & Hpre & Hlost).
  assert (Hs : ∀ cn, conns s !! c = Some cn → in_use cn) by (intros cn0 Hc0; rewrite Hc in Hc0; by injection Hc0 as <-).
  assert (Hother : ∀ d dn st, conns s !! d = Some dn → cn_stage dn = st → st ≠ Running → d ≠ c) by (intros; congruence).
  destruct l as [d p' k' n|d f|d|d|d|d|d f|d|d|d|d|d|d|d f|t|q]; simpl step; try (by intros; eapply Hs);
    try (apply (on_ind (λ s', conns s' !! c = Some cn' → in_use cn')); [by apply Hs|intros dn Hd]).
  - destruct (conns s !! d) eqn:Hd; [by apply Hs|]. apply in_use_with_conn; [done|]. congruence.
  - destruct (cn_stage dn) eqn:Hsd; try (by apply Hs). apply in_use_with_conn; [destruct f; apply Hs|]. intros ->. congruence.
  - destruct (cn_stage dn) eqn:Hsd; try (by apply Hs). apply in_use_with_conn; [apply Hs|]. intros ->. congruence.
  - destruct (cn_stage dn) as [| |previous| | | | |] eqn:Hsd; try (by apply Hs).
    assert (Hs1 : ∀ cn0, conns (with_conn d (at_stage Arming dn) s) !! c = Some cn0 → in_use cn0).
    { intros cn0. apply in_use_with_conn; [done|]. intros ->. congruence. }
    destruct previous as [q|]; [|by apply Hs1]. apply in_use_preempt; [done|]. intros ->. apply (Hnobody d). by exists dn.
  - destruct (cn_stage dn) eqn:Hsd; try (by apply Hs). unfold start_watch_step. intros Hc'.
    apply (in_use_with_conn s d (with_watch (if cn_claimed dn then Watching else NotWatching) (at_stage Running dn))); [done| |].
    + intros ->. congruence.
    + by destruct (cn_previous dn).
  - destruct (cn_stage dn); by apply Hs.
  - destruct (cn_watch dn) eqn:Hw; try (by apply Hs). unfold watch_step, CompareAndRefreshOpenAIResponsesSessionWindow.
    case_bool_decide as E; destruct f; try (by apply Hs). apply in_use_with_conn; [done|]. intros ->. rewrite Hc in Hd. injection Hd as <-.
    destruct E. rewrite Hk. apply Howner. rewrite <- Hcl. apply (w_claimed cn (i_watched s Hinv c cn Hc)). congruence.
  - destruct (cn_watch dn) eqn:Hw; try (by apply Hs). destruct (_ || _); [|by apply Hs]. apply in_use_with_conn; [done|].
    intros ->. rewrite Hc in Hd. by injection Hd as <-.
  - apply in_use_with_conn; [done|]. intros ->. rewrite Hc in Hd. by injection Hd as <-.
  - destruct (cn_watch dn) eqn:Hw; try (by apply Hs). assert (d ≠ c) as Hne by (intros ->; congruence).
    apply in_use_preempt; [|done]. intros cn0. by apply in_use_with_conn.
  - destruct (cn_preempted dn) eqn:E; [|by apply Hs]. apply in_use_with_conn; [done|]. intros ->. congruence.
  - destruct (cn_stage dn) eqn:Hsd; try (by apply Hs). by apply in_use_with_conn.
  - destruct (cn_stage dn) eqn:Hsd; try (by apply Hs). apply (in_use_with_conn s d); [done|]. intros ->. congruence.
  - destruct (cn_stage dn) eqn:Hsd; try (by apply Hs). unfold release_step.
    apply in_use_with_conn; [|intros ->; congruence]. destruct f; try (by apply Hs); unfold CompareAndDeleteOpenAIResponsesSessionWindow; by case_bool_decide.
  - simpl. rewrite lookup_fmap, Hc. simpl. intros [= <-]. rewrite bool_decide_eq_false_2; [done|]. rewrite Hp. intros ->. by destruct Hl.
Qed.

Lemma newest_keeps_owner l s : newest s → now s ≤ horizon → horizon < now s + openAIWSSessionPreemptOwnerTTL → claimed = true →
  ∃ e, owners (step s l) !! k = Some (c, e) ∧ horizon < e.
Proof using.
  intros Hn Hnow Httl Hclaim. pose proof (newest_owner s Hn Hnow Hclaim) as Howner. pose proof (step_owners l s) as Ho.
  destruct Hn as [(cn & Hc & Hp & Hk & Hcl & Hst & _) Hoth Hkey]. specialize (Hkey Hclaim).
  destruct l as [d p' k' n|d f|d|d|d|d|d f|d|d|d|d|d|d|d f|t|q]; try (by rewrite Ho); simpl step;
    (apply (on_ind (λ s', ∃ e, owners s' !! k = Some (c, e) ∧ horizon < e)); [done|intros dn Hd]).
  - destruct (cn_stage dn) eqn:Hsd; try done. assert (cn_key dn ≠ k) as Hne.
    { intros Hkd. pose proof (Hoth d dn Hd Hkd) as Hr. unfold rank in Hr. rewrite Hsd in Hr. lia. }
    unfold claim_step, ClaimOpenAIResponsesSessionWindow. destruct f; simpl; rewrite ?lookup_insert_ne by done; done.
  - destruct (cn_watch dn) eqn:Hw; try done. unfold watch_step, CompareAndRefreshOpenAIResponsesSessionWindow.
    case_bool_decide as E; [|by destruct f]. destruct (decide (cn_key dn = k)) as [Ek|Hne].
    + rewrite Ek, Howner in E. injection E as <-. rewrite Ek. destruct f; simpl; rewrite ?lookup_insert_eq; try done; eauto.
    + destruct f; simpl; rewrite ?lookup_insert_ne by done; done.
  - destruct (cn_stage dn) eqn:Hsd; try done. unfold release_step, CompareAndDeleteOpenAIResponsesSessionWindow.
    case_bool_decide as E; [|by destruct f]. destruct (decide (cn_key dn = k)) as [Ek|Hne].
    + rewrite Ek, Howner in E. injection E as <-. congruence.
    + destruct f; simpl; rewrite ?lookup_delete_ne by done; done.
Qed.

Lemma newest_step l s : inv s → newest s → spared l → now s ≤ horizon → horizon < now s + openAIWSSessionPreemptOwnerTTL → newest (step s l).
Proof using.
  intros Hinv Hn Hl Hnow Httl. split; [|by apply newest_others|by apply newest_keeps_owner].
  pose proof Hn as [(cn & Hc & Hp & Hk & Hcl & Hst & _) _ _]. destruct (step_follows l s c cn Hc) as (cn' & Hc' & [P K _ _ C]).
  pose proof (newest_in_use l s cn' Hinv Hn Hl Hnow Hc') as Huse. exists cn'. split_and!; [done|congruence|congruence| |done].
  rewrite C; [done|]. unfold begun, rank. rewrite Hst. lia.
Qed.

End newest.

Lemma preempt_now q s : now (preempt q s) = now s.
Proof. unfold preempt. by repeat case_match. Qed.

Lemma step_now l s : now (step s l) = now s + match l with Tick d => Z.of_N d | _ => 0 end.
Proof.
  destruct l as [d p' k' n|d f|d|d|d|d|d f|d|d|d|d|d|d|d f|t|q]; simpl; try done; try lia;
    try (apply (on_ind (λ s', now s' = now s + 0)); [lia|intros cn Hc]); rewrite ?Z.add_0_r;
    unfold claim_step, ClaimOpenAIResponsesSessionWindow, start_watch_step, watch_step, CompareAndRefreshOpenAIResponsesSessionWindow,
      release_step, CompareAndDeleteOpenAIResponsesSessionWindow;
    repeat case_match; rewrite ?preempt_now; simplify_eq; done || (simpl; repeat case_match; done).
Qed.

Lemma run_now ls : ∀ s, now (run ls s) = now s + elapsed ls.
Proof.
  induction ls as [|l ls IH]; intros s; [simpl; lia|]. change (run (l :: ls) s) with (run ls (step s l)).
  rewrite IH, step_now. simpl. destruct l; lia.
Qed.

Lemma run_newest c p k claimed horizon ls : ∀ s, inv s → newest c p k claimed horizon s → Forall (spared c p k) ls →
  now s + elapsed ls ≤ horizon → horizon < now s + openAIWSSessionPreemptOwnerTTL → newest c p k claimed horizon (run ls s).
Proof.
  induction ls as [|l ls IH]; intros s Hinv Hn Hls Hle Httl; [done|]. apply Forall_cons in Hls as [Hl Hls].
  pose proof (elapsed_nonneg ls) as Hnn. pose proof (step_now l s) as Hnow. simpl run.
  assert (now s ≤ now (step s l) ∧ now (step s l) + elapsed ls ≤ horizon) as [Hge Hle'] by (simpl in Hle; destruct l; lia).
  apply IH; [by apply step_inv|apply newest_step; done || lia|done|lia|lia].
Qed.

(** ** The properties *)

(** C32: in every run, of two connections of one session in one process, the one that
    entered the registry first has been preempted, or another connection of that
    session is just about to preempt it: cleanups of replaced connections never open a
    gap in which an old and a new one go on side by side. *)
Theorem older_connection_replaced t ls c d cn dn :
  let s := run ls (start t) in
  conns s !! c = Some cn → conns s !! d = Some dn → cn_stage cn = Running → entered dn = true →
  cn_proc cn = cn_proc dn → cn_key cn = cn_key dn → (cn_generation cn < cn_generation dn)%N →
  isOpenAIWSSessionPreempted cn = true ∨ about_to_preempt c cn s.
Proof.
  intros s Hc Hd Hst Hed Hp Hk Hg. pose proof (run_inv ls _ (start_inv t)) as Hinv.
  destruct (i_place _ Hinv c cn Hc) as [Hcur|[Hpre|Hab]]; [unfold entered; by rewrite Hst| |by left|by right].
  unfold current in Hcur. rewrite Hp, Hk in Hcur. pose proof (i_newest _ Hinv d dn _ _ Hd Hed Hcur). lia.
Qed.

(** C33: across processes the owner key decides: when two connections of a session run,
    both of which claimed it, and nobody claims it any more, then one successful look
    of each watch ends at least one of them - whatever else happens, keys expiring
    included. *)
Theorem watches_leave_one t ls0 ls c d cn dn cn' dn' :
  let s := run ls0 (start t) in let s' := run ls s in
  c ≠ d → conns s !! c = Some cn → conns s !! d = Some dn → cn_key cn = cn_key dn →
  cn_stage cn = Running → cn_stage dn = Running → cn_claimed cn = true → cn_claimed dn = true →
  (∀ x f xn, Claim x f ∈ ls → conns s' !! x = Some xn → cn_key xn ≠ cn_key dn) →
  Watch c NoFault ∈ ls → Watch d NoFault ∈ ls → conns s' !! c = Some cn' → conns s' !! d = Some dn' →
  ∃ en, (en = cn' ∨ en = dn') ∧
    (cn_stage en ≠ Running ∨ isOpenAIWSSessionPreempted en = true ∨ cn_cancelled en = true ∨ cn_watch en = LostOwner).
Proof.
  intros s s' Hne Hc Hd Hk Hsc Hsd Hcc Hcd Hno Hwc Hwd Hc' Hd'. pose proof (run_inv ls _ (run_inv ls0 _ (start_inv t))) as Hinv.
  assert (Hends : ∀ x xn xn', conns s !! x = Some xn → cn_stage xn = Running → cn_claimed xn = true → cn_key xn = cn_key dn →
    Watch x NoFault ∈ ls → conns s' !! x = Some xn' →
    (cn_stage xn' ≠ Running ∨ cn_preempted xn' = true ∨ cn_cancelled xn' = true ∨ cn_watch xn' = LostOwner) ∨ held (cn_key dn) s = Some x).
  { intros x xn xn' Hx Hsx Hcx Hkx Hwx Hx'. assert (begun xn) as Hb by (unfold begun, rank; rewrite Hsx; lia).
    destruct (run_follows ls s x xn Hx) as (xn2 & Hx2 & [_ _ _ _ Hcl]). unfold s' in Hx'. rewrite Hx' in Hx2. injection Hx2 as <-.
    specialize (Hcl Hb). pose proof (w_running _ (i_watched _ Hinv x xn' Hx')) as Hrun. unfold isOpenAIWSSessionPreempted.
    destruct (cn_watch xn') eqn:Hw; [|right; by eapply watched_owner|by left; auto]. left.
    destruct (decide (entered xn' = true ∧ begun xn')) as [[He Hbx]|Hout].
    - destruct (cn_stage xn') eqn:Hst; try (by left). destruct (cn_preempted xn'); [by auto|]. destruct (cn_cancelled xn'); [by auto|].
      by destruct (Hrun eq_refl ltac:(congruence) eq_refl eq_refl).
    - left. intros Hst. apply Hout. unfold entered, begun, rank. rewrite Hst. split; [done|lia]. }
  destruct (Hends c cn cn' Hc Hsc Hcc Hk Hwc Hc') as [Hend|Hhc]; [exists cn'; auto|].
  destruct (Hends d dn dn' Hd Hsd Hcd eq_refl Hwd Hd') as [Hend|Hhd]; [exists dn'; auto|]. congruence.
Qed.

(** C34: once a connection runs undisturbed, holds the owner key of its session if it
    claimed it, and no other connection of the session is still opening, nobody takes
    the session from it: whatever the older ones do - late cleanups, watches, failing
    calls - in any process, it is not preempted and keeps the key until a new one
    opens, it stops, its process dies, or the key expires (two hours without a look of
    its watch).  Without the two conditions two connections that open at once can
    preempt each other ([WSPreemptExamples.both_connections_preempted]). *)
Theorem newest_connection_kept t ls0 ls c cn :
  let s := run ls0 (start t) in let s' := run ls s in
  conns s !! c = Some cn → in_use cn →
  (∀ d dn, conns s !! d = Some dn → cn_key dn = cn_key cn → (3 ≤ rank dn)%nat) →
  (cn_claimed cn = true → ∃ e, owners s !! cn_key cn = Some (c, e) ∧ now s + elapsed ls < e) →
  elapsed ls < openAIWSSessionPreemptOwnerTTL → Forall (spared c (cn_proc cn) (cn_key cn)) ls →
  ∃ cn', conns s' !! c = Some cn' ∧ cn_stage cn' = Running ∧ isOpenAIWSSessionPreempted cn' = false ∧
    (cn_claimed cn = true → owner (cn_key cn) s' = Some c).
Proof.
  intros s s' Hc Huse Hoth Hown Httl Hls.
  assert (newest c (cn_proc cn) (cn_key cn) (cn_claimed cn) (now s + elapsed ls) s') as Hn.
  { apply run_newest; [apply run_inv, start_inv| |done|done|lia]. split; [by exists cn|done|done]. }
  pose proof Hn as [(cn' & Hc' & Hp & Hk & Hcl & Hst & Hpre & _) _ _]. exists cn'. split_and!; [done|done|done|].
  intros Hclaim. apply (newest_owner _ _ _ _ _ s' Hn); [|done]. unfold s'. by rewrite run_now.
Qed.

End WSPreemptTheorems.
