(* ===== verification/WSPreemptExamples.v ===== *)
(** * Session preemption on concrete runs *)

From S2P Require Import Prelude GoStrings Interleaving WSPreempt WSPreemptProofs WSPreemptTheorems.

Module WSPreemptExamples.
Import GoStrings WSPreempt WSPreemptProofs WSPreemptTheorems.

Definition session : Key := (1, 2, lit "thread").

(** A connection opens and runs through [Begin]. *)
Definition opens (c p : nat) : list label :=
  [Open c p session true; Claim c NoFault; Register c; CancelPrevious c; StartWatch c].
Definition closes (c : nat) : list label := [Stop c; Unregister c; Release c NoFault].

Definition conn_of (c : nat) (ls : list label) : Conn :=
  default (mkConn 0 session false Closed false false 0 true true NotWatching) (conns (run ls (start 0)) !! c).

(** Stage, preempted and watch of the connections 0 and 1. *)
Definition seen (ls : list label) : list (stage * bool * watch) :=
  (λ c, let cn := conn_of c ls in (cn_stage cn, isOpenAIWSSessionPreempted cn, cn_watch cn)) <$> [0%nat; 1%nat].

(** A client reconnects to the same process: the first connection is preempted at
    once, and its late cleanup leaves the second alone. *)
Definition reconnected : list label := opens 0 7 ++ opens 1 7 ++ [Notified 0] ++ closes 0 ++ [Watch 1 NoFault; Bind 1].

Example reconnect : seen reconnected = [(Closed, true, Watching); (Running, false, Watching)].
Proof. by vm_compute. Qed.

(** The window in which a second connection has entered and not yet cancelled. *)
Definition entering_second : list label := opens 0 7 ++ [Open 1 7 session true; Claim 1 NoFault; Register 1].

Example older_connection_replaced_witness :
  isOpenAIWSSessionPreempted (conn_of 0 entering_second) = true ∨
  about_to_preempt 0 (conn_of 0 entering_second) (run entering_second (start 0)).
Proof.
  by apply (older_connection_replaced 0 entering_second 0 1 (conn_of 0 entering_second) (conn_of 1 entering_second)); vm_compute.
Defined.

(** Two processes: the second connection claims the key, and the first one's watch
    finds out. *)
Definition two_processes : list label := opens 0 7 ++ opens 1 8.
Definition looks : list label := [Tick 2000000000; Watch 1 NoFault; Watch 0 NoFault].

Example watches_leave_one_witness :
  ∃ en, (en = conn_of 0 (two_processes ++ looks) ∨ en = conn_of 1 (two_processes ++ looks)) ∧
    (cn_stage en ≠ Running ∨ isOpenAIWSSessionPreempted en = true ∨ cn_cancelled en = true ∨ cn_watch en = LostOwner).
Proof.
  apply (watches_leave_one 0 two_processes looks 0 1 (conn_of 0 two_processes) (conn_of 1 two_processes)
    (conn_of 0 (two_processes ++ looks)) (conn_of 1 (two_processes ++ looks)));
    [done|by vm_compute|by vm_compute|done|by vm_compute|by vm_compute|by vm_compute|by vm_compute|
     |right; right; left|right; left|by vm_compute|by vm_compute].
  intros x f xn Hx. exfalso. unfold looks in Hx. set_unfold in Hx. naive_solver.
Defined.

Example two_processes_converge :
  seen (two_processes ++ looks ++ [OnLost 0]) = [(Running, true, NotWatching); (Running, false, Watching)].
Proof. by vm_compute. Qed.

(** The older connection's remaining steps. *)
Definition leftovers : list label := [Watch 0 NoFault; OnLost 0; Notified 0; Watch 1 NoFault; Tick 5; Stop 0; Unregister 0; Release 0 NoFault].

Example newest_connection_kept_witness :
  ∃ cn', conns (run leftovers (run two_processes (start 0))) !! 1%nat = Some cn' ∧ cn_stage cn' = Running ∧
    isOpenAIWSSessionPreempted cn' = false ∧
    (cn_claimed (conn_of 1 two_processes) = true →
     owner session (run leftovers (run two_processes (start 0))) = Some 1%nat).
Proof.
  apply (newest_connection_kept 0 two_processes leftovers 1 (conn_of 1 two_processes)); [by vm_compute|by vm_compute| | |by vm_compute|].
  - intros d dn Hd _. assert (Forall (λ '(d, dn), (3 ≤ rank dn)%nat) (map_to_list (conns (run two_processes (start 0))))) as Hall.
    { vm_compute. repeat constructor. }
    rewrite Forall_forall in Hall. apply (Hall (d, dn)). by apply elem_of_map_to_list.
  - intros _. exists openAIWSSessionPreemptOwnerTTL. by split; vm_compute.
  - repeat constructor; done.
Defined.

(** Two connections that open at the same time claim in one order and register in the
    other: each is preempted by the other, and the client has none. *)
Definition crossed : list label :=
  [Open 0 7 session true; Open 1 7 session true; Claim 0 NoFault; Claim 1 NoFault;
   Register 1; CancelPrevious 1; Register 0; CancelPrevious 0; StartWatch 1; StartWatch 0; Watch 0 NoFault; OnLost 0].

Example both_connections_preempted :
  seen crossed = [(Running, true, NotWatching); (Running, true, Watching)].
Proof. by vm_compute. Qed.

(** A watch whose call is under way while its connection closes finds the released key
    and clears the turn state of the connection that came after. *)
Definition late_watch : list label :=
  opens 0 7 ++ closes 0 ++ [Watch 0 NoFault] ++ opens 1 7 ++ [Bind 1].

Example closed_connection_clears_turn :
  bool_decide ((7%nat, 1, lit "thread") ∈ turns (run late_watch (start 0))) = true ∧
  bool_decide ((7%nat, 1, lit "thread") ∈ turns (run (late_watch ++ [OnLost 0]) (start 0))) = false.
Proof. by vm_compute. Qed.

End WSPreemptExamples.
